(* ===== verification/_CoqProject ===== *)
-Q . S2P
Prelude.v
ClusterMetadata.v
Demo.v
SortedMaps.v
TopoId.v
Ordering.v
Compare.v
Cohort.v
Durability.v
CohortSafety.v
Revocation.v
PoolerRole.v
Proposals.v
ProposalFacts.v
ProposalSafety.v
PreVote.v
ActionLock.v
AtomicFile.v
Promises.v
Backoff.v
ConsensusManager.v
Recruit.v
ReplicaIdent.v
SyncStandby.v
RuleDb.v
RuleStore.v
RuleStoreSafety.v
Health.v
FailoverBackoff.v
LeaderFitness.v
RuleChange.v
Coordinator.v
CoordinatorSafety.v
Snapshot.v
LeaderReplacement.v
Analyzers.v
Actions.v
Bytes.v
Diagnostics.v
BufPool.v
Wire.v
WireFacts.v
WireMessages.v
WireRequests.v
ServerConn.v
ServerDemo.v
ServerTotal.v
ServerRuns.v
ServerSafety.v
ServerRefinement.v
ServerErrors.v
PgInteger.v
PgText.v
PgExec.v
PgExecFacts.v
PgExecSafety.v
PgCatalog.v
PgTyping.v
Consolidator.v
ConsolidatorSafety.v
FailoverBuffer.v
FailoverBufferSafety.v
FailoverBufferTimeout.v
FairShare.v
Rebalancer.v
ConnPool.v
ConnScrub.v
ConnMachine.v
ConnLogic.v
ConnRules.v
ConnSync.v
ConnSpecs.v
ConnWorkers.v
ConnDemo.v
ConnSafety.v
ConnWaiters.v
ConnRuns.v
PoolManager.v
PoolManagerSafety.v
PoolManagerGc.v
