(* ===== verification/Prelude.v ===== *)
(** * Verified core of Multigres

    Multigres (Go, under src/) runs sharded Postgres.  Each shard is a cohort of
    poolers, one of them the leader.  What leads the cohort is a _rule_: a leader,
    a cohort and a durability policy, numbered by coordinator term and leader
    subterm, stored in Postgres itself (multigres.current_rule).  Orchestrators
    (multiorch) watch the poolers, decide that a leader must be replaced and change
    it in two steps: they _recruit_ poolers, each of which durably promises to
    refuse work below a term, and then propose a new rule built from the recruited
    poolers' positions; the new leader is promoted and writes the rule in two
    phases, proposal then decision.  A pooler lends its Postgres connections to
    sessions from pools, one pair per user, whose capacities it rebalances by
    demand.  Gateways serve the clients over the PostgreSQL
    protocol: they hold requests back while a shard fails over, share prepared
    statements between connections and evaluate simple expressions themselves.  This library models that system
    from the message types up to the handlers and proves what makes it correct.

    ** Parts, files and correspondence

    Foundations
    - [Prelude]: Go errors and results, machine integers, tactics and hints.
      [Bytes]: big-endian and decimal encodings of the standard library.
    - [ClusterMetadata], [Health]: the protobuf messages of
      proto/clustermetadata.proto, consensusdata.proto, multiorchdata.proto and
      multipoolermanagerdata.proto as records, message pointers as options, and the
      nil-safe accessors of go/pb.  The class [Runtime] stands for the third-party
      calls (LSN parsing, timestamps, proto.Equal), [RuntimeLaws] for their
      documented behaviour.  [Demo] instantiates them and holds the concrete
      poolers, rules and statuses the witnesses use.
    - [SortedMaps] (go/tools/sortedmaps), [TopoId] (go/common/topoclient/id.go),
      [Ordering] (the comparison-function interface the Go code shares).

    Consensus rules (go/common/consensus)
    - [Compare] (compare.go): the order on rule numbers, rule positions and pooler
      positions, and the merge of what is known of a primary.
    - [Cohort], [Durability] (durability.go, policy_*.go and
      go/common/topoclient/durability.go): quorum policies as a class with two
      instances, the synchronous-replication settings they build, recruitment
      sufficiency, policy transitions.  [CohortSafety] (cohort_safety.go).
    - [Revocation] (revocation.go): building, ordering and accepting revocations.
      [PoolerRole] (pooler.go): leader, follower, observer.
    - [Proposals], with its lemmas in [ProposalFacts] (proposals.go and
      outgoing_rule.go): discovery of the outgoing rule, the choice of the leader,
      the validation of a proposal.  [ProposalSafety] and [PreVote] hold what it
      guarantees.

    Poolers (go/services/multipooler/internal/manager)
    - [ActionLock] (actionlock), [AtomicFile] (go/tools/fileutil), [Promises]
      (consensus_promises.go, promise_storage.go): the lock, the crash model of the
      file system and the promises kept on disk.
    - [ConsensusManager] (consensus/manager.go, pgmode), [Recruit]
      (rpc_consensus.go): a pooler's consensus state, the Recruit handler and the
      checks of Promote over it, with a cluster of poolers as a step relation.
    - [ReplicaIdent], [SyncStandby] (replicaident.go, sync_standby_*.go): identity
      as an application_name and the synchronous-standby settings of Postgres.
    - [RuleDb], [RuleStore], [RuleStoreSafety] (rule_store.go): the tables and SQL
      statements, the store that issues them in a state and error monad, and what
      it guarantees.

    Connection pools (go/services/multipooler/internal)
    - [ConnPool], [ConnScrub], [ConnMachine] (pools/connpool, and the settings of
      connstate): a pool shared by clients and background workers.  A goroutine is a
      program, a tree of the atomic actions of the code with a node for each loop;
      the machine interleaves the programs at every action.  [ConnLogic] is a
      program logic for them: an invariant of the shared state, a share of it that
      each goroutine owns, and a weakest precondition; [ConnRules] proves it for
      each action, [ConnSync] for the waiting and handing over, [ConnSpecs] and
      [ConnWorkers] specify each operation, worker and client.  [ConnSafety] and
      [ConnWaiters] hold what follows for every run, [ConnRuns] runs that show what
      does not, [ConnDemo] the pool of the witnesses.
    - [FairShare] (connpoolmanager/fair_share_allocator.go): the allocator and the
      split between the classes, with the code's floating-point shares.
      [Rebalancer] (demand_tracker.go, rebalancer.go, user_pool.go): the demand
      windows and the rebalance cycle over a manager's pools.
    - [PoolManager] (connpoolmanager/manager.go, user_pool.go, rebalancer.go): drain
      counters, and creation, acquisition, eviction, garbage collection, opening,
      closing and reopening as steps of goroutines, and the retry loop.
      [PoolManagerSafety] and [PoolManagerGc] hold what they guarantee.

    Orchestrators (go/services/multiorch)
    - [Backoff] (go/tools/retry/backoff.go, go/common/ha/backoff.go) and
      [FailoverBackoff] (consensus/failover_backoff.go).
    - [LeaderFitness], [RuleChange], [Coordinator], [CoordinatorSafety]
      (consensus/leader_fitness.go, rule_change.go, coordinator.go,
      rule_change_certified.go): the rounds that recruit, build a proposal with
      [Proposals] and promote.  A round is a function of what the RPCs answer and
      in which order they arrive.
    - [Snapshot], [LeaderReplacement], [Analyzers], [Actions]
      (internal/snapshot, recovery/analysis, recovery/actions): what an
      orchestrator knows of a shard, the problems it reports and the actions they
      start.

    The PostgreSQL protocol (go/common/pgprotocol)
    - [Diagnostics] (go/common/mterrors): diagnostics and wrapped errors.
      [BufPool] (bufpool): the buffer pool, behind the class [BufferPool] that the
      rest of the protocol is proved against.
    - [Wire], [WireFacts] (server/packet.go, client/packet.go): packets written in
      place into the writer's or a pool's buffer, over a network that may fail at
      any write, and messages read back; [WireMessages] (server/query.go,
      client/query.go): what servers write and clients parse; [WireRequests]
      (client/extended.go, the parsing in server/conn.go, sqltypes/params.go): what
      clients write and servers parse.
    - [ServerConn] (server/conn.go, query.go, handler.go): a client connection in a
      state monad, from the command loop to the handlers of each message, with the
      query handler as a class.  [ServerTotal], [ServerRuns], [ServerSafety],
      [ServerRefinement] and [ServerErrors] hold what it guarantees, [ServerDemo]
      the handler and the connection of the witnesses.

    Gateways (go/services/multigateway, go/common)
    - [PgInteger], [PgText] (parser/datum, pgeval/funcs): datums and the integer
      and boolean functions at their widths.  [PgExec], [PgExecFacts],
      [PgExecSafety] (pgeval/fmgr, pgeval/exec): function lookup, preparation of an
      expression into steps over shared call frames, and their evaluation against a
      reference semantics.  [PgCatalog], [PgTyping] (pgcatalog): the pg_proc rows of
      the registered functions and the typing of what is evaluated.
    - [Consolidator], [ConsolidatorSafety] (preparedstatement): statements shared
      between connections, against the specification that shares nothing.
    - [FailoverBuffer], [FailoverBufferSafety], [FailoverBufferTimeout]
      (multigateway/buffer): the buffer's critical sections as functions, its
      goroutines as threads of a step relation.

    A Go struct is a record, an enum an inductive type, a method a function that
    takes and returns the state it changes, a fallible method one that returns
    [result] or an [option gerror].  Objects that are shared and mutated (call
    frames, prepared statements, buffer entries) live in a store and are named by
    reference.  What an external system answers (a system call, a SQL statement, an
    RPC, a clock) is an argument, so a theorem holds for every answer, failures
    that did take effect included.

    ** What the theorems show

    - Failover safety: recruited sets of two sufficient rounds overlap, a
      sufficient recruitment leaves no quorum able to commit, and a proposal built
      from it leads from a pooler that has every durable write and every durable
      rule (Durability, ProposalSafety); with an external certificate the frozen
      position takes the place of recruitment.  A pre-vote succeeds exactly when
      the round it predicts would.  Whatever the poolers answer, a failover
      promotes only such a leader, and its success means the leader acknowledged; a
      certified change promotes the leader it names, ahead of whom no answer that
      had arrived is (CoordinatorSafety).
    - Promises: the revocation an orchestrator builds from the reports of a cohort
      is one its poolers accept; the promise on disk only grows across crashes,
      failed writes and restarts; in a cluster of poolers answering in any order, a
      term is won by at most one round (Revocation, Promises, Recruit).
    - The handlers: a successful Recruit stopped replication and holds its promise
      on disk; Promote needs a recruit of that very term; a pooler behind its
      recruit floor is not recruited; what a pooler records of its primary only
      advances (Recruit, ConsensusManager, PoolerRole).
    - The rule store: an update moves the shard to a strictly higher rule, writes
      what it was asked, issues its one proposal under the policy that satisfies
      the old and the new rule and after the promotion, and every outcome is a
      sequence of the SQL statements under which rule_history mirrors current_rule
      and the decision never moves back, as long as proposals are issued the way the
      store issues them (RuleDb, RuleStoreSafety).
    - The orchestrator: a failover is asked for only on evidence against the leader
      and with enough members to recruit, a leader its followers vouch for is not
      unreachable, the fittest candidate is a best one, a cohort is changed on the
      rule that was checked, and a shard is bootstrapped with a cohort of which any
      member can be lost without losing sight of a durable write (LeaderReplacement,
      LeaderFitness, Analyzers, Actions).
    - Settings: the synchronous-standby settings a policy builds wait for enough
      acknowledgements to satisfy it, and a success of the manager means they are
      in force (Durability, SyncStandby).
    - The protocol: what servers write within the protocol's widths clients read
      back, over any buffers (WireMessages); a pool serves every size within its buckets and never hands
      out a buffer twice (BufPool); the command loop ends without a panic whatever
      is sent and however writing fails (ServerTotal); over a working network, with a
      handler that passes rows through whole, every message is answered in its turn
      and by whole frames, nothing but an error or ReadyForQuery follows an error,
      every cycle is closed once and delivered, and the loop stops for one of the
      reasons listed, with the last words that belong to it (ServerSafety); serving the
      bytes of requests is serving the requests, for any handler and any failures
      (ServerRefinement); and an error costs the rest of its batch and nothing more
      (ServerErrors).
    - The evaluation engine: arithmetic is exact or an error at every width, gcd and
      lcm terminate with the right value, numbers read back what they print, and a
      prepared expression, evaluated any number of times over its reused frames,
      means what its tree means and has its type (PgInteger, PgText, PgExecFacts,
      PgExecSafety, PgTyping).
    - Prepared statements: sharing them is invisible to connections that send no
      text which reads like the key of a typed statement, and canonical names
      identify statements (ConsolidatorSafety).
    - The failover buffer: under every interleaving slots are accounted for, nothing
      is closed or released twice, no waiting request is lost, and an expired one is
      evicted by the timeout goroutine alone (FailoverBufferSafety,
      FailoverBufferTimeout).
    - Connection pools: whatever the clients do and in every interleaving, a pool
      does not panic, a connection is lent to one client at a time and nothing
      touches it meanwhile, open connections stay within the largest capacity, a
      client gets a live connection with the settings it asked for, no count leaks
      when all is at rest, and a waiter is overtaken a bounded number of times
      (ConnSafety, ConnWaiters).
    - Capacity: the allocation is the max-min fair one, the classes share the budget,
      a rebalance keeps every pool served within it, for a budget of two or more and
      a proper ratio, and a tracker reports the peak of its window (FairShare,
      Rebalancer).
    - The pool manager: garbage collection never touches a pool in use, no request
      sleeps through the end of a reopen, nothing panics but a request with settings
      before the first Open, a drain waits for exactly the loans it should, and
      retries are bounded (PoolManagerGc,
      PoolManagerSafety).
    - Infrastructure: mutual exclusion of the action lock, all-or-nothing file
      replacement, order-independent maxima, exact saturating backoff, and the
      spacing of failover attempts.

    ** Bounds, fuel and idealisations

    Loops are folds or structural recursions, with exceptions that run on fuel
    proved to be enough: the Euclidean loop of the gcd on twice the operands' width,
    since each two rounds halve the smaller operand; a decimal number on one digit
    per bit; the buckets of a pool on one round per doubling; a buffered write on
    three rounds, after which the rest fits the buffer; the fields of a diagnostic
    on one round per byte; the command loop on one round more than there are bytes
    of input; the rounds of an allocation on one more than the capacity left, since each
    hands out some of it; the retry loop on its bound.  The programs of a pool
    need none: the machine runs them one action at a time, for as long as the
    schedule says.  Integers are [Z]; where the code
    can wrap, the wrap is written out ([wrap64], [wrap32], [to_int], [to_uint]) and
    theorems state the range they need.  A protobuf message is immutable, which is
    sound because the modelled code clones before it writes.  Strings are byte
    strings.  Error values keep their format strings, not the interpolated
    arguments.  A critical section under a mutex is one step.  The timeout
    goroutine computes its delay and arms its timer in one step, and the lock-free
    scan of a garbage collection is one step, since what it finds is checked again.  A gateway
    shuts its buffer down once.  The receive functions of the binary format are left
    out of the registered builtins, and a call reads an argument it was not given as
    zero, where Go panics.  Logging, tracing
    and metrics are not modelled, and a timeout is a failed call.

    ** Not modelled

    The rest of the handlers of rpc_consensus.go (SetPrimary, ResignLeadership and
    the part of Promote after its checks), the orchestrator's recovery loop, the
    analysis phase of the evaluation engine, the startup phase, COPY and
    notifications of a connection and the client's response loops, the gateway's
    planner, the admin pool and the reserved connections over a pool, the SQL
    parser, pgctld, administration and provisioning: see the list of components
    kept with this library.  They drive processes and networks, or are generated,
    and hold little logic of their own, with three exceptions that would come next:
    the client's response loops, the standby-name parser and the remaining
    handlers. *)

From stdpp Require Import gmap strings list fin_maps sorting.

Declare Scope go_scope.
Delimit Scope go_scope with go.

(** ** Go errors

    A non-nil Go [error] is the list of the format strings that built it,
    outermost wrap first: [fmt.Errorf("a: %w", err)] is [wrap "a" err].  The
    interpolated arguments are not rendered. *)
Definition gerror : Type := list string.

Definition err (msg : string) : gerror := [msg].
Definition wrap (msg : string) (e : gerror) : gerror := msg :: e.

(** A function returning [(T, error)] whose value is only meaningful when the
    error is nil returns [result T]; a function returning only [error] returns
    [option gerror], [None] being nil. *)
Inductive result (A : Type) : Type :=
| Ok (a : A)
| Err (e : gerror).
Arguments Ok {A} a.
Arguments Err {A} e.

Definition result_bind {A B} (f : A -> result B) (r : result A) : result B :=
  match r with Ok a => f a | Err e => Err e end.

#[export] Instance result_ret : MRet result := fun A a => Ok a.
#[export] Instance result_mbind : MBind result := @result_bind.

(** [if err := e; err != nil { return nil, err }]. *)
Definition check {A} (e : option gerror) (k : result A) : result A :=
  match e with None => k | Some e => Err e end.

(** [if err := e; err != nil { return err }]. *)
Definition check_err (e : option gerror) (k : option gerror) : option gerror :=
  match e with None => k | Some e => Some e end.

(** [_, err := r; return err]. *)
Definition err_of {A} (r : result A) : option gerror :=
  match r with Ok _ => None | Err e => Some e end.

Definition is_Ok {A} (r : result A) : Prop := err_of r = None.

(** [if err != nil { return fmt.Errorf(msg + ": %w", err) }]. *)
Definition wrap_result {A} (msg : string) (r : result A) : result A :=
  match r with Ok a => Ok a | Err e => Err (wrap msg e) end.

Definition wrap_err (msg : string) (e : option gerror) : option gerror :=
  wrap msg <$> e.

Notation "'guard!' e ';' k" := (check e k)
  (at level 10, e at level 100, k at level 200,
   format "'guard!'  e ';' '//' k") : go_scope.
Notation "'try!' e ';' k" := (check_err e k)
  (at level 10, e at level 100, k at level 200,
   format "'try!'  e ';' '//' k") : go_scope.

(** ** Machine integers *)

Definition int64_min : Z := -(2 ^ 63).
Definition int64_max : Z := 2 ^ 63 - 1.
Definition in_int64 (z : Z) : Prop := (int64_min <= z <= int64_max)%Z.

(** Two's-complement wrap-around of a 64-bit signed integer. *)
Definition wrap64 (z : Z) : Z := ((z + 2 ^ 63) mod 2 ^ 64 - 2 ^ 63)%Z.

Lemma wrap64_id z : in_int64 z -> wrap64 z = z.
Proof. unfold in_int64, int64_min, int64_max, wrap64. intros H. rewrite Z.mod_small; lia. Qed.

Lemma wrap64_range z : in_int64 (wrap64 z).
Proof.
  unfold in_int64, int64_min, int64_max, wrap64.
  pose proof (Z.mod_pos_bound (z + 2 ^ 63) (2 ^ 64) ltac:(lia)). lia.
Qed.

(** Wrap-around of an unsigned 64-bit integer. *)
Definition wrapu64 (z : Z) : Z := (z mod 2 ^ 64)%Z.

(** [len(s)] as a Go [int]. *)
Definition len {A} (l : list A) : Z := Z.of_nat (length l).

(** ** Lists of pairs *)

Lemma pairs_eq {A B} (l1 l2 : list (A * B)) :
  l1.*1 = l2.*1 -> l1.*2 = l2.*2 -> l1 = l2.
Proof.
  revert l2. induction l1 as [|[a b] l1 IH]; intros [|[a' b'] l2] H1 H2; simplify_eq/=; [done|].
  f_equal. by apply IH.
Qed.

Lemma fst_functional {A B} (l : list (A * B)) a b b' : NoDup l.*1 -> (a, b) ∈ l -> (a, b') ∈ l -> b = b'.
Proof.
  induction l as [|[x y] l IH]; [by intros _ ?%elem_of_nil|]. cbn. intros [Hn Hd]%NoDup_cons.
  intros [E1|H1]%elem_of_cons [E2|H2]%elem_of_cons; simplify_eq; [done| | |by apply IH].
  - destruct Hn. by apply (list_elem_of_fmap_2 fst) in H2.
  - destruct Hn. by apply (list_elem_of_fmap_2 fst) in H1.
Qed.

Lemma filter_none {A} (P : A -> Prop) `{forall x, Decision (P x)} (l : list A) :
  (forall x, x ∈ l -> ~ P x) -> filter P l = [].
Proof.
  induction l as [|x l IH]; intros Hl; [done|].
  rewrite filter_cons_False by (apply Hl; left). apply IH. intros; apply Hl. by right.
Qed.

Lemma filter_all {A} (P : A -> Prop) `{forall x, Decision (P x)} (l : list A) :
  (forall x, x ∈ l -> P x) -> filter P l = l.
Proof.
  induction l as [|x l IH]; intros Hl; [done|].
  rewrite filter_cons_True by (apply Hl; left). f_equal. apply IH. intros; apply Hl. by right.
Qed.

Lemma filter_map_comm {A B} (P : B -> Prop) (Q : A -> Prop) `{forall x, Decision (P x)}
    `{forall x, Decision (Q x)} (f : A -> B) (l : list A) :
  (forall x, P (f x) <-> Q x) -> filter P (map f l) = map f (filter Q l).
Proof.
  intros Hf. induction l as [|x l IH]; [done|]. cbn [map]. destruct (decide (Q x)) as [Hq|Hq].
  - rewrite (filter_cons_True _ (f x)) by (by apply Hf). rewrite (filter_cons_True Q x) by done.
    cbn. by rewrite IH.
  - rewrite (filter_cons_False _ (f x)) by (by rewrite Hf). by rewrite (filter_cons_False Q x).
Qed.

(** ** Automation *)

Create HintDb multigres.

(** Case analysis on the booleans a definition tests. *)
Ltac split_ifs :=
  repeat match goal with
  | |- context [if ?b then _ else _] =>
      lazymatch type of b with bool => destruct b eqn:? end
  | H : context [if ?b then _ else _] |- _ =>
      lazymatch type of b with bool => destruct b eqn:? end
  end.

(** Turns boolean comparisons in the context into propositions. *)
Ltac reflect_bools :=
  repeat match goal with
  | H : (_ && _)%bool = true |- _ => apply andb_true_iff in H as [? ?]
  | H : (_ || _)%bool = false |- _ => apply orb_false_iff in H as [? ?]
  | H : negb _ = true |- _ => apply negb_true_iff in H
  | H : negb _ = false |- _ => apply negb_false_iff in H
  | H : (_ =? _)%Z = true |- _ => apply Z.eqb_eq in H
  | H : (_ =? _)%Z = false |- _ => apply Z.eqb_neq in H
  | H : (_ <? _)%Z = true |- _ => apply Z.ltb_lt in H
  | H : (_ <? _)%Z = false |- _ => apply Z.ltb_ge in H
  | H : (_ <=? _)%Z = true |- _ => apply Z.leb_le in H
  | H : (_ <=? _)%Z = false |- _ => apply Z.leb_gt in H
  | H : bool_decide _ = true |- _ => apply bool_decide_eq_true in H
  | H : bool_decide _ = false |- _ => apply bool_decide_eq_false in H
  end.

(** Inverts a successful chain of guards and binds, one early return at a
    time: each error branch contradicts the success hypothesis. *)
Ltac inv_ok :=
  repeat match goal with
  | H : Ok _ = Ok _ |- _ => injection H as H; try subst
  | H : Err _ = Ok _ |- _ => discriminate H
  | H : Ok _ = Err _ |- _ => discriminate H
  | H : Some _ = None |- _ => discriminate H
  | H : None = Some _ |- _ => discriminate H
  | H : check ?e _ = Ok _ |- _ =>
      let E := fresh "Hchk" in destruct e eqn:E; cbn [check] in H; [discriminate H|]
  | H : check_err ?e _ = None |- _ =>
      let E := fresh "Hchk" in destruct e eqn:E; cbn [check_err] in H; [discriminate H|]
  | H : (?r ≫= _) = Ok _ |- _ =>
      let E := fresh "Hbind" in destruct r eqn:E; cbn [mbind result_mbind result_bind] in H;
      [|discriminate H]
  | H : wrap_result _ ?r = Ok _ |- _ =>
      let E := fresh "Hwrap" in destruct r eqn:E; cbn [wrap_result] in H; [|discriminate H]
  | H : wrap_err _ ?e = None |- _ => apply fmap_None in H
  end.

(** The branch that issues no call: [H] makes the list of calls empty. *)
Ltac no_calls H Hin := injection H as <- <-; by apply elem_of_nil in Hin.

(** Proves a closed decidable proposition by evaluating its decision. *)
Ltac by_decide := apply (bool_decide_unpack _); vm_compute; exact I.
