(* ===== verification/ClusterMetadata.v ===== *)
(** The protobuf messages of proto/clustermetadata.proto and
    proto/consensusdata.proto the consensus code works on, with the nil-safe
    accessors generated in go/pb.

    A message pointer is an [option]: [None] is the nil pointer, and every
    accessor [GetX] returns the zero value on it, as the generated Go accessors
    do.  Messages are immutable values here: the modelled code never writes
    through a pointer it shares (it clones first), so [proto.Clone] is the
    identity. *)

From stdpp Require Import base strings list.
From S2P Require Import Prelude.

(** An open proto3 enum keeps the wire values that have no name. *)
Inductive ComponentType :=
| UNKNOWN | MULTIPOOLER | MULTIGATEWAY | MULTIORCH
| COMPONENT_UNNAMED (wire : Z).

Inductive QuorumType :=
| QUORUM_TYPE_UNKNOWN
| QUORUM_TYPE_AT_LEAST_N
| QUORUM_TYPE_MULTI_CELL_AT_LEAST_N
| QUORUM_TYPE_UNNAMED (wire : Z).

Record ID := mkID { Component : ComponentType; Cell : string; Name : string }.

Record Timestamp := mkTimestamp { Seconds : Z; Nanos : Z }.

Record Duration := mkDuration { d_Seconds : Z; d_Nanos : Z }.

Record PoolerAddress := mkPoolerAddress {
  pa_Id : option ID;
  pa_Host : string;
  pa_PostgresPort : Z
}.

Record DurabilityPolicyMsg := mkDurabilityPolicyMsg {
  PolicyName : string;
  PolicyVersion : Z;
  dp_QuorumType : QuorumType;
  RequiredCount : Z;
  dp_Description : string
}.

Record RuleNumber := mkRuleNumber { CoordinatorTerm : Z; LeaderSubterm : Z }.

Record ShardRule := mkShardRule {
  sr_RuleNumber : option RuleNumber;
  LeaderId : option ID;
  CohortMembers : list (option ID);
  sr_DurabilityPolicy : option DurabilityPolicyMsg;
  CoordinatorId : option ID;
  CreationTime : option Timestamp
}.

Record RulePosition := mkRulePosition {
  pos_Decision : option ShardRule;
  pos_Proposal : option ShardRule
}.

Record PoolerPosition := mkPoolerPosition {
  pp_Position : option RulePosition;
  pp_Lsn : string
}.

(** [clustermetadatapb.RuleNumberPosition], the message; the Go struct of the
    same name is [Compare.RuleNumberPosition]. *)
Record RuleNumberPositionMsg := mkRuleNumberPositionMsg {
  rnpm_Decision : option RuleNumber;
  rnpm_Proposal : option RuleNumber
}.

Record LsnPosition := mkLsnPosition {
  lp_Position : option RuleNumberPositionMsg;
  lp_Lsn : string
}.

Record ReplicationPrimary := mkReplicationPrimary {
  rp_Position : option RulePosition;
  rp_Primary : option PoolerAddress;
  RewindReady : bool
}.

Record RecruitIntent := mkRecruitIntent {
  ReplaceDecision : option RuleNumber;
  Attempt : Z
}.

Record TermRevocation := mkTermRevocation {
  RevokedBelowTerm : Z;
  AcceptedCoordinatorId : option ID;
  CoordinatorInitiatedAt : option Timestamp;
  OutgoingRule : option RuleNumber;
  tr_RecruitIntent : option RecruitIntent
}.

Record ExternallyCertifiedRevocation := mkExternallyCertifiedRevocation {
  ecr_TermRevocation : option TermRevocation;
  FrozenLsn : string
}.

Record ConsensusStatus := mkConsensusStatus {
  cs_TermRevocation : option TermRevocation;
  CurrentPosition : option PoolerPosition;
  cs_ReplicationPrimary : option ReplicationPrimary;
  cs_Id : option ID;
  RecruitBlockedUntil : option LsnPosition
}.

Record ConsensusPromisesMsg := mkConsensusPromisesMsg {
  cp_TermRevocation : option TermRevocation;
  cp_RecruitBlockedUntil : option LsnPosition
}.

Record CoordinatorProposal := mkCoordinatorProposal {
  prop_TermRevocation : option TermRevocation;
  ProposalLeader : option PoolerAddress;
  ProposedTransition : option RulePosition;
  SkipOutgoingQuorum : bool
}.

(** ** Decidable equality *)

#[export] Instance ComponentType_eq_dec : EqDecision ComponentType.
Proof. solve_decision. Defined.
#[export] Instance QuorumType_eq_dec : EqDecision QuorumType.
Proof. solve_decision. Defined.
#[export] Instance ID_eq_dec : EqDecision ID.
Proof. solve_decision. Defined.
#[export] Instance Timestamp_eq_dec : EqDecision Timestamp.
Proof. solve_decision. Defined.
#[export] Instance PoolerAddress_eq_dec : EqDecision PoolerAddress.
Proof. solve_decision. Defined.
#[export] Instance DurabilityPolicyMsg_eq_dec : EqDecision DurabilityPolicyMsg.
Proof. solve_decision. Defined.
#[export] Instance RuleNumber_eq_dec : EqDecision RuleNumber.
Proof. solve_decision. Defined.
#[export] Instance ShardRule_eq_dec : EqDecision ShardRule.
Proof. solve_decision. Defined.
#[export] Instance RulePosition_eq_dec : EqDecision RulePosition.
Proof. solve_decision. Defined.
#[export] Instance PoolerPosition_eq_dec : EqDecision PoolerPosition.
Proof. solve_decision. Defined.
#[export] Instance RuleNumberPositionMsg_eq_dec : EqDecision RuleNumberPositionMsg.
Proof. solve_decision. Defined.
#[export] Instance LsnPosition_eq_dec : EqDecision LsnPosition.
Proof. solve_decision. Defined.
#[export] Instance ReplicationPrimary_eq_dec : EqDecision ReplicationPrimary.
Proof. solve_decision. Defined.
#[export] Instance RecruitIntent_eq_dec : EqDecision RecruitIntent.
Proof. solve_decision. Defined.
#[export] Instance TermRevocation_eq_dec : EqDecision TermRevocation.
Proof. solve_decision. Defined.
#[export] Instance ConsensusStatus_eq_dec : EqDecision ConsensusStatus.
Proof. solve_decision. Defined.
#[export] Instance ConsensusPromisesMsg_eq_dec : EqDecision ConsensusPromisesMsg.
Proof. solve_decision. Defined.

(** ** Nil-safe accessors

    [getp zero field p] is the shape of every generated accessor:
    [if x != nil { return x.Field }; return zero]. *)
Definition getp {M A} (zero : A) (field : M -> A) (x : option M) : A :=
  match x with Some m => field m | None => zero end.

Definition GetComponent : option ID -> ComponentType := getp UNKNOWN Component.
Definition GetCell : option ID -> string := getp "" Cell.
Definition GetName : option ID -> string := getp "" Name.

Definition GetCoordinatorTerm : option RuleNumber -> Z := getp 0%Z CoordinatorTerm.
Definition GetLeaderSubterm : option RuleNumber -> Z := getp 0%Z LeaderSubterm.

Definition GetRuleNumber : option ShardRule -> option RuleNumber := getp None sr_RuleNumber.
Definition GetLeaderId : option ShardRule -> option ID := getp None LeaderId.
Definition GetCohortMembers : option ShardRule -> list (option ID) := getp [] CohortMembers.
Definition GetDurabilityPolicy : option ShardRule -> option DurabilityPolicyMsg :=
  getp None sr_DurabilityPolicy.
Definition GetCoordinatorId : option ShardRule -> option ID := getp None CoordinatorId.
Definition GetCreationTime : option ShardRule -> option Timestamp := getp None CreationTime.

Definition GetDecision : option RulePosition -> option ShardRule := getp None pos_Decision.
Definition GetProposal : option RulePosition -> option ShardRule := getp None pos_Proposal.

Definition pp_GetPosition : option PoolerPosition -> option RulePosition := getp None pp_Position.
Definition pp_GetLsn : option PoolerPosition -> string := getp "" pp_Lsn.

Definition rnpm_GetDecision : option RuleNumberPositionMsg -> option RuleNumber :=
  getp None rnpm_Decision.
Definition rnpm_GetProposal : option RuleNumberPositionMsg -> option RuleNumber :=
  getp None rnpm_Proposal.

Definition lp_GetPosition : option LsnPosition -> option RuleNumberPositionMsg := getp None lp_Position.
Definition lp_GetLsn : option LsnPosition -> string := getp "" lp_Lsn.

Definition pa_GetId : option PoolerAddress -> option ID := getp None pa_Id.
Definition GetHost : option PoolerAddress -> string := getp "" pa_Host.
Definition GetPostgresPort : option PoolerAddress -> Z := getp 0%Z pa_PostgresPort.

Definition rp_GetPosition : option ReplicationPrimary -> option RulePosition := getp None rp_Position.
Definition GetPrimary : option ReplicationPrimary -> option PoolerAddress := getp None rp_Primary.
Definition GetRewindReady : option ReplicationPrimary -> bool := getp false RewindReady.

Definition GetReplaceDecision : option RecruitIntent -> option RuleNumber := getp None ReplaceDecision.
Definition GetAttempt : option RecruitIntent -> Z := getp 0%Z Attempt.

Definition GetRevokedBelowTerm : option TermRevocation -> Z := getp 0%Z RevokedBelowTerm.
Definition GetAcceptedCoordinatorId : option TermRevocation -> option ID :=
  getp None AcceptedCoordinatorId.
Definition GetCoordinatorInitiatedAt : option TermRevocation -> option Timestamp :=
  getp None CoordinatorInitiatedAt.
Definition GetOutgoingRule : option TermRevocation -> option RuleNumber := getp None OutgoingRule.
Definition GetRecruitIntent : option TermRevocation -> option RecruitIntent :=
  getp None tr_RecruitIntent.

Definition ecr_GetTermRevocation : option ExternallyCertifiedRevocation -> option TermRevocation :=
  getp None ecr_TermRevocation.
Definition GetFrozenLsn : option ExternallyCertifiedRevocation -> string := getp "" FrozenLsn.

Definition GetTermRevocation : option ConsensusStatus -> option TermRevocation :=
  getp None cs_TermRevocation.
Definition GetCurrentPosition : option ConsensusStatus -> option PoolerPosition :=
  getp None CurrentPosition.
Definition GetReplicationPrimary : option ConsensusStatus -> option ReplicationPrimary :=
  getp None cs_ReplicationPrimary.
Definition GetId : option ConsensusStatus -> option ID := getp None cs_Id.
Definition GetRecruitBlockedUntil : option ConsensusStatus -> option LsnPosition :=
  getp None RecruitBlockedUntil.

Definition cp_GetTermRevocation : option ConsensusPromisesMsg -> option TermRevocation :=
  getp None cp_TermRevocation.
Definition cp_GetRecruitBlockedUntil : option ConsensusPromisesMsg -> option LsnPosition :=
  getp None cp_RecruitBlockedUntil.

Definition prop_GetTermRevocation : option CoordinatorProposal -> option TermRevocation :=
  getp None prop_TermRevocation.
Definition GetProposalLeader : option CoordinatorProposal -> option PoolerAddress :=
  getp None ProposalLeader.
Definition GetProposedTransition : option CoordinatorProposal -> option RulePosition :=
  getp None ProposedTransition.
Definition GetSkipOutgoingQuorum : option CoordinatorProposal -> bool := getp false SkipOutgoingQuorum.

(** ** Third-party runtime

    What the code calls outside the repository.  [ParseLSN] is
    [pglogrepl.ParseLSN] ([None] for its error), [AsTime] is
    [timestamppb.Timestamp.AsTime] as nanoseconds since the Unix epoch,
    [AsDuration] is [durationpb.Duration.AsDuration] in nanoseconds, and
    [proto_equal] is [proto.Equal]. *)
Class Runtime := {
  ParseLSN : string -> option Z;
  AsTime : option Timestamp -> Z;
  AsDuration : option Duration -> Z;
  proto_equal : forall {M : Type} `{EqDecision M}, M -> M -> bool
}.

(** Documented behaviour of that code: an LSN is an unsigned 64-bit number, and
    [proto.Equal] is structural equality, nil and an empty message being
    different. *)
Class RuntimeLaws (R : Runtime) := {
  ParseLSN_range : forall s l, ParseLSN s = Some l -> (0 <= l < 2 ^ 64)%Z;
  proto_equal_spec : forall (M : Type) `{EqDecision M} (x y : M),
    proto_equal x y = true <-> x = y
}.
