(* ===== verification/Demo.v ===== *)
(** A concrete third-party runtime and a small three-cell cluster, for the
    witnesses: LSNs are two hexadecimal 32-bit halves separated by a slash,
    timestamps count nanoseconds, and message equality is decided. *)

From Stdlib Require Import Ascii.
From stdpp Require Import base strings list.
From S2P Require Import Prelude ClusterMetadata.

Local Open Scope Z_scope.

Definition hex_digit (c : ascii) : option Z :=
  let n := Z.of_nat (nat_of_ascii c) in
  if (48 <=? n) && (n <=? 57) then Some (n - 48)
  else if (65 <=? n) && (n <=? 70) then Some (n - 55)
  else if (97 <=? n) && (n <=? 102) then Some (n - 87)
  else None.

(** Reads at least one hexadecimal digit up to [stop] or the end. *)
Fixpoint hex_number (stop : ascii) (s : string) (acc : Z) (seen : bool) : option (Z * string) :=
  match s with
  | EmptyString => if seen then Some (acc, EmptyString) else None
  | String c s' =>
      if Ascii.eqb c stop then if seen then Some (acc, s') else None
      else match hex_digit c with
           | Some d => hex_number stop s' (acc * 16 + d) true
           | None => None
           end
  end.

Definition parse_lsn (s : string) : option Z :=
  match hex_number "/"%char s 0 false with
  | Some (hi, rest) =>
      match hex_number "/"%char rest 0 false with
      | Some (lo, EmptyString) =>
          if (0 <=? hi) && (hi <? 2 ^ 32) && (0 <=? lo) && (lo <? 2 ^ 32)
          then Some (hi * 2 ^ 32 + lo) else None
      | _ => None
      end
  | None => None
  end.

#[export] Instance demo_runtime : Runtime := {
  ParseLSN := parse_lsn;
  AsTime := fun t => getp 0 Seconds t * 1000000000 + getp 0 Nanos t;
  AsDuration := fun d => getp 0 d_Seconds d * 1000000000 + getp 0 d_Nanos d;
  proto_equal := fun M _ x y => bool_decide (x = y)
}.

#[export] Instance demo_runtime_laws : RuntimeLaws demo_runtime.
Proof.
  split.
  - intros s l. cbn. unfold parse_lsn.
    destruct (hex_number _ s _ _) as [[hi rest]|]; [|done].
    destruct (hex_number _ rest _ _) as [[lo []]|]; [|done|done].
    destruct (_ && _) eqn:E; [|done]. intros [= <-]. reflect_bools. lia.
  - intros M ? x y. cbn. apply bool_decide_eq_true.
Qed.

Example parse_lsn_example : parse_lsn "0/16E5D38" = Some 24010040.
Proof. reflexivity. Qed.

(** ** A three-cell cluster *)

Definition pooler (cell name : string) : option ID := Some (mkID MULTIPOOLER cell name).
Definition p1 := pooler "zone1" "a".
Definition p2 := pooler "zone2" "b".
Definition p3 := pooler "zone3" "c".
Definition p4 := pooler "zone1" "d".
Definition orch1 : option ID := Some (mkID MULTIORCH "zone1" "orch").
Definition orch2 : option ID := Some (mkID MULTIORCH "zone2" "orch").

Definition at_least (n : Z) : option DurabilityPolicyMsg :=
  Some (mkDurabilityPolicyMsg "AT_LEAST_N" 1 QUORUM_TYPE_AT_LEAST_N n "").
Definition multi_cell : option DurabilityPolicyMsg :=
  Some (mkDurabilityPolicyMsg "MULTI_CELL_AT_LEAST_2" 1 QUORUM_TYPE_MULTI_CELL_AT_LEAST_N 2 "").

Definition rn (term sub : Z) : option RuleNumber := Some (mkRuleNumber term sub).
Definition ts (s : Z) : option Timestamp := Some (mkTimestamp s 0).

Definition demo_rule (term : Z) (leader : option ID) (cohort : list (option ID))
    (policy : option DurabilityPolicyMsg) : option ShardRule :=
  Some (mkShardRule (rn term 0) leader cohort policy orch1 (ts term)).

Definition decided (rule : option ShardRule) : option RulePosition := Some (mkRulePosition rule None).

Definition demo_revocation (term : Z) (outgoing : option RuleNumber) : option TermRevocation :=
  Some (mkTermRevocation term orch1 (ts 100) outgoing (Some (mkRecruitIntent outgoing 1))).

Definition demo_status (id : option ID) (rev : option TermRevocation) (pos : option RulePosition)
    (lsn : string) : option ConsensusStatus :=
  Some (mkConsensusStatus rev (Some (mkPoolerPosition pos lsn)) None id None).
