(* ===== verification/SortedMaps.v ===== *)
(** go/tools/sortedmaps: map iteration in sorted key order.

    A Go map is a [gmap]; the iteration order [for k := range m], which Go leaves
    unspecified, is the order of [map_to_list], and every lemma below is
    independent of it. *)

From stdpp Require Import gmap list fin_maps sorting strings.
From S2P Require Import Prelude.

Section sortedmaps.
  Context `{Countable K} (le : relation K) `{!RelDecision le, !PartialOrder le, !Total le}.
  Context {V : Type}.
  Implicit Types m : gmap K V.

Definition Keys m : list K := merge_sort le (map_to_list m).*1.

Definition Values m : list V := omap (fun k => m !! k) (Keys m).

(** [All] is the sequence of pairs its iterator yields. *)
Definition All m : list (K * V) := omap (fun k => (k,.) <$> m !! k) (Keys m).

Lemma elem_of_Keys m k : k ∈ Keys m <-> is_Some (m !! k).
Proof.
  unfold Keys. rewrite merge_sort_Permutation, list_elem_of_fmap. split.
  - intros ([? v] & -> & Hin). apply elem_of_map_to_list in Hin. eauto.
  - intros [v Hv]. exists (k, v). split; [done|]. by apply elem_of_map_to_list.
Qed.

Lemma Keys_NoDup m : NoDup (Keys m).
Proof. unfold Keys. rewrite merge_sort_Permutation. apply NoDup_fst_map_to_list. Qed.

Lemma Keys_sorted m : StronglySorted le (Keys m).
Proof. unfold Keys. apply StronglySorted_merge_sort; apply _. Qed.

(** The key list is the only strictly ordered enumeration of the domain. *)
Lemma Keys_unique m l :
  StronglySorted le l -> NoDup l -> (forall k, k ∈ l <-> is_Some (m !! k)) -> l = Keys m.
Proof.
  intros Hs Hnd Hin. apply (StronglySorted_unique le); auto using Keys_sorted.
  apply NoDup_Permutation; auto using Keys_NoDup.
  intros k. by rewrite Hin, elem_of_Keys.
Qed.

Lemma elem_of_Values m v : v ∈ Values m <-> exists k, m !! k = Some v.
Proof.
  unfold Values. rewrite list_elem_of_omap. split; [intros (k & _ & ?); by exists k|].
  intros [k Hk]. exists k. split; [apply elem_of_Keys; eauto|done].
Qed.

Lemma All_fst m : (All m).*1 = Keys m.
Proof.
  unfold All. assert (forall k, k ∈ Keys m -> is_Some (m !! k)) as Hk
    by (intros k ?; by apply elem_of_Keys).
  revert Hk. induction (Keys m) as [|k ks IH]; intros Hk; [done|]. cbn.
  destruct (Hk k) as [v ->]; [left|]. cbn. rewrite IH; [done|]. intros; apply Hk; by right.
Qed.

Lemma All_snd m : (All m).*2 = Values m.
Proof.
  unfold All, Values. induction (Keys m) as [|k ks IH]; [done|]. cbn.
  destruct (m !! k); cbn; by rewrite IH.
Qed.

Lemma length_Values m : length (Values m) = size m.
Proof.
  rewrite <- All_snd, length_fmap, <- (length_fmap fst), All_fst.
  unfold Keys. by rewrite merge_sort_Permutation, length_fmap, length_map_to_list.
Qed.

Lemma elem_of_All m k v : (k, v) ∈ All m <-> m !! k = Some v.
Proof.
  unfold All. rewrite list_elem_of_omap. split.
  - intros (? & _ & Hl). by destruct (m !! x) eqn:?; simplify_eq/=.
  - intros Hk. exists k. split; [apply elem_of_Keys; eauto|]. by rewrite Hk.
Qed.

Lemma Values_empty : Values ∅ = [].
Proof. apply length_zero_iff_nil. by rewrite length_Values, map_size_empty. Qed.

End sortedmaps.

Lemma Keys_fmap `{Countable K} (le : relation K) `{!RelDecision le, !PartialOrder le, !Total le}
    {V W} (f : V -> W) (m : gmap K V) : Keys le (f <$> m) = Keys le m.
Proof.
  apply Keys_unique; auto using Keys_sorted, Keys_NoDup. intros k.
  by rewrite elem_of_Keys, lookup_fmap, fmap_is_Some.
Qed.

Lemma Values_fmap `{Countable K} (le : relation K) `{!RelDecision le, !PartialOrder le, !Total le}
    {V W} (f : V -> W) (m : gmap K V) : Values le (f <$> m) = map f (Values le m).
Proof.
  unfold Values. rewrite (Keys_fmap le f m). induction (Keys le m) as [|k ks IH]; [done|]. cbn.
  rewrite lookup_fmap. destruct (m !! k); cbn; by rewrite IH.
Qed.

(** String keys, ordered by bytes as Go orders strings. *)
Abbreviation SKeys := (Keys String.le).
Abbreviation SValues := (Values String.le).

(** Iterating over a map in sorted order does not depend on the order the map
    was filled in: the pairs are the only key-sorted enumeration of the map. *)
Lemma All_canonical {V} (m : gmap string V) (l : list (string * V)) :
  StronglySorted String.le l.*1 -> NoDup l.*1 ->
  (forall k v, (k, v) ∈ l <-> m !! k = Some v) -> l = All String.le m.
Proof.
  intros Hs Hnd Hin.
  assert (l.*1 = Keys String.le m) as Hk.
  { apply (Keys_unique String.le m); [done|done|]. intros k. rewrite list_elem_of_fmap. split.
    - intros ([? v] & -> & Hv). apply Hin in Hv. eauto.
    - intros [v Hv]. exists (k, v). split; [done|]. by apply Hin. }
  assert (l.*2 = (All String.le m).*2) as Hv.
  { rewrite All_snd. unfold Values. rewrite <- Hk. clear Hk Hs.
    assert (forall k v, (k, v) ∈ l -> m !! k = Some v) as Hl by (intros; by apply Hin).
    clear Hin. induction l as [|[k v] l IH]; [done|]. cbn.
    rewrite (Hl k v) by left. cbn. inversion Hnd; subst. f_equal. apply IH; [done|].
    intros; apply Hl; by right. }
  rewrite <- All_fst in Hk. by apply pairs_eq.
Qed.
