(* ===== verification/TopoId.v ===== *)
(** go/common/topoclient/id.go: the string forms of a component ID.

    [ClusterIDString] ("cell_name") is the key every quorum computation counts
    by; [ComponentIDString] ("component-cell-name") is the key of the topology
    records. *)

From Stdlib Require Import Ascii.
From stdpp Require Import strings list.
From S2P Require Import Prelude ClusterMetadata.

(** [strings.ToLower] of the generated enum name; a value without a name is
    "unknown". *)
Definition ComponentTypeToString (component : ComponentType) : string :=
  match component with
  | UNKNOWN => "unknown"
  | MULTIPOOLER => "multipooler"
  | MULTIGATEWAY => "multigateway"
  | MULTIORCH => "multiorch"
  | COMPONENT_UNNAMED _ => "unknown"
  end.

Definition ComponentIDString (id : option ID) : string :=
  ComponentTypeToString (GetComponent id) +:+ "-" +:+ GetCell id +:+ "-" +:+ GetName id.

Definition ClusterIDString (id : option ID) : string :=
  match id with
  | None => ""
  | Some i => Cell i +:+ "_" +:+ Name i
  end.

Definition is_underscore (c : ascii) : bool := Ascii.eqb c "_"%char.
Arguments is_underscore c : simpl never.

(** [strings.SplitN(s, "_", 2)] with both parts, or [None] without a separator. *)
Fixpoint split_underscore (s : string) : option (string * string) :=
  match s with
  | EmptyString => None
  | String c s' =>
      if is_underscore c then Some ("", s')
      else match split_underscore s' with
           | None => None
           | Some (a, b) => Some (String c a, b)
           end
  end.

Definition SplitClusterID (s : string) : result (string * string) :=
  match split_underscore s with
  | None => Err (err "invalid cell_name format")
  | Some (cell, name) =>
      if String.eqb cell "" then Err (err "invalid cell_name: cell cannot be empty")
      else if String.eqb name "" then Err (err "invalid cell_name: name cannot be empty")
      else Ok (cell, name)
  end.

(** The naming convention [SplitClusterID] relies on: a cell has no underscore. *)
Fixpoint no_underscore (s : string) : bool :=
  match s with
  | EmptyString => true
  | String c s' => negb (is_underscore c) && no_underscore s'
  end.

Definition valid_id (id : option ID) : Prop :=
  exists i, id = Some i /\ no_underscore (Cell i) = true.

#[export] Instance valid_id_dec id : Decision (valid_id id).
Proof.
  refine (match id with
          | Some i => cast_if (decide (no_underscore (Cell i) = true))
          | None => right _
          end); unfold valid_id; [by eauto| |]; intros (? & [=] & ?); by simplify_eq.
Defined.

Lemma split_underscore_app a b :
  no_underscore a = true -> split_underscore (a +:+ "_" +:+ b) = Some (a, b).
Proof.
  induction a as [|c a IH]; [done|]. cbn. intros [Hc Ha]%andb_true_iff.
  apply negb_true_iff in Hc.
  change (split_underscore (String c (a +:+ "_" +:+ b)) = Some (String c a, b)). cbn.
  by rewrite Hc, (IH Ha).
Qed.

Lemma split_underscore_inv s a b :
  split_underscore s = Some (a, b) -> s = a +:+ "_" +:+ b /\ no_underscore a = true.
Proof.
  revert a b. induction s as [|c s IH]; intros a b H; [done|]. cbn in H.
  destruct (is_underscore c) eqn:Hc.
  - apply Ascii.eqb_eq in Hc. by simplify_eq/=.
  - destruct (split_underscore s) as [[a' b']|]; [|done].
    destruct (IH _ _ eq_refl) as [-> Ha]. simplify_eq/=. by rewrite Hc.
Qed.

(** The cluster key identifies the cell and the name of a valid ID. *)
Lemma ClusterIDString_inj id1 id2 :
  valid_id id1 -> valid_id id2 -> ClusterIDString id1 = ClusterIDString id2 ->
  GetCell id1 = GetCell id2 /\ GetName id1 = GetName id2.
Proof.
  intros (i1 & -> & H1) (i2 & -> & H2) Heq. cbn in *.
  pose proof (split_underscore_app _ (Name i1) H1) as E1.
  pose proof (split_underscore_app _ (Name i2) H2) as E2.
  rewrite Heq in E1. rewrite E1 in E2. by simplify_eq.
Qed.

Lemma ClusterIDString_nonempty id : ClusterIDString id = "" <-> id = None.
Proof.
  split; [|by intros ->]. destruct id as [i|]; [|done]. cbn.
  by destruct (Cell i).
Qed.
