(* ===== verification/Ordering.v ===== *)
(** Three-way comparison functions in the style of Go's [cmp.Compare]: a class
    of their laws, lexicographic keys that discharge it, and the running-maximum
    loop the consensus code repeats over lists of pointers. *)

From stdpp Require Import base list option.
From S2P Require Import Prelude.

Local Open Scope Z_scope.

(** A comparison is a total preorder: negative, zero or positive as the first
    argument is behind, equal to or ahead of the second. *)
Class CompareOrder {A : Type} (cmp : A -> A -> Z) : Prop := {
  cmp_anti : forall x y, cmp y x = - cmp x y;
  cmp_trans : forall x y z, cmp x y <= 0 -> cmp y z <= 0 -> cmp x z <= 0
}.

(** Lexicographic comparison of integer keys. *)
Definition Zcmp (a b : Z) : Z := if a =? b then 0 else if a <? b then -1 else 1.

Fixpoint lexcmp (a b : list Z) : Z :=
  match a, b with
  | [], [] => 0
  | [], _ => -1
  | _, [] => 1
  | x :: a', y :: b' => if x =? y then lexcmp a' b' else Zcmp x y
  end.

Lemma Zcmp_spec a b : (a < b /\ Zcmp a b = -1) \/ (a = b /\ Zcmp a b = 0) \/ (b < a /\ Zcmp a b = 1).
Proof. unfold Zcmp. destruct (a =? b) eqn:?, (a <? b) eqn:?; reflect_bools; lia. Qed.

Lemma lexcmp_anti a b : lexcmp b a = - lexcmp a b.
Proof.
  revert b. induction a as [|x a IH]; intros [|y b]; cbn; try done.
  rewrite (Z.eqb_sym y x). destruct (x =? y) eqn:E; [apply IH|]. apply Z.eqb_neq in E.
  destruct (Zcmp_spec x y) as [[? ->]|[[? ->]|[? ->]]],
    (Zcmp_spec y x) as [[? ->]|[[? ->]|[? ->]]]; lia.
Qed.

Lemma lexcmp_refl a : lexcmp a a = 0.
Proof. pose proof (lexcmp_anti a a). lia. Qed.

Lemma lexcmp_eq a b : lexcmp a b = 0 -> a = b.
Proof.
  revert b. induction a as [|x a IH]; intros [|y b]; cbn; try done.
  destruct (x =? y) eqn:E; reflect_bools; intros H; [subst; f_equal; auto|].
  destruct (Zcmp_spec x y); lia.
Qed.

Lemma lexcmp_range a b : -1 <= lexcmp a b <= 1.
Proof.
  revert b. induction a as [|x a IH]; intros [|y b]; cbn; try lia.
  destruct (x =? y); [apply IH|]. destruct (Zcmp_spec x y) as [?|[?|?]]; lia.
Qed.

Lemma lexcmp_trans a b c : lexcmp a b <= 0 -> lexcmp b c <= 0 -> lexcmp a c <= 0.
Proof.
  revert b c. induction a as [|x a IH]; intros [|y b] [|z c]; cbn; try lia.
  destruct (Zcmp_spec x y), (Zcmp_spec y z), (Zcmp_spec x z);
    destruct (x =? y) eqn:?, (y =? z) eqn:?, (x =? z) eqn:?; reflect_bools; try lia.
  eauto.
Qed.

(** Componentwise comparison decides: compare heads, then tails. *)
Lemma lexcmp_app a a' b b' : length a = length b ->
  lexcmp (a ++ a') (b ++ b') = if lexcmp a b =? 0 then lexcmp a' b' else lexcmp a b.
Proof.
  revert b. induction a as [|x a IH]; intros [|y b] Hl; try done. cbn in *.
  destruct (x =? y) eqn:E; [apply IH; lia|]. apply Z.eqb_neq in E.
  destruct (Zcmp_spec x y) as [[? ->]|[[? ?]|[? ->]]]; [done|lia|done].
Qed.

Lemma CompareOrder_key {A} (cmp : A -> A -> Z) (key : A -> list Z) :
  (forall x y, cmp x y = lexcmp (key x) (key y)) -> CompareOrder cmp.
Proof.
  intros Hk. split; intros *; rewrite ?Hk; [apply lexcmp_anti|apply lexcmp_trans].
Qed.

Section order.
  Context {A : Type} (cmp : A -> A -> Z) `{!CompareOrder cmp}.

Lemma cmp_refl x : cmp x x = 0.
Proof. pose proof (cmp_anti x x). lia. Qed.

Lemma cmp_total x y : cmp x y <= 0 \/ cmp y x <= 0.
Proof. pose proof (cmp_anti x y). lia. Qed.

Lemma cmp_lt_trans x y z : cmp x y <= 0 -> 0 < cmp z y -> 0 < cmp z x.
Proof.
  intros H1 H2. pose proof (cmp_anti x z). pose proof (cmp_anti y z).
  destruct (Z.leb_spec (cmp z x) 0); [|done].
  pose proof (cmp_trans (cmp:=cmp) z x y ltac:(done) ltac:(done)). lia.
Qed.

(** Elements that tie are interchangeable on either side of a comparison. *)
Lemma cmp_eq_trans x y z : cmp x y = 0 -> cmp y z = 0 -> cmp x z = 0.
Proof.
  intros H1 H2. pose proof (cmp_anti x z). pose proof (cmp_anti x y). pose proof (cmp_anti y z).
  pose proof (cmp_trans (cmp:=cmp) x y z ltac:(lia) ltac:(lia)).
  pose proof (cmp_trans (cmp:=cmp) z y x ltac:(lia) ltac:(lia)). lia.
Qed.
End order.

(** ** The running maximum

    [var best *T; for _, x := range l { if best == nil || cmp(x, best) > 0 { best = x } }] *)
Definition pick_max {A} (cmp : option A -> option A -> Z) (best x : option A) : option A :=
  if bool_decide (best = None) || (0 <? cmp x best) then x else best.

Definition fold_max {A} (cmp : option A -> option A -> Z) (l : list (option A)) : option A :=
  foldl (pick_max cmp) None l.

Section fold_max.
  Context {A : Type} (cmp : option A -> option A -> Z) `{!CompareOrder cmp}.

(** A nil entry never outranks a recorded element. *)
Definition nil_least (l : list (option A)) : Prop :=
  forall a, None ∈ l -> Some a ∈ l -> cmp None (Some a) <= 0.

Lemma foldl_pick_max_Some l a :
  nil_least (Some a :: l) ->
  exists b, foldl (pick_max cmp) (Some a) l = Some b /\ Some b ∈ Some a :: l /\
    cmp (Some a) (Some b) <= 0 /\ forall c, Some c ∈ l -> cmp (Some c) (Some b) <= 0.
Proof.
  revert a. induction l as [|x l IH]; intros a Hnil.
  - exists a. cbn. pose proof (cmp_refl cmp (Some a)). split_and!; [done|left|lia|].
    intros c Hc. inversion Hc.
  - cbn. unfold pick_max at 2. cbn. destruct (0 <? cmp x (Some a)) eqn:E; reflect_bools.
    + destruct x as [x|]; [|specialize (Hnil a ltac:(right; left) ltac:(left)); lia].
      destruct (IH x) as (b & -> & Hb & Hxb & Hl); [intros c Hn Hc; apply Hnil; by right|].
      exists b. pose proof (cmp_anti (Some x) (Some a)). split_and!; [done|by right| |].
      * eapply cmp_trans; [|exact Hxb]. lia.
      * intros c [?|?]%elem_of_cons; simplify_eq; eauto.
    + destruct (IH a) as (b & -> & Hb & Hab & Hl).
      { intros c [?|Hn]%elem_of_cons; [done|]. intros [->|?]%elem_of_cons; apply Hnil;
          solve [right; by right|by left]. }
      exists b. split_and!; [done| |done|].
      * apply elem_of_cons in Hb as [->|?]; [left|right; by right].
      * intros c [?|?]%elem_of_cons; [|eauto]. subst x. eapply cmp_trans; [|exact Hab]. lia.
Qed.

Lemma fold_max_cons_None l : fold_max cmp (None :: l) = fold_max cmp l.
Proof. done. Qed.

Lemma fold_max_spec l b :
  nil_least l -> fold_max cmp l = Some b ->
  Some b ∈ l /\ forall a, Some a ∈ l -> cmp (Some a) (Some b) <= 0.
Proof.
  induction l as [|[x|] l IH]; intros Hnil Hb; [done| |].
  - change (foldl (pick_max cmp) (Some x) l = Some b) in Hb.
    destruct (foldl_pick_max_Some l x Hnil) as (b' & Hb' & Hin & Hx & Hl).
    rewrite Hb in Hb'. simplify_eq. split; [done|]. intros a [?|?]%elem_of_cons; simplify_eq; eauto.
  - rewrite fold_max_cons_None in Hb.
    destruct IH as [Hin Hl]; [intros a ??; apply Hnil; by right|done|].
    split; [by right|]. intros a [?|?]%elem_of_cons; [done|eauto].
Qed.

Lemma fold_max_ge l b x :
  nil_least l -> fold_max cmp l = Some b -> x ∈ l -> cmp x (Some b) <= 0.
Proof.
  intros Hnil Hb Hx. destruct (fold_max_spec _ _ Hnil Hb) as [Hin Hmax].
  destruct x as [a|]; [by apply Hmax|by apply Hnil].
Qed.

(** The maximum does not depend on the order of the list, up to ties. *)
Lemma fold_max_perm l1 l2 b1 b2 :
  l1 ≡ₚ l2 -> nil_least l1 -> fold_max cmp l1 = Some b1 -> fold_max cmp l2 = Some b2 ->
  cmp (Some b1) (Some b2) = 0.
Proof.
  intros Hp Hnil H1 H2.
  assert (nil_least l2) as Hnil2 by (intros a; rewrite <- Hp; apply Hnil).
  destruct (fold_max_spec _ _ Hnil H1) as [Hin1 _], (fold_max_spec _ _ Hnil2 H2) as [Hin2 _].
  pose proof (fold_max_ge l1 b1 (Some b2) Hnil H1 ltac:(by rewrite Hp)).
  pose proof (fold_max_ge l2 b2 (Some b1) Hnil2 H2 ltac:(by rewrite <- Hp)).
  pose proof (cmp_anti (cmp:=cmp) (Some b1) (Some b2)). lia.
Qed.

Lemma fold_max_is_Some l a : nil_least l -> Some a ∈ l -> is_Some (fold_max cmp l).
Proof.
  induction l as [|[x|] l IH]; intros Hnil Hin; [inversion Hin| |].
  - destruct (foldl_pick_max_Some l x Hnil) as (b & Hb & _). exists b. exact Hb.
  - rewrite fold_max_cons_None. apply elem_of_cons in Hin as [?|?]; [done|].
    apply IH; [intros c ??; apply Hnil; by right|done].
Qed.
End fold_max.
