(* ===== verification/Compare.v ===== *)
(** go/common/consensus/compare.go: the order on rules and WAL positions.

    A position is a decided rule, an optional undecided proposal beyond it, and
    an LSN.  Every comparison of the file is a lexicographic order on an integer
    key, which is how it is shown to be a total preorder. *)

From stdpp Require Import base strings list pretty.
From S2P Require Import Prelude ClusterMetadata Demo TopoId Ordering.

Local Open Scope Z_scope.

Definition CompareRuleNumbers (a b : option RuleNumber) : Z :=
  let aTerm := match a with Some _ => GetCoordinatorTerm a | None => 0 end in
  let aSubterm := match a with Some _ => GetLeaderSubterm a | None => 0 end in
  let bTerm := match b with Some _ => GetCoordinatorTerm b | None => 0 end in
  let bSubterm := match b with Some _ => GetLeaderSubterm b | None => 0 end in
  if negb (aTerm =? bTerm) then (if aTerm <? bTerm then -1 else 1)
  else if negb (aSubterm =? bSubterm) then (if aSubterm <? bSubterm then -1 else 1)
  else 0.

Definition FormatRuleNumber (rn : option RuleNumber) : string :=
  match rn with
  | None => "none"
  | Some _ => pretty (GetCoordinatorTerm rn) +:+ "." +:+ pretty (GetLeaderSubterm rn)
  end.

Definition ruleNumberIsUnset (rn : option RuleNumber) : bool :=
  Z.max (GetCoordinatorTerm rn) (GetLeaderSubterm rn) =? 0.

Definition formatDecisionAndProposal (decision proposal : option RuleNumber) : string :=
  let s := FormatRuleNumber decision in
  if negb (ruleNumberIsUnset proposal) then s +:+ " proposal=" +:+ FormatRuleNumber proposal
  else s.

Definition FormatRulePosition (pos : option RulePosition) : string :=
  formatDecisionAndProposal (GetRuleNumber (GetDecision pos)) (GetRuleNumber (GetProposal pos)).

Definition FormatRuleNumberPosition (pos : option RuleNumberPositionMsg) : string :=
  formatDecisionAndProposal (rnpm_GetDecision pos) (rnpm_GetProposal pos).

Definition FormatLsnPosition (pos : option LsnPosition) : string :=
  match pos with
  | None => "none"
  | Some _ => FormatRuleNumberPosition (lp_GetPosition pos) +:+ "@" +:+ lp_GetLsn pos
  end.

Definition IsRuleDecided (pos : option RulePosition) : bool :=
  ruleNumberIsUnset (GetRuleNumber (GetProposal pos)).

Definition PossiblyUndecidedRule (pos : option RulePosition) : option ShardRule :=
  if negb (IsRuleDecided pos) then GetProposal pos else GetDecision pos.

Record RuleNumberPosition := mkRuleNumberPosition {
  rnp_Decision : option RuleNumber;
  rnp_Proposal : option RuleNumber
}.

Definition RuleNumberPositionOf (pos : option RulePosition) : RuleNumberPosition :=
  {| rnp_Decision := GetRuleNumber (GetDecision pos);
     rnp_Proposal := GetRuleNumber (GetProposal pos) |}.

(** The method [RuleNumberPosition.Compare]. *)
Definition Compare (p other : RuleNumberPosition) : Z :=
  let cmp := CompareRuleNumbers (rnp_Decision p) (rnp_Decision other) in
  if negb (cmp =? 0) then cmp
  else CompareRuleNumbers (rnp_Proposal p) (rnp_Proposal other).

Definition CompareRulePosition (a b : option RulePosition) : Z :=
  Compare (RuleNumberPositionOf a) (RuleNumberPositionOf b).

Definition idsEqual (a b : option ID) : bool :=
  bool_decide (GetComponent a = GetComponent b) &&
  String.eqb (GetCell a) (GetCell b) &&
  String.eqb (GetName a) (GetName b).

Definition primaryAddressEqual (a b : option PoolerAddress) : bool :=
  idsEqual (pa_GetId a) (pa_GetId b) &&
  String.eqb (GetHost a) (GetHost b) &&
  (GetPostgresPort a =? GetPostgresPort b).

Definition RuleNamesLeader (rule : option ShardRule) (id : option ID) : bool :=
  let leader := GetLeaderId rule in
  match leader, id with
  | None, _ | _, None => false
  | Some _, Some _ => idsEqual leader id
  end.

Definition ReplicationPrimaryOrNil (cs : option ConsensusStatus) : option ReplicationPrimary :=
  let rp := GetReplicationPrimary cs in
  let position := rp_GetPosition rp in
  if ruleNumberIsUnset (GetRuleNumber (GetDecision position)) &&
     ruleNumberIsUnset (GetRuleNumber (GetProposal position))
  then None else rp.

(** The inner [for] over the two positions of a status is unrolled by
    [concat_map]; [pick_max] is the loop body. *)
Definition HighestKnownRule (statuses : list (option ConsensusStatus)) : option RulePosition :=
  fold_max CompareRulePosition
    (statuses ≫= fun cs =>
       [pp_GetPosition (GetCurrentPosition cs); rp_GetPosition (ReplicationPrimaryOrNil cs)]).

Definition HighestDecidedRule (statuses : list (option ConsensusStatus)) : option RuleNumber :=
  fold_max CompareRuleNumbers
    (map (fun cs => GetRuleNumber (GetDecision (pp_GetPosition (GetCurrentPosition cs)))) statuses).

Definition ReplicationPrimaryMatches (rp : option ReplicationPrimary) (target : option PoolerAddress)
    (targetPosition : option RulePosition) : bool :=
  match rp, target, targetPosition with
  | Some _, Some _, Some _ =>
      if CompareRulePosition (rp_GetPosition rp) targetPosition <? 0 then false
      else
        let rpPrimary := GetPrimary rp in
        match rpPrimary with
        | None => false
        | Some _ =>
            if negb (idsEqual (pa_GetId rpPrimary) (pa_GetId target)) then false
            else if negb (String.eqb (GetHost rpPrimary) (GetHost target)) then false
            else if negb (GetPostgresPort rpPrimary =? GetPostgresPort target) then false
            else true
        end
  | _, _, _ => false
  end.

Definition MergeReplicationPrimary (current candidate : option ReplicationPrimary)
    : option ReplicationPrimary * bool :=
  match PossiblyUndecidedRule (rp_GetPosition candidate) with
  | None => (current, false)
  | Some _ =>
      let rewindReady :=
        if GetCoordinatorTerm (GetRuleNumber (PossiblyUndecidedRule (rp_GetPosition candidate))) =?
           GetCoordinatorTerm (GetRuleNumber (PossiblyUndecidedRule (rp_GetPosition current)))
        then GetRewindReady candidate || GetRewindReady current
        else GetRewindReady candidate in
      let cmp := CompareRulePosition (rp_GetPosition candidate) (rp_GetPosition current) in
      if cmp <? 0 then (current, false)
      else
        let primary :=
          match GetPrimary candidate with
          | Some _ => GetPrimary candidate
          | None => GetPrimary current
          end in
        if (cmp =? 0) && primaryAddressEqual primary (GetPrimary current) &&
           Bool.eqb rewindReady (GetRewindReady current)
        then (current, false)
        else
          let position := if 0 <? cmp then rp_GetPosition candidate else rp_GetPosition current in
          (Some {| rp_Position := position; rp_Primary := primary; RewindReady := rewindReady |},
           true)
  end.

Section runtime.
  Context `{R : Runtime}.

Definition ComparePoolerPosition (a b : option PoolerPosition) : Z :=
  let cmp := CompareRulePosition (pp_GetPosition a) (pp_GetPosition b) in
  if negb (cmp =? 0) then cmp
  else
    match ParseLSN (pp_GetLsn a), ParseLSN (pp_GetLsn b) with
    | None, None => 0
    | None, Some _ => -1
    | Some _, None => 1
    | Some lsnA, Some lsnB =>
        if lsnA <? lsnB then -1 else if lsnB <? lsnA then 1 else 0
    end.

Definition MostAdvancedPosition (statuses : list (option ConsensusStatus)) : option PoolerPosition :=
  foldl (fun best cs =>
    let pos := GetCurrentPosition cs in
    match ParseLSN (pp_GetLsn pos) with
    | None => best
    | Some _ => pick_max ComparePoolerPosition best pos
    end) None statuses.

End runtime.

(** ** Keys of the orders *)

Definition rn_key (rn : option RuleNumber) : list Z := [GetCoordinatorTerm rn; GetLeaderSubterm rn].

Definition pos_key (pos : option RulePosition) : list Z :=
  rn_key (GetRuleNumber (GetDecision pos)) ++ rn_key (GetRuleNumber (GetProposal pos)).

(** A missing or unparsable LSN ranks below every LSN. *)
Definition lsn_key `{Runtime} (lsn : string) : Z := default (-1) (ParseLSN lsn).

Definition pp_key `{Runtime} (p : option PoolerPosition) : list Z :=
  pos_key (pp_GetPosition p) ++ [lsn_key (pp_GetLsn p)].

(** Rule numbers are counters: neither component is negative. *)
Definition rn_nonneg (rn : option RuleNumber) : Prop :=
  0 <= GetCoordinatorTerm rn /\ 0 <= GetLeaderSubterm rn.

Definition pos_nonneg (pos : option RulePosition) : Prop :=
  rn_nonneg (GetRuleNumber (GetDecision pos)) /\ rn_nonneg (GetRuleNumber (GetProposal pos)).

Lemma CompareRuleNumbers_key a b : CompareRuleNumbers a b = lexcmp (rn_key a) (rn_key b).
Proof.
  unfold CompareRuleNumbers, rn_key. cbn [lexcmp].
  replace (match a with Some _ => GetCoordinatorTerm a | None => 0 end)
    with (GetCoordinatorTerm a) by by destruct a.
  replace (match a with Some _ => GetLeaderSubterm a | None => 0 end)
    with (GetLeaderSubterm a) by by destruct a.
  replace (match b with Some _ => GetCoordinatorTerm b | None => 0 end)
    with (GetCoordinatorTerm b) by by destruct b.
  replace (match b with Some _ => GetLeaderSubterm b | None => 0 end)
    with (GetLeaderSubterm b) by by destruct b.
  unfold Zcmp. destruct (GetCoordinatorTerm a =? GetCoordinatorTerm b); cbn; [|done].
  by destruct (GetLeaderSubterm a =? GetLeaderSubterm b).
Qed.

Lemma CompareRulePosition_key a b : CompareRulePosition a b = lexcmp (pos_key a) (pos_key b).
Proof.
  unfold CompareRulePosition, Compare, pos_key. rewrite !CompareRuleNumbers_key.
  rewrite lexcmp_app by done. cbn [rnp_Decision rnp_Proposal RuleNumberPositionOf].
  by destruct (_ =? 0).
Qed.

Lemma ComparePoolerPosition_key `{R : Runtime} `{!RuntimeLaws R} a b :
  ComparePoolerPosition a b = lexcmp (pp_key a) (pp_key b).
Proof.
  unfold ComparePoolerPosition, pp_key. rewrite CompareRulePosition_key, lexcmp_app by done.
  destruct (lexcmp _ _ =? 0) eqn:E; cbn [negb]; [|done].
  unfold lsn_key. cbn [lexcmp]. unfold Zcmp.
  destruct (ParseLSN (pp_GetLsn a)) as [la|] eqn:Ha; [apply ParseLSN_range in Ha|];
    (destruct (ParseLSN (pp_GetLsn b)) as [lb|] eqn:Hb; [apply ParseLSN_range in Hb|]);
    cbn [default id from_option];
    repeat match goal with |- context [?x =? ?y] => destruct (Z.eqb_spec x y) end;
    repeat match goal with |- context [?x <? ?y] => destruct (Z.ltb_spec x y) end; lia.
Qed.

#[export] Instance CompareRuleNumbers_order : CompareOrder CompareRuleNumbers.
Proof. apply (CompareOrder_key _ rn_key), CompareRuleNumbers_key. Qed.

#[export] Instance CompareRulePosition_order : CompareOrder CompareRulePosition.
Proof. apply (CompareOrder_key _ pos_key), CompareRulePosition_key. Qed.

#[export] Instance ComparePoolerPosition_order `{R : Runtime} `{!RuntimeLaws R} :
  CompareOrder ComparePoolerPosition.
Proof. apply (CompareOrder_key _ pp_key), ComparePoolerPosition_key. Qed.

Lemma CompareRuleNumbers_eq a b :
  CompareRuleNumbers a b = 0 <->
  GetCoordinatorTerm a = GetCoordinatorTerm b /\ GetLeaderSubterm a = GetLeaderSubterm b.
Proof.
  rewrite CompareRuleNumbers_key. split.
  - intros H%lexcmp_eq. by simplify_eq/=.
  - unfold rn_key. intros [-> ->]. apply lexcmp_refl.
Qed.

(** Positions that tie record the same rule numbers. *)
Lemma CompareRulePosition_eq a b : CompareRulePosition a b = 0 <-> pos_key a = pos_key b.
Proof.
  rewrite CompareRulePosition_key. split; [apply lexcmp_eq|].
  intros ->. apply lexcmp_refl.
Qed.

(** The decision dominates: a later decision outranks any proposal. *)
Lemma CompareRulePosition_decision a b :
  CompareRuleNumbers (GetRuleNumber (GetDecision a)) (GetRuleNumber (GetDecision b)) <> 0 ->
  CompareRulePosition a b =
  CompareRuleNumbers (GetRuleNumber (GetDecision a)) (GetRuleNumber (GetDecision b)).
Proof.
  intros H. unfold CompareRulePosition, Compare. cbn [rnp_Decision RuleNumberPositionOf].
  by apply Z.eqb_neq in H as ->.
Qed.

Lemma CompareRulePosition_le_decision a b :
  CompareRulePosition a b <= 0 ->
  CompareRuleNumbers (GetRuleNumber (GetDecision a)) (GetRuleNumber (GetDecision b)) <= 0.
Proof.
  intros H. destruct (decide (CompareRuleNumbers (GetRuleNumber (GetDecision a))
    (GetRuleNumber (GetDecision b)) = 0)); [lia|].
  by rewrite <- CompareRulePosition_decision.
Qed.

Lemma ComparePoolerPosition_le_position `{R : Runtime} a b :
  ComparePoolerPosition a b <= 0 -> CompareRulePosition (pp_GetPosition a) (pp_GetPosition b) <= 0.
Proof.
  unfold ComparePoolerPosition. destruct (_ =? 0) eqn:E; reflect_bools; cbn [negb]; [lia|done].
Qed.

Lemma ruleNumberIsUnset_key a b : rn_key a = rn_key b -> ruleNumberIsUnset a = ruleNumberIsUnset b.
Proof. unfold ruleNumberIsUnset. intros [=-> ->]. done. Qed.

Lemma ruleNumberIsUnset_nonneg rn :
  rn_nonneg rn -> ruleNumberIsUnset rn = true <-> GetCoordinatorTerm rn = 0 /\ GetLeaderSubterm rn = 0.
Proof. unfold rn_nonneg, ruleNumberIsUnset. rewrite Z.eqb_eq. lia. Qed.

(** Positions that tie agree on whether they are decided and on the rule number
    they stand at. *)
Lemma IsRuleDecided_key a b : pos_key a = pos_key b -> IsRuleDecided a = IsRuleDecided b.
Proof. intros [=]. apply ruleNumberIsUnset_key. unfold rn_key. congruence. Qed.

Lemma PossiblyUndecidedRule_key a b :
  pos_key a = pos_key b ->
  rn_key (GetRuleNumber (PossiblyUndecidedRule a)) = rn_key (GetRuleNumber (PossiblyUndecidedRule b)).
Proof.
  intros H. unfold PossiblyUndecidedRule. rewrite (IsRuleDecided_key _ _ H).
  injection H as ????. unfold rn_key. destruct (IsRuleDecided b); cbn [negb]; congruence.
Qed.

Lemma nil_least_rn l : (forall rn, Some rn ∈ l -> rn_nonneg (Some rn)) -> nil_least CompareRuleNumbers l.
Proof.
  intros H rn _ Hin. destruct (H rn Hin). rewrite CompareRuleNumbers_key. unfold rn_key. cbn in *.
  unfold Zcmp. repeat (case_match; reflect_bools); lia.
Qed.

Lemma nil_least_pos l :
  (forall p, Some p ∈ l -> pos_nonneg (Some p)) -> nil_least CompareRulePosition l.
Proof.
  intros H p _ Hin. destruct (H p Hin) as [[] []]. rewrite CompareRulePosition_key.
  unfold pos_key, rn_key. cbn in *. unfold Zcmp.
  repeat (case_match; reflect_bools); lia.
Qed.

(** ** Maxima over statuses *)

(** Every position a status carries has non-negative rule numbers. *)
Definition status_nonneg (cs : option ConsensusStatus) : Prop :=
  pos_nonneg (pp_GetPosition (GetCurrentPosition cs)) /\
  pos_nonneg (rp_GetPosition (GetReplicationPrimary cs)).

Lemma pos_nonneg_ReplicationPrimaryOrNil cs :
  status_nonneg cs -> pos_nonneg (rp_GetPosition (ReplicationPrimaryOrNil cs)).
Proof.
  intros [_ H]. unfold ReplicationPrimaryOrNil. case_match; [|done].
  unfold pos_nonneg, rn_nonneg. cbn. lia.
Qed.

Lemma HighestKnownRule_nil_least statuses :
  Forall status_nonneg statuses ->
  nil_least CompareRulePosition
    (statuses ≫= fun cs =>
       [pp_GetPosition (GetCurrentPosition cs); rp_GetPosition (ReplicationPrimaryOrNil cs)]).
Proof.
  intros Hs. apply nil_least_pos. intros p (cs & Hp & Hcs)%list_elem_of_bind.
  rewrite Forall_forall in Hs. specialize (Hs cs Hcs).
  apply elem_of_cons in Hp as [->|Hp%list_elem_of_singleton]; [apply Hs|].
  rewrite Hp. by apply pos_nonneg_ReplicationPrimaryOrNil.
Qed.

(** [HighestKnownRule] returns a position some status carries, and it is at
    least as advanced as the WAL position and the recorded replication primary
    of every status; when any status has a WAL position it returns one. *)
Theorem HighestKnownRule_is_maximum statuses :
  Forall status_nonneg statuses ->
  (forall best, HighestKnownRule statuses = Some best ->
     (exists cs, cs ∈ statuses /\
        (pp_GetPosition (GetCurrentPosition cs) = Some best \/
         rp_GetPosition (ReplicationPrimaryOrNil cs) = Some best)) /\
     forall cs p, cs ∈ statuses ->
       (pp_GetPosition (GetCurrentPosition cs) = Some p \/
        rp_GetPosition (ReplicationPrimaryOrNil cs) = Some p) ->
       CompareRulePosition (Some p) (Some best) <= 0) /\
  (forall cs, cs ∈ statuses -> is_Some (pp_GetPosition (GetCurrentPosition cs)) ->
     is_Some (HighestKnownRule statuses)).
Proof.
  intros Hs. pose proof (HighestKnownRule_nil_least _ Hs) as Hnil. split.
  - intros best Hb. apply (fold_max_spec CompareRulePosition) in Hb as [Hin Hmax]; [|done].
    split.
    + apply list_elem_of_bind in Hin as (cs & Hp & Hcs). exists cs.
      rewrite !elem_of_cons in Hp. split; [done|]. destruct Hp as [?|[?|Hp]]; [auto|auto|inversion Hp].
    + intros cs p Hcs Hp. apply Hmax. apply list_elem_of_bind. exists cs.
      rewrite !elem_of_cons. split; [|done]. destruct Hp; auto.
  - intros cs Hcs [p Hp]. eapply fold_max_is_Some; [apply _|done|].
    apply list_elem_of_bind. exists cs. rewrite !elem_of_cons. split; [|done]. by left.
Qed.

(** ** Folding a replication primary *)

Lemma idsEqual_refl a : idsEqual a a = true.
Proof. unfold idsEqual. by rewrite bool_decide_true, !String.eqb_refl. Qed.

Lemma primaryAddressEqual_refl a : primaryAddressEqual a a = true.
Proof. unfold primaryAddressEqual. by rewrite idsEqual_refl, String.eqb_refl, Z.eqb_refl. Qed.

(** Rule number and readiness a merge looks at. *)
Definition rp_term (rp : option ReplicationPrimary) : Z :=
  GetCoordinatorTerm (GetRuleNumber (PossiblyUndecidedRule (rp_GetPosition rp))).

Lemma rp_term_key a b :
  pos_key (rp_GetPosition a) = pos_key (rp_GetPosition b) -> rp_term a = rp_term b.
Proof. intros [=H _]%PossiblyUndecidedRule_key. exact H. Qed.

(** The cases of a merge: refused, or the join of both records. *)
Lemma MergeReplicationPrimary_cases current candidate :
  let cmp := CompareRulePosition (rp_GetPosition candidate) (rp_GetPosition current) in
  let ready := if rp_term candidate =? rp_term current
               then GetRewindReady candidate || GetRewindReady current
               else GetRewindReady candidate in
  let primary := match GetPrimary candidate with Some a => Some a | None => GetPrimary current end in
  (MergeReplicationPrimary current candidate = (current, false) /\
   (PossiblyUndecidedRule (rp_GetPosition candidate) = None \/ cmp < 0 \/
    (cmp = 0 /\ primaryAddressEqual primary (GetPrimary current) = true /\
     ready = GetRewindReady current))) \/
  (MergeReplicationPrimary current candidate =
     (Some (mkReplicationPrimary
              (if 0 <? cmp then rp_GetPosition candidate else rp_GetPosition current) primary ready),
      true) /\
   is_Some (PossiblyUndecidedRule (rp_GetPosition candidate)) /\ 0 <= cmp).
Proof.
  unfold MergeReplicationPrimary, rp_term. cbn zeta.
  destruct (PossiblyUndecidedRule (rp_GetPosition candidate)) as [r|] eqn:Hr; [|by left; auto].
  replace (match GetPrimary candidate with Some _ => GetPrimary candidate | None => GetPrimary current end)
    with (match GetPrimary candidate with Some a => Some a | None => GetPrimary current end)
    by by destruct (GetPrimary candidate).
  destruct (_ <? 0) eqn:Hlt; reflect_bools; [left; auto|].
  destruct (_ && _) eqn:Hsame; reflect_bools.
  - left. split; [done|]. right; right. split_and!; [done|done|]. by apply Bool.eqb_prop.
  - right. split_and!; [done|eauto|done].
Qed.

(** A merge is the join of both records. *)
Lemma merge_forward current candidate result changed :
  MergeReplicationPrimary current candidate = (result, changed) ->
  CompareRulePosition (rp_GetPosition current) (rp_GetPosition result) <= 0 /\
  (is_Some (PossiblyUndecidedRule (rp_GetPosition candidate)) ->
   CompareRulePosition (rp_GetPosition candidate) (rp_GetPosition result) <= 0) /\
  (changed = false -> result = current) /\
  (rp_term result = rp_term current -> GetRewindReady current = true ->
   GetRewindReady result = true) /\
  MergeReplicationPrimary result candidate = (result, false).
Proof.
  intros HM.
  pose proof (cmp_anti (cmp:=CompareRulePosition) (rp_GetPosition candidate) (rp_GetPosition current)) as Hanti.
  pose proof (cmp_refl CompareRulePosition (rp_GetPosition current)) as Hrefl.
  pose proof (cmp_refl CompareRulePosition (rp_GetPosition candidate)) as Hrefl'.
  destruct (MergeReplicationPrimary_cases current candidate) as [[HE Hc]|[HE [Hsome Hge]]].
  { rewrite HM in HE. simplify_eq. split_and!; [lia| |done|done|done].
    intros Hr. destruct Hc as [Hn|[?|[? _]]]; [|lia|lia]. rewrite Hn in Hr. by destruct Hr. }
  rewrite HM in HE. injection HE as -> ->.
  set (cmp := CompareRulePosition (rp_GetPosition candidate) (rp_GetPosition current)) in *.
  set (primary := match GetPrimary candidate with Some a => Some a | None => GetPrimary current end) in *.
  set (ready := if rp_term candidate =? rp_term current then _ else _) in *.
  set (res := Some _).
  assert (CompareRulePosition (rp_GetPosition candidate) (rp_GetPosition res) = 0 /\
          rp_term res = rp_term candidate /\
          CompareRulePosition (rp_GetPosition current) (rp_GetPosition res) <= 0) as (Hcand & Hterm & Hcur).
  { subst res. cbn. destruct (0 <? cmp) eqn:E; reflect_bools.
    - split_and!; [done|done|]. rewrite Hanti. lia.
    - assert (cmp = 0) as Hz by lia. split_and!; [done| |lia].
      apply rp_term_key. symmetry. by apply CompareRulePosition_eq. }
  split_and!; [done|lia|done| |].
  - rewrite Hterm. intros Ht Hready. cbn. subst ready. rewrite Ht, Z.eqb_refl, Hready.
    by rewrite orb_true_r.
  - destruct Hsome as [r Hr]. unfold MergeReplicationPrimary.
    assert (GetCoordinatorTerm (GetRuleNumber (Some r)) = rp_term candidate) as Ht
      by (unfold rp_term; by rewrite Hr).
    fold (rp_term res). rewrite Hr, Ht, Hcand, Hterm, !Z.eqb_refl. change (GetRewindReady res) with ready.
    change (GetPrimary res) with primary. cbn [Z.ltb Z.compare Z.eqb andb].
    replace (GetRewindReady candidate || ready) with ready.
    2: { subst ready. destruct (GetRewindReady candidate), (GetRewindReady current);
         by destruct (rp_term candidate =? rp_term current). }
    rewrite Bool.eqb_reflx, andb_true_r.
    replace (match GetPrimary candidate with Some _ => GetPrimary candidate | None => primary end)
      with primary by (subst primary; by destruct (GetPrimary candidate)).
    by rewrite primaryAddressEqual_refl.
Qed.

(** [MergeReplicationPrimary] only moves forward: the recorded position never
    goes back, a candidate that carries a rule is covered by the result, an
    unchanged result is the old record itself, readiness is never lost within a
    coordinator term, and folding the same candidate again changes nothing. *)
Theorem MergeReplicationPrimary_join current candidate result changed :
  MergeReplicationPrimary current candidate = (result, changed) ->
  CompareRulePosition (rp_GetPosition current) (rp_GetPosition result) <= 0 /\
  (is_Some (PossiblyUndecidedRule (rp_GetPosition candidate)) ->
   CompareRulePosition (rp_GetPosition candidate) (rp_GetPosition result) <= 0) /\
  (changed = false -> result = current) /\
  (rp_term result = rp_term current -> GetRewindReady current = true ->
   GetRewindReady result = true) /\
  MergeReplicationPrimary result candidate = (result, false).
Proof. apply merge_forward. Qed.

Lemma HighestKnownRule_is_maximum_witness :
  let r1 := demo_rule 1 p1 [p1; p2; p3] (at_least 2) in
  let r2 := demo_rule 2 p2 [p1; p2; p3] (at_least 2) in
  let statuses := [demo_status p1 None (decided r1) "0/10"; demo_status p2 None (decided r2) "0/8"] in
  HighestKnownRule statuses = decided r2 /\
  forall cs p, cs ∈ statuses ->
    (pp_GetPosition (GetCurrentPosition cs) = Some p \/
     rp_GetPosition (ReplicationPrimaryOrNil cs) = Some p) ->
    CompareRulePosition (Some p) (decided r2) <= 0.
Proof.
  intros r1 r2 statuses. split; [reflexivity|].
  refine (proj2 (proj1 (HighestKnownRule_is_maximum statuses _) _ eq_refl)).
  repeat constructor; cbn; lia.
Defined.

Lemma MergeReplicationPrimary_join_witness :
  let r1 := demo_rule 1 p1 [p1; p2; p3] (at_least 2) in
  let r2 := demo_rule 2 p2 [p1; p2; p3] (at_least 2) in
  let current := Some (mkReplicationPrimary (decided r1) (Some (mkPoolerAddress p1 "h1" 5432)) true) in
  let candidate := Some (mkReplicationPrimary (decided r2) (Some (mkPoolerAddress p2 "h2" 5432)) false) in
  MergeReplicationPrimary current candidate = (candidate, true) /\
  MergeReplicationPrimary candidate candidate = (candidate, false).
Proof.
  intros r1 r2 current candidate. split; [reflexivity|].
  apply (MergeReplicationPrimary_join current candidate candidate true). reflexivity.
Defined.
