(* ===== verification/Cohort.v ===== *)
(** The pooler-set operations of go/common/consensus/durability.go: a cohort is a
    list of ID pointers, and two entries are the same pooler when their cluster
    keys agree. *)

From stdpp Require Import gmap strings list fin_maps.
From S2P Require Import Prelude ClusterMetadata SortedMaps TopoId.

Abbreviation IDs := (list (option ID)).

Definition keysOf (poolers : IDs) (keyFn : option ID -> string) : gset string :=
  list_to_set (map keyFn poolers).

Definition poolerKeysOf (poolers : IDs) : gset string := keysOf poolers ClusterIDString.

Definition cohortIntersect (cohort : IDs) (statuses : list (option ConsensusStatus)) : IDs :=
  let cohortKeys := poolerKeysOf cohort in
  omap (fun cs =>
    match GetId cs with
    | None => None
    | Some i => if bool_decide (ClusterIDString (Some i) ∈ cohortKeys) then Some (Some i) else None
    end) statuses.

Definition intersectStandbys (a b : IDs) : IDs :=
  let bKeys := poolerKeysOf b in
  filter (fun id => ClusterIDString id ∈ bKeys) a.

Definition cohortIsSubsetOf (a b : IDs) : bool :=
  (len (intersectStandbys a b) =? len a)%Z.

Definition sameCohort (a b : IDs) : bool :=
  if negb (len a =? len b)%Z then false
  else
    let aKeys := poolerKeysOf a in
    forallb (fun id => bool_decide (ClusterIDString id ∈ aKeys)) b.

Definition validateRecruitedSubset (cohort recruited : IDs) : option gerror :=
  let cohortKeys := poolerKeysOf cohort in
  if forallb (fun p => bool_decide (ClusterIDString p ∈ cohortKeys)) recruited then None
  else Some (err "recruited pooler is not in cohort").

(** The map [byKey] keeps the last entry of each key. *)
Definition byKey (ids : IDs) : gmap string (option ID) :=
  foldl (fun m id => <[ClusterIDString id := id]> m) ∅ ids.

Definition normalizeIDs (ids : IDs) : IDs := SValues (byKey ids).

Definition requirePrimaryInCohort (cohort : IDs) (primary : option ID) : option gerror :=
  let member := bool_decide (ClusterIDString primary ∈ poolerKeysOf cohort) in
  if bool_decide (primary = None) || negb member
  then Some (err "cannot establish synchronous replication: primary is not in the cohort")
  else None.

Definition validateMajority (cohort recruited : IDs) : option gerror :=
  let majority := (len cohort / 2 + 1)%Z in
  if (len recruited <? majority)%Z then Some (err "majority not satisfied") else None.

Definition unrecruitedOf (cohort recruited : IDs) : IDs :=
  let recruitedPoolers := poolerKeysOf recruited in
  filter (fun p => ClusterIDString p ∉ recruitedPoolers) cohort.

Definition formatIDs (ids : IDs) : string :=
  "[" +:+ String.concat ", " (map ClusterIDString ids) +:+ "]".

(** ** Key sets *)

Lemma keys_overlap (X Y : gset string) : (exists k, k ∈ X /\ k ∈ Y) \/ X ## Y.
Proof.
  destruct (set_choose_or_empty (X ∩ Y)) as [[k [? ?]%elem_of_intersection]|H]; [by left; exists k|].
  right. set_solver.
Qed.

Lemma elem_of_keysOf ids f k : k ∈ keysOf ids f <-> exists id, id ∈ ids /\ f id = k.
Proof.
  unfold keysOf. rewrite elem_of_list_to_set.
  change (map f ids) with (f <$> ids). rewrite list_elem_of_fmap. naive_solver.
Qed.

Lemma elem_of_poolerKeysOf ids k :
  k ∈ poolerKeysOf ids <-> exists id, id ∈ ids /\ ClusterIDString id = k.
Proof. apply elem_of_keysOf. Qed.

Lemma poolerKeysOf_intro ids id : id ∈ ids -> ClusterIDString id ∈ poolerKeysOf ids.
Proof. intros. apply elem_of_poolerKeysOf. eauto. Qed.

Lemma poolerKeysOf_cons id ids :
  poolerKeysOf (id :: ids) = {[ClusterIDString id]} ∪ poolerKeysOf ids.
Proof. done. Qed.

Lemma poolerKeysOf_app a b : poolerKeysOf (a ++ b) = poolerKeysOf a ∪ poolerKeysOf b.
Proof.
  apply set_eq. intros k. rewrite elem_of_union, !elem_of_poolerKeysOf.
  setoid_rewrite elem_of_app. naive_solver.
Qed.

Lemma poolerKeysOf_subseteq a b : (forall id, id ∈ a -> id ∈ b) -> poolerKeysOf a ⊆ poolerKeysOf b.
Proof. intros H k (id & Hid & <-)%elem_of_poolerKeysOf. by apply poolerKeysOf_intro, H. Qed.

Lemma size_poolerKeysOf_le ids : size (poolerKeysOf ids) <= length ids.
Proof.
  induction ids as [|id ids IH]; [done|]. rewrite poolerKeysOf_cons. cbn.
  pose proof (size_union_alt {[ClusterIDString id]} (poolerKeysOf ids)).
  pose proof (subseteq_size (poolerKeysOf ids ∖ {[ClusterIDString id]}) (poolerKeysOf ids)
    ltac:(set_solver)).
  rewrite size_singleton in *. lia.
Qed.

#[export] Hint Resolve poolerKeysOf_intro : multigres.

(** ** Normalisation *)

Lemma byKey_snoc ids id : byKey (ids ++ [id]) = <[ClusterIDString id := id]> (byKey ids).
Proof. unfold byKey. by rewrite foldl_app. Qed.

Lemma byKey_Some ids k id : byKey ids !! k = Some id -> id ∈ ids /\ ClusterIDString id = k.
Proof.
  induction ids as [|x ids IH] using rev_ind; [done|]. rewrite byKey_snoc, elem_of_app.
  intros [[<- <-]|[_ H]]%lookup_insert_Some.
  - split; [right; left|done].
  - apply IH in H as [? ?]. auto.
Qed.

Lemma dom_byKey ids : dom (byKey ids) = poolerKeysOf ids.
Proof.
  induction ids as [|x ids IH] using rev_ind; [done|].
  rewrite byKey_snoc, dom_insert_L, IH, poolerKeysOf_app. set_solver.
Qed.

Lemma elem_of_normalizeIDs ids id :
  id ∈ normalizeIDs ids <-> byKey ids !! ClusterIDString id = Some id.
Proof.
  unfold normalizeIDs. rewrite elem_of_Values. split; [|eauto].
  intros [k Hk]. by destruct (byKey_Some _ _ _ Hk) as [_ ->].
Qed.

Lemma normalizeIDs_subset ids id : id ∈ normalizeIDs ids -> id ∈ ids.
Proof. intros H%elem_of_normalizeIDs. by apply byKey_Some in H as [? _]. Qed.

Lemma poolerKeysOf_normalizeIDs ids : poolerKeysOf (normalizeIDs ids) = poolerKeysOf ids.
Proof.
  apply set_eq. intros k. rewrite <- (dom_byKey ids), elem_of_dom, elem_of_poolerKeysOf. split.
  - intros (id & Hid%elem_of_normalizeIDs & <-). eauto.
  - intros [id Hid]. exists id. destruct (byKey_Some _ _ _ Hid) as [_ <-].
    by split; [apply elem_of_normalizeIDs|].
Qed.

(** Normalising counts each distinct pooler once. *)
Lemma length_normalizeIDs ids : length (normalizeIDs ids) = size (poolerKeysOf ids).
Proof. unfold normalizeIDs. by rewrite length_Values, <- size_dom, dom_byKey. Qed.

Lemma normalizeIDs_forall (P : option ID -> Prop) ids : Forall P ids -> Forall P (normalizeIDs ids).
Proof. rewrite !Forall_forall. auto using normalizeIDs_subset. Qed.

#[export] Hint Resolve normalizeIDs_forall : multigres.

(** ** Membership checks *)

Lemma forallb_in_keys ids (K : gset string) :
  forallb (fun p => bool_decide (ClusterIDString p ∈ K)) ids = true <-> poolerKeysOf ids ⊆ K.
Proof.
  rewrite forallb_forall. split.
  - intros H k (id & Hid & <-)%elem_of_poolerKeysOf.
    apply list_elem_of_In, H in Hid. by apply bool_decide_eq_true in Hid.
  - intros H id Hid%list_elem_of_In. apply bool_decide_eq_true. by apply H, poolerKeysOf_intro.
Qed.

Lemma validateRecruitedSubset_None cohort recruited :
  validateRecruitedSubset cohort recruited = None <-> poolerKeysOf recruited ⊆ poolerKeysOf cohort.
Proof.
  unfold validateRecruitedSubset. rewrite <- forallb_in_keys. by destruct (forallb _ _).
Qed.

Lemma poolerKeysOf_unrecruitedOf cohort recruited :
  poolerKeysOf (unrecruitedOf cohort recruited) = poolerKeysOf cohort ∖ poolerKeysOf recruited.
Proof.
  apply set_eq. intros k. rewrite elem_of_difference, !elem_of_poolerKeysOf.
  unfold unrecruitedOf. setoid_rewrite list_elem_of_filter. split.
  - intros (id & [Hn Hid] & <-). split; [eauto|]. by rewrite <- elem_of_poolerKeysOf.
  - intros [(id & Hid & <-) Hn]. exists id. by rewrite elem_of_poolerKeysOf.
Qed.

Lemma poolerKeysOf_intersectStandbys a b :
  poolerKeysOf (intersectStandbys a b) = poolerKeysOf a ∩ poolerKeysOf b.
Proof.
  apply set_eq. intros k. rewrite elem_of_intersection, !elem_of_poolerKeysOf.
  unfold intersectStandbys. setoid_rewrite list_elem_of_filter.
  setoid_rewrite elem_of_poolerKeysOf. naive_solver.
Qed.

Lemma cohortIsSubsetOf_true a b : cohortIsSubsetOf a b = true <-> poolerKeysOf a ⊆ poolerKeysOf b.
Proof.
  unfold cohortIsSubsetOf, len, intersectStandbys. rewrite Z.eqb_eq, Nat2Z.inj_iff.
  induction a as [|id a IH]; [set_solver|].
  rewrite poolerKeysOf_cons, filter_cons. case_decide as Hid; cbn.
  - split; [intros [=H]; apply IH in H; set_solver|]. intros H. f_equal. apply IH. set_solver.
  - split; [|set_solver].
    pose proof (length_filter (fun id => ClusterIDString id ∈ poolerKeysOf b) a). lia.
Qed.

(** With duplicate-free lists [sameCohort] is equality of the pooler sets. *)
Lemma sameCohort_keys a b : sameCohort a b = true -> poolerKeysOf b ⊆ poolerKeysOf a.
Proof. unfold sameCohort. case_match; [done|]. by rewrite forallb_in_keys. Qed.

Definition distinct (ids : IDs) : Prop := NoDup (ClusterIDString <$> ids).

Lemma size_poolerKeysOf_distinct ids : distinct ids -> size (poolerKeysOf ids) = length ids.
Proof.
  unfold distinct, poolerKeysOf, keysOf. intros H. change (map ?f ids) with (f <$> ids).
  by rewrite size_list_to_set, length_fmap.
Qed.

Lemma sameCohort_true a b :
  distinct b -> sameCohort a b = true -> poolerKeysOf a = poolerKeysOf b.
Proof.
  intros Hb Hs. pose proof (sameCohort_keys _ _ Hs) as Hsub. apply set_eq, set_subseteq_antisymm; [|done].
  unfold sameCohort in Hs. destruct (len a =? len b)%Z eqn:El; [|done].
  unfold len in El. reflect_bools.
  pose proof (size_poolerKeysOf_distinct b Hb). pose proof (size_poolerKeysOf_le a).
  enough (poolerKeysOf b = poolerKeysOf a) as -> by done.
  apply set_subseteq_size_eq; [done|]. lia.
Qed.

Lemma requirePrimaryInCohort_None cohort primary :
  requirePrimaryInCohort cohort primary = None ->
  primary <> None /\ ClusterIDString primary ∈ poolerKeysOf cohort.
Proof.
  unfold requirePrimaryInCohort. case_match; [done|]. intros _. by reflect_bools.
Qed.
