(* ===== verification/Durability.v ===== *)
(** go/common/consensus/durability.go, policy_at_least_n.go and
    policy_multi_cell.go: durability policies, the synchronous-replication
    configuration that implements them, the transition between two policies and
    the recruitment checks.

    The Go interface [DurabilityPolicy] is the class [QuorumPolicy], with an
    instance per implementing struct; what the recruitment checks rely on is the
    class [QuorumPolicyLaws], so their theorems hold for every policy that meets
    it. *)

From stdpp Require Import gmap strings list fin_maps pretty.
From S2P Require Import Prelude ClusterMetadata Demo SortedMaps TopoId Cohort.

Local Open Scope Z_scope.

(** Enums of proto/multipoolermanagerdata.proto; an unnamed wire value is kept. *)
Inductive SynchronousCommitLevel :=
| SYNCHRONOUS_COMMIT_OFF | SYNCHRONOUS_COMMIT_LOCAL | SYNCHRONOUS_COMMIT_REMOTE_WRITE
| SYNCHRONOUS_COMMIT_ON | SYNCHRONOUS_COMMIT_REMOTE_APPLY
| SYNCHRONOUS_COMMIT_UNNAMED (wire : Z).

Inductive SynchronousMethod :=
| SYNCHRONOUS_METHOD_UNSPECIFIED | SYNCHRONOUS_METHOD_FIRST | SYNCHRONOUS_METHOD_ANY
| SYNCHRONOUS_METHOD_UNNAMED (wire : Z).

Record SyncReplicationConfig := mkSyncReplicationConfig {
  SyncCommit : SynchronousCommitLevel;
  SyncMethod : SynchronousMethod;
  NumSync : Z;
  SyncStandbyIDs : IDs
}.

(** go/common/topoclient/durability.go. *)
Definition topo_AtLeastN (n : Z) : option DurabilityPolicyMsg :=
  Some {| PolicyName := "AT_LEAST_" +:+ pretty n; PolicyVersion := 0;
          dp_QuorumType := QUORUM_TYPE_AT_LEAST_N; RequiredCount := n;
          dp_Description := "At least " +:+ pretty n +:+ " nodes must acknowledge" |}.

Definition topo_MultiCellAtLeastN (n : Z) : option DurabilityPolicyMsg :=
  Some {| PolicyName := "MULTI_CELL_AT_LEAST_" +:+ pretty n; PolicyVersion := 0;
          dp_QuorumType := QUORUM_TYPE_MULTI_CELL_AT_LEAST_N; RequiredCount := n;
          dp_Description := "At least " +:+ pretty n +:+
                            " nodes from different cells must acknowledge" |}.

Definition ParseUserSpecifiedDurabilityPolicy (name : string) : result (option DurabilityPolicyMsg) :=
  if String.eqb name "AT_LEAST_2" then Ok (topo_AtLeastN 2)
  else if String.eqb name "MULTI_CELL_AT_LEAST_2" then Ok (topo_MultiCellAtLeastN 2)
  else Err (err "unsupported durability policy (supported: AT_LEAST_2, MULTI_CELL_AT_LEAST_2)").

(** ** The policy interface *)

Class QuorumPolicy (P : Type) := {
  SatisfiedBy : P -> IDs -> option gerror;
  BuildSyncReplicationConfig : P -> IDs -> option ID -> result SyncReplicationConfig;
  Description : P -> string
}.

Record AtLeastNPolicy := mkAtLeastNPolicy { N : Z }.

Definition AtLeastN_SatisfiedBy (p : AtLeastNPolicy) (poolers : IDs) : option gerror :=
  let poolers := normalizeIDs poolers in
  if len poolers <? N p then Some (err "durability not satisfied: poolers, required") else None.

Definition AtLeastN_BuildSyncReplicationConfig (p : AtLeastNPolicy) (cohort : IDs) (primary : option ID)
    : result SyncReplicationConfig :=
  (guard! requirePrimaryInCohort cohort primary;
  if N p =? 1 then
    Ok {| SyncCommit := SYNCHRONOUS_COMMIT_LOCAL; SyncMethod := SYNCHRONOUS_METHOD_ANY;
          NumSync := 1; SyncStandbyIDs := [] |}
  else
    let requiredNumSync := N p - 1 in
    let standbys := len (normalizeIDs cohort) - 1 in
    if standbys <? requiredNumSync then
      Err (err "cannot establish synchronous replication: insufficient cohort members")
    else
      Ok {| SyncCommit := SYNCHRONOUS_COMMIT_ON; SyncMethod := SYNCHRONOUS_METHOD_ANY;
            NumSync := requiredNumSync; SyncStandbyIDs := cohort |})%go.

Definition AtLeastN_Description (p : AtLeastNPolicy) : string :=
  "AT_LEAST_N(N=" +:+ pretty (N p) +:+ ")".

#[export] Instance AtLeastN_policy : QuorumPolicy AtLeastNPolicy := {
  SatisfiedBy := AtLeastN_SatisfiedBy;
  BuildSyncReplicationConfig := AtLeastN_BuildSyncReplicationConfig;
  Description := AtLeastN_Description
}.

Inductive multiCellPolicy := mkMultiCellPolicy.

Definition cellsOf (poolers : IDs) : gset string := keysOf poolers GetCell.

Definition multiCell_SatisfiedBy (p : multiCellPolicy) (poolers : IDs) : option gerror :=
  let poolers := normalizeIDs poolers in
  let cells := cellsOf poolers in
  if Z.of_nat (size cells) <? 2 then Some (err "durability not satisfied: poolers span cells, required")
  else None.

Definition multiCell_BuildSyncReplicationConfig (p : multiCellPolicy) (cohort : IDs)
    (primary : option ID) : result SyncReplicationConfig :=
  (guard! requirePrimaryInCohort cohort primary;
  let primaryCell := GetCell primary in
  let eligible := filter (fun s => GetCell s <> primaryCell) cohort in
  if len eligible =? 0 then
    Err (err "cannot establish synchronous replication: no eligible standbys in different cells")
  else
    Ok {| SyncCommit := SYNCHRONOUS_COMMIT_ON; SyncMethod := SYNCHRONOUS_METHOD_ANY;
          NumSync := 1; SyncStandbyIDs := eligible |})%go.

Definition multiCell_Description (p : multiCellPolicy) : string := "MULTI_CELL_AT_LEAST_N(N=2)".

#[export] Instance multiCell_policy : QuorumPolicy multiCellPolicy := {
  SatisfiedBy := multiCell_SatisfiedBy;
  BuildSyncReplicationConfig := multiCell_BuildSyncReplicationConfig;
  Description := multiCell_Description
}.

(** A non-nil interface value: one of the two implementing structs. *)
Inductive DurabilityPolicy :=
| AtLeastNValue (p : AtLeastNPolicy)
| multiCellValue (p : multiCellPolicy).

#[export] Instance DurabilityPolicy_policy : QuorumPolicy DurabilityPolicy := {
  SatisfiedBy p := match p with AtLeastNValue p => SatisfiedBy p | multiCellValue p => SatisfiedBy p end;
  BuildSyncReplicationConfig p :=
    match p with
    | AtLeastNValue p => BuildSyncReplicationConfig p
    | multiCellValue p => BuildSyncReplicationConfig p
    end;
  Description p := match p with AtLeastNValue p => Description p | multiCellValue p => Description p end
}.

Definition NewPolicyFromProto (policy : option DurabilityPolicyMsg) : result DurabilityPolicy :=
  match policy with
  | None => Err (err "durability policy is nil")
  | Some dp =>
      match dp_QuorumType dp with
      | QUORUM_TYPE_AT_LEAST_N =>
          if RequiredCount dp <? 1 then Err (err "AT_LEAST_N requires RequiredCount >= 1")
          else Ok (AtLeastNValue (mkAtLeastNPolicy (RequiredCount dp)))
      | QUORUM_TYPE_MULTI_CELL_AT_LEAST_N =>
          if negb (RequiredCount dp =? 2)
          then Err (err "MULTI_CELL_AT_LEAST_N requires RequiredCount == 2")
          else Ok (multiCellValue mkMultiCellPolicy)
      | _ => Err (err "unsupported quorum type")
      end
  end.

(** ** Policy transitions *)

(** [Policy] is an interface field: [None] is the nil interface of a zero
    struct. *)
Record PolicyWithCohort := mkPolicyWithCohort {
  Policy : option DurabilityPolicy;
  pwc_Cohort : IDs
}.

Definition NewPolicyWithCohort (cohort : IDs) (dp : option DurabilityPolicyMsg)
    : result PolicyWithCohort :=
  policy ← wrap_result "invalid durability policy" (NewPolicyFromProto dp);
  Ok {| Policy := Some policy; pwc_Cohort := cohort |}.

Record PolicyTransition := mkPolicyTransition {
  Both : PolicyWithCohort;
  Incoming : PolicyWithCohort
}.

Definition policyFamily (p : option DurabilityPolicy) : Z * string :=
  match p with
  | Some (AtLeastNValue v) => (N v, "at_least_n")
  | Some (multiCellValue _) => (2, "multi_cell_at_least_n")
  | None => (0, "")
  end.

Definition BuildPolicyTransition (outgoing incoming : PolicyWithCohort) : result PolicyTransition :=
  let '(outN, outFamily) := policyFamily (Policy outgoing) in
  let '(inN, inFamily) := policyFamily (Policy incoming) in
  if String.eqb outFamily "" || String.eqb inFamily "" then
    Err (err "unsupported leader-led rule change: policies must be AtLeastN or MultiCellAtLeastN")
  else if negb (String.eqb outFamily inFamily) then
    Err (err "unsupported leader-led rule change: policy types must match")
  else
    let cohortSame := sameCohort (pwc_Cohort outgoing) (pwc_Cohort incoming) in
    let nSame := outN =? inN in
    if cohortSame && nSame then Ok {| Both := incoming; Incoming := incoming |}
    else if negb cohortSame && negb nSame then
      Err (err "unsupported leader-led rule change: both N and cohort changed simultaneously")
    else if nSame then
      if cohortIsSubsetOf (pwc_Cohort incoming) (pwc_Cohort outgoing)
      then Ok {| Both := incoming; Incoming := incoming |}
      else if cohortIsSubsetOf (pwc_Cohort outgoing) (pwc_Cohort incoming)
      then Ok {| Both := outgoing; Incoming := incoming |}
      else Err (err "unsupported leader-led rule change: neither cohort is a subset of the other")
    else if outN <? inN then Ok {| Both := incoming; Incoming := incoming |}
    else Ok {| Both := outgoing; Incoming := incoming |}.

(** ** Recruitment checks *)

Section recruitment.
  Context {P : Type} `{!QuorumPolicy P}.

Definition checkRecruitedMajority (cohort recruited : IDs) : option gerror :=
  let cohort := normalizeIDs cohort in
  let recruited := normalizeIDs recruited in
  (try! validateRecruitedSubset cohort recruited;
  validateMajority cohort recruited)%go.

Definition checkUnrecruitedCannotCommit (policy : P) (cohort recruited : IDs) : option gerror :=
  let cohort := normalizeIDs cohort in
  let recruited := normalizeIDs recruited in
  (try! validateRecruitedSubset cohort recruited;
  let unrecruited := unrecruitedOf cohort recruited in
  match SatisfiedBy policy unrecruited with
  | None => Some (err "revocation not satisfied: un-recruited cohort poolers could independently satisfy")
  | Some _ => None
  end)%go.

Definition CheckSufficientRecruitment (policy : P) (cohort recruited : IDs) : option gerror :=
  (try! checkRecruitedMajority cohort recruited;
  checkUnrecruitedCannotCommit policy cohort recruited)%go.

End recruitment.

(** ** What a policy promises its clients *)

(** Postgres commits under [ANY n (s1, ..., sk)] once [n] of the listed standbys
    have acknowledged; the primary's own entry is ignored, and an empty list
    waits for nobody. *)
Definition acks_needed (cfg : SyncReplicationConfig) : Z :=
  match SyncStandbyIDs cfg with [] => 0 | _ => NumSync cfg end.

Definition sync_standbys (cfg : SyncReplicationConfig) (primary : option ID) : gset string :=
  poolerKeysOf (SyncStandbyIDs cfg) ∖ {[ClusterIDString primary]}.

Record sync_acked (cfg : SyncReplicationConfig) (primary : option ID) (acks : IDs) : Prop := {
  acks_listed : poolerKeysOf acks ⊆ sync_standbys cfg primary;
  acks_enough : acks_needed cfg <= Z.of_nat (size (poolerKeysOf acks))
}.

Class QuorumPolicyLaws (P : Type) `{!QuorumPolicy P} : Prop := {
  (** More poolers satisfy whatever fewer do. *)
  satisfied_mono : forall (p : P) a b,
    Forall valid_id a -> Forall valid_id b -> poolerKeysOf a ⊆ poolerKeysOf b ->
    SatisfiedBy p a = None -> SatisfiedBy p b = None;
  (** A commit under the configuration is durable under the policy. *)
  sync_sound : forall (p : P) cohort primary cfg acks,
    Forall valid_id cohort -> valid_id primary -> Forall valid_id acks ->
    BuildSyncReplicationConfig p cohort primary = Ok cfg ->
    sync_acked cfg primary acks -> SatisfiedBy p (primary :: acks) = None;
  (** The cohort has enough standbys for a commit to complete. *)
  sync_feasible : forall (p : P) cohort primary cfg,
    Forall valid_id cohort -> valid_id primary ->
    BuildSyncReplicationConfig p cohort primary = Ok cfg ->
    acks_needed cfg <= Z.of_nat (size (sync_standbys cfg primary))
}.

Lemma AtLeastN_SatisfiedBy_None p ids :
  AtLeastN_SatisfiedBy p ids = None <-> N p <= Z.of_nat (size (poolerKeysOf ids)).
Proof.
  unfold AtLeastN_SatisfiedBy, len. rewrite length_normalizeIDs.
  destruct (_ <? _) eqn:E; reflect_bools; split; try done; lia.
Qed.

Lemma size_primary_acks (primary : option ID) (acks : IDs) K :
  poolerKeysOf acks ⊆ K ∖ {[ClusterIDString primary]} ->
  size (poolerKeysOf (primary :: acks)) = S (size (poolerKeysOf acks)).
Proof.
  intros H. rewrite poolerKeysOf_cons, size_union, size_singleton by set_solver. lia.
Qed.

#[export] Instance AtLeastN_laws : QuorumPolicyLaws AtLeastNPolicy.
Proof.
  split; cbn.
  - intros p a b _ _ Hsub. rewrite !AtLeastN_SatisfiedBy_None. apply subseteq_size in Hsub. lia.
  - intros p cohort primary cfg acks _ _ _ Hcfg [Hl He].
    unfold AtLeastN_BuildSyncReplicationConfig in Hcfg. inv_ok.
    apply AtLeastN_SatisfiedBy_None. rewrite (size_primary_acks _ _ _ Hl).
    unfold acks_needed in He. split_ifs; inv_ok; reflect_bools; cbn in *; [lia|].
    apply requirePrimaryInCohort_None in Hchk as [_ Hin].
    destruct cohort; [by apply not_elem_of_empty in Hin|]. lia.
  - intros p cohort primary cfg _ _ Hcfg.
    unfold AtLeastN_BuildSyncReplicationConfig in Hcfg. inv_ok.
    apply requirePrimaryInCohort_None in Hchk as [_ Hin]. unfold acks_needed, sync_standbys.
    split_ifs; inv_ok; reflect_bools; cbn [SyncStandbyIDs NumSync]; [lia|].
    unfold len in *. rewrite length_normalizeIDs in *.
    rewrite size_difference, size_singleton by set_solver. destruct cohort; lia.
Qed.

Lemma multiCell_SatisfiedBy_None p ids :
  multiCell_SatisfiedBy p ids = None <-> 2 <= Z.of_nat (size (cellsOf (normalizeIDs ids))).
Proof.
  unfold multiCell_SatisfiedBy. destruct (_ <? _) eqn:E; reflect_bools; split; try done; lia.
Qed.

Lemma elem_of_cellsOf ids c : c ∈ cellsOf ids <-> exists id, id ∈ ids /\ GetCell id = c.
Proof. apply elem_of_keysOf. Qed.

(** The key of a valid ID determines its cell. *)
Lemma cellsOf_mono a b :
  Forall valid_id a -> Forall valid_id b -> poolerKeysOf a ⊆ poolerKeysOf b -> cellsOf a ⊆ cellsOf b.
Proof.
  rewrite !Forall_forall. intros Ha Hb Hsub c (id & Hid & <-)%elem_of_cellsOf.
  pose proof (Hsub _ (poolerKeysOf_intro _ _ Hid)) as (id' & Hid' & Heq)%elem_of_poolerKeysOf.
  apply elem_of_cellsOf. exists id'. split; [done|].
  by destruct (ClusterIDString_inj id' id ltac:(auto) ltac:(auto) Heq).
Qed.

Lemma cellsOf_normalizeIDs ids : Forall valid_id ids -> cellsOf (normalizeIDs ids) = cellsOf ids.
Proof.
  intros H. apply set_eq, set_subseteq_antisymm; apply cellsOf_mono;
    auto with multigres; by rewrite poolerKeysOf_normalizeIDs.
Qed.

Lemma multiCell_two_cells p ids id1 id2 :
  Forall valid_id ids -> id1 ∈ ids -> id2 ∈ ids -> GetCell id1 <> GetCell id2 ->
  multiCell_SatisfiedBy p ids = None.
Proof.
  intros Hv H1 H2 Hne. apply multiCell_SatisfiedBy_None. rewrite cellsOf_normalizeIDs by done.
  assert ({[GetCell id1; GetCell id2]} ⊆ cellsOf ids) as Hsub%subseteq_size.
  { intros c. rewrite elem_of_union, !elem_of_singleton, elem_of_cellsOf. naive_solver. }
  rewrite size_union, !size_singleton in Hsub by set_solver. lia.
Qed.

#[export] Instance multiCell_laws : QuorumPolicyLaws multiCellPolicy.
Proof.
  split; cbn.
  - intros p a b Ha Hb Hsub. rewrite !multiCell_SatisfiedBy_None, !cellsOf_normalizeIDs by done.
    pose proof (subseteq_size _ _ (cellsOf_mono a b Ha Hb Hsub)). lia.
  - intros p cohort primary cfg acks Hc Hp Ha Hcfg [Hl He].
    unfold multiCell_BuildSyncReplicationConfig in Hcfg. inv_ok. split_ifs; inv_ok.
    unfold acks_needed, sync_standbys in *. cbn in *. unfold len in *. reflect_bools.
    destruct acks as [|a acks]; [by case_match; simplify_eq/=|].
    assert (ClusterIDString a ∈ poolerKeysOf (a :: acks)) as [Hin _]%Hl%elem_of_difference
      by (apply poolerKeysOf_intro; left).
    apply elem_of_poolerKeysOf in Hin as (s & [Hcell Hs]%list_elem_of_filter & Heq).
    assert (GetCell s = GetCell a) as Hsa.
    { rewrite Forall_forall in Hc. apply (ClusterIDString_inj s a); [auto| |done]. by inversion Ha. }
    apply (multiCell_two_cells _ _ primary a); [by constructor|left|right; left|congruence].
  - intros p cohort primary cfg Hc Hp Hcfg.
    unfold multiCell_BuildSyncReplicationConfig in Hcfg. inv_ok. split_ifs; inv_ok.
    unfold acks_needed, sync_standbys. cbn [SyncStandbyIDs NumSync]. unfold len in *. reflect_bools.
    destruct (filter _ cohort) as [|s l] eqn:Hf; [done|].
    assert (s ∈ filter (fun s => GetCell s <> GetCell primary) cohort) as
      [Hcell Hs]%list_elem_of_filter by (rewrite Hf; left).
    assert ({[ClusterIDString s]} ⊆ poolerKeysOf (s :: l) ∖ {[ClusterIDString primary]}) as Hsub%subseteq_size.
    { intros k ->%elem_of_singleton. apply elem_of_difference. split; [apply poolerKeysOf_intro; left|].
      intros Heq%elem_of_singleton. rewrite Forall_forall in Hc.
      by destruct (ClusterIDString_inj s primary ltac:(auto) Hp Heq). }
    rewrite size_singleton in Hsub. lia.
Qed.

#[export] Instance DurabilityPolicy_laws : QuorumPolicyLaws DurabilityPolicy.
Proof.
  split; intros [p|p].
  - exact (satisfied_mono p).
  - exact (satisfied_mono p).
  - exact (sync_sound p).
  - exact (sync_sound p).
  - exact (sync_feasible p).
  - exact (sync_feasible p).
Qed.

(** ** Recruitment theorems *)

Lemma checkRecruitedMajority_None cohort recruited :
  checkRecruitedMajority cohort recruited = None <->
  poolerKeysOf recruited ⊆ poolerKeysOf cohort /\
  Z.of_nat (size (poolerKeysOf cohort)) / 2 < Z.of_nat (size (poolerKeysOf recruited)).
Proof.
  unfold checkRecruitedMajority, validateMajority, len. rewrite !length_normalizeIDs.
  destruct (validateRecruitedSubset _ _) eqn:Hv; cbn [check_err].
  - split; [done|]. intros [Hs _].
    rewrite <- (poolerKeysOf_normalizeIDs cohort), <- (poolerKeysOf_normalizeIDs recruited) in Hs.
    apply validateRecruitedSubset_None in Hs. congruence.
  - apply validateRecruitedSubset_None in Hv. rewrite !poolerKeysOf_normalizeIDs in Hv.
    destruct (_ <? _) eqn:E; reflect_bools; split; try done; [lia|]. intros _. split; [done|lia].
Qed.

Section policy.
  Context {P : Type} `{!QuorumPolicy P, !QuorumPolicyLaws P}.
  Implicit Types (policy : P) (cohort recruited : IDs).

Lemma checkUnrecruitedCannotCommit_None policy cohort recruited :
  checkUnrecruitedCannotCommit policy cohort recruited = None <->
  poolerKeysOf recruited ⊆ poolerKeysOf cohort /\
  is_Some (SatisfiedBy policy (unrecruitedOf (normalizeIDs cohort) (normalizeIDs recruited))).
Proof.
  unfold checkUnrecruitedCannotCommit.
  destruct (validateRecruitedSubset _ _) eqn:Hv; cbn [check_err].
  - split; [done|]. intros [Hs _].
    rewrite <- (poolerKeysOf_normalizeIDs cohort), <- (poolerKeysOf_normalizeIDs recruited) in Hs.
    apply validateRecruitedSubset_None in Hs. congruence.
  - apply validateRecruitedSubset_None in Hv. rewrite !poolerKeysOf_normalizeIDs in Hv.
    destruct (SatisfiedBy _ _) eqn:E; split; [eauto|done|done|]. by intros [_ [? ?]].
Qed.

Lemma CheckSufficientRecruitment_None policy cohort recruited :
  CheckSufficientRecruitment policy cohort recruited = None <->
  checkRecruitedMajority cohort recruited = None /\
  checkUnrecruitedCannotCommit policy cohort recruited = None.
Proof.
  unfold CheckSufficientRecruitment. destruct (checkRecruitedMajority _ _); cbn; naive_solver.
Qed.

Lemma poolerKeysOf_leftover cohort recruited :
  poolerKeysOf (unrecruitedOf (normalizeIDs cohort) (normalizeIDs recruited)) =
  poolerKeysOf cohort ∖ poolerKeysOf recruited.
Proof. by rewrite poolerKeysOf_unrecruitedOf, !poolerKeysOf_normalizeIDs. Qed.

Lemma valid_leftover cohort recruited :
  Forall valid_id cohort ->
  Forall valid_id (unrecruitedOf (normalizeIDs cohort) (normalizeIDs recruited)).
Proof.
  intros H. apply (normalizeIDs_forall valid_id) in H. revert H. rewrite !Forall_forall.
  unfold unrecruitedOf. setoid_rewrite list_elem_of_filter. naive_solver.
Qed.

(** A quorum of the outgoing rule always meets a sufficient recruitment. *)
Lemma quorum_meets_recruits policy cohort recruited quorum :
  Forall valid_id cohort -> Forall valid_id quorum ->
  checkUnrecruitedCannotCommit policy cohort recruited = None ->
  poolerKeysOf quorum ⊆ poolerKeysOf cohort -> SatisfiedBy policy quorum = None ->
  exists k, k ∈ poolerKeysOf quorum /\ k ∈ poolerKeysOf recruited.
Proof.
  intros Hc Hq [Hsub [e He]]%checkUnrecruitedCannotCommit_None Hqc Hsat.
  destruct (keys_overlap (poolerKeysOf quorum) (poolerKeysOf recruited)) as [?|Hno]; [done|].
  exfalso. enough (SatisfiedBy policy (unrecruitedOf (normalizeIDs cohort) (normalizeIDs recruited)) = None)
    by congruence.
  apply (satisfied_mono policy quorum); auto using valid_leftover.
  rewrite poolerKeysOf_leftover. set_solver.
Qed.

(** Recruiting more of the cohort never invalidates a recruitment. *)
Lemma CheckSufficientRecruitment_mono policy cohort r r' :
  Forall valid_id cohort -> poolerKeysOf r ⊆ poolerKeysOf r' -> poolerKeysOf r' ⊆ poolerKeysOf cohort ->
  CheckSufficientRecruitment policy cohort r = None ->
  CheckSufficientRecruitment policy cohort r' = None.
Proof.
  intros Hc Hrr Hrc. rewrite !CheckSufficientRecruitment_None, !checkRecruitedMajority_None,
    !checkUnrecruitedCannotCommit_None.
  intros [[_ Hmaj] [_ [e He]]]. apply subseteq_size in Hrr as Hsz.
  split_and!; [done|lia|done|].
  destruct (SatisfiedBy policy (unrecruitedOf (normalizeIDs cohort) (normalizeIDs r'))) eqn:Hs; [eauto|].
  apply (satisfied_mono policy _ (unrecruitedOf (normalizeIDs cohort) (normalizeIDs r))) in Hs;
    auto using valid_leftover; [by rewrite Hs in He|].
  rewrite !poolerKeysOf_leftover. set_solver.
Qed.
End policy.

(** Two majorities of the same key set share a key. *)
Lemma majority_keys_overlap (K X Y : gset string) :
  X ⊆ K -> Z.of_nat (size K) / 2 < Z.of_nat (size X) ->
  Y ⊆ K -> Z.of_nat (size K) / 2 < Z.of_nat (size Y) ->
  exists k, k ∈ X /\ k ∈ Y.
Proof.
  intros Hx Hmx Hy Hmy. destruct (keys_overlap X Y) as [?|Hdis]; [done|].
  assert (X ∪ Y ⊆ K) as Hu%subseteq_size by set_solver.
  rewrite size_union in Hu by done. exfalso.
  pose proof (Z.div_mod (Z.of_nat (size K)) 2 ltac:(lia)).
  pose proof (Z.mod_pos_bound (Z.of_nat (size K)) 2 ltac:(lia)). lia.
Qed.

(** Two recruitments that each pass the majority check for the same set of
    poolers share a pooler, however the lists are ordered and whatever
    duplicates they hold. *)
Theorem recruitments_overlap cohort1 cohort2 recruited1 recruited2 :
  poolerKeysOf cohort1 = poolerKeysOf cohort2 ->
  checkRecruitedMajority cohort1 recruited1 = None ->
  checkRecruitedMajority cohort2 recruited2 = None ->
  exists k, k ∈ poolerKeysOf recruited1 /\ k ∈ poolerKeysOf recruited2.
Proof.
  intros Heq [Hs1 Hm1]%checkRecruitedMajority_None [Hs2 Hm2]%checkRecruitedMajority_None.
  rewrite <- Heq in Hs2, Hm2. by apply (majority_keys_overlap (poolerKeysOf cohort1)).
Qed.

Lemma recruitments_overlap_witness :
  exists k, k ∈ poolerKeysOf [p1; p2] /\ k ∈ poolerKeysOf [p3; p2; p2].
Proof.
  apply (recruitments_overlap [p1; p2; p3] [p3; p2; p1; p1] [p1; p2] [p3; p2; p2]);
    vm_compute; reflexivity.
Defined.

(** C4: A sufficient recruitment freezes the outgoing rule: every set of cohort
    members that satisfies the durability policy contains a recruited pooler, so
    no write becomes durable under the outgoing rule out of the recruits' sight. *)
Theorem sufficient_recruitment_freezes (policy : DurabilityPolicy) cohort recruited quorum :
  Forall valid_id cohort -> Forall valid_id quorum ->
  CheckSufficientRecruitment policy cohort recruited = None ->
  poolerKeysOf quorum ⊆ poolerKeysOf cohort -> SatisfiedBy policy quorum = None ->
  exists k, k ∈ poolerKeysOf quorum /\ k ∈ poolerKeysOf recruited.
Proof.
  intros Hc Hq [_ Hu]%CheckSufficientRecruitment_None. by apply (quorum_meets_recruits policy cohort).
Qed.

Lemma sufficient_recruitment_freezes_witness :
  exists k, k ∈ poolerKeysOf [p1; p3] /\ k ∈ poolerKeysOf [p2; p3].
Proof.
  apply (sufficient_recruitment_freezes (AtLeastNValue (mkAtLeastNPolicy 2)) [p1; p2; p3]);
    solve [by_decide | vm_compute; reflexivity].
Defined.

(** C39: A commit under the configuration a policy builds is durable under that
    policy (the primary together with the standbys Postgres waited for satisfies
    it), and the cohort always holds enough standbys for such a commit. *)
Theorem sync_config_implements_policy dp (policy : DurabilityPolicy) cohort primary cfg :
  NewPolicyFromProto dp = Ok policy ->
  Forall valid_id cohort -> valid_id primary ->
  BuildSyncReplicationConfig policy cohort primary = Ok cfg ->
  (forall acks, Forall valid_id acks -> sync_acked cfg primary acks ->
     SatisfiedBy policy (primary :: acks) = None) /\
  acks_needed cfg <= Z.of_nat (size (sync_standbys cfg primary)) /\
  ClusterIDString primary ∈ poolerKeysOf cohort.
Proof.
  intros _ Hc Hp Hcfg. split_and!.
  - intros acks Ha. by apply (sync_sound policy cohort).
  - by apply (sync_feasible policy cohort).
  - destruct policy; cbn in Hcfg;
      [unfold AtLeastN_BuildSyncReplicationConfig in Hcfg|unfold multiCell_BuildSyncReplicationConfig in Hcfg];
      inv_ok; by apply requirePrimaryInCohort_None in Hchk as [_ ?].
Qed.

Lemma sync_config_implements_policy_witness :
  SatisfiedBy (multiCellValue mkMultiCellPolicy) [p1; p3] = None.
Proof.
  refine (proj1 (sync_config_implements_policy multi_cell (multiCellValue mkMultiCellPolicy)
    [p1; p2; p3; p4] p1
    (mkSyncReplicationConfig SYNCHRONOUS_COMMIT_ON SYNCHRONOUS_METHOD_ANY 1 [p2; p3])
    eq_refl _ _ eq_refl) [p3] _ _); [by_decide|by_decide|by_decide|].
  split; [by_decide|vm_compute; discriminate].
Defined.

(** [weaker q p]: whatever satisfies [p] satisfies [q]. *)
Definition weaker (q p : DurabilityPolicy) : Prop :=
  match p, q with
  | AtLeastNValue p, AtLeastNValue q => N q <= N p
  | multiCellValue _, multiCellValue _ => True
  | _, _ => False
  end.

Lemma weaker_satisfied q p ids : weaker q p -> SatisfiedBy p ids = None -> SatisfiedBy q ids = None.
Proof.
  destruct p as [p|[]], q as [q|[]]; cbn; try done. rewrite !AtLeastN_SatisfiedBy_None. lia.
Qed.

Lemma BuildPolicyTransition_Ok outgoing incoming t :
  distinct (pwc_Cohort incoming) ->
  BuildPolicyTransition outgoing incoming = Ok t ->
  Incoming t = incoming /\
  exists both out inc, Policy (Both t) = Some both /\ Policy outgoing = Some out /\
    Policy incoming = Some inc /\ weaker out both /\ weaker inc both /\
    poolerKeysOf (pwc_Cohort (Both t)) ⊆ poolerKeysOf (pwc_Cohort outgoing) /\
    poolerKeysOf (pwc_Cohort (Both t)) ⊆ poolerKeysOf (pwc_Cohort incoming).
Proof.
  intros Hd. unfold BuildPolicyTransition.
  destruct outgoing as [[[o|o]|] oc], incoming as [[[i|i]|] ic]; cbn [policyFamily Policy pwc_Cohort] in *;
    try discriminate; cbn [String.eqb orb negb];
    repeat match goal with
    | |- context [sameCohort ?a ?b] => destruct (sameCohort a b) eqn:?
    | |- context [cohortIsSubsetOf ?a ?b] => destruct (cohortIsSubsetOf a b) eqn:?
    | |- context [?a =? ?b] => destruct (Z.eqb_spec a b)
    | |- context [?a <? ?b] => destruct (Z.ltb_spec a b)
    end; cbn; intros [=]; subst; cbn;
    repeat match goal with
    | H : sameCohort ?a ?b = true |- _ => apply (sameCohort_true _ _ Hd) in H
    | H : cohortIsSubsetOf ?a ?b = true |- _ => apply cohortIsSubsetOf_true in H
    end;
    (split; [done|]); do 3 eexists; split_and!; try done; cbn; try lia; set_solver.
Qed.

(** During a leader-led rule change the "Both" policy is at least as strict as
    the outgoing and the incoming rule: poolers of its cohort that satisfy it,
    restricted to either cohort, satisfy that rule's policy. *)
Theorem policy_transition_satisfies_both outgoing incoming t :
  Forall valid_id (pwc_Cohort outgoing) -> Forall valid_id (pwc_Cohort incoming) ->
  distinct (pwc_Cohort incoming) ->
  BuildPolicyTransition outgoing incoming = Ok t ->
  Incoming t = incoming /\
  exists both out inc, Policy (Both t) = Some both /\ Policy outgoing = Some out /\
    Policy incoming = Some inc /\
    forall acks, Forall valid_id acks -> poolerKeysOf acks ⊆ poolerKeysOf (pwc_Cohort (Both t)) ->
      SatisfiedBy both acks = None ->
      SatisfiedBy out (intersectStandbys acks (pwc_Cohort outgoing)) = None /\
      SatisfiedBy inc (intersectStandbys acks (pwc_Cohort incoming)) = None.
Proof.
  intros Ho Hi Hd Ht.
  destruct (BuildPolicyTransition_Ok _ _ _ Hd Ht) as (? & both & out & inc & ? & ? & ? & Hwo & Hwi & Hso & Hsi).
  split; [done|]. exists both, out, inc. split_and!; [done..|]. intros acks Ha Hk Hsat.
  assert (forall cohort, poolerKeysOf acks ⊆ poolerKeysOf cohort ->
    SatisfiedBy both (intersectStandbys acks cohort) = None) as Hin.
  { intros cohort Hc. apply (satisfied_mono both acks); [done| | |done].
    - revert Ha. rewrite !Forall_forall. unfold intersectStandbys.
      setoid_rewrite list_elem_of_filter. naive_solver.
    - rewrite poolerKeysOf_intersectStandbys. set_solver. }
  split; [apply (weaker_satisfied _ _ _ Hwo)|apply (weaker_satisfied _ _ _ Hwi)]; apply Hin; set_solver.
Qed.

Lemma policy_transition_satisfies_both_witness :
  let two := Some (AtLeastNValue (mkAtLeastNPolicy 2)) in
  let outgoing := mkPolicyWithCohort two [p1; p2] in
  let incoming := mkPolicyWithCohort two [p1; p2; p3] in
  BuildPolicyTransition outgoing incoming = Ok (mkPolicyTransition outgoing incoming) /\
  Incoming (mkPolicyTransition outgoing incoming) = incoming.
Proof.
  intros two outgoing incoming. split; [vm_compute; reflexivity|].
  refine (proj1 (policy_transition_satisfies_both outgoing incoming _ _ _ _ _));
    [by_decide|by_decide|by_decide|vm_compute; reflexivity].
Defined.

(** A parsed policy is never satisfied by nobody, so recruiting a whole non-empty
    cohort always suffices. *)
Lemma NewPolicyFromProto_not_vacuous dp policy :
  NewPolicyFromProto dp = Ok policy -> is_Some (SatisfiedBy policy []).
Proof.
  unfold NewPolicyFromProto. destruct dp as [dp|]; [|done].
  destruct (dp_QuorumType dp); try done; split_ifs; intros [=<-]; reflect_bools.
  - cbn. destruct (AtLeastN_SatisfiedBy _ _) eqn:E; [eauto|].
    apply AtLeastN_SatisfiedBy_None in E. change (poolerKeysOf []) with (∅ : gset string) in E.
    rewrite size_empty in E. cbn in E. lia.
  - eexists. vm_compute. reflexivity.
Qed.

(** Recruiting every member of a non-empty cohort is sufficient under every
    policy the wire format can express: parsing refuses exactly the policies
    under which no recruitment could ever freeze a rule. *)
Theorem full_recruitment_suffices dp policy cohort :
  NewPolicyFromProto dp = Ok policy -> cohort <> [] -> Forall valid_id cohort ->
  CheckSufficientRecruitment policy cohort cohort = None.
Proof.
  intros Hp Hne Hv. apply CheckSufficientRecruitment_None.
  rewrite checkRecruitedMajority_None, checkUnrecruitedCannotCommit_None. split_and!; [done| |done|].
  - destruct cohort as [|id cohort]; [done|].
    assert (size (poolerKeysOf (id :: cohort)) <> 0%nat) as Hs.
    { rewrite poolerKeysOf_cons. intros H%size_empty_iff. set_solver. }
    apply Z.div_lt; lia.
  - destruct (NewPolicyFromProto_not_vacuous _ _ Hp) as [e He].
    destruct (SatisfiedBy policy (unrecruitedOf _ _)) eqn:Hs; [eauto|].
    apply (satisfied_mono policy _ []) in Hs; auto using valid_leftover; [congruence|].
    rewrite poolerKeysOf_leftover. set_solver.
Qed.

Lemma full_recruitment_suffices_witness :
  CheckSufficientRecruitment (AtLeastNValue (mkAtLeastNPolicy 2)) [p1; p2] [p1; p2] = None.
Proof.
  apply (full_recruitment_suffices (at_least 2)); [reflexivity|discriminate|by_decide].
Defined.
