(* ===== verification/CohortSafety.v ===== *)
(** go/common/consensus/cohort_safety.go: whether a cohort keeps enough members
    for a failover. *)

From stdpp Require Import gmap strings list fin_maps.
From S2P Require Import Prelude ClusterMetadata Demo TopoId Cohort Durability.

Local Open Scope Z_scope.

(** The loops compare component IDs, not cluster keys. *)
Definition without_member (cohort : IDs) (member : option ID) : IDs :=
  filter (fun id => ComponentIDString id <> ComponentIDString member) cohort.

Definition cohortSurvivesMemberLoss (policy : option DurabilityPolicy) (cohort : IDs)
    (member : option ID) : bool :=
  match policy with
  | None => false
  | Some policy =>
      let recruited :=
        match member with
        | None => cohort
        | Some _ => without_member cohort member
        end in
      bool_decide (CheckSufficientRecruitment policy cohort recruited = None)
  end.

Definition IsCohortMemberRemovalSafe (rule : option ShardRule) (memberID : option ID) : bool :=
  match rule, memberID with
  | Some _, Some _ =>
      match NewPolicyFromProto (GetDurabilityPolicy rule) with
      | Err _ => false
      | Ok policy =>
          let cohort := GetCohortMembers rule in
          let wantedKey := ComponentIDString memberID in
          let found := existsb (fun id => String.eqb (ComponentIDString id) wantedKey) cohort in
          let newCohort := without_member cohort memberID in
          if negb found then false
          else cohortSurvivesMemberLoss (Some policy) newCohort (GetLeaderId rule)
      end
  | _, _ => false
  end.

Definition CohortSurvivesAnyMemberLoss (policy : option DurabilityPolicy) (cohort : IDs) : bool :=
  let cohort := normalizeIDs cohort in
  if len cohort =? 0 then false
  else forallb (cohortSurvivesMemberLoss policy cohort) cohort.

(** Component IDs identify the poolers of a cohort: they collide only for one
    cluster key (hyphenated cells can break this, see
    [ComponentIDString_collision]). *)
Definition component_faithful (cohort : IDs) : Prop :=
  forall a b, a ∈ cohort -> b ∈ cohort ->
    ComponentIDString a = ComponentIDString b <-> ClusterIDString a = ClusterIDString b.

Lemma poolerKeysOf_without_member cohort member :
  component_faithful cohort -> member ∈ cohort ->
  poolerKeysOf (without_member cohort member) = poolerKeysOf cohort ∖ {[ClusterIDString member]}.
Proof.
  intros Hf Hm. apply set_eq. intros k.
  rewrite elem_of_difference, elem_of_singleton, !elem_of_poolerKeysOf. unfold without_member.
  setoid_rewrite list_elem_of_filter. split.
  - intros (id & [Hne Hid] & <-). split; [eauto|]. by rewrite <- (Hf id member).
  - intros [(id & Hid & <-) Hne]. exists id. by rewrite (Hf id member).
Qed.

Lemma without_member_forall (Q : option ID -> Prop) cohort member :
  Forall Q cohort -> Forall Q (without_member cohort member).
Proof. rewrite !Forall_forall. unfold without_member. setoid_rewrite list_elem_of_filter. naive_solver. Qed.

(** When a removal is reported safe, the rule has a valid policy and names the
    member, and if the leader then fails the other remaining members still
    freeze the shrunk rule: every durable write on the shrunk cohort has been
    acknowledged by one of them. *)
Theorem removal_safe_keeps_durable_writes rule member :
  Forall valid_id (GetCohortMembers rule) ->
  IsCohortMemberRemovalSafe rule member = true ->
  let newCohort := without_member (GetCohortMembers rule) member in
  exists policy leader_gone,
    NewPolicyFromProto (GetDurabilityPolicy rule) = Ok policy /\
    (exists id, id ∈ GetCohortMembers rule /\ ComponentIDString id = ComponentIDString member) /\
    leader_gone = match GetLeaderId rule with None => newCohort
                  | Some _ => without_member newCohort (GetLeaderId rule) end /\
    forall quorum, Forall valid_id quorum -> poolerKeysOf quorum ⊆ poolerKeysOf newCohort ->
      SatisfiedBy policy quorum = None ->
      exists k, k ∈ poolerKeysOf quorum /\ k ∈ poolerKeysOf leader_gone.
Proof.
  intros Hv Hsafe newCohort. unfold IsCohortMemberRemovalSafe in Hsafe.
  destruct rule as [r|]; [|done]. destruct member as [m|]; [|done].
  destruct (NewPolicyFromProto _) as [policy|] eqn:Hp; [|done].
  destruct (existsb _ _) eqn:Hex; [|done]. cbn [negb] in Hsafe.
  apply bool_decide_eq_true, CheckSufficientRecruitment_None in Hsafe as [_ Hu].
  exists policy. eexists. split_and!; [done| |reflexivity|].
  - apply existsb_exists in Hex as (id & Hid%list_elem_of_In & Heq%String.eqb_eq). eauto.
  - intros quorum Hq. apply (quorum_meets_recruits policy); [|done|exact Hu].
    by apply without_member_forall.
Qed.

Lemma removal_safe_keeps_durable_writes_witness :
  let rule := demo_rule 1 p1 [p1; p2; p3; p4] (at_least 2) in
  IsCohortMemberRemovalSafe rule p4 = true /\
  exists policy leader_gone,
    NewPolicyFromProto (at_least 2) = Ok policy /\
    (exists id, id ∈ [p1; p2; p3; p4] /\ ComponentIDString id = ComponentIDString p4) /\
    leader_gone = [p2; p3] /\
    forall quorum, Forall valid_id quorum -> poolerKeysOf quorum ⊆ poolerKeysOf [p1; p2; p3] ->
      SatisfiedBy policy quorum = None ->
      exists k, k ∈ poolerKeysOf quorum /\ k ∈ poolerKeysOf leader_gone.
Proof.
  intros rule. split; [vm_compute; reflexivity|].
  apply (removal_safe_keeps_durable_writes rule p4); [by_decide|vm_compute; reflexivity].
Defined.

(** Losing one member of an AT_LEAST_N cohort leaves it recoverable exactly when
    the rest is a majority and the lost member cannot commit alone. *)
Lemma at_least_n_member_loss n cohort m :
  component_faithful cohort -> m ∈ cohort -> m <> None ->
  cohortSurvivesMemberLoss (Some (AtLeastNValue (mkAtLeastNPolicy n))) cohort m = true <->
  (3 <= size (poolerKeysOf cohort))%nat /\ 2 <= n.
Proof.
  intros Hf Hm Hnil. unfold cohortSurvivesMemberLoss. rewrite bool_decide_eq_true.
  destruct m as [m|]; [|done].
  rewrite CheckSufficientRecruitment_None, checkRecruitedMajority_None,
    checkUnrecruitedCannotCommit_None, (poolerKeysOf_without_member _ _ Hf Hm).
  pose proof (poolerKeysOf_intro _ _ Hm) as Hkm.
  rewrite size_difference, size_singleton by set_solver.
  set (left := unrecruitedOf _ _).
  assert (size (poolerKeysOf left) = 1%nat) as Hleft.
  { subst left. rewrite poolerKeysOf_leftover, (poolerKeysOf_without_member _ _ Hf Hm).
    rewrite difference_difference_r_L, difference_diag_L, (left_id_L ∅ (∪)).
    by rewrite intersection_comm_L, subseteq_intersection_1_L, size_singleton by set_solver. }
  assert (is_Some (SatisfiedBy (AtLeastNValue (mkAtLeastNPolicy n)) left) <-> 2 <= n) as ->.
  { pose proof (AtLeastN_SatisfiedBy_None (mkAtLeastNPolicy n) left) as Hn. rewrite Hleft in Hn. cbn in *.
    destruct (AtLeastN_SatisfiedBy _ left); split.
    - intros _. destruct (Z.leb_spec 2 n) as [|Hlt]; [done|].
      assert (n <= 1) as H1%Hn by lia. discriminate H1.
    - eauto.
    - by intros [].
    - pose proof (proj1 Hn eq_refl). lia. }
  set (sz := size (poolerKeysOf cohort)) in *.
  pose proof (Z.div_mod (Z.of_nat sz) 2 ltac:(lia)). pose proof (Z.mod_pos_bound (Z.of_nat sz) 2 ltac:(lia)).
  split; [intros [[_ ?] [_ ?]]; lia|]. intros [? ?]. split_and!; [set_solver|lia|set_solver|done].
Qed.

(** An AT_LEAST_N cohort survives the loss of any one member exactly when it
    has at least three distinct poolers and N is at least two. *)
Theorem at_least_n_survives_iff n cohort :
  Forall valid_id cohort -> component_faithful cohort ->
  CohortSurvivesAnyMemberLoss (Some (AtLeastNValue (mkAtLeastNPolicy n))) cohort = true <->
  (3 <= size (poolerKeysOf cohort))%nat /\ 2 <= n.
Proof.
  intros Hv Hf. unfold CohortSurvivesAnyMemberLoss, len. rewrite length_normalizeIDs.
  assert (component_faithful (normalizeIDs cohort)) as Hfc.
  { intros a b Ha%normalizeIDs_subset Hb%normalizeIDs_subset. auto. }
  assert (forall m, m ∈ normalizeIDs cohort ->
    cohortSurvivesMemberLoss (Some (AtLeastNValue (mkAtLeastNPolicy n))) (normalizeIDs cohort) m = true <->
    (3 <= size (poolerKeysOf cohort))%nat /\ 2 <= n) as Hone.
  { intros m Hm. rewrite <- (poolerKeysOf_normalizeIDs cohort). apply at_least_n_member_loss; auto.
    apply normalizeIDs_subset in Hm. rewrite Forall_forall in Hv. by destruct (Hv m Hm) as (? & -> & _). }
  destruct (_ =? 0) eqn:Hz; reflect_bools; [split; [done|lia]|].
  rewrite forallb_forall. setoid_rewrite <- list_elem_of_In. split.
  - intros Hall. destruct (normalizeIDs cohort) as [|m l] eqn:Hn.
    { pose proof (length_normalizeIDs cohort) as Hl. rewrite Hn in Hl. cbn in Hl. lia. }
    apply (Hone m); [left|]. apply Hall. left.
  - intros H m Hm. by apply Hone.
Qed.

Lemma at_least_n_survives_iff_witness :
  CohortSurvivesAnyMemberLoss (Some (AtLeastNValue (mkAtLeastNPolicy 2))) [p1; p2; p3] = true.
Proof.
  apply (at_least_n_survives_iff 2 [p1; p2; p3]); [by_decide| |split; [vm_compute; lia|lia]].
  intros a b Ha Hb. rewrite !elem_of_cons, elem_of_nil in Ha, Hb.
  destruct_or!; subst; try done; split; intros [=].
Defined.

(** A cohort that survives any member loss keeps, whichever of its members is
    lost, a majority of its poolers, and among them one pooler of every set that
    could have made a write durable. *)
Lemma survives_any_loss policy cohort lost :
  Forall valid_id cohort -> CohortSurvivesAnyMemberLoss (Some policy) cohort = true -> lost ∈ cohort ->
  let rest := poolerKeysOf cohort ∖ {[ClusterIDString lost]} in
  Z.of_nat (size (poolerKeysOf cohort)) / 2 < Z.of_nat (size rest) /\
  forall quorum, Forall valid_id quorum -> poolerKeysOf quorum ⊆ poolerKeysOf cohort ->
    SatisfiedBy policy quorum = None -> exists k, k ∈ poolerKeysOf quorum /\ k ∈ rest.
Proof.
  intros Hv Hs Hl rest. unfold CohortSurvivesAnyMemberLoss in Hs. destruct (_ =? 0); [done|].
  rewrite forallb_forall in Hs.
  assert (ClusterIDString lost ∈ poolerKeysOf (normalizeIDs cohort)) as (m & Hm & Hk)%elem_of_poolerKeysOf
    by (rewrite poolerKeysOf_normalizeIDs; by apply poolerKeysOf_intro).
  subst rest. rewrite <- Hk. set (rest := _ ∖ _). rewrite Forall_forall in Hv.
  specialize (Hs m (proj1 (list_elem_of_In _ _) Hm)).
  destruct (Hv _ (normalizeIDs_subset _ _ Hm)) as (i & -> & _). cbn in Hs. apply bool_decide_eq_true in Hs.
  apply CheckSufficientRecruitment_None in Hs as [[_ Hmaj]%checkRecruitedMajority_None Hu].
  rewrite poolerKeysOf_normalizeIDs in Hmaj.
  assert (poolerKeysOf (without_member (normalizeIDs cohort) (Some i)) ⊆ rest) as Hsub.
  { intros k (id & [Hne Hid]%list_elem_of_filter & <-)%elem_of_poolerKeysOf.
    apply elem_of_difference. split; [by apply poolerKeysOf_intro, normalizeIDs_subset|].
    rewrite elem_of_singleton. intros Heq. destruct Hne. f_equal.
    apply elem_of_normalizeIDs in Hid, Hm. congruence. }
  split; [pose proof (subseteq_size _ _ Hsub); lia|]. intros quorum Hq Hqc Hsat.
  assert (Forall valid_id (normalizeIDs cohort)) as Hn
    by (apply Forall_forall; intros id Hid%normalizeIDs_subset; auto).
  rewrite <- (poolerKeysOf_normalizeIDs cohort) in Hqc.
  destruct (quorum_meets_recruits policy _ _ quorum Hn Hq Hu Hqc Hsat) as (k & ? & ?). exists k. auto.
Qed.

(** A reported-safe removal can leave a cohort that no longer survives a
    leader loss: with MULTI_CELL_AT_LEAST_2, removing the only third-cell member
    is reported safe, yet once the leader is gone the survivors share one cell
    and cannot satisfy the policy, so no leader can be appointed from them. *)
Theorem removal_safe_ignores_candidacy :
  let b2 := pooler "zone2" "b2" in
  let rule := demo_rule 1 p1 [p1; p2; b2; p3] multi_cell in
  let survivors := without_member (without_member [p1; p2; b2; p3] p3) p1 in
  IsCohortMemberRemovalSafe rule p3 = true /\
  survivors = [p2; b2] /\
  is_Some (SatisfiedBy (multiCellValue mkMultiCellPolicy) survivors).
Proof. vm_compute. eauto. Qed.

(** Component IDs of different poolers can collide when a cell or a name holds
    a hyphen, so the removal check drops both poolers while every quorum
    computation still tells them apart. *)
Theorem ComponentIDString_collision :
  let x := pooler "us" "west-1" in
  let y := pooler "us-west" "1" in
  ComponentIDString x = ComponentIDString y /\
  ClusterIDString x <> ClusterIDString y /\
  without_member [x; y; p1; p2] x = [p1; p2].
Proof. split_and!; [reflexivity|discriminate|vm_compute; reflexivity]. Qed.
