(* ===== verification/Revocation.v ===== *)
(** go/common/consensus/revocation.go: building, comparing and accepting term
    revocations. *)

From stdpp Require Import gmap strings list fin_maps.
From S2P Require Import Prelude ClusterMetadata Demo TopoId Ordering Compare.

Local Open Scope Z_scope.

(** [time.Time.Sub] in nanoseconds saturates at the bounds of [time.Duration]. *)
Definition time_Sub (t u : Z) : Z := Z.max int64_min (Z.min int64_max (t - u)).

Definition highestRevokedBelowTerm (statuses : list (option ConsensusStatus)) : Z :=
  foldl (fun maxTerm cs =>
    let t := GetRevokedBelowTerm (GetTermRevocation cs) in
    if maxTerm <? t then t else maxTerm) 0 statuses.

Definition revocationsMatchingDecision (statuses : list (option ConsensusStatus))
    (replaceDecision : option RuleNumber) : list (option TermRevocation) :=
  omap (fun cs =>
    let rev := GetTermRevocation cs in
    if (0 <? GetRevokedBelowTerm rev) && bool_decide (GetRecruitIntent rev <> None) &&
       (CompareRuleNumbers (GetReplaceDecision (GetRecruitIntent rev)) replaceDecision =? 0)
    then Some rev else None) statuses.

Definition IsRuleRevoked (position : option RulePosition) (revocation : option TermRevocation) : bool :=
  let revokedBelow := GetRevokedBelowTerm revocation in
  if revokedBelow =? 0 then false
  else
    let outgoing := GetOutgoingRule revocation in
    if ruleNumberIsUnset outgoing then false
    else
      let decisionNum := GetRuleNumber (GetDecision position) in
      if revokedBelow <=? GetCoordinatorTerm decisionNum then false
      else
        let cmp := CompareRuleNumbers decisionNum outgoing in
        if 0 <? cmp then false
        else if cmp =? 0 then
          GetCoordinatorTerm (GetRuleNumber (GetProposal position)) <? revokedBelow
        else true.

Definition IsSelfRevoked (status : option ConsensusStatus) : bool :=
  let current := pp_GetPosition (GetCurrentPosition status) in
  let known := rp_GetPosition (ReplicationPrimaryOrNil status) in
  let highest := if 0 <? CompareRulePosition known current then known else current in
  IsRuleRevoked highest (GetTermRevocation status).

Section runtime.
  Context `{R : Runtime}.

(** One iteration of [HighestRevokedBelowTermRevocation]'s loop. *)
Definition prefer_revocation (best rev : option TermRevocation) : option TermRevocation :=
  if bool_decide (best = None) then rev
  else if proto_equal best rev then best
  else if negb (GetRevokedBelowTerm rev =? GetRevokedBelowTerm best) then
    if GetRevokedBelowTerm best <? GetRevokedBelowTerm rev then rev else best
  else if negb (String.eqb (ClusterIDString (GetAcceptedCoordinatorId rev))
                           (ClusterIDString (GetAcceptedCoordinatorId best))) then
    if String.ltb (ClusterIDString (GetAcceptedCoordinatorId rev))
                  (ClusterIDString (GetAcceptedCoordinatorId best)) then rev else best
  else if AsTime (GetCoordinatorInitiatedAt best) <? AsTime (GetCoordinatorInitiatedAt rev) then rev
  else best.

Definition HighestRevokedBelowTermRevocation (candidates : list (option TermRevocation))
    : option TermRevocation :=
  foldl prefer_revocation None candidates.

Definition recruitAttempt (previousRecruitForDecision : option TermRevocation)
    (initiatedAt : option Timestamp) (staleRecruitResetWindow : Z) : Z :=
  match previousRecruitForDecision with
  | None => 1
  | Some _ =>
      if (0 <? staleRecruitResetWindow) &&
         (staleRecruitResetWindow <?
            time_Sub (AsTime initiatedAt)
                     (AsTime (GetCoordinatorInitiatedAt previousRecruitForDecision)))
      then 1
      else wrap64 (GetAttempt (GetRecruitIntent previousRecruitForDecision) + 1)
  end.

Definition NewTermRevocation (statuses : list (option ConsensusStatus)) (coordinatorID : option ID)
    (initiatedAt : option Timestamp) (staleRecruitResetWindow : Z) : result TermRevocation :=
  if len statuses =? 0 then Err (err "NewTermRevocation: statuses must be non-empty")
  else match initiatedAt with
  | None => Err (err "NewTermRevocation: initiatedAt must be non-nil")
  | Some _ =>
      let maxPosition :=
        fold_max CompareRulePosition
          (map (fun cs => pp_GetPosition (GetCurrentPosition cs)) statuses) in
      match maxPosition with
      | None => Err (err "NewTermRevocation: no cohort member reports a recorded rule")
      | Some _ =>
          let outgoingRule := GetRuleNumber (PossiblyUndecidedRule maxPosition) in
          let replaceDecision := HighestDecidedRule statuses in
          let maxTerm := GetCoordinatorTerm outgoingRule in
          let t := highestRevokedBelowTerm statuses in
          let maxTerm := if maxTerm <? t then t else maxTerm in
          let previousRecruitForDecision :=
            HighestRevokedBelowTermRevocation (revocationsMatchingDecision statuses replaceDecision) in
          Ok {| RevokedBelowTerm := wrap64 (maxTerm + 1);
                AcceptedCoordinatorId := coordinatorID;
                CoordinatorInitiatedAt := initiatedAt;
                OutgoingRule := outgoingRule;
                tr_RecruitIntent := Some {|
                  ReplaceDecision := replaceDecision;
                  Attempt := recruitAttempt previousRecruitForDecision initiatedAt
                               staleRecruitResetWindow |} |}
      end
  end.

(** The checks against an already accepted revocation. *)
Definition validate_stored (stored revocation : option TermRevocation) : option gerror :=
  match stored with
  | None => None
  | Some _ =>
      let storedTerm := GetRevokedBelowTerm stored in
      let revokedBelowTerm := GetRevokedBelowTerm revocation in
      if revokedBelowTerm <? storedTerm then
        Some (err "cannot accept revocation: already accepted term > requested")
      else if CompareRuleNumbers (GetOutgoingRule revocation) (GetOutgoingRule stored) <? 0 then
        Some (err "cannot accept revocation: outgoing_rule is below already accepted outgoing_rule")
      else if storedTerm =? revokedBelowTerm then
        let storedCoord := ClusterIDString (GetAcceptedCoordinatorId stored) in
        let reqCoord := ClusterIDString (GetAcceptedCoordinatorId revocation) in
        if negb (String.eqb storedCoord reqCoord) then
          Some (err "cannot accept revocation: already accepted term from coordinator, requested by")
        else if negb (proto_equal (GetCoordinatorInitiatedAt stored)
                                  (GetCoordinatorInitiatedAt revocation)) then
          Some (err "cannot accept revocation: coordinator reused term with a different coordinator_initiated_at")
        else None
      else None
  end.

Definition ValidateRevocation (status : option ConsensusStatus) (revocation : option TermRevocation)
    : option gerror :=
  match revocation with
  | None => Some (err "cannot accept revocation: revocation is nil")
  | Some _ =>
      if String.eqb (GetName (GetAcceptedCoordinatorId revocation)) "" then
        Some (err "cannot accept revocation: accepted_coordinator_id is required")
      else if bool_decide (GetCoordinatorInitiatedAt revocation = None) then
        Some (err "cannot accept revocation: coordinator_initiated_at is required")
      else
        let outgoingRule := GetOutgoingRule revocation in
        if ruleNumberIsUnset outgoingRule then
          Some (err "cannot accept revocation: outgoing_rule is required")
        else
          let revokedBelowTerm := GetRevokedBelowTerm revocation in
          if revokedBelowTerm <=? GetCoordinatorTerm outgoingRule then
            Some (err "cannot accept revocation: outgoing_rule coordinator_term >= revoked_below_term")
          else
            match GetCurrentPosition status with
            | None => Some (err "cannot accept revocation: unknown WAL position")
            | Some pos =>
                match ParseLSN (pp_Lsn pos) with
                | None => Some (wrap "cannot accept revocation" (err "ParseLSN"))
                | Some _ =>
                    if negb (IsRuleRevoked (pp_GetPosition (Some pos)) revocation) then
                      Some (err "cannot accept revocation: recorded position is not revoked")
                    else if bool_decide (GetRecruitBlockedUntil status <> None) then
                      Some (err "cannot accept revocation: pooler has not caught up to its recruit position floor")
                    else validate_stored (GetTermRevocation status) revocation
                end
            end
  end.

End runtime.

(** ** Acceptance *)

(** What a node promises when it already holds a revocation: terms and scopes
    only grow, and a term belongs to one recruitment round. *)
Definition extends_stored (stored rev : option TermRevocation) : Prop :=
  stored <> None ->
  GetRevokedBelowTerm stored <= GetRevokedBelowTerm rev /\
  CompareRuleNumbers (GetOutgoingRule stored) (GetOutgoingRule rev) <= 0 /\
  (GetRevokedBelowTerm stored = GetRevokedBelowTerm rev ->
   ClusterIDString (GetAcceptedCoordinatorId stored) = ClusterIDString (GetAcceptedCoordinatorId rev) /\
   GetCoordinatorInitiatedAt stored = GetCoordinatorInitiatedAt rev).

Record acceptable `{R : Runtime} (status : option ConsensusStatus) (rev : option TermRevocation) : Prop := {
  acc_present : rev <> None;
  acc_coordinator : GetName (GetAcceptedCoordinatorId rev) <> "";
  acc_initiated : GetCoordinatorInitiatedAt rev <> None;
  acc_outgoing : ruleNumberIsUnset (GetOutgoingRule rev) = false;
  acc_term : GetCoordinatorTerm (GetOutgoingRule rev) < GetRevokedBelowTerm rev;
  acc_position : exists pos, GetCurrentPosition status = Some pos /\ is_Some (ParseLSN (pp_Lsn pos));
  acc_revoked : IsRuleRevoked (pp_GetPosition (GetCurrentPosition status)) rev = true;
  acc_floor : GetRecruitBlockedUntil status = None;
  acc_stored : extends_stored (GetTermRevocation status) rev
}.

Section laws.
  Context `{R : Runtime} `{!RuntimeLaws R}.

Lemma proto_equal_false {M} `{EqDecision M} (x y : M) : proto_equal x y = false <-> x <> y.
Proof. rewrite <- not_true_iff_false, proto_equal_spec. done. Qed.

Lemma validate_stored_None stored rev :
  validate_stored stored rev = None <-> extends_stored stored rev.
Proof.
  unfold validate_stored, extends_stored. destruct stored as [st|]; [|naive_solver].
  set (s := Some st). pose proof (cmp_anti (cmp:=CompareRuleNumbers) (GetOutgoingRule rev) (GetOutgoingRule s)).
  destruct (GetRevokedBelowTerm rev <? GetRevokedBelowTerm s) eqn:E1; reflect_bools.
  { split; [done|]. intros H1. destruct (H1 ltac:(done)) as [? _]. lia. }
  destruct (_ <? 0) eqn:E2; reflect_bools.
  { split; [done|]. intros H1. destruct (H1 ltac:(done)) as (_ & ? & _). lia. }
  destruct (_ =? _) eqn:E3; reflect_bools.
  2: { split; [|done]. intros _ _. split_and!; [lia|lia|]. intros ?. congruence. }
  destruct (String.eqb _ _) eqn:E4; cbn [negb].
  2: { apply String.eqb_neq in E4. split; [done|]. intros H1. destruct (H1 ltac:(done)) as (_ & _ & H2).
       by destruct (H2 E3). }
  apply String.eqb_eq in E4. destruct (proto_equal _ _) eqn:E5; cbn [negb].
  - apply proto_equal_spec in E5. split; [|done]. intros _ _. split_and!; [lia|lia|]. auto.
  - apply proto_equal_false in E5. split; [done|]. intros H1.
    destruct (H1 ltac:(done)) as (_ & _ & H2). by destruct (H2 E3).
Qed.

Lemma ValidateRevocation_None status rev :
  ValidateRevocation status rev = None <-> acceptable status rev.
Proof.
  unfold ValidateRevocation. destruct rev as [r|]; [|split; [done|by intros []]].
  set (rev := Some r).
  destruct (String.eqb _ "") eqn:E1; [apply String.eqb_eq in E1|apply String.eqb_neq in E1].
  { split; [done|]. by intros []. }
  destruct (bool_decide (_ = None)) eqn:E2; reflect_bools; [split; [done|by intros []]|].
  destruct (ruleNumberIsUnset _) eqn:E3; [split; [done|by intros []; congruence]|].
  destruct (_ <=? _) eqn:E4; reflect_bools; [split; [done|intros []; lia]|].
  destruct (GetCurrentPosition status) as [pos|] eqn:E5.
  2: { split; [done|]. intros []. destruct acc_position0 as (? & ? & _). congruence. }
  destruct (ParseLSN (pp_Lsn pos)) eqn:E6.
  2: { split; [done|]. intros []. destruct acc_position0 as (? & ? & [? ?]). congruence. }
  destruct (IsRuleRevoked _ _) eqn:E7; cbn [negb].
  2: { split; [done|]. intros []. congruence. }
  destruct (bool_decide (_ <> None)) eqn:E8; reflect_bools.
  { split; [done|]. by intros []. }
  apply dec_stable in E8. rewrite validate_stored_None. split; [|by intros []].
  intros Hst. constructor; try done; [exists pos; eauto|by rewrite E5].
Qed.

End laws.

(** ** Which positions a revocation covers *)

Lemma IsRuleRevoked_true position rev :
  IsRuleRevoked position rev = true <->
  GetRevokedBelowTerm rev <> 0 /\ ruleNumberIsUnset (GetOutgoingRule rev) = false /\
  GetCoordinatorTerm (GetRuleNumber (GetDecision position)) < GetRevokedBelowTerm rev /\
  CompareRuleNumbers (GetRuleNumber (GetDecision position)) (GetOutgoingRule rev) <= 0 /\
  (CompareRuleNumbers (GetRuleNumber (GetDecision position)) (GetOutgoingRule rev) = 0 ->
   GetCoordinatorTerm (GetRuleNumber (GetProposal position)) < GetRevokedBelowTerm rev).
Proof.
  unfold IsRuleRevoked. destruct (ruleNumberIsUnset _); split_ifs; reflect_bools;
    (split; [intros; reflect_bools; try done; split_and!; try done; lia|]);
    intros (? & ? & ? & ? & ?); try done; try lia; rewrite Z.ltb_lt; auto.
Qed.

Lemma CompareRuleNumbers_le_term a b :
  CompareRuleNumbers a b <= 0 -> GetCoordinatorTerm a <= GetCoordinatorTerm b.
Proof.
  rewrite CompareRuleNumbers_key. unfold rn_key. cbn [lexcmp].
  destruct (_ =? _) eqn:E; reflect_bools; [lia|].
  destruct (Zcmp_spec (GetCoordinatorTerm a) (GetCoordinatorTerm b)) as [|[|[? ->]]]; lia.
Qed.

Lemma CompareRulePosition_tie a b :
  CompareRuleNumbers (GetRuleNumber (GetDecision a)) (GetRuleNumber (GetDecision b)) = 0 ->
  CompareRulePosition a b =
  CompareRuleNumbers (GetRuleNumber (GetProposal a)) (GetRuleNumber (GetProposal b)).
Proof.
  intros H. unfold CompareRulePosition, Compare. cbn [rnp_Decision rnp_Proposal RuleNumberPositionOf].
  by rewrite H.
Qed.

Lemma IsRuleRevoked_behind position rev behind :
  CompareRulePosition behind position <= 0 ->
  IsRuleRevoked position rev = true -> IsRuleRevoked behind rev = true.
Proof.
  intros Hle. rewrite !IsRuleRevoked_true. intros (H1 & H2 & H3 & H4 & H5).
  pose proof (CompareRulePosition_le_decision _ _ Hle) as Hd.
  pose proof (CompareRuleNumbers_le_term _ _ Hd).
  split_and!; [done|done|lia|by eapply cmp_trans|]. intros H0.
  assert (CompareRuleNumbers (GetRuleNumber (GetDecision behind))
            (GetRuleNumber (GetDecision position)) = 0) as Htie.
  { pose proof (cmp_anti (cmp:=CompareRuleNumbers) (GetRuleNumber (GetDecision behind)) (GetOutgoingRule rev)).
    pose proof (cmp_trans (cmp:=CompareRuleNumbers) _ _ (GetRuleNumber (GetDecision behind)) H4 ltac:(lia)).
    pose proof (cmp_anti (cmp:=CompareRuleNumbers) (GetRuleNumber (GetDecision behind))
      (GetRuleNumber (GetDecision position))). lia. }
  rewrite (CompareRulePosition_tie _ _ Htie) in Hle. apply CompareRuleNumbers_le_term in Hle.
  enough (CompareRuleNumbers (GetRuleNumber (GetDecision position)) (GetOutgoingRule rev) = 0) as H6%H5 by lia.
  apply (cmp_eq_trans CompareRuleNumbers _ (GetRuleNumber (GetDecision behind))); [|done].
  rewrite cmp_anti, Htie. lia.
Qed.

(** Revocation follows the order of positions: whatever is behind a revoked
    position is revoked too, while a position whose decision already reached the
    revoked term, or moved past the outgoing rule, is never revoked. *)
Theorem IsRuleRevoked_downward_closed position rev :
  (forall behind, CompareRulePosition behind position <= 0 ->
     IsRuleRevoked position rev = true -> IsRuleRevoked behind rev = true) /\
  (GetRevokedBelowTerm rev <= GetCoordinatorTerm (GetRuleNumber (GetDecision position)) \/
   0 < CompareRuleNumbers (GetRuleNumber (GetDecision position)) (GetOutgoingRule rev) ->
   IsRuleRevoked position rev = false).
Proof.
  split; [intros behind; apply IsRuleRevoked_behind|].
  intros H. apply not_true_is_false. rewrite IsRuleRevoked_true. intros (_ & _ & ? & ? & _). lia.
Qed.

Lemma IsRuleRevoked_downward_closed_witness :
  let r1 := demo_rule 1 p1 [p1; p2; p3] (at_least 2) in
  let r2 := demo_rule 2 p2 [p1; p2; p3] (at_least 2) in
  IsRuleRevoked (decided r1) (demo_revocation 3 (rn 2 0)) = true.
Proof.
  intros r1 r2.
  apply (proj1 (IsRuleRevoked_downward_closed (decided r2) (demo_revocation 3 (rn 2 0))));
    vm_compute; [discriminate|reflexivity].
Defined.

(** ** Building a revocation *)

(** A recorded position carries counters, and an undecided proposal lies beyond
    the decision it extends. *)
Definition wf_position (pos : option RulePosition) : Prop :=
  pos_nonneg pos /\
  (IsRuleDecided pos = false ->
   CompareRuleNumbers (GetRuleNumber (GetDecision pos)) (GetRuleNumber (GetProposal pos)) < 0).

Lemma foldl_highest statuses acc :
  acc <= foldl (fun maxTerm cs =>
    let t := GetRevokedBelowTerm (GetTermRevocation cs) in if maxTerm <? t then t else maxTerm) acc statuses /\
  forall cs, cs ∈ statuses -> GetRevokedBelowTerm (GetTermRevocation cs) <=
    foldl (fun maxTerm cs =>
    let t := GetRevokedBelowTerm (GetTermRevocation cs) in if maxTerm <? t then t else maxTerm) acc statuses.
Proof.
  revert acc. induction statuses as [|x l IH]; intros acc; cbn.
  { split; [lia|]. intros cs Hcs. inversion Hcs. }
  destruct (acc <? _) eqn:E; reflect_bools;
    (edestruct IH as [H1 H2]; split; [etrans; [|exact H1]; lia|]);
    intros cs [->|Hcs]%elem_of_cons; auto; etrans; [|exact H1]; lia.
Qed.

Lemma highestRevokedBelowTerm_ge statuses cs :
  cs ∈ statuses -> GetRevokedBelowTerm (GetTermRevocation cs) <= highestRevokedBelowTerm statuses.
Proof. apply (foldl_highest statuses 0). Qed.

Lemma highestRevokedBelowTerm_nonneg statuses : 0 <= highestRevokedBelowTerm statuses.
Proof. apply (foldl_highest statuses 0). Qed.

(** The maximum of well-formed positions is at or beyond the rule number of each
    of them, decided or not. *)
Lemma PossiblyUndecided_ge_decision pos :
  wf_position pos ->
  CompareRuleNumbers (GetRuleNumber (GetDecision pos)) (GetRuleNumber (PossiblyUndecidedRule pos)) <= 0.
Proof.
  intros [_ Hp]. unfold PossiblyUndecidedRule. destruct (IsRuleDecided pos); cbn [negb].
  - rewrite (cmp_refl CompareRuleNumbers). lia.
  - specialize (Hp eq_refl). lia.
Qed.

(** A revocation anchored at the rule number of a position revokes everything at
    or behind that position, when its term exceeds that rule's. *)
Lemma revokes_behind top p rev :
  wf_position top -> CompareRulePosition p top <= 0 ->
  GetOutgoingRule rev = GetRuleNumber (PossiblyUndecidedRule top) ->
  ruleNumberIsUnset (GetOutgoingRule rev) = false ->
  GetCoordinatorTerm (GetOutgoingRule rev) < GetRevokedBelowTerm rev ->
  0 < GetRevokedBelowTerm rev ->
  IsRuleRevoked p rev = true.
Proof.
  intros Hwf Hle Hout Hset Hterm Hpos.
  apply (IsRuleRevoked_behind top rev p Hle).
  pose proof (PossiblyUndecided_ge_decision _ Hwf) as Hd. rewrite <- Hout in Hd.
  apply IsRuleRevoked_true. pose proof (CompareRuleNumbers_le_term _ _ Hd).
  split_and!; [lia|done|lia|done|]. intros H0. destruct Hwf as [[_ Hnn] Hprop].
  unfold PossiblyUndecidedRule in Hout. destruct (IsRuleDecided top) eqn:Hdec; cbn [negb] in Hout.
  - unfold IsRuleDecided in Hdec. apply (ruleNumberIsUnset_nonneg _ Hnn) in Hdec as [-> _]. done.
  - rewrite Hout in H0. specialize (Hprop eq_refl). lia.
Qed.

Section accepted.
  Context `{R : Runtime} `{!RuntimeLaws R}.

(** C7: A revocation built from the reports of a cohort is accepted by its members:
    [ValidateRevocation], at a pooler whose report [NewTermRevocation] was given,
    accepts what it built.  Conditions: the reported positions are well formed (an
    undecided proposal lies beyond its decision), the coordinator has a name, some
    rule is recorded, the highest term leaves room for one more, the pooler's WAL
    position parses, it has no recruit floor outstanding, and it has not promised a
    scope beyond the most advanced rule reported. *)
Theorem NewTermRevocation_accepted statuses coordinator at_ window rev cs :
  NewTermRevocation statuses coordinator at_ window = Ok rev ->
  Forall (fun cs => wf_position (pp_GetPosition (GetCurrentPosition cs))) statuses ->
  GetName coordinator <> "" ->
  ruleNumberIsUnset (OutgoingRule rev) = false ->
  GetCoordinatorTerm (OutgoingRule rev) < int64_max ->
  highestRevokedBelowTerm statuses < int64_max ->
  cs ∈ statuses ->
  is_Some (GetCurrentPosition cs) -> is_Some (ParseLSN (pp_GetLsn (GetCurrentPosition cs))) ->
  GetRecruitBlockedUntil cs = None ->
  CompareRuleNumbers (GetOutgoingRule (GetTermRevocation cs)) (OutgoingRule rev) <= 0 ->
  ValidateRevocation cs (Some rev) = None.
Proof.
  intros Hnew Hwf Hname Hset Hmax1 Hmax2 Hcs Hpos Hlsn Hfloor Hscope.
  unfold NewTermRevocation in Hnew. destruct (len statuses =? 0); [done|].
  destruct at_ as [t|] eqn:Hat; [|done].
  destruct (fold_max _ _) as [top|] eqn:Htop; [|done]. cbn zeta in Hnew. injection Hnew as <-.
  cbn [OutgoingRule] in *.
  set (out := GetRuleNumber (PossiblyUndecidedRule (Some top))) in *.
  set (maxTerm := if GetCoordinatorTerm out <? highestRevokedBelowTerm statuses
                  then highestRevokedBelowTerm statuses else GetCoordinatorTerm out).
  rewrite Forall_forall in Hwf.
  assert (nil_least CompareRulePosition
    (map (fun cs => pp_GetPosition (GetCurrentPosition cs)) statuses)) as Hnil.
  { apply nil_least_pos. intros p (x & Hp & Hx)%list_elem_of_fmap. rewrite Hp. by apply Hwf. }
  destruct (fold_max_spec CompareRulePosition _ _ Hnil Htop) as [(x & Hx & Hin)%list_elem_of_fmap _].
  assert (wf_position (Some top)) as Hwft by (rewrite Hx; by apply Hwf).
  pose proof (highestRevokedBelowTerm_nonneg statuses) as Hnn.
  pose proof (highestRevokedBelowTerm_ge statuses cs Hcs) as Hst.
  assert (0 <= maxTerm < int64_max /\ GetCoordinatorTerm out <= maxTerm /\
          highestRevokedBelowTerm statuses <= maxTerm) as (Hm0 & Hm1 & Hm2).
  { subst maxTerm. destruct (_ <? _) eqn:E; reflect_bools; lia. }
  assert (wrap64 (maxTerm + 1) = maxTerm + 1) as Hwrap.
  { apply wrap64_id. unfold in_int64, int64_min, int64_max in *. lia. }
  apply ValidateRevocation_None. fold maxTerm. rewrite Hwrap. constructor; try done.
  - cbn [GetOutgoingRule GetRevokedBelowTerm getp OutgoingRule RevokedBelowTerm]. lia.
  - destruct Hpos as [pos Hp]. rewrite Hp in Hlsn. cbn in Hlsn. eauto.
  - apply (revokes_behind (Some top)); try done.
    + apply (fold_max_ge CompareRulePosition _ _ _ Hnil Htop). apply list_elem_of_fmap. eauto.
    + cbn [GetOutgoingRule GetRevokedBelowTerm getp OutgoingRule RevokedBelowTerm]. lia.
    + cbn [GetRevokedBelowTerm getp RevokedBelowTerm]. lia.
  - intros _. cbn [GetOutgoingRule GetRevokedBelowTerm getp OutgoingRule RevokedBelowTerm].
    split_and!; [lia|done|lia].
Qed.
End accepted.

Lemma NewTermRevocation_accepted_witness :
  let r1 := demo_rule 1 p1 [p1; p2; p3] (at_least 2) in
  let statuses := [demo_status p1 None (decided r1) "0/10";
                   demo_status p2 (demo_revocation 4 (rn 1 0)) (decided r1) "0/18"] in
  exists rev, NewTermRevocation statuses orch1 (ts 200) 0 = Ok rev /\ RevokedBelowTerm rev = 5 /\
    ValidateRevocation (demo_status p2 (demo_revocation 4 (rn 1 0)) (decided r1) "0/18") (Some rev) = None.
Proof.
  intros r1 statuses. eexists. split; [vm_compute; reflexivity|]. split; [vm_compute; reflexivity|].
  apply (NewTermRevocation_accepted statuses orch1 (ts 200) 0).
  - vm_compute. reflexivity.
  - repeat constructor; cbn; try lia; intros [=].
  - discriminate.
  - vm_compute. reflexivity.
  - vm_compute. reflexivity.
  - vm_compute. reflexivity.
  - right; left.
  - eauto.
  - vm_compute. eauto.
  - reflexivity.
  - vm_compute. discriminate.
Defined.

(** ** Choosing the most recent revocation *)

(** A string as an integer list whose lexicographic order is the reverse byte
    order: every byte is negated, and the end of the string outranks any byte. *)
Fixpoint rev_string_key (s : string) : list Z :=
  match s with
  | EmptyString => [0]
  | String c s' => - (1 + Z.of_N (Ascii.N_of_ascii c)) :: rev_string_key s'
  end.

Lemma rev_string_key_cmp s1 s2 k1 k2 :
  lexcmp (rev_string_key s1 ++ k1) (rev_string_key s2 ++ k2) =
  match String.compare s1 s2 with Eq => lexcmp k1 k2 | Lt => 1 | Gt => -1 end.
Proof.
  revert s2. induction s1 as [|c1 s1 IH]; intros [|c2 s2]; cbn [rev_string_key app lexcmp String.compare].
  - done.
  - destruct (Z.eqb_spec 0 (- (1 + Z.of_N (Ascii.N_of_ascii c2)))); [lia|].
    destruct (Zcmp_spec 0 (- (1 + Z.of_N (Ascii.N_of_ascii c2)))) as [|[|[? ->]]]; [lia..|done].
  - destruct (Z.eqb_spec (- (1 + Z.of_N (Ascii.N_of_ascii c1))) 0); [lia|].
    destruct (Zcmp_spec (- (1 + Z.of_N (Ascii.N_of_ascii c1))) 0) as [[? ->]|[|]]; [done|lia..].
  - unfold Ascii.compare. destruct (N.compare_spec (Ascii.N_of_ascii c1) (Ascii.N_of_ascii c2)) as [He|Hl|Hg].
    + rewrite He, Z.eqb_refl. apply IH.
    + destruct (Z.eqb_spec (- (1 + Z.of_N (Ascii.N_of_ascii c1))) (- (1 + Z.of_N (Ascii.N_of_ascii c2)))); [lia|].
      edestruct Zcmp_spec as [|[|[? ->]]]; [lia..|done].
    + destruct (Z.eqb_spec (- (1 + Z.of_N (Ascii.N_of_ascii c1))) (- (1 + Z.of_N (Ascii.N_of_ascii c2)))); [lia|].
      edestruct Zcmp_spec as [[? ->]|[|]]; [done|lia..].
Qed.

Section recency.
  Context `{R : Runtime} `{!RuntimeLaws R}.

Definition rev_key (rev : option TermRevocation) : list Z :=
  GetRevokedBelowTerm rev ::
  rev_string_key (ClusterIDString (GetAcceptedCoordinatorId rev)) ++
  [AsTime (GetCoordinatorInitiatedAt rev)].

Definition rev_cmp (a b : option TermRevocation) : Z := lexcmp (rev_key a) (rev_key b).

#[local] Instance rev_cmp_order : CompareOrder rev_cmp.
Proof. by apply (CompareOrder_key _ rev_key). Qed.

Lemma String_compare_refl s : String.compare s s = Eq.
Proof. pose proof (String.compare_antisym s s). by destruct (String.compare s s). Qed.

Lemma prefer_revocation_max best rev : prefer_revocation best rev = pick_max rev_cmp best rev.
Proof.
  unfold prefer_revocation, pick_max. case_bool_decide as Hb; [done|]. cbn [orb].
  destruct (proto_equal best rev) eqn:Heq.
  { apply proto_equal_spec in Heq as ->. unfold rev_cmp. by rewrite lexcmp_refl. }
  clear Heq. unfold rev_cmp, rev_key. cbn [lexcmp].
  destruct (Z.eqb_spec (GetRevokedBelowTerm rev) (GetRevokedBelowTerm best)) as [|Hne]; cbn [negb].
  2: { destruct (Zcmp_spec (GetRevokedBelowTerm rev) (GetRevokedBelowTerm best)) as [[? ->]|[|[? ->]]];
         destruct (Z.ltb_spec (GetRevokedBelowTerm best) (GetRevokedBelowTerm rev)); done || lia. }
  rewrite rev_string_key_cmp. unfold String.ltb.
  set (a := ClusterIDString (GetAcceptedCoordinatorId rev)).
  set (b := ClusterIDString (GetAcceptedCoordinatorId best)).
  destruct (String.eqb_spec a b) as [->|Hne]; cbn [negb].
  - rewrite String_compare_refl. cbn [lexcmp].
    destruct (Z.eqb_spec (AsTime (GetCoordinatorInitiatedAt rev)) (AsTime (GetCoordinatorInitiatedAt best)));
      destruct (Z.ltb_spec (AsTime (GetCoordinatorInitiatedAt best)) (AsTime (GetCoordinatorInitiatedAt rev)));
      try done; try lia; edestruct Zcmp_spec as [[? ->]|[[? ->]|[? ->]]]; done || lia.
  - destruct (String.compare a b) eqn:Hc; [by apply String.compare_eq_iff in Hc|done|done].
Qed.

Lemma HighestRevokedBelowTermRevocation_fold candidates :
  HighestRevokedBelowTermRevocation candidates = fold_max rev_cmp candidates.
Proof.
  unfold HighestRevokedBelowTermRevocation, fold_max. generalize (None : option TermRevocation).
  induction candidates as [|x l IH]; intros acc; [done|]. cbn. by rewrite prefer_revocation_max, IH.
Qed.

Lemma nil_least_some c : Forall is_Some c -> nil_least rev_cmp c.
Proof. intros Hs a Hn. rewrite Forall_forall in Hs. by destruct (Hs _ Hn). Qed.

Lemma HighestRevoked_max c b :
  Forall is_Some c -> HighestRevokedBelowTermRevocation c = Some b ->
  Some b ∈ c /\ forall rev, rev ∈ c -> GetRevokedBelowTerm rev <= GetRevokedBelowTerm (Some b).
Proof.
  rewrite HighestRevokedBelowTermRevocation_fold. intros Hnil%nil_least_some Hb.
  split; [by apply (fold_max_spec rev_cmp c b Hnil Hb)|].
  intros rev Hr. pose proof (fold_max_ge rev_cmp _ _ _ Hnil Hb Hr) as Hle.
  unfold rev_cmp, rev_key in Hle. cbn [lexcmp] in Hle.
  destruct (Z.eqb_spec (GetRevokedBelowTerm rev) (GetRevokedBelowTerm (Some b))); [lia|].
  destruct (Zcmp_spec (GetRevokedBelowTerm rev) (GetRevokedBelowTerm (Some b))); lia.
Qed.

Lemma HighestRevoked_is_Some c rev :
  Forall is_Some c -> rev ∈ c -> is_Some (HighestRevokedBelowTermRevocation c).
Proof.
  rewrite HighestRevokedBelowTermRevocation_fold. intros Hs Hr. rewrite Forall_forall in Hs.
  destruct (Hs _ Hr) as [a ->]. eapply (fold_max_is_Some rev_cmp); [|done].
  apply nil_least_some. by rewrite Forall_forall.
Qed.

(** However a set of revocations was assembled, every caller settles on the
    same term, the same coordinator and the same initiation time: the highest
    term, then the smallest coordinator key, then the latest time. *)
Theorem HighestRevoked_order_independent c1 c2 :
  c1 ≡ₚ c2 -> Forall is_Some c1 ->
  let r1 := HighestRevokedBelowTermRevocation c1 in
  let r2 := HighestRevokedBelowTermRevocation c2 in
  GetRevokedBelowTerm r1 = GetRevokedBelowTerm r2 /\
  ClusterIDString (GetAcceptedCoordinatorId r1) = ClusterIDString (GetAcceptedCoordinatorId r2) /\
  AsTime (GetCoordinatorInitiatedAt r1) = AsTime (GetCoordinatorInitiatedAt r2) /\
  forall rev, rev ∈ c1 -> GetRevokedBelowTerm rev <= GetRevokedBelowTerm r1.
Proof.
  intros Hp Hs r1 r2. subst r1 r2. rewrite !HighestRevokedBelowTermRevocation_fold.
  pose proof (nil_least_some c1 Hs) as Hnil.
  destruct c1 as [|x c1].
  { symmetry in Hp. apply Permutation_nil_r in Hp as ->. split_and!; [done..|].
    by intros rev Hr%not_elem_of_nil. }
  assert (exists a, Some a ∈ x :: c1) as [a Ha].
  { inversion Hs as [|?? [a ->]]; subst. exists a. left. }
  destruct (fold_max_is_Some rev_cmp _ a Hnil Ha) as [b1 Hb1].
  assert (nil_least rev_cmp c2) as Hnil2 by (intros y; rewrite <- Hp; apply Hnil).
  destruct (fold_max_is_Some rev_cmp c2 a Hnil2 ltac:(by rewrite <- Hp)) as [b2 Hb2].
  pose proof (fold_max_perm rev_cmp _ _ _ _ Hp Hnil Hb1 Hb2) as Heq%lexcmp_eq.
  rewrite Hb1, Hb2. injection Heq as Hterm Hrest.
  pose proof (lexcmp_refl (rev_string_key (ClusterIDString (GetAcceptedCoordinatorId (Some b1))) ++
    [AsTime (GetCoordinatorInitiatedAt (Some b1))])) as Hz.
  rewrite Hrest in Hz at 2. rewrite rev_string_key_cmp in Hz.
  destruct (String.compare _ _) eqn:Hc; [|done|done]. apply String.compare_eq_iff in Hc.
  apply lexcmp_eq in Hz. injection Hz as Ht. split_and!; [done|done|done|].
  apply HighestRevoked_max; [done|]. by rewrite HighestRevokedBelowTermRevocation_fold.
Qed.
End recency.

Lemma HighestRevoked_order_independent_witness :
  GetRevokedBelowTerm (HighestRevokedBelowTermRevocation
    [demo_revocation 2 (rn 1 0); demo_revocation 3 (rn 1 0)]) =
  GetRevokedBelowTerm (HighestRevokedBelowTermRevocation
    [demo_revocation 3 (rn 1 0); demo_revocation 2 (rn 1 0)]).
Proof.
  refine (proj1 (HighestRevoked_order_independent
    [demo_revocation 2 (rn 1 0); demo_revocation 3 (rn 1 0)] _ _ _)); [apply perm_swap|].
  repeat constructor; eauto.
Defined.

(** The choice between revocations that agree on term, coordinator and time
    but not on their recruit intent depends on the order they are listed in. *)
Theorem HighestRevoked_tie_keeps_first :
  let a := Some (mkTermRevocation 3 orch1 (ts 7) (rn 1 0) (Some (mkRecruitIntent (rn 1 0) 1))) in
  let b := Some (mkTermRevocation 3 orch1 (ts 7) (rn 1 0) (Some (mkRecruitIntent (rn 1 0) 2))) in
  a <> b /\ HighestRevokedBelowTermRevocation [a; b] = a /\ HighestRevokedBelowTermRevocation [b; a] = b.
Proof. split_and!; [discriminate|vm_compute; reflexivity|vm_compute; reflexivity]. Qed.

(** The term of a new revocation exceeds the term of the most advanced
    position and every accepted term, but not every recorded rule's term: a
    status whose decision is behind can record a proposal of a higher term. *)
Theorem NewTermRevocation_below_recorded_proposal :
  let stale := Some (mkRulePosition (demo_rule 1 p1 [p1; p2; p3] (at_least 2))
                                    (demo_rule 9 p3 [p1; p2; p3] (at_least 2))) in
  let ahead := decided (demo_rule 2 p2 [p1; p2; p3] (at_least 2)) in
  exists rev,
    NewTermRevocation [demo_status p3 None stale "0/10"; demo_status p2 None ahead "0/18"] orch1 (ts 200) 0
      = Ok rev /\
    RevokedBelowTerm rev = 3 /\ GetCoordinatorTerm (GetRuleNumber (PossiblyUndecidedRule stale)) = 9.
Proof. eexists. split_and!; [vm_compute; reflexivity|reflexivity|reflexivity]. Qed.
