(* ===== verification/PoolerRole.v ===== *)
(** go/common/consensus/pooler.go: the role a pooler plays in the highest rule it
    knows, and whether it may accept writes. *)

From stdpp Require Import base strings list.
From S2P Require Import Prelude ClusterMetadata Demo TopoId Ordering Compare Revocation.

Local Open Scope Z_scope.

(** A Go [int] type with three named constants; other values print "unknown". *)
Inductive ConsensusRole :=
| ConsensusRoleObserver
| ConsensusRoleFollower
| ConsensusRoleLeader
| ConsensusRoleUnnamed (value : Z).

#[export] Instance ConsensusRole_eq_dec : EqDecision ConsensusRole.
Proof. solve_decision. Defined.

Definition ConsensusRole_String (r : ConsensusRole) : string :=
  match r with
  | ConsensusRoleLeader => "leader"
  | ConsensusRoleFollower => "follower"
  | ConsensusRoleObserver => "observer"
  | ConsensusRoleUnnamed _ => "unknown"
  end.

Definition SelfConsensusRole (cs : option ConsensusStatus) : ConsensusRole :=
  let rule := PossiblyUndecidedRule (HighestKnownRule [cs]) in
  let self := GetId cs in
  match self with
  | None => ConsensusRoleObserver
  | Some _ =>
      if RuleNamesLeader rule self then ConsensusRoleLeader
      else if existsb (fun member => idsEqual member self) (GetCohortMembers rule)
      then ConsensusRoleFollower
      else ConsensusRoleObserver
  end.

Definition IsActiveLeader (cs : option ConsensusStatus) : bool :=
  let position := pp_GetPosition (GetCurrentPosition cs) in
  let decision := GetDecision position in
  if negb (RuleNamesLeader decision (GetId cs)) then false
  else if negb (IsRuleDecided position) && negb (RuleNamesLeader (GetProposal position) (GetId cs))
  then false
  else if IsRuleRevoked position (GetTermRevocation cs) then false
  else bool_decide (SelfConsensusRole cs = ConsensusRoleLeader).

(** Accepting a revocation replaces the recorded one. *)
Definition with_revocation (cs : option ConsensusStatus) (rev : option TermRevocation)
    : option ConsensusStatus :=
  (fun c => mkConsensusStatus rev (CurrentPosition c) (cs_ReplicationPrimary c) (cs_Id c)
              (RecruitBlockedUntil c)) <$> cs.

(** ** Roles *)

Lemma RuleNamesLeader_true rule id :
  RuleNamesLeader rule id = true ->
  exists l i, GetLeaderId rule = Some l /\ id = Some i /\
    Component l = Component i /\ Cell l = Cell i /\ Name l = Name i.
Proof.
  unfold RuleNamesLeader, idsEqual. destruct (GetLeaderId rule) as [l|], id as [i|]; try done.
  cbn. intros H. reflect_bools. exists l, i. by rewrite !String.eqb_eq in *.
Qed.

Lemma SelfConsensusRole_leader cs :
  SelfConsensusRole cs = ConsensusRoleLeader <->
  RuleNamesLeader (PossiblyUndecidedRule (HighestKnownRule [cs])) (GetId cs) = true.
Proof.
  unfold SelfConsensusRole. destruct (GetId cs) as [i|].
  - destruct (RuleNamesLeader _ _); split; try done. by destruct (existsb _ _).
  - unfold RuleNamesLeader. split; [done|]. by destruct (GetLeaderId _).
Qed.

(** The WAL position wins unless the recorded replication primary is strictly
    ahead of it. *)
Lemma HighestKnownRule_single cs p :
  pp_GetPosition (GetCurrentPosition cs) = Some p ->
  HighestKnownRule [cs] =
  if 0 <? CompareRulePosition (rp_GetPosition (ReplicationPrimaryOrNil cs)) (Some p)
  then rp_GetPosition (ReplicationPrimaryOrNil cs) else Some p.
Proof. intros Hp. unfold HighestKnownRule, fold_max. cbn. rewrite Hp. by cbn. Qed.

Lemma IsActiveLeader_true cs :
  IsActiveLeader cs = true <->
  RuleNamesLeader (GetDecision (pp_GetPosition (GetCurrentPosition cs))) (GetId cs) = true /\
  (IsRuleDecided (pp_GetPosition (GetCurrentPosition cs)) = false ->
   RuleNamesLeader (GetProposal (pp_GetPosition (GetCurrentPosition cs))) (GetId cs) = true) /\
  IsRuleRevoked (pp_GetPosition (GetCurrentPosition cs)) (GetTermRevocation cs) = false /\
  SelfConsensusRole cs = ConsensusRoleLeader.
Proof.
  unfold IsActiveLeader.
  destruct (RuleNamesLeader (GetDecision _) _); cbn [negb]; [|naive_solver].
  destruct (IsRuleDecided _), (RuleNamesLeader (GetProposal _) _); cbn [negb andb];
    destruct (IsRuleRevoked _ _); rewrite ?bool_decide_eq_true; naive_solver.
Qed.

(** An active leader is named by its decided rule and by any proposal on top of
    it, its position is not revoked, and the highest rule it has heard of still
    names it: once a strictly newer position naming someone else is recorded, or
    a proposal for another leader is written, it is no longer active. *)
Theorem active_leader_unsuperseded cs :
  IsActiveLeader cs = true ->
  let pos := pp_GetPosition (GetCurrentPosition cs) in
  let known := rp_GetPosition (ReplicationPrimaryOrNil cs) in
  RuleNamesLeader (GetDecision pos) (GetId cs) = true /\
  RuleNamesLeader (PossiblyUndecidedRule pos) (GetId cs) = true /\
  IsRuleRevoked pos (GetTermRevocation cs) = false /\
  (0 < CompareRulePosition known pos -> RuleNamesLeader (PossiblyUndecidedRule known) (GetId cs) = true).
Proof.
  intros (Hd & Hp & Hr & Hl)%IsActiveLeader_true pos known. split_and!; [done| |done|].
  - unfold PossiblyUndecidedRule. destruct (IsRuleDecided pos) eqn:E; [done|]. by apply Hp.
  - intros Hgt. apply SelfConsensusRole_leader in Hl.
    destruct pos as [p|] eqn:Hpos.
    + subst pos. rewrite (HighestKnownRule_single cs p Hpos) in Hl.
      fold known in Hl. by rewrite (proj2 (Z.ltb_lt _ _) Hgt) in Hl.
    + subst pos. by rewrite Hpos in Hd.
Qed.

Lemma active_leader_unsuperseded_witness :
  let r1 := demo_rule 1 p1 [p1; p2; p3] (at_least 2) in
  IsActiveLeader (demo_status p1 None (decided r1) "0/10") = true /\
  RuleNamesLeader r1 p1 = true.
Proof.
  intros r1. split; [vm_compute; reflexivity|].
  apply (active_leader_unsuperseded (demo_status p1 None (decided r1) "0/10")).
  vm_compute. reflexivity.
Defined.

(** A leader that accepts a revocation stops being an active leader: no pooler
    can both promise to refuse its rule and keep writing under it. *)
Theorem recruited_leader_inactive `{R : Runtime} `{!RuntimeLaws R} cs rev :
  ValidateRevocation cs rev = None -> IsActiveLeader (with_revocation cs rev) = false.
Proof.
  intros [_ _ _ _ _ Hpos Hrev _ _]%ValidateRevocation_None.
  apply not_true_is_false. intros (_ & _ & Hr & _)%IsActiveLeader_true.
  destruct cs as [c|]; [|by destruct Hpos as (? & [=] & _)].
  cbn [with_revocation fmap option_fmap option_map] in Hr. cbn in Hr, Hrev. congruence.
Qed.

Lemma recruited_leader_inactive_witness :
  let r1 := demo_rule 1 p1 [p1; p2; p3] (at_least 2) in
  let cs := demo_status p1 None (decided r1) "0/10" in
  IsActiveLeader cs = true /\ IsActiveLeader (with_revocation cs (demo_revocation 2 (rn 1 0))) = false.
Proof.
  intros r1 cs. split; [vm_compute; reflexivity|].
  apply recruited_leader_inactive. vm_compute. reflexivity.
Defined.
