(* ===== verification/Proposals.v ===== *)
(** go/common/consensus/outgoing_rule.go and proposals.go: from the statuses of
    the recruited nodes to a safe leadership proposal.

    The chain of Go types [observedOutgoingRule], [revokedOutgoingRule],
    [finalizableOutgoingRule] and [RecruitmentResult] is kept: each can only be
    built by the check that names it. *)

From stdpp Require Import gmap strings list fin_maps.
From S2P Require Import Prelude ClusterMetadata SortedMaps TopoId Ordering Compare Cohort.
From S2P Require Import Durability Revocation.

Local Open Scope Z_scope.

Abbreviation Statuses := (list (option ConsensusStatus)).

(** The rule position a status records. *)
Definition status_position (cs : option ConsensusStatus) : option RulePosition :=
  pp_GetPosition (GetCurrentPosition cs).

Record certBasis := mkCertBasis { frozenLSN : Z }.

(** The zero value revokes by recruiting the outgoing cohort. *)
Record revocationBasis := mkRevocationBasis { cert : option certBasis }.
Definition by_recruitment : revocationBasis := mkRevocationBasis None.

Record observedOutgoingRule := mkObserved {
  obs_recruited : Statuses;
  obs_position : option RulePosition;
  obs_basis : revocationBasis
}.

Record revokedOutgoingRule := mkRevoked { revoked_observed : observedOutgoingRule }.

Record finalizableOutgoingRule := mkFinalizable { fin_revoked : revokedOutgoingRule }.

Definition fin_observed (f : finalizableOutgoingRule) : observedOutgoingRule :=
  revoked_observed (fin_revoked f).

Record RecruitmentResult := mkRecruitmentResult {
  rr_TermRevocation : option TermRevocation;
  rr_OutgoingRule : option ShardRule;
  OutgoingRuleDecided : bool;
  EligibleLeaders : Statuses;
  rr_outgoing : finalizableOutgoingRule
}.

(** The [buildProposal] callback. *)
Abbreviation Builder := (RecruitmentResult -> result (option CoordinatorProposal)).

Definition ReplicationPrimaryFromProposal (proposal : option CoordinatorProposal) (rewindReady : bool)
    : option ReplicationPrimary :=
  Some {| rp_Position := GetProposedTransition proposal;
          rp_Primary := GetProposalLeader proposal;
          RewindReady := rewindReady |}.

(** ** Filters *)

Definition filterCohortStatuses (cohort : IDs) (statuses : Statuses) : Statuses :=
  let cohortKeys := poolerKeysOf cohort in
  filter (fun cs => GetId cs <> None /\ ClusterIDString (GetId cs) ∈ cohortKeys) statuses.

Definition statusesToIDs (statuses : Statuses) : IDs := map GetId statuses.

Section runtime.
  Context `{R : Runtime}.

Definition filterByValidPosition (statuses : Statuses) : Statuses :=
  filter (fun cs =>
    ruleNumberIsUnset (GetRuleNumber (GetDecision (status_position cs))) = false /\
    ParseLSN (pp_GetLsn (GetCurrentPosition cs)) <> None) statuses.

Definition filterByRevocation (revocation : option TermRevocation) (statuses : Statuses) : Statuses :=
  filter (fun cs => proto_equal (GetTermRevocation cs) revocation = true) statuses.

Definition filterByPotentialRevocation (revocation : option TermRevocation) (statuses : Statuses)
    : Statuses :=
  filter (fun cs => ValidateRevocation cs revocation = None) statuses.

(** One iteration of [deduplicateStatuses]'s loop. *)
Definition keep_best (best : gmap string (option ConsensusStatus)) (cs : option ConsensusStatus)
    : gmap string (option ConsensusStatus) :=
  match GetId cs with
  | None => best
  | Some _ =>
      let key := ClusterIDString (GetId cs) in
      match best !! key with
      | None => <[key := cs]> best
      | Some prev =>
          if 0 <? ComparePoolerPosition (GetCurrentPosition cs) (GetCurrentPosition prev)
          then <[key := cs]> best else best
      end
  end.

Definition deduplicateStatuses (statuses : Statuses) : Statuses :=
  SValues (foldl keep_best ∅ statuses).

(** ** The outgoing rule *)

(** One iteration of the discovery loop, over the position found so far and the
    recruits recording it. *)
Definition discover_step (acc : option RulePosition * Statuses) (cs : option ConsensusStatus)
    : option RulePosition * Statuses :=
  let '(outgoingPosition, recruitsRecordingRule) := acc in
  let position := status_position cs in
  if bool_decide (outgoingPosition = None) || (0 <? CompareRulePosition position outgoingPosition)
  then (position, [cs])
  else if CompareRulePosition position outgoingPosition =? 0
  then (outgoingPosition, recruitsRecordingRule ++ [cs])
  else acc.

Definition discoverOutgoingRulePosition (recruitedStatuses : Statuses)
    : result (Statuses * option RulePosition) :=
  let '(outgoingPosition, recruitsRecordingRule) :=
    foldl discover_step (None, []) recruitedStatuses in
  match recruitsRecordingRule with
  | [] => Ok ([], None)
  | _ :: rest =>
      if forallb (fun cs => proto_equal (status_position cs) outgoingPosition) rest
      then Ok (recruitsRecordingRule, outgoingPosition)
      else Err (err "recruits agree on rule number but disagree on content; inconsistent discovery result")
  end.

Definition recruitsRecordingRule (o : observedOutgoingRule) : Statuses :=
  filter (fun cs => CompareRulePosition (status_position cs) (obs_position o) = 0) (obs_recruited o).

Definition discoverOutgoingRule (recruited : Statuses) (expected : option RuleNumber)
    (basis : revocationBasis) : result observedOutgoingRule :=
  '(_, position) ← discoverOutgoingRulePosition recruited;
  let observed := mkObserved recruited position basis in
  let outgoing := PossiblyUndecidedRule position in
  let cmp := CompareRuleNumbers (GetRuleNumber outgoing) expected in
  if cmp =? 0 then Ok observed
  else match cert basis with
  | Some _ => Err (err "recruit reports rule, expected outgoing rule; cert no longer matches observed state")
  | None =>
      if 0 <? cmp then
        Err (err "recruit reports position ahead of expected outgoing rule; coordinator view is stale, re-discover")
      else Err (err "no recruit reports the expected outgoing rule; cannot determine cohort for quorum check")
  end.

Definition revokeByRecruitment (o : observedOutgoingRule) : option gerror :=
  let decision := GetDecision (obs_position o) in
  match wrap_result "failed to parse durability policy from decision"
          (NewPolicyFromProto (GetDurabilityPolicy decision)) with
  | Err e => Some e
  | Ok policy =>
      let cohort := GetCohortMembers decision in
      wrap_err "insufficient outgoing cohort recruitment"
        (CheckSufficientRecruitment policy cohort
           (statusesToIDs (filterCohortStatuses cohort (obs_recruited o))))
  end.

Definition revoke (o : observedOutgoingRule) : result revokedOutgoingRule :=
  match cert (obs_basis o) with
  | None => (guard! revokeByRecruitment o; Ok (mkRevoked o))%go
  | Some _ => Ok (mkRevoked o)
  end.

(** Calling a method of a nil interface panics; [BuildPolicyTransition] never
    returns one. *)
Definition iface_SatisfiedBy (policy : option DurabilityPolicy) (ids : IDs) : option gerror :=
  match policy with
  | Some p => SatisfiedBy p ids
  | None => Some (err "panic: nil DurabilityPolicy")
  end.

Definition checkRecruitsCanFinalizeProposal (r : revokedOutgoingRule) : result finalizableOutgoingRule :=
  let o := revoked_observed r in
  if IsRuleDecided (obs_position o) || bool_decide (cert (obs_basis o) <> None)
  then Ok (mkFinalizable r)
  else
    let decision := GetDecision (obs_position o) in
    decisionPolicy ← wrap_result "failed to parse durability policy from decision"
                       (NewPolicyFromProto (GetDurabilityPolicy decision));
    let proposal := PossiblyUndecidedRule (obs_position o) in
    proposalPolicy ← wrap_result "failed to parse durability policy from rule"
                       (NewPolicyFromProto (GetDurabilityPolicy proposal));
    transition ← wrap_result "outgoing proposal cannot be finalized"
      (BuildPolicyTransition
         (mkPolicyWithCohort (Some decisionPolicy) (GetCohortMembers decision))
         (mkPolicyWithCohort (Some proposalPolicy) (GetCohortMembers proposal)));
    let reachable := statusesToIDs (filterCohortStatuses (pwc_Cohort (Both transition)) (obs_recruited o)) in
    (guard! wrap_err "outgoing proposal cannot be finalized: recruited members cannot satisfy its policy"
             (iface_SatisfiedBy (Policy (Both transition)) reachable);
    Ok (mkFinalizable r))%go.

(** One iteration of [narrowByLSN]'s loop, over the best LSN and the leaders tied
    at it. *)
Definition narrow_step (minLSN : Z) (acc : Z * Statuses) (cs : option ConsensusStatus) : Z * Statuses :=
  let '(bestLSN, eligibleLeaders) := acc in
  match ParseLSN (pp_GetLsn (GetCurrentPosition cs)) with
  | None => acc
  | Some lsn =>
      if lsn <? minLSN then acc
      else
        let '(bestLSN, eligibleLeaders) :=
          if bestLSN <? lsn then (lsn, []) else (bestLSN, eligibleLeaders) in
        if bestLSN <=? lsn then (bestLSN, eligibleLeaders ++ [cs]) else (bestLSN, eligibleLeaders)
  end.

Definition narrowByLSN (mostAdvanced : Statuses) (minLSN : Z) : result Statuses :=
  let '(_, eligibleLeaders) := foldl (narrow_step minLSN) (0, []) mostAdvanced in
  match eligibleLeaders with
  | [] =>
      if 0 <? minLSN then Err (err "no recruited nodes at or above the required LSN")
      else Err (err "no eligible leaders found among recruited nodes")
  | _ => Ok eligibleLeaders
  end.

Definition eligibleLeaders (r : revokedOutgoingRule) : result Statuses :=
  let o := revoked_observed r in
  let minLSN := match cert (obs_basis o) with Some c => frozenLSN c | None => 0 end in
  narrowByLSN (recruitsRecordingRule o) minLSN.

Definition newRecruitmentResult (revocation : option TermRevocation) (outgoing : finalizableOutgoingRule)
    : result RecruitmentResult :=
  eligible ← eligibleLeaders (fin_revoked outgoing);
  Ok {| rr_TermRevocation := revocation;
        rr_OutgoingRule := PossiblyUndecidedRule (obs_position (fin_observed outgoing));
        OutgoingRuleDecided := IsRuleDecided (obs_position (fin_observed outgoing));
        EligibleLeaders := eligible;
        rr_outgoing := outgoing |}.

(** ** Proposals *)

Definition certMinLSN (c : option ExternallyCertifiedRevocation) : result Z :=
  match GetOutgoingRule (ecr_GetTermRevocation c) with
  | None => Err (err "cert.term_revocation.outgoing_rule is required")
  | Some _ =>
      if String.eqb (GetFrozenLsn c) "" then Err (err "cert is missing frozen_lsn")
      else match ParseLSN (GetFrozenLsn c) with
           | None => Err (wrap "invalid frozen_lsn in cert" (err "ParseLSN"))
           | Some minLSN => Ok minLSN
           end
  end.

Definition newCertBasis (c : option ExternallyCertifiedRevocation) : result revocationBasis :=
  frozen ← certMinLSN c;
  Ok (mkRevocationBasis (Some (mkCertBasis frozen))).

Definition checkCertifiedRetryGuard (policy : DurabilityPolicy) (proposedCohort recruitedInProposedCohort : IDs)
    : option gerror :=
  wrap_err "insufficient proposed cohort recruitment"
    (CheckSufficientRecruitment policy proposedCohort recruitedInProposedCohort).

(** The checks on the proposed rule itself, from its number on. *)
Definition validate_proposed_rule (proposedRule : option ShardRule) (res : RecruitmentResult)
    (recruitedInProposedCohort : IDs) : option gerror :=
  let cert_ := cert (obs_basis (fin_observed (rr_outgoing res))) in
  let proposedTerm := GetCoordinatorTerm (GetRuleNumber proposedRule) in
  let revokedBelow := GetRevokedBelowTerm (rr_TermRevocation res) in
  if proposedTerm <? revokedBelow then
    Some (err "proposed rule term is below the recruitment revocation term")
  else if revokedBelow <? proposedTerm then
    Some (err "proposed rule term is above the recruitment revocation term")
  else
    match wrap_result "invalid durability policy in proposal"
            (NewPolicyFromProto (GetDurabilityPolicy proposedRule)) with
    | Err e => Some e
    | Ok p =>
        if negb (OutgoingRuleDecided res) && bool_decide (cert_ = None) &&
           (negb (sameCohort (GetCohortMembers proposedRule) (GetCohortMembers (rr_OutgoingRule res))) ||
            negb (proto_equal (GetDurabilityPolicy proposedRule) (GetDurabilityPolicy (rr_OutgoingRule res))))
        then Some (err "proposed rule must keep the undecided outgoing rule's cohort and durability policy, changing only the leader")
        else
          (try! wrap_err "recruited proposed cohort cannot achieve durability"
                  (SatisfiedBy p recruitedInProposedCohort);
          match cert_ with
          | Some _ => checkCertifiedRetryGuard p (GetCohortMembers proposedRule) recruitedInProposedCohort
          | None => None
          end)%go
    end.

Definition validateProposal (proposal : option CoordinatorProposal) (res : RecruitmentResult)
    (recruitedInProposedCohort : IDs) : option gerror :=
  if negb (proto_equal (prop_GetTermRevocation proposal) (rr_TermRevocation res)) then
    Some (err "proposal term revocation does not match the recruitment revocation")
  else
    let cert_ := cert (obs_basis (fin_observed (rr_outgoing res))) in
    if GetSkipOutgoingQuorum proposal && bool_decide (cert_ = None) then
      Some (err "skip_outgoing_quorum is only valid for externally-certified proposals")
    else
      let leaderID := pa_GetId (GetProposalLeader proposal) in
      match leaderID with
      | None => Some (err "proposal has no leader ID")
      | Some _ =>
          let leaderKey := ClusterIDString leaderID in
          let foundLeader :=
            existsb (fun cs => String.eqb (ClusterIDString (GetId cs)) leaderKey) (EligibleLeaders res) in
          if negb foundLeader then Some (err "proposed leader is not among eligible leaders")
          else
            let proposedRule := GetProposal (GetProposedTransition proposal) in
            match proposedRule with
            | None => Some (err "no proposed rule")
            | Some _ =>
                if negb (CompareRuleNumbers (GetRuleNumber (GetDecision (GetProposedTransition proposal)))
                           (GetOutgoingRule (rr_TermRevocation res)) =? 0) then
                  Some (err "proposal outgoing decision doesn't match revocation outgoing rule")
                else if bool_decide (GetCoordinatorId proposedRule = None) then
                  Some (err "proposed rule has no coordinator_id")
                else if bool_decide (GetCreationTime proposedRule = None) then
                  Some (err "proposed rule has no creation_time")
                else validate_proposed_rule proposedRule res recruitedInProposedCohort
            end
      end.

Definition buildProposalCore (revocation : option TermRevocation) (recruitedStatuses : Statuses)
    (basis : revocationBasis) (buildProposal : Builder) : result (option CoordinatorProposal) :=
  if len recruitedStatuses =? 0 then Err (err "empty list of statuses")
  else
    let recruitedStatuses := filterByValidPosition (deduplicateStatuses recruitedStatuses) in
    if len recruitedStatuses =? 0 then
      Err (err "all recruited nodes reported an invalid or missing WAL position")
    else match GetOutgoingRule revocation with
    | None => Err (err "revocation.outgoing_rule is required (use NewTermRevocation to construct revocations)")
    | Some expectedOutgoingRule =>
        outgoing ← discoverOutgoingRule recruitedStatuses (Some expectedOutgoingRule) basis;
        revoked ← revoke outgoing;
        finalizable ← checkRecruitsCanFinalizeProposal revoked;
        res ← newRecruitmentResult revocation finalizable;
        proposal ← wrap_result "buildProposal" (buildProposal res);
        match proposal with
        | None => Err (err "buildProposal returned nil proposal")
        | Some _ =>
            let recruitedIncomingCohortMembers :=
              statusesToIDs (filterCohortStatuses
                (GetCohortMembers (GetProposal (GetProposedTransition proposal))) recruitedStatuses) in
            (guard! wrap_err "proposal validation"
                      (validateProposal proposal res recruitedIncomingCohortMembers);
            Ok proposal)%go
        end
    end.

Definition BuildSafeProposal (revocation : option TermRevocation) (statuses : Statuses)
    (buildProposal : Builder) : result (option CoordinatorProposal) :=
  let recruited := filterByRevocation revocation statuses in
  if len recruited =? 0 then Err (err "no nodes accepted the requested term revocation")
  else buildProposalCore revocation recruited by_recruitment buildProposal.

Definition CheckProposalPossible (revocation : option TermRevocation) (statuses : Statuses)
    (buildProposal : Builder) : option gerror :=
  let candidates := filterByPotentialRevocation revocation statuses in
  if len candidates =? 0 then Some (err "no nodes could accept the proposed revocation")
  else err_of (buildProposalCore revocation candidates by_recruitment buildProposal).

Definition CheckExternallyCertifiedProposalPossible (c : option ExternallyCertifiedRevocation)
    (statuses : Statuses) (buildProposal : Builder) : option gerror :=
  let revocation := ecr_GetTermRevocation c in
  let candidates := filterByPotentialRevocation revocation statuses in
  if len candidates =? 0 then Some (err "no nodes could accept the proposed revocation")
  else match newCertBasis c with
       | Err e => Some e
       | Ok basis => err_of (buildProposalCore revocation candidates basis buildProposal)
       end.

Definition BuildExternallyCertifiedProposal (c : option ExternallyCertifiedRevocation)
    (statuses : Statuses) (buildProposal : Builder) : result (option CoordinatorProposal) :=
  let revocation := ecr_GetTermRevocation c in
  let recruited := filterByRevocation revocation statuses in
  if len recruited =? 0 then Err (err "no nodes accepted the requested term revocation")
  else
    basis ← newCertBasis c;
    buildProposalCore revocation recruited basis buildProposal.

End runtime.
