(* ===== verification/ProposalFacts.v ===== *)
(** What a proposal built by proposals.go guarantees.  The lemmas follow the
    functions of [Proposals] in the order they run; the theorems are about
    [BuildSafeProposal] and its externally certified counterpart. *)

From stdpp Require Import gmap strings list fin_maps.
From S2P Require Import Prelude ClusterMetadata Demo SortedMaps TopoId Ordering Compare Cohort.
From S2P Require Import Durability Revocation Proposals.

Local Open Scope Z_scope.

Definition status_key (cs : option ConsensusStatus) : string := ClusterIDString (GetId cs).

Section facts.
  Context `{R : Runtime} `{!RuntimeLaws R}.

(** ** One status per pooler *)

Lemma keep_best_other best cs k :
  status_key cs <> k \/ GetId cs = None -> keep_best best cs !! k = best !! k.
Proof.
  unfold keep_best. fold (status_key cs). intros H.
  destruct (GetId cs) eqn:Hid; [|done]. destruct H as [Hne|]; [|done].
  assert (status_key cs = ClusterIDString (Some i)) as Hk by (unfold status_key; by rewrite Hid).
  rewrite Hk in *. case_match; [case_match|]; by rewrite ?lookup_insert_ne.
Qed.

Lemma keep_best_same best cs :
  GetId cs <> None ->
  exists b, keep_best best cs !! status_key cs = Some b /\ (b = cs \/ best !! status_key cs = Some b) /\
    ComparePoolerPosition (GetCurrentPosition cs) (GetCurrentPosition b) <= 0 /\
    forall prev, best !! status_key cs = Some prev ->
      ComparePoolerPosition (GetCurrentPosition prev) (GetCurrentPosition b) <= 0.
Proof.
  intros Hid. unfold keep_best. fold (status_key cs). destruct (GetId cs) eqn:E; [|done].
  replace (ClusterIDString (Some i)) with (status_key cs) by (unfold status_key; by rewrite E).
  pose proof (cmp_refl ComparePoolerPosition (GetCurrentPosition cs)).
  destruct (best !! status_key cs) as [prev|] eqn:Hl.
  - pose proof (cmp_anti (cmp:=ComparePoolerPosition) (GetCurrentPosition cs) (GetCurrentPosition prev)).
    pose proof (cmp_refl ComparePoolerPosition (GetCurrentPosition prev)).
    destruct (0 <? _) eqn:Hc; reflect_bools.
    + exists cs. rewrite lookup_insert_eq. split_and!; [done|by left|lia|]. intros p [=<-]. lia.
    + exists prev. split_and!; [done|by right|lia|]. intros p [=<-]. lia.
  - exists cs. rewrite lookup_insert_eq. split_and!; [done|by left|lia|done].
Qed.

Lemma best_spec statuses k :
  match foldl keep_best ∅ statuses !! k with
  | Some b => b ∈ statuses /\ GetId b <> None /\ status_key b = k /\
      forall cs, cs ∈ statuses -> GetId cs <> None -> status_key cs = k ->
        ComparePoolerPosition (GetCurrentPosition cs) (GetCurrentPosition b) <= 0
  | None => forall cs, cs ∈ statuses -> GetId cs <> None -> status_key cs <> k
  end.
Proof.
  induction statuses as [|x l IH] using rev_ind.
  { cbn. rewrite lookup_empty. intros cs Hcs. inversion Hcs. }
  rewrite foldl_app. cbn [foldl]. set (m := foldl keep_best ∅ l) in *.
  destruct (decide (status_key x <> k \/ GetId x = None)) as [Ho|Hs].
  - rewrite keep_best_other by done. destruct (m !! k) as [b|].
    + destruct IH as (Hb & ? & ? & Hmax). split_and!; [set_solver|done|done|].
      intros cs [?| ->%list_elem_of_singleton]%elem_of_app ??; [auto|]. by destruct Ho.
    + intros cs [?| ->%list_elem_of_singleton]%elem_of_app ??; [by apply (IH cs)|]. by destruct Ho.
  - assert (status_key x = k /\ GetId x <> None) as [<- Hid]
      by (destruct (decide (status_key x = k)); split; tauto).
    destruct (keep_best_same m x Hid) as (b & -> & Hb & Hxb & Hprev).
    destruct (m !! status_key x) as [prev|] eqn:Hl.
    + destruct IH as (Hin & Hpid & Hpk & Hmax).
      assert (b = x \/ b = prev) as Hb' by naive_solver.
      split_and!; [destruct Hb'; set_solver|by destruct Hb'; subst|by destruct Hb'; subst|].
      intros cs [?| ->%list_elem_of_singleton]%elem_of_app ??; [|done].
      eapply cmp_trans; [by apply Hmax|]. by apply Hprev.
    + destruct Hb as [->|]; [|done]. split_and!; [set_solver|done|done|].
      intros cs [Hc| ->%list_elem_of_singleton]%elem_of_app ??; [|done]. by destruct (IH cs Hc).
Qed.

Lemma elem_of_deduplicateStatuses statuses b :
  b ∈ deduplicateStatuses statuses ->
  b ∈ statuses /\ GetId b <> None /\
  forall cs, cs ∈ statuses -> GetId cs <> None -> status_key cs = status_key b ->
    ComparePoolerPosition (GetCurrentPosition cs) (GetCurrentPosition b) <= 0.
Proof.
  intros [k Hk]%elem_of_Values. pose proof (best_spec statuses k) as H. rewrite Hk in H.
  destruct H as (? & ? & <- & ?). auto.
Qed.

Lemma deduplicateStatuses_unique statuses a b :
  a ∈ deduplicateStatuses statuses -> b ∈ deduplicateStatuses statuses ->
  status_key a = status_key b -> a = b.
Proof.
  intros [k Hk]%elem_of_Values [k' Hk']%elem_of_Values Heq.
  pose proof (best_spec statuses k) as H. pose proof (best_spec statuses k') as H'.
  rewrite Hk in H. rewrite Hk' in H'. destruct H as (_ & _ & <- & _), H' as (_ & _ & <- & _).
  rewrite Heq in Hk. congruence.
Qed.

Lemma deduplicateStatuses_covers statuses cs :
  cs ∈ statuses -> GetId cs <> None ->
  exists b, b ∈ deduplicateStatuses statuses /\ status_key b = status_key cs /\
    ComparePoolerPosition (GetCurrentPosition cs) (GetCurrentPosition b) <= 0.
Proof.
  intros Hcs Hid. pose proof (best_spec statuses (status_key cs)) as H.
  destruct (_ !! status_key cs) as [b|] eqn:Hb; [|by destruct (H cs)].
  exists b. destruct H as (_ & _ & ? & Hmax). split_and!; [|done|auto].
  apply elem_of_Values. eauto.
Qed.

(** ** The outgoing position *)

Definition recorders (p : option RulePosition) (l : Statuses) : Statuses :=
  filter (fun cs => CompareRulePosition (status_position cs) p = 0) l.

Lemma recorders_key p q l : pos_key p = pos_key q -> recorders p l = recorders q l.
Proof.
  intros H. unfold recorders. apply list_filter_iff. intros cs.
  by rewrite !CompareRulePosition_eq, H.
Qed.

(** The loop keeps the highest position and exactly the recruits tied at it. *)
Lemma discover_fold l :
  Forall (fun cs => is_Some (status_position cs)) l -> l <> [] ->
  exists p hd tl, foldl discover_step (None, []) l = (p, hd :: tl) /\
    p = status_position hd /\ hd :: tl = recorders p l /\
    forall cs, cs ∈ l -> CompareRulePosition (status_position cs) p <= 0.
Proof.
  induction l as [|x l IH] using rev_ind; [done|]. intros [Hl Hx]%Forall_app _.
  apply Forall_singleton in Hx. rewrite foldl_app. cbn [foldl].
  pose proof (cmp_refl CompareRulePosition (status_position x)) as Hrefl.
  destruct (decide (l = [])) as [->|Hne].
  { cbn [foldl discover_step]. rewrite bool_decide_true by done. cbn [orb].
    exists (status_position x), x, []. split_and!; [done|done| |].
    - unfold recorders. cbn [app]. by rewrite filter_cons_True.
    - intros cs ->%list_elem_of_singleton. lia. }
  destruct (IH Hl Hne) as (p & hd & tl & -> & Hp & Hrec & Hmax).
  assert (is_Some p) as [p' Hp'].
  { assert (hd ∈ l) as Hin by (assert (hd ∈ recorders p l) as [_ ?]%list_elem_of_filter
      by (rewrite <- Hrec; left); done).
    rewrite Forall_forall in Hl. rewrite Hp. by apply Hl. }
  cbn [discover_step]. rewrite bool_decide_false by (by rewrite Hp'). cbn [orb].
  destruct (0 <? _) eqn:E1; [|destruct (_ =? 0) eqn:E2]; reflect_bools.
  - exists (status_position x), x, []. split_and!; [done|done| |].
    + unfold recorders. rewrite filter_app. rewrite (filter_cons_True _ x) by done.
      rewrite filter_none; [done|]. intros cs Hcs H0.
      pose proof (cmp_lt_trans CompareRulePosition _ _ _ (Hmax cs Hcs) E1).
      pose proof (cmp_anti (cmp:=CompareRulePosition) (status_position x) (status_position cs)). lia.
    + intros cs [Hcs| ->%list_elem_of_singleton]%elem_of_app; [|lia].
      eapply cmp_trans; [by apply Hmax|].
      pose proof (cmp_anti (cmp:=CompareRulePosition) (status_position x) p). lia.
  - exists p, hd, (tl ++ [x]). split_and!; [done|done| |].
    + unfold recorders in *. rewrite filter_app, filter_cons_True by done.
      rewrite filter_nil, <- Hrec. done.
    + intros cs [Hcs| ->%list_elem_of_singleton]%elem_of_app; [by apply Hmax|lia].
  - exists p, hd, tl. split_and!; [done|done| |].
    + unfold recorders in *. rewrite filter_app, filter_cons_False by done.
      by rewrite filter_nil, app_nil_r.
    + intros cs [Hcs| ->%list_elem_of_singleton]%elem_of_app; [by apply Hmax|lia].
Qed.

Lemma discoverOutgoingRulePosition_Ok l recs p :
  Forall (fun cs => is_Some (status_position cs)) l -> l <> [] ->
  discoverOutgoingRulePosition l = Ok (recs, p) ->
  recs = recorders p l /\ recs <> [] /\
  (forall cs, cs ∈ recs -> status_position cs = p) /\
  (forall cs, cs ∈ l -> CompareRulePosition (status_position cs) p <= 0).
Proof.
  intros Hl Hne. destruct (discover_fold l Hl Hne) as (q & hd & tl & Hf & Hq & Hrec & Hmax).
  unfold discoverOutgoingRulePosition. rewrite Hf. destruct (forallb _ tl) eqn:Hall; [|done].
  intros [=<- <-]. split_and!; [done|done| |done].
  intros cs [->|Hcs]%elem_of_cons; [done|]. rewrite forallb_forall in Hall.
  apply list_elem_of_In, Hall in Hcs. by apply proto_equal_spec in Hcs.
Qed.

(** ** Leaders *)

Definition at_lsn (lsn : Z) (cs : option ConsensusStatus) : Prop :=
  ParseLSN (pp_GetLsn (GetCurrentPosition cs)) = Some lsn.

#[export] Instance at_lsn_dec lsn cs : Decision (at_lsn lsn cs).
Proof. unfold at_lsn. apply _. Defined.

Lemma narrow_fold minLSN l :
  0 <= minLSN ->
  let '(best, elig) := foldl (narrow_step minLSN) (0, []) l in
  (best = 0 /\ elig = [] /\ forall cs lsn, cs ∈ l -> at_lsn lsn cs -> lsn < minLSN) \/
  (minLSN <= best /\ elig <> [] /\ elig = filter (at_lsn best) l /\
   forall cs lsn, cs ∈ l -> at_lsn lsn cs -> lsn <= best).
Proof.
  intros Hmin. induction l as [|x l IH] using rev_ind.
  { left. split_and!; [done|done|]. intros ?? H. inversion H. }
  rewrite foldl_app. cbn [foldl]. destruct (foldl _ _ l) as [best elig]. unfold narrow_step at 1.
  assert (forall lsn, ParseLSN (pp_GetLsn (GetCurrentPosition x)) <> Some lsn ->
    filter (at_lsn lsn) (l ++ [x]) = filter (at_lsn lsn) l) as Hdrop.
  { intros lsn Hn. rewrite filter_app, filter_cons_False, filter_nil by done. apply app_nil_r. }
  assert (forall lsn, ParseLSN (pp_GetLsn (GetCurrentPosition x)) = Some lsn ->
    filter (at_lsn lsn) (l ++ [x]) = filter (at_lsn lsn) l ++ [x]) as Hkeep.
  { intros lsn Hn. rewrite filter_app, filter_cons_True, filter_nil by done. done. }
  destruct (ParseLSN (pp_GetLsn (GetCurrentPosition x))) as [lsn|] eqn:Hx.
  2: { destruct IH as [(-> & -> & H)|(? & ? & -> & H)]; [left|right]; split_and!; try done.
       - intros cs lsn [?| ->%list_elem_of_singleton]%elem_of_app Hat; [eauto|].
         unfold at_lsn in Hat. congruence.
       - by rewrite Hdrop.
       - intros cs lsn [?| ->%list_elem_of_singleton]%elem_of_app Hat; [eauto|].
         unfold at_lsn in Hat. congruence. }
  pose proof (ParseLSN_range _ _ Hx).
  assert (forall P : Z -> Prop, P lsn -> (forall cs l', cs ∈ l -> at_lsn l' cs -> P l') ->
    forall cs l', cs ∈ l ++ [x] -> at_lsn l' cs -> P l') as Hext.
  { intros P Hp Hl cs l' [?| ->%list_elem_of_singleton]%elem_of_app Hat; [eauto|].
    unfold at_lsn in Hat. rewrite Hx in Hat. by injection Hat as <-. }
  destruct (lsn <? minLSN) eqn:E1; reflect_bools.
  { destruct IH as [(-> & -> & H1)|(? & ? & -> & H1)]; [left|right]; split_and!; try done.
    - apply (Hext (fun z => z < minLSN)); done.
    - rewrite Hdrop; [done|]. intros [=]. lia.
    - apply (Hext (fun z => z <= best)); [lia|done]. }
  destruct (best <? lsn) eqn:E2; reflect_bools.
  - rewrite Z.leb_refl. right. split_and!; [lia|done| |].
    + rewrite Hkeep by done. rewrite filter_none; [done|]. intros cs Hcs Hat.
      destruct IH as [(-> & -> & H1)|(? & ? & -> & H1)]; pose proof (H1 _ _ Hcs Hat); lia.
    + apply (Hext (fun z => z <= lsn)); [lia|]. intros cs l' Hcs Hat.
      destruct IH as [(-> & -> & H1)|(? & ? & -> & H1)]; pose proof (H1 _ _ Hcs Hat); lia.
  - destruct IH as [(-> & -> & H1)|(? & ? & -> & H1)].
    + replace lsn with 0 in * by lia. cbn. right. split_and!; [lia|done| |].
      * rewrite Hkeep by done. rewrite filter_none; [done|]. intros cs Hcs Hat.
        pose proof (H1 _ _ Hcs Hat). lia.
      * apply (Hext (fun z => z <= 0)); [lia|]. intros cs l' Hcs Hat. pose proof (H1 _ _ Hcs Hat). lia.
    + destruct (best <=? lsn) eqn:E3; reflect_bools; right.
      * replace best with lsn in * by lia. split_and!; [done|by destruct (filter _ l)| |].
        -- by rewrite Hkeep.
        -- apply (Hext (fun z => z <= lsn)); [lia|done].
      * split_and!; [done|done| |].
        -- rewrite Hdrop; [done|]. intros [=]. lia.
        -- apply (Hext (fun z => z <= best)); [lia|done].
Qed.

Lemma narrowByLSN_Ok l minLSN elig :
  0 <= minLSN -> narrowByLSN l minLSN = Ok elig ->
  elig <> [] /\ exists best, minLSN <= best /\ elig = filter (at_lsn best) l /\
    forall cs lsn, cs ∈ l -> at_lsn lsn cs -> lsn <= best.
Proof.
  intros Hmin. pose proof (narrow_fold minLSN l Hmin) as H. unfold narrowByLSN.
  destruct (foldl _ _ l) as [best el]. destruct H as [(-> & -> & _)|(? & Hne & Heq & Hmax)].
  - by destruct (0 <? minLSN).
  - destruct el as [|x el]; [done|]. intros [=<-]. split; [done|]. exists best. auto.
Qed.

(** [narrowByLSN] fails only when no recruit reaches the floor. *)
Lemma narrowByLSN_is_Ok l minLSN cs lsn :
  0 <= minLSN -> cs ∈ l -> at_lsn lsn cs -> minLSN <= lsn -> exists elig, narrowByLSN l minLSN = Ok elig.
Proof.
  intros Hmin Hcs Hat Hle. pose proof (narrow_fold minLSN l Hmin) as H. unfold narrowByLSN.
  destruct (foldl _ _ l) as [best el]. destruct H as [(-> & -> & H)|(? & Hne & Heq & Hmax)].
  - pose proof (H _ _ Hcs Hat). lia.
  - destruct el; [done|eauto].
Qed.

(** ** A run of the core *)

(** The statuses that count: one per pooler, with a usable position. *)
Definition recruits (statuses : Statuses) : Statuses :=
  filterByValidPosition (deduplicateStatuses statuses).

Definition basis_floor (basis : revocationBasis) : Z :=
  match cert basis with Some c => frozenLSN c | None => 0 end.

Lemma elem_of_recruits statuses cs :
  cs ∈ recruits statuses ->
  cs ∈ deduplicateStatuses statuses /\
  ruleNumberIsUnset (GetRuleNumber (GetDecision (status_position cs))) = false /\
  is_Some (status_position cs) /\ exists lsn, at_lsn lsn cs.
Proof.
  unfold recruits, filterByValidPosition. intros [[Hd Hl] Hin]%list_elem_of_filter.
  split_and!; [done|done| |].
  - destruct (status_position cs); [eauto|done].
  - unfold at_lsn. destruct (ParseLSN _); [eauto|done].
Qed.

(** What a successful run of [buildProposalCore] established: [pos] is the
    outgoing position, [leaders] the recruits a builder may choose from. *)
Record core_run (rev : option TermRevocation) (statuses : Statuses) (basis : revocationBasis)
    (proposal : option CoordinatorProposal) (pos : option RulePosition) (leaders : Statuses) : Prop := {
  run_discovered :
    discoverOutgoingRulePosition (recruits statuses) = Ok (recorders pos (recruits statuses), pos);
  run_top : forall cs, cs ∈ recruits statuses -> CompareRulePosition (status_position cs) pos <= 0;
  run_content : forall cs, cs ∈ recorders pos (recruits statuses) -> status_position cs = pos;
  run_expected :
    CompareRuleNumbers (GetRuleNumber (PossiblyUndecidedRule pos)) (GetOutgoingRule rev) = 0;
  run_revoked : cert basis = None -> revokeByRecruitment (mkObserved (recruits statuses) pos basis) = None;
  run_finalizable : is_Ok (checkRecruitsCanFinalizeProposal
                      (mkRevoked (mkObserved (recruits statuses) pos basis)));
  run_leaders : narrowByLSN (recorders pos (recruits statuses)) (basis_floor basis) = Ok leaders;
  run_valid : validateProposal proposal
    {| rr_TermRevocation := rev; rr_OutgoingRule := PossiblyUndecidedRule pos;
       OutgoingRuleDecided := IsRuleDecided pos; EligibleLeaders := leaders;
       rr_outgoing := mkFinalizable (mkRevoked (mkObserved (recruits statuses) pos basis)) |}
    (statusesToIDs (filterCohortStatuses
       (GetCohortMembers (GetProposal (GetProposedTransition proposal))) (recruits statuses))) = None
}.

Lemma checkRecruitsCanFinalizeProposal_same r f :
  checkRecruitsCanFinalizeProposal r = Ok f -> f = mkFinalizable r.
Proof.
  unfold checkRecruitsCanFinalizeProposal. intros H. split_ifs; inv_ok; done.
Qed.

Lemma revoke_Ok o r :
  revoke o = Ok r -> r = mkRevoked o /\ (cert (obs_basis o) = None -> revokeByRecruitment o = None).
Proof. unfold revoke. destruct (cert _); intros H; inv_ok; done. Qed.

Lemma discoverOutgoingRule_Ok l expected basis o :
  discoverOutgoingRule l expected basis = Ok o ->
  exists recs, discoverOutgoingRulePosition l = Ok (recs, obs_position o) /\
    obs_recruited o = l /\ obs_basis o = basis /\
    CompareRuleNumbers (GetRuleNumber (PossiblyUndecidedRule (obs_position o))) expected = 0.
Proof.
  unfold discoverOutgoingRule. intros H. inv_ok. destruct a as [recs p].
  destruct (_ =? 0) eqn:E; reflect_bools; [|by repeat case_match].
  inv_ok. eauto.
Qed.

(** The result the builder is given by that run. *)
Definition core_result (rev : option TermRevocation) (statuses : Statuses) (basis : revocationBasis)
    (pos : option RulePosition) (leaders : Statuses) : RecruitmentResult :=
  {| rr_TermRevocation := rev; rr_OutgoingRule := PossiblyUndecidedRule pos;
     OutgoingRuleDecided := IsRuleDecided pos; EligibleLeaders := leaders;
     rr_outgoing := mkFinalizable (mkRevoked (mkObserved (recruits statuses) pos basis)) |}.

Lemma buildProposalCore_build rev statuses basis build proposal :
  buildProposalCore rev statuses basis build = Ok proposal ->
  exists pos leaders, core_run rev statuses basis proposal pos leaders /\
    build (core_result rev statuses basis pos leaders) = Ok proposal.
Proof.
  unfold buildProposalCore. intros H.
  destruct (len statuses =? 0); [done|]. fold (recruits statuses) in H.
  destruct (len (recruits statuses) =? 0) eqn:Hne; [done|].
  destruct (GetOutgoingRule rev) as [expected|] eqn:Hexp; [|done].
  inv_ok. destruct a as [recruited pos bs].
  apply discoverOutgoingRule_Ok in Hbind as (recs & Hdisc & Hrec & Hbs & Hcmp). cbn in *. subst.
  apply revoke_Ok in Hbind0 as [-> Hrevoked].
  pose proof Hbind1 as Hfin. apply checkRecruitsCanFinalizeProposal_same in Hfin as ->.
  unfold newRecruitmentResult in Hbind2. inv_ok.
  destruct a3 as [proposal'|] eqn:Hprop; [|done]. inv_ok.
  assert (recruits statuses <> []) as Hnil by (intros Hn; by rewrite Hn in Hne).
  pose proof Hdisc as Hdisc'.
  apply discoverOutgoingRulePosition_Ok in Hdisc as (-> & Hrne & Hcont & Htop); [|clear -Hnil|done].
  2: { apply Forall_forall. intros cs Hcs. by apply elem_of_recruits in Hcs as (_ & _ & ? & _). }
  exists pos, a. split; [|done].
  constructor; [done|done|done|by rewrite Hexp|done|by rewrite Hbind1|done|done].
Qed.

Lemma buildProposalCore_Ok rev statuses basis build proposal :
  buildProposalCore rev statuses basis build = Ok proposal ->
  exists pos leaders, core_run rev statuses basis proposal pos leaders.
Proof. intros (pos & leaders & ? & _)%buildProposalCore_build. eauto. Qed.

(** ** The chosen leader *)

Lemma certMinLSN_Ok c minLSN :
  certMinLSN c = Ok minLSN -> ParseLSN (GetFrozenLsn c) = Some minLSN /\ 0 <= minLSN.
Proof.
  unfold certMinLSN. destruct (GetOutgoingRule _); [|done]. destruct (String.eqb _ _); [done|].
  destruct (ParseLSN _) eqn:E; [|done]. intros [=<-]. by apply ParseLSN_range in E as [? _].
Qed.

Definition floor_nonneg (basis : revocationBasis) : Prop := 0 <= basis_floor basis.

Lemma newCertBasis_Ok c basis :
  newCertBasis c = Ok basis ->
  floor_nonneg basis /\ cert basis <> None /\ ParseLSN (GetFrozenLsn c) = Some (basis_floor basis).
Proof.
  unfold newCertBasis. intros H. inv_ok. by apply certMinLSN_Ok in Hbind as [? ?].
Qed.

(** Every eligible leader is a recruit at the outgoing position whose WAL
    position no other recruit is ahead of. *)
Lemma run_leader rev statuses basis proposal pos leaders cs :
  floor_nonneg basis ->
  core_run rev statuses basis proposal pos leaders -> cs ∈ leaders ->
  cs ∈ recruits statuses /\ status_position cs = pos /\
  (exists lsn, at_lsn lsn cs /\ basis_floor basis <= lsn) /\
  forall other, other ∈ recruits statuses ->
    ComparePoolerPosition (GetCurrentPosition other) (GetCurrentPosition cs) <= 0.
Proof.
  intros Hfl Hrun Hcs.
  destruct (narrowByLSN_Ok _ _ _ Hfl (run_leaders _ _ _ _ _ _ Hrun)) as (_ & best & Hbest & -> & Hmax).
  apply list_elem_of_filter in Hcs as [Hat Hcs].
  pose proof (run_content _ _ _ _ _ _ Hrun _ Hcs) as Hpos.
  pose proof Hcs as [Htie Hin]%list_elem_of_filter.
  split_and!; [done|done|eauto|].
  intros other Hother. pose proof (run_top _ _ _ _ _ _ Hrun _ Hother) as Hle.
  unfold ComparePoolerPosition. fold (status_position other) (status_position cs). rewrite Hpos.
  destruct (_ =? 0) eqn:E; reflect_bools; cbn [negb]; [|done].
  destruct (elem_of_recruits _ _ Hother) as (_ & _ & _ & lsn & Hlsn).
  pose proof (Hmax other lsn ltac:(by apply list_elem_of_filter) Hlsn).
  unfold at_lsn in *. rewrite Hlsn, Hat. split_ifs; reflect_bools; lia.
Qed.

(** ** Validation *)

Record validated (proposal : option CoordinatorProposal) (res : RecruitmentResult) (incoming : IDs)
    (policy : DurabilityPolicy) : Prop := {
  val_revocation : prop_GetTermRevocation proposal = rr_TermRevocation res;
  val_skip : GetSkipOutgoingQuorum proposal = true ->
    cert (obs_basis (fin_observed (rr_outgoing res))) <> None;
  val_leader : exists cs, cs ∈ EligibleLeaders res /\
    status_key cs = ClusterIDString (pa_GetId (GetProposalLeader proposal));
  val_decision : CompareRuleNumbers (GetRuleNumber (GetDecision (GetProposedTransition proposal)))
    (GetOutgoingRule (rr_TermRevocation res)) = 0;
  val_term : GetCoordinatorTerm (GetRuleNumber (GetProposal (GetProposedTransition proposal))) =
    GetRevokedBelowTerm (rr_TermRevocation res);
  val_policy :
    NewPolicyFromProto (GetDurabilityPolicy (GetProposal (GetProposedTransition proposal))) = Ok policy;
  val_undecided : OutgoingRuleDecided res = false ->
    cert (obs_basis (fin_observed (rr_outgoing res))) = None ->
    sameCohort (GetCohortMembers (GetProposal (GetProposedTransition proposal)))
      (GetCohortMembers (rr_OutgoingRule res)) = true /\
    GetDurabilityPolicy (GetProposal (GetProposedTransition proposal)) =
      GetDurabilityPolicy (rr_OutgoingRule res);
  val_durable : SatisfiedBy policy incoming = None;
  val_retry : cert (obs_basis (fin_observed (rr_outgoing res))) <> None ->
    CheckSufficientRecruitment policy
      (GetCohortMembers (GetProposal (GetProposedTransition proposal))) incoming = None
}.

Lemma validateProposal_None proposal res incoming :
  validateProposal proposal res incoming = None -> exists policy, validated proposal res incoming policy.
Proof.
  unfold validateProposal, validate_proposed_rule. intros H.
  destruct (proto_equal _ _) eqn:H1; [|done]. apply proto_equal_spec in H1. cbn [negb] in H.
  destruct (GetSkipOutgoingQuorum proposal && _) eqn:H2; [done|].
  destruct (pa_GetId _) eqn:Hid; [|done]. rewrite <- Hid in H.
  destruct (existsb _ _) eqn:H3; [|done]. cbn [negb] in H.
  destruct (GetProposal (GetProposedTransition proposal)) as [rule|] eqn:Hrule; [|done].
  rewrite <- Hrule in H.
  destruct (CompareRuleNumbers _ _ =? 0) eqn:H4; [|done]. cbn [negb] in H.
  destruct (bool_decide (GetCoordinatorId _ = None)); [done|].
  destruct (bool_decide (GetCreationTime _ = None)); [done|].
  destruct (_ <? GetRevokedBelowTerm _) eqn:H5; [done|].
  destruct (GetRevokedBelowTerm _ <? _) eqn:H6; [done|].
  destruct (NewPolicyFromProto _) as [policy|] eqn:Hp; [|done]. cbn [wrap_result] in H.
  destruct (negb (OutgoingRuleDecided res) && _ && _) eqn:H7; [done|]. inv_ok.
  exists policy. constructor; try done.
  - intros Hskip Hc. by rewrite Hskip, Hc in H2.
  - apply existsb_exists in H3 as (cs & Hcs & Heq%String.eqb_eq). exists cs.
    rewrite <- list_elem_of_In in Hcs. done.
  - by reflect_bools.
  - reflect_bools. lia.
  - intros Hund Hc. rewrite Hund, Hc in H7. cbn [negb andb] in H7.
    rewrite bool_decide_true in H7 by done. apply orb_false_iff in H7 as [Hs Hd]. reflect_bools.
    apply proto_equal_spec in Hd. done.
  - intros Hc. destruct (cert _); [|done]. unfold checkCertifiedRetryGuard in H. by inv_ok.
Qed.

Lemma revokeByRecruitment_None o :
  revokeByRecruitment o = None ->
  exists policy, NewPolicyFromProto (GetDurabilityPolicy (GetDecision (obs_position o))) = Ok policy /\
    CheckSufficientRecruitment policy (GetCohortMembers (GetDecision (obs_position o)))
      (statusesToIDs (filterCohortStatuses (GetCohortMembers (GetDecision (obs_position o)))
         (obs_recruited o))) = None.
Proof.
  unfold revokeByRecruitment. destruct (NewPolicyFromProto _) as [policy|]; cbn; [|done].
  intros H%fmap_None. eauto.
Qed.

(** The key of a counted cohort member is the key of one of the statuses. *)
Lemma elem_of_recruited_keys cohort l k :
  k ∈ poolerKeysOf (statusesToIDs (filterCohortStatuses cohort l)) ->
  exists cs, cs ∈ l /\ status_key cs = k /\ k ∈ poolerKeysOf cohort.
Proof.
  unfold statusesToIDs, filterCohortStatuses. change (map ?f ?x) with (f <$> x).
  intros (id & (cs & -> & [[_ Hk] Hcs]%list_elem_of_filter)%list_elem_of_fmap & <-)%elem_of_poolerKeysOf.
  exists cs. done.
Qed.

Lemma elem_of_filterByRevocation rev statuses cs :
  cs ∈ filterByRevocation rev statuses <-> GetTermRevocation cs = rev /\ cs ∈ statuses.
Proof. unfold filterByRevocation. by rewrite list_elem_of_filter, proto_equal_spec. Qed.

Lemma BuildSafeProposal_Ok rev statuses build proposal :
  BuildSafeProposal rev statuses build = Ok proposal ->
  exists pos leaders,
    core_run rev (filterByRevocation rev statuses) by_recruitment proposal pos leaders.
Proof.
  unfold BuildSafeProposal. intros H. destruct (_ =? 0); [done|]. by apply buildProposalCore_Ok in H.
Qed.

(** The recruits of a round: the statuses that count towards its proposal. *)
Definition round_recruits (rev : option TermRevocation) (statuses : Statuses) : Statuses :=
  recruits (filterByRevocation rev statuses).

Lemma elem_of_round_recruits rev statuses cs :
  cs ∈ round_recruits rev statuses -> cs ∈ statuses /\ GetTermRevocation cs = rev /\ GetId cs <> None.
Proof.
  intros (Hd & _)%elem_of_recruits. apply elem_of_deduplicateStatuses in Hd as (Hin & ? & _).
  by apply elem_of_filterByRevocation in Hin as [? ?].
Qed.

End facts.
