(* ===== verification/ProposalSafety.v ===== *)
(** The guarantees of [BuildSafeProposal], [BuildExternallyCertifiedProposal] and
    the pre-vote [CheckProposalPossible]. *)

From stdpp Require Import gmap strings list fin_maps.
From S2P Require Import Prelude ClusterMetadata Demo SortedMaps TopoId Ordering Compare Cohort.
From S2P Require Import Durability Revocation Proposals ProposalFacts.

Local Open Scope Z_scope.

(** A builder for the witnesses: keeps the outgoing cohort and policy and takes
    the first eligible leader. *)
Definition demo_builder (res : RecruitmentResult) : result (option CoordinatorProposal) :=
  match EligibleLeaders res with
  | [] => Err (err "no leader")
  | leader :: _ =>
      let rule := rr_OutgoingRule res in
      Ok (Some (mkCoordinatorProposal (rr_TermRevocation res)
        (Some (mkPoolerAddress (GetId leader) "host" 5432))
        (Some (mkRulePosition (GetDecision (obs_position (fin_observed (rr_outgoing res))))
          (Some (mkShardRule (rn (GetRevokedBelowTerm (rr_TermRevocation res)) 0) (GetId leader)
             (GetCohortMembers rule) (GetDurabilityPolicy rule) orch1 (ts 300))))) false))
  end.

Section safety.
  Context `{R : Runtime} `{!RuntimeLaws R}.

(** Every position that the recruits in some durable quorum of the leader's own
    decision have reached is at or behind the leader's. *)
Definition holds_durable_writes (rev : option TermRevocation) (statuses : Statuses)
    (leader : option ConsensusStatus) : Prop :=
  exists policy,
    let decision := GetDecision (status_position leader) in
    NewPolicyFromProto (GetDurabilityPolicy decision) = Ok policy /\
    forall quorum x,
      Forall valid_id (GetCohortMembers decision) -> Forall valid_id quorum ->
      poolerKeysOf quorum ⊆ poolerKeysOf (GetCohortMembers decision) ->
      SatisfiedBy policy quorum = None ->
      (forall cs, cs ∈ statuses -> GetTermRevocation cs = rev -> status_key cs ∈ poolerKeysOf quorum ->
         ComparePoolerPosition x (GetCurrentPosition cs) <= 0) ->
      ComparePoolerPosition x (GetCurrentPosition leader) <= 0.

(** The eligible leaders of a run by recruitment. *)
Lemma eligible_leader rev statuses proposal pos leaders leader :
  core_run rev (filterByRevocation rev statuses) by_recruitment proposal pos leaders ->
  leader ∈ leaders ->
  leader ∈ round_recruits rev statuses /\ status_position leader = pos /\
  (forall other, other ∈ round_recruits rev statuses ->
     ComparePoolerPosition (GetCurrentPosition other) (GetCurrentPosition leader) <= 0) /\
  holds_durable_writes rev statuses leader.
Proof.
  intros Hrun Hin.
  destruct (run_leader _ _ by_recruitment _ _ _ leader (Z.le_refl 0) Hrun Hin) as (? & Hpos & _ & Hdom).
  split_and!; [done..|].
  destruct (revokeByRecruitment_None _ (run_revoked _ _ _ _ _ _ Hrun eq_refl)) as (policy & Hpol & Hsuf).
  cbn in Hpol, Hsuf. exists policy. rewrite Hpos. split; [done|].
  intros quorum x Hvc Hvq Hsub Hsat Hheld.
  apply CheckSufficientRecruitment_None in Hsuf as [_ Hcannot].
  destruct (quorum_meets_recruits policy _ _ quorum Hvc Hvq Hcannot Hsub Hsat) as (k & Hkq & Hkr).
  apply elem_of_recruited_keys in Hkr as (cs & Hcs & <- & _).
  pose proof (elem_of_round_recruits _ _ _ Hcs) as (? & ? & _).
  eapply cmp_trans; [by apply Hheld|]. by apply Hdom.
Qed.

(** A proposal was built from a run whose leader is one of the round's recruits. *)
Lemma BuildSafeProposal_leader rev statuses build proposal :
  BuildSafeProposal rev statuses build = Ok proposal ->
  exists pos leaders leader,
    core_run rev (filterByRevocation rev statuses) by_recruitment proposal pos leaders /\
    build (core_result rev (filterByRevocation rev statuses) by_recruitment pos leaders) = Ok proposal /\
    leader ∈ leaders /\ status_key leader = ClusterIDString (pa_GetId (GetProposalLeader proposal)).
Proof.
  unfold BuildSafeProposal. intros H. destruct (_ =? 0); [done|].
  apply buildProposalCore_build in H as (pos & leaders & Hrun & Hb).
  destruct (validateProposal_None _ _ _ (run_valid _ _ _ _ _ _ Hrun)) as [policy Hval].
  destruct (val_leader _ _ _ _ Hval) as (leader & Hin & Hkey). cbn in Hin.
  exists pos, leaders, leader. done.
Qed.

(** C1: A leadership change never loses a durable write.  When
    [BuildSafeProposal] returns a proposal, its leader is a node that accepted
    this very revocation, and every WAL position that the recruited members of
    some durable quorum of the outgoing decision have reached is at or behind the
    leader's own position. *)
Theorem safe_proposal_keeps_durable_writes rev statuses build proposal :
  BuildSafeProposal rev statuses build = Ok proposal ->
  exists leader policy, leader ∈ statuses /\ GetTermRevocation leader = rev /\
    status_key leader = ClusterIDString (pa_GetId (GetProposalLeader proposal)) /\
    let decision := GetDecision (status_position leader) in
    NewPolicyFromProto (GetDurabilityPolicy decision) = Ok policy /\
    forall quorum x,
      Forall valid_id (GetCohortMembers decision) -> Forall valid_id quorum ->
      poolerKeysOf quorum ⊆ poolerKeysOf (GetCohortMembers decision) ->
      SatisfiedBy policy quorum = None ->
      (forall cs, cs ∈ statuses -> GetTermRevocation cs = rev -> status_key cs ∈ poolerKeysOf quorum ->
         ComparePoolerPosition x (GetCurrentPosition cs) <= 0) ->
      ComparePoolerPosition x (GetCurrentPosition leader) <= 0.
Proof.
  intros (pos & leaders & leader & Hrun & _ & Hin & Hkey)%BuildSafeProposal_leader.
  destruct (eligible_leader _ _ _ _ _ _ Hrun Hin) as (Hrec & _ & _ & policy & Hdurable).
  pose proof (elem_of_round_recruits _ _ _ Hrec) as (? & ? & _).
  exists leader, policy. split_and!; [done..|exact Hdurable].
Qed.

(** The shape of every proposal [BuildSafeProposal] returns: it carries the
    requested revocation and its term, builds on the revoked rule, never skips
    the outgoing quorum, names a leader no recruit is ahead of, has an incoming
    cohort whose recruited members satisfy the incoming policy, and keeps the
    cohort and policy of an outgoing rule that is still undecided. *)
Theorem safe_proposal_shape rev statuses build proposal :
  BuildSafeProposal rev statuses build = Ok proposal ->
  let rule := GetProposal (GetProposedTransition proposal) in
  prop_GetTermRevocation proposal = rev /\
  GetCoordinatorTerm (GetRuleNumber rule) = GetRevokedBelowTerm rev /\
  CompareRuleNumbers (GetRuleNumber (GetDecision (GetProposedTransition proposal)))
    (GetOutgoingRule rev) = 0 /\
  GetSkipOutgoingQuorum proposal = false /\
  (exists policy, NewPolicyFromProto (GetDurabilityPolicy rule) = Ok policy /\
     SatisfiedBy policy (statusesToIDs
       (filterCohortStatuses (GetCohortMembers rule) (round_recruits rev statuses))) = None) /\
  exists leader, leader ∈ round_recruits rev statuses /\
    status_key leader = ClusterIDString (pa_GetId (GetProposalLeader proposal)) /\
    (forall other, other ∈ round_recruits rev statuses ->
       ComparePoolerPosition (GetCurrentPosition other) (GetCurrentPosition leader) <= 0) /\
    let outgoing := PossiblyUndecidedRule (status_position leader) in
    CompareRuleNumbers (GetRuleNumber outgoing) (GetOutgoingRule rev) = 0 /\
    (IsRuleDecided (status_position leader) = false ->
     sameCohort (GetCohortMembers rule) (GetCohortMembers outgoing) = true /\
     GetDurabilityPolicy rule = GetDurabilityPolicy outgoing).
Proof.
  intros (pos & leaders & leader & Hrun & _ & Hin & Hkey)%BuildSafeProposal_leader rule.
  destruct (eligible_leader _ _ _ _ _ _ Hrun Hin) as (Hrec & Hpos & Hdom & _).
  destruct (validateProposal_None _ _ _ (run_valid _ _ _ _ _ _ Hrun)) as [policy Hval].
  split_and!; [apply Hval|apply Hval|apply Hval| | |].
  - destruct (GetSkipOutgoingQuorum proposal) eqn:Hs; [|done].
    by destruct (val_skip _ _ _ _ Hval Hs).
  - exists policy. split; apply Hval.
  - exists leader. rewrite Hpos. cbv zeta. split_and!; [done|done|done|apply Hrun|].
    intros Hund. by apply (val_undecided _ _ _ _ Hval).
Qed.

(** The leader of a certified proposal. *)
Lemma certified_leader c statuses build proposal :
  BuildExternallyCertifiedProposal c statuses build = Ok proposal ->
  let rev := ecr_GetTermRevocation c in
  exists basis pos leaders leader lsn,
    newCertBasis c = Ok basis /\
    core_run rev (filterByRevocation rev statuses) basis proposal pos leaders /\
    build (core_result rev (filterByRevocation rev statuses) basis pos leaders) = Ok proposal /\
    leader ∈ leaders /\ status_key leader = ClusterIDString (pa_GetId (GetProposalLeader proposal)) /\
    leader ∈ round_recruits rev statuses /\ status_position leader = pos /\
    at_lsn lsn leader /\ basis_floor basis <= lsn /\
    forall other, other ∈ round_recruits rev statuses ->
      ComparePoolerPosition (GetCurrentPosition other) (GetCurrentPosition leader) <= 0.
Proof.
  intros H rev. unfold BuildExternallyCertifiedProposal in H. destruct (_ =? 0); [done|]. inv_ok.
  pose proof Hbind as (Hfl & _ & _)%newCertBasis_Ok.
  apply buildProposalCore_build in H as (pos & leaders & Hrun & Hb).
  destruct (validateProposal_None _ _ _ (run_valid _ _ _ _ _ _ Hrun)) as [policy Hval].
  destruct (val_leader _ _ _ _ Hval) as (leader & Hin & Hkey). cbn in Hin.
  destruct (run_leader _ _ _ _ _ _ leader Hfl Hrun Hin) as (? & ? & (lsn & ? & ?) & ?).
  exists a, pos, leaders, leader, lsn. done.
Qed.

(** C35: A certified proposal respects the certificate: its leader holds the WAL
    up to the frozen position, no recruit is ahead of that leader or of the
    certified outgoing rule, and the incoming cohort is recruited so completely
    that every quorum of the incoming policy contains a recruit. *)
Theorem certified_proposal_respects_cert c statuses build proposal :
  BuildExternallyCertifiedProposal c statuses build = Ok proposal ->
  let rev := ecr_GetTermRevocation c in
  let rule := GetProposal (GetProposedTransition proposal) in
  exists leader lsn frozen policy,
    leader ∈ round_recruits rev statuses /\
    status_key leader = ClusterIDString (pa_GetId (GetProposalLeader proposal)) /\
    at_lsn lsn leader /\ ParseLSN (GetFrozenLsn c) = Some frozen /\ frozen <= lsn /\
    (forall other, other ∈ round_recruits rev statuses ->
       ComparePoolerPosition (GetCurrentPosition other) (GetCurrentPosition leader) <= 0) /\
    CompareRuleNumbers (GetRuleNumber (PossiblyUndecidedRule (status_position leader)))
      (GetOutgoingRule rev) = 0 /\
    NewPolicyFromProto (GetDurabilityPolicy rule) = Ok policy /\
    forall quorum, Forall valid_id (GetCohortMembers rule) -> Forall valid_id quorum ->
      poolerKeysOf quorum ⊆ poolerKeysOf (GetCohortMembers rule) -> SatisfiedBy policy quorum = None ->
      exists cs, cs ∈ round_recruits rev statuses /\ status_key cs ∈ poolerKeysOf quorum.
Proof.
  intros H rev rule.
  destruct (certified_leader _ _ _ _ H)
    as (basis & pos & leaders & leader & lsn & Hb & Hrun & _ & Hin & Hkey & Hrec & Hpos & Hat & Hle & Hdom).
  apply newCertBasis_Ok in Hb as (_ & Hcert & Hlsn).
  destruct (validateProposal_None _ _ _ (run_valid _ _ _ _ _ _ Hrun)) as [policy Hval].
  exists leader, lsn, (basis_floor basis), policy.
  split_and!; [done..|rewrite Hpos; apply Hrun|apply Hval|].
  intros quorum Hvc Hvq Hsub Hsat.
  pose proof (val_retry _ _ _ _ Hval Hcert) as [_ Hcannot]%CheckSufficientRecruitment_None.
  destruct (quorum_meets_recruits policy _ _ quorum Hvc Hvq Hcannot Hsub Hsat) as (k & Hkq & Hkr).
  apply elem_of_recruited_keys in Hkr as (cs & Hcs & <- & _). eauto.
Qed.

End safety.

Definition demo_round : Statuses :=
  let r1 := demo_rule 1 p1 [p1; p2; p3] (at_least 2) in
  [demo_status p2 (demo_revocation 2 (rn 1 0)) (decided r1) "0/18";
   demo_status p3 (demo_revocation 2 (rn 1 0)) (decided r1) "0/10";
   demo_status p1 None (decided r1) "0/20"].

Definition demo_proposal : result (option CoordinatorProposal) :=
  BuildSafeProposal (demo_revocation 2 (rn 1 0)) demo_round demo_builder.

Lemma safe_proposal_keeps_durable_writes_witness :
  exists proposal leader, demo_proposal = Ok proposal /\ leader ∈ demo_round /\
    status_key leader = ClusterIDString (pa_GetId (GetProposalLeader proposal)).
Proof.
  assert (exists proposal, demo_proposal = Ok proposal) as [proposal Hp] by (eexists; vm_compute; reflexivity).
  exists proposal.
  destruct (safe_proposal_keeps_durable_writes _ _ _ _ Hp) as (leader & _ & Hl & _ & Hk & _).
  exists leader. auto.
Defined.

Lemma safe_proposal_shape_witness :
  exists proposal, demo_proposal = Ok proposal /\
    pa_GetId (GetProposalLeader proposal) = p2 /\
    prop_GetTermRevocation proposal = demo_revocation 2 (rn 1 0).
Proof.
  eexists. split; [vm_compute; reflexivity|]. split; [reflexivity|].
  eapply (safe_proposal_shape (demo_revocation 2 (rn 1 0)) demo_round demo_builder).
  vm_compute. reflexivity.
Defined.

Definition demo_cert : option ExternallyCertifiedRevocation :=
  Some (mkExternallyCertifiedRevocation (demo_revocation 2 (rn 1 0)) "0/14").

Lemma certified_proposal_respects_cert_witness :
  exists proposal leader lsn frozen,
    BuildExternallyCertifiedProposal demo_cert demo_round demo_builder = Ok proposal /\
    leader ∈ round_recruits (demo_revocation 2 (rn 1 0)) demo_round /\ at_lsn lsn leader /\
    frozen <= lsn.
Proof.
  assert (exists proposal, BuildExternallyCertifiedProposal demo_cert demo_round demo_builder = Ok proposal)
    as [proposal Hp] by (eexists; vm_compute; reflexivity).
  destruct (certified_proposal_respects_cert _ _ _ _ Hp)
    as (leader & lsn & frozen & _ & Hl & _ & Hat & _ & Hle & _).
  exists proposal, leader, lsn, frozen. auto.
Defined.
