(* ===== verification/PreVote.v ===== *)
(** The pre-vote [CheckProposalPossible] against the round it predicts: the same
    core runs on statuses that differ only in the revocation they hold, so its
    verdict is the verdict of [BuildSafeProposal] once the candidates accept. *)

From stdpp Require Import gmap strings list fin_maps.
From S2P Require Import Prelude ClusterMetadata Demo SortedMaps TopoId Ordering Compare Cohort.
From S2P Require Import Durability Revocation Proposals ProposalFacts ProposalSafety.

Local Open Scope Z_scope.

(** [f] changes neither who a status is from nor where that node stands. *)
Section relabel.
  Context `{R : Runtime}.
  Context (f : option ConsensusStatus -> option ConsensusStatus).
  Hypothesis f_id : forall cs, GetId (f cs) = GetId cs.
  Hypothesis f_pos : forall cs, GetCurrentPosition (f cs) = GetCurrentPosition cs.

Lemma f_position cs : status_position (f cs) = status_position cs.
Proof. unfold status_position. by rewrite f_pos. Qed.

Lemma keep_best_relabel best cs : keep_best (f <$> best) (f cs) = f <$> keep_best best cs.
Proof.
  unfold keep_best. rewrite f_id. destruct (GetId cs); [|done].
  rewrite lookup_fmap. destruct (best !! _) as [prev|]; cbn; [|by rewrite fmap_insert].
  rewrite !f_pos. destruct (0 <? _); [by rewrite fmap_insert|done].
Qed.

Lemma deduplicateStatuses_relabel l : deduplicateStatuses (map f l) = map f (deduplicateStatuses l).
Proof.
  unfold deduplicateStatuses. rewrite <- (Values_fmap String.le f). f_equal.
  assert (forall acc, foldl keep_best (f <$> acc) (map f l) = f <$> foldl keep_best acc l) as H.
  { induction l as [|x l IH]; intros acc; cbn; [done|]. by rewrite keep_best_relabel, IH. }
  rewrite <- H. by rewrite fmap_empty.
Qed.

Lemma filterByValidPosition_relabel l :
  filterByValidPosition (map f l) = map f (filterByValidPosition l).
Proof. apply filter_map_comm. intros cs. by rewrite f_position, f_pos. Qed.

Lemma recruits_relabel l : recruits (map f l) = map f (recruits l).
Proof. unfold recruits. by rewrite deduplicateStatuses_relabel, filterByValidPosition_relabel. Qed.

Lemma recruited_ids_relabel cohort l :
  statusesToIDs (filterCohortStatuses cohort (map f l)) = statusesToIDs (filterCohortStatuses cohort l).
Proof.
  unfold filterCohortStatuses.
  rewrite (filter_map_comm _ (fun cs => GetId cs <> None /\ ClusterIDString (GetId cs) ∈ poolerKeysOf cohort))
    by (intros cs; by rewrite f_id).
  unfold statusesToIDs. rewrite map_map. apply map_ext. intros cs. apply f_id.
Qed.

Lemma discover_step_relabel p recs cs :
  discover_step (p, map f recs) (f cs) =
  let '(p', recs') := discover_step (p, recs) cs in (p', map f recs').
Proof.
  unfold discover_step. rewrite f_position. split_ifs; [done| |done]. by rewrite map_app.
Qed.

Lemma forallb_relabel p l :
  forallb (fun cs => proto_equal (status_position cs) p) (map f l) =
  forallb (fun cs => proto_equal (status_position cs) p) l.
Proof. induction l as [|x l IH]; [done|]. cbn. by rewrite f_position, IH. Qed.

Lemma discoverOutgoingRulePosition_relabel l :
  discoverOutgoingRulePosition (map f l) =
  match discoverOutgoingRulePosition l with Ok (recs, p) => Ok (map f recs, p) | Err e => Err e end.
Proof.
  unfold discoverOutgoingRulePosition.
  assert (forall p recs, foldl discover_step (p, map f recs) (map f l) =
    let '(p', recs') := foldl discover_step (p, recs) l in (p', map f recs')) as H.
  { induction l as [|x l IH]; intros p recs; [done|]. cbn [map foldl].
    rewrite discover_step_relabel. destruct (discover_step (p, recs) x) as [p' recs']. apply IH. }
  specialize (H None []). cbn [map] in H. rewrite H.
  destruct (foldl _ _ l) as [p [|x rest]]; [done|]. cbn [map].
  rewrite forallb_relabel. by destruct (forallb _ _).
Qed.

Lemma narrow_step_relabel minLSN best elig cs :
  narrow_step minLSN (best, map f elig) (f cs) =
  let '(b, e) := narrow_step minLSN (best, elig) cs in (b, map f e).
Proof.
  unfold narrow_step. rewrite f_pos. destruct (ParseLSN _); [|done].
  split_ifs; rewrite ?map_app; done.
Qed.

Lemma narrowByLSN_relabel l minLSN :
  narrowByLSN (map f l) minLSN =
  match narrowByLSN l minLSN with Ok e => Ok (map f e) | Err e => Err e end.
Proof.
  unfold narrowByLSN.
  assert (forall best elig, foldl (narrow_step minLSN) (best, map f elig) (map f l) =
    let '(b, e) := foldl (narrow_step minLSN) (best, elig) l in (b, map f e)) as H.
  { induction l as [|x l IH]; intros best elig; [done|]. cbn [map foldl].
    rewrite narrow_step_relabel. destruct (narrow_step _ _ x) as [b e]. apply IH. }
  specialize (H 0 []). cbn [map] in H. rewrite H.
  destruct (foldl _ _ l) as [b [|x e]]; cbn [map]; [by destruct (0 <? minLSN)|done].
Qed.

(** ** The outgoing rule under relabelling *)

Definition relabel_observed (o : observedOutgoingRule) : observedOutgoingRule :=
  mkObserved (map f (obs_recruited o)) (obs_position o) (obs_basis o).

Definition relabel_result (res : RecruitmentResult) : RecruitmentResult :=
  {| rr_TermRevocation := rr_TermRevocation res;
     rr_OutgoingRule := rr_OutgoingRule res;
     OutgoingRuleDecided := OutgoingRuleDecided res;
     EligibleLeaders := map f (EligibleLeaders res);
     rr_outgoing := mkFinalizable (mkRevoked (relabel_observed (fin_observed (rr_outgoing res)))) |}.

Lemma discoverOutgoingRule_relabel l expected basis :
  discoverOutgoingRule (map f l) expected basis =
  match discoverOutgoingRule l expected basis with Ok o => Ok (relabel_observed o) | Err e => Err e end.
Proof.
  unfold discoverOutgoingRule. rewrite discoverOutgoingRulePosition_relabel.
  destruct (discoverOutgoingRulePosition l) as [[recs p]|]; cbn; [|done].
  destruct (_ =? 0); [done|]. destruct (cert basis); [done|]. by destruct (0 <? _).
Qed.

Lemma revoke_relabel o :
  revoke (relabel_observed o) =
  match revoke o with Ok _ => Ok (mkRevoked (relabel_observed o)) | Err e => Err e end.
Proof.
  unfold revoke, revokeByRecruitment. cbn [obs_basis obs_position obs_recruited relabel_observed].
  rewrite recruited_ids_relabel. destruct (cert _); [done|].
  destruct (wrap_result _ _); [|done]. by destruct (wrap_err _ _).
Qed.

Lemma checkRecruitsCanFinalizeProposal_relabel o :
  checkRecruitsCanFinalizeProposal (mkRevoked (relabel_observed o)) =
  match checkRecruitsCanFinalizeProposal (mkRevoked o) with
  | Ok _ => Ok (mkFinalizable (mkRevoked (relabel_observed o)))
  | Err e => Err e
  end.
Proof.
  unfold checkRecruitsCanFinalizeProposal.
  cbn [revoked_observed obs_basis obs_position obs_recruited relabel_observed].
  destruct (_ || _); [done|].
  destruct (wrap_result _ (NewPolicyFromProto (GetDurabilityPolicy (GetDecision _)))); [|done]. cbn.
  destruct (wrap_result _ (NewPolicyFromProto _)); [|done]. cbn.
  destruct (wrap_result _ (BuildPolicyTransition _ _)); [|done]. cbn.
  rewrite recruited_ids_relabel. by destruct (wrap_err _ _).
Qed.

Lemma newRecruitmentResult_relabel rev o :
  newRecruitmentResult rev (mkFinalizable (mkRevoked (relabel_observed o))) =
  match newRecruitmentResult rev (mkFinalizable (mkRevoked o)) with
  | Ok res => Ok (relabel_result res)
  | Err e => Err e
  end.
Proof.
  unfold newRecruitmentResult, eligibleLeaders, recruitsRecordingRule.
  cbn [fin_revoked fin_observed revoked_observed obs_basis obs_position obs_recruited relabel_observed].
  rewrite (filter_map_comm _ (fun cs => CompareRulePosition (status_position cs) (obs_position o) = 0))
    by (intros cs; by rewrite f_position).
  rewrite narrowByLSN_relabel. by destruct (narrowByLSN _ _).
Qed.

Lemma existsb_relabel key l :
  existsb (fun cs => String.eqb (ClusterIDString (GetId cs)) key) (map f l) =
  existsb (fun cs => String.eqb (ClusterIDString (GetId cs)) key) l.
Proof. induction l as [|x l IH]; [done|]. cbn. by rewrite f_id, IH. Qed.

Lemma validateProposal_relabel proposal res ids :
  validateProposal proposal (relabel_result res) ids = validateProposal proposal res ids.
Proof.
  unfold validateProposal. cbn [rr_TermRevocation EligibleLeaders relabel_result].
  rewrite existsb_relabel. done.
Qed.

(** A builder that looks only at what relabelling keeps. *)
Definition builder_stable (build : Builder) : Prop :=
  forall res, build (relabel_result res) = build res.

(** A step on relabelled data whose result is the relabelled result. *)
Lemma bind_relabel {A B C} (g : A -> B) (r : result A) (k : B -> result C) k' :
  (forall a, r = Ok a -> k (g a) = k' a) ->
  result_bind k (match r with Ok a => Ok (g a) | Err e => Err e end) = result_bind k' r.
Proof. destruct r; cbn; eauto. Qed.

Lemma buildProposalCore_relabel rev l basis build :
  builder_stable build ->
  buildProposalCore rev (map f l) basis build = buildProposalCore rev l basis build.
Proof.
  intros Hb. unfold buildProposalCore, mbind, result_mbind. fold (recruits (map f l)) (recruits l).
  rewrite recruits_relabel. unfold len. rewrite !length_map.
  destruct (_ =? 0); [done|]. destruct (Z.of_nat (length (recruits l)) =? 0); [done|].
  destruct (GetOutgoingRule rev) as [expected|]; [|done].
  rewrite discoverOutgoingRule_relabel. apply bind_relabel. intros o _.
  rewrite revoke_relabel. apply (bind_relabel (fun _ => mkRevoked (relabel_observed o))).
  intros r [-> _]%revoke_Ok. rewrite checkRecruitsCanFinalizeProposal_relabel.
  apply (bind_relabel (fun _ => mkFinalizable (mkRevoked (relabel_observed o)))).
  intros fin ->%checkRecruitsCanFinalizeProposal_same. rewrite newRecruitmentResult_relabel.
  apply bind_relabel. intros res _. rewrite Hb.
  destruct (wrap_result _ _) as [[proposal|]|]; [|done|done]. cbn [result_bind].
  by rewrite recruited_ids_relabel, validateProposal_relabel.
Qed.
End relabel.

(** ** What accepting changes in a status *)

(** The status of a node after it was asked to accept [rev]. *)
Definition with_revocation_of (rev : option TermRevocation) (cs : option ConsensusStatus)
    : option ConsensusStatus :=
  match cs with
  | Some c => Some {| cs_TermRevocation := rev; CurrentPosition := CurrentPosition c;
                      cs_ReplicationPrimary := cs_ReplicationPrimary c; cs_Id := cs_Id c;
                      RecruitBlockedUntil := RecruitBlockedUntil c |}
  | None => None
  end.

Section prevote.
  Context `{R : Runtime} `{!RuntimeLaws R}.

(** The answers to a Recruit of [rev]: a node whose checks pass answers with its
    status, now holding [rev]; one that refuses answers with an error and adds no
    status. *)
Definition recruit_answers (rev : option TermRevocation) (statuses : Statuses) : Statuses :=
  omap (fun cs => match ValidateRevocation cs rev with
                  | None => Some (with_revocation_of rev cs)
                  | Some _ => None
                  end) statuses.

Lemma answering_statuses rev statuses :
  filterByRevocation rev (recruit_answers rev statuses) =
  map (with_revocation_of rev) (filterByPotentialRevocation rev statuses).
Proof.
  unfold filterByRevocation, filterByPotentialRevocation, recruit_answers.
  induction statuses as [|cs l IH]; [done|]. cbn [omap list_omap].
  destruct (ValidateRevocation cs rev) eqn:Hv.
  - by rewrite filter_cons_False by (by rewrite Hv).
  - rewrite filter_cons_True; [rewrite filter_cons_True by done; cbn [map]; by rewrite IH|].
    rewrite proto_equal_spec. apply ValidateRevocation_None in Hv as [].
    destruct cs; [done|]. by destruct acc_position as (? & ? & _).
Qed.

(** C38: The pre-vote is exact.  When every node whose own checks pass answers the
    Recruit with its reported status, now holding the revocation, and every other
    node answers with an error, [BuildSafeProposal] succeeds on the answers
    precisely when [CheckProposalPossible] said a proposal is possible, for every
    builder that does not itself look at the revocations the recruits hold. *)
Theorem prevote_predicts_round rev statuses build :
  builder_stable (with_revocation_of rev) build ->
  CheckProposalPossible rev statuses build = None <->
  is_Ok (BuildSafeProposal rev (recruit_answers rev statuses) build).
Proof.
  intros Hb. unfold CheckProposalPossible, BuildSafeProposal, is_Ok.
  rewrite answering_statuses. unfold len. rewrite length_map.
  destruct (_ =? 0); [done|]. rewrite buildProposalCore_relabel; [done| | |done]; by intros [].
Qed.
End prevote.

Lemma prevote_predicts_round_witness :
  let r1 := demo_rule 1 p1 [p1; p2; p3] (at_least 2) in
  let statuses := [demo_status p2 None (decided r1) "0/18"; demo_status p3 None (decided r1) "0/10"] in
  is_Ok (BuildSafeProposal (demo_revocation 2 (rn 1 0))
           (recruit_answers (demo_revocation 2 (rn 1 0)) statuses) demo_builder).
Proof.
  intros r1 statuses. apply prevote_predicts_round.
  - intros res. unfold demo_builder. cbn. destruct (EligibleLeaders res) as [|[l|] ls]; reflexivity.
  - vm_compute. reflexivity.
Defined.
