(* ===== verification/ActionLock.v ===== *)
(** go/services/multipooler/internal/manager/actionlock/action_lock.go: the lock
    that serialises a pooler's state-changing actions, with ownership carried by
    the context.

    A context is modelled by the one value this package stores in it.  The
    [released] flag is a shared [*atomic.Bool]: the flags live in a heap, and a
    lock value holds the address of its own, so that every context that carries
    the value sees a release. *)

From stdpp Require Import base list option strings relations.
From S2P Require Import Prelude.

Local Open Scope Z_scope.

Record actionLockValue := mkActionLockValue {
  lockID : Z;
  operation : string;
  released : nat
}.

Definition Context_ : Type := option actionLockValue.

Record ActionLock := mkActionLock {
  sema_held : bool;
  currentID : Z;
  nextID : Z;
  activeAction : Z;
  activeActionStartedAt : Z
}.

Definition POSTGRES_ACTION_UNSPECIFIED : Z := 0.
Definition zero_time : Z := 0.

(** The lock and the heap of released flags. *)
Record LockWorld := mkLockWorld { the_lock : ActionLock; flags : list bool }.

Definition NewActionLock : ActionLock := mkActionLock false 0 1 POSTGRES_ACTION_UNSPECIFIED zero_time.

Definition is_released (fl : list bool) (v : actionLockValue) : bool := default true (fl !! released v).

Definition AssertActionLockHeld (fl : list bool) (ctx : Context_) : option gerror :=
  match ctx with
  | None => Some (err "context does not hold an action lock")
  | Some val =>
      if is_released fl val then Some (err "context's action lock has been released") else None
  end.

(** [sema_err] is what the semaphore's [Acquire] returns; it returns nil only
    after taking the one unit. *)
Definition Acquire (w : LockWorld) (ctx : Context_) (op : string) (sema_err : option gerror)
    : LockWorld * result Context_ :=
  let already := match ctx with Some val => negb (is_released (flags w) val) | None => false end in
  if already then (w, Err (err "context already holds the action lock"))
  else match sema_err with
  | Some e => (w, Err (wrap "failed to acquire action lock" e))
  | None =>
      let al := the_lock w in
      let id := nextID al in
      ({| the_lock := {| sema_held := true; currentID := id; nextID := wrapu64 (id + 1);
                         activeAction := activeAction al;
                         activeActionStartedAt := activeActionStartedAt al |};
          flags := flags w ++ [false] |},
       Ok (Some (mkActionLockValue id op (length (flags w)))))
  end.

(** [None] is a panic. *)
Definition Release (w : LockWorld) (ctx : Context_) : option LockWorld :=
  match ctx with
  | None => None
  | Some val =>
      if is_released (flags w) val then None
      else
        let al := the_lock w in
        if negb (lockID val =? currentID al) then None
        else Some {| the_lock := {| sema_held := false; currentID := 0; nextID := nextID al;
                                    activeAction := POSTGRES_ACTION_UNSPECIFIED;
                                    activeActionStartedAt := zero_time |};
                     flags := <[released val := true]> (flags w) |}
  end.

Definition SetAction (w : LockWorld) (ctx : Context_) (action now : Z) : LockWorld * option gerror :=
  match AssertActionLockHeld (flags w) ctx with
  | Some e => (w, Some e)
  | None =>
      let al := the_lock w in
      ({| the_lock := {| sema_held := sema_held al; currentID := currentID al; nextID := nextID al;
                         activeAction := action; activeActionStartedAt := now |};
          flags := flags w |}, None)
  end.

Definition ActiveAction (w : LockWorld) (now : Z) : Z * Z :=
  let al := the_lock w in
  if activeAction al =? POSTGRES_ACTION_UNSPECIFIED then (POSTGRES_ACTION_UNSPECIFIED, 0)
  else (activeAction al, now - activeActionStartedAt al).

Definition carryLock (dst src : Context_) : Context_ :=
  match src with Some val => Some val | None => dst end.

(** [ctxutil.Detach] drops the context's values. *)
Definition Detach (ctx : Context_) : Context_ := carryLock None ctx.

(** ** Every use of the lock *)

(** The lock with the values handed out so far. *)
Record LockSystem := mkLockSystem { world : LockWorld; issued : list actionLockValue }.

Definition initial_system : LockSystem := mkLockSystem (mkLockWorld NewActionLock []) [].

(** A context in circulation is bare or carries a value that was handed out. *)
Definition in_circulation (s : LockSystem) (ctx : Context_) : Prop :=
  match ctx with None => True | Some val => val ∈ issued s end.

Inductive lock_step : LockSystem -> LockSystem -> Prop :=
| step_acquire s ctx op sema_err w' ctx' :
    in_circulation s ctx ->
    (sema_err = None -> sema_held (the_lock (world s)) = false) ->
    Acquire (world s) ctx op sema_err = (w', Ok (Some ctx')) ->
    lock_step s (mkLockSystem w' (issued s ++ [ctx']))
| step_release s ctx w' :
    in_circulation s ctx -> Release (world s) ctx = Some w' ->
    lock_step s (mkLockSystem w' (issued s))
| step_set_action s ctx action now w' e :
    in_circulation s ctx -> SetAction (world s) ctx action now = (w', e) ->
    lock_step s (mkLockSystem w' (issued s)).

Definition lock_reachable (s : LockSystem) : Prop := rtc lock_step initial_system s.

(** Each value owns the flag allocated with it; a flag is unset exactly while its
    value is the current holder. *)
Record lock_inv (s : LockSystem) : Prop := {
  inv_length : length (issued s) = length (flags (world s));
  inv_address : forall i v, issued s !! i = Some v -> released v = i;
  inv_free : sema_held (the_lock (world s)) = false -> Forall (eq true) (flags (world s));
  inv_held : sema_held (the_lock (world s)) = true ->
    exists i v, issued s !! i = Some v /\ lockID v = currentID (the_lock (world s)) /\
      flags (world s) !! i = Some false /\
      forall j, j <> i -> flags (world s) !! j <> Some false
}.

Lemma lock_inv_initial : lock_inv initial_system.
Proof. by constructor; [| |constructor|]. Qed.

Lemma is_released_false fl v : is_released fl v = false <-> fl !! released v = Some false.
Proof. unfold is_released. destruct (fl !! released v) as [[]|]; cbn; naive_solver. Qed.

Lemma Forall_true_lookup (fl : list bool) i : Forall (eq true) fl -> fl !! i <> Some false.
Proof. intros H Hi. by apply (Forall_lookup_1 _ _ _ _ H) in Hi. Qed.

Lemma lock_inv_step s s' : lock_step s s' -> lock_inv s -> lock_inv s'.
Proof.
  intros Hstep [Hlen Haddr Hfree Hheld]. destruct Hstep as [s ctx op se w' v' Hc Hse Ha|s ctx w' Hc Hr|s ctx a n w' e Hc Ha].
  - unfold Acquire in Ha. split_ifs; [done|]. destruct se; [done|]. specialize (Hfree (Hse eq_refl)).
    injection Ha as <- <-. constructor; cbn.
    + rewrite !length_app. cbn. lia.
    + intros i v [[_ Hi]|[Hi Hv]]%lookup_snoc_Some; [by apply Haddr|]. subst v. cbn. lia.
    + done.
    + intros _. exists (length (issued s)), (mkActionLockValue (nextID (the_lock (world s))) op (length (flags (world s)))).
      split_and!; [apply list_lookup_middle; lia|done|apply list_lookup_middle; lia|].
      intros j Hj [[_ Hl]|[Hl _]]%lookup_snoc_Some; [|congruence].
      by apply (Forall_true_lookup _ j) in Hfree.
  - unfold Release in Hr. destruct ctx as [val|]; [|done].
    destruct (is_released _ _) eqn:Hrel; [done|]. apply is_released_false in Hrel.
    split_ifs; [done|]. injection Hr as <-. constructor; cbn.
    + by rewrite length_insert.
    + done.
    + intros _. destruct (sema_held (the_lock (world s))) eqn:Hh.
      2: { by apply (Forall_true_lookup _ (released val)) in Hfree. }
      destruct (Hheld eq_refl) as (i & v & Hi & _ & Hf & Huniq).
      assert (released val = i) as ->.
      { destruct (decide (released val = i)); [done|]. by destruct (Huniq (released val)). }
      apply Forall_lookup. intros j b Hj. apply list_lookup_insert_Some in Hj as [(<- & <- & _)|[Hne Hj]]; [done|].
      destruct b; [done|]. by destruct (Huniq j).
    + done.
  - unfold SetAction in Ha. destruct (AssertActionLockHeld _ _); injection Ha as <- <-; by constructor.
Qed.

Lemma lock_inv_reachable s : lock_reachable s -> lock_inv s.
Proof.
  unfold lock_reachable. intros H.
  assert (forall a b, rtc lock_step a b -> lock_inv a -> lock_inv b) as Hall.
  { induction 1; eauto using lock_inv_step. }
  eapply Hall; [done|apply lock_inv_initial].
Qed.

Lemma held_value_flag s v :
  lock_inv s -> v ∈ issued s -> AssertActionLockHeld (flags (world s)) (Some v) = None ->
  issued s !! released v = Some v /\ flags (world s) !! released v = Some false /\
  lockID v = currentID (the_lock (world s)).
Proof.
  intros [Hlen Haddr Hfree Hheld] [i Hi]%list_elem_of_lookup Ha. cbn in Ha.
  destruct (is_released _ _) eqn:Hrel; [done|]. apply is_released_false in Hrel.
  rewrite (Haddr _ _ Hi) in *. split_and!; [done|done|].
  destruct (sema_held (the_lock (world s))) eqn:Hh.
  2: { by apply (Forall_true_lookup _ i) in Hfree. }
  destruct (Hheld eq_refl) as (j & w & Hj & Hid & Hf & Huniq).
  destruct (decide (i = j)) as [->|Hne]; [congruence|]. by destruct (Huniq i).
Qed.

(** However the lock is used, it excludes: two contexts in circulation that
    both pass [AssertActionLockHeld] carry the same acquisition, and releasing
    with such a context never panics, while releasing with any other context
    always does. *)
Theorem action_lock_excludes s :
  lock_reachable s ->
  (forall v1 v2, v1 ∈ issued s -> v2 ∈ issued s ->
     AssertActionLockHeld (flags (world s)) (Some v1) = None ->
     AssertActionLockHeld (flags (world s)) (Some v2) = None -> v1 = v2) /\
  (forall ctx, in_circulation s ctx ->
     is_Some (Release (world s) ctx) <-> AssertActionLockHeld (flags (world s)) ctx = None).
Proof.
  intros Hinv%lock_inv_reachable. split.
  - intros v1 v2 Hv1 Hv2 H1 H2.
    destruct (held_value_flag s v1 Hinv Hv1 H1) as (Hi1 & Hf1 & _).
    destruct (held_value_flag s v2 Hinv Hv2 H2) as (Hi2 & Hf2 & _).
    destruct Hinv as [_ _ Hfree Hheld]. destruct (sema_held (the_lock (world s))).
    2: { by apply (Forall_true_lookup _ (released v1)) in Hfree. }
    destruct (Hheld eq_refl) as (j & w & Hj & _ & _ & Huniq).
    assert (released v1 = j) as E1 by (destruct (decide (released v1 = j)); [done|by destruct (Huniq (released v1))]).
    assert (released v2 = j) as E2 by (destruct (decide (released v2 = j)); [done|by destruct (Huniq (released v2))]).
    congruence.
  - intros [v|] Hc; [|split; [by intros [? ?]|done]]. cbn in Hc. unfold Release.
    destruct (AssertActionLockHeld (flags (world s)) (Some v)) eqn:Ha.
    + cbn in Ha. destruct (is_released _ _); [|done]. split; [by intros [? ?]|done].
    + destruct (held_value_flag s v Hinv Hc Ha) as (_ & _ & ->).
      cbn in Ha. destruct (is_released _ _); [done|]. rewrite Z.eqb_refl. cbn. split; [done|eauto].
Qed.

(** Two acquisitions in a row, the first released. *)
Definition demo_world : LockWorld :=
  mkLockWorld (mkActionLock true 2 3 0 0) [true; false].
Definition demo_system : LockSystem :=
  mkLockSystem demo_world [mkActionLockValue 1 "Recruit" 0; mkActionLockValue 2 "Promote" 1].

Lemma action_lock_excludes_witness :
  lock_reachable demo_system /\ is_Some (Release demo_world (Some (mkActionLockValue 2 "Promote" 1))).
Proof.
  assert (lock_reachable demo_system) as Hr.
  { eapply rtc_l; [eapply (step_acquire _ None "Recruit" None); [exact I|reflexivity|vm_compute; reflexivity]|].
    eapply rtc_l; [eapply (step_release _ (Some (mkActionLockValue 1 "Recruit" 0)));
      [left|vm_compute; reflexivity]|].
    eapply rtc_l; [eapply (step_acquire _ None "Promote" None); [exact I|reflexivity|vm_compute; reflexivity]|].
    apply rtc_refl. }
  split; [exact Hr|]. apply (proj2 (action_lock_excludes demo_system Hr)); [right; left|reflexivity].
Defined.

(** A detached context keeps proving ownership, and sees the release. *)
Lemma Detach_shares_ownership fl ctx : AssertActionLockHeld fl (Detach ctx) = AssertActionLockHeld fl ctx.
Proof. by destruct ctx. Qed.
