(* ===== verification/AtomicFile.v ===== *)
(** go/tools/fileutil/atomic.go: replacing a file through a synced temporary file
    and a rename, on a file system where each system call can fail and the
    process can die between any two of them. *)

From stdpp Require Import gmap strings list.
From S2P Require Import Prelude.

(** [files] is what the running system sees; [stable] is what is on the medium.
    Syncing a file writes its content to the medium; a rename reaches it when the
    directory is flushed. *)
Record FS := mkFS { files : gmap string string; stable : gmap string string }.

(** How a system call ends: with its effect, with an error and no effect, or
    with the process dying before or after the effect. *)
Inductive sysresult := SysOk | SysErr | CrashBefore | CrashAfter.

Record io := mkIO {
  tmpPath : string;
  on_create : sysresult; on_chmod : sysresult; on_write : sysresult;
  on_sync : sysresult; on_close : sysresult; on_rename : sysresult;
  partial : string
}.

Definition good_io (tmp : string) : io := mkIO tmp SysOk SysOk SysOk SysOk SysOk SysOk "".

(** A call returns a value, or the process dies inside it. *)
Inductive outcome (A : Type) := Returned (a : A) | Crashed.
Arguments Returned {A} a.
Arguments Crashed {A}.

Definition with_files (fs : FS) (f : gmap string string) : FS := mkFS f (stable fs).

(** The deferred [tmpFile.Close(); os.Remove(tmpPath)] on an early return. *)
Definition cleanup (fs : FS) (tmp : string) : FS := with_files fs (delete tmp (files fs)).

(** One system call with effect [eff]: an error returns [msg] after the cleanup. *)
Definition syscall (r : sysresult) (fs : FS) (tmp msg : string) (eff : FS -> FS)
    (k : FS -> FS * outcome (option gerror)) : FS * outcome (option gerror) :=
  match r with
  | SysOk => k (eff fs)
  | SysErr => (cleanup fs tmp, Returned (Some (wrap msg (err "errno"))))
  | CrashBefore => (fs, Crashed)
  | CrashAfter => (eff fs, Crashed)
  end.

(** A failed or interrupted write leaves part of the data in the temporary. *)
Definition AtomicWriteFile (fs : FS) (path data : string) (o : io) : FS * outcome (option gerror) :=
  let tmp := tmpPath o in
  match on_create o with
  | SysErr => (fs, Returned (Some (wrap "failed to create temp file" (err "errno"))))
  | CrashBefore => (fs, Crashed)
  | CrashAfter => (with_files fs (<[tmp := ""%string]> (files fs)), Crashed)
  | SysOk =>
      let fs := with_files fs (<[tmp := ""%string]> (files fs)) in
      syscall (on_chmod o) fs tmp "failed to set permissions" id (fun fs =>
      let fs := match on_write o with
                | SysOk => fs
                | _ => with_files fs (<[tmp := partial o]> (files fs))
                end in
      syscall (on_write o) fs tmp "failed to write temp file"
        (fun fs => with_files fs (<[tmp := data]> (files fs))) (fun fs =>
      syscall (on_sync o) fs tmp "failed to sync temp file"
        (fun fs => mkFS (files fs) (<[tmp := data]> (stable fs))) (fun fs =>
      syscall (on_close o) fs tmp "failed to close temp file" id (fun fs =>
      syscall (on_rename o) fs tmp "failed to rename temp file"
        (fun fs => with_files fs (<[path := data]> (delete tmp (files fs)))) (fun fs =>
      (cleanup fs tmp, Returned None))))))
  end.

(** What the machine finds after losing power. *)
Definition power_loss (fs : FS) : FS := mkFS (stable fs) (stable fs).

(** The temporary's name is one [os.CreateTemp] may choose. *)
Definition fresh_tmp (fs : FS) (path : string) (o : io) : Prop :=
  tmpPath o <> path /\ files fs !! tmpPath o = None.

(** What every way out of the call leaves behind, [F] being the files before. *)
Definition replaced_or_kept (F : gmap string string) (path data tmp : string)
    (res : FS * outcome (option gerror)) : Prop :=
  match snd res with
  | Returned None => files (fst res) = <[path := data]> F
  | Returned (Some _) => files (fst res) = F
  | Crashed => exists x, files (fst res) = <[tmp := x]> F \/ files (fst res) = F \/
      files (fst res) = <[path := data]> F
  end.

(** Between creation and rename only the temporary differs. *)
Definition only_tmp (F : gmap string string) (tmp : string) (fs : FS) : Prop :=
  exists x, files fs = <[tmp := x]> F.

Lemma syscall_replaced F path data tmp r fs msg eff k :
  F !! tmp = None -> only_tmp F tmp fs ->
  (only_tmp F tmp (eff fs) \/ files (eff fs) = <[path := data]> F) ->
  replaced_or_kept F path data tmp (k (eff fs)) ->
  replaced_or_kept F path data tmp (syscall r fs tmp msg eff k).
Proof.
  intros Hn [x Hx] Heff Hk. unfold replaced_or_kept. destruct r; cbn; [done| | |].
  - rewrite Hx. by rewrite delete_insert_id.
  - eauto.
  - destruct Heff as [[y Hy]|Hy]; [exists y|exists ""%string]; auto.
Qed.

Lemma AtomicWriteFile_replaced fs path data o :
  fresh_tmp fs path o ->
  replaced_or_kept (files fs) path data (tmpPath o) (AtomicWriteFile fs path data o).
Proof.
  intros [Hne Hfresh]. unfold AtomicWriteFile. set (F := files fs) in *. set (tmp := tmpPath o) in *.
  assert (forall g x, only_tmp F tmp (with_files g (<[tmp := x]> (files (with_files fs (<[tmp := ""%string]> F)))))) as Htmp.
  { intros g x. exists x. cbn. by rewrite insert_insert_eq. }
  destruct (on_create o); [|done|by exists ""%string; auto|by exists ""%string; auto].
  apply syscall_replaced; [done|by exists ""%string|left; by exists ""%string|]. cbn [id].
  set (g := match on_write o with SysOk => _ | _ => _ end).
  assert (only_tmp F tmp g) as [y Hy] by (subst g; destruct (on_write o); solve [by exists ""%string|apply Htmp]).
  assert (only_tmp F tmp (with_files g (<[tmp := data]> (files g)))) as Hdata.
  { exists data. cbn. by rewrite Hy, insert_insert_eq. }
  apply syscall_replaced; [done|by exists y|by left|].
  apply syscall_replaced; [done|done|left; done|].
  apply syscall_replaced; [done|done|left; done|].
  assert (<[path := data]> (delete tmp (files (with_files g (<[tmp := data]> (files g))))) = <[path := data]> F) as Hren.
  { cbn. by rewrite Hy, insert_insert_eq, delete_insert_id. }
  apply syscall_replaced; [done|done|by right|].
  unfold replaced_or_kept. cbn in *. rewrite Hren. apply delete_id. by rewrite lookup_insert_ne.
Qed.

(** [AtomicWriteFile] replaces a file or leaves it alone, whatever fails and
    wherever the process dies: success means the new content is in place, an
    error means the directory is exactly as before, and a death in the middle
    leaves the old or the new content at the path and nothing else changed
    except possibly the temporary. *)
Theorem atomic_write_all_or_nothing fs path data o fs' r :
  fresh_tmp fs path o -> AtomicWriteFile fs path data o = (fs', r) ->
  match r with
  | Returned None => files fs' = <[path := data]> (files fs)
  | Returned (Some _) => files fs' = files fs
  | Crashed => (files fs' !! path = files fs !! path \/ files fs' !! path = Some data) /\
      forall q, q <> path -> q <> tmpPath o -> files fs' !! q = files fs !! q
  end.
Proof.
  intros Hf Hw. pose proof (AtomicWriteFile_replaced fs path data o Hf) as H.
  rewrite Hw in H. unfold replaced_or_kept in H. cbn in H. destruct r as [[e|]|]; [done|done|].
  destruct Hf as [Hne _]. destruct H as (x & [H|[H|H]]); rewrite H; split.
  - rewrite lookup_insert_ne by done. auto.
  - intros q ? ?. by rewrite lookup_insert_ne.
  - auto.
  - done.
  - rewrite lookup_insert_eq. auto.
  - intros q ? ?. by rewrite lookup_insert_ne.
Qed.

Lemma atomic_write_all_or_nothing_witness :
  files (fst (AtomicWriteFile (mkFS {["f" := "old"]} ∅) "f" "new" (good_io ".tmp-1"))) =
  <["f" := "new"]> {["f" := "old"]}.
Proof.
  refine (atomic_write_all_or_nothing (mkFS {["f" := "old"]} ∅) "f" "new" (good_io ".tmp-1")
    _ (Returned None) _ _); [split; [discriminate|reflexivity]|vm_compute; reflexivity].
Defined.

(** Success does not mean the replacement survives a power failure: the
    content is synced but the rename is not, so after a successful call the
    machine can come back with the old file. *)
Theorem atomic_write_not_power_safe :
  let fs := mkFS {["f" := "old"]} {["f" := "old"]} in
  let '(fs', r) := AtomicWriteFile fs "f" "new" (good_io ".tmp-1") in
  r = Returned None /\ files fs' !! "f"%string = Some "new"%string /\
  files (power_loss fs') !! "f"%string = Some "old"%string.
Proof. vm_compute. done. Qed.
