(* ===== verification/Promises.v ===== *)
(** go/services/multipooler/internal/manager/consensus/consensus_promises.go and
    promise_storage.go: the promises a pooler makes, in memory and on disk. *)

From stdpp Require Import gmap strings list relations.
From S2P Require Import Prelude ClusterMetadata Demo TopoId Ordering Compare Revocation.
From S2P Require Import ActionLock AtomicFile.

Local Open Scope Z_scope.

(** [protojson] as the code uses it: marshalling can fail, and what was
    marshalled reads back. *)
Class PromiseCodec := {
  Marshal : ConsensusPromisesMsg -> option string;
  Unmarshal : string -> option ConsensusPromisesMsg
}.

Class PromiseCodecLaws (C : PromiseCodec) := {
  Unmarshal_Marshal : forall m data, Marshal m = Some data -> Unmarshal data = Some m
}.

Record ConsensusPromises := mkConsensusPromises {
  poolerDir : string;
  serviceID : option ID;
  revocation : option TermRevocation;
  recruitBlockedUntil : option LsnPosition
}.

Definition NewConsensusPromises (dir : string) (id : option ID) : ConsensusPromises :=
  mkConsensusPromises dir id None None.

Definition ConsensusPromisesFile : string := "consensus_promises.json".

(** [filepath.Join] of a clean directory and a file name. *)
Definition promisesFilePath (cs : ConsensusPromises) : string :=
  poolerDir cs +:+ "/" +:+ ConsensusPromisesFile.

(** The zero message. *)
Definition zero_revocation : TermRevocation := mkTermRevocation 0 None None None None.
Definition zero_promises : ConsensusPromisesMsg := mkConsensusPromisesMsg None None.

Definition set_revocation (cs : ConsensusPromises) (r : option TermRevocation) : ConsensusPromises :=
  mkConsensusPromises (poolerDir cs) (serviceID cs) r (recruitBlockedUntil cs).
Definition set_floor (cs : ConsensusPromises) (p : option LsnPosition) : ConsensusPromises :=
  mkConsensusPromises (poolerDir cs) (serviceID cs) (revocation cs) p.

Section promises.
  Context `{R : Runtime} `{C : PromiseCodec}.

(** [readable = false] is an I/O error reading an existing file. *)
Definition readPromisesFromDisk (cs : ConsensusPromises) (fs : FS) (readable : bool)
    : result ConsensusPromisesMsg :=
  match files fs !! promisesFilePath cs with
  | None => Ok zero_promises
  | Some data =>
      if negb readable then Err (wrap "failed to read consensus promises file" (err "errno"))
      else match Unmarshal data with
           | None => Err (wrap "failed to unmarshal consensus promises" (err "protojson"))
           | Some file => Ok file
           end
  end.

Definition writePromisesToDisk (cs : ConsensusPromises) (fs : FS) (promises : ConsensusPromisesMsg)
    (o : io) : FS * outcome (option gerror) :=
  match Marshal promises with
  | None => (fs, Returned (Some (wrap "failed to marshal consensus promises" (err "protojson"))))
  | Some data =>
      match AtomicWriteFile fs (promisesFilePath cs) data o with
      | (fs', Returned e) => (fs', Returned (wrap_err "failed to write consensus promises file" e))
      | (fs', Crashed) => (fs', Crashed)
      end
  end.

Definition Load (cs : ConsensusPromises) (fs : FS) (readable : bool) : ConsensusPromises * result Z :=
  match readPromisesFromDisk cs fs readable with
  | Err e => (cs, Err (wrap "failed to load consensus promises" e))
  | Ok file =>
      let rev := match cp_TermRevocation file with None => Some zero_revocation | r => r end in
      (set_floor (set_revocation cs rev) (cp_RecruitBlockedUntil file), Ok (GetRevokedBelowTerm rev))
  end.

Definition GetInconsistentRevocation (cs : ConsensusPromises) : option TermRevocation := revocation cs.

Definition GetRevocation (cs : ConsensusPromises) (fl : list bool) (ctx : Context_)
    : result (option TermRevocation) :=
  (guard! AssertActionLockHeld fl ctx; Ok (revocation cs))%go.

Definition cp_floor (cs : ConsensusPromises) : option LsnPosition := recruitBlockedUntil cs.

Definition persistLocked (cs : ConsensusPromises) (fs : FS) (rev : option TermRevocation)
    (floor : option LsnPosition) (o : io) : FS * outcome (option gerror) :=
  let rev := match rev with None => revocation cs | _ => rev end in
  let floor := match floor with None => recruitBlockedUntil cs | _ => floor end in
  writePromisesToDisk cs fs (mkConsensusPromisesMsg rev floor) o.

(** A mutating method's state: what is in memory and what is on disk. *)
Definition SetRecruitBlockedUntil (cs : ConsensusPromises) (fs : FS) (fl : list bool) (ctx : Context_)
    (pos : option LsnPosition) (o : io) : ConsensusPromises * FS * outcome (option gerror) :=
  match AssertActionLockHeld fl ctx with
  | Some e => (cs, fs, Returned (Some e))
  | None =>
      match persistLocked cs fs None pos o with
      | (fs', Crashed) => (cs, fs', Crashed)
      | (fs', Returned (Some e)) =>
          (cs, fs', Returned (Some (wrap "failed to save recruit position floor" e)))
      | (fs', Returned None) => (set_floor cs pos, fs', Returned None)
      end
  end.

Definition saveAndUpdateLocked (cs : ConsensusPromises) (fs : FS) (newRevocation : option TermRevocation)
    (o : io) : ConsensusPromises * FS * outcome (option gerror) :=
  match persistLocked cs fs newRevocation None o with
  | (fs', Crashed) => (cs, fs', Crashed)
  | (fs', Returned (Some e)) => (cs, fs', Returned (Some (wrap "failed to save consensus term" e)))
  | (fs', Returned None) => (set_revocation cs newRevocation, fs', Returned None)
  end.

Definition AcceptRevocation (cs : ConsensusPromises) (fs : FS) (fl : list bool) (ctx : Context_)
    (status : option ConsensusStatus) (rev : option TermRevocation) (o : io)
    : ConsensusPromises * FS * outcome (option gerror) :=
  match AssertActionLockHeld fl ctx with
  | Some e => (cs, fs, Returned (Some e))
  | None =>
      if negb (proto_equal (GetTermRevocation status) (revocation cs)) then
        (cs, fs, Returned (Some (err "status parameter is out of date")))
      else match ValidateRevocation status rev with
      | Some e => (cs, fs, Returned (Some e))
      | None => saveAndUpdateLocked cs fs rev o
      end
  end.

(** ** Memory and disk agree *)

(** What a restart would load from [fs] is what is in memory. *)
Definition in_sync (cs : ConsensusPromises) (fs : FS) : Prop :=
  exists n, Load cs fs true = (cs, Ok n).

Definition fresh_io (cs : ConsensusPromises) (fs : FS) (o : io) : Prop :=
  fresh_tmp fs (promisesFilePath cs) o.

End promises.

Section promise_facts.
  Context `{R : Runtime} `{!RuntimeLaws R} `{C : PromiseCodec} `{!PromiseCodecLaws C}.

Lemma in_sync_loaded cs fs : in_sync cs fs -> revocation cs <> None.
Proof.
  intros [n H]. unfold Load in H. destruct (readPromisesFromDisk _ _ _); [|done].
  injection H as H _. rewrite <- H. cbn. by case_match.
Qed.

(** A write to the promises file is all or nothing. *)
Lemma persistLocked_cases cs fs rev floor o fs' r :
  fresh_io cs fs o -> persistLocked cs fs rev floor o = (fs', r) ->
  let rev' := match rev with None => revocation cs | _ => rev end in
  let floor' := match floor with None => recruitBlockedUntil cs | _ => floor end in
  let unchanged := files fs' !! promisesFilePath cs = files fs !! promisesFilePath cs in
  let written := exists data, files fs' !! promisesFilePath cs = Some data /\
    Unmarshal data = Some (mkConsensusPromisesMsg rev' floor') in
  match r with
  | Returned None => written
  | Returned (Some _) => unchanged
  | Crashed => unchanged \/ written
  end.
Proof.
  intros Hf Hp. unfold persistLocked, writePromisesToDisk in Hp. cbv zeta.
  destruct (Marshal _) as [data|] eqn:Hm; [|by injection Hp as <- <-].
  apply Unmarshal_Marshal in Hm. destruct (AtomicWriteFile _ _ _ _) as [fs1 r1] eqn:Hw.
  pose proof (AtomicWriteFile_replaced _ _ data _ Hf) as Hrep. rewrite Hw in Hrep.
  unfold replaced_or_kept in Hrep. cbn in Hrep. destruct Hf as [Hne _].
  destruct r1 as [[e|]|]; injection Hp as <- <-; cbn.
  - by rewrite Hrep.
  - exists data. by rewrite Hrep, lookup_insert_eq.
  - destruct Hrep as (x & [H|[H|H]]); rewrite H.
    + left. by rewrite lookup_insert_ne.
    + by left.
    + right. exists data. by rewrite lookup_insert_eq.
Qed.

Lemma Load_of cs fs data rev floor :
  files fs !! promisesFilePath cs = Some data ->
  Unmarshal data = Some (mkConsensusPromisesMsg (Some rev) floor) ->
  Load cs fs true = (set_floor (set_revocation cs (Some rev)) floor, Ok (RevokedBelowTerm rev)).
Proof. intros Hd Hu. unfold Load, readPromisesFromDisk. by rewrite Hd, Hu. Qed.

Lemma Load_unchanged cs fs fs' :
  files fs' !! promisesFilePath cs = files fs !! promisesFilePath cs ->
  Load cs fs' true = Load cs fs true.
Proof. intros H. unfold Load, readPromisesFromDisk. by rewrite H. Qed.

Lemma set_floor_id cs : set_floor cs (recruitBlockedUntil cs) = cs.
Proof. by destruct cs. Qed.

(** What [AcceptRevocation] does to memory and disk, outcome by outcome. *)
Lemma AcceptRevocation_cases cs fs fl ctx status rev o cs' fs' r :
  in_sync cs fs -> fresh_io cs fs o ->
  AcceptRevocation cs fs fl ctx status rev o = (cs', fs', r) ->
  match r with
  | Returned None =>
      AssertActionLockHeld fl ctx = None /\ GetTermRevocation status = revocation cs /\
      ValidateRevocation status rev = None /\ cs' = set_revocation cs rev /\ in_sync cs' fs'
  | Returned (Some _) => cs' = cs /\ in_sync cs fs'
  | Crashed => cs' = cs /\
      (in_sync cs fs' \/
       GetTermRevocation status = revocation cs /\ ValidateRevocation status rev = None /\
       in_sync (set_revocation cs rev) fs')
  end.
Proof.
  intros Hsync Hf. unfold AcceptRevocation.
  destruct (AssertActionLockHeld fl ctx) eqn:Hl; [by intros [= <- <- <-]|].
  destruct (proto_equal _ _) eqn:Heq; [|by intros [= <- <- <-]]. apply proto_equal_spec in Heq. cbn [negb].
  destruct (ValidateRevocation status rev) eqn:Hv; [by intros [= <- <- <-]|].
  pose proof Hv as Hacc. apply ValidateRevocation_None in Hacc as [Hrev _ _ _ _ _ _ _ _].
  destruct rev as [tr|]; [|done]. unfold saveAndUpdateLocked.
  destruct (persistLocked _ _ _ _ _) as [fs1 r1] eqn:Hp.
  pose proof (persistLocked_cases _ _ _ _ _ _ _ Hf Hp) as Hc. cbv zeta in Hc.
  assert (files fs1 !! promisesFilePath cs = files fs !! promisesFilePath cs -> in_sync cs fs1) as Hsame.
  { intros H. destruct Hsync as [n Hn]. exists n. by rewrite (Load_unchanged _ fs). }
  assert ((exists data, files fs1 !! promisesFilePath cs = Some data /\
    Unmarshal data = Some (mkConsensusPromisesMsg (Some tr) (recruitBlockedUntil cs))) ->
    in_sync (set_revocation cs (Some tr)) fs1) as Hnew.
  { intros (data & Hd & Hu). eexists. by apply (Load_of (set_revocation cs (Some tr)) _ data). }
  destruct r1 as [[e|]|]; intros [= <- <- <-]; [auto|by auto 6|]. split; [done|]. destruct Hc; auto 6.
Qed.

Lemma SetRecruitBlockedUntil_cases cs fs fl ctx pos o cs' fs' r :
  in_sync cs fs -> fresh_io cs fs o -> pos <> None ->
  SetRecruitBlockedUntil cs fs fl ctx pos o = (cs', fs', r) ->
  revocation cs' = revocation cs /\
  match r with
  | Returned None => cs' = set_floor cs pos /\ in_sync cs' fs'
  | Returned (Some _) => cs' = cs /\ in_sync cs fs'
  | Crashed => cs' = cs /\ (in_sync cs fs' \/ in_sync (set_floor cs pos) fs')
  end.
Proof.
  intros Hsync Hf Hpos. unfold SetRecruitBlockedUntil.
  destruct (AssertActionLockHeld fl ctx); [by intros [= <- <- <-]|].
  destruct pos as [p|]; [|done]. pose proof (in_sync_loaded _ _ Hsync) as Hr.
  destruct (revocation cs) as [tr|] eqn:Hrev; [|done].
  destruct (persistLocked _ _ _ _ _) as [fs1 r1] eqn:Hp.
  pose proof (persistLocked_cases _ _ _ _ _ _ _ Hf Hp) as Hc. cbv zeta in Hc. rewrite Hrev in Hc.
  assert (files fs1 !! promisesFilePath cs = files fs !! promisesFilePath cs -> in_sync cs fs1) as Hsame.
  { intros H. destruct Hsync as [n Hn]. exists n. by rewrite (Load_unchanged _ fs). }
  assert ((exists data, files fs1 !! promisesFilePath cs = Some data /\
    Unmarshal data = Some (mkConsensusPromisesMsg (Some tr) (Some p))) ->
    in_sync (set_floor cs (Some p)) fs1) as Hnew.
  { intros (data & Hd & Hu). eexists. rewrite (Load_of (set_floor cs (Some p)) _ data tr (Some p) Hd Hu).
    unfold set_floor, set_revocation. cbn. by rewrite Hrev. }
  destruct r1 as [[e|]|]; intros [= <- <- <-]; [auto|by auto|]. split; [done|]. destruct Hc; auto.
Qed.

(** Accepting a revocation is durable or has no effect.  Starting with memory
    and disk in agreement: on success the revocation was acceptable and is both
    in memory and what a restart reads back; on an error memory and disk are as
    before; and if the process dies inside the call, a restart finds either the
    old promise or the new one, never a third. *)
Theorem AcceptRevocation_durable cs fs fl ctx status rev o cs' fs' r :
  in_sync cs fs -> fresh_io cs fs o ->
  AcceptRevocation cs fs fl ctx status rev o = (cs', fs', r) ->
  match r with
  | Returned None =>
      acceptable status rev /\ GetTermRevocation status = revocation cs /\
      revocation cs' = rev /\ recruitBlockedUntil cs' = recruitBlockedUntil cs /\ in_sync cs' fs'
  | Returned (Some _) => cs' = cs /\ in_sync cs fs'
  | Crashed => in_sync cs fs' \/ (acceptable status rev /\ in_sync (set_revocation cs rev) fs')
  end.
Proof.
  intros Hs Hf Ha. pose proof (AcceptRevocation_cases _ _ _ _ _ _ _ _ _ _ Hs Hf Ha) as H.
  destruct r as [[e|]|]; [done| |].
  - destruct H as (_ & ? & ? & -> & ?). by rewrite <- ValidateRevocation_None.
  - destruct H as (_ & [?|(_ & ? & ?)]); [by left|]. right. by rewrite <- ValidateRevocation_None.
Qed.

(** ** A pooler's life *)

(** One pooler: its promises in memory and its disk. *)
Abbreviation Node := (ConsensusPromises * FS)%type.

Inductive node_step : Node -> Node -> Prop :=
| node_accept cs fs fl ctx status rev o cs' fs' e :
    fresh_io cs fs o ->
    AcceptRevocation cs fs fl ctx status rev o = (cs', fs', Returned e) ->
    node_step (cs, fs) (cs', fs')
| node_floor cs fs fl ctx pos o cs' fs' e :
    fresh_io cs fs o -> pos <> None ->
    SetRecruitBlockedUntil cs fs fl ctx pos o = (cs', fs', Returned e) ->
    node_step (cs, fs) (cs', fs')
| node_crash_accept cs fs fl ctx status rev o cs' fs' cs'' n :
    fresh_io cs fs o ->
    AcceptRevocation cs fs fl ctx status rev o = (cs', fs', Crashed) ->
    Load (NewConsensusPromises (poolerDir cs) (serviceID cs)) fs' true = (cs'', Ok n) ->
    node_step (cs, fs) (cs'', fs')
| node_crash_floor cs fs fl ctx pos o cs' fs' cs'' n :
    fresh_io cs fs o -> pos <> None ->
    SetRecruitBlockedUntil cs fs fl ctx pos o = (cs', fs', Crashed) ->
    Load (NewConsensusPromises (poolerDir cs) (serviceID cs)) fs' true = (cs'', Ok n) ->
    node_step (cs, fs) (cs'', fs')
| node_restart cs fs cs'' n :
    Load (NewConsensusPromises (poolerDir cs) (serviceID cs)) fs true = (cs'', Ok n) ->
    node_step (cs, fs) (cs'', fs).

(** A restart loads exactly what was in sync with the disk. *)
Lemma Load_restart cs cs'' fs n :
  in_sync cs fs ->
  Load (NewConsensusPromises (poolerDir cs) (serviceID cs)) fs true = (cs'', Ok n) -> cs'' = cs.
Proof.
  intros [m Hm]. unfold Load in *.
  change (readPromisesFromDisk (NewConsensusPromises (poolerDir cs) (serviceID cs)) fs true)
    with (readPromisesFromDisk cs fs true).
  destruct (readPromisesFromDisk cs fs true) as [file|]; [|done].
  intros [= <- _]. injection Hm as Hm _. destruct cs. by injection Hm as -> ->.
Qed.

Lemma node_step_cases cs fs cs' fs' :
  node_step (cs, fs) (cs', fs') -> in_sync cs fs ->
  in_sync cs' fs' /\
  (revocation cs' = revocation cs \/
   exists status, GetTermRevocation status = revocation cs /\
     ValidateRevocation status (revocation cs') = None).
Proof.
  intros Hstep Hs. inversion Hstep; subst.
  - pose proof (AcceptRevocation_cases _ _ _ _ _ _ _ _ _ _ Hs ltac:(eassumption) ltac:(eassumption)) as H.
    destruct e; [destruct H as [-> ?]; auto|]. destruct H as (_ & ? & ? & -> & ?). split; [done|]. right. eauto.
  - pose proof (SetRecruitBlockedUntil_cases _ _ _ _ _ _ _ _ _ Hs ltac:(eassumption) ltac:(eassumption)
      ltac:(eassumption)) as [? H]. destruct e; destruct H as [-> ?]; auto.
  - pose proof (AcceptRevocation_cases _ _ _ _ _ _ _ _ _ _ Hs ltac:(eassumption) ltac:(eassumption)) as H.
    destruct H as (-> & [Hk|(? & ? & Hk)]).
    + pose proof (Load_restart _ _ _ _ Hk ltac:(eassumption)) as ->. auto.
    + pose proof (Load_restart _ _ _ _ Hk ltac:(eassumption)) as ->. split; [done|]. right. eauto.
  - pose proof (SetRecruitBlockedUntil_cases _ _ _ _ _ _ _ _ _ Hs ltac:(eassumption) ltac:(eassumption)
      ltac:(eassumption)) as [_ H]. destruct H as (-> & [Hk|Hk]);
      (pose proof (Load_restart _ _ _ _ Hk ltac:(eassumption)) as ->); auto.
  - pose proof (Load_restart _ _ _ _ Hs ltac:(eassumption)) as ->. auto.
Qed.

Lemma extends_stored_refl r : extends_stored r r.
Proof. intros _. split_and!; [lia| |done]. rewrite (cmp_refl CompareRuleNumbers). lia. Qed.

Lemma extends_stored_trans a b c :
  b <> None -> extends_stored a b -> extends_stored b c -> extends_stored a c.
Proof.
  intros Hb H1 H2 Ha. destruct (H1 Ha) as (? & ? & He1), (H2 Hb) as (? & ? & He2).
  split_and!; [lia|by eapply cmp_trans|]. intros Heq.
  destruct (He1 ltac:(lia)) as [-> ->]. apply He2. lia.
Qed.

Lemma node_step_extends cs fs cs' fs' :
  node_step (cs, fs) (cs', fs') -> in_sync cs fs ->
  in_sync cs' fs' /\ extends_stored (revocation cs) (revocation cs').
Proof.
  intros Hstep Hs. destruct (node_step_cases _ _ _ _ Hstep Hs) as [? [->|(status & <- & Hv)]];
    (split; [done|]); [apply extends_stored_refl|]. by apply ValidateRevocation_None in Hv as [].
Qed.

Lemma node_steps_extend n n' :
  rtc node_step n n' -> in_sync n.1 n.2 ->
  in_sync n'.1 n'.2 /\ extends_stored (revocation n.1) (revocation n'.1).
Proof.
  induction 1 as [[cs fs]|[cs fs] [cs1 fs1] [cs2 fs2] Hstep _ IH]; intros Hs; cbn in *.
  { split; [done|apply extends_stored_refl]. }
  destruct (node_step_extends _ _ _ _ Hstep Hs) as [Hs1 He]. destruct (IH Hs1) as [? He2].
  split; [done|]. eapply extends_stored_trans; [|done|done]. by apply in_sync_loaded in Hs1.
Qed.

(** C6: A pooler's promise never goes back.  Over any sequence of accepted and
    refused revocations, floor updates, failed writes, deaths in the middle of a
    write and restarts, memory agrees with disk, the revoked term and the
    outgoing rule only grow, and as long as the term is the same it belongs to
    the same coordinator and the same recruitment round. *)
Theorem promises_only_grow cs fs cs' fs' :
  in_sync cs fs -> rtc node_step (cs, fs) (cs', fs') ->
  in_sync cs' fs' /\
  GetRevokedBelowTerm (revocation cs) <= GetRevokedBelowTerm (revocation cs') /\
  CompareRuleNumbers (GetOutgoingRule (revocation cs)) (GetOutgoingRule (revocation cs')) <= 0 /\
  (GetRevokedBelowTerm (revocation cs) = GetRevokedBelowTerm (revocation cs') ->
   ClusterIDString (GetAcceptedCoordinatorId (revocation cs)) =
     ClusterIDString (GetAcceptedCoordinatorId (revocation cs')) /\
   GetCoordinatorInitiatedAt (revocation cs) = GetCoordinatorInitiatedAt (revocation cs')).
Proof.
  intros Hs Hsteps. destruct (node_steps_extend _ _ Hsteps Hs) as [? He]. cbn in *.
  split; [done|]. apply He. by apply in_sync_loaded in Hs.
Qed.

End promise_facts.

(** ** Witnesses *)

Definition demo_promise (rev : option TermRevocation) : ConsensusPromisesMsg := mkConsensusPromisesMsg rev None.
Definition demo_floor (lsn : string) : option LsnPosition :=
  Some (mkLsnPosition (Some (mkRuleNumberPositionMsg (rn 1 0) None)) lsn).
Definition demo_floored (lsn : string) : ConsensusPromisesMsg :=
  mkConsensusPromisesMsg (Some zero_revocation) (demo_floor lsn).

(** The messages the demonstration codec can write, by name; it refuses the rest. *)
Definition demo_table : list (string * ConsensusPromisesMsg) :=
  [("two", demo_promise (demo_revocation 2 (rn 1 0)));
   ("three", demo_promise (demo_revocation 3 (rn 1 0)));
   ("high", demo_floored "0/20"); ("low", demo_floored "0/10")]%string.

#[export] Instance demo_codec : PromiseCodec := {
  Marshal m := fst <$> List.find (fun e => bool_decide (e.2 = m)) demo_table;
  Unmarshal s := snd <$> List.find (fun e => String.eqb e.1 s) demo_table
}.

#[export] Instance demo_codec_laws : PromiseCodecLaws demo_codec.
Proof.
  split. intros m data. unfold Marshal, Unmarshal, demo_codec, demo_table. cbn [List.find fst snd].
  repeat (case_bool_decide; [subst; by intros [= <-]|]). done.
Qed.

Definition demo_held : Context_ := Some (mkActionLockValue 1 "Recruit" 0).
Definition demo_node (rev : option TermRevocation) : ConsensusPromises :=
  mkConsensusPromises "/data" p2 rev None.
Definition demo_recruit_status (rev : option TermRevocation) : option ConsensusStatus :=
  demo_status p2 rev (decided (demo_rule 1 p1 [p1; p2; p3] (at_least 2))) "0/10".
Definition empty_fs : FS := mkFS ∅ ∅.

(** The node after accepting term 2 from a fresh disk. *)
Definition demo_accepted : ConsensusPromises * FS * outcome (option gerror) :=
  AcceptRevocation (demo_node (Some zero_revocation)) empty_fs [false] demo_held
    (demo_recruit_status (Some zero_revocation)) (demo_revocation 2 (rn 1 0)) (good_io ".tmp-1").

Lemma demo_in_sync : in_sync (demo_node (Some zero_revocation)) empty_fs.
Proof. eexists. vm_compute. reflexivity. Qed.

Lemma demo_fresh : fresh_io (demo_node (Some zero_revocation)) empty_fs (good_io ".tmp-1").
Proof. split; [discriminate|reflexivity]. Qed.

Lemma demo_accepted_eq :
  demo_accepted = (fst (fst demo_accepted), snd (fst demo_accepted), Returned None).
Proof. reflexivity. Qed.

Lemma AcceptRevocation_durable_witness :
  snd demo_accepted = Returned None /\
  revocation (fst (fst demo_accepted)) = demo_revocation 2 (rn 1 0) /\
  in_sync (fst (fst demo_accepted)) (snd (fst demo_accepted)).
Proof.
  split; [vm_compute; reflexivity|].
  pose proof (AcceptRevocation_durable _ _ _ _ _ _ _ _ _ _ demo_in_sync demo_fresh demo_accepted_eq)
    as (_ & _ & ? & _ & ?). auto.
Defined.

Lemma promises_only_grow_witness :
  in_sync (fst (fst demo_accepted)) (snd (fst demo_accepted)) /\
  0 <= GetRevokedBelowTerm (revocation (fst (fst demo_accepted))).
Proof.
  pose proof (promises_only_grow _ _ (fst (fst demo_accepted)) (snd (fst demo_accepted)) demo_in_sync) as H.
  destruct H as (? & ? & _); [|auto]. apply rtc_once.
  refine (node_accept _ _ [false] demo_held (demo_recruit_status (Some zero_revocation))
    (demo_revocation 2 (rn 1 0)) (good_io ".tmp-1") _ _ None demo_fresh _). reflexivity.
Defined.
