(* ===== verification/Backoff.v ===== *)
(** go/tools/retry/backoff.go, go/tools/retry/retry.go's use of it through
    [ExponentialBackoff], and go/common/ha/backoff.go: exponential delays on
    64-bit durations, with random and with hashed jitter. *)

From stdpp Require Import base strings list pretty.
From Stdlib Require Import Ascii.
From S2P Require Import Prelude ClusterMetadata Demo.

Local Open Scope Z_scope.

(** ** go/tools/retry *)

Definition ExponentialBackoffMagnitude (baseDelay maxDelay attempt : Z) : Z :=
  let multiplier := Z.shiftl 1 (Z.min (Z.max attempt 0) 62) in
  let baseDelayInt := baseDelay in
  if (0 <? baseDelayInt) && (int64_max / baseDelayInt <? multiplier) then maxDelay
  else Z.min (wrap64 (baseDelayInt * multiplier)) maxDelay.

Record exponentialFullJitterBackoff := mkBackoff {
  baseDelay : Z;
  maxDelay : Z;
  disableJitter : bool;
  attempt : Z
}.

Definition newExponentialFullJitterBackoff (base max : Z) : exponentialFullJitterBackoff :=
  mkBackoff base max false 0.

Definition newExponentialBackoffNoJitter (base max : Z) : exponentialFullJitterBackoff :=
  mkBackoff base max true 0.

(** [draw d] is [time.Duration(float64(d) * e.rng.Float64())] for this call's
    draw. *)
Definition nextDelay (e : exponentialFullJitterBackoff) (draw : Z -> Z)
    : Z * exponentialFullJitterBackoff :=
  let delay := ExponentialBackoffMagnitude (baseDelay e) (maxDelay e) (attempt e) in
  let delay := if negb (disableJitter e) then draw delay else delay in
  (delay, mkBackoff (baseDelay e) (maxDelay e) (disableJitter e) (wrap64 (attempt e + 1))).

Definition reset (e : exponentialFullJitterBackoff) : exponentialFullJitterBackoff :=
  mkBackoff (baseDelay e) (maxDelay e) (disableJitter e) 0.

(** The exported wrapper. *)
Definition ExponentialBackoff : Type := exponentialFullJitterBackoff.
Definition NewExponentialBackoff (base max : Z) : ExponentialBackoff := newExponentialFullJitterBackoff base max.
Definition NextDelay (b : ExponentialBackoff) (draw : Z -> Z) : Z * ExponentialBackoff := nextDelay b draw.
Definition Reset (b : ExponentialBackoff) : ExponentialBackoff := reset b.

(** ** go/common/ha *)

(** [JitterWindow base] stands for [time.Duration(float64(base) *
    s.JitterFraction)]. *)
Record BackoffSchedule := mkBackoffSchedule {
  Base : Z;
  Max : Z;
  JitterWindow : Z -> Z
}.

Definition second : Z := 1000000000.
Definition minute : Z := 60 * second.

(** A quarter of the delay, exact on the durations the schedule produces. *)
Definition DefaultBackoffSchedule : BackoffSchedule :=
  mkBackoffSchedule (10 * second) (5 * minute) (fun base => base / 4).

Definition DefaultBackoffResetDuration : Z := 30 * minute.

(** 64-bit FNV-1a of a string, from hash/fnv. *)
Definition fnv_offset : Z := 14695981039346656037.
Definition fnv_prime : Z := 1099511628211.

Fixpoint fnv64a (h : Z) (s : string) : Z :=
  match s with
  | EmptyString => h
  | String c s' => fnv64a (wrapu64 (Z.lxor h (Z.of_N (N_of_ascii c)) * fnv_prime)) s'
  end.

Definition component_number (c : ComponentType) : Z :=
  match c with
  | UNKNOWN => 0 | MULTIPOOLER => 1 | MULTIGATEWAY => 2 | MULTIORCH => 3
  | COMPONENT_UNNAMED wire => wire
  end.

Definition jitter_text (orchID : option ID) (replaceDecision : option RuleNumber) (attempt : Z) : string :=
  pretty (component_number (GetComponent orchID)) +:+ "/" +:+ GetCell orchID +:+ "/" +:+
  GetName orchID +:+ "/" +:+ pretty (GetCoordinatorTerm replaceDecision) +:+ "." +:+
  pretty (GetLeaderSubterm replaceDecision) +:+ "/" +:+ pretty attempt.

Definition jitter (s : BackoffSchedule) (orchID : option ID) (replaceDecision : option RuleNumber)
    (attempt base : Z) : Z :=
  let window := JitterWindow s base in
  if window <=? 0 then 0
  else fnv64a fnv_offset (jitter_text orchID replaceDecision attempt) mod window.

Definition backoff (s : BackoffSchedule) (attempt : Z) : Z :=
  let max := if Max s <=? 0 then int64_max else Max s in
  ExponentialBackoffMagnitude (Base s) max (wrap64 (attempt - 1)).

Definition NextAttempt `{R : Runtime} (s : BackoffSchedule) (rev : option TermRevocation)
    (orchID : option ID) : Z :=
  let intent := GetRecruitIntent rev in
  let attempt := Z.max (GetAttempt intent) 1 in
  let base := backoff s attempt in
  let delay := wrap64 (base + jitter s orchID (GetReplaceDecision intent) attempt base) in
  let delay := if delay <? base then int64_max else delay in
  AsTime (GetCoordinatorInitiatedAt rev) + delay.

(** ** Bounds *)

Lemma multiplier_pow attempt :
  Z.shiftl 1 (Z.min (Z.max attempt 0) 62) = 2 ^ Z.min (Z.max attempt 0) 62.
Proof. rewrite Z.shiftl_mul_pow2 by lia. lia. Qed.

Lemma multiplier_bounds attempt : 1 <= 2 ^ Z.min (Z.max attempt 0) 62 <= 2 ^ 62.
Proof.
  split; [apply (Z.pow_le_mono_r 2 0); lia|apply Z.pow_le_mono_r; lia].
Qed.

(** The overflow test and the clamp together compute the exact minimum. *)
Lemma ExponentialBackoffMagnitude_eq base max attempt :
  0 <= base <= int64_max -> max <= int64_max ->
  ExponentialBackoffMagnitude base max attempt = Z.min (base * 2 ^ Z.min (Z.max attempt 0) 62) max.
Proof.
  intros Hb Hm. unfold ExponentialBackoffMagnitude. rewrite multiplier_pow.
  pose proof (multiplier_bounds attempt) as Hp. set (m := 2 ^ _) in *.
  destruct ((0 <? base) && _) eqn:E; reflect_bools.
  - assert (int64_max < base * m); [|lia].
    pose proof (Z.div_mod int64_max base ltac:(lia)). pose proof (Z.mod_pos_bound int64_max base ltac:(lia)). nia.
  - f_equal. apply wrap64_id. unfold in_int64, int64_min. split; [nia|].
    apply andb_false_iff in E as [E|E]; reflect_bools; [nia|].
    pose proof (Z.mul_div_le int64_max base). destruct (Z.eq_dec base 0); [subst; unfold int64_max; lia|nia].
Qed.

(** The overflow-protected magnitude is exactly [min(base * 2^attempt,
    max)], the exponent clamped to 0..62, for every duration and attempt number;
    so it stays between the two delays and never shrinks from one attempt to
    the next. *)
Theorem backoff_magnitude_exact base max attempt :
  0 <= base <= int64_max -> 0 <= max <= int64_max ->
  let delay := ExponentialBackoffMagnitude base max attempt in
  delay = Z.min (base * 2 ^ Z.min (Z.max attempt 0) 62) max /\
  Z.min base max <= delay <= max /\
  forall later, attempt <= later -> delay <= ExponentialBackoffMagnitude base max later.
Proof.
  intros Hb Hm delay. subst delay. pose proof (multiplier_bounds attempt).
  rewrite ExponentialBackoffMagnitude_eq by lia. split_and!; [done|nia|nia|].
  intros later Hl. rewrite ExponentialBackoffMagnitude_eq by lia.
  assert (2 ^ Z.min (Z.max attempt 0) 62 <= 2 ^ Z.min (Z.max later 0) 62) by (apply Z.pow_le_mono_r; lia).
  nia.
Qed.

Lemma backoff_magnitude_exact_witness :
  ExponentialBackoffMagnitude (10 * second) (5 * minute) 3 = 80 * second.
Proof.
  rewrite (proj1 (backoff_magnitude_exact (10 * second) (5 * minute) 3
    ltac:(vm_compute; split; discriminate) ltac:(vm_compute; split; discriminate))). reflexivity.
Defined.

Lemma backoff_range s attempt :
  0 <= Base s <= int64_max -> Max s <= int64_max -> 0 <= backoff s attempt <= int64_max.
Proof.
  intros Hb Hm. unfold backoff. pose proof (multiplier_bounds (wrap64 (attempt - 1))).
  assert (0 < int64_max) by done. destruct (Max s <=? 0) eqn:E; reflect_bools;
    rewrite ExponentialBackoffMagnitude_eq by lia; nia.
Qed.

Lemma fnv64a_nonneg h t : 0 <= h -> 0 <= fnv64a h t.
Proof.
  revert h. induction t as [|c t IH]; intros h Hh; cbn; [done|]. apply IH.
  unfold wrapu64. apply Z.mod_pos_bound. lia.
Qed.

Lemma jitter_range s orch dec attempt base :
  0 <= jitter s orch dec attempt base /\
  (0 < JitterWindow s base -> jitter s orch dec attempt base < JitterWindow s base) /\
  (JitterWindow s base <= 0 -> jitter s orch dec attempt base = 0).
Proof.
  unfold jitter. destruct (_ <=? 0) eqn:E; reflect_bools; [split_and!; lia|].
  pose proof (Z.mod_pos_bound (fnv64a fnv_offset (jitter_text orch dec attempt)) (JitterWindow s base) E).
  split_and!; lia.
Qed.

Section next_attempt.
  Context `{R : Runtime}.

Lemma NextAttempt_bounds s rev orch :
  0 <= Base s <= int64_max -> Max s <= int64_max ->
  (forall base, JitterWindow s base <= int64_max) ->
  let intent := GetRecruitIntent rev in
  let base := backoff s (Z.max (GetAttempt intent) 1) in
  let wait := NextAttempt s rev orch - AsTime (GetCoordinatorInitiatedAt rev) in
  0 <= base <= wait /\ wait <= int64_max /\
  (base + JitterWindow s base <= int64_max -> wait < base + Z.max 1 (JitterWindow s base)).
Proof.
  intros Hb Hm Hw intent base wait. subst wait. unfold NextAttempt. fold intent. fold base.
  pose proof (backoff_range s (Z.max (GetAttempt intent) 1) Hb Hm) as Hr. fold base in Hr.
  set (att := Z.max (GetAttempt intent) 1).
  destruct (jitter_range s orch (GetReplaceDecision intent) att base) as (Hj & Hj1 & Hj2).
  set (j := jitter s orch (GetReplaceDecision intent) att base) in *. specialize (Hw base).
  assert (j <= int64_max) as Hjm.
  { destruct (Z_le_gt_dec (JitterWindow s base) 0); [rewrite Hj2 by done; unfold int64_max; lia|lia]. }
  replace (AsTime _ + _ - AsTime _) with
    (if wrap64 (base + j) <? base then int64_max else wrap64 (base + j)) by lia.
  destruct (Z_le_gt_dec (base + j) int64_max) as [Hfit|Hover].
  - rewrite wrap64_id by (unfold in_int64, int64_min; lia).
    assert ((base + j <? base) = false) as -> by (apply Z.ltb_ge; lia). split_and!; [lia..|].
    intros _. destruct (Z_le_gt_dec (JitterWindow s base) 0); [rewrite Hj2 by done|]; lia.
  - assert (wrap64 (base + j) < 0) as Hneg.
    { unfold wrap64. unfold int64_max in *.
      assert ((base + j + 2 ^ 63) mod 2 ^ 64 = base + j + 2 ^ 63 - 2 ^ 64) as ->; [|lia].
      symmetry. apply (Z.mod_unique _ _ 1); lia. }
    assert ((wrap64 (base + j) <? base) = true) as -> by (apply Z.ltb_lt; lia).
    split_and!; [lia..|]. intros Hfit. destruct (Z_le_gt_dec (JitterWindow s base) 0); [rewrite Hj2 in Hover by done|]; lia.
Qed.

(** No coordinator retries early.  Whatever the schedule, the attempt count
    and the caller, the next attempt is at least the full exponential delay after
    the observed round and, while the jittered delay fits in 64 bits, less than
    one jitter window later; a delay that does not fit saturates instead of
    wrapping into the past. *)
Theorem next_attempt_within_window s rev orch :
  0 <= Base s <= int64_max -> Max s <= int64_max ->
  (forall base, JitterWindow s base <= int64_max) ->
  let intent := GetRecruitIntent rev in
  let base := backoff s (Z.max (GetAttempt intent) 1) in
  let wait := NextAttempt s rev orch - AsTime (GetCoordinatorInitiatedAt rev) in
  0 <= base <= wait /\ wait <= int64_max /\
  (base + JitterWindow s base <= int64_max -> wait < base + Z.max 1 (JitterWindow s base)).
Proof. apply NextAttempt_bounds. Qed.
End next_attempt.

Lemma next_attempt_within_window_witness :
  let rev := Some (mkTermRevocation 5 orch1 (ts 1000) (rn 4 0) (Some (mkRecruitIntent (rn 4 0) 3))) in
  40 * second <= NextAttempt (mkBackoffSchedule (10 * second) (5 * minute) (fun _ => 10 * second)) rev orch1
                 - AsTime (ts 1000).
Proof.
  intros rev.
  pose proof (next_attempt_within_window
    (mkBackoffSchedule (10 * second) (5 * minute) (fun _ => 10 * second)) rev orch1
    ltac:(vm_compute; split; discriminate) ltac:(vm_compute; discriminate)
    ltac:(intros; vm_compute; discriminate)) as [[_ H] _]. exact H.
Defined.

Example jitter_example :
  jitter DefaultBackoffSchedule orch1 (rn 4 0) 3 (40 * second) <>
  jitter DefaultBackoffSchedule orch2 (rn 4 0) 3 (40 * second).
Proof. vm_compute. discriminate. Qed.
