(* ===== verification/ConsensusManager.v ===== *)
(** go/services/multipooler/internal/manager/consensus/manager.go: one pooler's
    consensus state and the status it publishes.

    The rule store is what the pooler reads from its own Postgres; the methods
    that read it take what it returned.  The clock and the random draws are
    arguments. *)

From stdpp Require Import gmap strings list relations.
From S2P Require Import Prelude ClusterMetadata Demo TopoId Ordering Compare Revocation.
From S2P Require Import PoolerRole ActionLock AtomicFile Promises Backoff.

Local Open Scope Z_scope.

(** go/services/multipooler/internal/pgmode/mode.go. *)
Inductive Mode := ModeUnknown | ModePrimary | ModeInRecovery.

Definition OutOfRecovery (m : Mode) : bool :=
  match m with ModePrimary => true | _ => false end.

Inductive LeaderRecoveryAction :=
| LeaderRecoveryActionNone | LeaderRecoveryActionResign | LeaderRecoveryActionSelfPromote.

Definition COHORT_ELIGIBILITY_SIGNAL_ELIGIBLE : Z := 1.
Definition COHORT_ELIGIBILITY_SIGNAL_INELIGIBLE : Z := 2.

Record LeadershipStatus_ := mkLeadershipStatus { LeaderTerm : Z; Signal : Z }.
Definition LEADERSHIP_SIGNAL_REQUESTING_DEMOTION : Z := 1.

(** Times are nanoseconds; the zero [time.Time] is [None].  [broadcasts] counts
    the snapshots pushed through the injected broadcaster. *)
Record ConsensusManager := mkConsensusManager {
  cm_id : option ID;
  promises : ConsensusPromises;
  staticLeader : bool;
  has_broadcaster : bool;
  replicationPrimary : option ReplicationPrimary;
  leaderObservedAt : option Z;
  rewindWaitEmittedFor : option Z;
  resignedLeaderAtTerm : Z;
  cohortEligibility : Z;
  suspectedDivergence : bool;
  rewindBackoff : option ExponentialBackoff;
  rewindReadyAt : option Z;
  broadcasts : nat
}.

Definition newConsensusManager (id : option ID) (p : ConsensusPromises) (broadcaster : bool)
    : ConsensusManager :=
  mkConsensusManager id p false broadcaster None None None 0 COHORT_ELIGIBILITY_SIGNAL_ELIGIBLE
    false None None 0.

Definition set_staticLeader (cm : ConsensusManager) (b : bool) : ConsensusManager :=
  mkConsensusManager (cm_id cm) (promises cm) b (has_broadcaster cm) (replicationPrimary cm)
    (leaderObservedAt cm) (rewindWaitEmittedFor cm) (resignedLeaderAtTerm cm) (cohortEligibility cm)
    (suspectedDivergence cm) (rewindBackoff cm) (rewindReadyAt cm) (broadcasts cm).

Definition set_primary (cm : ConsensusManager) (rp : option ReplicationPrimary) (at_ : option Z)
    : ConsensusManager :=
  mkConsensusManager (cm_id cm) (promises cm) (staticLeader cm) (has_broadcaster cm) rp at_
    (rewindWaitEmittedFor cm) (resignedLeaderAtTerm cm) (cohortEligibility cm)
    (suspectedDivergence cm) (rewindBackoff cm) (rewindReadyAt cm) (broadcasts cm).

Definition set_signals (cm : ConsensusManager) (resigned eligibility : Z) (diverged : bool)
    : ConsensusManager :=
  mkConsensusManager (cm_id cm) (promises cm) (staticLeader cm) (has_broadcaster cm)
    (replicationPrimary cm) (leaderObservedAt cm) (rewindWaitEmittedFor cm) resigned eligibility
    diverged (rewindBackoff cm) (rewindReadyAt cm) (broadcasts cm).

Definition set_rewind (cm : ConsensusManager) (b : option ExponentialBackoff) (ready emitted : option Z)
    : ConsensusManager :=
  mkConsensusManager (cm_id cm) (promises cm) (staticLeader cm) (has_broadcaster cm)
    (replicationPrimary cm) (leaderObservedAt cm) emitted (resignedLeaderAtTerm cm)
    (cohortEligibility cm) (suspectedDivergence cm) b ready (broadcasts cm).

Definition set_promises (cm : ConsensusManager) (p : ConsensusPromises) : ConsensusManager :=
  mkConsensusManager (cm_id cm) p (staticLeader cm) (has_broadcaster cm)
    (replicationPrimary cm) (leaderObservedAt cm) (rewindWaitEmittedFor cm) (resignedLeaderAtTerm cm)
    (cohortEligibility cm) (suspectedDivergence cm) (rewindBackoff cm) (rewindReadyAt cm) (broadcasts cm).

Definition broadcast (cm : ConsensusManager) : ConsensusManager :=
  mkConsensusManager (cm_id cm) (promises cm) (staticLeader cm) (has_broadcaster cm)
    (replicationPrimary cm) (leaderObservedAt cm) (rewindWaitEmittedFor cm) (resignedLeaderAtTerm cm)
    (cohortEligibility cm) (suspectedDivergence cm) (rewindBackoff cm) (rewindReadyAt cm)
    (if has_broadcaster cm then S (broadcasts cm) else broadcasts cm).

Definition rewindBackoffMin : Z := 5 * second.
Definition rewindBackoffMax : Z := 5 * minute.

Definition StartsAsPrimary (cm : ConsensusManager) : bool := staticLeader cm.

Definition LeaderInRecoveryAction (cm : ConsensusManager) (mode : Mode) : LeaderRecoveryAction :=
  if staticLeader cm then
    match mode with
    | ModeInRecovery => LeaderRecoveryActionSelfPromote
    | _ => LeaderRecoveryActionNone
    end
  else if resignedLeaderAtTerm cm =? 0 then LeaderRecoveryActionResign
  else LeaderRecoveryActionNone.

Definition ResignGuard (cm : ConsensusManager) : option gerror :=
  if staticLeader cm then Some (err "cannot resign leadership: this pooler is a static leader") else None.

Definition staticLeaderStatus (id : option ID) : option ConsensusStatus :=
  Some {| cs_TermRevocation := None;
          CurrentPosition := Some {| pp_Position := Some {| pos_Decision := Some {|
              sr_RuleNumber := Some (mkRuleNumber 1 0); LeaderId := id; CohortMembers := [id];
              sr_DurabilityPolicy := None; CoordinatorId := None; CreationTime := None |};
            pos_Proposal := None |}; pp_Lsn := "" |};
          cs_ReplicationPrimary := None; cs_Id := id; RecruitBlockedUntil := None |}.

Definition statusReplicationPrimary (pos : option PoolerPosition) (rp : option ReplicationPrimary)
    : option ReplicationPrimary :=
  let ruleStorePosition := pp_GetPosition pos in
  let highestKnownPosition := rp_GetPosition rp in
  let rpcPrimary := GetPrimary rp in
  let highestRule := PossiblyUndecidedRule highestKnownPosition in
  let ruleStoreRule := PossiblyUndecidedRule ruleStorePosition in
  match ruleStoreRule, highestRule, rpcPrimary with
  | None, None, None => None
  | _, _, _ =>
      let position := if 0 <=? CompareRulePosition highestKnownPosition ruleStorePosition
                      then highestKnownPosition else ruleStorePosition in
      let rewindReady :=
        if bool_decide (highestRule <> None) && (0 <? GetCoordinatorTerm (GetRuleNumber highestRule)) &&
           (bool_decide (ruleStoreRule = None) ||
            (GetCoordinatorTerm (GetRuleNumber ruleStoreRule) <=?
             GetCoordinatorTerm (GetRuleNumber highestRule)))
        then GetRewindReady rp else false in
      Some {| rp_Position := position; rp_Primary := rpcPrimary; RewindReady := rewindReady |}
  end.

Definition LeadershipStatus (cm : ConsensusManager) : option LeadershipStatus_ :=
  if resignedLeaderAtTerm cm =? 0 then None
  else Some (mkLeadershipStatus (resignedLeaderAtTerm cm) LEADERSHIP_SIGNAL_REQUESTING_DEMOTION).

Definition ruleNamesCohortMember (rule : option ShardRule) (selfID : option ID) : bool :=
  existsb (fun member => String.eqb (GetCell member) (GetCell selfID) &&
                         String.eqb (GetName member) (GetName selfID)) (GetCohortMembers rule).

Definition SetResignedLeaderAtTerm (cm : ConsensusManager) (fl : list bool) (ctx : Context_)
    (position : option RulePosition) : ConsensusManager * option gerror :=
  match AssertActionLockHeld fl ctx with
  | Some e => (cm, Some e)
  | None =>
      let term := GetCoordinatorTerm (GetRuleNumber (PossiblyUndecidedRule position)) in
      let old := resignedLeaderAtTerm cm in
      let cm := set_signals cm term (cohortEligibility cm) (suspectedDivergence cm) in
      (if negb (old =? term) then broadcast cm else cm, None)
  end.

Definition ClearResignedLeaderAtTerm (cm : ConsensusManager) (fl : list bool) (ctx : Context_)
    : ConsensusManager * option gerror :=
  match AssertActionLockHeld fl ctx with
  | Some e => (cm, Some e)
  | None => (set_signals cm 0 (cohortEligibility cm) (suspectedDivergence cm), None)
  end.

Definition SetCohortEligibility (cm : ConsensusManager) (fl : list bool) (ctx : Context_) (signal : Z)
    : ConsensusManager * option gerror :=
  match AssertActionLockHeld fl ctx with
  | Some e => (cm, Some e)
  | None =>
      let old := cohortEligibility cm in
      let cm := set_signals cm (resignedLeaderAtTerm cm) signal (suspectedDivergence cm) in
      (if negb (old =? signal) then broadcast cm else cm, None)
  end.

Definition SetSuspectedDivergence (cm : ConsensusManager) (fl : list bool) (ctx : Context_)
    (suspected : bool) : ConsensusManager * result bool :=
  match AssertActionLockHeld fl ctx with
  | Some e => (cm, Err e)
  | None =>
      let old := suspectedDivergence cm in
      (set_signals cm (resignedLeaderAtTerm cm) (cohortEligibility cm) suspected,
       Ok (negb (Bool.eqb old suspected)))
  end.

Definition RewindBackoffElapsed (cm : ConsensusManager) (now : Z) : bool :=
  match rewindReadyAt cm with None => true | Some at_ => at_ <=? now end.

Definition RecordRewindAttempt (cm : ConsensusManager) (now : Z) (draw : Z -> Z) : ConsensusManager :=
  let b := match rewindBackoff cm with
           | None => NewExponentialBackoff rewindBackoffMin rewindBackoffMax
           | Some b => b
           end in
  let '(d, b) := NextDelay b draw in
  let delay := Z.max d rewindBackoffMin in
  set_rewind cm (Some b) (Some (now + delay)) (rewindWaitEmittedFor cm).

Definition ResetRewindBackoff (cm : ConsensusManager) : ConsensusManager :=
  let b := match rewindBackoff cm with Some b => Some (Reset b) | None => None end in
  set_rewind cm b None (rewindWaitEmittedFor cm).

Definition SetRewindWaitEmittedFor (cm : ConsensusManager) (t : option Z) : ConsensusManager :=
  set_rewind cm (rewindBackoff cm) (rewindReadyAt cm) t.

Section runtime.
  Context `{R : Runtime}.

(** The generated accessor and [GetRecruitBlockedUntil] of the promises. *)
Definition recruitPositionFloorIfOutstanding (cm : ConsensusManager) (pos : option PoolerPosition)
    : option LsnPosition :=
  let floor := cp_floor (promises cm) in
  match floor with
  | None => None
  | Some _ =>
      let current := RuleNumberPositionOf (pp_GetPosition pos) in
      let floorPos := {| rnp_Decision := rnpm_GetDecision (lp_GetPosition floor);
                         rnp_Proposal := rnpm_GetProposal (lp_GetPosition floor) |} in
      let cmp := Compare current floorPos in
      if negb (cmp =? 0) then if 0 <? cmp then None else floor
      else match ParseLSN (pp_GetLsn pos), ParseLSN (lp_GetLsn floor) with
           | Some currentLSN, Some floorLSN => if currentLSN <? floorLSN then floor else None
           | _, _ => floor
           end
  end.

Definition buildStatus (cm : ConsensusManager) (rev : option TermRevocation) (pos : option PoolerPosition)
    : option ConsensusStatus :=
  Some {| cs_TermRevocation := rev;
          CurrentPosition := pos;
          cs_ReplicationPrimary := statusReplicationPrimary pos (replicationPrimary cm);
          cs_Id := cm_id cm;
          RecruitBlockedUntil := recruitPositionFloorIfOutstanding cm pos |}.

(** [observed] is what [ObservePosition] read from Postgres. *)
Definition ConsensusStatusNow (cm : ConsensusManager) (fl : list bool) (ctx : Context_)
    (observed : result (option PoolerPosition)) : result (option ConsensusStatus) :=
  rev ← wrap_result "failed to read consensus term" (GetRevocation (promises cm) fl ctx);
  pos ← wrap_result "failed to read current rule position" observed;
  Ok (buildStatus cm rev pos).

Definition CachedConsensusStatus (cm : ConsensusManager) (cached : option PoolerPosition)
    : option ConsensusStatus :=
  if staticLeader cm then staticLeaderStatus (cm_id cm)
  else match cached with
       | None => None
       | Some _ => buildStatus cm (GetInconsistentRevocation (promises cm)) cached
       end.

Definition InconsistentConsensusStatus (cm : ConsensusManager) (observed : result (option PoolerPosition))
    : result (option ConsensusStatus) :=
  pos ← observed;
  Ok (buildStatus cm (GetInconsistentRevocation (promises cm)) pos).

Definition RecordTermPrimary (cm : ConsensusManager) (fl : list bool) (ctx : Context_) (now : Z)
    (rp : option ReplicationPrimary) : ConsensusManager * option gerror :=
  match AssertActionLockHeld fl ctx with
  | Some e => (cm, Some e)
  | None =>
      let '(next, changed) := MergeReplicationPrimary (replicationPrimary cm) rp in
      if negb changed then (cm, None)
      else
        let at_ := if negb (proto_equal (pa_GetId (GetPrimary (replicationPrimary cm)))
                                        (pa_GetId (GetPrimary next)))
                   then Some now else leaderObservedAt cm in
        (set_primary cm next at_, None)
  end.

Definition MarkSelfRewindReady (cm : ConsensusManager) (selfID : option ID)
    (expectedPosition : option RulePosition) : ConsensusManager * bool :=
  match replicationPrimary cm with
  | None => (cm, false)
  | Some rp =>
      if GetRewindReady (Some rp) then (cm, false)
      else if negb (proto_equal (pa_GetId (GetPrimary (Some rp))) selfID) then (cm, false)
      else if negb (proto_equal (rp_GetPosition (Some rp)) expectedPosition) then (cm, false)
      else (set_primary cm (Some (mkReplicationPrimary (rp_Position rp) (rp_Primary rp) true))
              (leaderObservedAt cm), true)
  end.

Definition RewindTarget (cm : ConsensusManager) : option (string * Z) :=
  let rp := replicationPrimary cm in
  let target := GetPrimary rp in
  if bool_decide (target = None) || String.eqb (GetHost target) "" || (GetPostgresPort target =? 0)
  then None
  else
    let leader := GetLeaderId (PossiblyUndecidedRule (rp_GetPosition rp)) in
    if bool_decide (leader = None) then None
    else if bool_decide (cm_id cm <> None) && String.eqb (GetCell leader) (GetCell (cm_id cm)) &&
            String.eqb (GetName leader) (GetName (cm_id cm)) then None
    else if IsRuleRevoked (rp_GetPosition rp) (GetInconsistentRevocation (promises cm)) then None
    else Some (GetHost target, GetPostgresPort target).

Definition IsPotentialCohortMember (cm : ConsensusManager) (cached : option PoolerPosition)
    (selfID : option ID) : bool :=
  let position := HighestKnownRule [CachedConsensusStatus cm cached] in
  ruleNamesCohortMember (GetDecision position) selfID || ruleNamesCohortMember (GetProposal position) selfID.

End runtime.

(** ** The recruit floor *)

Definition floor_position (floor : option LsnPosition) : RuleNumberPosition :=
  {| rnp_Decision := rnpm_GetDecision (lp_GetPosition floor);
     rnp_Proposal := rnpm_GetProposal (lp_GetPosition floor) |}.

(** [pos] is at or beyond [floor]: a later rule position, or the same one with at
    least the floor's LSN. *)
Definition reached `{R : Runtime} (pos : option PoolerPosition) (floor : option LsnPosition) : Prop :=
  0 < Compare (RuleNumberPositionOf (pp_GetPosition pos)) (floor_position floor) \/
  Compare (RuleNumberPositionOf (pp_GetPosition pos)) (floor_position floor) = 0 /\
  exists have need, ParseLSN (pp_GetLsn pos) = Some have /\ ParseLSN (lp_GetLsn floor) = Some need /\
    need <= have.

Section facts.
  Context `{R : Runtime} `{!RuntimeLaws R}.

Lemma floor_outstanding_None cm pos :
  recruitPositionFloorIfOutstanding cm pos = None <->
  recruitBlockedUntil (promises cm) = None \/ reached pos (recruitBlockedUntil (promises cm)).
Proof.
  unfold recruitPositionFloorIfOutstanding, cp_floor, reached.
  destruct (recruitBlockedUntil (promises cm)) as [f|]; [|naive_solver].
  fold (floor_position (Some f)).
  destruct (Compare _ _ =? 0) eqn:E; reflect_bools; cbn [negb].
  - destruct (ParseLSN (pp_GetLsn pos)) as [have|], (ParseLSN (lp_GetLsn (Some f))) as [need|];
      try (split; [done|]; intros [?|[?|(_ & ? & ? & ? & ? & _)]]; [done|lia|congruence]).
    destruct (have <? need) eqn:Hlt; reflect_bools.
    + split; [done|]. intros [?|[?|(_ & ? & ? & [= <-] & [= <-] & ?)]]; [done|lia|lia].
    + split; [|done]. intros _. right; right. eauto 7.
  - destruct (0 <? _) eqn:Hlt; reflect_bools; [naive_solver|].
    split; [done|]. intros [?|[?|[? _]]]; [done|lia|lia].
Qed.

(** A pooler below its recorded floor cannot be recruited.  Whatever
    revocation it is offered, the status it builds from its own promises is
    accepted only if no floor is recorded or its position has reached it, in rule
    position first and then in LSN; a floor that does not parse blocks. *)
Theorem recruit_respects_floor cm pos rev :
  ValidateRevocation (buildStatus cm (revocation (promises cm)) pos) rev = None ->
  (recruitBlockedUntil (promises cm) = None \/ reached pos (recruitBlockedUntil (promises cm))) /\
  extends_stored (revocation (promises cm)) rev /\
  IsRuleRevoked (pp_GetPosition pos) rev = true.
Proof.
  intros [_ _ _ _ _ _ Hr Hfl Hst]%ValidateRevocation_None. cbn in *.
  split_and!; [by apply floor_outstanding_None|done|done].
Qed.

(** ** The recorded primary *)

(** Everything that changes the recorded primary: being told of one, and marking
    oneself ready. *)
Inductive primary_step : ConsensusManager -> ConsensusManager -> Prop :=
| primary_recorded cm fl ctx now rp cm' e :
    RecordTermPrimary cm fl ctx now rp = (cm', e) -> primary_step cm cm'
| primary_marked cm self expected cm' changed :
    MarkSelfRewindReady cm self expected = (cm', changed) -> primary_step cm cm'.

Lemma MarkSelfRewindReady_cases cm self expected cm' changed :
  MarkSelfRewindReady cm self expected = (cm', changed) ->
  (cm' = cm /\ changed = false) \/
  (changed = true /\ pa_GetId (GetPrimary (replicationPrimary cm)) = self /\
   rp_GetPosition (replicationPrimary cm) = expected /\
   rp_GetPosition (replicationPrimary cm') = expected /\
   GetPrimary (replicationPrimary cm') = GetPrimary (replicationPrimary cm) /\
   GetRewindReady (replicationPrimary cm) = false /\ GetRewindReady (replicationPrimary cm') = true).
Proof.
  unfold MarkSelfRewindReady. destruct (replicationPrimary cm) as [rp|] eqn:Hrp; [|intros [= <- <-]; auto].
  destruct (GetRewindReady _) eqn:Hready; [intros [= <- <-]; auto|].
  destruct (proto_equal _ self) eqn:E1; [|intros [= <- <-]; auto].
  destruct (proto_equal _ expected) eqn:E2; [|intros [= <- <-]; auto].
  apply proto_equal_spec in E1, E2. cbn [negb]. intros [= <- <-]. right. by split_and!.
Qed.

Lemma primary_step_forward cm cm' :
  primary_step cm cm' ->
  CompareRulePosition (rp_GetPosition (replicationPrimary cm)) (rp_GetPosition (replicationPrimary cm')) <= 0 /\
  (rp_term (replicationPrimary cm') = rp_term (replicationPrimary cm) ->
   GetRewindReady (replicationPrimary cm) = true -> GetRewindReady (replicationPrimary cm') = true).
Proof.
  pose proof (cmp_refl CompareRulePosition) as Hrefl.
  destruct 1 as [cm fl ctx now rp cm' e H|cm self expected cm' changed H].
  - unfold RecordTermPrimary in H. destruct (AssertActionLockHeld _ _); [by injection H as <- _; rewrite Hrefl|].
    destruct (MergeReplicationPrimary _ _) as [next changed] eqn:Hm.
    destruct (merge_forward _ _ _ _ Hm) as (Hle & _ & _ & Hready & _).
    destruct changed; injection H as <- _; [done|by rewrite Hrefl].
  - destruct (MarkSelfRewindReady_cases _ _ _ _ _ H) as [[-> _]|(_ & _ & Hp & Hp' & _ & _ & ?)];
      [by rewrite Hrefl|]. rewrite Hp, Hp', Hrefl. done.
Qed.

(** What a pooler has been told about the primary never goes back: over any
    interleaving of [RecordTermPrimary] and [MarkSelfRewindReady], the recorded
    position only advances, and readiness once recorded for a coordinator term is
    still recorded while that term lasts. *)
Theorem recorded_primary_only_advances cm cm' :
  rtc primary_step cm cm' ->
  CompareRulePosition (rp_GetPosition (replicationPrimary cm)) (rp_GetPosition (replicationPrimary cm')) <= 0 /\
  (forall mid, primary_step cm' mid ->
     rp_term (replicationPrimary mid) = rp_term (replicationPrimary cm') ->
     GetRewindReady (replicationPrimary cm') = true -> GetRewindReady (replicationPrimary mid) = true).
Proof.
  intros Hsteps. split; [|intros mid Hm; by apply primary_step_forward].
  induction Hsteps as [cm|cm1 cm2 cm3 Hstep _ IH].
  - by rewrite (cmp_refl CompareRulePosition).
  - eapply cmp_trans; [by apply primary_step_forward|done].
Qed.

(** ** The published status *)

(** The primary a pooler publishes carries the later of its own recorded
    position and the one it was told, whole, and claims rewind readiness only
    when the record it was told is ready and of at least its own rule's term. *)
Theorem published_primary_is_latest pos rp out :
  statusReplicationPrimary pos rp = Some out ->
  CompareRulePosition (pp_GetPosition pos) (rp_Position out) <= 0 /\
  CompareRulePosition (rp_GetPosition rp) (rp_Position out) <= 0 /\
  (rp_Position out = pp_GetPosition pos \/ rp_Position out = rp_GetPosition rp) /\
  rp_Primary out = GetPrimary rp /\
  (RewindReady out = true ->
   GetRewindReady rp = true /\
   0 < rp_term rp /\
   (PossiblyUndecidedRule (pp_GetPosition pos) = None \/
    GetCoordinatorTerm (GetRuleNumber (PossiblyUndecidedRule (pp_GetPosition pos))) <= rp_term rp)).
Proof.
  unfold statusReplicationPrimary. intros H.
  assert (out = {| rp_Position := if 0 <=? CompareRulePosition (rp_GetPosition rp) (pp_GetPosition pos)
                                  then rp_GetPosition rp else pp_GetPosition pos;
                   rp_Primary := GetPrimary rp;
                   RewindReady :=
                     if bool_decide (PossiblyUndecidedRule (rp_GetPosition rp) <> None) &&
                        (0 <? GetCoordinatorTerm (GetRuleNumber (PossiblyUndecidedRule (rp_GetPosition rp)))) &&
                        (bool_decide (PossiblyUndecidedRule (pp_GetPosition pos) = None) ||
                         (GetCoordinatorTerm (GetRuleNumber (PossiblyUndecidedRule (pp_GetPosition pos))) <=?
                          GetCoordinatorTerm (GetRuleNumber (PossiblyUndecidedRule (rp_GetPosition rp)))))
                     then GetRewindReady rp else false |}) as ->.
  { destruct (PossiblyUndecidedRule (pp_GetPosition pos)), (PossiblyUndecidedRule (rp_GetPosition rp)),
      (GetPrimary rp); congruence. }
  clear H. cbn. pose proof (cmp_anti (cmp:=CompareRulePosition) (rp_GetPosition rp) (pp_GetPosition pos)).
  pose proof (cmp_refl CompareRulePosition (rp_GetPosition rp)).
  pose proof (cmp_refl CompareRulePosition (pp_GetPosition pos)).
  destruct (0 <=? _) eqn:E; reflect_bools; (split_and!; [lia|lia|auto|done|]);
    destruct (_ && _) eqn:E2; try done; reflect_bools; intros Hready;
    (split_and!; [done|done|]);
    match goal with H : _ || _ = true |- _ => apply orb_true_iff in H as [?|?] end; reflect_bools; auto.
Qed.

(** A pooler never rewinds towards itself or towards a leader it has
    revoked: the target it offers is the recorded primary's address, the recorded
    rule names a leader in another cell or under another name, and that rule is
    not covered by the pooler's own revocation. *)
Theorem rewind_target_sound cm host port :
  RewindTarget cm = Some (host, port) ->
  let rp := replicationPrimary cm in
  let leader := GetLeaderId (PossiblyUndecidedRule (rp_GetPosition rp)) in
  host = GetHost (GetPrimary rp) /\ port = GetPostgresPort (GetPrimary rp) /\
  host <> ""%string /\ port <> 0 /\ leader <> None /\
  (cm_id cm <> None -> GetCell leader <> GetCell (cm_id cm) \/ GetName leader <> GetName (cm_id cm)) /\
  IsRuleRevoked (rp_GetPosition rp) (revocation (promises cm)) = false.
Proof.
  unfold RewindTarget. destruct (_ || _ || _) eqn:E1; [done|].
  destruct (bool_decide (GetLeaderId _ = None)) eqn:E2; [done|].
  destruct (_ && _ && _) eqn:E3; [done|].
  destruct (IsRuleRevoked _ (GetInconsistentRevocation _)) eqn:E4; [done|]. intros H.
  injection H as <- <-. reflect_bools.
  match goal with H : String.eqb _ "" = false |- _ => apply String.eqb_neq in H end. split_and!; try done.
  intros Hid. rewrite bool_decide_true in E3 by done. cbn [andb] in E3.
  apply andb_false_iff in E3 as [?%String.eqb_neq|?%String.eqb_neq]; auto.
Qed.

(** A fixed gap always separates two divergence rewinds: after recording an
    attempt, whatever the random draw, the backoff has not elapsed for at least
    five seconds, and it has elapsed after the longest delay. *)
Theorem rewind_attempts_spaced cm now draw later :
  (forall b, rewindBackoff cm = Some b -> baseDelay b = rewindBackoffMin /\ maxDelay b = rewindBackoffMax) ->
  (forall d, 0 <= d -> 0 <= draw d <= d) ->
  let cm' := RecordRewindAttempt cm now draw in
  (now <= later < now + rewindBackoffMin -> RewindBackoffElapsed cm' later = false) /\
  (now + rewindBackoffMax <= later -> RewindBackoffElapsed cm' later = true).
Proof.
  intros Hb Hdraw cm'. subst cm'. unfold RecordRewindAttempt, NextDelay, nextDelay.
  set (b := match rewindBackoff cm with None => _ | Some b => b end).
  assert (baseDelay b = rewindBackoffMin /\ maxDelay b = rewindBackoffMax) as [-> ->].
  { subst b. destruct (rewindBackoff cm) as [b|]; [by apply Hb|done]. }
  unfold RewindBackoffElapsed. cbn [set_rewind rewindReadyAt].
  set (m := ExponentialBackoffMagnitude _ _ _).
  assert (0 <= m <= rewindBackoffMax) as Hm.
  { subst m. pose proof (multiplier_bounds (attempt b)).
    rewrite ExponentialBackoffMagnitude_eq by
      (unfold rewindBackoffMin, rewindBackoffMax, minute, second, int64_max; lia).
    unfold rewindBackoffMin, rewindBackoffMax, minute, second in *. lia. }
  pose proof (Hdraw m ltac:(lia)).
  assert (rewindBackoffMin <= rewindBackoffMax) by (vm_compute; congruence).
  rewrite Z.leb_gt, Z.leb_le. destruct (disableJitter b); cbn [negb]; lia.
Qed.
End facts.

(** ** Witnesses *)

Definition demo_manager (p : ConsensusPromises) : ConsensusManager := newConsensusManager p2 p false.
Definition demo_pos (lsn : string) : option PoolerPosition :=
  Some (mkPoolerPosition (decided (demo_rule 1 p1 [p1; p2; p3] (at_least 2))) lsn).

Definition demo_floor_node (lsn : string) : ConsensusPromises :=
  mkConsensusPromises "/data" p2 (Some zero_revocation) (demo_floor lsn).

Lemma recruit_respects_floor_witness :
  reached (demo_pos "0/20") (demo_floor "0/20").
Proof.
  destruct (recruit_respects_floor (R := demo_runtime) (demo_manager (demo_floor_node "0/20"))
    (demo_pos "0/20") (demo_revocation 2 (rn 1 0)) ltac:(vm_compute; reflexivity)) as [[H|H] _];
    [discriminate H|exact H].
Defined.

(** The recruit floor can go back.  Recording a lower position replaces a
    floor that is still outstanding: a pooler that had to catch up to 0/20, and
    was refused at 0/10, is accepted at 0/10 once 0/10 is recorded over it. *)
Theorem recruit_floor_can_regress :
  let rev := demo_revocation 2 (rn 1 0) in
  let at_ (cs : ConsensusPromises) :=
    ValidateRevocation (buildStatus (demo_manager cs) (revocation cs) (demo_pos "0/10")) rev in
  let '(high, fs1, r1) := SetRecruitBlockedUntil (demo_node (Some zero_revocation)) empty_fs [false]
                            demo_held (demo_floor "0/20") (good_io ".tmp-1") in
  let '(low, fs2, r2) := SetRecruitBlockedUntil high fs1 [false] demo_held (demo_floor "0/10")
                           (good_io ".tmp-2") in
  r1 = Returned None /\ r2 = Returned None /\ is_Some (at_ high) /\ at_ low = None.
Proof. vm_compute. split_and!; eauto. Qed.

Definition demo_told (ready : bool) : option ReplicationPrimary :=
  Some (mkReplicationPrimary (decided (demo_rule 2 p1 [p1; p2; p3] (at_least 2)))
          (Some (mkPoolerAddress p1 "h1" 5432)) ready).

Lemma recorded_primary_only_advances_witness :
  let cm := demo_manager (demo_node (Some zero_revocation)) in
  let cm' := fst (RecordTermPrimary cm [false] demo_held 5 (demo_told false)) in
  CompareRulePosition None (rp_GetPosition (replicationPrimary cm')) <= 0 /\
  rp_GetPosition (replicationPrimary cm') = rp_GetPosition (demo_told false).
Proof.
  intros cm cm'. split; [|reflexivity].
  refine (proj1 (recorded_primary_only_advances cm cm' _)).
  apply rtc_once, (primary_recorded cm [false] demo_held 5 (demo_told false) _ None). reflexivity.
Defined.

Lemma published_primary_is_latest_witness :
  exists out, statusReplicationPrimary (demo_pos "0/10") (demo_told true) = Some out /\
    CompareRulePosition (pp_GetPosition (demo_pos "0/10")) (rp_Position out) <= 0.
Proof.
  eexists. split; [reflexivity|].
  apply (published_primary_is_latest (demo_pos "0/10") (demo_told true)). reflexivity.
Defined.

Lemma rewind_target_sound_witness :
  let cm := set_primary (demo_manager (demo_node None)) (demo_told true) None in
  RewindTarget cm = Some ("h1"%string, 5432) /\ "h1"%string <> ""%string.
Proof.
  intros cm. split; [vm_compute; reflexivity|].
  apply (rewind_target_sound cm "h1" 5432). vm_compute. reflexivity.
Defined.

Lemma rewind_attempts_spaced_witness :
  RewindBackoffElapsed (RecordRewindAttempt (demo_manager (demo_node None)) 0 (fun _ => 0)) 1 = false.
Proof.
  apply (rewind_attempts_spaced (demo_manager (demo_node None)) 0 (fun _ => 0) 1);
    [intros b [=]|intros; lia|vm_compute; split; [discriminate|reflexivity]].
Defined.
