(* ===== verification/Recruit.v ===== *)
(** go/services/multipooler/internal/manager/rpc_consensus.go: the Recruit handler,
    the checks of Promote, and a cluster of poolers answering recruitments.

    What the handler asks of Postgres is a trace of calls; what Postgres answers
    is an argument.  Logging, tracing and the re-derivation of the serving state
    after a recruit are left out. *)

From stdpp Require Import gmap strings list relations.
From S2P Require Import Prelude ClusterMetadata Demo SortedMaps TopoId Ordering Compare Cohort.
From S2P Require Import Durability Revocation PoolerRole Proposals ProposalFacts.
From S2P Require Import ProposalSafety ActionLock AtomicFile Promises Backoff ConsensusManager.

Local Open Scope Z_scope.

Record MultipoolerManager := mkMultipoolerManager {
  consensusMgr : ConsensusManager;
  pm_disk : FS;
  actionLock : LockWorld;
  walReceiverManuallyStopped : bool
}.

Definition with_lock (pm : MultipoolerManager) (w : LockWorld) : MultipoolerManager :=
  mkMultipoolerManager (consensusMgr pm) (pm_disk pm) w (walReceiverManuallyStopped pm).
Definition with_promises (pm : MultipoolerManager) (cs : ConsensusPromises) (fs : FS) : MultipoolerManager :=
  mkMultipoolerManager (set_promises (consensusMgr pm) cs) fs (actionLock pm) (walReceiverManuallyStopped pm).

Definition buildCohortEligibilityStatus (pm : MultipoolerManager) : Z :=
  if walReceiverManuallyStopped pm then COHORT_ELIGIBILITY_SIGNAL_INELIGIBLE
  else cohortEligibility (consensusMgr pm).

Inductive pg_call :=
| PgStopReplication (mode : Mode) (revokedBelowTerm : Z)
| PgWaitForReplayComplete
| PgObservePosition
| PgSetPrimaryConnInfo (connInfo : string).

(** What Postgres answers during one recruit. *)
Record RecruitEnv := mkRecruitEnv {
  env_before : result (option PoolerPosition);
  env_mode : result Mode;
  env_stop : result string;
  env_replay : option gerror;
  env_stable : result (option PoolerPosition);
  env_io : io
}.

Definition restoreReplicationAfterRecruitRace (pgMode : Mode) (savedConnInfo : string) : list pg_call :=
  if OutOfRecovery pgMode then []
  else if String.eqb savedConnInfo "" then []
  else [PgSetPrimaryConnInfo savedConnInfo].

Section runtime.
  Context `{R : Runtime} `{C : PromiseCodec}.

Definition refuse {A} (pm : MultipoolerManager) (calls : list pg_call) (e : gerror)
    : MultipoolerManager * list pg_call * outcome (result A) := (pm, calls, Returned (Err e)).

(** The handler once the action lock is held. *)
Definition recruit_locked (pm : MultipoolerManager) (fl : list bool) (ctx : Context_)
    (rev : option TermRevocation) (env : RecruitEnv)
    : MultipoolerManager * list pg_call * outcome (result (option ConsensusStatus)) :=
  let cm := consensusMgr pm in
  match rev with
  | None => refuse pm [] (err "term_revocation is required")
  | Some _ =>
  if buildCohortEligibilityStatus pm =? COHORT_ELIGIBILITY_SIGNAL_INELIGIBLE then
    refuse pm [] (err "cohort-ineligible (shutting down); refusing recruitment")
  else
  let preStatus := match ConsensusStatusNow cm fl ctx (env_before env) with Ok s => s | Err _ => None end in
  match ValidateRevocation preStatus rev with
  | Some e => refuse pm [PgObservePosition] e
  | None =>
  match env_mode env with
  | Err e => refuse pm [PgObservePosition] (wrap "failed to determine role for recruit" e)
  | Ok pgMode =>
  let calls := [PgObservePosition; PgStopReplication pgMode (GetRevokedBelowTerm rev)] in
  match env_stop env with
  | Err e => refuse pm calls (wrap "failed to stop replication during recruit" e)
  | Ok savedConnInfo =>
  let '(calls, replay_err) :=
    if negb (OutOfRecovery pgMode) then (calls ++ [PgWaitForReplayComplete], env_replay env)
    else (calls, None) in
  match replay_err with
  | Some e => refuse pm calls (wrap "failed waiting for replay to complete during recruit" e)
  | None =>
  let calls := calls ++ [PgObservePosition] in
  match ConsensusStatusNow cm fl ctx (env_stable env) with
  | Err e => refuse pm calls (wrap "failed to read stable status after stopping replication" e)
  | Ok stableStatus =>
  match AcceptRevocation (promises cm) (pm_disk pm) fl ctx stableStatus rev (env_io env) with
  | (cs, fs, Crashed) => (with_promises pm cs fs, calls, Crashed)
  | (cs, fs, Returned (Some e)) =>
      (with_promises pm cs fs, calls ++ restoreReplicationAfterRecruitRace pgMode savedConnInfo,
       Returned (Err (wrap "failed to persist term revocation" e)))
  | (cs, fs, Returned None) =>
      let pm := with_promises pm cs fs in
      (pm, calls, Returned (Ok (CachedConsensusStatus (consensusMgr pm) (GetCurrentPosition stableStatus))))
  end end end end end end end.

(** [Recruit]: acquire, run, and the deferred release. *)
Definition Recruit (pm : MultipoolerManager) (ctx : Context_) (sema_err : option gerror)
    (rev : option TermRevocation) (env : RecruitEnv)
    : MultipoolerManager * list pg_call * outcome (result (option ConsensusStatus)) :=
  match Acquire (actionLock pm) ctx "Recruit" sema_err with
  | (w, Err e) => (with_lock pm w, [], Returned (Err e))
  | (w, Ok ctx) =>
      let '(pm, calls, r) := recruit_locked (with_lock pm w) (flags w) ctx rev env in
      match r, Release (actionLock pm) ctx with
      | Returned _, Some w' => (with_lock pm w', calls, r)
      | _, _ => (pm, calls, r)
      end
  end.

(** The checks Promote makes before it touches Postgres, in order; [connInfo] is
    the primary_conninfo it reads. *)
Definition promote_checks (pm : MultipoolerManager) (fl : list bool) (ctx : Context_)
    (serviceID : option ID) (proposal : option CoordinatorProposal)
    (observed : result (option PoolerPosition)) (mode : result Mode) (connInfo : result string)
    : option gerror :=
  let rev := prop_GetTermRevocation proposal in
  let leader := GetProposalLeader proposal in
  let rule := GetProposal (GetProposedTransition proposal) in
  if bool_decide (proposal = None) then Some (err "proposal is required")
  else if bool_decide (rev = None) then Some (err "proposal.term_revocation is required")
  else if bool_decide (leader = None) then Some (err "proposal.proposal_leader is required")
  else if bool_decide (pa_GetId leader = None) then Some (err "proposal.proposal_leader.id is required")
  else if GetPostgresPort leader =? 0 then Some (err "proposal.proposal_leader.postgres_port is required")
  else if bool_decide (rule = None) then Some (err "proposal.proposed_rule is required")
  else if bool_decide (GetCoordinatorId rule = None) then
    Some (err "proposal.proposed_rule.coordinator_id is required")
  else if bool_decide (GetCreationTime rule = None) then
    Some (err "proposal.proposed_rule.creation_time is required")
  else if negb (proto_equal serviceID (pa_GetId leader)) then
    Some (err "Promote received on a pooler that is not proposal_leader")
  else match ConsensusStatusNow (consensusMgr pm) fl ctx observed with
  | Err e => Some e
  | Ok beforeStatus =>
      match ValidateRevocation beforeStatus rev with
      | Some e => Some e
      | None =>
          if negb (GetRevokedBelowTerm (GetTermRevocation beforeStatus) =? GetRevokedBelowTerm rev) then
            Some (err "must Recruit before Promote: stored term != proposal term")
          else if negb (GetRevokedBelowTerm rev =? GetCoordinatorTerm (GetRuleNumber rule)) then
            Some (err "revocation revoked_below_term must equal the promoted rule's coordinator term")
          else match mode with
          | Err e => Some (wrap "failed to verify standby state before promote" e)
          | Ok pgMode =>
              if OutOfRecovery pgMode then
                Some (err "postgres is not in standby mode; call Recruit before Promote")
              else match connInfo with
              | Err e => Some (wrap "failed to verify primary_conninfo before promote" e)
              | Ok s => if negb (String.eqb s "") then Some (err "primary_conninfo is set") else None
              end
          end
      end
  end.

End runtime.

Section handler_facts.
  Context `{R : Runtime} `{!RuntimeLaws R} `{C : PromiseCodec} `{!PromiseCodecLaws C}.

Lemma ConsensusStatusNow_Ok cm fl ctx observed status :
  ConsensusStatusNow cm fl ctx observed = Ok status ->
  exists pos, observed = Ok pos /\ status = buildStatus cm (revocation (promises cm)) pos.
Proof.
  unfold ConsensusStatusNow, GetRevocation. intros H. inv_ok. eauto.
Qed.

(** What a recruit did, up to the answer. *)
Lemma recruit_locked_cases pm fl ctx rev env pm' calls r :
  recruit_locked pm fl ctx rev env = (pm', calls, r) ->
  (pm' = pm /\ exists e, r = Returned (Err e)) \/
  exists pgMode pos cs fs r0, let cm := consensusMgr pm in
    env_mode env = Ok pgMode /\ env_stable env = Ok pos /\
    buildCohortEligibilityStatus pm <> COHORT_ELIGIBILITY_SIGNAL_INELIGIBLE /\
    AcceptRevocation (promises cm) (pm_disk pm) fl ctx
      (buildStatus cm (revocation (promises cm)) pos) rev (env_io env) = (cs, fs, r0) /\
    pm' = with_promises pm cs fs /\
    match r0 with
    | Crashed => r = Crashed
    | Returned (Some e) => exists e', r = Returned (Err e')
    | Returned None =>
        r = Returned (Ok (CachedConsensusStatus (set_promises cm cs) pos)) /\
        calls = [PgObservePosition; PgStopReplication pgMode (GetRevokedBelowTerm rev)] ++
                (if OutOfRecovery pgMode then [] else [PgWaitForReplayComplete]) ++ [PgObservePosition]
    end.
Proof.
  unfold recruit_locked, refuse. destruct rev as [tr|]; [|by intros [= <- <- <-]; eauto].
  set (rev := Some tr). destruct (_ =? _) eqn:Hel; [by intros [= <- <- <-]; eauto|]. reflect_bools.
  destruct (ValidateRevocation _ _); [by intros [= <- <- <-]; eauto|].
  destruct (env_mode env) as [pgMode|]; [|by intros [= <- <- <-]; eauto].
  destruct (env_stop env) as [saved|]; [|by intros [= <- <- <-]; eauto].
  destruct (OutOfRecovery pgMode) eqn:Hmode; cbn [negb].
  2: destruct (env_replay env); [by intros [= <- <- <-]; eauto|].
  all: destruct (ConsensusStatusNow _ _ _ (env_stable env)) as [st|] eqn:Hst; [|by intros [= <- <- <-]; eauto];
    apply ConsensusStatusNow_Ok in Hst as (pos & Hpos & ->);
    destruct (AcceptRevocation _ _ _ _ _ _ _) as [[cs fs] [[e|]|]] eqn:Hacc;
    intros [= <- <- <-]; right; exists pgMode, pos, cs, fs; eexists; cbv zeta;
    rewrite Hmode; (split_and!; [done|done|done|exact Hacc|done|]); cbn; eauto.
Qed.

(** A successful recruit is a durable promise about a stopped node.  When the
    handler answers with a status: the node was eligible; replication was stopped
    before the position was read; that position is revoked by the request, has
    reached the recruit floor and extends the earlier promise; the revocation is
    in memory and on disk; and the status returned reports that revocation and
    that position. *)
Theorem recruit_success pm fl ctx rev env pm' calls status :
  in_sync (promises (consensusMgr pm)) (pm_disk pm) ->
  fresh_io (promises (consensusMgr pm)) (pm_disk pm) (env_io env) ->
  staticLeader (consensusMgr pm) = false ->
  recruit_locked pm fl ctx rev env = (pm', calls, Returned (Ok (Some status))) ->
  exists mode pos,
    env_stable env = Ok pos /\
    calls = [PgObservePosition; PgStopReplication mode (GetRevokedBelowTerm rev)] ++
            (if OutOfRecovery mode then [] else [PgWaitForReplayComplete]) ++ [PgObservePosition] /\
    buildCohortEligibilityStatus pm <> COHORT_ELIGIBILITY_SIGNAL_INELIGIBLE /\
    IsRuleRevoked (pp_GetPosition pos) rev = true /\
    (recruitBlockedUntil (promises (consensusMgr pm)) = None \/
     reached pos (recruitBlockedUntil (promises (consensusMgr pm)))) /\
    extends_stored (revocation (promises (consensusMgr pm))) rev /\
    revocation (promises (consensusMgr pm')) = rev /\
    in_sync (promises (consensusMgr pm')) (pm_disk pm') /\
    cs_TermRevocation status = rev /\ CurrentPosition status = pos.
Proof.
  intros Hsync Hfresh Hstatic H.
  apply recruit_locked_cases in H as [(_ & e & ?)|(mode & pos & cs & fs & r0 & Hmode & Hpos & Hel & Hacc & -> & Hr)];
    [done|].
  pose proof (AcceptRevocation_cases _ _ _ _ _ _ _ _ _ _ Hsync Hfresh Hacc) as Hc.
  destruct r0 as [[e|]|]; [by destruct Hr| |done]. destruct Hr as [Hr Hcalls].
  destruct Hc as (_ & _ & Hv & -> & Hsync'). apply ValidateRevocation_None in Hv as [].
  exists mode, pos. injection Hr as Hr. unfold CachedConsensusStatus in Hr. cbn in Hr. rewrite Hstatic in Hr.
  destruct pos as [p|]; [|done]. injection Hr as ->. cbn in *.
  split_and!; try done. by apply floor_outstanding_None.
Qed.

(** A node whose position cannot be read before a recruit refuses it: an
    unreadable status fails validation, so nothing is stopped and nothing is
    promised. *)
Theorem recruit_refuses_unreadable_position pm fl ctx rev env e :
  env_before env = Err e ->
  exists e' calls, recruit_locked pm fl ctx rev env = (pm, calls, Returned (Err e')) /\
    forall mode term, PgStopReplication mode term ∉ calls.
Proof.
  intros He. unfold recruit_locked, refuse. destruct rev as [tr|]; [|do 2 eexists; split; [done|set_solver]].
  destruct (_ =? _); [do 2 eexists; split; [done|set_solver]|].
  assert (match ConsensusStatusNow (consensusMgr pm) fl ctx (env_before env) with Ok s => s | Err _ => None end = None)
    as ->.
  { rewrite He. unfold ConsensusStatusNow. destruct (GetRevocation _ _ _); done. }
  destruct (ValidateRevocation None (Some tr)) as [e'|] eqn:Hv.
  - do 2 eexists. split; [done|]. intros mode term Hin%list_elem_of_singleton. done.
  - apply ValidateRevocation_None in Hv as []. by destruct acc_position as (? & ? & _).
Qed.

(** Promote requires the recruit of its own term: it passes its checks only on
    the named leader, with the stored promise at exactly the proposal's and the
    new rule's term, from the proposal's coordinator and round, on a position
    that promise revokes, with Postgres in recovery and its replication source
    cleared. *)
Theorem promote_requires_recruit pm fl ctx self proposal observed mode connInfo :
  promote_checks pm fl ctx self proposal observed mode connInfo = None ->
  let stored := revocation (promises (consensusMgr pm)) in
  let rev := prop_GetTermRevocation proposal in
  pa_GetId (GetProposalLeader proposal) = self /\ self <> None /\
  GetRevokedBelowTerm stored = GetRevokedBelowTerm rev /\
  GetRevokedBelowTerm rev = GetCoordinatorTerm (GetRuleNumber (GetProposal (GetProposedTransition proposal))) /\
  (stored <> None ->
   ClusterIDString (GetAcceptedCoordinatorId stored) = ClusterIDString (GetAcceptedCoordinatorId rev) /\
   GetCoordinatorInitiatedAt stored = GetCoordinatorInitiatedAt rev) /\
  (exists pos, observed = Ok pos /\ IsRuleRevoked (pp_GetPosition pos) rev = true) /\
  connInfo = Ok ""%string /\ exists m, mode = Ok m /\ OutOfRecovery m = false.
Proof.
  unfold promote_checks. intros H.
  destruct (bool_decide (proposal = None)); [done|].
  destruct (bool_decide (prop_GetTermRevocation proposal = None)); [done|].
  destruct (bool_decide (GetProposalLeader proposal = None)); [done|].
  destruct (bool_decide (pa_GetId _ = None)) eqn:Hid; [done|].
  destruct (GetPostgresPort _ =? 0); [done|].
  destruct (bool_decide (GetProposal _ = None)); [done|].
  destruct (bool_decide (GetCoordinatorId _ = None)); [done|].
  destruct (bool_decide (GetCreationTime _ = None)); [done|].
  destruct (proto_equal self _) eqn:Hself; [|done]. apply proto_equal_spec in Hself. cbn [negb] in H.
  destruct (ConsensusStatusNow _ _ _ _) as [st|] eqn:Hst; [|done].
  apply ConsensusStatusNow_Ok in Hst as (pos & Hpos & ->).
  destruct (ValidateRevocation _ _) eqn:Hv; [done|].
  destruct (GetRevokedBelowTerm _ =? GetRevokedBelowTerm _) eqn:Ht1; [|done].
  destruct (GetRevokedBelowTerm _ =? GetCoordinatorTerm _) eqn:Ht2; [|done]. cbn [negb] in H.
  destruct mode as [m|]; [|done]. destruct (OutOfRecovery m) eqn:Hm; [done|].
  destruct connInfo as [s|]; [|done]. destruct (String.eqb_spec s "") as [->|]; [|done].
  reflect_bools. apply ValidateRevocation_None in Hv as []. cbn in *.
  split_and!; try done; [congruence| |eauto|eauto].
  intros Hs. destruct (acc_stored Hs) as (_ & _ & Hsame). auto.
Qed.

End handler_facts.

(** ** Witnesses for the handlers *)

Definition demo_pm : MultipoolerManager :=
  mkMultipoolerManager (demo_manager (demo_node (Some zero_revocation))) empty_fs
    (mkLockWorld (mkActionLock true 1 2 0 0) [false]) false.

Definition demo_env : RecruitEnv :=
  mkRecruitEnv (Ok (demo_pos "0/10")) (Ok ModeInRecovery) (Ok "host=h1"%string) None
    (Ok (demo_pos "0/18")) (good_io ".tmp-1").

Definition demo_recruited := recruit_locked demo_pm [false] demo_held (demo_revocation 2 (rn 1 0)) demo_env.

Lemma demo_recruited_eq :
  exists status, demo_recruited = (fst (fst demo_recruited), snd (fst demo_recruited),
                                   Returned (Ok (Some status))).
Proof. eexists. reflexivity. Qed.

Lemma recruit_success_witness :
  revocation (promises (consensusMgr (fst (fst demo_recruited)))) = demo_revocation 2 (rn 1 0) /\
  snd (fst demo_recruited) = [PgObservePosition; PgStopReplication ModeInRecovery 2;
                              PgWaitForReplayComplete; PgObservePosition].
Proof.
  destruct demo_recruited_eq as [status Heq].
  destruct (recruit_success demo_pm [false] demo_held (demo_revocation 2 (rn 1 0)) demo_env _ _ _ demo_in_sync demo_fresh eq_refl Heq)
    as (mode & pos & _ & _ & _ & _ & _ & _ & Hrev & _). split; [exact Hrev|reflexivity].
Defined.

Lemma recruit_refuses_unreadable_position_witness :
  exists e calls, recruit_locked demo_pm [false] demo_held (demo_revocation 2 (rn 1 0))
    (mkRecruitEnv (Err (err "connection refused")) (Ok ModeInRecovery) (Ok ""%string) None
       (Ok (demo_pos "0/18")) (good_io ".tmp-1")) = (demo_pm, calls, Returned (Err e)).
Proof.
  destruct (recruit_refuses_unreadable_position demo_pm [false] demo_held (demo_revocation 2 (rn 1 0))
    (mkRecruitEnv (Err (err "connection refused")) (Ok ModeInRecovery) (Ok ""%string) None
       (Ok (demo_pos "0/18")) (good_io ".tmp-1")) (err "connection refused") eq_refl) as (e & calls & H & _).
  exists e, calls. exact H.
Defined.

Definition demo_transition : option CoordinatorProposal :=
  Some (mkCoordinatorProposal (demo_revocation 2 (rn 1 0)) (Some (mkPoolerAddress p2 "h2" 5432))
    (Some (mkRulePosition (demo_rule 1 p1 [p1; p2; p3] (at_least 2))
                          (demo_rule 2 p2 [p1; p2; p3] (at_least 2)))) false).

Lemma promote_requires_recruit_witness :
  let pm := mkMultipoolerManager (demo_manager (demo_node (demo_revocation 2 (rn 1 0)))) empty_fs
    (mkLockWorld (mkActionLock true 1 2 0 0) [false]) false in
  GetRevokedBelowTerm (revocation (promises (consensusMgr pm))) = 2.
Proof.
  intros pm.
  destruct (promote_requires_recruit (R := demo_runtime) pm [false] demo_held p2 demo_transition
    (Ok (demo_pos "0/18")) (Ok ModeInRecovery) (Ok ""%string) ltac:(vm_compute; reflexivity))
    as (_ & _ & H & _). exact H.
Defined.

(** ** A cluster of poolers *)

Section cluster.
  Context `{R : Runtime} `{!RuntimeLaws R} `{C : PromiseCodec} `{!PromiseCodecLaws C}.

(** Every pooler by its key, and every status ever reported, oldest first. *)
Record Cluster := mkCluster {
  nodes : gmap string (ConsensusPromises * FS);
  reported : Statuses
}.

Inductive cluster_step : Cluster -> Cluster -> Prop :=
| cluster_node c k n n' :
    nodes c !! k = Some n -> node_step n n' ->
    cluster_step c (mkCluster (<[k := n']> (nodes c)) (reported c))
| cluster_report c k n status :
    nodes c !! k = Some n -> status_key status = k -> GetTermRevocation status = revocation n.1 ->
    cluster_step c (mkCluster (nodes c) (reported c ++ [status])).

Definition cluster_start (c : Cluster) : Prop :=
  reported c = [] /\ forall k n, nodes c !! k = Some n -> in_sync n.1 n.2.

(** Reports of a pooler form a chain of promises that its current one extends. *)
Record cluster_inv (c : Cluster) : Prop := {
  cinv_sync : forall k n, nodes c !! k = Some n -> in_sync n.1 n.2;
  cinv_known : forall s, s ∈ reported c -> is_Some (nodes c !! status_key s) /\ GetTermRevocation s <> None;
  cinv_current : forall s n, s ∈ reported c -> nodes c !! status_key s = Some n ->
    extends_stored (GetTermRevocation s) (revocation n.1);
  cinv_chain : forall s1 s2, s1 ∈ reported c -> s2 ∈ reported c -> status_key s1 = status_key s2 ->
    extends_stored (GetTermRevocation s1) (GetTermRevocation s2) \/
    extends_stored (GetTermRevocation s2) (GetTermRevocation s1)
}.

Lemma cluster_inv_start c : cluster_start c -> cluster_inv c.
Proof. intros [Hr Hs]. constructor; rewrite ?Hr; try done; intros * H; try inversion H. Qed.

Lemma cluster_inv_step c c' : cluster_step c c' -> cluster_inv c -> cluster_inv c'.
Proof.
  intros Hstep [Hsync Hknown Hcur Hchain].
  destruct Hstep as [c k [cs fs] [cs' fs'] Hk Hn|c k n status Hk Hkey Hrev].
  - destruct (node_step_extends _ _ _ _ Hn (Hsync _ _ Hk)) as [Hs He]. constructor; cbn; [| | |done].
    + intros k' n' [[<- <-]|[_ ?]]%lookup_insert_Some; eauto.
    + intros s Hs'. destruct (Hknown s Hs') as [Hi ?]. split; [|done].
      apply lookup_insert_is_Some'. auto.
    + intros s n' Hin [[Hks <-]|[_ Hl]]%lookup_insert_Some; [|eauto].
      eapply extends_stored_trans; [|eapply Hcur; [done|by rewrite <- Hks]|done].
      by apply (in_sync_loaded (C := C)) with fs, (Hsync k).
  - assert (GetTermRevocation status <> None) as Hne.
    { rewrite Hrev. by apply (in_sync_loaded (C := C)) with n.2, (Hsync k). }
    assert (forall s, s ∈ reported c -> status_key s = status_key status ->
      extends_stored (GetTermRevocation s) (GetTermRevocation status)) as Hnew.
    { intros s Hs Heq. rewrite Hrev. apply Hcur; [done|]. by rewrite Heq, Hkey. }
    constructor; cbn; [done| | |].
    + intros s [?| ->%list_elem_of_singleton]%elem_of_app; [auto|]. rewrite Hkey, Hk. eauto.
    + intros s n' [?| ->%list_elem_of_singleton]%elem_of_app; [auto|]. rewrite Hkey, Hk. intros [= <-].
      rewrite Hrev. apply extends_stored_refl.
    + intros s1 s2 [?| ->%list_elem_of_singleton]%elem_of_app [?| ->%list_elem_of_singleton]%elem_of_app Heq;
        [auto|auto|right; by apply Hnew|left; apply extends_stored_refl].
Qed.

Lemma cluster_inv_reachable c0 c : cluster_start c0 -> rtc cluster_step c0 c -> cluster_inv c.
Proof.
  intros H0%cluster_inv_start Hs. induction Hs; [done|]. eauto using cluster_inv_step.
Qed.

(** The cohort a round had to recruit: that of the highest recorded decision among
    its recruits. *)
Definition round_cohort (rev : option TermRevocation) (statuses : Statuses) : IDs :=
  match discoverOutgoingRulePosition (round_recruits rev statuses) with
  | Ok (_, pos) => GetCohortMembers (GetDecision pos)
  | Err _ => []
  end.

Lemma BuildSafeProposal_majority rev statuses build proposal :
  BuildSafeProposal rev statuses build = Ok proposal ->
  checkRecruitedMajority (round_cohort rev statuses)
    (statusesToIDs (filterCohortStatuses (round_cohort rev statuses) (round_recruits rev statuses))) = None.
Proof.
  intros (pos & leaders & Hrun)%BuildSafeProposal_Ok.
  destruct (revokeByRecruitment_None _ (run_revoked _ _ _ _ _ _ Hrun eq_refl)) as (policy & _ & Hsuf).
  unfold round_cohort, round_recruits. rewrite (run_discovered _ _ _ _ _ _ Hrun).
  by apply CheckSufficientRecruitment_None in Hsuf as [? _].
Qed.

Lemma majorities_overlap cohort1 cohort2 r1 r2 :
  poolerKeysOf cohort1 = poolerKeysOf cohort2 ->
  checkRecruitedMajority cohort1 r1 = None -> checkRecruitedMajority cohort2 r2 = None ->
  exists k, k ∈ poolerKeysOf r1 /\ k ∈ poolerKeysOf r2.
Proof.
  intros Heq [Hs1 Hm1]%checkRecruitedMajority_None [Hs2 Hm2]%checkRecruitedMajority_None.
  rewrite <- Heq in Hs2, Hm2. by apply (majority_keys_overlap (poolerKeysOf cohort1)).
Qed.

(** C3: One coordinator per term.  In every run of a cluster, through crashes,
    failed writes and stale status reports, two proposals built at the same term
    over the same outgoing cohort come from the same coordinator and the same
    recruitment round. *)
Theorem one_round_per_term c0 c rev1 rev2 statuses1 statuses2 build1 build2 proposal1 proposal2 :
  cluster_start c0 -> rtc cluster_step c0 c ->
  (forall s, s ∈ statuses1 \/ s ∈ statuses2 -> s ∈ reported c) ->
  BuildSafeProposal rev1 statuses1 build1 = Ok proposal1 ->
  BuildSafeProposal rev2 statuses2 build2 = Ok proposal2 ->
  GetRevokedBelowTerm rev1 = GetRevokedBelowTerm rev2 ->
  poolerKeysOf (round_cohort rev1 statuses1) = poolerKeysOf (round_cohort rev2 statuses2) ->
  ClusterIDString (GetAcceptedCoordinatorId rev1) = ClusterIDString (GetAcceptedCoordinatorId rev2) /\
  GetCoordinatorInitiatedAt rev1 = GetCoordinatorInitiatedAt rev2.
Proof.
  intros H0 Hsteps Hrep Hb1%BuildSafeProposal_majority Hb2%BuildSafeProposal_majority Hterm Hcohort.
  pose proof (cluster_inv_reachable _ _ H0 Hsteps) as [_ Hknown _ Hchain].
  destruct (majorities_overlap _ _ _ _ Hcohort Hb1 Hb2) as (k & Hk1 & Hk2).
  apply elem_of_recruited_keys in Hk1 as (s1 & Hs1 & Hkey1 & _), Hk2 as (s2 & Hs2 & Hkey2 & _).
  apply elem_of_round_recruits in Hs1 as (Hs1 & Hr1 & _), Hs2 as (Hs2 & Hr2 & _).
  destruct (Hknown s1 ltac:(auto)) as [_ Hn1], (Hknown s2 ltac:(auto)) as [_ Hn2].
  destruct (Hchain s1 s2 ltac:(auto) ltac:(auto) ltac:(congruence)) as [He|He].
  - destruct (He Hn1) as (_ & _ & Hsame). rewrite Hr1, Hr2 in Hsame. auto.
  - destruct (He Hn2) as (_ & _ & Hsame). rewrite Hr1, Hr2 in Hsame.
    destruct (Hsame ltac:(lia)). auto.
Qed.
End cluster.

(** Two poolers that both hold term 2, as their disks do. *)
Definition demo_disk : FS := mkFS {["/data/consensus_promises.json" := "two"]}%string ∅.
Definition demo_cluster (statuses : Statuses) : Cluster :=
  mkCluster {[ClusterIDString p2 := (demo_node (demo_revocation 2 (rn 1 0)), demo_disk);
              ClusterIDString p3 := (demo_node (demo_revocation 2 (rn 1 0)), demo_disk)]} statuses.
Definition demo_reports : Statuses :=
  let r1 := demo_rule 1 p1 [p1; p2; p3] (at_least 2) in
  [demo_status p2 (demo_revocation 2 (rn 1 0)) (decided r1) "0/18";
   demo_status p3 (demo_revocation 2 (rn 1 0)) (decided r1) "0/10"].

Lemma demo_cluster_starts : cluster_start (demo_cluster []).
Proof.
  split; [done|]. intros k n. unfold demo_cluster. cbn [nodes].
  intros [[_ <-]|[_ [_ <-]%lookup_singleton_Some]]%lookup_insert_Some;
    eexists; vm_compute; reflexivity.
Qed.

Lemma demo_cluster_reachable : rtc cluster_step (demo_cluster []) (demo_cluster demo_reports).
Proof.
  eapply rtc_l; [eapply (cluster_report _ (ClusterIDString p2) _ (demo_reports !!! 0%nat)); reflexivity|].
  eapply rtc_l; [eapply (cluster_report _ (ClusterIDString p3) _ (demo_reports !!! 1%nat)); reflexivity|].
  apply rtc_refl.
Qed.

Lemma one_round_per_term_witness :
  ClusterIDString (GetAcceptedCoordinatorId (demo_revocation 2 (rn 1 0))) = ClusterIDString orch1.
Proof.
  assert (exists p, BuildSafeProposal (demo_revocation 2 (rn 1 0)) demo_reports demo_builder = Ok p)
    as [p Hp] by (eexists; vm_compute; reflexivity).
  exact (proj1 (one_round_per_term _ _ (demo_revocation 2 (rn 1 0)) (demo_revocation 2 (rn 1 0))
    demo_reports demo_reports demo_builder demo_builder p p demo_cluster_starts demo_cluster_reachable
    (fun s H => match H with or_introl h => h | or_intror h => h end) Hp Hp eq_refl eq_refl)).
Defined.
