(* ===== verification/ReplicaIdent.v ===== *)
(** go/services/multipooler/internal/manager/consensus/replicaident.go: a pooler's
    identity as a Postgres application_name, and back. *)

From Stdlib Require Import Ascii.
From stdpp Require Import base strings list.
From S2P Require Import Prelude ClusterMetadata Demo TopoId.

Local Open Scope Z_scope.

Definition MaxApplicationNameLength : Z := 63.

Record ReplicaID := mkReplicaID { rid_id : option ID; appName : string }.

#[export] Instance ReplicaID_eq_dec : EqDecision ReplicaID.
Proof. solve_decision. Defined.

Definition strlen (s : string) : Z := Z.of_nat (String.length s).

(** The approximate value comes back with the error. *)
Definition NewReplicaID (id : option ID) : ReplicaID * option gerror :=
  match id with
  | None => (mkReplicaID None "<nil>"%string, Some (err "nil ID"))
  | Some i =>
      let cell := if String.eqb (Cell i) "" then "<unknown>"%string else Cell i in
      let name := if String.eqb (Name i) "" then "<unknown>"%string else Name i in
      let app := (cell +:+ "_" +:+ name)%string in
      let rid := mkReplicaID id app in
      if String.eqb (Cell i) "" then (rid, Some (err "empty cell"))
      else if String.eqb (Name i) "" then (rid, Some (err "empty name"))
      else if negb (no_underscore (Cell i)) then (rid, Some (err "cell contains underscore"))
      else if negb (no_underscore (Name i)) then (rid, Some (err "name contains underscore"))
      else if MaxApplicationNameLength <? strlen app then
        (rid, Some (err "application name exceeds maximum length"))
      else (rid, None)
  end.

Definition ReplicaIDsToAppNames (ids : list ReplicaID) : list string := map appName ids.

(** Every ID is converted; the first error is reported with them. *)
Fixpoint ToReplicaIDs (ids : list (option ID)) : list ReplicaID * option gerror :=
  match ids with
  | [] => ([], None)
  | id :: ids' =>
      let '(rid, e) := NewReplicaID id in
      let '(rest, e') := ToReplicaIDs ids' in
      (rid :: rest, match e with Some e => Some (wrap "ids" e) | None => e' end)
  end.

Definition ParseApplicationName (app : string) : result (option ID) :=
  '(cell, name) ← SplitClusterID app;
  Ok (Some (mkID MULTIPOOLER cell name)).

Definition NewReplicaIDFromAppName (app : string) : ReplicaID * option gerror :=
  match ParseApplicationName app with
  | Err e => (mkReplicaID (Some (mkID MULTIPOOLER "" app)) app, Some e)
  | Ok id => (mkReplicaID id app, None)
  end.

Fixpoint parse_all (names : list string) : result (list ReplicaID) :=
  match names with
  | [] => Ok []
  | s :: names' =>
      id ← ParseApplicationName s;
      rest ← parse_all names';
      Ok (mkReplicaID id s :: rest)
  end.

(** A nil slice stays nil. *)
Definition ParseReplicaIDStrings (names : option (list string)) : result (option (list ReplicaID)) :=
  match names with
  | None => Ok None
  | Some l => rids ← parse_all l; Ok (Some rids)
  end.

(** ** Round trips *)

(** The IDs a replication connection may use. *)
Definition replica_ok (id : option ID) : Prop :=
  exists i, id = Some i /\ Component i = MULTIPOOLER /\ Cell i <> ""%string /\ Name i <> ""%string /\
    no_underscore (Cell i) = true /\ no_underscore (Name i) = true /\
    strlen (ClusterIDString id) <= MaxApplicationNameLength.

Lemma NewReplicaID_None id rid :
  NewReplicaID id = (rid, None) ->
  exists i, id = Some i /\ rid = mkReplicaID id (ClusterIDString id) /\ Cell i <> ""%string /\
    Name i <> ""%string /\ no_underscore (Cell i) = true /\ no_underscore (Name i) = true /\
    strlen (ClusterIDString id) <= MaxApplicationNameLength.
Proof.
  unfold NewReplicaID. destruct id as [i|]; [|done].
  destruct (String.eqb_spec (Cell i) ""); [done|]. destruct (String.eqb_spec (Name i) ""); [done|].
  destruct (no_underscore (Cell i)) eqn:Hc; [|done]. destruct (no_underscore (Name i)) eqn:Hn; [|done].
  cbn [negb]. destruct (_ <? _) eqn:Hl; [done|]. reflect_bools. intros [= <-].
  exists i. by split_and!.
Qed.

Lemma NewReplicaID_ok id : replica_ok id -> NewReplicaID id = (mkReplicaID id (ClusterIDString id), None).
Proof.
  intros (i & -> & _ & Hc & Hn & Huc & Hun & Hl). unfold NewReplicaID.
  apply String.eqb_neq in Hc, Hn. rewrite Hc, Hn, Huc, Hun. cbn [negb].
  change (Cell i +:+ "_" +:+ Name i)%string with (ClusterIDString (Some i)).
  destruct (_ <? _) eqn:E; reflect_bools; [lia|done].
Qed.

Lemma ParseApplicationName_key i :
  Component i = MULTIPOOLER -> Cell i <> ""%string -> Name i <> ""%string -> no_underscore (Cell i) = true ->
  ParseApplicationName (ClusterIDString (Some i)) = Ok (Some i).
Proof.
  intros Hm Hc Hn Hu. unfold ParseApplicationName, SplitClusterID. cbn.
  change (Cell i +:+ "_" +:+ Name i)%string with (Cell i +:+ "_" +:+ Name i)%string.
  rewrite split_underscore_app by done. apply String.eqb_neq in Hc, Hn. rewrite Hc, Hn. cbn.
  destruct i. cbn in *. by subst.
Qed.

(** A pooler's application_name identifies it.  An accepted name is at most 63
    bytes, is the cluster key of the ID, and parses back to the same pooler; two
    accepted IDs with the same name are the same cell and pooler name. *)
Theorem replica_id_round_trip id rid :
  NewReplicaID id = (rid, None) ->
  strlen (appName rid) <= MaxApplicationNameLength /\
  appName rid = ClusterIDString id /\
  ParseApplicationName (appName rid) = Ok (Some (mkID MULTIPOOLER (GetCell id) (GetName id))) /\
  forall id' rid', NewReplicaID id' = (rid', None) -> appName rid' = appName rid ->
    GetCell id' = GetCell id /\ GetName id' = GetName id.
Proof.
  intros (i & -> & -> & Hc & Hn & Hu & _ & Hl)%NewReplicaID_None. cbn [appName].
  split_and!; [done|done| |].
  - pose proof (ParseApplicationName_key (mkID MULTIPOOLER (Cell i) (Name i)) eq_refl Hc Hn Hu) as H. exact H.
  - intros id' rid' (i' & -> & -> & _ & _ & Hu' & _)%NewReplicaID_None Heq.
    apply ClusterIDString_inj; [by exists i'|by exists i|done].
Qed.

Lemma replica_id_round_trip_witness :
  ParseApplicationName (appName (fst (NewReplicaID p1))) = Ok p1.
Proof. apply (replica_id_round_trip p1). reflexivity. Defined.

(** A cohort written as application names reads back as the same cohort, in
    the same order, when every member is a valid replica. *)
Theorem replica_ids_round_trip ids :
  Forall replica_ok ids ->
  snd (ToReplicaIDs ids) = None /\
  ParseReplicaIDStrings (Some (ReplicaIDsToAppNames (fst (ToReplicaIDs ids)))) =
    Ok (Some (fst (ToReplicaIDs ids))) /\
  map rid_id (fst (ToReplicaIDs ids)) = ids.
Proof.
  intros H. assert (snd (ToReplicaIDs ids) = None /\
    parse_all (ReplicaIDsToAppNames (fst (ToReplicaIDs ids))) = Ok (fst (ToReplicaIDs ids)) /\
    map rid_id (fst (ToReplicaIDs ids)) = ids) as (H1 & H2 & H3).
  { induction H as [|id ids Hid _ IH]; [done|]. cbn [ToReplicaIDs].
    rewrite (NewReplicaID_ok id Hid). destruct (ToReplicaIDs ids) as [rest e] eqn:Ht. cbn [fst snd] in *.
    destruct IH as (-> & IH & Hids). split_and!; [done| |cbn; by rewrite Hids].
    cbn [ReplicaIDsToAppNames map appName parse_all].
    destruct Hid as (i & -> & Hm & Hc & Hn & Hu & _). rewrite ParseApplicationName_key by done. cbn.
    unfold ReplicaIDsToAppNames in IH. by rewrite IH. }
  split_and!; [done| |done]. unfold ParseReplicaIDStrings. by rewrite H2.
Qed.

Lemma replica_ids_round_trip_witness :
  map rid_id (fst (ToReplicaIDs [p1; p2; p3])) = [p1; p2; p3].
Proof.
  apply (replica_ids_round_trip [p1; p2; p3]).
  repeat constructor; (eexists; split_and!; [reflexivity|reflexivity|discriminate|discriminate|
    reflexivity|reflexivity|vm_compute; discriminate]).
Defined.
