(* ===== verification/SyncStandby.v ===== *)
(** go/services/multipooler/internal/manager/consensus/sync_standby_names.go and
    sync_standby_manager.go: the synchronous-replication settings of the primary.

    Postgres has a configuration file, changed by ALTER SYSTEM, and a live
    configuration, refreshed from the file by a reload.  A statement that fails
    may or may not have taken effect. *)

From Stdlib Require Import Ascii.
From stdpp Require Import base gmap strings list pretty.
From S2P Require Import Prelude ClusterMetadata Demo TopoId Cohort Durability ReplicaIdent.
From S2P Require Import ActionLock.

Local Open Scope Z_scope.

(** Wrap-around of a conversion to [int32]. *)
Definition wrap32 (z : Z) : Z := (z + 2 ^ 31) mod 2 ^ 32 - 2 ^ 31.

Definition dquote : Ascii.ascii := "034"%char.
Definition quoted (s : string) : string := String dquote (s +:+ String dquote EmptyString).

Definition FormatStandbyList (ids : list ReplicaID) : string :=
  String.concat ", " (map (fun id => quoted (appName id)) ids).

Definition BuildSynchronousStandbyNamesValue (method : SynchronousMethod) (numSync : Z)
    (names : list ReplicaID) : result string :=
  match names with
  | [] => Ok ""%string
  | _ =>
      methodStr ← match method with
                  | SYNCHRONOUS_METHOD_FIRST => Ok "FIRST"%string
                  | SYNCHRONOUS_METHOD_ANY => Ok "ANY"%string
                  | _ => Err (err "invalid synchronous method, must be FIRST or ANY")
                  end;
      Ok (methodStr +:+ " " +:+ pretty numSync +:+ " (" +:+ FormatStandbyList names +:+ ")")%string
  end.

Definition ValidateStandbyIDs (standbyIDs : IDs) : result (list ReplicaID) :=
  if len standbyIDs =? 0 then Err (err "standby_ids cannot be empty")
  else match ToReplicaIDs standbyIDs with
       | (_, Some e) => Err (wrap "invalid standby_ids" e)
       | (pids, None) => Ok pids
       end.

Definition ValidateSyncReplicationParams (numSync : Z) (standbyIDs : IDs) : result (list ReplicaID) :=
  if numSync <? 0 then Err (err "num_sync must be non-negative")
  else if 0 <? len standbyIDs then
    if wrap32 (len standbyIDs) <? numSync then
      Err (err "num_sync cannot exceed number of standby_ids")
    else ValidateStandbyIDs standbyIDs
  else Ok [].

Definition ApplyAddOperation (currentStandbys newStandbys : list ReplicaID) : list ReplicaID :=
  let existing := map appName currentStandbys in
  currentStandbys ++ filter (fun s => appName s ∉ existing) newStandbys.

Definition ApplyRemoveOperation (currentStandbys standbysToRemove : list ReplicaID) : list ReplicaID :=
  let remove := map appName standbysToRemove in
  filter (fun s => appName s ∉ remove) currentStandbys.

Definition syncCommitString (level : SynchronousCommitLevel) : result string :=
  match level with
  | SYNCHRONOUS_COMMIT_OFF => Ok "off"
  | SYNCHRONOUS_COMMIT_LOCAL => Ok "local"
  | SYNCHRONOUS_COMMIT_REMOTE_WRITE => Ok "remote_write"
  | SYNCHRONOUS_COMMIT_ON => Ok "on"
  | SYNCHRONOUS_COMMIT_REMOTE_APPLY => Ok "remote_apply"
  | SYNCHRONOUS_COMMIT_UNNAMED _ => Err (err "unknown synchronous_commit level")
  end%string.

(** ** Postgres *)

Record PgConf := mkPgConf {
  file_commit : string; file_standby : string;
  live_commit : string; live_standby : string
}.

(** A statement succeeds, or reports an error having taken effect or not. *)
Inductive exec_result := ExecOk | ExecErr (applied : bool).

Definition took_effect (r : exec_result) : bool := match r with ExecOk => true | ExecErr b => b end.
Definition exec_error (r : exec_result) : option gerror :=
  match r with ExecOk => None | ExecErr _ => Some (err "exec") end.

Definition alter_commit (pg : PgConf) (v : string) (r : exec_result) : PgConf :=
  if took_effect r then mkPgConf v (file_standby pg) (live_commit pg) (live_standby pg) else pg.
Definition alter_standby (pg : PgConf) (v : string) (r : exec_result) : PgConf :=
  if took_effect r then mkPgConf (file_commit pg) v (live_commit pg) (live_standby pg) else pg.
Definition reload (pg : PgConf) (r : exec_result) : PgConf :=
  if took_effect r then mkPgConf (file_commit pg) (file_standby pg) (file_commit pg) (file_standby pg) else pg.

(** ** The manager *)

Record postgresqlSyncStandbyManager := mkSyncStandbyManager {
  localID : option ID;
  lastSyncCommit : string;
  lastStandbyNames : string
}.

Definition NewSyncStandbyManager (id : option ID) : postgresqlSyncStandbyManager :=
  mkSyncStandbyManager id "" "".

Record computedGUC := mkComputedGUC {
  guc_cfg : option SyncReplicationConfig;
  guc_names : list ReplicaID;
  wantCommit : string;
  wantStandby : string
}.

Definition computeGUC (s : postgresqlSyncStandbyManager) (pc : PolicyWithCohort) : result computedGUC :=
  match Policy pc with
  | None => Err (err "panic: nil DurabilityPolicy")
  | Some policy =>
      cfg ← wrap_result "build GUC config" (BuildSyncReplicationConfig policy (pwc_Cohort pc) (localID s));
      standbyNames ← ValidateSyncReplicationParams (wrap32 (NumSync cfg)) (SyncStandbyIDs cfg);
      if len standbyNames =? 0 then Ok (mkComputedGUC None [] "" "")
      else
        commit ← syncCommitString (SyncCommit cfg);
        standby ← BuildSynchronousStandbyNamesValue (SyncMethod cfg) (wrap32 (NumSync cfg)) standbyNames;
        Ok (mkComputedGUC (Some cfg) standbyNames commit standby)
  end.

Definition set_cache (s : postgresqlSyncStandbyManager) (commit standby : string)
    : postgresqlSyncStandbyManager := mkSyncStandbyManager (localID s) commit standby.

Definition unchanged (s : postgresqlSyncStandbyManager) (g : computedGUC) : bool :=
  String.eqb (lastSyncCommit s) (wantCommit g) && String.eqb (lastStandbyNames s) (wantStandby g).

(** [query] is what reading the live settings answers; [None] is a failed query
    or scan. *)
Definition NeedsApply (s : postgresqlSyncStandbyManager) (pc : PolicyWithCohort)
    (query : option (string * string)) : postgresqlSyncStandbyManager * result bool :=
  match computeGUC s pc with
  | Err e => (s, Err e)
  | Ok g =>
      match query with
      | None => (s, Ok (negb (unchanged s g)))
      | Some (pgCommit, pgStandby) =>
          (set_cache s pgCommit pgStandby,
           Ok (negb (String.eqb pgCommit (wantCommit g) && String.eqb pgStandby (wantStandby g))))
      end
  end.

(** [drained] is whether the context proves that prior rule writes are drained. *)
Definition SetPolicy (s : postgresqlSyncStandbyManager) (pg : PgConf) (fl : list bool) (ctx : Context_)
    (drained : bool) (pc : PolicyWithCohort) (on_commit on_standby on_reload : exec_result)
    : postgresqlSyncStandbyManager * PgConf * option gerror :=
  match AssertActionLockHeld fl ctx with
  | Some e => (s, pg, Some (wrap "SetPolicy" e))
  | None =>
  if negb drained then (s, pg, Some (wrap "SetPolicy" (err "SetPolicy requires prior rule writes to be drained")))
  else match computeGUC s pc with
  | Err e => (s, pg, Some (wrap "SetPolicy" e))
  | Ok g =>
  if String.eqb (wantCommit g) "" then (s, pg, Some (err "SetPolicy: policy produced no eligible standbys"))
  else if unchanged s g then (s, pg, None)
  else
  let pg := alter_commit pg (wantCommit g) on_commit in
  match exec_error on_commit with
  | Some e => (s, pg, Some (wrap "failed to set synchronous_commit" e))
  | None =>
  let pg := alter_standby pg (wantStandby g) on_standby in
  match exec_error on_standby with
  | Some e => (s, pg, Some (wrap "failed to set synchronous_standby_names" e))
  | None =>
  let pg := reload pg on_reload in
  match exec_error on_reload with
  | Some e => (s, pg, Some e)
  | None => (set_cache s (wantCommit g) (wantStandby g), pg, None)
  end end end end end.

Definition Clear (s : postgresqlSyncStandbyManager) (pg : PgConf) (fl : list bool) (ctx : Context_)
    (inRecovery : result bool) (on_reset on_reload : exec_result)
    : postgresqlSyncStandbyManager * PgConf * option gerror :=
  match AssertActionLockHeld fl ctx with
  | Some e => (s, pg, Some e)
  | None =>
  match inRecovery with
  | Err e => (s, pg, Some (wrap "clear: could not verify recovery mode" e))
  | Ok false => (s, pg, Some (err "clear: postgres is not in recovery mode"))
  | Ok true =>
  let pg := alter_standby pg "" on_reset in
  match exec_error on_reset with
  | Some e => (s, pg, Some (wrap "clear: failed to reset synchronous_standby_names" e))
  | None =>
  let pg := reload pg on_reload in
  match exec_error on_reload with
  | Some e => (s, pg, Some (wrap "clear" e))
  | None => (set_cache s "" "", pg, None)
  end end end end.

(** ** Correctness of the cache *)

(** A cache that names settings names the ones in the file and in force. *)
Definition cache_valid (s : postgresqlSyncStandbyManager) (pg : PgConf) : Prop :=
  lastSyncCommit s <> ""%string ->
  file_commit pg = lastSyncCommit s /\ file_standby pg = lastStandbyNames s /\
  live_commit pg = lastSyncCommit s /\ live_standby pg = lastStandbyNames s.

Definition wanted (s : postgresqlSyncStandbyManager) (pc : PolicyWithCohort) (pg : PgConf) : Prop :=
  exists g, computeGUC s pc = Ok g /\ wantCommit g <> ""%string /\
    live_commit pg = wantCommit g /\ live_standby pg = wantStandby g.

Lemma SetPolicy_Ok s pg fl ctx drained pc c1 c2 c3 s' pg' :
  cache_valid s pg ->
  SetPolicy s pg fl ctx drained pc c1 c2 c3 = (s', pg', None) ->
  wanted s pc pg' /\ cache_valid s' pg' /\ localID s' = localID s.
Proof.
  intros Hv. unfold SetPolicy. destruct (AssertActionLockHeld _ _); [done|]. destruct drained; [|done]. cbn [negb].
  destruct (computeGUC s pc) as [g|] eqn:Hg; [|done].
  destruct (String.eqb_spec (wantCommit g) ""); [done|].
  destruct (unchanged s g) eqn:Hu.
  - intros [= <- <-]. apply andb_true_iff in Hu as [H1%String.eqb_eq H2%String.eqb_eq].
    destruct Hv as (? & ? & ? & ?) ; [congruence|]. split_and!; [|done|done].
    exists g. split_and!; try done; congruence.
  - destruct c1; [|done]. destruct c2; [|done]. destruct c3; [|done]. cbn. intros [= <- <-].
    split_and!; [by exists g|done|done].
Qed.

(** [SetPolicy] reports success only when the policy's settings are in force:
    with a valid cache, a nil error means Postgres runs with exactly the
    synchronous_commit and synchronous_standby_names the policy computes, whether
    they were written now or found unchanged, and the cache is valid again. *)
Theorem set_policy_in_force s pg fl ctx drained pc c1 c2 c3 s' pg' :
  cache_valid s pg ->
  SetPolicy s pg fl ctx drained pc c1 c2 c3 = (s', pg', None) ->
  wanted s pc pg' /\ cache_valid s' pg' /\ localID s' = localID s.
Proof. apply SetPolicy_Ok. Qed.

Lemma computeGUC_localID s s' pc : localID s = localID s' -> computeGUC s pc = computeGUC s' pc.
Proof. unfold computeGUC. by intros ->. Qed.

Lemma wanted_localID s s' pc pg : localID s = localID s' -> wanted s pc pg -> wanted s' pc pg.
Proof. intros Hid (g & Hg & H). exists g. by rewrite (computeGUC_localID s' s) by done. Qed.

Definition demo_pc (n : Z) (cohort : IDs) : PolicyWithCohort :=
  mkPolicyWithCohort (Some (AtLeastNValue (mkAtLeastNPolicy n))) cohort.
Definition demo_lock : Context_ := Some (mkActionLockValue 1 "Promote" 0).

Definition demo_set : postgresqlSyncStandbyManager * PgConf * option gerror :=
  SetPolicy (NewSyncStandbyManager p1) (mkPgConf "on" "" "on" "") [false] demo_lock
    true (demo_pc 2 [p1; p2; p3]) ExecOk ExecOk ExecOk.

Lemma demo_set_eq : demo_set = (fst (fst demo_set), snd (fst demo_set), None).
Proof. vm_compute. reflexivity. Qed.

Lemma demo_cache_valid : cache_valid (NewSyncStandbyManager p1) (mkPgConf "on" "" "on" "").
Proof. intros H. by destruct H. Qed.

Lemma set_policy_in_force_witness :
  wanted (NewSyncStandbyManager p1) (demo_pc 2 [p1; p2; p3]) (snd (fst demo_set)).
Proof. exact (proj1 (set_policy_in_force _ _ _ _ _ _ _ _ _ _ _ demo_cache_valid demo_set_eq)). Defined.

(** A failed [SetPolicy] leaves a cache that lies.  After applying policy A,
    an attempt at policy B that fails in the reload has already changed the
    settings; applying A again is skipped as unchanged and reports success while
    Postgres runs with B's settings. *)
Theorem set_policy_stale_cache :
  let a := demo_pc 2 [p1; p2; p3] in
  let b := demo_pc 2 [p1; p2] in
  let '(s1, pg1, e1) := SetPolicy (NewSyncStandbyManager p1) (mkPgConf "on" "" "on" "") [false] demo_lock
                          true a ExecOk ExecOk ExecOk in
  let '(s2, pg2, e2) := SetPolicy s1 pg1 [false] demo_lock true b ExecOk ExecOk (ExecErr true) in
  let '(s3, pg3, e3) := SetPolicy s2 pg2 [false] demo_lock true a ExecOk ExecOk ExecOk in
  e1 = None /\ is_Some e2 /\ e3 = None /\ ~ wanted s3 a pg3 /\ wanted s3 b pg3.
Proof.
  vm_compute. split_and!; [done|by eexists|done| |].
  - intros (g & [= <-] & _ & _ & [=]).
  - eexists. split_and!; [reflexivity|discriminate|reflexivity|reflexivity].
Qed.

(** [Clear] never lowers durability on a primary: it changes nothing unless
    Postgres was observed in recovery, and a successful clear leaves no
    synchronous standby configured or live and an empty cache. *)
Theorem clear_only_in_recovery s pg fl ctx inRecovery c1 c2 s' pg' e :
  Clear s pg fl ctx inRecovery c1 c2 = (s', pg', e) ->
  (inRecovery <> Ok true -> s' = s /\ pg' = pg /\ e <> None) /\
  (e = None -> file_standby pg' = ""%string /\ live_standby pg' = ""%string /\ cache_valid s' pg').
Proof.
  unfold Clear. destruct (AssertActionLockHeld _ _); [by intros [= <- <- <-]|].
  destruct inRecovery as [[]|]; [|by intros [= <- <- <-]..].
  destruct c1 as [|[]]; [|by intros [= <- <- <-]..].
  destruct c2 as [|[]]; by intros [= <- <- <-].
Qed.

Lemma clear_only_in_recovery_witness :
  let '(s', pg', e) := Clear (mkSyncStandbyManager p1 "on" "x") (mkPgConf "on" "x" "on" "x") [false] demo_lock
                         (Ok true) ExecOk ExecOk in live_standby pg' = ""%string.
Proof.
  refine (proj1 (proj2 (proj2 (clear_only_in_recovery (mkSyncStandbyManager p1 "on" "x")
    (mkPgConf "on" "x" "on" "x") [false] demo_lock (Ok true) ExecOk ExecOk _ _ _ eq_refl) eq_refl))).
Defined.

(** A policy that needs only the primary's own acknowledgement cannot be
    applied: the configuration it builds has no standbys, and [SetPolicy] refuses
    it without touching Postgres. *)
Theorem set_policy_refuses_single_ack s pg fl ctx cohort c1 c2 c3 :
  exists e, SetPolicy s pg fl ctx true (demo_pc 1 cohort) c1 c2 c3 = (s, pg, Some e).
Proof.
  unfold SetPolicy. destruct (AssertActionLockHeld _ _); [eauto|]. cbn [negb].
  destruct (computeGUC s (demo_pc 1 cohort)) as [g|] eqn:Hg; [|eauto].
  enough (wantCommit g = ""%string) as -> by (cbn; eauto).
  unfold computeGUC in Hg. cbn in Hg. unfold AtLeastN_BuildSyncReplicationConfig in Hg.
  destruct (requirePrimaryInCohort _ _); [done|]. cbn in Hg. by injection Hg as <-.
Qed.
