(* ===== verification/RuleDb.v ===== *)
(** go/services/multipooler/internal/manager/consensus/rule_store.go, the database
    side: the tables multigres.current_rule and multigres.rule_history, the SQL
    statements that write them, and the parsing of their rows into a position.

    current_rule has one row per shard and the code uses shard 0 only, so the
    table is an optional row.  A statement is a function of the database: [None]
    is a statement Postgres rejects and rolls back, and the rows it returns come
    with the database it leaves.  Every data-modifying part of a WITH statement
    runs, whatever the final SELECT returns. *)

From stdpp Require Import base gmap strings list pretty.
From S2P Require Import Prelude ClusterMetadata Demo TopoId Ordering Compare ReplicaIdent.
From S2P Require Import SyncStandby.

Local Open Scope Z_scope.

(** Times are nanoseconds since the Unix epoch; [timestamptz] is what a
    timestamptz column gives back for a Go time, and [timestamppb_New] the
    well-known-type constructor. *)
Class SqlClock := {
  timestamptz : Z -> Z;
  timestamppb_New : Z -> Timestamp
}.

(** [time.Time{}], the first of January of year 1. *)
Definition zero_go_time : Z := -62135596800000000000.

Definition QuorumType_String (q : QuorumType) : string :=
  match q with
  | QUORUM_TYPE_UNKNOWN => "QUORUM_TYPE_UNKNOWN"
  | QUORUM_TYPE_AT_LEAST_N => "QUORUM_TYPE_AT_LEAST_N"
  | QUORUM_TYPE_MULTI_CELL_AT_LEAST_N => "QUORUM_TYPE_MULTI_CELL_AT_LEAST_N"
  | QUORUM_TYPE_UNNAMED wire => pretty wire
  end.

Definition QuorumType_value (s : string) : option QuorumType :=
  if String.eqb s "QUORUM_TYPE_UNKNOWN" then Some QUORUM_TYPE_UNKNOWN
  else if String.eqb s "QUORUM_TYPE_AT_LEAST_N" then Some QUORUM_TYPE_AT_LEAST_N
  else if String.eqb s "QUORUM_TYPE_MULTI_CELL_AT_LEAST_N" then Some QUORUM_TYPE_MULTI_CELL_AT_LEAST_N
  else None.

(** ** Rows *)

(** One rule as scanned: every column is nullable. *)
Record unvalidatedRuleRow := mkUnvalidatedRuleRow {
  coordinatorTerm : option Z;
  leaderSubterm : option Z;
  leaderIDStr : option string;
  cohortNames : option (list string);
  durabilityPolicyName : option string;
  durabilityQuorumType : option string;
  durabilityRequiredCount : option Z;
  createdAt : option Z
}.

Definition null_row : unvalidatedRuleRow := mkUnvalidatedRuleRow None None None None None None None None.

(** The decision columns, NOT NULL but for the leader. *)
Record DecisionCols := mkDecisionCols {
  decision_coordinator_term : Z;
  decision_leader_subterm : Z;
  leader_id : option string;
  cohort_members : list string;
  durability_policy_name : string;
  durability_quorum_type : string;
  durability_required_count : Z;
  created_at : Z
}.

Record current_rule := mkCurrentRule {
  decision_cols : DecisionCols;
  coordinator_id : string;
  proposal_cols : unvalidatedRuleRow
}.

Record rule_history := mkRuleHistory {
  h_event_type : string;
  h_leader_id : option string;
  h_coordinator_id : string;
  h_wal_position : option string;
  h_operation : option string;
  h_reason : string;
  h_cohort_members : list string;
  h_accepted_members : option (list string);
  h_policy_name : string;
  h_quorum_type : string;
  h_required_count : Z;
  h_decided : bool;
  h_created_at : Z
}.

Record RuleDb := mkRuleDb {
  db_row : option current_rule;
  db_history : gmap (Z * Z) rule_history
}.

Definition scan_decision (d : DecisionCols) : unvalidatedRuleRow :=
  mkUnvalidatedRuleRow (Some (decision_coordinator_term d)) (Some (decision_leader_subterm d)) (leader_id d)
    (Some (cohort_members d)) (Some (durability_policy_name d)) (Some (durability_quorum_type d))
    (Some (durability_required_count d)) (Some (created_at d)).

(** ** Parsing *)

Fixpoint appNamesToIDs (names : list string) : result (list (option ID)) :=
  match names with
  | [] => Ok []
  | name :: names' =>
      id ← wrap_result "invalid ID" (ParseApplicationName name);
      ids ← appNamesToIDs names';
      Ok (id :: ids)
  end.

Definition buildShardRule (term sub : Z) (leader : option string) (cohort : list string)
    (policyName quorumType : string) (requiredCount : Z) : result ShardRule :=
  leaderId ← match leader with
             | None => Ok None
             | Some s => wrap_result "failed to parse leader_id" (ParseApplicationName s)
             end;
  cohortIDs ← wrap_result "failed to parse cohort_members" (appNamesToIDs cohort);
  match QuorumType_value quorumType with
  | None => Err (err "unknown quorum_type")
  | Some v =>
      Ok (mkShardRule (Some (mkRuleNumber term sub)) leaderId cohortIDs
            (Some (mkDurabilityPolicyMsg policyName 0 v (wrap32 requiredCount) ""%string)) None None)
  end.

Definition is_set {A} (x : option A) : bool := match x with Some _ => true | None => false end.

Section clock.
  Context `{C : SqlClock}.

Definition set_creation_time (rule : ShardRule) (at_ : option Z) : ShardRule :=
  match at_ with
  | Some t =>
      if t =? zero_go_time then rule
      else mkShardRule (sr_RuleNumber rule) (LeaderId rule) (CohortMembers rule) (sr_DurabilityPolicy rule)
             (CoordinatorId rule) (Some (timestamppb_New t))
  | None => rule
  end.

Definition validate (r : unvalidatedRuleRow) : result (option ShardRule) :=
  let set := foldl (fun set (isSet : bool) => if isSet then set + 1 else set) 0
    [is_set (coordinatorTerm r); is_set (leaderSubterm r); is_set (durabilityPolicyName r);
     is_set (durabilityQuorumType r); is_set (durabilityRequiredCount r)] in
  if set =? 0 then Ok None
  else match coordinatorTerm r, leaderSubterm r, durabilityPolicyName r, durabilityQuorumType r,
             durabilityRequiredCount r with
  | Some term, Some sub, Some name, Some qt, Some count =>
      rule ← buildShardRule term sub (leaderIDStr r) (default [] (cohortNames r)) name qt count;
      Ok (Some (set_creation_time rule (createdAt r)))
  | _, _, _, _, _ => Err (err "partially populated rule row")
  end.

Definition set_coordinator (rule : ShardRule) (coordinator : option ID) : ShardRule :=
  mkShardRule (sr_RuleNumber rule) (LeaderId rule) (CohortMembers rule) (sr_DurabilityPolicy rule)
    coordinator (CreationTime rule).

Definition buildPoolerPosition (decision : unvalidatedRuleRow) (coordinatorIDStr : string)
    (proposal : unvalidatedRuleRow) (lsn : string) : result PoolerPosition :=
  decisionRule ← wrap_result "failed to parse decision" (validate decision);
  match decisionRule with
  | None => Err (err "current_rule row has no decision")
  | Some rule =>
      rule ← (if String.eqb coordinatorIDStr "" then Ok rule
              else '(cell, name) ← wrap_result "failed to parse coordinator_id" (SplitClusterID coordinatorIDStr);
                   Ok (set_coordinator rule (Some (mkID MULTIORCH cell name))));
      proposalRule ← wrap_result "failed to parse proposal" (validate proposal);
      Ok (mkPoolerPosition (Some (mkRulePosition (Some rule) proposalRule)) lsn)
  end.

Definition row_position (row : current_rule) (lsn : string) : result PoolerPosition :=
  buildPoolerPosition (scan_decision (decision_cols row)) (coordinator_id row) (proposal_cols row) lsn.

(** ** Statements *)

(** The tables as [CreateRuleTables] leaves them; [now] is Postgres' clock. *)
Definition CreateRuleTables (policy : option DurabilityPolicyMsg) (bootstrapID : option ID) (now : Z)
    : result RuleDb :=
  match policy with
  | None => Err (err "durability policy required to initialize rule tables")
  | Some p =>
      if bool_decide (dp_QuorumType p = QUORUM_TYPE_UNKNOWN) || (RequiredCount p <=? 0) then
        Err (err "invalid durability policy")
      else if bool_decide (bootstrapID = None) then Err (err "bootstrapID is required to initialize rule tables")
      else Ok (mkRuleDb
        (Some (mkCurrentRule
           (mkDecisionCols 0 1 None [] (PolicyName p) (QuorumType_String (dp_QuorumType p)) (RequiredCount p)
              (timestamptz now))
           (ClusterIDString bootstrapID) null_row)) ∅)
  end.

Record ruleProposalWriteParams := mkRuleProposalWriteParams {
  casTerm : Z; casSubterm : Z;
  newTerm : Z; newSubterm : Z;
  newLeaderStr : string;
  newCohort : list string;
  dpName : string;
  dpQuorumType : string;
  dpRequiredCount : Z;
  p_createdAt : Z;
  p_eventType : string;
  p_walPosition : string;
  p_operation : string;
  p_reason : string;
  p_acceptedMembers : option (list string);
  coordinatorIDStr : string
}.

Definition nullif_empty (s : string) : option string := if String.eqb s "" then None else Some s.

Definition proposal_of (p : ruleProposalWriteParams) : unvalidatedRuleRow :=
  mkUnvalidatedRuleRow (Some (newTerm p)) (Some (newSubterm p)) (nullif_empty (newLeaderStr p))
    (Some (newCohort p)) (Some (dpName p)) (Some (dpQuorumType p)) (Some (dpRequiredCount p))
    (Some (timestamptz (p_createdAt p))).

Definition history_of (p : ruleProposalWriteParams) : rule_history :=
  mkRuleHistory (p_eventType p) (nullif_empty (newLeaderStr p)) (coordinatorIDStr p)
    (nullif_empty (p_walPosition p)) (nullif_empty (p_operation p)) (p_reason p) (newCohort p)
    (p_acceptedMembers p) (dpName p) (dpQuorumType p) (dpRequiredCount p) false (timestamptz (p_createdAt p)).

(** The statement of [writeRuleProposal]: a duplicate rule number in rule_history
    violates its primary key, and the INT column bounds the count. *)
Definition sql_propose (p : ruleProposalWriteParams) (db : RuleDb) : option (RuleDb * option current_rule) :=
  match db_row db with
  | None => Some (db, None)
  | Some row =>
      if (decision_coordinator_term (decision_cols row) =? casTerm p) &&
         (decision_leader_subterm (decision_cols row) =? casSubterm p) then
        if negb (wrap32 (dpRequiredCount p) =? dpRequiredCount p) then None
        else match db_history db !! (newTerm p, newSubterm p) with
        | Some _ => None
        | None =>
            let row' := mkCurrentRule (decision_cols row) (coordinator_id row) (proposal_of p) in
            Some (mkRuleDb (Some row') (<[(newTerm p, newSubterm p) := history_of p]> (db_history db)), Some row')
        end
      else Some (db, None)
  end.

Definition proposal_is (row : current_rule) (term sub : Z) : bool :=
  bool_decide (coordinatorTerm (proposal_cols row) = Some term) &&
  bool_decide (leaderSubterm (proposal_cols row) = Some sub).

(** The NOT NULL columns of a decision taken from the proposal columns. *)
Definition decide_cols (r : unvalidatedRuleRow) (at_ : Z) : option DecisionCols :=
  match coordinatorTerm r, leaderSubterm r, cohortNames r, durabilityPolicyName r, durabilityQuorumType r,
        durabilityRequiredCount r with
  | Some term, Some sub, Some cohort, Some name, Some qt, Some count =>
      Some (mkDecisionCols term sub (leaderIDStr r) cohort name qt count (timestamptz at_))
  | _, _, _, _, _, _ => None
  end.

Definition set_decided (h : rule_history) : rule_history :=
  mkRuleHistory (h_event_type h) (h_leader_id h) (h_coordinator_id h) (h_wal_position h) (h_operation h)
    (h_reason h) (h_cohort_members h) (h_accepted_members h) (h_policy_name h) (h_quorum_type h)
    (h_required_count h) true (h_created_at h).

(** The statement of [markProposalAsDecision].  The history update does not join
    the locked row: it runs whether or not the compare-and-swap matched. *)
Definition sql_decide (term sub : Z) (coordinator : string) (at_ : Z) (db : RuleDb)
    : option (RuleDb * option current_rule) :=
  let history := alter set_decided (term, sub) (db_history db) in
  match db_row db with
  | None => Some (mkRuleDb None history, None)
  | Some row =>
      if proposal_is row term sub then
        match decide_cols (proposal_cols row) at_ with
        | None => None
        | Some d =>
            let row' := mkCurrentRule d coordinator null_row in
            Some (mkRuleDb (Some row') history,
                  match db_history db !! (term, sub) with Some _ => Some row' | None => None end)
        end
      else Some (mkRuleDb (Some row) history, None)
  end.

(** The statement of [confirmProposalQuorum]: a write that changes nothing. *)
Definition sql_confirm (term sub : Z) (db : RuleDb) : option (RuleDb * bool) :=
  match db_row db with
  | None => Some (db, false)
  | Some row => Some (db, proposal_is row term sub)
  end.

End clock.

(** ** The two-phase write, statement by statement *)

Abbreviation rule_no := (Z * Z)%type.
Definition no_lt (a b : rule_no) : Prop := a.1 < b.1 \/ (a.1 = b.1 /\ a.2 < b.2).
Definition no_le (a b : rule_no) : Prop := a = b \/ no_lt a b.

Definition decision_no (row : current_rule) : rule_no :=
  (decision_coordinator_term (decision_cols row), decision_leader_subterm (decision_cols row)).

Definition p_cas (p : ruleProposalWriteParams) : rule_no := (casTerm p, casSubterm p).
Definition p_new (p : ruleProposalWriteParams) : rule_no := (newTerm p, newSubterm p).

Section steps.
  Context `{C : SqlClock}.

(** The statements in any order and any number, failed compare-and-swaps
    included.  The premises of [step_propose] are not enforced by the statement but
    by its caller: [UpdateRule] writes a proposal over a decided row, with a number
    above the one it replaces ([update_rule_refines_statements] shows that it
    does). *)
Inductive db_step : RuleDb -> RuleDb -> Prop :=
| step_propose p db db' r :
    (forall row, db_row db = Some row -> proposal_cols row = null_row) ->
    no_lt (p_cas p) (p_new p) ->
    sql_propose p db = Some (db', r) -> db_step db db'
| step_decide term sub coordinator at_ db db' r :
    sql_decide term sub coordinator at_ db = Some (db', r) -> db_step db db'
| step_confirm term sub db db' r :
    sql_confirm term sub db = Some (db', r) -> db_step db db'.

(** The columns a rule and its history row share. *)
Record same_rule (d : DecisionCols) (h : rule_history) : Prop := {
  same_leader : h_leader_id h = leader_id d;
  same_cohort : h_cohort_members h = cohort_members d;
  same_policy : h_policy_name h = durability_policy_name d;
  same_quorum : h_quorum_type h = durability_quorum_type d;
  same_count : h_required_count h = durability_required_count d
}.

(** History rows other than the pending proposal's are decided and not above the
    decision; the pending proposal's row is there, undecided, with its content. *)
Record pending (row : current_rule) (history : gmap (Z * Z) rule_history) : Prop := {
  pending_rows : forall k h, history !! k = Some h ->
    (exists d, decide_cols (proposal_cols row) 0 = Some d /\
       k = (decision_coordinator_term d, decision_leader_subterm d)) \/
    (h_decided h = true /\ no_le k (decision_no row));
  pending_proposal : proposal_cols row = null_row \/
    exists d h, decide_cols (proposal_cols row) 0 = Some d /\
      history !! (decision_coordinator_term d, decision_leader_subterm d) = Some h /\
      h_decided h = false /\ same_rule d h /\
      no_lt (decision_no row) (decision_coordinator_term d, decision_leader_subterm d)
}.

Record rule_db_inv (db : RuleDb) : Prop := {
  inv_row : exists row, db_row db = Some row /\ pending row (db_history db) /\
    (decision_no row = (0, 1) \/ is_Some (db_history db !! decision_no row)) /\
    forall h, db_history db !! decision_no row = Some h -> same_rule (decision_cols row) h
}.

Lemma no_lt_irrefl a : ~ no_lt a a.
Proof. destruct a. unfold no_lt. cbn. lia. Qed.

Lemma no_lt_trans a b c : no_lt a b -> no_lt b c -> no_lt a c.
Proof. destruct a, b, c. unfold no_lt. cbn. lia. Qed.

Lemma no_le_lt a b c : no_le a b -> no_lt b c -> no_lt a c.
Proof. intros [->|?] ?; [done|by eapply no_lt_trans]. Qed.

Lemma decide_cols_at r a b d :
  decide_cols r a = Some d ->
  exists d', decide_cols r b = Some d' /\
    decision_coordinator_term d' = decision_coordinator_term d /\
    decision_leader_subterm d' = decision_leader_subterm d /\ forall h, same_rule d' h -> same_rule d h.
Proof.
  unfold decide_cols. destruct (coordinatorTerm r), (leaderSubterm r), (cohortNames r), (durabilityPolicyName r),
    (durabilityQuorumType r), (durabilityRequiredCount r); try done. intros [= <-].
  eexists. split_and!; [done..|]. by intros h [].
Qed.

Lemma proposal_is_spec row term sub d a :
  proposal_is row term sub = true -> decide_cols (proposal_cols row) a = Some d ->
  decision_coordinator_term d = term /\ decision_leader_subterm d = sub.
Proof.
  unfold proposal_is, decide_cols. intros H Hd. reflect_bools.
  destruct (proposal_cols row) as [[] [] ? [] [] [] [] ?]; naive_solver.
Qed.

Lemma proposal_of_cols p a :
  exists d, decide_cols (proposal_of p) a = Some d /\ decision_coordinator_term d = newTerm p /\
    decision_leader_subterm d = newSubterm p /\ same_rule d (history_of p).
Proof. eexists. split_and!; [done..|]. by constructor. Qed.

Lemma set_decided_same d h : same_rule d h -> same_rule d (set_decided h).
Proof. by intros []. Qed.

Lemma lookup_set_decided (m : gmap (Z * Z) rule_history) k i h :
  alter set_decided k m !! i = Some h ->
  exists h0, m !! i = Some h0 /\ (h = h0 /\ i <> k \/ i = k /\ h = set_decided h0).
Proof. rewrite lookup_alter_Some. naive_solver. Qed.

Lemma rule_db_inv_propose p db db' r :
  (forall row, db_row db = Some row -> proposal_cols row = null_row) ->
  no_lt (p_cas p) (p_new p) -> sql_propose p db = Some (db', r) -> rule_db_inv db -> rule_db_inv db'.
Proof.
  intros Hnull Hlt Hs [(row & Hrow & Hp & Hd & Hm)]. specialize (Hnull row Hrow). unfold sql_propose in Hs.
  rewrite Hrow in Hs. destruct (_ && _) eqn:Hcas; [|injection Hs as <- <-; constructor; by exists row].
  destruct (negb _); [done|]. destruct (db_history db !! _) eqn:Hfresh; [done|]. injection Hs as <- <-.
  assert (decision_no row = p_cas p) as Hno by (reflect_bools; unfold decision_no, p_cas; congruence).
  destruct (proposal_of_cols p 0) as (d & Hcols & Ht & Hsub & Hsame).
  assert (decision_no row <> p_new p) as Hne by (rewrite Hno; intros E; rewrite E in Hlt; by apply no_lt_irrefl in Hlt).
  constructor. eexists. split; [done|]. cbn [db_history]. split_and!.
  - constructor; cbn [proposal_cols].
    + intros k h. rewrite lookup_insert_Some. intros [[<- <-]|[_ Hk]].
      * left. exists d. by rewrite Ht, Hsub.
      * right. destruct (pending_rows _ _ Hp k h Hk) as [(d' & Hd' & _)|?]; [|done].
        by rewrite Hnull in Hd'.
    + right. exists d, (history_of p). rewrite Ht, Hsub, lookup_insert_eq. split_and!; try done.
      change (no_lt (decision_no row) (p_new p)). by rewrite Hno.
  - change (decision_no _) with (decision_no row). destruct Hd as [?|?]; [by left|right].
    by rewrite lookup_insert_ne.
  - intros h. change (decision_no _) with (decision_no row). rewrite lookup_insert_ne by done. apply Hm.
Qed.

Lemma rule_db_inv_decide term sub c a db db' r :
  sql_decide term sub c a db = Some (db', r) -> rule_db_inv db -> rule_db_inv db'.
Proof.
  intros Hs [(row & Hrow & Hp & Hd & Hm)]. unfold sql_decide in Hs. rewrite Hrow in Hs.
  destruct (proposal_is row term sub) eqn:His.
  - destruct (decide_cols (proposal_cols row) a) as [d|] eqn:Hc; [|done]. injection Hs as <- _.
    destruct (proposal_is_spec _ _ _ _ _ His Hc) as [<- <-].
    destruct (decide_cols_at _ _ 0 _ Hc) as (d0 & Hc0 & Ht & Hsub & Hsd).
    destruct (pending_proposal _ _ Hp) as [Hn|(d1 & h1 & Hc1 & Hh & Hund & Hsame & Hlt)];
      [by rewrite Hn in Hc|]. simplify_eq. rewrite Ht, Hsub in Hh, Hlt.
    constructor. eexists. split; [done|]. cbn [db_history]. split_and!.
    + constructor; cbn [proposal_cols]; [|by left]. intros k h Hk. right.
      apply lookup_set_decided in Hk as (h0 & Hk & [[-> Hne]|[-> ->]]); [|split; [done|by left]].
      destruct (pending_rows _ _ Hp k h0 Hk) as [(d' & Hd' & ->)|[? Hle]].
      * simplify_eq. by rewrite Ht, Hsub in Hne.
      * split; [done|]. right. by eapply no_le_lt.
    + right. unfold decision_no; cbn [decision_cols]. by rewrite lookup_alter_eq, Hh.
    + unfold decision_no; cbn [decision_cols]. intros h. rewrite lookup_alter_eq, Hh. cbn [fmap option_fmap option_map]. intros [= <-].
      by apply set_decided_same, Hsd.
  - injection Hs as <- _. constructor. exists row. split; [done|]. cbn [db_history]. split_and!.
    + assert (forall d, decide_cols (proposal_cols row) 0 = Some d ->
        (term, sub) <> (decision_coordinator_term d, decision_leader_subterm d)) as Hne.
      { intros d Hcd [= -> ->]. unfold proposal_is, decide_cols in *.
        destruct (proposal_cols row) as [[] [] ? [] [] [] [] ?]; simplify_eq/=.
        by rewrite !bool_decide_eq_true_2 in His. }
      constructor.
      * intros k h (h0 & Hk & Hcase)%lookup_set_decided.
        destruct (pending_rows _ _ Hp k h0 Hk) as [?|[Hdec ?]]; [by left|right].
        destruct Hcase as [[-> _]|[_ ->]]; [done|]. split; [done|done].
      * destruct (pending_proposal _ _ Hp) as [?|(d & h & Hcd & Hh & ?)]; [by left|right].
        exists d, h. split; [done|]. split; [|done]. by rewrite lookup_alter_ne by exact (Hne d Hcd).
    + destruct Hd as [?|[h Hh]]; [by left|right]. rewrite lookup_alter_is_Some. by eexists.
    + intros h (h0 & Hk & Hcase)%lookup_set_decided. specialize (Hm _ Hk).
      destruct Hcase as [[-> _]|[_ ->]]; [done|by apply set_decided_same].
Qed.

Lemma rule_db_inv_step db db' : db_step db db' -> rule_db_inv db -> rule_db_inv db'.
Proof.
  intros Hs Hi. destruct Hs as [p db db' r Hn Hl Hs|t s c a db db' r Hs|t s db db' r Hs].
  - by eapply rule_db_inv_propose.
  - by eapply rule_db_inv_decide.
  - unfold sql_confirm in Hs. by destruct (db_row db); simplify_eq.
Qed.

Lemma CreateRuleTables_inv policy id now db : CreateRuleTables policy id now = Ok db -> rule_db_inv db.
Proof.
  unfold CreateRuleTables. destruct policy; [|done]. destruct (_ || _); [done|]. destruct (bool_decide _); [done|].
  intros [= <-]. constructor. eexists. split; [done|]. cbn. split_and!.
  - constructor; [|by left]. intros k h. by rewrite lookup_empty.
  - by left.
  - intros h. by rewrite lookup_empty.
Qed.

Lemma rule_db_inv_steps db db' : rtc db_step db db' -> rule_db_inv db -> rule_db_inv db'.
Proof. induction 1; eauto using rule_db_inv_step. Qed.

Lemma no_le_trans a b c : no_le a b -> no_le b c -> no_le a c.
Proof. intros [->|?] [->|?]; [by left|by right..|right; by eapply no_lt_trans]. Qed.

Definition kept (h h' : rule_history) : Prop := h' = h \/ h' = set_decided h.

Lemma kept_trans h1 h2 h3 : kept h1 h2 -> kept h2 h3 -> kept h1 h3.
Proof. unfold kept. intros [->| ->] [->| ->]; auto. Qed.

(** One statement moves the decision up or not at all, and keeps every history
    row. *)
Definition advances (db db' : RuleDb) : Prop :=
  (exists row row', db_row db = Some row /\ db_row db' = Some row' /\ no_le (decision_no row) (decision_no row')) /\
  forall k h, db_history db !! k = Some h -> exists h', db_history db' !! k = Some h' /\ kept h h'.

Lemma advances_refl db row : db_row db = Some row -> advances db db.
Proof. intros Hr. split; [exists row, row; split_and!; [done..|by left]|]. intros k h ?. exists h. split; [done|by left]. Qed.

Lemma advances_step db db' : db_step db db' -> rule_db_inv db -> advances db db'.
Proof.
  intros Hs [(row & Hrow & Hp & _)]. destruct Hs as [p db db' r Hn Hl Hs|t s c a db db' r Hs|t s db db' r Hs].
  - unfold sql_propose in Hs. rewrite Hrow in Hs. destruct (_ && _); [|simplify_eq; by eapply advances_refl].
    destruct (negb _); [done|]. destruct (db_history db !! _) eqn:Hf; [done|]. injection Hs as <- _. split.
    + exists row. eexists. split_and!; [done..|by left].
    + intros k h Hk. exists h. cbn [db_history]. split; [|by left].
      rewrite lookup_insert_ne; [done|]. intros <-. congruence.
  - unfold sql_decide in Hs. rewrite Hrow in Hs.
    assert (forall k h, db_history db !! k = Some h ->
      exists h', alter set_decided (t, s) (db_history db) !! k = Some h' /\ kept h h') as Hh.
    { intros k h Hk. destruct (decide ((t, s) = k)) as [<-|].
      - exists (set_decided h). rewrite lookup_alter_eq, Hk. split; [done|by right].
      - exists h. rewrite lookup_alter_ne by done. split; [done|by left]. }
    destruct (proposal_is row t s) eqn:His; [|injection Hs as <- _; split; [|done];
      exists row, row; split_and!; [done..|by left]].
    destruct (decide_cols _ _) as [d|] eqn:Hc; [|done]. injection Hs as <- _. split; [|done].
    exists row. eexists. split_and!; [done..|].
    destruct (decide_cols_at _ _ 0 _ Hc) as (d0 & Hc0 & Ht & Hsub & _).
    destruct (pending_proposal _ _ Hp) as [Hn|(d1 & h1 & Hc1 & _ & _ & _ & Hlt)]; [by rewrite Hn in Hc|].
    simplify_eq. right. unfold decision_no in *. cbn [decision_cols]. by rewrite <-Ht, <-Hsub.
  - unfold sql_confirm in Hs. rewrite Hrow in Hs. simplify_eq. by eapply advances_refl.
Qed.

Lemma advances_steps db db' : rtc db_step db db' -> rule_db_inv db -> advances db db'.
Proof.
  induction 1 as [db|db db1 db' Hs _ IH]; intros Hi.
  - destruct Hi as [(row & ? & _)]. by eapply advances_refl.
  - destruct (advances_step _ _ Hs Hi) as [(r & r1 & ? & ? & Hle) Hk].
    destruct (IH (rule_db_inv_step _ _ Hs Hi)) as [(r1' & r2 & ? & ? & Hle') Hk']. simplify_eq. split.
    + exists r, r2. split_and!; [done..|by eapply no_le_trans].
    + intros k h Hh. destruct (Hk _ _ Hh) as (h1 & Hh1 & ?). destruct (Hk' _ _ Hh1) as (h2 & Hh2 & ?).
      exists h2. split; [done|by eapply kept_trans].
Qed.

Lemma pending_undecided row history k h :
  pending row history -> history !! k = Some h -> h_decided h = false <-> proposal_is row k.1 k.2 = true.
Proof.
  intros Hp Hk. split.
  - intros Hu. destruct (pending_rows _ _ Hp k h Hk) as [(d & Hd & ->)|[? _]]; [|congruence].
    unfold proposal_is, decide_cols in *. destruct (proposal_cols row) as [[] [] ? [] [] [] [] ?]; simplify_eq/=.
    by rewrite !bool_decide_eq_true_2.
  - intros His. destruct (pending_proposal _ _ Hp) as [Hn|(d & h1 & Hd & Hh & Hu & _)].
    + unfold proposal_is in His. by rewrite Hn in His.
    + destruct (proposal_is_spec _ _ _ _ _ His Hd) as [Ht Hs]. rewrite Ht, Hs in Hh. destruct k. cbn in *. congruence.
Qed.

End steps.

(** C34: rule_history mirrors current_rule, as long as proposals are issued the way
    [UpdateRule] issues them: only over a row without a pending proposal, and with a
    number above the one they replace.  After any sequence of such propose
    statements, successful or failed, and of confirm and decide statements with
    any arguments, the only undecided history row is the pending proposal's, every
    decided row is at or below the decision, and the decision's own row carries
    its leader, cohort and policy.  The statements do not enforce that condition
    themselves: a proposal written over another one leads to a decided row that
    was never decided, see [lost_race_marks_history]. *)
Theorem rule_history_mirrors_row `{SqlClock} policy id now db0 db :
  CreateRuleTables policy id now = Ok db0 -> rtc db_step db0 db ->
  exists row, db_row db = Some row /\
    (forall k h, db_history db !! k = Some h -> h_decided h = false <-> proposal_is row k.1 k.2 = true) /\
    (forall k h, db_history db !! k = Some h -> h_decided h = true -> no_le k (decision_no row)) /\
    (forall h, db_history db !! decision_no row = Some h -> h_decided h = true /\ same_rule (decision_cols row) h).
Proof.
  intros Hc Hs. destruct (rule_db_inv_steps _ _ Hs (CreateRuleTables_inv _ _ _ _ Hc)) as [(row & Hr & Hp & _ & Hm)].
  exists row. split; [done|]. split; [intros k h; by apply pending_undecided|]. split.
  - intros k h Hk Hd. destruct (pending_rows _ _ Hp k h Hk) as [(d & Hcd & ->)|[_ ?]]; [|done].
    destruct (pending_proposal _ _ Hp) as [Hn|(d1 & h1 & Hd1 & Hh & Hu & _)]; [by rewrite Hn in Hcd|].
    simplify_eq. congruence.
  - intros h Hk. split; [|by apply Hm]. destruct (pending_rows _ _ Hp _ h Hk) as [(d & Hcd & Heq)|[? _]]; [|done].
    destruct (pending_proposal _ _ Hp) as [Hn|(d1 & h1 & Hd1 & Hh & Hu & _ & Hlt)]; [by rewrite Hn in Hcd|].
    simplify_eq. rewrite <-Heq in Hlt. by apply no_lt_irrefl in Hlt.
Qed.

(** The decision only moves up and the history is append-only: along any
    sequence of statements the decided rule number never decreases, no history row
    disappears, and a row only ever changes by becoming decided. *)
Theorem rule_db_only_advances `{SqlClock} policy id now db0 db db' :
  CreateRuleTables policy id now = Ok db0 -> rtc db_step db0 db -> rtc db_step db db' -> advances db db'.
Proof.
  intros Hc Hs Hs'. apply advances_steps; [done|]. eapply rule_db_inv_steps, CreateRuleTables_inv; done.
Qed.

#[export] Instance demo_clock : SqlClock := {
  timestamptz t := t / 1000 * 1000;
  timestamppb_New t := mkTimestamp (t / 1000000000) (t mod 1000000000)
}.

Definition demo_tables : RuleDb :=
  mkRuleDb (Some (mkCurrentRule (mkDecisionCols 0 1 None [] "AT_LEAST_2" "QUORUM_TYPE_AT_LEAST_N" 2 0)
    "zone1_orch" null_row)) ∅.

Definition demo_params (cas new : rule_no) (leader : string) : ruleProposalWriteParams :=
  mkRuleProposalWriteParams cas.1 cas.2 new.1 new.2 leader ["zone1_a"; "zone2_b"; "zone3_c"]
    "AT_LEAST_2" "QUORUM_TYPE_AT_LEAST_N" 2 5000000000 "promotion" "" "" "failover" None "zone1_orch".

Definition run_stmt {A} (stmt : RuleDb -> option (RuleDb * A)) (db : RuleDb) : RuleDb :=
  match stmt db with Some (db', _) => db' | None => db end.

Definition demo_proposed : RuleDb := run_stmt (sql_propose (demo_params (0, 1) (1, 0) "zone1_a")) demo_tables.
Definition demo_decided : RuleDb := run_stmt (sql_decide 1 0 "zone1_orch" 5000000000) demo_proposed.

Lemma demo_tables_created : CreateRuleTables (Some (mkDurabilityPolicyMsg "AT_LEAST_2" 0 QUORUM_TYPE_AT_LEAST_N 2 ""))
  orch1 0 = Ok demo_tables.
Proof. vm_compute. reflexivity. Qed.

Lemma demo_propose_steps : rtc db_step demo_tables demo_proposed.
Proof.
  apply rtc_once. eapply (step_propose (demo_params (0, 1) (1, 0) "zone1_a")); [|left; cbn; lia|vm_compute; reflexivity].
  by intros row [= <-].
Qed.

Lemma demo_decide_steps : rtc db_step demo_proposed demo_decided.
Proof. apply rtc_once. eapply (step_decide 1 0 "zone1_orch" 5000000000). vm_compute. reflexivity. Qed.

Lemma rule_history_mirrors_row_witness :
  exists row, db_row demo_proposed = Some row /\
    (forall k h, db_history demo_proposed !! k = Some h -> h_decided h = false <-> proposal_is row k.1 k.2 = true).
Proof.
  destruct (rule_history_mirrors_row _ _ _ _ _ demo_tables_created demo_propose_steps) as (row & Hr & Hu & _).
  exists row. exact (conj Hr Hu).
Defined.

Lemma rule_db_only_advances_witness : advances demo_proposed demo_decided.
Proof. exact (rule_db_only_advances _ _ _ _ _ _ demo_tables_created demo_propose_steps demo_decide_steps). Defined.

(** A lost race still marks history.  When another writer has replaced the
    pending proposal, [markProposalAsDecision]'s compare-and-swap fails, no row
    comes back and current_rule keeps the other proposal undecided, yet the
    history row of the proposal that lost is now marked decided: the history
    update runs without joining the locked row. *)
Theorem lost_race_marks_history :
  let raced := run_stmt (sql_propose (demo_params (0, 1) (2, 0) "zone2_b")) demo_proposed in
  sql_decide 1 0 "zone1_orch" 5000000000 raced =
    Some (mkRuleDb (db_row raced) (alter set_decided (1, 0) (db_history raced)), None) /\
  h_decided <$> db_history raced !! (1, 0) = Some false /\
  h_decided <$> alter set_decided (1, 0) (db_history raced) !! (1, 0) = Some true.
Proof. vm_compute. split_and!; reflexivity. Qed.
