(* ===== verification/RuleStore.v ===== *)
(** go/services/multipooler/internal/manager/consensus/rule_store.go: the rule
    store, which writes a shard's rule in two phases.

    An operation runs in a state and error monad over the store: the
    synchronous-standby manager, Postgres' settings, the database, the cached
    position and a log of the effects.  What Postgres answers to each statement,
    and what other sessions did to the tables since the previous one, is an
    argument; a statement that fails may have committed.  Logging, tracing and
    timeouts are left out (a timeout is a failed statement). *)

From stdpp Require Import base gmap strings list.
From S2P Require Import Prelude ClusterMetadata Demo TopoId Ordering Compare Cohort Durability.
From S2P Require Import ReplicaIdent ActionLock SyncStandby RuleDb.

Local Open Scope Z_scope.

(** What a store operation did, in order.  A write carries the settings in force
    when it was issued. *)
Inductive event :=
| EvPolicy (pc : PolicyWithCohort)
| EvPromote
| EvConfirm (no : rule_no) (conf : PgConf)
| EvPropose (no : rule_no) (conf : PgConf)
| EvAcked (lsn startedAt : Z)
| EvDecide (no : rule_no) (conf : PgConf).

Record ruleStore := mkRuleStore {
  syncStandby : postgresqlSyncStandbyManager;
  rs_conf : PgConf;
  rs_db : RuleDb;
  lastPos : option PoolerPosition;
  onProposalAcked : bool;
  proofRefreshAfter : Z;
  rs_log : list event
}.

Definition defaultProofRefreshAfter : Z := 10000000000.

Definition with_guc (rs : ruleStore) (s : postgresqlSyncStandbyManager) (conf : PgConf) : ruleStore :=
  mkRuleStore s conf (rs_db rs) (lastPos rs) (onProposalAcked rs) (proofRefreshAfter rs) (rs_log rs).
Definition with_db (rs : ruleStore) (db : RuleDb) : ruleStore :=
  mkRuleStore (syncStandby rs) (rs_conf rs) db (lastPos rs) (onProposalAcked rs) (proofRefreshAfter rs) (rs_log rs).
Definition with_pos (rs : ruleStore) (pos : option PoolerPosition) : ruleStore :=
  mkRuleStore (syncStandby rs) (rs_conf rs) (rs_db rs) pos (onProposalAcked rs) (proofRefreshAfter rs) (rs_log rs).
Definition logged (rs : ruleStore) (e : event) : ruleStore :=
  mkRuleStore (syncStandby rs) (rs_conf rs) (rs_db rs) (lastPos rs) (onProposalAcked rs) (proofRefreshAfter rs)
    (rs_log rs ++ [e]).

(** ** The monad *)

Definition M (A : Type) : Type := ruleStore -> ruleStore * result A.

Definition M_bind {A B} (f : A -> M B) (m : M A) : M B := fun rs =>
  match m rs with
  | (rs', Ok a) => f a rs'
  | (rs', Err e) => (rs', Err e)
  end.

#[export] Instance M_ret : MRet M := fun A a rs => (rs, Ok a).
#[export] Instance M_mbind : MBind M := @M_bind.

Definition lift {A} (r : result A) : M A := fun rs => (rs, r).
Definition modify (f : ruleStore -> ruleStore) : M unit := fun rs => (f rs, Ok tt).
Definition reads {A} (f : ruleStore -> A) : M A := fun rs => (rs, Ok (f rs)).
Definition wrap_m {A} (msg : string) (m : M A) : M A := fun rs => let '(rs', r) := m rs in (rs', wrap_result msg r).
Definition attempt {A} (m : M A) : M (result A) := fun rs => let '(rs', r) := m rs in (rs', Ok r).

(** ** Postgres *)

Record sql_env := mkSqlEnv {
  others : RuleDb -> RuleDb;
  answer : exec_result;
  wal_lsn : string
}.

Definition run_sql {A} (e : sql_env) (stmt : RuleDb -> option (RuleDb * A)) : M A := fun rs =>
  let db := others e (rs_db rs) in
  match stmt db, answer e with
  | Some (db', a), ExecOk => (with_db rs db', Ok a)
  | Some (db', _), ExecErr true => (with_db rs db', Err (err "query"))
  | _, _ => (with_db rs db, Err (err "query"))
  end.

Record guc_env := mkGucEnv { g_commit : exec_result; g_standby : exec_result; g_reload : exec_result }.

(** [SetPolicy] under the context [readCurrentRuleLocked] returned. *)
Definition set_policy (fl : list bool) (ctx : Context_) (e : guc_env) (pc : PolicyWithCohort) : M unit := fun rs =>
  let '(s, conf, er) :=
    SetPolicy (syncStandby rs) (rs_conf rs) fl ctx true pc (g_commit e) (g_standby e) (g_reload e) in
  match er with
  | Some er => (with_guc rs s conf, Err er)
  | None => (logged (with_guc rs s conf) (EvPolicy pc), Ok tt)
  end.

(** ** The update *)

Record ruleNumber := mkruleNumber { rn_term : Z; rn_subterm : Z }.

(** The promotion hook is its answer: nil is a completed pg_promote. *)
Definition promotionFn : Type := option gerror.

Record RuleUpdateBuilder := mkRuleUpdateBuilder {
  termNumber : Z;
  u_coordinatorID : option ID;
  eventType : string;
  reason : string;
  u_createdAt : Z;
  u_leaderID : option ID;
  u_cohortMembers : option IDs;
  u_durabilityPolicy : option DurabilityPolicyMsg;
  walPosition : string;
  operation : string;
  acceptedMembers : IDs;
  force : bool;
  skipOutgoingQuorum : bool;
  previousRule : option ruleNumber;
  promotionHook : option promotionFn
}.

Definition NewRuleUpdate (term : Z) (coordinator : option ID) (event_ reason_ : string) (at_ : Z) : RuleUpdateBuilder :=
  mkRuleUpdateBuilder term coordinator event_ reason_ at_ None None None "" "" [] false false None None.

Definition WithLeader (b : RuleUpdateBuilder) (id : option ID) : RuleUpdateBuilder :=
  mkRuleUpdateBuilder (termNumber b) (u_coordinatorID b) (eventType b) (reason b) (u_createdAt b) id
    (u_cohortMembers b) (u_durabilityPolicy b) (walPosition b) (operation b) (acceptedMembers b) (force b)
    (skipOutgoingQuorum b) (previousRule b) (promotionHook b).
Definition WithCohort (b : RuleUpdateBuilder) (members : option IDs) : RuleUpdateBuilder :=
  mkRuleUpdateBuilder (termNumber b) (u_coordinatorID b) (eventType b) (reason b) (u_createdAt b) (u_leaderID b)
    members (u_durabilityPolicy b) (walPosition b) (operation b) (acceptedMembers b) (force b)
    (skipOutgoingQuorum b) (previousRule b) (promotionHook b).
Definition WithDurabilityPolicy (b : RuleUpdateBuilder) (policy : option DurabilityPolicyMsg) : RuleUpdateBuilder :=
  mkRuleUpdateBuilder (termNumber b) (u_coordinatorID b) (eventType b) (reason b) (u_createdAt b) (u_leaderID b)
    (u_cohortMembers b) policy (walPosition b) (operation b) (acceptedMembers b) (force b)
    (skipOutgoingQuorum b) (previousRule b) (promotionHook b).
Definition WithPromotionHook (b : RuleUpdateBuilder) (fn : option promotionFn) : RuleUpdateBuilder :=
  mkRuleUpdateBuilder (termNumber b) (u_coordinatorID b) (eventType b) (reason b) (u_createdAt b) (u_leaderID b)
    (u_cohortMembers b) (u_durabilityPolicy b) (walPosition b) (operation b) (acceptedMembers b) (force b)
    (skipOutgoingQuorum b) (previousRule b) fn.
Definition WithPreviousRule (b : RuleUpdateBuilder) (term sub : Z) : RuleUpdateBuilder :=
  mkRuleUpdateBuilder (termNumber b) (u_coordinatorID b) (eventType b) (reason b) (u_createdAt b) (u_leaderID b)
    (u_cohortMembers b) (u_durabilityPolicy b) (walPosition b) (operation b) (acceptedMembers b) (force b)
    (skipOutgoingQuorum b) (Some (mkruleNumber term sub)) (promotionHook b).
Definition WithWALPosition (b : RuleUpdateBuilder) (pos : string) : RuleUpdateBuilder :=
  mkRuleUpdateBuilder (termNumber b) (u_coordinatorID b) (eventType b) (reason b) (u_createdAt b) (u_leaderID b)
    (u_cohortMembers b) (u_durabilityPolicy b) pos (operation b) (acceptedMembers b) (force b)
    (skipOutgoingQuorum b) (previousRule b) (promotionHook b).
Definition WithOperation (b : RuleUpdateBuilder) (op : string) : RuleUpdateBuilder :=
  mkRuleUpdateBuilder (termNumber b) (u_coordinatorID b) (eventType b) (reason b) (u_createdAt b) (u_leaderID b)
    (u_cohortMembers b) (u_durabilityPolicy b) (walPosition b) op (acceptedMembers b) (force b)
    (skipOutgoingQuorum b) (previousRule b) (promotionHook b).
Definition WithAcceptedMembers (b : RuleUpdateBuilder) (members : IDs) : RuleUpdateBuilder :=
  mkRuleUpdateBuilder (termNumber b) (u_coordinatorID b) (eventType b) (reason b) (u_createdAt b) (u_leaderID b)
    (u_cohortMembers b) (u_durabilityPolicy b) (walPosition b) (operation b) members (force b)
    (skipOutgoingQuorum b) (previousRule b) (promotionHook b).
Definition WithForce (b : RuleUpdateBuilder) : RuleUpdateBuilder :=
  mkRuleUpdateBuilder (termNumber b) (u_coordinatorID b) (eventType b) (reason b) (u_createdAt b) (u_leaderID b)
    (u_cohortMembers b) (u_durabilityPolicy b) (walPosition b) (operation b) (acceptedMembers b) true
    (skipOutgoingQuorum b) (previousRule b) (promotionHook b).
Definition WithSkipOutgoingQuorum (b : RuleUpdateBuilder) : RuleUpdateBuilder :=
  mkRuleUpdateBuilder (termNumber b) (u_coordinatorID b) (eventType b) (reason b) (u_createdAt b) (u_leaderID b)
    (u_cohortMembers b) (u_durabilityPolicy b) (walPosition b) (operation b) (acceptedMembers b) (force b)
    true (previousRule b) (promotionHook b).

Definition errRuleConflict : gerror := err "rule conflict: current rule version changed since last read".

(** ** Policies *)

Definition expectedSyncStandbyPolicy (position : option RulePosition) : result PolicyWithCohort :=
  let decision := GetDecision position in
  if bool_decide (GetDurabilityPolicy decision = None) then Err (err "no decision durability policy")
  else
    outgoing ← wrap_result "invalid decision durability policy"
      (NewPolicyWithCohort (GetCohortMembers decision) (GetDurabilityPolicy decision));
    if IsRuleDecided position then Ok outgoing
    else
      let proposal := GetProposal position in
      if bool_decide (GetDurabilityPolicy proposal = None) then Err (err "no proposal durability policy")
      else
        incoming ← wrap_result "invalid proposal durability policy"
          (NewPolicyWithCohort (GetCohortMembers proposal) (GetDurabilityPolicy proposal));
        transition ← wrap_result "computing decision->proposal transition" (BuildPolicyTransition outgoing incoming);
        Ok (Both transition).

Section runtime.
  Context `{R : Runtime} `{C : SqlClock}.

(** ** Cache and reads *)

Definition cacheRuleObservation (pos : option PoolerPosition) : M unit := modify (fun rs =>
  if bool_decide (lastPos rs <> None) && bool_decide (pos <> None) &&
     (CompareRulePosition (pp_GetPosition pos) (pp_GetPosition (lastPos rs)) <? 0)
  then rs else with_pos rs pos).

Definition CachedPosition (rs : ruleStore) : option PoolerPosition := lastPos rs.

(** A locked read rolls its transaction back, so either read leaves the tables
    alone; they differ in that the locked one fails while another session holds
    the row, which is an answer of [e]. *)
Definition readCurrentRule (e : sql_env) : M PoolerPosition :=
  row ← wrap_m "failed to read current_rule" (run_sql e (fun db => Some (db, db_row db)));
  match row with
  | None => lift (Err (err "current_rule initial row missing for shard 0: tables may not be initialized"))
  | Some row => lift (wrap_result "failed to parse current_rule" (row_position row (wal_lsn e)))
  end.

Definition ObservePosition (e : sql_env) : M PoolerPosition :=
  pos ← readCurrentRule e;
  _ ← cacheRuleObservation (Some pos);
  mret pos.

Definition resolveNewRuleValues (currentRule : option ShardRule) (update : RuleUpdateBuilder) (isPromotion : bool)
    : result (option ID * IDs * option DurabilityPolicyMsg * PolicyWithCohort) :=
  newLeader ← match u_leaderID update with
              | None => Ok (GetLeaderId currentRule)
              | Some _ =>
                  if negb isPromotion && bool_decide (GetLeaderId currentRule <> None) &&
                     negb (proto_equal (u_leaderID update) (GetLeaderId currentRule))
                  then Err (err "UpdateRule cannot change leader outside of a promotion")
                  else Ok (u_leaderID update)
              end;
  let newCohort := default (GetCohortMembers currentRule) (u_cohortMembers update) in
  newDP ← match u_durabilityPolicy update with
          | None => Ok (GetDurabilityPolicy currentRule)
          | Some dp =>
              if bool_decide (dp_QuorumType dp = QUORUM_TYPE_UNKNOWN) || (RequiredCount dp <=? 0)
              then Err (err "durability policy has missing or invalid fields")
              else Ok (Some dp)
          end;
  _ ← (if 0 <? len newCohort then
         policy ← wrap_result "invalid durability policy" (NewPolicyFromProto newDP);
         match SatisfiedBy policy newCohort with
         | Some e => Err (wrap "cohort cannot achieve durability policy" e)
         | None => Ok tt
         end
       else Ok tt);
  incomingPWC ← NewPolicyWithCohort newCohort newDP;
  Ok (newLeader, newCohort, newDP, incomingPWC).

(** ** Writes *)

Record quorumProof := mkQuorumProof { proof_lsn : Z; proof_startedAt : Z }.

Definition confirmProposalQuorum (e : sql_env) (term sub : Z) : M Z :=
  conf ← reads rs_conf;
  _ ← modify (fun rs => logged rs (EvConfirm (term, sub) conf));
  found ← wrap_m "failed to confirm stuck proposal quorum" (run_sql e (sql_confirm term sub));
  if negb found then lift (Err errRuleConflict)
  else match ParseLSN (wal_lsn e) with
  | None => lift (Err (err "failed to parse confirmed proposal LSN"))
  | Some lsn => mret lsn
  end.

(** [now] is the clock when the age is taken and when a refresh starts. *)
Record refresh_env := mkRefreshEnv { re_now : Z; re_sql : sql_env }.

Definition freshenQuorumProof (e : refresh_env) (proof : option quorumProof) (term sub : Z) : M (option quorumProof) :=
  after ← reads proofRefreshAfter;
  match proof with
  | None => mret None
  | Some p =>
      if re_now e - proof_startedAt p <? after then mret (Some p)
      else
        r ← attempt (confirmProposalQuorum (re_sql e) term sub);
        match r with
        | Err _ => mret (Some p)
        | Ok lsn => mret (Some (mkQuorumProof lsn (re_now e)))
        end
  end.

Definition newQuorumProof (rawLSN : string) (startedAt : Z) : option quorumProof :=
  match ParseLSN rawLSN with
  | None => None
  | Some lsn => Some (mkQuorumProof lsn startedAt)
  end.

Definition markProposalAsDecision (re : refresh_env) (e : sql_env) (term sub : Z) (coordinator : string) (at_ : Z)
    (proof : option quorumProof) : M PoolerPosition :=
  proof ← freshenQuorumProof re proof term sub;
  hook ← reads onProposalAcked;
  _ ← modify (fun rs =>
        match proof with
        | Some p => if hook : bool then logged rs (EvAcked (proof_lsn p) (proof_startedAt p)) else rs
        | None => rs
        end);
  conf ← reads rs_conf;
  _ ← modify (fun rs => logged rs (EvDecide (term, sub) conf));
  row ← wrap_m "failed to promote rule proposal to decision" (run_sql e (sql_decide term sub coordinator at_));
  match row with
  | None => lift (Err errRuleConflict)
  | Some row =>
      pos ← lift (wrap_result "failed to parse written rule position"
        (buildPoolerPosition (scan_decision (decision_cols row)) (coordinator_id row) null_row (wal_lsn e)));
      _ ← cacheRuleObservation (Some pos);
      mret pos
  end.

Definition writeRuleProposal (e : sql_env) (p : ruleProposalWriteParams) : M PoolerPosition :=
  conf ← reads rs_conf;
  _ ← modify (fun rs => logged rs (EvPropose (p_new p) conf));
  row ← wrap_m "failed to write rule proposal" (run_sql e (sql_propose p));
  match row with
  | None => lift (Err errRuleConflict)
  | Some row =>
      pos ← lift (wrap_result "failed to parse proposal row into memory" (row_position row (wal_lsn e)));
      _ ← cacheRuleObservation (Some pos);
      mret pos
  end.

(** ** UpdateRule *)

(** What Postgres answers during one update, in the order of the statements. *)
Record UpdateEnv := mkUpdateEnv {
  ue_read : sql_env;
  ue_stuck_guc : guc_env;
  ue_stuck_confirm : sql_env;
  ue_stuck_confirm_at : Z;
  ue_stuck_refresh : refresh_env;
  ue_stuck_decide : sql_env;
  ue_guc : guc_env;
  ue_propose_at : Z;
  ue_propose : sql_env;
  ue_refresh : refresh_env;
  ue_decide : sql_env;
  ue_final_guc : guc_env
}.

Definition run_hook (msg : string) (hook : option promotionFn) : M unit :=
  match hook with
  | None => mret tt
  | Some (Some e) => lift (Err (wrap msg e))
  | Some None => modify (fun rs => logged rs EvPromote)
  end.

Definition maybeFinalizeStuckProposal (fl : list bool) (ctx : Context_) (env : UpdateEnv)
    (current : PoolerPosition) (update : RuleUpdateBuilder) (incomingPWC : PolicyWithCohort)
    : M (PoolerPosition * bool) :=
  let position := pp_Position current in
  if IsRuleDecided position then mret (current, false)
  else
    let stuckProposal := GetProposal position in
    let term := GetCoordinatorTerm (GetRuleNumber stuckProposal) in
    let sub := GetLeaderSubterm (GetRuleNumber stuckProposal) in
    finalizePolicy ← lift (if skipOutgoingQuorum update then Ok incomingPWC
                           else wrap_result "propagation: computing decision->proposal transition"
                                  (expectedSyncStandbyPolicy position));
    _ ← wrap_m "propagation: pre-promote GUC" (set_policy fl ctx (ue_stuck_guc env) finalizePolicy);
    _ ← run_hook "propagation: promotion hook" (promotionHook update);
    confirmedLSN ← wrap_m "propagation: failed to confirm stuck proposal quorum"
      (confirmProposalQuorum (ue_stuck_confirm env) term sub);
    decidedPos ← wrap_m "propagation: failed to finish deciding stuck proposal"
      (markProposalAsDecision (ue_stuck_refresh env) (ue_stuck_decide env) term sub
         (ClusterIDString (GetCoordinatorId stuckProposal)) (AsTime (GetCreationTime stuckProposal))
         (Some (mkQuorumProof confirmedLSN (ue_stuck_confirm_at env))));
    mret (decidedPos, is_set (promotionHook update)).

(** What [UpdateRule] settles from the position it read, before any effect. *)
Record update_plan := mkUpdatePlan {
  up_cas : rule_no;
  up_new : rule_no;
  up_leader : option ID;
  up_cohort : IDs;
  up_policy : option DurabilityPolicyMsg;
  up_incoming : PolicyWithCohort
}.

Definition previous_mismatch (update : RuleUpdateBuilder) (currentTerm currentSubterm : Z) : bool :=
  match previousRule update with
  | None => false
  | Some prev => negb (currentTerm =? rn_term prev) || negb (currentSubterm =? rn_subterm prev)
  end.

Definition plan_update (position : option RulePosition) (update : RuleUpdateBuilder) : result update_plan :=
  let isPromotion := is_set (promotionHook update) in
  if negb (IsRuleDecided position) && negb (skipOutgoingQuorum update) && negb isPromotion then
    Err (err "current rule has an undecided proposal; propagation is not yet supported")
  else
  let currentRule := PossiblyUndecidedRule position in
  let currentTerm := GetCoordinatorTerm (GetRuleNumber currentRule) in
  let currentSubterm := GetLeaderSubterm (GetRuleNumber currentRule) in
  if previous_mismatch update currentTerm currentSubterm then Err errRuleConflict
  else
  nextSubterm ← (if currentTerm <? termNumber update then Ok 0
                 else if termNumber update <? currentTerm then
                   Err (err "rule update rejected: current rule is at a higher term")
                 else Ok (wrap64 (currentSubterm + 1)));
  '(newLeader, newCohort, newDP, incomingPWC) ← resolveNewRuleValues currentRule update isPromotion;
  Ok (mkUpdatePlan (currentTerm, currentSubterm) (termNumber update, nextSubterm)
        newLeader newCohort newDP incomingPWC).

Definition update_transition (currentRule : option ShardRule) (update : RuleUpdateBuilder)
    (incomingPWC : PolicyWithCohort) : result PolicyTransition :=
  if skipOutgoingQuorum update then Ok (mkPolicyTransition incomingPWC incomingPWC)
  else
    outgoingPWC ← NewPolicyWithCohort (GetCohortMembers currentRule) (GetDurabilityPolicy currentRule);
    wrap_result "compute GUC transition" (BuildPolicyTransition outgoingPWC incomingPWC).

Definition first_error {A} (msg : string) (r : A * option gerror) : result A :=
  match r with (a, None) => Ok a | (_, Some e) => Err (wrap msg e) end.

(** Values as SQL parameters. *)
Definition proposal_params (update : RuleUpdateBuilder) (plan : update_plan) : result ruleProposalWriteParams :=
  leaderStr ← match up_leader plan with
              | None => Ok ""%string
              | Some _ => pid ← first_error "invalid leader ID" (NewReplicaID (up_leader plan)); Ok (appName pid)
              end;
  cohortPIDs ← first_error "invalid cohort member ID" (ToReplicaIDs (up_cohort plan));
  accepted ← (if 0 <? len (acceptedMembers update) then
                pids ← first_error "invalid accepted member ID" (ToReplicaIDs (acceptedMembers update));
                Ok (Some (ReplicaIDsToAppNames pids))
              else Ok None);
  match up_policy plan with
  | None => Err (err "panic: nil durability policy")
  | Some dp =>
      Ok (mkRuleProposalWriteParams (up_cas plan).1 (up_cas plan).2 (up_new plan).1 (up_new plan).2
            leaderStr (ReplicaIDsToAppNames cohortPIDs) (PolicyName dp) (QuorumType_String (dp_QuorumType dp))
            (RequiredCount dp) (u_createdAt update) (eventType update) (walPosition update) (operation update)
            (reason update) accepted (ClusterIDString (u_coordinatorID update)))
  end.

(** The transition policy, the promotion, the proposal, the decision, the new
    policy. *)
Definition write_rule (fl : list bool) (ctx : Context_) (env : UpdateEnv) (update : RuleUpdateBuilder)
    (promoted : bool) (transition : PolicyTransition) (params : ruleProposalWriteParams) : M PoolerPosition :=
  _ ← (if is_set (promotionHook update) then
         _ ← wrap_m "pre-promote GUC" (set_policy fl ctx (ue_guc env) (Both transition));
         (if promoted then mret tt else run_hook "promotion hook" (promotionHook update))
       else wrap_m "pre-write GUC" (set_policy fl ctx (ue_guc env) (Both transition)));
  proposalPos ← writeRuleProposal (ue_propose env) params;
  pos ← markProposalAsDecision (ue_refresh env) (ue_decide env) (newTerm params) (newSubterm params)
          (coordinatorIDStr params) (u_createdAt update)
          (newQuorumProof (pp_Lsn proposalPos) (ue_propose_at env));
  _ ← wrap_m "post-write GUC" (set_policy fl ctx (ue_final_guc env) (Incoming transition));
  mret pos.

Definition UpdateRule (fl : list bool) (ctx : Context_) (env : UpdateEnv) (update : RuleUpdateBuilder)
    : M (option PoolerPosition) :=
  match AssertActionLockHeld fl ctx with
  | Some e => lift (Err (wrap "UpdateRule" e))
  | None =>
  if force update then mret None
  else if bool_decide (u_coordinatorID update = None) then
    lift (Err (err "UpdateRule requires a non-nil coordinator_id"))
  else if u_createdAt update =? zero_go_time then
    lift (Err (err "UpdateRule requires a non-zero created_at"))
  else
  current ← readCurrentRule (ue_read env);
  plan ← lift (plan_update (pp_Position current) update);
  '(_, promoted) ← maybeFinalizeStuckProposal fl ctx env current update (up_incoming plan);
  transition ← lift (update_transition (PossiblyUndecidedRule (pp_Position current)) update (up_incoming plan));
  params ← lift (proposal_params update plan);
  pos ← write_rule fl ctx env update promoted transition params;
  mret (Some pos)
  end.

Definition ReconcileGUC (fl : list bool) (ctx : Context_) (read : sql_env) (guc : guc_env) : M unit :=
  match AssertActionLockHeld fl ctx with
  | Some e => lift (Err (wrap "ReconcileGUC" e))
  | None =>
  pos ← wrap_m "ReconcileGUC" (readCurrentRule read);
  policy ← lift (wrap_result "ReconcileGUC" (expectedSyncStandbyPolicy (pp_Position pos)));
  if bool_decide (is_Some (Policy policy)) then set_policy fl ctx guc policy else mret tt
  end.

(** [query] is the answer to reading the live settings. *)
Definition HasInconsistentGUC (query : option (string * string)) : M bool := fun rs =>
  match expectedSyncStandbyPolicy (pp_GetPosition (CachedPosition rs)) with
  | Err _ => (rs, Ok false)
  | Ok policy =>
      if bool_decide (Policy policy = None) then (rs, Ok false)
      else
        let '(s, needs) := NeedsApply (syncStandby rs) policy query in
        (with_guc rs s (rs_conf rs), Ok (match needs with Ok b => b | Err _ => false end))
  end.

Definition ClearSyncStandby (fl : list bool) (ctx : Context_) (inRecovery : result bool) (on_reset on_reload : exec_result)
    : M unit := fun rs =>
  let '(s, conf, er) := Clear (syncStandby rs) (rs_conf rs) fl ctx inRecovery on_reset on_reload in
  (with_guc rs s conf, match er with Some e => Err e | None => Ok tt end).

End runtime.
