(* ===== verification/RuleStoreSafety.v ===== *)
(** What the rule store of [RuleStore] guarantees: the rule number advances, the
    proposal is written under the transition policy, the cached position never
    moves back, and the statements it issues are the steps of [RuleDb]. *)

From stdpp Require Import base gmap strings list relations.
From S2P Require Import Prelude ClusterMetadata Demo TopoId Ordering Compare Cohort Durability.
From S2P Require Import ReplicaIdent ActionLock SyncStandby RuleDb RuleStore.

Local Open Scope Z_scope.

(** ** Triples

    [triple P m Q E]: run from a state in [P], [m] ends in [Q] with its value, or
    fails in [E]. *)
Definition triple {A} (P : ruleStore -> Prop) (m : M A) (Q : A -> ruleStore -> Prop) (E : ruleStore -> Prop) : Prop :=
  forall rs, P rs -> match m rs with (rs', Ok a) => Q a rs' | (rs', Err _) => E rs' end.

Section triples.
  Context {A B : Type}.
  Implicit Types (P E : ruleStore -> Prop).

Lemma triple_bind P (m : M A) (f : A -> M B) Q1 Q E :
  triple P m Q1 E -> (forall a, triple (Q1 a) (f a) Q E) -> triple P (m ≫= f) Q E.
Proof.
  intros Hm Hf rs HP. specialize (Hm rs HP). unfold mbind, M_mbind, M_bind.
  destruct (m rs) as [rs1 [a|e]]; [by apply Hf|done].
Qed.

Lemma triple_ret P (a : A) Q E : (forall rs, P rs -> Q a rs) -> triple P (mret a) Q E.
Proof. intros H rs. apply H. Qed.

Lemma triple_lift P (r : result A) Q E :
  (forall a rs, r = Ok a -> P rs -> Q a rs) -> (forall e rs, r = Err e -> P rs -> E rs) -> triple P (lift r) Q E.
Proof. intros HQ HE rs HP. cbn. destruct r; eauto. Qed.

Lemma triple_reads P (f : ruleStore -> A) Q E : (forall rs, P rs -> Q (f rs) rs) -> triple P (reads f) Q E.
Proof. intros H rs. apply H. Qed.

Lemma triple_wrap P msg (m : M A) Q E : triple P m Q E -> triple P (wrap_m msg m) Q E.
Proof. intros H rs HP. specialize (H rs HP). unfold wrap_m. by destruct (m rs) as [? []]. Qed.

Lemma triple_attempt P (m : M A) (Q : result A -> ruleStore -> Prop) (E E' : ruleStore -> Prop) :
  triple P m (fun a => Q (Ok a)) E' -> (forall e rs, E' rs -> Q (Err e) rs) -> triple P (attempt m) Q E.
Proof. intros H HE rs HP. specialize (H rs HP). unfold attempt. destruct (m rs) as [? []]; eauto. Qed.

Lemma triple_conseq P P' (m : M A) (Q Q' : A -> ruleStore -> Prop) E E' :
  triple P' m Q' E' -> (forall rs, P rs -> P' rs) -> (forall a rs, Q' a rs -> Q a rs) ->
  (forall rs, E' rs -> E rs) -> triple P m Q E.
Proof. intros H HP HQ HE rs HPr. specialize (H rs (HP _ HPr)). destruct (m rs) as [? []]; eauto. Qed.

End triples.

Lemma triple_modify P (f : ruleStore -> ruleStore) (Q : unit -> ruleStore -> Prop) E :
  (forall rs, P rs -> Q tt (f rs)) -> triple P (modify f) Q E.
Proof. intros H rs. apply H. Qed.

Lemma triple_run_sql {A} (P : ruleStore -> Prop) e (stmt : RuleDb -> option (RuleDb * A)) Q (E : ruleStore -> Prop) :
  (forall rs, P rs -> E (with_db rs (others e (rs_db rs)))) ->
  (forall rs db a, P rs -> stmt (others e (rs_db rs)) = Some (db, a) -> Q a (with_db rs db) /\ E (with_db rs db)) ->
  triple P (run_sql e stmt) Q E.
Proof.
  intros HE HQ rs HP. unfold run_sql. destruct (stmt _) as [[db a]|] eqn:Hs; [|by apply HE].
  destruct (HQ rs db a HP Hs). destruct (answer e) as [|[]]; [done|done|by apply HE].
Qed.

(** [inv_m H] inverts a successful run of a chain of binds. *)
Lemma bind_Ok {A B} (m : M A) (f : A -> M B) rs rs' b :
  (m ≫= f) rs = (rs', Ok b) -> exists rs1 a, m rs = (rs1, Ok a) /\ f a rs1 = (rs', Ok b).
Proof. unfold mbind, M_mbind, M_bind. destruct (m rs) as [rs1 [a|]]; naive_solver. Qed.

Lemma wrap_Ok {A} msg (m : M A) rs rs' a : wrap_m msg m rs = (rs', Ok a) -> m rs = (rs', Ok a).
Proof. unfold wrap_m. destruct (m rs) as [? []]; naive_solver. Qed.

Lemma lift_Ok {A} (r : result A) rs rs' a : lift r rs = (rs', Ok a) -> r = Ok a /\ rs' = rs.
Proof. by intros [= -> ->]. Qed.

Ltac inv_m :=
  repeat match goal with
  | H : (_ ≫= _) _ = (_, Ok _) |- _ =>
      let rs := fresh "rs" in let a := fresh "a" in let Hm := fresh "Hm" in
      apply bind_Ok in H as (rs & a & Hm & H)
  | H : wrap_m _ _ _ = (_, Ok _) |- _ => apply wrap_Ok in H
  | H : lift _ _ = (_, Ok _) |- _ => apply lift_Ok in H as [H ->]
  | H : mret _ _ = (_, Ok _) |- _ => injection H as H; try subst
  | H : reads _ _ = (_, Ok _) |- _ => injection H as H; try subst
  | H : modify _ _ = (_, Ok _) |- _ => injection H as H; try subst
  end.

(** ** Rows and positions *)

Section parsing.
  Context `{C : SqlClock}.

Lemma buildShardRule_number t s l c n q k rule :
  buildShardRule t s l c n q k = Ok rule -> sr_RuleNumber rule = Some (mkRuleNumber t s).
Proof. unfold buildShardRule. intros H. inv_ok. destruct (QuorumType_value q); by inv_ok. Qed.

Lemma set_creation_time_number rule t : sr_RuleNumber (set_creation_time rule t) = sr_RuleNumber rule.
Proof. unfold set_creation_time. by destruct t as [t|]; [destruct (t =? _)|]. Qed.

Lemma validate_Ok r o :
  validate r = Ok o ->
  match o with
  | None => coordinatorTerm r = None /\ leaderSubterm r = None
  | Some rule => exists t s, coordinatorTerm r = Some t /\ leaderSubterm r = Some s /\
      sr_RuleNumber rule = Some (mkRuleNumber t s)
  end.
Proof.
  unfold validate. destruct r as [[t|] [s|] l c [n|] [q|] [k|] a]; cbn -[buildShardRule];
    try match goal with |- context [?a =? 0] => let v := eval vm_compute in (a =? 0) in change (a =? 0) with v end;
    cbn iota; try done; try (by intros [= <-]).
  intros H. inv_ok. exists t, s. split_and!; [done..|].
  rewrite set_creation_time_number. by eapply buildShardRule_number.
Qed.

Lemma buildPoolerPosition_Ok d c p lsn pos :
  buildPoolerPosition d c p lsn = Ok pos ->
  exists t s rule prop, pos = mkPoolerPosition (Some (mkRulePosition (Some rule) prop)) lsn /\
    coordinatorTerm d = Some t /\ leaderSubterm d = Some s /\
    sr_RuleNumber rule = Some (mkRuleNumber t s) /\ validate p = Ok prop.
Proof.
  unfold buildPoolerPosition. intros H. inv_ok. destruct a as [rule|]; [|done]. inv_ok.
  match goal with Hv : validate d = Ok _ |- _ => apply validate_Ok in Hv as (t & s & Ht & Hs & Hn) end.
  eexists t, s, _, _. split_and!; [done..| |done]. destruct (String.eqb c ""); inv_ok; [done|].
  repeat match goal with x : (_ * _)%type |- _ => destruct x end. by inv_ok.
Qed.

Lemma row_position_Ok row lsn pos :
  row_position row lsn = Ok pos ->
  exists rule prop, pos = mkPoolerPosition (Some (mkRulePosition (Some rule) prop)) lsn /\
    sr_RuleNumber rule = Some (mkRuleNumber (decision_no row).1 (decision_no row).2) /\
    validate (proposal_cols row) = Ok prop.
Proof. intros (t & s & rule & prop & -> & [= <-] & [= <-] & ? & ?)%buildPoolerPosition_Ok. by exists rule, prop. Qed.

End parsing.

(** ** What each write returns *)

Section writes.
  Context `{R : Runtime} `{C : SqlClock}.

Lemma sql_decide_row t s c a db db' row :
  sql_decide t s c a db = Some (db', Some row) ->
  decision_no row = (t, s) /\ proposal_cols row = null_row /\ db_row db' = Some row /\ coordinator_id row = c /\
  is_Some (db_history db !! (t, s)).
Proof.
  unfold sql_decide. destruct (db_row db) as [r|]; [|done]. destruct (proposal_is r t s) eqn:His; [|done].
  destruct (decide_cols _ _) as [d|] eqn:Hd; [|done]. destruct (proposal_is_spec _ _ _ _ _ His Hd) as [<- <-].
  destruct (db_history db !! _); [|done]. intros [= <- <-]. by eauto.
Qed.

Lemma run_sql_Ok {A} e (stmt : RuleDb -> option (RuleDb * A)) rs rs' a :
  run_sql e stmt rs = (rs', Ok a) -> exists db, stmt (others e (rs_db rs)) = Some (db, a) /\ rs' = with_db rs db.
Proof. unfold run_sql. destruct (stmt _) as [[db b]|]; [destruct (answer e) as [|[]]|]; naive_solver. Qed.

Lemma markProposalAsDecision_Ok re e t s c a proof rs rs' pos :
  markProposalAsDecision re e t s c a proof rs = (rs', Ok pos) ->
  IsRuleDecided (pp_Position pos) = true /\ GetRuleNumber (GetDecision (pp_Position pos)) = Some (mkRuleNumber t s).
Proof.
  unfold markProposalAsDecision. intros H. inv_m.
  match goal with H : match ?o with Some _ => _ | None => _ end _ = _ |- _ => destruct o as [row|]; [|by inv_m] end.
  match goal with H : run_sql _ _ _ = _ |- _ => apply run_sql_Ok in H as (db & Hs & ->) end. apply sql_decide_row in Hs as (Hno & _).
  inv_m. match goal with H : wrap_result _ _ = Ok _ |- _ => rename H into Hb end.
  destruct (buildPoolerPosition _ _ _ _) as [p|] eqn:E; [|done]. injection Hb as ->.
  apply buildPoolerPosition_Ok in E as (t' & s' & rule & prop & -> & [= <-] & [= <-] & Hn & Hp).
  injection Hp as <-. cbn. rewrite Hn. unfold decision_no in Hno. by injection Hno as -> ->.
Qed.

Definition cur_no (position : option RulePosition) : rule_no :=
  let n := GetRuleNumber (PossiblyUndecidedRule position) in (GetCoordinatorTerm n, GetLeaderSubterm n).

Lemma plan_update_Ok position update plan :
  plan_update position update = Ok plan ->
  up_cas plan = cur_no position /\ (up_new plan).1 = termNumber update /\
  ((cur_no position).2 < int64_max -> int64_min <= (cur_no position).2 -> no_lt (cur_no position) (up_new plan)) /\
  (forall prev, previousRule update = Some prev -> cur_no position = (rn_term prev, rn_subterm prev)) /\
  (IsRuleDecided position = true \/ skipOutgoingQuorum update = true \/ is_Some (promotionHook update)) /\
  exists l c dp, resolveNewRuleValues (PossiblyUndecidedRule position) update (is_set (promotionHook update)) =
    Ok (l, c, dp, up_incoming plan) /\ up_leader plan = l /\ up_cohort plan = c /\ up_policy plan = dp.
Proof.
  unfold plan_update. destruct (_ && negb (is_set _)) eqn:Hg; [done|].
  destruct (previous_mismatch _ _ _) eqn:Hp; [done|].
  intros H. inv_ok.
  match goal with Hb : resolveNewRuleValues _ _ _ = Ok ?x |- _ => destruct x as [[[l c] dp] pwc] end. inv_ok. cbn. split_and!; [done..| | | |by eauto 10].
  - intros Hmax Hmin. unfold no_lt, cur_no in *. cbn in *. split_ifs; inv_ok; reflect_bools; [lia|].
    rewrite wrap64_id by (unfold in_int64, int64_min, int64_max in *; lia). lia.
  - intros prev Hprev. unfold previous_mismatch in Hp. rewrite Hprev in Hp. reflect_bools. unfold cur_no. congruence.
  - destruct (IsRuleDecided position); [by left|]. destruct (skipOutgoingQuorum update); [by right; left|].
    destruct (promotionHook update); [right; right; by eexists|done].
Qed.

Lemma proposal_params_Ok update plan p :
  proposal_params update plan = Ok p -> p_cas p = up_cas plan /\ p_new p = up_new plan.
Proof.
  unfold proposal_params. intros H. inv_ok. destruct (up_policy plan); inv_ok. unfold p_cas, p_new. cbn.
  by destruct (up_cas plan), (up_new plan).
Qed.

Lemma UpdateRule_Ok fl ctx env update rs rs' pos :
  UpdateRule fl ctx env update rs = (rs', Ok (Some pos)) ->
  exists rs1 current plan rs2 promoted t params p0,
    readCurrentRule (ue_read env) rs = (rs1, Ok current) /\
    plan_update (pp_Position current) update = Ok plan /\
    maybeFinalizeStuckProposal fl ctx env current update (up_incoming plan) rs1 = (rs2, Ok (p0, promoted)) /\
    update_transition (PossiblyUndecidedRule (pp_Position current)) update (up_incoming plan) = Ok t /\
    proposal_params update plan = Ok params /\
    write_rule fl ctx env update promoted t params rs2 = (rs', Ok pos).
Proof.
  unfold UpdateRule. destruct (AssertActionLockHeld _ _); [done|]. destruct (force update); [done|].
  destruct (bool_decide _); [done|]. destruct (_ =? _); [done|]. intros H. inv_m. destruct a1 as [p0 promoted].
  inv_m. simplify_eq. by eauto 20.
Qed.

End writes.

(** A successful rule update moves the shard to a strictly higher rule.
    Whatever other sessions do to the tables meanwhile, the position it returns is
    decided, carries the caller's term, and its rule number is above that of the
    rule it read, decided or pending; and a caller that named the rule it expected
    to replace replaced exactly that one. *)
Theorem update_rule_advances `{Runtime} `{SqlClock} fl ctx env update rs rs' pos :
  UpdateRule fl ctx env update rs = (rs', Ok (Some pos)) ->
  exists rs1 current, readCurrentRule (ue_read env) rs = (rs1, Ok current) /\
    let cur := PossiblyUndecidedRule (pp_Position current) in
    let new := GetDecision (pp_Position pos) in
    IsRuleDecided (pp_Position pos) = true /\
    GetCoordinatorTerm (GetRuleNumber new) = termNumber update /\
    (int64_min <= GetLeaderSubterm (GetRuleNumber cur) < int64_max ->
     CompareRuleNumbers (GetRuleNumber cur) (GetRuleNumber new) < 0) /\
    (forall prev, previousRule update = Some prev ->
     GetCoordinatorTerm (GetRuleNumber cur) = rn_term prev /\ GetLeaderSubterm (GetRuleNumber cur) = rn_subterm prev).
Proof.
  intros (rs1 & current & plan & rs2 & promoted & t & params & p0 & Hr & Hp & _ & _ & Hpar & Hw)%UpdateRule_Ok.
  exists rs1, current. split; [done|]. unfold write_rule in Hw. inv_m.
  match goal with H : markProposalAsDecision _ _ _ _ _ _ _ _ = _ |- _ =>
    apply markProposalAsDecision_Ok in H as [Hd Hn] end.
  apply proposal_params_Ok in Hpar as [_ Hnew].
  apply plan_update_Ok in Hp as (_ & Ht & Hlt & Hprev & _). cbn. rewrite Hn.
  assert (up_new plan = (newTerm params, newSubterm params)) as Hup by done. rewrite Hup in *. cbn in *.
  split_and!; [done..| |].
  - intros [? ?]. specialize (Hlt ltac:(cbn; lia) ltac:(cbn; lia)). rewrite CompareRuleNumbers_key. cbn.
    unfold no_lt, cur_no in Hlt. cbn in Hlt. unfold Zcmp. split_ifs; reflect_bools; lia.
  - intros prev Hpr. specialize (Hprev prev Hpr). by injection Hprev.
Qed.

(** ** Invariants of the writes *)

Section stable.
  Context `{R : Runtime} `{C : SqlClock}.

(** A predicate the database and the cache do not matter to, and that the
    confirming and deciding writes keep. *)
Record stable (I : ruleStore -> Prop) : Prop := {
  stable_db : forall rs db, I rs -> I (with_db rs db);
  stable_cache : forall rs pos, I rs -> I (fst (cacheRuleObservation (Some pos) rs));
  stable_confirm : forall rs no, I rs -> I (logged rs (EvConfirm no (rs_conf rs)));
  stable_acked : forall rs l a, I rs -> I (logged rs (EvAcked l a));
  stable_decide : forall rs no, I rs -> I (logged rs (EvDecide no (rs_conf rs)))
}.

Context (I : ruleStore -> Prop) (HI : stable I).
Abbreviation keeps m := (triple I m (fun _ => I) I).

Lemma keeps_lift {A} (r : result A) : keeps (lift r).
Proof. by apply triple_lift. Qed.

Lemma keeps_run_sql {A} e (stmt : RuleDb -> option (RuleDb * A)) : keeps (run_sql e stmt).
Proof. apply triple_run_sql; intros; [by apply (stable_db I)|split; by apply (stable_db I)]. Qed.

Lemma keeps_cache pos : keeps (cacheRuleObservation (Some pos)).
Proof. intros rs Hi. by apply (stable_cache I HI rs pos). Qed.

Lemma keeps_log (f : ruleStore -> event) :
  (forall rs, I rs -> I (logged rs (f rs))) -> forall conf, triple (fun rs => I rs /\ rs_conf rs = conf)
    (modify (fun rs => logged rs (f (with_guc rs (syncStandby rs) conf)))) (fun _ => I) I.
Proof. intros Hf conf. apply triple_modify. intros rs [Hi <-]. specialize (Hf rs Hi). by destruct rs. Qed.

Lemma keeps_conf : triple I (reads rs_conf) (fun conf rs => I rs /\ rs_conf rs = conf) I.
Proof. by apply triple_reads. Qed.

Lemma keeps_confirm e t s : keeps (confirmProposalQuorum e t s).
Proof.
  eapply triple_bind; [apply keeps_conf|intros conf]. eapply triple_bind.
  { apply (keeps_log (fun rs => EvConfirm (t, s) (rs_conf rs))). intros rs. apply (stable_confirm I HI). }
  intros ?. eapply triple_bind; [apply triple_wrap, keeps_run_sql|]. intros [].
  - destruct (ParseLSN _); [by apply triple_ret|apply keeps_lift].
  - apply keeps_lift.
Qed.

Lemma keeps_freshen e proof t s : keeps (freshenQuorumProof e proof t s).
Proof.
  eapply (triple_bind _ _ _ (fun _ => I)); [by apply triple_reads|]. intros after. destruct proof as [p|]; [|by apply triple_ret].
  destruct (_ <? _); [by apply triple_ret|]. eapply (triple_bind _ _ _ (fun _ => I)); [|intros []; by apply triple_ret].
  eapply (triple_attempt _ _ (fun _ => I)); [apply keeps_confirm|done].
Qed.

Lemma keeps_row_result msg (r : result PoolerPosition) :
  keeps (pos ← lift (wrap_result msg r); _ ← cacheRuleObservation (Some pos); mret pos).
Proof.
  eapply triple_bind; [apply keeps_lift|]. intros pos. eapply triple_bind; [apply keeps_cache|].
  intros ?. by apply triple_ret.
Qed.

Lemma keeps_mark re e t s c a proof : keeps (markProposalAsDecision re e t s c a proof).
Proof.
  eapply triple_bind; [apply keeps_freshen|]. intros pr. eapply (triple_bind _ _ _ (fun _ => I)); [by apply triple_reads|]. intros hook.
  eapply triple_bind.
  { apply (triple_modify _ _ (fun _ => I)). intros rs Hi. destruct pr; [|done].
    destruct hook; [by apply (stable_acked I)|done]. }
  intros ?. eapply triple_bind; [apply keeps_conf|intros conf]. eapply triple_bind.
  { apply (keeps_log (fun rs => EvDecide (t, s) (rs_conf rs))). intros rs. apply (stable_decide I HI). }
  intros ?. eapply triple_bind; [apply triple_wrap, keeps_run_sql|].
  intros [row|]; [apply keeps_row_result|apply keeps_lift].
Qed.

Lemma keeps_read e : keeps (readCurrentRule e).
Proof. eapply triple_bind; [apply triple_wrap, keeps_run_sql|]. intros []; apply keeps_lift. Qed.

(** A proposal write needs the predicate to allow its event. *)
Lemma keeps_propose (J : ruleStore -> Prop) e p :
  (forall rs, J rs -> I (logged rs (EvPropose (p_new p) (rs_conf rs)))) ->
  triple J (writeRuleProposal e p) (fun _ => I) I.
Proof.
  intros HJ. eapply (triple_bind _ _ _ (fun conf rs => J rs /\ rs_conf rs = conf)); [by apply triple_reads|].
  intros conf. eapply (triple_bind _ _ _ (fun _ => I)).
  { apply triple_modify. intros rs [Hj <-]. by apply HJ. }
  intros ?. eapply triple_bind; [apply triple_wrap, keeps_run_sql|].
  intros [row|]; [apply keeps_row_result|apply keeps_lift].
Qed.

End stable.

(** ** The settings a rule is written under *)

Definition is_propose (e : event) : bool := match e with EvPropose _ _ => true | _ => false end.
Definition is_promote (e : event) : bool := match e with EvPromote => true | _ => false end.

(** A log without a proposal write and with [n] promotions. *)
Definition quiet_log (n : nat) (log : list event) : Prop :=
  filter (fun e => is_propose e = true) log = [] /\ length (filter (fun e => is_promote e = true) log) = n.

(** A log with exactly one proposal write, of rule [no] under settings in [ok],
    after [n] promotions and with none following. *)
Definition wrote_once (no : rule_no) (n : nat) (ok : PgConf -> Prop) (log : list event) : Prop :=
  exists pre conf post, log = pre ++ EvPropose no conf :: post /\ quiet_log n pre /\ quiet_log 0 post /\ ok conf.

Definition neutral (e : event) : Prop := is_propose e = false /\ is_promote e = false.

Lemma quiet_log_app n log e : neutral e -> quiet_log n log -> quiet_log n (log ++ [e]).
Proof. intros [Hp Hq] [H1 H2]. unfold quiet_log. rewrite !filter_app. destruct e; cbn in *; rewrite ?app_nil_r; done. Qed.

Lemma quiet_log_promote n log : quiet_log n log -> quiet_log (S n) (log ++ [EvPromote]).
Proof. intros [H1 H2]. unfold quiet_log. rewrite !filter_app, H1, length_app, H2.
  split; [done|]. change (n + 1 = S n)%nat. lia.
Qed.

Lemma wrote_once_app no n ok log e : neutral e -> wrote_once no n ok log -> wrote_once no n ok (log ++ [e]).
Proof.
  intros He (pre & conf & post & -> & ? & ? & ?). exists pre, conf, (post ++ [e]).
  split_and!; [by rewrite <-app_assoc|done|by apply quiet_log_app|done].
Qed.

Section guc.
  Context `{R : Runtime} `{C : SqlClock} (id : option ID).

(** The manager serves pooler [id] with a valid cache, the settings are in [W],
    the log in [L]. *)
Record under (W : PgConf -> Prop) (L : list event -> Prop) (rs : ruleStore) : Prop := {
  under_id : localID (syncStandby rs) = id;
  under_cache : cache_valid (syncStandby rs) (rs_conf rs);
  under_conf : W (rs_conf rs);
  under_log : L (rs_log rs)
}.

Definition accepts (L : list event -> Prop) : Prop := forall log e, neutral e -> L log -> L (log ++ [e]).
Abbreviation run_log L := (fun rs => L (rs_log rs)).

Lemma stable_under W L : accepts L -> stable (under W L).
Proof.
  intros HL. constructor; intros rs; intros; try (match goal with H : under _ _ _ |- _ => destruct H end);
    try (constructor; cbn; try done; by apply HL).
  unfold cacheRuleObservation, modify. cbn. destruct (_ && _); by constructor.
Qed.

Lemma under_set_policy W L fl ctx e pc :
  accepts L -> triple (under W L) (set_policy fl ctx e pc)
    (fun _ => under (wanted (NewSyncStandbyManager id) pc) L) (run_log L).
Proof.
  intros HL rs [Hid Hc _ Hl]. unfold set_policy. destruct (SetPolicy _ _ _ _ _ _ _ _ _) as [[s conf] [er|]] eqn:Hs; [done|].
  destruct (SetPolicy_Ok _ _ _ _ _ _ _ _ _ _ _ Hc Hs) as (Hw & Hv & Hloc). constructor; cbn; [congruence|done| |].
  - by eapply wanted_localID, Hw.
  - apply HL; [done|done].
Qed.

(** The hook runs when there is one. *)
Lemma under_hook W n msg hook :
  triple (under W (quiet_log n)) (run_hook msg hook)
    (fun _ => under W (quiet_log (if is_set hook then S n else n))) (run_log (quiet_log n)).
Proof.
  intros rs Hu. destruct hook as [[e|]|]; cbn; [by destruct Hu| |done].
  destruct Hu. constructor; try done. cbn. by apply quiet_log_promote.
Qed.

Lemma accepts_quiet n : accepts (quiet_log n).
Proof. intros log e. apply quiet_log_app. Qed.
Lemma accepts_once no n ok : accepts (wrote_once no n ok).
Proof. intros log e. apply wrote_once_app. Qed.

Definition no_propose (log : list event) : Prop := exists n, quiet_log n log.

Lemma under_finalize W fl ctx env current update pwc :
  triple (under W (quiet_log 0)) (maybeFinalizeStuckProposal fl ctx env current update pwc)
    (fun r => under (fun _ => True) (quiet_log (if r.2 then 1 else 0))) (run_log no_propose) /\
  triple (under W (quiet_log 0)) (maybeFinalizeStuckProposal fl ctx env current update pwc)
    (fun r rs => r.2 = true -> is_set (promotionHook update) = true) (fun _ => True).
Proof.
  split.
  - unfold maybeFinalizeStuckProposal. destruct (IsRuleDecided _).
    { apply triple_ret. intros rs []. by constructor. }
    assert (forall n rs, quiet_log n (rs_log rs) -> no_propose (rs_log rs)) as Hq by (intros n rs ?; by exists n).
    eapply (triple_bind _ _ _ (fun _ => under W (quiet_log 0))).
    { apply triple_lift; [done|intros e rs _ []; by eapply Hq]. }
    intros pc. eapply triple_bind; [apply triple_wrap; eapply triple_conseq;
      [apply (under_set_policy W); apply accepts_quiet|done|done|intros rs; apply Hq]|].
    intros ?. eapply triple_bind; [eapply triple_conseq; [apply under_hook|done|intros ? rs Hu; exact Hu|intros rs; apply Hq]|].
    intros ?. set (n := if is_set _ then _ else _).
    pose proof (stable_under (wanted (NewSyncStandbyManager id) pc) (quiet_log n) (accepts_quiet n)) as Hst.
    eapply triple_bind; [apply triple_wrap; eapply triple_conseq;
      [apply (keeps_confirm _ Hst)|done|intros ? rs Hu; exact Hu|intros rs []; by eapply Hq]|].
    intros lsn. eapply triple_bind; [apply triple_wrap; eapply triple_conseq;
      [apply (keeps_mark _ Hst)|done|intros ? rs Hu; exact Hu|intros rs []; by eapply Hq]|].
    intros p. apply triple_ret. intros rs []. by constructor.
  - intros rs _. destruct (maybeFinalizeStuckProposal _ _ _ _ _ _ rs) as [rs' [r|]] eqn:E; [|done].
    unfold maybeFinalizeStuckProposal in E. destruct (IsRuleDecided _); [by injection E as <- <-|]. inv_m. done.
Qed.

Lemma under_write W fl ctx env update (promoted : bool) t params :
  (promoted = true -> is_set (promotionHook update) = true) ->
  let once := wrote_once (p_new params) (if is_set (promotionHook update) then 1 else 0)
                (wanted (NewSyncStandbyManager id) (Both t)) in
  triple (under W (quiet_log (if promoted then 1 else 0))) (write_rule fl ctx env update promoted t params)
    (fun _ rs => once (rs_log rs) /\ wanted (NewSyncStandbyManager id) (Incoming t) (rs_conf rs))
    (fun rs => no_propose (rs_log rs) \/ once (rs_log rs)).
Proof.
  intros Hpr once. set (both := wanted (NewSyncStandbyManager id) (Both t)).
  set (k := if is_set (promotionHook update) then 1%nat else 0%nat).
  assert (forall m rs, quiet_log m (rs_log rs) -> no_propose (rs_log rs) \/ once (rs_log rs)) as Hq
    by (intros m rs ?; left; by exists m).
  eapply (triple_bind _ _ _ (fun _ => under both (quiet_log k))).
  { unfold k. destruct (promotionHook update) as [hook|] eqn:Hhook; cbn [is_set] in *.
    - eapply triple_bind; [apply triple_wrap; eapply triple_conseq;
        [apply (under_set_policy W); apply accepts_quiet|done|intros ? rs Hu; exact Hu|intros rs; apply Hq]|].
      intros ?. destruct promoted; [apply triple_ret; intros rs Hu; exact Hu|].
      eapply triple_conseq; [apply (under_hook both 0 _ (Some hook))|done|intros ? rs Hu; exact Hu|intros rs; apply Hq].
    - destruct promoted; [by discriminate Hpr|]. apply triple_wrap. eapply triple_conseq;
        [apply (under_set_policy W); apply accepts_quiet|done|intros ? rs Hu; exact Hu|intros rs; apply Hq]. }
  intros ?. pose proof (stable_under both once (accepts_once _ _ _)) as Hst.
  assert (triple (under both (quiet_log k)) (writeRuleProposal (ue_propose env) params)
    (fun _ => under both once) (under both once)) as Hprop.
  { apply (keeps_propose _ Hst). intros rs [Hid Hv Hw Hl]. constructor; [done..|]. cbn.
    exists (rs_log rs), (rs_conf rs), []. split_and!; done. }
  eapply triple_bind; [eapply triple_conseq; [apply Hprop|done|intros ? rs Hu; exact Hu|intros rs []; by right]|].
  intros ppos. eapply triple_bind; [eapply triple_conseq; [apply (keeps_mark _ Hst)|done|intros ? rs Hu; exact Hu|intros rs []; by right]|].
  intros pos. eapply triple_bind; [apply triple_wrap; eapply triple_conseq;
    [apply (under_set_policy both); apply accepts_once|done|intros ? rs Hu; exact Hu|intros rs Hl; by right]|].
  intros ?. apply triple_ret. by intros rs [].
Qed.

End guc.

(** An update that stops before its proposal write. *)
Ltac early Hq H := intros [= <- <-]; left; split; [by eapply Hq, H|done].

(** C8: The order of a rule write.  Starting from a valid cache, whatever the
    outcome, an update issues at most one proposal write; when it does, the
    settings in force at that moment are those of the transition policy, a
    promotion has happened exactly when the update has a hook and never again
    after; and a successful update ends with the incoming policy in force. *)
Theorem update_rule_guc_order `{Runtime} `{SqlClock} fl ctx env update rs rs' r :
  cache_valid (syncStandby rs) (rs_conf rs) -> rs_log rs = [] ->
  UpdateRule fl ctx env update rs = (rs', r) ->
  (no_propose (rs_log rs') /\ forall pos, r <> Ok (Some pos)) \/
  exists rs1 current plan t,
    readCurrentRule (ue_read env) rs = (rs1, Ok current) /\
    plan_update (pp_Position current) update = Ok plan /\
    update_transition (PossiblyUndecidedRule (pp_Position current)) update (up_incoming plan) = Ok t /\
    wrote_once (up_new plan) (if is_set (promotionHook update) then 1 else 0)
      (wanted (syncStandby rs) (Both t)) (rs_log rs') /\
    (is_Ok r -> wanted (syncStandby rs) (Incoming t) (rs_conf rs')).
Proof.
  intros Hv Hlog. set (id := localID (syncStandby rs)).
  assert (under id (fun _ => True) (quiet_log 0) rs) as Hu by (constructor; [done..|by rewrite Hlog]).
  assert (forall rs0 n, quiet_log n (rs_log rs0) -> no_propose (rs_log rs0)) as Hq by (intros rs0 n ?; by exists n).
  unfold UpdateRule. destruct (AssertActionLockHeld _ _); [early Hq Hu|].
  destruct (force update); [early Hq Hu|].
  destruct (bool_decide _); [early Hq Hu|].
  destruct (_ =? _); [early Hq Hu|].
  unfold mbind, M_mbind, M_bind, lift.
  pose proof (keeps_read _ (stable_under id (fun _ => True) (quiet_log 0) (accepts_quiet 0)) (ue_read env) rs Hu) as Hr.
  destruct (readCurrentRule (ue_read env) rs) as [rs1 [current|e]]; [|early Hq Hr].
  destruct (plan_update _ _) as [plan|e] eqn:Hplan; [|early Hq Hr].
  destruct (under_finalize id (fun _ => True) fl ctx env current update (up_incoming plan)) as [Hf1 Hf2].
  specialize (Hf1 rs1 Hr). specialize (Hf2 rs1 Hr).
  destruct (maybeFinalizeStuckProposal _ _ _ _ _ _ rs1) as [rs2 [[p0 promoted]|e]];
    [|intros [= <- <-]; left; split; done].
  destruct (update_transition _ _ _) as [t|e] eqn:Ht; [|early Hq Hf1].
  destruct (proposal_params _ _) as [params|e] eqn:Hpar; [|early Hq Hf1].
  pose proof (under_write id _ fl ctx env update promoted t params Hf2 rs2 Hf1) as Hw.
  apply proposal_params_Ok in Hpar as [_ Hnew]. rewrite Hnew in Hw.
  assert (forall pc conf, wanted (NewSyncStandbyManager id) pc conf -> wanted (syncStandby rs) pc conf) as Hwid
    by (intros pc conf; by apply wanted_localID).
  assert (forall n log, wrote_once (up_new plan) n (wanted (NewSyncStandbyManager id) (Both t)) log ->
    wrote_once (up_new plan) n (wanted (syncStandby rs) (Both t)) log) as Hwo.
  { intros n log (pre & conf & post & ? & ? & ? & ?). exists pre, conf, post. auto. }
  destruct (write_rule _ _ _ _ _ _ _ rs2) as [rs3 [pos|e]]; intros [= <- <-].
  - right. exists rs1, current, plan, t. destruct Hw. split_and!; auto.
  - destruct Hw as [?|?]; [by left|right]. exists rs1, current, plan, t. split_and!; auto. done.
Qed.

(** ** The cached position *)

Section cache.
  Context `{R : Runtime} `{C : SqlClock}.

(** The cache holds a position at or above [p]. *)
Definition cached_above (p : PoolerPosition) (rs : ruleStore) : Prop :=
  exists q, lastPos rs = Some q /\ CompareRulePosition (pp_Position p) (pp_Position q) <= 0.

Lemma cached_above_same p rs rs' : lastPos rs' = lastPos rs -> cached_above p rs -> cached_above p rs'.
Proof. unfold cached_above. by intros ->. Qed.

Lemma cache_observes pos rs : cached_above pos (fst (cacheRuleObservation (Some pos) rs)).
Proof.
  unfold cacheRuleObservation, modify, cached_above. cbn. destruct (lastPos rs) as [q|] eqn:Hq; cbn.
  - destruct (CompareRulePosition _ _ <? 0) eqn:Hc; reflect_bools; cbn.
    + exists q. split; [done|]. cbn in Hc. lia.
    + exists pos. split; [done|]. by rewrite (cmp_refl CompareRulePosition).
  - exists pos. split; [done|]. by rewrite (cmp_refl CompareRulePosition).
Qed.

Lemma cache_keeps p pos rs : cached_above p rs -> cached_above p (fst (cacheRuleObservation (Some pos) rs)).
Proof.
  intros (q & Hq & Hle). unfold cacheRuleObservation, modify, cached_above. cbn. rewrite Hq. cbn.
  destruct (CompareRulePosition _ _ <? 0) eqn:Hc; cbn; [by exists q|]. exists pos. split; [done|].
  reflect_bools. cbn in Hc. eapply (cmp_trans _ _ _ Hle).
  rewrite (cmp_anti (pp_Position pos)). lia.
Qed.

Lemma stable_cached p : stable (cached_above p).
Proof. constructor; intros; try (by eapply cached_above_same); try done. by apply cache_keeps. Qed.

Abbreviation keeps_above p m := (triple (cached_above p) m (fun _ => cached_above p) (cached_above p)).

Lemma above_set_policy p fl ctx e pc : keeps_above p (set_policy fl ctx e pc).
Proof.
  intros rs Hr. unfold set_policy. destruct (SetPolicy _ _ _ _ _ _ _ _ _) as [[s conf] []]; by eapply cached_above_same.
Qed.

Lemma above_hook p msg hook : keeps_above p (run_hook msg hook).
Proof. intros rs Hr. by destruct hook as [[]|]; cbn; [| eapply cached_above_same|]. Qed.

Lemma above_finalize p fl ctx env current update pwc :
  keeps_above p (maybeFinalizeStuckProposal fl ctx env current update pwc).
Proof.
  unfold maybeFinalizeStuckProposal. destruct (IsRuleDecided _); [by apply triple_ret|].
  eapply (triple_bind _ _ _ (fun _ => cached_above p)); [by apply triple_lift|intros ?].
  eapply triple_bind; [apply triple_wrap, above_set_policy|intros ?].
  eapply triple_bind; [apply above_hook|intros ?].
  eapply triple_bind; [apply triple_wrap, keeps_confirm, stable_cached|intros ?].
  eapply triple_bind; [apply triple_wrap, keeps_mark, stable_cached|intros ?]. by apply triple_ret.
Qed.

Lemma mark_observes re e t s c a proof :
  triple (fun _ => True) (markProposalAsDecision re e t s c a proof) cached_above (fun _ => True).
Proof.
  intros rs _. destruct (markProposalAsDecision _ _ _ _ _ _ _ rs) as [rs' [pos|]] eqn:E; [|done].
  unfold markProposalAsDecision in E. inv_m.
  match goal with H : match ?o with Some _ => _ | None => _ end _ = _ |- _ => destruct o as [row|]; [|by inv_m] end.
  inv_m. match goal with H : cacheRuleObservation (Some ?p) ?rs0 = _ |- _ =>
    pose proof (cache_observes p rs0) as Hc; rewrite H in Hc end. exact Hc.
Qed.

Lemma above_write p fl ctx env update promoted t params :
  triple (cached_above p) (write_rule fl ctx env update promoted t params)
    (fun pos rs => cached_above p rs /\ cached_above pos rs) (cached_above p).
Proof.
  eapply (triple_bind _ _ _ (fun _ => cached_above p)).
  { destruct (is_set _); [|apply triple_wrap, above_set_policy].
    eapply triple_bind; [apply triple_wrap, above_set_policy|intros ?].
    destruct promoted; [by apply triple_ret|apply above_hook]. }
  intros ?. eapply (triple_bind _ _ _ (fun _ => cached_above p)).
  { apply keeps_propose; [apply stable_cached|]. intros rs Hr. by eapply cached_above_same. }
  intros ppos. eapply (triple_bind _ _ _ (fun pos rs => cached_above p rs /\ cached_above pos rs)).
  { intros rs Hr. pose proof (keeps_mark _ (stable_cached p) (ue_refresh env) (ue_decide env) (newTerm params)
      (newSubterm params) (coordinatorIDStr params) (u_createdAt update)
      (newQuorumProof (pp_Lsn ppos) (ue_propose_at env)) rs Hr) as H1.
    pose proof (mark_observes (ue_refresh env) (ue_decide env) (newTerm params) (newSubterm params)
      (coordinatorIDStr params) (u_createdAt update) (newQuorumProof (pp_Lsn ppos) (ue_propose_at env)) rs I) as H2.
    destruct (markProposalAsDecision _ _ _ _ _ _ _ rs) as [? []]; done. }
  intros pos. eapply (triple_bind _ _ _ (fun _ rs => cached_above p rs /\ cached_above pos rs)).
  { apply triple_wrap. intros rs [H1 H2]. pose proof (above_set_policy p fl ctx (ue_final_guc env) (Incoming t) rs H1) as K1.
    pose proof (above_set_policy pos fl ctx (ue_final_guc env) (Incoming t) rs H2) as K2.
    destruct (set_policy _ _ _ _ rs) as [? []]; done. }
  intros ?. by apply triple_ret.
Qed.

End cache.

(** The cached position never moves back, whatever an update's outcome and
    whatever rows it read: it stays at or above the position cached before, and
    after a successful update it is at or above the position returned. *)
Theorem cached_position_only_advances `{Runtime} `{SqlClock} fl ctx env update rs rs' r p :
  lastPos rs = Some p -> UpdateRule fl ctx env update rs = (rs', r) ->
  cached_above p rs' /\ forall pos, r = Ok (Some pos) -> cached_above pos rs'.
Proof.
  intros Hp Hr.
  assert (triple (cached_above p) (UpdateRule fl ctx env update)
    (fun o rs' => cached_above p rs' /\ forall pos, o = Some pos -> cached_above pos rs') (cached_above p)) as Ht.
  { unfold UpdateRule. destruct (AssertActionLockHeld _ _); [by apply triple_lift|].
    destruct (force update); [by apply triple_ret|]. destruct (bool_decide _); [by apply triple_lift|].
    destruct (_ =? _); [by apply triple_lift|].
    eapply triple_bind; [apply keeps_read, stable_cached|intros current].
    eapply (triple_bind _ _ _ (fun _ => cached_above p)); [by apply triple_lift|intros plan].
    eapply triple_bind; [apply above_finalize|intros [p0 promoted]].
    eapply (triple_bind _ _ _ (fun _ => cached_above p)); [by apply triple_lift|intros t].
    eapply (triple_bind _ _ _ (fun _ => cached_above p)); [by apply triple_lift|intros params].
    eapply triple_bind; [apply above_write|intros pos]. apply triple_ret. intros rs0 [? ?].
    split; [done|]. by intros ? [= <-]. }
  specialize (Ht rs). rewrite Hr in Ht.
  assert (cached_above p rs) as H1 by (exists p; split; [done|]; by rewrite (cmp_refl CompareRulePosition)).
  specialize (Ht H1). destruct r as [o|]; [|done]. destruct Ht as [Ha Hb]. split; [done|].
  intros pos [= ->]. by apply Hb.
Qed.

(** ** The statements of an update *)

Section refinement.
  Context `{R : Runtime} `{C : SqlClock}.

(** No other session touches the tables. *)
Definition undisturbed (e : sql_env) : Prop := forall db, others e db = db.

Record undisturbed_update (env : UpdateEnv) : Prop := {
  un_read : undisturbed (ue_read env);
  un_stuck_confirm : undisturbed (ue_stuck_confirm env);
  un_stuck_refresh : undisturbed (re_sql (ue_stuck_refresh env));
  un_stuck_decide : undisturbed (ue_stuck_decide env);
  un_propose : undisturbed (ue_propose env);
  un_refresh : undisturbed (re_sql (ue_refresh env));
  un_decide : undisturbed (ue_decide env)
}.

Abbreviation at_db db := (fun rs => rs_db rs = db).
Abbreviation reach db := (fun rs => rtc db_step db (rs_db rs)).

Lemma at_db_cache db pos :
  triple (at_db db) (cacheRuleObservation (Some pos)) (fun _ => at_db db) (at_db db).
Proof. intros rs <-. unfold cacheRuleObservation, modify. cbn. by destruct (_ && _). Qed.

Lemma at_db_set_policy db fl ctx e pc : triple (at_db db) (set_policy fl ctx e pc) (fun _ => at_db db) (at_db db).
Proof. intros rs <-. unfold set_policy. by destruct (SetPolicy _ _ _ _ _ _ _ _ _) as [[? ?] []]. Qed.

Lemma at_db_hook db msg hook : triple (at_db db) (run_hook msg hook) (fun _ => at_db db) (at_db db).
Proof. intros rs <-. by destruct hook as [[]|]. Qed.

Lemma at_db_read db e :
  undisturbed e -> triple (at_db db) (readCurrentRule e)
    (fun pos rs => rs_db rs = db /\ exists row, db_row db = Some row /\ row_position row (wal_lsn e) = Ok pos) (at_db db).
Proof.
  intros He. eapply (triple_bind _ _ _ (fun o rs => rs_db rs = db /\ o = db_row db)).
  { apply triple_wrap, triple_run_sql; intros rs; [by intros <-; cbn|]. intros db' o <- [= <- <-]. by rewrite He. }
  intros [row|]; [|by apply triple_lift; [|intros ? ? _ []]]. apply triple_lift; [|by intros ? ? _ []].
  intros pos rs Hp [? ?]. split; [done|]. exists row. split; [done|]. by destruct (row_position _ _); inv_ok.
Qed.

Lemma at_db_confirm db e t s :
  undisturbed e -> triple (at_db db) (confirmProposalQuorum e t s) (fun _ => at_db db) (at_db db).
Proof.
  intros He. eapply (triple_bind _ _ _ (fun _ => at_db db)); [by apply triple_reads|intros ?].
  eapply (triple_bind _ _ _ (fun _ => at_db db)); [by apply triple_modify|intros ?].
  eapply (triple_bind _ _ _ (fun _ => at_db db)).
  { apply triple_wrap, triple_run_sql; intros rs; [by intros <-; cbn|]. intros db' o <- Hs. rewrite He in Hs.
    unfold sql_confirm in Hs. by destruct (db_row _); simplify_eq. }
  intros []; [|by apply triple_lift]. destruct (ParseLSN _); [by apply triple_ret|by apply triple_lift].
Qed.

Lemma at_db_freshen db e proof t s :
  undisturbed (re_sql e) -> triple (at_db db) (freshenQuorumProof e proof t s) (fun _ => at_db db) (at_db db).
Proof.
  intros He. eapply (triple_bind _ _ _ (fun _ => at_db db)); [by apply triple_reads|intros ?].
  destruct proof; [|by apply triple_ret]. destruct (_ <? _); [by apply triple_ret|].
  eapply (triple_bind _ _ _ (fun _ => at_db db)); [|intros []; by apply triple_ret].
  eapply (triple_attempt _ _ (fun _ => at_db db)); [by apply at_db_confirm|done].
Qed.

(** The row decided as rule [no]. *)
Definition decided_as (no : rule_no) (db : RuleDb) : Prop :=
  exists row, db_row db = Some row /\ proposal_cols row = null_row /\ decision_no row = no.

Lemma steps_row_result (Q : RuleDb -> Prop) db msg (r : result PoolerPosition) :
  rtc db_step db db -> forall P, (forall rs, P rs -> rtc db_step db (rs_db rs) /\ Q (rs_db rs)) ->
  triple P (pos ← lift (wrap_result msg r); _ ← cacheRuleObservation (Some pos); mret pos)
    (fun _ rs => rtc db_step db (rs_db rs) /\ Q (rs_db rs)) (reach db).
Proof.
  intros _ P HP. eapply (triple_bind _ _ _ (fun _ => P)); [apply triple_lift; [done|intros e rs _ Hr; by apply HP]|].
  intros pos rs Hr%HP. unfold cacheRuleObservation, modify, mbind, M_mbind, M_bind. cbn. by destruct (_ && _).
Qed.

Lemma steps_mark db re e t s c a proof :
  undisturbed (re_sql re) -> undisturbed e ->
  triple (at_db db) (markProposalAsDecision re e t s c a proof)
    (fun _ rs => rtc db_step db (rs_db rs) /\ decided_as (t, s) (rs_db rs)) (reach db).
Proof.
  intros Hre He. eapply (triple_bind _ _ _ (fun _ => at_db db)).
  { eapply triple_conseq; [by apply (at_db_freshen db)|done|done|]. intros rs ->. apply rtc_refl. }
  intros pr. eapply (triple_bind _ _ _ (fun _ => at_db db)); [by apply triple_reads|intros hook].
  eapply (triple_bind _ _ _ (fun _ => at_db db)).
  { apply triple_modify. intros rs Hr. destruct pr; [|done]. by destruct hook. }
  intros ?. eapply (triple_bind _ _ _ (fun _ => at_db db)); [by apply triple_reads|intros conf].
  eapply (triple_bind _ _ _ (fun _ => at_db db)); [by apply triple_modify|intros ?].
  eapply (triple_bind _ _ _ (fun o rs => rtc db_step db (rs_db rs) /\ (is_Some o -> decided_as (t, s) (rs_db rs)))).
  { apply triple_wrap, triple_run_sql; intros rs; [intros <-; cbn; rewrite He; apply rtc_refl|].
    intros db' o <- Hs. rewrite He in Hs. assert (rtc db_step (rs_db rs) db') by by apply rtc_once; econstructor.
    split; [|done]. split; [done|]. intros [row ->]. apply sql_decide_row in Hs as (? & ? & ? & _). by exists row. }
  intros [row|]; [|apply triple_lift; [done|by intros ? ? _ []]].
  apply (steps_row_result (decided_as (t, s))); [done|]. intros rs [? Hd]. split; [done|]. by apply Hd.
Qed.

Lemma steps_propose db e p :
  undisturbed e -> decided_as (p_cas p) db -> no_lt (p_cas p) (p_new p) ->
  triple (at_db db) (writeRuleProposal e p) (fun _ => reach db) (reach db).
Proof.
  intros He (row & Hrow & Hnull & Hno) Hlt.
  eapply (triple_bind _ _ _ (fun _ => at_db db)); [by apply triple_reads|intros conf].
  eapply (triple_bind _ _ _ (fun _ => at_db db)); [by apply triple_modify|intros ?].
  eapply (triple_bind _ _ _ (fun _ => reach db)).
  { apply triple_wrap, triple_run_sql; intros rs; [intros <-; cbn; rewrite He; apply rtc_refl|].
    intros db' o <- Hs. rewrite He in Hs. assert (rtc db_step (rs_db rs) db'); [|done].
    apply rtc_once. eapply step_propose; [|done|done]. intros r Hr. congruence. }
  intros [r|]; [|by apply triple_lift].
  eapply triple_conseq; [apply (steps_row_result (fun _ => True) db); [done|intros rs Hr; exact (conj Hr I)]|done|
    by intros ? ? []|done].
Qed.

(** A consistent row read as decided has no pending proposal. *)
Lemma decided_row db row lsn pos :
  rule_db_inv db -> db_row db = Some row -> no_le (0, 1) (decision_no row) ->
  row_position row lsn = Ok pos -> IsRuleDecided (pp_Position pos) = true -> decided_as (cur_no (pp_Position pos)) db.
Proof.
  intros [(row' & Hr' & Hp & _)] Hr Hge Hpos Hdec. assert (row' = row) as -> by congruence. exists row.
  apply row_position_Ok in Hpos as (rule & prop & -> & Hn & Hv). cbn in Hdec |- *.
  unfold cur_no, PossiblyUndecidedRule. rewrite Hdec. cbn. rewrite Hn. cbn.
  split_and!; [done| |done]. destruct (pending_proposal _ _ Hp) as [?|(d & h & Hd & _ & _ & _ & Hlt)]; [done|exfalso].
  apply validate_Ok in Hv. unfold decide_cols in Hd. destruct (proposal_cols row) as [[t|] [s|] ? [] [] [] [] ?]; try done.
  injection Hd as <-. destruct prop as [prop|]; [|by destruct Hv].
  destruct Hv as (? & ? & [= <-] & [= <-] & Hpn). unfold IsRuleDecided in Hdec. cbn in Hdec. rewrite Hpn in Hdec.
  unfold ruleNumberIsUnset in Hdec. cbn in Hdec, Hlt. reflect_bools. apply (no_le_lt _ _ _ Hge) in Hlt.
  unfold no_lt in Hlt. cbn in Hlt. lia.
Qed.

Lemma reach_at db : forall rs, rs_db rs = db -> rtc db_step db (rs_db rs).
Proof. intros rs ->. apply rtc_refl. Qed.

Lemma reach_set_policy db msg fl ctx e pc :
  triple (at_db db) (wrap_m msg (set_policy fl ctx e pc)) (fun _ => at_db db) (reach db).
Proof. apply triple_wrap. eapply triple_conseq; [apply (at_db_set_policy db)|done|done|apply reach_at]. Qed.

Lemma reach_hook db msg hook : triple (at_db db) (run_hook msg hook) (fun _ => at_db db) (reach db).
Proof. eapply triple_conseq; [apply (at_db_hook db)|done|done|apply reach_at]. Qed.

Lemma steps_finalize db row lsn fl ctx env current update pwc :
  undisturbed_update env -> rule_db_inv db -> db_row db = Some row -> no_le (0, 1) (decision_no row) ->
  row_position row lsn = Ok current ->
  triple (at_db db) (maybeFinalizeStuckProposal fl ctx env current update pwc)
    (fun _ rs => rtc db_step db (rs_db rs) /\ decided_as (cur_no (pp_Position current)) (rs_db rs)) (reach db).
Proof.
  intros Hun Hinv Hrow Hge Hpos. unfold maybeFinalizeStuckProposal. destruct (IsRuleDecided _) eqn:Hdec.
  { apply triple_ret. intros rs ->. split; [apply rtc_refl|by eapply decided_row]. }
  eapply (triple_bind _ _ _ (fun _ => at_db db)); [apply triple_lift; [done|intros ? ? _; apply reach_at]|intros ?].
  eapply triple_bind; [apply reach_set_policy|intros ?].
  eapply triple_bind; [apply reach_hook|intros ?].
  eapply (triple_bind _ _ _ (fun _ => at_db db)).
  { apply triple_wrap. eapply triple_conseq; [apply (at_db_confirm db), Hun|done|done|apply reach_at]. }
  intros ?. eapply triple_bind; [apply triple_wrap, (steps_mark db); apply Hun|intros ?].
  apply triple_ret. intros rs [? Hd]. split; [done|].
  unfold cur_no, PossiblyUndecidedRule. by rewrite Hdec.
Qed.

Definition written (no : rule_no) (db : RuleDb) (pos : PoolerPosition) (rs : ruleStore) : Prop :=
  rtc db_step db (rs_db rs) /\ decided_as no (rs_db rs) /\ cur_no (pp_Position pos) = no.

Lemma steps_write db fl ctx env update promoted t params :
  undisturbed_update env -> decided_as (p_cas params) db -> no_lt (p_cas params) (p_new params) ->
  triple (at_db db) (write_rule fl ctx env update promoted t params) (written (p_new params) db) (reach db).
Proof.
  intros Hun Hd Hlt. eapply (triple_bind _ _ _ (fun _ => at_db db)).
  { destruct (is_set _); [|apply reach_set_policy]. eapply triple_bind; [apply reach_set_policy|intros ?].
    destruct promoted; [by apply triple_ret|apply reach_hook]. }
  intros ?. eapply triple_bind; [apply (steps_propose db); [apply Hun|done|done]|intros ppos].
  eapply (triple_bind _ _ _ (written (p_new params) db)).
  { intros rs Hr. pose proof (steps_mark (rs_db rs) (ue_refresh env) (ue_decide env) (newTerm params) (newSubterm params)
      (coordinatorIDStr params) (u_createdAt update) (newQuorumProof (pp_Lsn ppos) (ue_propose_at env))
      (un_refresh _ Hun) (un_decide _ Hun) rs eq_refl) as Hm.
    destruct (markProposalAsDecision _ _ _ _ _ _ _ rs) as [rs' [pos|e]] eqn:Hmk; [|by etrans].
    destruct Hm. apply markProposalAsDecision_Ok in Hmk as [Hdec Hn]. split_and!; [by etrans|done|].
    unfold cur_no, PossiblyUndecidedRule. rewrite Hdec. cbn [negb]. by rewrite Hn. }
  intros pos. eapply (triple_bind _ _ _ (fun _ => written (p_new params) db pos)).
  { apply triple_wrap. intros rs (H1 & H2 & H3).
    pose proof (at_db_set_policy (rs_db rs) fl ctx (ue_final_guc env) (Incoming t) rs eq_refl) as Hp.
    destruct (set_policy _ _ _ _ rs) as [rs' []]; unfold written; by rewrite Hp. }
  intros ?. by apply triple_ret.
Qed.

(** The rule the tables hold is not at the last subterm. *)
Definition subterm_room (db : RuleDb) : Prop :=
  forall row lsn pos, db_row db = Some row -> row_position row lsn = Ok pos ->
    int64_min <= (cur_no (pp_Position pos)).2 < int64_max.

Lemma created_decision policy id now db db' :
  CreateRuleTables policy id now = Ok db -> rtc db_step db db' ->
  rule_db_inv db' /\ exists row, db_row db' = Some row /\ no_le (0, 1) (decision_no row).
Proof.
  intros Hc Hs. pose proof (CreateRuleTables_inv _ _ _ _ Hc) as Hinv0. split; [by eapply rule_db_inv_steps|].
  destruct (advances_steps _ _ Hs Hinv0) as [(r0 & row & Hr0 & Hrow & Hge) _]. exists row. split; [done|].
  unfold CreateRuleTables in Hc. destruct policy; [|done]. destruct (_ || _); [done|]. destruct (bool_decide _); [done|].
  injection Hc as <-. injection Hr0 as <-. exact Hge.
Qed.

End refinement.

(** C5: Every outcome of an update, a lost answer at any statement included, is a
    sequence of the propose, confirm and decide statements of [db_step]:
    undisturbed by other sessions, tables that only such statements have written
    stay so, and after a successful update the row is decided as the position
    returned says. *)
Theorem update_rule_refines_statements `{Runtime} `{SqlClock} policy id now db0 fl ctx env update rs rs' r :
  CreateRuleTables policy id now = Ok db0 -> rtc db_step db0 (rs_db rs) -> subterm_room (rs_db rs) ->
  undisturbed_update env -> UpdateRule fl ctx env update rs = (rs', r) ->
  rtc db_step (rs_db rs) (rs_db rs') /\
  forall pos, r = Ok (Some pos) -> decided_as (cur_no (pp_Position pos)) (rs_db rs').
Proof.
  intros Hc Hs Hroom Hun Hr. destruct (created_decision _ _ _ _ _ Hc Hs) as (Hinv & row & Hrow & Hge).
  set (db := rs_db rs) in *.
  assert (triple (fun rs => rs_db rs = db) (UpdateRule fl ctx env update)
    (fun o rs => rtc db_step db (rs_db rs) /\ forall pos, o = Some pos -> decided_as (cur_no (pp_Position pos)) (rs_db rs))
    (fun rs => rtc db_step db (rs_db rs))) as Ht.
  { pose proof (reach_at db) as Hat. unfold UpdateRule.
    destruct (AssertActionLockHeld _ _); [apply triple_lift; [done|intros ? ? _; apply Hat]|].
    destruct (force update); [apply triple_ret; intros ? ?; split; [by apply Hat|done]|].
    destruct (bool_decide _); [apply triple_lift; [done|intros ? ? _; apply Hat]|].
    destruct (_ =? _); [apply triple_lift; [done|intros ? ? _; apply Hat]|].
    eapply triple_bind; [eapply triple_conseq; [apply (at_db_read db), Hun|done|intros ? ? Hq; exact Hq|exact Hat]|].
    intros current rs1 [Hat1 (row' & Hrow' & Hpos)]. assert (row' = row) as -> by congruence. revert rs1 Hat1.
    eapply (triple_bind _ _ _ (fun plan rs1 => rs_db rs1 = db /\ plan_update (pp_Position current) update = Ok plan));
      [apply triple_lift; [done|intros ? ? _; apply Hat]|].
    intros plan rs1 [Hat1 Hplan]. revert rs1 Hat1. apply plan_update_Ok in Hplan as (Hcas & _ & Hlt & _).
    destruct (Hroom _ _ _ Hrow Hpos). specialize (Hlt ltac:(lia) ltac:(lia)). rewrite <-Hcas in Hlt.
    eapply triple_bind; [by apply (steps_finalize db row (wal_lsn (ue_read env)))|]. intros [p0 promoted] rs1 [Hre Hdec].
    rewrite <-Hcas in Hdec. revert rs1 Hre Hdec.
    enough (forall db1, rtc db_step db db1 -> decided_as (up_cas plan) db1 -> triple (fun rs => rs_db rs = db1)
      (t ← lift (update_transition (PossiblyUndecidedRule (pp_Position current)) update (up_incoming plan));
       params ← lift (proposal_params update plan);
       pos ← write_rule fl ctx env update promoted t params; mret (Some pos))
      (fun o rs => rtc db_step db (rs_db rs) /\ forall pos, o = Some pos -> decided_as (cur_no (pp_Position pos)) (rs_db rs))
      (fun rs => rtc db_step db (rs_db rs))) as Hw by (intros rs1 Hre Hdec; by apply (Hw (rs_db rs1))).
    intros db1 Hre Hdec.
    eapply (triple_bind _ _ _ (fun _ rs => rs_db rs = db1)); [apply triple_lift; [done|by intros ? ? _ ->]|intros t].
    eapply (triple_bind _ _ _ (fun params rs => rs_db rs = db1 /\ p_cas params = up_cas plan /\ p_new params = up_new plan)).
    { apply triple_lift; [|by intros ? ? _ ->]. intros params rs1 Hp ->. by apply proposal_params_Ok in Hp. }
    intros params rs1 (Hat1 & Hpc & Hpn). revert rs1 Hat1. rewrite <-Hpc in Hdec, Hlt. rewrite <-Hpn in Hlt.
    eapply triple_bind; [eapply triple_conseq; [by apply (steps_write db1)|done|intros ? ? Hq; exact Hq|]|].
    { intros rs1 Hr1. by etrans. }
    intros pos. apply triple_ret. intros rs1 (Hw1 & Hw2 & Hw3). split; [by etrans|].
    intros ? [= <-]. by rewrite Hw3. }
  specialize (Ht rs eq_refl). rewrite Hr in Ht. destruct r as [o|]; [|done]. destruct Ht as [Ha Hb].
  split; [done|]. intros pos [= ->]. by apply Hb.
Qed.

(** ** The rule that gets written *)

(** What an ID reads back as: the tables keep the cell and the name. *)
Definition as_pooler (id : option ID) : option ID :=
  match id with Some i => Some (mkID MULTIPOOLER (Cell i) (Name i)) | None => None end.

Lemma NewReplicaID_reads_back id rid :
  NewReplicaID id = (rid, None) -> ParseApplicationName (appName rid) = Ok (as_pooler id) /\ appName rid <> ""%string.
Proof.
  intros (i & -> & -> & Hc & Hn & Hu & _)%NewReplicaID_None. cbn [appName as_pooler]. split.
  - exact (ParseApplicationName_key (mkID MULTIPOOLER (Cell i) (Name i)) eq_refl Hc Hn Hu).
  - by rewrite ClusterIDString_nonempty.
Qed.

Lemma ToReplicaIDs_reads_back ids pids :
  ToReplicaIDs ids = (pids, None) -> appNamesToIDs (ReplicaIDsToAppNames pids) = Ok (map as_pooler ids).
Proof.
  revert pids. induction ids as [|id ids IH]; intros pids H; cbn in H; [by injection H as <-|].
  destruct (NewReplicaID id) as [rid e] eqn:Hid, (ToReplicaIDs ids) as [rest e'] eqn:Hrest.
  destruct e; [done|]. injection H as <- ->. apply NewReplicaID_reads_back in Hid as [Hp _].
  cbn. rewrite Hp. cbn. specialize (IH rest eq_refl). unfold ReplicaIDsToAppNames in IH. by rewrite IH.
Qed.

Lemma QuorumType_named dp policy :
  NewPolicyFromProto (Some dp) = Ok policy -> QuorumType_value (QuorumType_String (dp_QuorumType dp)) = Some (dp_QuorumType dp).
Proof. cbn. by destruct (dp_QuorumType dp). Qed.

Section content.
  Context `{R : Runtime} `{C : SqlClock}.

(** Rule [rule] is what [plan] settled, as the tables keep it. *)
Record carries (plan : update_plan) (rule : option ShardRule) : Prop := {
  carries_leader : GetLeaderId rule = as_pooler (up_leader plan);
  carries_cohort : GetCohortMembers rule = map as_pooler (up_cohort plan);
  carries_policy : exists dp, up_policy plan = Some dp /\
    GetDurabilityPolicy rule =
      Some (mkDurabilityPolicyMsg (PolicyName dp) 0 (dp_QuorumType dp) (RequiredCount dp) ""%string)
}.

Lemma first_error_Ok {A} msg (r : A * option gerror) a : first_error msg r = Ok a -> r = (a, None).
Proof. destruct r as [? []]; by intros [= ->]. Qed.

Definition same_content (a b : ShardRule) : Prop :=
  LeaderId a = LeaderId b /\ CohortMembers a = CohortMembers b /\ sr_DurabilityPolicy a = sr_DurabilityPolicy b.

Lemma carries_same plan a b : same_content a b -> carries plan (Some b) -> carries plan (Some a).
Proof. intros (Hl & Hc & Hd) []. constructor; cbn in *; [by rewrite Hl|by rewrite Hc|by rewrite Hd]. Qed.

Lemma buildPoolerPosition_decision d c p lsn pos :
  buildPoolerPosition d c p lsn = Ok pos ->
  exists rule rule', validate d = Ok (Some rule) /\ GetDecision (pp_Position pos) = Some rule' /\ same_content rule' rule.
Proof.
  unfold buildPoolerPosition. intros H. inv_ok. destruct a as [rule|]; [|done]. inv_ok. exists rule. eexists.
  split_and!; [done..|]. destruct (String.eqb c ""); inv_ok; [done|].
  repeat match goal with x : (_ * _)%type |- _ => destruct x end. by inv_ok.
Qed.

Lemma validate_set t s l c n q k a rule :
  validate (mkUnvalidatedRuleRow (Some t) (Some s) l (Some c) (Some n) (Some q) (Some k) a) = Ok (Some rule) ->
  exists rule0, buildShardRule t s l c n q k = Ok rule0 /\ same_content rule rule0.
Proof.
  unfold validate. cbn -[buildShardRule Z.eqb Z.add]. change (_ =? 0) with false. cbn iota. intros H. inv_ok.
  eexists. split; [done|]. by destruct a as [z|]; cbn; [destruct (z =? _)|].
Qed.

Lemma leader_reads_back (l : option ID) str msg msg' :
  match l with
  | None => Ok ""%string
  | Some _ => pid ← first_error msg (NewReplicaID l); Ok (appName pid)
  end = Ok str ->
  match nullif_empty str with
  | None => Ok None
  | Some s => wrap_result msg' (ParseApplicationName s)
  end = Ok (as_pooler l).
Proof.
  destruct l as [i|]; intros H; inv_ok; [|done].
  match goal with H : first_error _ _ = Ok _ |- _ => apply first_error_Ok, NewReplicaID_reads_back in H as [Hpa Hne] end.
  apply String.eqb_neq in Hne. unfold nullif_empty. by rewrite Hne, Hpa.
Qed.

Lemma carries_written update plan p d c lsn pos a policy :
  proposal_params update plan = Ok p -> NewPolicyFromProto (up_policy plan) = Ok policy ->
  wrap32 (dpRequiredCount p) = dpRequiredCount p -> decide_cols (proposal_of p) a = Some d ->
  buildPoolerPosition (scan_decision d) c null_row lsn = Ok pos -> carries plan (GetDecision (pp_Position pos)).
Proof.
  intros Hp Hpol Hw Hd Hb. unfold proposal_params in Hp. inv_ok.
  match goal with H : match up_leader plan with _ => _ end = Ok _ |- _ => rename H into Hl end.
  match goal with H : first_error _ (ToReplicaIDs (up_cohort plan)) = _ |- _ =>
    apply first_error_Ok, ToReplicaIDs_reads_back in H as Hcoh end.
  destruct (up_policy plan) as [dp|] eqn:Hdp; [|done]. inv_ok. injection Hd as <-.
  apply buildPoolerPosition_decision in Hb as (rule & rule' & Hv & -> & Hsame).
  apply validate_set in Hv as (rule0 & Hs & Hsame0). cbn [leader_id cohort_members] in *.
  apply (carries_same _ _ _ Hsame), (carries_same _ _ _ Hsame0).
  unfold buildShardRule in Hs. cbn in Hw.
  cbn -[wrap32 ParseApplicationName nullif_empty appNamesToIDs QuorumType_value QuorumType_String] in Hs. rewrite Hw, (QuorumType_named _ _ Hpol), Hcoh in Hs.
  apply (leader_reads_back _ _ _ "failed to parse leader_id") in Hl. rewrite Hl in Hs. cbn in Hs. inv_ok. constructor; [done|done|by exists dp].
Qed.

Lemma cache_db pos rs : rs_db (fst (cacheRuleObservation pos rs)) = rs_db rs.
Proof. unfold cacheRuleObservation, modify. cbn. by destruct (_ && _). Qed.

Lemma mark_decides re e t s c a proof rs rs' pos :
  undisturbed (re_sql re) -> undisturbed e -> markProposalAsDecision re e t s c a proof rs = (rs', Ok pos) ->
  exists row d, db_row (rs_db rs) = Some row /\ decide_cols (proposal_cols row) a = Some d /\
    buildPoolerPosition (scan_decision d) c null_row (wal_lsn e) = Ok pos.
Proof.
  intros Hre He H. unfold markProposalAsDecision in H. apply bind_Ok in H as (rs1 & pr & Hf & H).
  pose proof (at_db_freshen (rs_db rs) re proof t s Hre rs eq_refl) as Hdb. rewrite Hf in Hdb. inv_m.
  match goal with H : match ?o with Some _ => _ | None => _ end _ = _ |- _ => destruct o as [row|]; [|by inv_m] end.
  match goal with H : run_sql _ _ _ = _ |- _ => apply run_sql_Ok in H as (db & Hs & ->) end. rewrite He in Hs.
  assert (forall r (b : bool) ev, rs_db (logged (match pr with
    | Some p => if b then logged r (EvAcked (proof_lsn p) (proof_startedAt p)) else r | None => r end) ev) = rs_db r) as Hlog
    by (intros r b ev; destruct pr; [by destruct b|done]).
  rewrite Hlog, Hdb in Hs. unfold sql_decide in Hs. destruct (db_row (rs_db rs)) as [r0|]; [|done].
  destruct (proposal_is r0 t s); [|done]. destruct (decide_cols (proposal_cols r0) a) as [d|] eqn:Hd; [|done].
  destruct (db_history _ !! _); [|done]. injection Hs as <- <-. exists r0, d. split_and!; [done..|].
  inv_m. inv_ok. done.
Qed.

Lemma propose_leaves e p rs rs' pos :
  writeRuleProposal e p rs = (rs', Ok pos) ->
  exists row, db_row (rs_db rs') = Some row /\ proposal_cols row = proposal_of p /\
    wrap32 (dpRequiredCount p) = dpRequiredCount p.
Proof.
  unfold writeRuleProposal. intros H. inv_m.
  match goal with H : match ?o with Some _ => _ | None => _ end _ = _ |- _ => destruct o as [row|]; [|by inv_m] end.
  match goal with H : run_sql _ _ _ = _ |- _ => apply run_sql_Ok in H as (db & Hs & ->) end. inv_m.
  match goal with H : cacheRuleObservation ?q ?r = _ |- _ => pose proof (cache_db q r) as Hc; rewrite H in Hc end.
  cbn in Hc. rewrite Hc. unfold sql_propose in Hs. destruct (db_row _); [|done]. destruct (_ && _); [|done].
  destruct (negb _) eqn:Hw; [done|]. destruct (db_history _ !! _); [done|]. injection Hs as <- <-. reflect_bools.
  eexists. by split_and!.
Qed.

(** What the caller asked for, with the current rule's values for what it left out. *)
Lemma resolve_Ok `{!RuntimeLaws R} cur update promo l c dp pwc :
  resolveNewRuleValues cur update promo = Ok (l, c, dp, pwc) ->
  l = match u_leaderID update with Some _ => u_leaderID update | None => GetLeaderId cur end /\
  c = default (GetCohortMembers cur) (u_cohortMembers update) /\
  dp = match u_durabilityPolicy update with Some _ => u_durabilityPolicy update | None => GetDurabilityPolicy cur end /\
  (promo = false -> GetLeaderId cur <> None -> l = GetLeaderId cur) /\
  exists policy, NewPolicyFromProto dp = Ok policy /\ (c <> [] -> SatisfiedBy policy c = None).
Proof.
  unfold resolveNewRuleValues. intros H. inv_ok.
  match goal with H : match u_leaderID update with _ => _ end = Ok _ |- _ => rename H into Hl end.
  match goal with H : match u_durabilityPolicy update with _ => _ end = Ok _ |- _ => rename H into Hd end.
  match goal with H : NewPolicyWithCohort _ _ = Ok _ |- _ => unfold NewPolicyWithCohort in H end. inv_ok. simplify_eq.
  split_and!; [| done| | |].
  - destruct (u_leaderID update); [destruct (_ && _)|]; by inv_ok.
  - destruct (u_durabilityPolicy update); [destruct (_ || _)|]; by inv_ok.
  - intros -> Hcur. destruct (u_leaderID update) as [i|]; [|by inv_ok]. rewrite bool_decide_eq_true_2 in Hl by done.
    cbn [negb andb] in Hl. destruct (proto_equal _ _) eqn:Hpe; [|done]. apply proto_equal_spec in Hpe.
    cbn [negb] in Hl. inv_ok. congruence.
  - eexists. split; [done|]. intros Hne. destruct (0 <? len _) eqn:Hlen; [|].
    + match goal with H : (Ok _ ≫= _) = Ok _ |- _ => cbn -[SatisfiedBy] in H end. by destruct (SatisfiedBy _ _).
    + reflect_bools. unfold len in Hlen. by destruct (default _ _).
Qed.

End content.

(** A successful update writes what was asked.  Undisturbed between its
    statements, the decision it returns has the requested leader, cohort and
    durability policy, the current rule's values standing in for those left out;
    outside a promotion an established leader is kept; and a non-empty cohort can
    satisfy the policy it is given. *)
Theorem update_rule_writes_request `{R : Runtime} `{!RuntimeLaws R} `{SqlClock} fl ctx env update rs rs' pos :
  undisturbed (re_sql (ue_refresh env)) -> undisturbed (ue_decide env) ->
  UpdateRule fl ctx env update rs = (rs', Ok (Some pos)) ->
  exists rs1 current plan policy, readCurrentRule (ue_read env) rs = (rs1, Ok current) /\
    let cur := PossiblyUndecidedRule (pp_Position current) in
    up_leader plan = match u_leaderID update with Some _ => u_leaderID update | None => GetLeaderId cur end /\
    up_cohort plan = default (GetCohortMembers cur) (u_cohortMembers update) /\
    up_policy plan =
      match u_durabilityPolicy update with Some _ => u_durabilityPolicy update | None => GetDurabilityPolicy cur end /\
    carries plan (GetDecision (pp_Position pos)) /\
    (promotionHook update = None -> GetLeaderId cur <> None -> up_leader plan = GetLeaderId cur) /\
    NewPolicyFromProto (up_policy plan) = Ok policy /\
    (up_cohort plan <> [] -> SatisfiedBy policy (up_cohort plan) = None).
Proof.
  intros Hu1 Hu2 (rs1 & current & plan & rs2 & promoted & t & params & p0 & Hr & Hp & _ & _ & Hpar & Hw)%UpdateRule_Ok.
  apply plan_update_Ok in Hp as (_ & _ & _ & _ & _ & l & c & dp & Hres & Hl & Hc & Hdp).
  apply resolve_Ok in Hres as (El & Ec & Ed & Hkeep & policy & Hpol & Hsat). rewrite <-Hl in El, Hkeep.
  rewrite <-Hc in Ec, Hsat. rewrite <-Hdp in Ed, Hpol.
  exists rs1, current, plan, policy. split; [done|]. cbn zeta.
  do 3 (split; [done|]). split; [|split; [|by split]].
  - unfold write_rule in Hw. inv_m.
    match goal with H : markProposalAsDecision _ _ _ _ _ _ _ _ = _ |- _ =>
      apply mark_decides in H as (row & d & Hrow & Hd & Hb); [|done|done] end.
    match goal with H : writeRuleProposal _ _ _ = _ |- _ => apply propose_leaves in H as (row' & Hrow' & Hprop & Hw32) end.
    assert (row' = row) as -> by congruence. rewrite Hprop in Hd. by eapply carries_written.
  - intros Hh. apply Hkeep. by rewrite Hh.
Qed.

Lemma transition_Policy o i t :
  BuildPolicyTransition o i = Ok t -> is_Some (Policy o) -> is_Some (Policy i) -> is_Some (Policy (Both t)).
Proof.
  unfold BuildPolicyTransition. destruct (policyFamily (Policy o)), (policyFamily (Policy i)).
  intros H ? ?. split_ifs; by inv_ok.
Qed.

Lemma expected_Policy position policy :
  expectedSyncStandbyPolicy position = Ok policy -> is_Some (Policy policy).
Proof.
  unfold expectedSyncStandbyPolicy. destruct (bool_decide _); [done|]. unfold NewPolicyWithCohort. intros H. inv_ok.
  destruct (IsRuleDecided position); inv_ok; [by eexists|]. destruct (bool_decide _); [done|]. inv_ok.
  eapply transition_Policy; [done|by eexists..].
Qed.

(** Reconciling restores the settings the tables ask for: a successful
    [ReconcileGUC] leaves in force the policy of the decided rule, or, while a
    proposal is pending, the one satisfying both rules. *)
Theorem reconcile_restores_policy `{Runtime} `{SqlClock} fl ctx read guc rs rs' :
  cache_valid (syncStandby rs) (rs_conf rs) -> ReconcileGUC fl ctx read guc rs = (rs', Ok tt) ->
  exists rs1 pos policy, readCurrentRule read rs = (rs1, Ok pos) /\
    expectedSyncStandbyPolicy (pp_Position pos) = Ok policy /\ wanted (syncStandby rs) policy (rs_conf rs').
Proof.
  intros Hv. unfold ReconcileGUC. destruct (AssertActionLockHeld _ _); [done|]. intros Hr. inv_m. inv_ok.
  match goal with H : readCurrentRule _ _ = (?r, Ok ?p) |- _ => rename H into Hread; exists r, p end.
  match goal with H : expectedSyncStandbyPolicy _ = Ok ?p |- _ => rename H into Hpol; exists p end.
  split_and!; [done..|].
  assert (is_Some (Policy a0)) as Hsome.
  { by eapply expected_Policy. }
  rewrite bool_decide_eq_true_2 in Hr by done.
  set (id := localID (syncStandby rs)).
  pose proof (keeps_read _ (stable_under id (fun _ => True) (fun _ => True) ltac:(done)) read rs ltac:(done)) as Hk.
  rewrite Hread in Hk. pose proof (under_set_policy id _ (fun _ => True) fl ctx guc a0 ltac:(done) _ Hk) as Hw.
  rewrite Hr in Hw. by eapply wanted_localID, Hw.
Qed.

(** ** Concrete runs *)

Definition demo_sql (lsn : string) : sql_env := mkSqlEnv (fun db => db) ExecOk lsn.
Definition demo_guc : guc_env := mkGucEnv ExecOk ExecOk ExecOk.
Definition demo_env (propose : sql_env) : UpdateEnv :=
  mkUpdateEnv (demo_sql "0/10") demo_guc (demo_sql "0/20") 0 (mkRefreshEnv 1 (demo_sql "0/28")) (demo_sql "0/30")
    demo_guc 0 propose (mkRefreshEnv 1 (demo_sql "0/48")) (demo_sql "0/50") demo_guc.

Definition demo_store (db : RuleDb) (pos : option PoolerPosition) : ruleStore :=
  mkRuleStore (NewSyncStandbyManager p1) (mkPgConf "on" "" "on" "") db pos true defaultProofRefreshAfter [].

(** The first promotion of a new shard. *)
Definition demo_update (term : Z) : RuleUpdateBuilder :=
  WithSkipOutgoingQuorum (WithPromotionHook (WithCohort (WithLeader
    (NewRuleUpdate term orch1 "promotion" "bootstrap" 5000000000) p1) (Some [p1; p2; p3])) (Some None)).

Definition demo_cached : PoolerPosition := mkPoolerPosition (decided (demo_rule 0 None [] (at_least 2))) "0/8".

Definition demo_run : ruleStore * result (option PoolerPosition) :=
  UpdateRule [false] demo_lock (demo_env (demo_sql "0/40")) (demo_update 1) (demo_store demo_tables (Some demo_cached)).
Definition demo_pos : PoolerPosition :=
  match snd demo_run with Ok (Some pos) => pos | _ => mkPoolerPosition None "" end.

Lemma demo_run_eq : UpdateRule [false] demo_lock (demo_env (demo_sql "0/40")) (demo_update 1)
  (demo_store demo_tables (Some demo_cached)) = (fst demo_run, Ok (Some demo_pos)).
Proof. vm_compute. reflexivity. Qed.

Lemma update_rule_advances_witness :
  exists rs1 current, readCurrentRule (demo_sql "0/10") (demo_store demo_tables (Some demo_cached)) = (rs1, Ok current) /\
    CompareRuleNumbers (GetRuleNumber (PossiblyUndecidedRule (pp_Position current)))
      (GetRuleNumber (GetDecision (pp_Position demo_pos))) < 0.
Proof.
  destruct (update_rule_advances _ _ _ _ _ _ _ demo_run_eq) as (rs1 & current & Hr & _ & _ & Hlt & _).
  exists rs1, current. split; [exact Hr|]. apply Hlt.
  vm_compute in Hr. injection Hr as _ Hc. rewrite <-Hc. split; vm_compute; [discriminate|reflexivity].
Defined.

Lemma update_rule_guc_order_witness :
  exists plan t, wrote_once (up_new plan) 1 (wanted (NewSyncStandbyManager p1) (Both t)) (rs_log (fst demo_run)).
Proof.
  destruct (update_rule_guc_order _ _ _ _ (demo_store demo_tables (Some demo_cached)) _ _
    demo_cache_valid eq_refl demo_run_eq) as [[_ Hn]|(rs1 & current & plan & t & _ & _ & _ & Hw & _)].
  - destruct (Hn demo_pos eq_refl).
  - exists plan, t. exact Hw.
Defined.

Lemma cached_position_only_advances_witness : cached_above demo_cached (fst demo_run) /\ cached_above demo_pos (fst demo_run).
Proof.
  destruct (cached_position_only_advances _ _ _ _ (demo_store demo_tables (Some demo_cached)) _ _ demo_cached eq_refl demo_run_eq) as [Ha Hb].
  exact (conj Ha (Hb demo_pos eq_refl)).
Defined.

Lemma demo_undisturbed : undisturbed_update (demo_env (demo_sql "0/40")).
Proof. by constructor. Qed.

Lemma demo_room : subterm_room demo_tables.
Proof.
  intros row lsn pos [= <-] (rule & prop & -> & Hn & Hv)%row_position_Ok. injection Hv as <-.
  unfold cur_no, PossiblyUndecidedRule. change (IsRuleDecided _) with true. cbn -[Z.lt Z.le]. rewrite Hn. unfold int64_min, int64_max. cbn. lia.
Qed.

Lemma update_rule_refines_statements_witness :
  rtc db_step demo_tables (rs_db (fst demo_run)) /\ decided_as (cur_no (pp_Position demo_pos)) (rs_db (fst demo_run)).
Proof.
  destruct (update_rule_refines_statements _ _ _ _ _ _ _ _ (demo_store demo_tables (Some demo_cached)) _ _
    demo_tables_created (rtc_refl db_step demo_tables) demo_room
    demo_undisturbed demo_run_eq) as [Ha Hb].
  exact (conj Ha (Hb demo_pos eq_refl)).
Defined.

Lemma update_rule_writes_request_witness :
  exists plan, carries plan (GetDecision (pp_Position demo_pos)) /\ up_cohort plan = [p1; p2; p3].
Proof.
  destruct (update_rule_writes_request [false] demo_lock (demo_env (demo_sql "0/40")) (demo_update 1)
    (demo_store demo_tables (Some demo_cached)) _ demo_pos ltac:(done) ltac:(done) demo_run_eq)
    as (rs1 & current & plan & policy & _ & _ & Hc & _ & Hcar & _).
  exists plan. split; [exact Hcar|exact Hc].
Defined.

Definition demo_reconcile : ruleStore * result unit :=
  ReconcileGUC [false] demo_lock (demo_sql "0/60") demo_guc
    (with_guc (fst demo_run) (NewSyncStandbyManager p1) (mkPgConf "on" "" "on" "")).

Lemma demo_reconcile_eq : ReconcileGUC [false] demo_lock (demo_sql "0/60") demo_guc
    (with_guc (fst demo_run) (NewSyncStandbyManager p1) (mkPgConf "on" "" "on" "")) = (fst demo_reconcile, Ok tt).
Proof. vm_compute. reflexivity. Qed.

Lemma reconcile_restores_policy_witness :
  exists policy, wanted (NewSyncStandbyManager p1) policy (rs_conf (fst demo_reconcile)).
Proof.
  destruct (reconcile_restores_policy [false] demo_lock (demo_sql "0/60") demo_guc
    (with_guc (fst demo_run) (NewSyncStandbyManager p1) (mkPgConf "on" "" "on" "")) _ demo_cache_valid demo_reconcile_eq)
    as (rs1 & pos & policy & _ & _ & Hw). exists policy. exact Hw.
Defined.

(** Deciding a stuck proposal loses its coordinator.  An update that finds a
    proposal pending, finishes deciding it and then fails to write its own
    leaves a decision whose coordinator_id is empty, although the proposal's
    history row names one. *)
Theorem stuck_decision_loses_coordinator :
  let '(rs', r) := UpdateRule [false] demo_lock (demo_env (mkSqlEnv (fun db => db) (ExecErr false) "0/40"))
                     (demo_update 2) (demo_store demo_proposed None) in
  r = Err ["failed to write rule proposal"; "query"]%string /\
  option_map coordinator_id (db_row (rs_db rs')) = Some ""%string /\
  option_map decision_no (db_row (rs_db rs')) = Some (1, 0) /\
  option_map h_coordinator_id (db_history (rs_db rs') !! (1, 0)) = Some "zone1_orch"%string /\
  option_map h_decided (db_history (rs_db rs') !! (1, 0)) = Some true.
Proof. vm_compute. split_and!; reflexivity. Qed.
