(* ===== verification/Health.v ===== *)
(** The health an orchestrator keeps of every pooler: the messages of
    proto/multiorchdata.proto and proto/multipoolermanagerdata.proto it reads,
    go/services/multiorch/recovery/types/pooler_signals.go and
    go/services/multiorch/internal/snapshot/health.go. *)

From stdpp Require Import base strings list gmap.
From S2P Require Import Prelude ClusterMetadata Compare Revocation.

Local Open Scope Z_scope.

(** ** Messages

    Only the fields the modelled code reads are kept. *)

Inductive LeadershipSignal :=
| LEADERSHIP_SIGNAL_UNKNOWN
| LEADERSHIP_SIGNAL_ACTIVE
| LEADERSHIP_SIGNAL_REQUESTING_DEMOTION
| LEADERSHIP_SIGNAL_UNNAMED (wire : Z).

Inductive CohortEligibilitySignal :=
| COHORT_SIGNAL_UNKNOWN
| COHORT_SIGNAL_ELIGIBLE
| COHORT_SIGNAL_INELIGIBLE
| COHORT_SIGNAL_UNNAMED (wire : Z).

Inductive PostgresStatus :=
| POSTGRES_STATUS_UNKNOWN
| POSTGRES_STATUS_STARTING
| POSTGRES_STATUS_STANDBY
| POSTGRES_STATUS_PROMOTING
| POSTGRES_STATUS_PRIMARY
| POSTGRES_STATUS_UNNAMED (wire : Z).

#[export] Instance LeadershipSignal_eq_dec : EqDecision LeadershipSignal.
Proof. solve_decision. Defined.
#[export] Instance CohortEligibilitySignal_eq_dec : EqDecision CohortEligibilitySignal.
Proof. solve_decision. Defined.
#[export] Instance PostgresStatus_eq_dec : EqDecision PostgresStatus.
Proof. solve_decision. Defined.

Record LeadershipStatus := mkLeadershipStatus { ls_LeaderTerm : Z; ls_Signal : LeadershipSignal }.

Record CohortEligibilityStatus := mkCohortEligibilityStatus { ces_Signal : CohortEligibilitySignal }.

Record AvailabilityStatus := mkAvailabilityStatus {
  av_LeadershipStatus : option LeadershipStatus;
  av_CohortEligibilityStatus : option CohortEligibilityStatus
}.

Record PrimaryConnInfo := mkPrimaryConnInfo {
  ci_Host : string;
  ci_Port : Z;
  ci_User : string;
  ci_ApplicationName : string
}.

Record StandbyReplicationStatus := mkStandbyReplicationStatus {
  LastReceiveLsn : string;
  IsWalReplayPaused : bool;
  PrimaryConnInfo_ : option PrimaryConnInfo;
  WalReceiverStatus : string;
  LastMsgReceiveTime : option Timestamp;
  WalReceiverStatusInterval : option Duration;
  WalReceiverTimeout : option Duration;
  LastReceiveLsnAdvanceTime : option Timestamp;
  rs_QuorumCommitTs : option Timestamp
}.

Record PrimaryStatus := mkPrimaryStatus { ps_QuorumCommitTs : option Timestamp }.

Record Status := mkStatus {
  st_PrimaryStatus : option PrimaryStatus;
  ReplicationStatus : option StandbyReplicationStatus;
  IsInitialized : bool;
  PostgresRunning : bool;
  PostgresStatus_ : PostgresStatus;
  PostgresReady : bool;
  FailoverSlotsReady : Z
}.

Record Multipooler := mkMultipooler {
  mp_Id : option ID;
  mp_Hostname : string;
  mp_PortMap : gmap string Z
}.

Record PoolerHealthState := mkPoolerHealthState {
  phs_Multipooler : option Multipooler;
  phs_LastSeen : option Timestamp;
  phs_ConsensusStatus : option ConsensusStatus;
  phs_LastPostgresReadyTime : option Timestamp;
  phs_AvailabilityStatus : option AvailabilityStatus;
  phs_Status : option Status
}.

Definition GetMultipooler : option PoolerHealthState -> option Multipooler := getp None phs_Multipooler.
Definition GetLastSeen : option PoolerHealthState -> option Timestamp := getp None phs_LastSeen.
Definition GetConsensusStatus : option PoolerHealthState -> option ConsensusStatus :=
  getp None phs_ConsensusStatus.
Definition GetLastPostgresReadyTime : option PoolerHealthState -> option Timestamp :=
  getp None phs_LastPostgresReadyTime.
Definition GetAvailabilityStatus : option PoolerHealthState -> option AvailabilityStatus :=
  getp None phs_AvailabilityStatus.
Definition GetStatus : option PoolerHealthState -> option Status := getp None phs_Status.

Definition mp_GetId : option Multipooler -> option ID := getp None mp_Id.
Definition GetHostname : option Multipooler -> string := getp "" mp_Hostname.
Definition GetPortMap : option Multipooler -> gmap string Z := getp ∅ mp_PortMap.

Definition GetLeadershipStatus : option AvailabilityStatus -> option LeadershipStatus :=
  getp None av_LeadershipStatus.
Definition GetCohortEligibilityStatus : option AvailabilityStatus -> option CohortEligibilityStatus :=
  getp None av_CohortEligibilityStatus.
Definition ls_GetSignal : option LeadershipStatus -> LeadershipSignal :=
  getp LEADERSHIP_SIGNAL_UNKNOWN ls_Signal.
Definition ces_GetSignal : option CohortEligibilityStatus -> CohortEligibilitySignal :=
  getp COHORT_SIGNAL_UNKNOWN ces_Signal.

Definition GetPrimaryStatus : option Status -> option PrimaryStatus := getp None st_PrimaryStatus.
Definition GetReplicationStatus : option Status -> option StandbyReplicationStatus :=
  getp None ReplicationStatus.
Definition GetIsInitialized : option Status -> bool := getp false IsInitialized.
Definition GetPostgresRunning : option Status -> bool := getp false PostgresRunning.
Definition GetPostgresStatus : option Status -> PostgresStatus :=
  getp POSTGRES_STATUS_UNKNOWN PostgresStatus_.
Definition GetPostgresReady : option Status -> bool := getp false PostgresReady.
Definition GetFailoverSlotsReady : option Status -> Z := getp 0 FailoverSlotsReady.

Definition ps_GetQuorumCommitTs : option PrimaryStatus -> option Timestamp := getp None ps_QuorumCommitTs.
Definition rs_GetQuorumCommitTs : option StandbyReplicationStatus -> option Timestamp :=
  getp None rs_QuorumCommitTs.
Definition GetPrimaryConnInfo : option StandbyReplicationStatus -> option PrimaryConnInfo :=
  getp None PrimaryConnInfo_.
Definition GetIsWalReplayPaused : option StandbyReplicationStatus -> bool := getp false IsWalReplayPaused.
Definition GetWalReceiverStatus : option StandbyReplicationStatus -> string := getp "" WalReceiverStatus.
Definition GetLastReceiveLsn : option StandbyReplicationStatus -> string := getp "" LastReceiveLsn.
Definition GetLastReceiveLsnAdvanceTime : option StandbyReplicationStatus -> option Timestamp :=
  getp None LastReceiveLsnAdvanceTime.
Definition ci_GetHost : option PrimaryConnInfo -> string := getp "" ci_Host.
Definition ci_GetPort : option PrimaryConnInfo -> Z := getp 0 ci_Port.

(** [Multipooler.GetPortMap()["postgres"]]: a missing key reads as zero. *)
Definition postgres_port (mp : option Multipooler) : Z := default 0 (GetPortMap mp !! "postgres").

Definition PoolerAddressFor (mp : option Multipooler) : option PoolerAddress :=
  match mp with
  | None => None
  | Some _ => Some (mkPoolerAddress (mp_GetId mp) (GetHostname mp) (postgres_port mp))
  end.

(** ** Signals *)

Definition PoolerIsCohortIneligible (av : option AvailabilityStatus) : bool :=
  bool_decide (ces_GetSignal (GetCohortEligibilityStatus av) = COHORT_SIGNAL_INELIGIBLE).

Definition LeaderNeedsReplacement (p : option PoolerHealthState) : bool :=
  let av := GetAvailabilityStatus p in
  if PoolerIsCohortIneligible av then true
  else match GetLeadershipStatus av with
  | None => false
  | Some leadershipStatus =>
      if negb (bool_decide (ls_Signal leadershipStatus = LEADERSHIP_SIGNAL_REQUESTING_DEMOTION))
      then false
      else
        let position := pp_GetPosition (GetCurrentPosition (GetConsensusStatus p)) in
        let primaryTerm := GetCoordinatorTerm (GetRuleNumber (PossiblyUndecidedRule position)) in
        negb (ls_LeaderTerm leadershipStatus =? 0) && (ls_LeaderTerm leadershipStatus =? primaryTerm)
  end.

(** ** Freshness *)

Section runtime.
  Context `{R : Runtime}.

Definition observationAge (h : option PoolerHealthState) (now : Z) : Z * bool :=
  match GetLastSeen h with
  | None => (0, false)
  | Some ls => (time_Sub now (AsTime (Some ls)), true)
  end.

Definition HealthWithin (h : option PoolerHealthState) (now maxAge : Z) : option PoolerHealthState * bool :=
  let '(age, ok) := observationAge h now in
  if negb ok || (maxAge <? age) then (None, false) else (h, true).

Definition LeaderWritesProgressing (leader : option PoolerHealthState) (intendedRule : option RulePosition)
    (now freshness : Z) : bool :=
  match leader with
  | None => false
  | Some _ =>
      let '(age, ok) := observationAge leader now in
      if negb ok || (freshness <? age) then false
      else if negb (bool_decide (GetPostgresStatus (GetStatus leader) = POSTGRES_STATUS_PRIMARY))
      then false
      else IsRuleDecided intendedRule
  end.

(** A fresh observation is the record itself, last seen no longer ago than the
    tolerance. *)
Lemma HealthWithin_true h now maxAge hs :
  HealthWithin h now maxAge = (hs, true) ->
  hs = h /\ exists ls, GetLastSeen h = Some ls /\ time_Sub now (AsTime (Some ls)) <= maxAge.
Proof.
  unfold HealthWithin, observationAge. destruct (GetLastSeen h) as [ls|]; [|done].
  cbn [negb orb]. destruct (_ <? _) eqn:E; [done|]. intros [=<-]. reflect_bools. eauto.
Qed.

End runtime.
