(* ===== verification/FailoverBackoff.v ===== *)
(** go/services/multiorch/consensus/failover_backoff.go: when an orchestrator may
    start a failover. *)

From stdpp Require Import base strings list.
From S2P Require Import Prelude ClusterMetadata Demo TopoId Ordering Compare Cohort Durability.
From S2P Require Import Revocation Backoff Health.

Local Open Scope Z_scope.

Fixpoint filterCohortIneligible (cohort : list (option PoolerHealthState))
    : list (option PoolerHealthState) * list string :=
  match cohort with
  | [] => ([], [])
  | p :: cohort' =>
      let '(eligible, ineligible) := filterCohortIneligible cohort' in
      if PoolerIsCohortIneligible (GetAvailabilityStatus p)
      then (eligible, GetName (mp_GetId (GetMultipooler p)) :: ineligible)
      else (p :: eligible, ineligible)
  end.

Definition consensusStatusesOf (poolers : list (option PoolerHealthState)) : list (option ConsensusStatus) :=
  filter (fun cs => cs <> None) (map GetConsensusStatus poolers).

Definition eligibleConsensusStatuses (cohort : list (option PoolerHealthState)) : list (option ConsensusStatus) :=
  consensusStatusesOf (fst (filterCohortIneligible cohort)).

(** A revocation that cannot be shown to target another decision. *)
Definition backoff_relevant (decision : option RuleNumber) (rev : option TermRevocation) : bool :=
  (0 <? GetRevokedBelowTerm rev) &&
  match GetReplaceDecision (GetRecruitIntent rev) with
  | None => true
  | Some d => CompareRuleNumbers (Some d) decision =? 0
  end.

Definition backoffRelevantRevocations (statuses : list (option ConsensusStatus)) (decision : option RuleNumber)
    : list (option TermRevocation) :=
  filter (fun rev => backoff_relevant decision rev = true) (map GetTermRevocation statuses).

Section runtime.
  Context `{R : Runtime}.

(** [now] is the clock; the zero time is [None]. *)
Definition NextFailoverAttempt (coordinatorID : option ID) (cohort : list (option PoolerHealthState))
    (schedule : BackoffSchedule) (now : Z) : option Z * bool :=
  let statuses := eligibleConsensusStatuses cohort in
  let decision := HighestDecidedRule statuses in
  match HighestRevokedBelowTermRevocation (backoffRelevantRevocations statuses decision) with
  | None => (None, true)
  | Some rev =>
      let readyAt := NextAttempt schedule (Some rev) coordinatorID in
      (Some readyAt, negb (now <? readyAt))
  end.

(** ** When a failover may start *)

Context `{!RuntimeLaws R}.

Lemma elem_of_eligible p cohort :
  p ∈ fst (filterCohortIneligible cohort) <->
  p ∈ cohort /\ PoolerIsCohortIneligible (GetAvailabilityStatus p) = false.
Proof.
  induction cohort as [|q cohort IH]; cbn; [split; [by intros ?%elem_of_nil|by intros [?%elem_of_nil _]]|].
  destruct (filterCohortIneligible cohort) as [e i]. cbn [fst] in IH.
  destruct (PoolerIsCohortIneligible (GetAvailabilityStatus q)) eqn:Hq; cbn [fst];
    rewrite ?elem_of_cons, IH; naive_solver congruence.
Qed.

Lemma elem_of_relevant rev statuses decision :
  rev ∈ backoffRelevantRevocations statuses decision <->
  backoff_relevant decision rev = true /\ exists cs, cs ∈ statuses /\ rev = GetTermRevocation cs.
Proof.
  unfold backoffRelevantRevocations. rewrite list_elem_of_filter. change (map GetTermRevocation statuses) with (GetTermRevocation <$> statuses). rewrite list_elem_of_fmap. naive_solver.
Qed.

Lemma relevant_some statuses decision : Forall is_Some (backoffRelevantRevocations statuses decision).
Proof.
  rewrite Forall_forall. intros rev [Hr _]%elem_of_relevant. destruct rev; [by eexists|done].
Qed.

(** A failover waits its turn.  When the orchestrator may act, then for every
    eligible cohort member that has accepted a revocation which is not shown to
    target another decision, some such revocation of at least that term has waited
    its whole exponential delay; and when it may not, some such revocation's
    moment is still ahead, so the wait ends. *)
Theorem failover_waits_its_turn coordinatorID cohort s now readyAt ready :
  0 <= Base s <= int64_max -> Max s <= int64_max -> (forall base, JitterWindow s base <= int64_max) ->
  NextFailoverAttempt coordinatorID cohort s now = (readyAt, ready) ->
  let statuses := eligibleConsensusStatuses cohort in
  let relevant := backoff_relevant (HighestDecidedRule statuses) in
  (ready = true -> forall cs, cs ∈ statuses -> relevant (GetTermRevocation cs) = true ->
     exists cs', cs' ∈ statuses /\ relevant (GetTermRevocation cs') = true /\
       GetRevokedBelowTerm (GetTermRevocation cs) <= GetRevokedBelowTerm (GetTermRevocation cs') /\
       AsTime (GetCoordinatorInitiatedAt (GetTermRevocation cs')) +
         backoff s (Z.max (GetAttempt (GetRecruitIntent (GetTermRevocation cs'))) 1) <= now) /\
  (ready = false -> exists cs' t, cs' ∈ statuses /\ relevant (GetTermRevocation cs') = true /\
     readyAt = Some t /\ now < t <= AsTime (GetCoordinatorInitiatedAt (GetTermRevocation cs')) + int64_max).
Proof.
  intros Hb Hm Hw Hn statuses relevant. unfold NextFailoverAttempt in Hn. fold statuses in Hn.
  set (revs := backoffRelevantRevocations statuses (HighestDecidedRule statuses)) in *.
  pose proof (relevant_some statuses (HighestDecidedRule statuses)) as Hs. fold revs in Hs.
  destruct (HighestRevokedBelowTermRevocation revs) as [b|] eqn:Hh; injection Hn as <- <-.
  - destruct (HighestRevoked_max _ _ Hs Hh) as [Hin Hmax].
    apply elem_of_relevant in Hin as (Hrel & cs' & Hcs' & Hb').
    pose proof (NextAttempt_bounds s (Some b) coordinatorID Hb Hm Hw) as (Hlo & Hhi & _).
    split; intros Hr; reflect_bools.
    + intros cs Hcs Hc. exists cs'. rewrite <-Hb'. split_and!; [done|done| |lia].
      apply Hmax, elem_of_relevant. by eauto.
    + eexists cs', _. rewrite <-Hb'. split_and!; [done|done|done|lia|lia].
  - split; [|done]. intros _ cs Hcs Hc. exfalso.
    destruct (HighestRevoked_is_Some revs (GetTermRevocation cs) Hs) as [? Hx]; [|congruence].
    apply elem_of_relevant. by eauto.
Qed.

End runtime.

Definition demo_multipooler (id : option ID) : option Multipooler :=
  Some (mkMultipooler id (GetName id) {["postgres" := 5432]}).

Definition demo_health (rev : option TermRevocation) (signal : CohortEligibilitySignal) (id : option ID)
    : option PoolerHealthState :=
  Some (mkPoolerHealthState (demo_multipooler id) (ts 1000)
    (demo_status id rev (decided (demo_rule 4 p1 [p1; p2] (at_least 2))) "0/10") None
    (Some (mkAvailabilityStatus None (Some (mkCohortEligibilityStatus signal)))) None).

Lemma failover_waits_its_turn_witness :
  let rev := Some (mkTermRevocation 5 orch1 (ts 1000) (rn 4 0) (Some (mkRecruitIntent (rn 4 0) 3))) in
  exists cs t, cs ∈ eligibleConsensusStatuses [demo_health rev COHORT_SIGNAL_ELIGIBLE p1; demo_health None COHORT_SIGNAL_INELIGIBLE p2] /\
    Some t = fst (NextFailoverAttempt orch2 [demo_health rev COHORT_SIGNAL_ELIGIBLE p1; demo_health None COHORT_SIGNAL_INELIGIBLE p2]
      (mkBackoffSchedule (10 * second) (5 * minute) (fun _ => 10 * second)) (1030 * second)) /\ 1030 * second < t.
Proof.
  intros rev.
  destruct (failover_waits_its_turn orch2 [demo_health rev COHORT_SIGNAL_ELIGIBLE p1; demo_health None COHORT_SIGNAL_INELIGIBLE p2]
    (mkBackoffSchedule (10 * second) (5 * minute) (fun _ => 10 * second)) (1030 * second) _ _
    ltac:(vm_compute; split; discriminate) ltac:(vm_compute; discriminate)
    ltac:(intros; vm_compute; discriminate) (surjective_pairing _)) as [_ Hf].
  destruct Hf as (cs & t & Hcs & _ & Ht & Hlt & _); [vm_compute; reflexivity|].
  exists cs, t. rewrite Ht. exact (conj Hcs (conj eq_refl Hlt)).
Defined.
