(* ===== verification/LeaderFitness.v ===== *)
(** go/services/multiorch/consensus/leader_fitness.go: which of the recruits tied
    at the highest WAL position is proposed as leader. *)

From stdpp Require Import base strings list gmap.
From S2P Require Import Prelude ClusterMetadata Demo TopoId Ordering Compare.
From S2P Require Import Revocation Proposals Backoff Health.

Local Open Scope Z_scope.

Abbreviation HealthByID := (gmap string (option PoolerHealthState)).

(** [healthByID[key]]: nil for a missing key. *)
Definition health_at (healthByID : HealthByID) (id : option ID) : option PoolerHealthState :=
  default None (healthByID !! ClusterIDString id).

Definition isReady (healthByID : HealthByID) (id : option ID) : bool :=
  GetPostgresReady (GetStatus (health_at healthByID id)).

Definition postgresReadyLess (healthByID : HealthByID) (a b : option ConsensusStatus) : bool :=
  isReady healthByID (GetId a) && negb (isReady healthByID (GetId b)).

(** A signal missing from the Go map reads as zero. *)
Definition leadershipSignalPriority (s : LeadershipSignal) : Z :=
  match s with
  | LEADERSHIP_SIGNAL_UNKNOWN => 0
  | LEADERSHIP_SIGNAL_ACTIVE => 0
  | LEADERSHIP_SIGNAL_REQUESTING_DEMOTION => 1
  | LEADERSHIP_SIGNAL_UNNAMED _ => 0
  end.

Definition leadershipSignal (healthByID : HealthByID) (cs : option ConsensusStatus) : LeadershipSignal :=
  ls_GetSignal (GetLeadershipStatus (GetAvailabilityStatus (health_at healthByID (GetId cs)))).

Definition failoverSlotsReady (healthByID : HealthByID) (cs : option ConsensusStatus) : Z :=
  GetFailoverSlotsReady (GetStatus (health_at healthByID (GetId cs))).

Definition poolerHealthStateLess (healthByID : HealthByID) (a b : option ConsensusStatus) : bool :=
  let sigA := leadershipSignal healthByID a in
  let sigB := leadershipSignal healthByID b in
  if negb (leadershipSignalPriority sigA =? leadershipSignalPriority sigB)
  then leadershipSignalPriority sigA <? leadershipSignalPriority sigB
  else failoverSlotsReady healthByID b <? failoverSlotsReady healthByID a.

(** The [less] closure of [selectFittestLeader]. *)
Definition fitter (healthByID : HealthByID) (a b : option ConsensusStatus) : bool :=
  if postgresReadyLess healthByID a b then true
  else if postgresReadyLess healthByID b a then false
  else poolerHealthStateLess healthByID a b.

(** One iteration of its loop, over the candidates tied for best. *)
Definition tie_step (less : option ConsensusStatus -> option ConsensusStatus -> bool)
    (tied : Statuses) (c : option ConsensusStatus) : Statuses :=
  let best := default None (head tied) in
  if less c best then [c]
  else if negb (less best c) then tied ++ [c]
  else tied.

Definition tied_candidates (candidates : Statuses) (healthByID : HealthByID) : Statuses :=
  match candidates with
  | [] => []
  | c :: rest => foldl (tie_step (fitter healthByID)) [c] rest
  end.

(** [rng] is [rand.Rand.IntN] of this call. *)
Definition selectFittestLeader (candidates : Statuses) (healthByID : HealthByID) (rng : Z -> Z)
    : option ConsensusStatus :=
  if len candidates =? 0 then None
  else
    let tied := tied_candidates candidates healthByID in
    default None (tied !! Z.to_nat (rng (len tied))).

Definition QuorumCommitStale `{R : Runtime} (quorumCommitTs : option Timestamp) (now staleAfter : Z) : bool :=
  negb (getp 0 Seconds quorumCommitTs =? 0) && (staleAfter <? time_Sub now (AsTime quorumCommitTs)).

Definition DefaultQuorumCommitStaleAfter : Z := 20 * second.

(** ** The chosen candidate is a best one *)

Section fitness.
  Context (healthByID : HealthByID).

(** Readiness, then the leadership signal, then the failover slots. *)
Definition fitness_key (cs : option ConsensusStatus) : list Z :=
  [if isReady healthByID (GetId cs) then 0 else 1;
   leadershipSignalPriority (leadershipSignal healthByID cs);
   - failoverSlotsReady healthByID cs].

Definition fitness_cmp (a b : option ConsensusStatus) : Z := lexcmp (fitness_key a) (fitness_key b).

#[local] Instance fitness_order : CompareOrder fitness_cmp.
Proof. by apply CompareOrder_key with fitness_key. Qed.

Lemma fitter_key a b : fitter healthByID a b = (fitness_cmp a b <? 0).
Proof.
  unfold fitter, postgresReadyLess, poolerHealthStateLess, fitness_cmp, fitness_key. cbn [lexcmp].
  destruct (isReady healthByID (GetId a)), (isReady healthByID (GetId b)); cbn; try done;
    unfold Zcmp; split_ifs; reflect_bools; try done; lia.
Qed.

(** The loop keeps exactly the candidates no candidate is fitter than. *)
Lemma tied_spec c rest :
  let tied := foldl (tie_step (fitter healthByID)) [c] rest in
  tied <> [] /\
  forall d, d ∈ tied <-> d ∈ c :: rest /\ forall x, x ∈ c :: rest -> fitness_cmp d x <= 0.
Proof.
  induction rest as [|y rest IH] using rev_ind; cbn zeta.
  { split; [done|]. intros d. cbn [foldl]. rewrite !list_elem_of_singleton. split; [|by intros [Hd _]].
    intros ->. split; [done|]. intros x ->%list_elem_of_singleton. by rewrite (cmp_refl fitness_cmp). }
  rewrite foldl_app. cbn [foldl]. set (tied := foldl _ [c] rest) in *. cbn zeta in IH.
  destruct IH as [Hne Hspec]. destruct tied as [|b tl] eqn:Ht; [done|].
  destruct (proj1 (Hspec b) ltac:(left)) as [Hb Hbmin].
  assert (forall d, d ∈ c :: rest ++ [y] <-> d ∈ c :: rest \/ d = y) as Happ
    by (intros d; change (c :: rest ++ [y]) with ((c :: rest) ++ [y]);
        rewrite elem_of_app, list_elem_of_singleton; done).
  unfold tie_step. cbn [head default from_option id]. rewrite !fitter_key.
  pose proof (cmp_anti (cmp:=fitness_cmp) y b) as Hanti.
  destruct (fitness_cmp y b <? 0) eqn:E1; [|destruct (fitness_cmp b y <? 0) eqn:E2]; reflect_bools;
    cbn [negb]. all: (split; [discriminate|]); intros d.
  - rewrite list_elem_of_singleton, Happ. split.
    + intros ->. split; [by right|]. intros x [Hx| ->]%Happ; [|by rewrite (cmp_refl fitness_cmp)].
      apply (cmp_trans (cmp:=fitness_cmp) y b x); [lia|auto].
    + intros [[Hd| ->] Hmin]; [|done]. exfalso.
      assert (fitness_cmp d y <= 0) by (apply Hmin, Happ; by right).
      pose proof (Hbmin d Hd). pose proof (cmp_anti (cmp:=fitness_cmp) b d).
      pose proof (cmp_trans (cmp:=fitness_cmp) b d y). lia.
  - rewrite Hspec, Happ. split.
    + intros [Hd Hmin]. split; [by left|]. intros x [Hx| ->]%Happ; [auto|].
      apply (cmp_trans (cmp:=fitness_cmp) d b y); [auto|lia].
    + intros [[Hd| ->] Hmin]; (split; [|intros x Hx; apply Hmin, Happ; by left]); [done|].
      exfalso. assert (fitness_cmp y b <= 0) by (apply Hmin, Happ; by left). lia.
  - change (b :: tl ++ [y]) with ((b :: tl) ++ [y]).
    rewrite elem_of_app, list_elem_of_singleton, Hspec, Happ. split.
    + intros [[Hd Hmin]| ->]; (split; [by auto|]); intros x [Hx| ->]%Happ.
      * auto.
      * apply (cmp_trans (cmp:=fitness_cmp) d b y); [auto|lia].
      * apply (cmp_trans (cmp:=fitness_cmp) y b x); [lia|auto].
      * by rewrite (cmp_refl fitness_cmp).
    + intros [[Hd| ->] Hmin]; [|by right]. left. split; [done|].
      intros x Hx. apply Hmin, Happ. by left.
Qed.

Lemma fitness_le_iff a b :
  fitness_cmp a b <= 0 <->
  (isReady healthByID (GetId b) = true -> isReady healthByID (GetId a) = true) /\
  (isReady healthByID (GetId a) = isReady healthByID (GetId b) ->
   let pa := leadershipSignalPriority (leadershipSignal healthByID a) in
   let pb := leadershipSignalPriority (leadershipSignal healthByID b) in
   pa <= pb /\ (pa = pb -> failoverSlotsReady healthByID b <= failoverSlotsReady healthByID a)).
Proof.
  unfold fitness_cmp, fitness_key. cbn [lexcmp].
  destruct (isReady healthByID (GetId a)), (isReady healthByID (GetId b)); cbn;
    unfold Zcmp; split_ifs; reflect_bools; cbn zeta; intuition (try done; try lia).
Qed.

(** The leader chosen among tied recruits is one of them and a best one:
    none is ready while it is not; among equally ready ones it does not ask for
    demotion unless all do, and then has the most failover-ready slots.  Every
    best recruit can be drawn. *)
Theorem fittest_leader_is_best candidates rng :
  candidates <> [] -> (forall n, 0 < n -> 0 <= rng n < n) ->
  let best := fun l => l ∈ candidates /\ forall c, c ∈ candidates ->
    (isReady healthByID (GetId c) = true -> isReady healthByID (GetId l) = true) /\
    (isReady healthByID (GetId l) = isReady healthByID (GetId c) ->
     let pl := leadershipSignalPriority (leadershipSignal healthByID l) in
     let pc := leadershipSignalPriority (leadershipSignal healthByID c) in
     pl <= pc /\ (pl = pc -> failoverSlotsReady healthByID c <= failoverSlotsReady healthByID l)) in
  best (selectFittestLeader candidates healthByID rng) /\
  forall l, best l -> exists draw, (forall n, 0 < n -> 0 <= draw n < n) /\
    selectFittestLeader candidates healthByID draw = l.
Proof.
  intros Hne Hrng best. destruct candidates as [|c rest]; [done|].
  destruct (tied_spec c rest) as [Htne Hspec]. fold (tied_candidates (c :: rest) healthByID) in *.
  set (tied := tied_candidates (c :: rest) healthByID) in *.
  assert (forall l, best l <-> l ∈ tied) as Hbest.
  { intros l. rewrite Hspec. subst best. cbn beta.
    split; intros [? H]; (split; [done|]); intros x Hx; apply fitness_le_iff; auto. }
  assert (0 < len tied) as Hlen by (unfold len; destruct tied; [done|cbn; lia]).
  unfold selectFittestLeader. cbn zeta. fold tied. cbn [len length].
  destruct (len (c :: rest) =? 0) eqn:E; [by apply Z.eqb_eq in E|].
  split.
  - apply Hbest. pose proof (Hrng _ Hlen) as Hr. unfold len in Hr.
    destruct (lookup_lt_is_Some_2 tied (Z.to_nat (rng (len tied)))) as [x Hx]; [unfold len; lia|].
    rewrite Hx. cbn. by eapply list_elem_of_lookup_2.
  - intros l Hl. apply Hbest, list_elem_of_lookup in Hl as [i Hi].
    exists (fun n => Z.min (Z.of_nat i) (n - 1)). split; [intros; lia|].
    pose proof (lookup_lt_Some _ _ _ Hi). unfold len.
    replace (Z.to_nat _) with i by lia. by rewrite Hi.
Qed.

End fitness.

Definition demo_fitness (id : option ID) (ready : bool) (signal : LeadershipSignal) (slots : Z)
    : option PoolerHealthState :=
  Some (mkPoolerHealthState (Some (mkMultipooler id (GetName id) {["postgres" := 5432]})) (ts 1000) None None
    (Some (mkAvailabilityStatus (Some (mkLeadershipStatus 1 signal)) None))
    (Some (mkStatus None None true true POSTGRES_STATUS_STANDBY ready slots))).

Lemma fittest_leader_is_best_witness :
  let h := <[ClusterIDString p1 := demo_fitness p1 true LEADERSHIP_SIGNAL_REQUESTING_DEMOTION 9]>
    (<[ClusterIDString p2 := demo_fitness p2 true LEADERSHIP_SIGNAL_ACTIVE 2]>
    {[ClusterIDString p3 := demo_fitness p3 false LEADERSHIP_SIGNAL_ACTIVE 5]}) in
  let s id := demo_status id None None "0/10" in
  GetId (selectFittestLeader [s p1; s p2; s p3] h (fun _ => 0)) = p2 /\
  selectFittestLeader [s p1; s p2; s p3] h (fun _ => 0) ∈ [s p1; s p2; s p3].
Proof.
  intros h s. split; [vm_compute; reflexivity|].
  refine (proj1 (proj1 (fittest_leader_is_best h [s p1; s p2; s p3] (fun _ => 0) _ _))).
  - discriminate.
  - intros. lia.
Defined.
