(* ===== verification/RuleChange.v ===== *)
(** go/services/multiorch/consensus/rule_change.go: the recruit, check, promote
    workflow an orchestrator runs to change a shard's rule.

    The RPC client is a parameter that answers every call.  The goroutines write
    their results to a buffered channel: [Delivery] is the order in which the
    channel delivers them.  Every RPC a run issues is recorded, so that theorems
    can speak of what was sent. *)

From stdpp Require Import base strings list gmap.
From S2P Require Import Prelude ClusterMetadata TopoId Compare Cohort Revocation.
From S2P Require Import Proposals Backoff Health FailoverBackoff.

Local Open Scope Z_scope.

Record PromoteRequest := mkPromoteRequest {
  pr_Proposal : option CoordinatorProposal;
  pr_Reason : string;
  pr_AcceptedNodeIds : IDs
}.

(** The multipooler RPCs used: the status a Recruit answers with, and the error of
    a Promote, SetPrimary or Status call. *)
Record MultipoolerClient := mkMultipoolerClient {
  rpc_Recruit : Multipooler -> option TermRevocation -> result (option ConsensusStatus);
  rpc_Promote : Multipooler -> PromoteRequest -> option gerror;
  rpc_SetPrimary : Multipooler -> option ReplicationPrimary -> option gerror;
  rpc_Status : Multipooler -> result (option ConsensusStatus)
}.

Inductive Call :=
| CallRecruit (to : Multipooler) (revocation : option TermRevocation)
| CallPromote (to : Multipooler) (req : PromoteRequest)
| CallSetPrimary (to : Multipooler) (primary : option ReplicationPrimary).

Record recruitResult := mkRecruitResult { rec_pooler : Multipooler; rec_cs : option ConsensusStatus }.

Record promoteResult := mkPromoteResult { prom_poolerName : string; prom_isLeader : bool; prom_err : option gerror }.

(** The order in which the two channels deliver. *)
Record Delivery := mkDelivery {
  deliver_recruits : list recruitResult -> list recruitResult;
  deliver_promotes : list promoteResult -> list promoteResult
}.

Record coordinatorLedRuleChange := mkRuleChange {
  reason : string;
  (** the argument counts the calls: each draws and reads the clock anew *)
  tryBuildProposal : nat -> option TermRevocation -> Statuses -> result (option CoordinatorProposal);
  checkProposalPossible : option TermRevocation -> Statuses -> option gerror
}.

(** [p.Multipooler] and [p.Multipooler.Id.Name]: nil pointers panic. *)
Definition deref_Multipooler (p : option PoolerHealthState) : result Multipooler :=
  match GetMultipooler p with Some mp => Ok mp | None => Err (err "panic: nil Multipooler") end.

Definition deref_pooler (p : option PoolerHealthState) : result Multipooler :=
  mp ← deref_Multipooler p;
  match mp_Id mp with Some _ => Ok mp | None => Err (err "panic: nil Multipooler.Id") end.

Fixpoint each {A B} (f : A -> result B) (l : list A) : result (list B) :=
  match l with
  | [] => Ok []
  | x :: l' => y ← f x; ys ← each f l'; Ok (y :: ys)
  end.

(** ** Proposals *)

Abbreviation AddressByID := (gmap string (option PoolerAddress)).

Definition buildCohortMaps (cohort : list (option PoolerHealthState))
    : result (AddressByID * gmap string (option PoolerHealthState)) :=
  foldl (fun acc p =>
    '(addressByID, healthByID) ← acc;
    mp ← deref_Multipooler p;
    let key := ClusterIDString (mp_Id mp) in
    Ok (<[key := PoolerAddressFor (Some mp)]> addressByID, <[key := p]> healthByID))
    (Ok (∅, ∅)) cohort.

(** [now] is [timestamppb.Now()]. *)
Definition buildFailoverProposal (res : RecruitmentResult) (leader : option ConsensusStatus)
    (addressByID : AddressByID) (now : Timestamp) : result (option CoordinatorProposal) :=
  match rr_OutgoingRule res with
  | None => Err (err "no committed rule found; use bootstrap path for fresh clusters")
  | Some _ =>
      match leader with
      | None => Err (err "no leader selected for failover proposal")
      | Some _ =>
          match addressByID !! ClusterIDString (GetId leader) with
          | None => Err (err "leader not found in cohort")
          | Some addr =>
              Ok (Some {|
                prop_TermRevocation := rr_TermRevocation res;
                ProposalLeader := addr;
                ProposedTransition := Some {|
                  pos_Decision := rr_OutgoingRule res;
                  pos_Proposal := Some {|
                    sr_RuleNumber := Some (mkRuleNumber (GetRevokedBelowTerm (rr_TermRevocation res)) 0);
                    LeaderId := GetId leader;
                    CohortMembers := GetCohortMembers (rr_OutgoingRule res);
                    sr_DurabilityPolicy := GetDurabilityPolicy (rr_OutgoingRule res);
                    CoordinatorId := GetAcceptedCoordinatorId (rr_TermRevocation res);
                    CreationTime := Some now |} |};
                SkipOutgoingQuorum := false |})
          end
      end
  end.

Definition buildBootstrapProposal (res : RecruitmentResult) (cohortIDs : IDs)
    (policy : option DurabilityPolicyMsg) (addressByID : AddressByID) (now : Timestamp)
    : result (option CoordinatorProposal) :=
  match EligibleLeaders res with
  | [] => Err (err "no eligible leaders for bootstrap proposal")
  | leader :: _ =>
      match addressByID !! ClusterIDString (GetId leader) with
      | None => Err (err "leader not found in cohort")
      | Some addr =>
          Ok (Some {|
            prop_TermRevocation := rr_TermRevocation res;
            ProposalLeader := addr;
            ProposedTransition := Some {|
              pos_Decision := rr_OutgoingRule res;
              pos_Proposal := Some {|
                sr_RuleNumber := Some (mkRuleNumber (GetRevokedBelowTerm (rr_TermRevocation res)) 0);
                LeaderId := GetId leader;
                CohortMembers := cohortIDs;
                sr_DurabilityPolicy := policy;
                CoordinatorId := GetAcceptedCoordinatorId (rr_TermRevocation res);
                CreationTime := Some now |} |};
            SkipOutgoingQuorum := true |})
      end
  end.

(** ** The workflow *)

Definition recruit_backoffWindow : Z := 4 * second.

Section runtime.
  Context `{R : Runtime}.

(** The test of one cohort member. *)
Definition recently_accepted (now : Z) (pooler : option PoolerHealthState) : bool :=
  let status := GetConsensusStatus pooler in
  let acceptedRevocation := GetTermRevocation status in
  if bool_decide (acceptedRevocation = None) ||
     bool_decide (GetCoordinatorInitiatedAt acceptedRevocation = None) then false
  else
    let decisionTerm := GetCoordinatorTerm (GetRuleNumber (GetDecision
      (pp_GetPosition (GetCurrentPosition status)))) in
    if GetRevokedBelowTerm acceptedRevocation <=? decisionTerm then false
    else
      let timeSince := time_Sub now (AsTime (GetCoordinatorInitiatedAt acceptedRevocation)) in
      (0 <=? timeSince) && (timeSince <? recruit_backoffWindow).

Definition checkRecentAcceptance (now : Z) (cohort : list (option PoolerHealthState)) : option gerror :=
  if existsb (recently_accepted now) cohort
  then Some (err "another coordinator started recruiting recently, backing off") else None.

(** The status of a successful Recruit; nil on an error or an empty status. *)
Definition recruit (rpc : MultipoolerClient) (p : Multipooler) (revocation : option TermRevocation)
    : option ConsensusStatus :=
  match rpc_Recruit rpc p revocation with Err _ => None | Ok cs => cs end.

Definition dispatchRecruit (rpc : MultipoolerClient) (dl : Delivery) (cohort : list Multipooler)
    (revocation : option TermRevocation) : list Call * list recruitResult :=
  (map (fun p => CallRecruit p revocation) cohort,
   deliver_recruits dl (map (fun p => mkRecruitResult p (recruit rpc p revocation)) cohort)).

(** The receive loop, over the calls made, the statuses collected and the last
    error. *)
Fixpoint collect_loop (r : coordinatorLedRuleChange) (revocation : option TermRevocation)
    (recruited : list recruitResult) (calls : nat) (statuses : Statuses) (last : option gerror)
    : result (PromoteRequest * string) :=
  match recruited with
  | [] => Err (wrap "recruitment failed" (default (err "no nodes responded to recruit") last))
  | rr :: recruited' =>
      match rec_cs rr with
      | None => collect_loop r revocation recruited' calls statuses last
      | Some _ =>
          let statuses := statuses ++ [rec_cs rr] in
          match tryBuildProposal r calls revocation statuses with
          | Ok p => Ok (mkPromoteRequest p (reason r) (map GetId statuses),
                        ClusterIDString (pa_GetId (GetProposalLeader p)))
          | Err e => collect_loop r revocation recruited' (S calls) statuses (Some e)
          end
      end
  end.

Definition collectRecruitsAndBuildProposal (r : coordinatorLedRuleChange)
    (revocation : option TermRevocation) (recruited : list recruitResult) : result (PromoteRequest * string) :=
  collect_loop r revocation recruited 0 [] None.

(** The call [promote] makes to one pooler, and its error. *)
Definition promote_call (p : Multipooler) (req : PromoteRequest) (isLeader : bool) : Call :=
  if isLeader then CallPromote p req
  else CallSetPrimary p (ReplicationPrimaryFromProposal (pr_Proposal req) false).

Definition promote (rpc : MultipoolerClient) (p : Multipooler) (req : PromoteRequest) (isLeader : bool)
    : option gerror :=
  match promote_call p req isLeader with
  | CallPromote p req => rpc_Promote rpc p req
  | CallSetPrimary p primary => rpc_SetPrimary rpc p primary
  | CallRecruit _ _ => None
  end.

Definition is_leader_key (leaderKey : string) (p : Multipooler) : bool :=
  String.eqb (ClusterIDString (mp_Id p)) leaderKey.

Definition dispatchPromote (rpc : MultipoolerClient) (dl : Delivery) (cohort : list Multipooler)
    (propReq : PromoteRequest) (leaderKey : string) : list Call * list promoteResult :=
  (map (fun p => promote_call p propReq (is_leader_key leaderKey p)) cohort,
   deliver_promotes dl (map (fun p =>
     let isLeader := is_leader_key leaderKey p in
     mkPromoteResult (GetName (mp_Id p)) isLeader (promote rpc p propReq isLeader)) cohort)).

Fixpoint waitForPromotes (promoteResults : list promoteResult) : option gerror :=
  match promoteResults with
  | [] => None
  | pr :: rest =>
      match prom_err pr with
      | Some e => if prom_isLeader pr then Some e else waitForPromotes rest
      | None => waitForPromotes rest
      end
  end.

(** The calls issued, in dispatch order, and the error returned. *)
Definition Run (r : coordinatorLedRuleChange) (rpc : MultipoolerClient) (dl : Delivery) (now : Z)
    (cohort : list (option PoolerHealthState)) (revocation : option TermRevocation)
    : list Call * option gerror :=
  if bool_decide (revocation = None) then ([], Some (err "Run: revocation is required"))
  else
    let initialStatuses := consensusStatusesOf cohort in
    match checkProposalPossible r revocation initialStatuses with
    | Some _ => ([], Some (err "pre-vote failed: %v"))
    | None =>
        match checkRecentAcceptance now cohort with
        | Some e => ([], Some e)
        | None =>
            match each deref_pooler cohort with
            | Err panic => ([], Some panic)
            | Ok poolers =>
                let '(recruits, recruited) := dispatchRecruit rpc dl poolers revocation in
                match collectRecruitsAndBuildProposal r revocation recruited with
                | Err e => (recruits, Some e)
                | Ok (propReq, leaderKey) =>
                    let '(promotes, results) := dispatchPromote rpc dl poolers propReq leaderKey in
                    (recruits ++ promotes, wrap_err "leader failed to accept proposal" (waitForPromotes results))
                end
            end
        end
    end.

End runtime.

(** ** What a run does *)

(** The channels deliver what was sent, in some order. *)
Class FairDelivery (dl : Delivery) : Prop := {
  deliver_recruits_perm : forall l, deliver_recruits dl l ≡ₚ l;
  deliver_promotes_perm : forall l, deliver_promotes dl l ≡ₚ l
}.

Lemma each_Ok {A B} (f : A -> result B) l ys :
  each f l = Ok ys -> Forall2 (fun x y => f x = Ok y) l ys.
Proof.
  revert ys. induction l as [|x l IH]; intros ys H; cbn in H; inv_ok; [by constructor|].
  constructor; [done|auto].
Qed.

Lemma waitForPromotes_None l :
  waitForPromotes l = None <-> forall pr, pr ∈ l -> prom_isLeader pr = true -> prom_err pr = None.
Proof.
  induction l as [|pr l IH]; cbn; [split; [by intros _ ? ?%elem_of_nil|done]|].
  destruct (prom_err pr) as [e|] eqn:He, (prom_isLeader pr) eqn:Hl; rewrite ?IH;
    setoid_rewrite elem_of_cons; (split; [|try naive_solver congruence]); try done; try naive_solver congruence.
Qed.

Section runs.
  Context `{R : Runtime} (r : coordinatorLedRuleChange) (rpc : MultipoolerClient) (dl : Delivery)
    `{!FairDelivery dl}.

(** The statuses among the answers that arrived. *)
Definition answered_statuses (recruited : list recruitResult) : Statuses :=
  filter (fun cs => cs <> None) (map rec_cs recruited).

Lemma answered_cons rr recruited :
  answered_statuses (rr :: recruited) =
  match rec_cs rr with None => answered_statuses recruited | Some c => Some c :: answered_statuses recruited end.
Proof.
  unfold answered_statuses. cbn [map]. destruct (rec_cs rr); [by rewrite filter_cons_True|].
  rewrite filter_cons_False; [done|]. by intros [].
Qed.

(** A proposal was built from the statuses of the first [k] Recruit answers. *)
Lemma collect_loop_Ok rev recruited calls statuses last req key :
  collect_loop r rev recruited calls statuses last = Ok (req, key) ->
  exists n k more p, tryBuildProposal r n rev (statuses ++ more) = Ok p /\
    more = answered_statuses (take k recruited) /\
    (forall cs, cs ∈ more -> is_Some cs /\ exists rr, rr ∈ recruited /\ rec_cs rr = cs) /\
    req = mkPromoteRequest p (reason r) (map GetId (statuses ++ more)) /\
    key = ClusterIDString (pa_GetId (GetProposalLeader p)).
Proof.
  revert calls statuses last.
  induction recruited as [|rr recruited IH]; intros calls statuses last H; [done|]. cbn in H.
  destruct (rec_cs rr) as [c|] eqn:Hcs.
  2: { apply IH in H as (n & k & more & p & ? & Hk & Hm & ? & ?). exists n, (S k), more, p.
       split_and!; [done|cbn [take]; by rewrite answered_cons, Hcs| |done..].
       intros cs Hin. destruct (Hm cs Hin) as (? & x & ? & ?). split; [done|]. exists x. split; [by right|done]. }
  destruct (tryBuildProposal r calls rev _) as [p|e] eqn:Ht.
  - injection H as <- <-. exists calls, 1%nat, [Some c], p.
    split_and!; [done|cbn [take]; by rewrite answered_cons, Hcs| |done..].
    intros cs ->%list_elem_of_singleton. split; [eauto|]. exists rr. split; [by left|done].
  - apply IH in H as (n & k & more & p & Hp & Hk & Hm & -> & ->). exists n, (S k), (Some c :: more), p.
    rewrite <- app_assoc in Hp. rewrite <- app_assoc.
    split_and!; [done|cbn [take]; by rewrite answered_cons, Hcs, Hk| |done..].
    intros cs [->|Hin]%elem_of_cons; [split; [eauto|]; exists rr; split; [by left|done]|].
    destruct (Hm cs Hin) as (? & x & ? & ?). split; [done|]. exists x. split; [by right|done].
Qed.

(** The poolers of a cohort, each with its ID. *)
Definition cohort_poolers (cohort : list (option PoolerHealthState)) (poolers : list Multipooler) : Prop :=
  Forall2 (fun p mp => GetMultipooler p = Some mp /\ is_Some (mp_Id mp)) cohort poolers.

Lemma each_deref_pooler cohort poolers :
  each deref_pooler cohort = Ok poolers -> cohort_poolers cohort poolers.
Proof.
  intros H%each_Ok. eapply Forall2_impl; [exact H|]. intros p mp Hp. cbn in Hp.
  unfold deref_pooler, deref_Multipooler in Hp. destruct (GetMultipooler p) as [m|]; cbn in Hp; [|done].
  destruct (mp_Id m) eqn:E; inv_ok. eauto.
Qed.

(** What a run that sent a Promote or a SetPrimary went through: [statuses] are
    answers of Recruit calls that carried [rev], from which the proposal was
    built. *)
Record promoted (now : Z) (cohort : list (option PoolerHealthState)) (rev : option TermRevocation)
    (calls : list Call) (e : option gerror) (poolers : list Multipooler) (n : nat) (statuses : Statuses)
    (req : PromoteRequest) : Prop := {
  run_poolers : cohort_poolers cohort poolers;
  run_prevote : checkProposalPossible r rev (consensusStatusesOf cohort) = None;
  run_quiet : checkRecentAcceptance now cohort = None;
  run_answers : forall cs, cs ∈ statuses ->
    is_Some cs /\ exists mp, mp ∈ poolers /\ rpc_Recruit rpc mp rev = Ok cs;
  run_arrivals : exists k, statuses = answered_statuses (take k (snd (dispatchRecruit rpc dl poolers rev)));
  run_built : tryBuildProposal r n rev statuses = Ok (pr_Proposal req);
  run_request : pr_Reason req = reason r /\ pr_AcceptedNodeIds req = map GetId statuses;
  run_calls : calls = map (fun p => CallRecruit p rev) poolers ++
    map (fun p => promote_call p req
           (is_leader_key (ClusterIDString (pa_GetId (GetProposalLeader (pr_Proposal req)))) p)) poolers;
  run_outcome : e = None <-> forall p, p ∈ poolers ->
    is_leader_key (ClusterIDString (pa_GetId (GetProposalLeader (pr_Proposal req)))) p = true ->
    rpc_Promote rpc p req = None
}.

(** A run either only recruits and fails, or goes through all of its phases. *)
Lemma Run_cases now cohort rev calls e :
  Run r rpc dl now cohort rev = (calls, e) ->
  (e <> None /\ forall c, c ∈ calls -> exists p, c = CallRecruit p rev) \/
  exists poolers n statuses req, promoted now cohort rev calls e poolers n statuses req.
Proof.
  unfold Run. intros H. case_bool_decide.
  { injection H as <- <-. left. split; [done|]. by intros c ?%elem_of_nil. }
  destruct (checkProposalPossible r rev _) eqn:Hpv.
  { injection H as <- <-. left. split; [done|]. by intros c ?%elem_of_nil. }
  destruct (checkRecentAcceptance now cohort) eqn:Hra.
  { injection H as <- <-. left. split; [done|]. by intros c ?%elem_of_nil. }
  destruct (each deref_pooler cohort) as [poolers|pn] eqn:Hp.
  2: { injection H as <- <-. left. split; [done|]. by intros c ?%elem_of_nil. }
  cbn [dispatchRecruit] in H.
  destruct (collectRecruitsAndBuildProposal r rev _) as [[req key]|ee] eqn:Hc.
  2: { injection H as <- <-. left. split; [done|]. intros c (p & -> & _)%list_elem_of_fmap. eauto. }
  right. cbn [dispatchPromote] in H. injection H as <- <-.
  apply collect_loop_Ok in Hc as (n & k & statuses & p & Hb & Harr & Hst & -> & ->). cbn [app] in *.
  exists poolers, n, statuses, (mkPromoteRequest p (reason r) (map GetId statuses)).
  constructor; try done; cbn [pr_Proposal pr_Reason pr_AcceptedNodeIds].
  - by apply each_deref_pooler.
  - intros cs Hcs. destruct (Hst cs Hcs) as ([c Hc] & rr & Hrr & Heq). split; [eauto|].
    rewrite (deliver_recruits_perm _) in Hrr.
    apply list_elem_of_fmap in Hrr as (mp & -> & Hmp). exists mp. split; [done|]. cbn in Heq.
    unfold recruit in Heq. destruct (rpc_Recruit rpc mp rev); congruence.
  - by exists k.
  - unfold wrap_err. rewrite fmap_None, waitForPromotes_None. setoid_rewrite (deliver_promotes_perm _).
    split.
    + intros Hall mp Hmp Hk. specialize (Hall _ (list_elem_of_fmap_2 _ _ _ Hmp)).
      cbn in Hall. rewrite Hk in Hall. by apply Hall.
    + intros Hall pr (mp & -> & Hmp)%list_elem_of_fmap Hk. cbn in *. rewrite Hk. by apply Hall.
Qed.

(** Every call goes to a pooler of the cohort. *)
Lemma Run_calls now cohort rev calls e call :
  Run r rpc dl now cohort rev = (calls, e) -> call ∈ calls ->
  exists p, p ∈ cohort /\ GetMultipooler p =
    Some (match call with CallRecruit p _ | CallPromote p _ | CallSetPrimary p _ => p end).
Proof.
  unfold Run. intros H Hin. case_bool_decide; [no_calls H Hin|].
  destruct (checkProposalPossible _ _ _); [no_calls H Hin|].
  destruct (checkRecentAcceptance _ _); [no_calls H Hin|].
  destruct (each deref_pooler cohort) as [poolers|] eqn:Hp; [|no_calls H Hin].
  apply each_deref_pooler in Hp. cbn [dispatchRecruit] in H.
  assert (forall mp, mp ∈ poolers -> exists p, p ∈ cohort /\ GetMultipooler p = Some mp) as Hmem.
  { intros mp [i Hi]%list_elem_of_lookup. destruct (Forall2_lookup_r _ _ _ _ _ Hp Hi) as (p & Hpi & Hm & _).
    exists p. split; [by eapply list_elem_of_lookup_2|done]. }
  assert (call ∈ map (fun p => CallRecruit p rev) poolers \/ exists req key,
    call ∈ map (fun p => promote_call p req (is_leader_key key p)) poolers) as Hc.
  { destruct (collectRecruitsAndBuildProposal _ _ _) as [[req key]|]; cbn [dispatchPromote] in H;
      injection H as <- <-; [|by left]. apply elem_of_app in Hin as [?|?]; eauto. }
  destruct Hc as [(mp & -> & Hmp)%list_elem_of_fmap|(req & key & (mp & -> & Hmp)%list_elem_of_fmap)]; [auto|].
  unfold promote_call. destruct (is_leader_key key mp); auto.
Qed.

End runs.
