(* ===== verification/Coordinator.v ===== *)
(** go/services/multiorch/consensus/coordinator.go and rule_change_certified.go:
    the coordinator's three ways to appoint a leader, and what each guarantees
    whatever the poolers answer and in whatever order. *)

From stdpp Require Import base strings list gmap.
From S2P Require Import Prelude ClusterMetadata Demo TopoId Ordering Compare Cohort.
From S2P Require Import Durability Revocation Proposals ProposalFacts ProposalSafety.
From S2P Require Import Backoff Health FailoverBackoff LeaderFitness RuleChange.

Local Open Scope Z_scope.

Record ShardKey := mkShardKey { sk_Database : string; sk_TableGroup : string; sk_Shard : string }.

Record Coordinator := mkCoordinator {
  coordinatorID : option ID;
  policyCache : gmap string (option DurabilityPolicyMsg)
}.

Definition NewCoordinator (id : option ID) : Coordinator := mkCoordinator id ∅.

(** The topology store: the bootstrap policy of a database record, the cells, the
    poolers of a shard in a cell, and the record of one pooler. *)
Record TopoStore := mkTopoStore {
  topo_GetDatabase : string -> result (option DurabilityPolicyMsg);
  topo_GetCellNames : result (list string);
  topo_GetMultipoolersByCell : string -> option ShardKey -> result (list (option Multipooler));
  topo_GetMultipooler : option ID -> result (option Multipooler)
}.

(** The random draw and the clock reading of each call of a proposal builder. *)
Record Draws := mkDraws { rng : nat -> Z -> Z; clock : nat -> Timestamp }.

(** ** Failover *)

Definition cohortMemberStatuses (statuses : Statuses) (cohort : IDs) : Statuses :=
  let members := map ClusterIDString cohort in
  filter (fun cs => ClusterIDString (GetId cs) ∈ members) statuses.

Definition failoverCandidates (r : RecruitmentResult) : result Statuses :=
  if len (EligibleLeaders r) =? 0 then Err (err "no eligible leaders for failover proposal")
  else
    let candidates := cohortMemberStatuses (EligibleLeaders r) (GetCohortMembers (rr_OutgoingRule r)) in
    if len candidates =? 0 then Err (err "no eligible leader is a member of the outgoing cohort")
    else Ok candidates.

(** The [buildProposal] closure, at its [k]-th call. *)
Definition failover_builder (addressByID : AddressByID) (healthByID : HealthByID) (dr : Draws) (k : nat)
    : Builder := fun r =>
  candidates ← failoverCandidates r;
  let leader := selectFittestLeader candidates healthByID (rng dr k) in
  buildFailoverProposal r leader addressByID (clock dr k).

Section runtime.
  Context `{R : Runtime}.

(** [at_] is [timestamppb.Now()] and [now] the [time.Now()] of the backoff check. *)
Definition runFailover (c : Coordinator) (rpc : MultipoolerClient) (dl : Delivery) (dr : Draws)
    (at_ : Timestamp) (now : Z) (cohort : list (option PoolerHealthState)) (reason_ : string)
    : list Call * option gerror :=
  let '(eligible, ineligible) := filterCohortIneligible cohort in
  if len eligible =? 0 then
    ([], Some (err "no eligible cohort members for failover; all ineligible: %v"))
  else match NewTermRevocation (consensusStatusesOf eligible) (coordinatorID c) (Some at_)
               DefaultBackoffResetDuration with
  | Err _ => ([], Some (err "%v"))
  | Ok revocation =>
      match buildCohortMaps eligible with
      | Err panic => ([], Some panic)
      | Ok (poolerByID, healthByID) =>
          let buildProposal := failover_builder poolerByID healthByID dr in
          let change := {|
            reason := reason_;
            tryBuildProposal := fun n rev statuses => BuildSafeProposal rev statuses (buildProposal (S n));
            checkProposalPossible := fun rev statuses => CheckProposalPossible rev statuses (buildProposal O)
          |} in
          let '(calls, e) := Run change rpc dl now eligible (Some revocation) in
          (calls, if bool_decide (ineligible = []) then e
                  else wrap_err "failover excluded ineligible members %v" e)
      end
  end.

Definition AppointLeader (c : Coordinator) (rpc : MultipoolerClient) (dl : Delivery) (dr : Draws)
    (at_ : Timestamp) (now : Z) (cohort : list (option PoolerHealthState)) (reason_ : string)
    : list Call * option gerror :=
  if len cohort =? 0 then ([], Some (err "cohort is empty for shard"))
  else runFailover c rpc dl dr at_ now cohort reason_.

(** ** Bootstrap *)

Definition GetBootstrapPolicy (c : Coordinator) (topo : TopoStore) (database : string)
    : result (option DurabilityPolicyMsg) * Coordinator :=
  match policyCache c !! database with
  | Some cached => (Ok cached, c)
  | None =>
      match topo_GetDatabase topo database with
      | Err e => (Err (wrap "failed to get database from topology" e), c)
      | Ok None => (Err (err "database has no bootstrap_durability_policy configured"), c)
      | Ok (Some policy) =>
          (Ok (Some policy), mkCoordinator (coordinatorID c) (<[database := Some policy]> (policyCache c)))
      end
  end.

Definition poolerIDs (poolers : list (option PoolerHealthState)) : result IDs :=
  mps ← each deref_Multipooler poolers; Ok (map mp_Id mps).

Definition AppointInitialLeader (c : Coordinator) (topo : TopoStore) (rpc : MultipoolerClient)
    (dl : Delivery) (dr : Draws) (at_ : Timestamp) (now : Z) (shardKey : option ShardKey)
    (cohort : list (option PoolerHealthState)) : Coordinator * (list Call * option gerror) :=
  if len cohort =? 0 then (c, ([], Some (err "cohort is empty for shard")))
  else
    let '(policy, c') := GetBootstrapPolicy c topo (getp "" sk_Database shardKey) in
    (c', match wrap_result "failed to load durability policy from topology" policy with
    | Err e => ([], Some e)
    | Ok policy =>
        let cohortStatuses := consensusStatusesOf cohort in
        match MostAdvancedPosition cohortStatuses with
        | None => ([], Some (err "cannot bootstrap shard: no cohort member has a known WAL position"))
        | Some mostAdvanced =>
            match NewTermRevocation cohortStatuses (coordinatorID c) (Some at_) DefaultBackoffResetDuration with
            | Err _ => ([], Some (err "%v"))
            | Ok revocation =>
                let cert := Some (mkExternallyCertifiedRevocation (Some revocation) (pp_Lsn mostAdvanced)) in
                match buildCohortMaps cohort, poolerIDs cohort with
                | Ok (poolerByID, _), Ok cohortIDs =>
                    let buildProposal k : Builder := fun res =>
                      buildBootstrapProposal res cohortIDs policy poolerByID (clock dr k) in
                    Run {|
                      reason := "ShardInit";
                      tryBuildProposal := fun n _ statuses =>
                        BuildExternallyCertifiedProposal cert statuses (buildProposal (S n));
                      checkProposalPossible := fun _ statuses =>
                        CheckExternallyCertifiedProposalPossible cert statuses (buildProposal O)
                    |} rpc dl now cohort (Some revocation)
                | Err panic, _ | _, Err panic => ([], Some panic)
                end
            end
        end
    end).

(** ** Operator-certified changes *)

Definition validateCertifiedRuleChange (shardKey : option ShardKey) (proposedTransition : option RulePosition)
    (cert : option ExternallyCertifiedRevocation) : option gerror :=
  let proposedRule := GetProposal proposedTransition in
  let rev := ecr_GetTermRevocation cert in
  if bool_decide (shardKey = None) || String.eqb (getp "" sk_Database shardKey) "" ||
     String.eqb (getp "" sk_TableGroup shardKey) "" || String.eqb (getp "" sk_Shard shardKey) ""
  then Some (err "shard_key is required (database, table_group, shard)")
  else if bool_decide (proposedRule = None) then Some (err "proposed_rule is required")
  else if bool_decide (GetLeaderId proposedRule = None) then Some (err "proposed_rule.leader_id is required")
  else if len (GetCohortMembers proposedRule) =? 0 then
    Some (err "proposed_rule.cohort_members must be non-empty")
  else if bool_decide (GetDurabilityPolicy proposedRule = None) then
    Some (err "proposed_rule.durability_policy is required")
  else if bool_decide (GetRuleNumber proposedRule = None) then Some (err "proposed_rule.rule_number is required")
  else if bool_decide (GetCoordinatorId proposedRule = None) then
    Some (err "proposed_rule.coordinator_id is required")
  else if bool_decide (GetCreationTime proposedRule = None) then
    Some (err "proposed_rule.creation_time is required")
  else match cert with
  | None => Some (err "cert is required")
  | Some _ =>
      if String.eqb (GetFrozenLsn cert) "" then Some (err "cert.frozen_lsn is required")
      else if bool_decide (rev = None) then Some (err "cert.term_revocation is required")
      else if bool_decide (GetOutgoingRule rev = None) then
        Some (err "cert.term_revocation.outgoing_rule is required")
      else if GetRevokedBelowTerm rev <=? 0 then
        Some (err "cert.term_revocation.revoked_below_term must be positive")
      else if bool_decide (GetAcceptedCoordinatorId rev = None) then
        Some (err "cert.term_revocation.accepted_coordinator_id is required")
      else if bool_decide (GetCoordinatorInitiatedAt rev = None) then
        Some (err "cert.term_revocation.coordinator_initiated_at is required")
      else if negb (GetCoordinatorTerm (GetRuleNumber proposedRule) =? GetRevokedBelowTerm rev) then
        Some (err "proposed_rule.rule_number.coordinator_term must equal cert.term_revocation.revoked_below_term")
      else if GetRevokedBelowTerm rev <=? GetCoordinatorTerm (GetOutgoingRule rev) then
        Some (err "cert.term_revocation.revoked_below_term must be greater than the outgoing term")
      else
        let leaderKey := ClusterIDString (GetLeaderId proposedRule) in
        if existsb (fun id => String.eqb (ClusterIDString id) leaderKey) (GetCohortMembers proposedRule)
        then None
        else Some (err "proposed_rule.leader_id must be a member of proposed_rule.cohort_members")
  end.

(** Lists every cell; a nil record is skipped. *)
Fixpoint list_shard_poolers (topo : TopoStore) (shardKey : option ShardKey) (cells : list string)
    : result (list Multipooler) :=
  match cells with
  | [] => Ok []
  | cell :: cells' =>
      infos ← wrap_result "failed to list poolers in cell during shard status refresh"
                (topo_GetMultipoolersByCell topo cell shardKey);
      rest ← list_shard_poolers topo shardKey cells';
      Ok (omap id infos ++ rest)
  end.

(** [order] is the order in which the concurrent probes store their answers. *)
Definition refreshShardConsensusStatuses (topo : TopoStore) (rpc : MultipoolerClient)
    (order : list Multipooler -> list Multipooler) (shardKey : option ShardKey)
    : result (gmap string (option ConsensusStatus)) :=
  cellNames ← wrap_result "failed to list cells for shard status refresh" (topo_GetCellNames topo);
  poolers ← list_shard_poolers topo shardKey cellNames;
  Ok (foldl (fun statuses p =>
        match rpc_Status rpc p with
        | Err _ => statuses
        | Ok cs => <[ClusterIDString (mp_Id p) := cs]> statuses
        end) ∅ (order poolers)).

Fixpoint resolveCohort (topo : TopoStore) (cohortMembers : IDs) (addressByID : AddressByID)
    : result (AddressByID * list (option PoolerHealthState)) :=
  match cohortMembers with
  | [] => Ok (addressByID, [])
  | id :: rest =>
      mp ← wrap_result "failed to look up cohort member" (topo_GetMultipooler topo id);
      '(addressByID, cohort) ← resolveCohort topo rest (<[ClusterIDString id := PoolerAddressFor mp]> addressByID);
      Ok (addressByID, Some (mkPoolerHealthState mp None None None None None) :: cohort)
  end.

(** [p.ConsensusStatus = cs] for the poolers that answered. *)
Definition with_status (statuses : gmap string (option ConsensusStatus)) (p : option PoolerHealthState)
    : result (option PoolerHealthState) :=
  mp ← deref_Multipooler p;
  Ok (match statuses !! ClusterIDString (mp_Id mp) with
      | Some cs => (fun h => mkPoolerHealthState (phs_Multipooler h) (phs_LastSeen h) cs
                     (phs_LastPostgresReadyTime h) (phs_AvailabilityStatus h) (phs_Status h)) <$> p
      | None => p
      end).

Definition certified_change (reason_ : string) (cert : option ExternallyCertifiedRevocation)
    (proposal : option CoordinatorProposal) : coordinatorLedRuleChange :=
  {| reason := reason_;
     tryBuildProposal := fun _ _ statuses =>
       BuildExternallyCertifiedProposal cert statuses (fun _ => Ok proposal);
     checkProposalPossible := fun _ statuses =>
       CheckExternallyCertifiedProposalPossible cert statuses (fun _ => Ok proposal) |}.

Definition ApplyCertifiedRuleChange (topo : TopoStore) (rpc : MultipoolerClient)
    (dl : Delivery) (order : list Multipooler -> list Multipooler) (now : Z) (shardKey : option ShardKey)
    (proposedTransition : option RulePosition) (cert : option ExternallyCertifiedRevocation)
    (reason_ : string) : list Call * option gerror :=
  match validateCertifiedRuleChange shardKey proposedTransition cert with
  | Some e => ([], Some e)
  | None =>
      let prepared :=
        statusesByPoolerID ← refreshShardConsensusStatuses topo rpc order shardKey;
        '(addressByID, cohort) ← resolveCohort topo (GetCohortMembers (GetProposal proposedTransition)) ∅;
        cohort ← each (with_status statusesByPoolerID) cohort;
        match addressByID !! ClusterIDString (GetLeaderId (GetProposal proposedTransition)) with
        | None => Err (err "leader is not a member of the proposed cohort (should be unreachable)")
        | Some leaderAddr => Ok (leaderAddr, cohort)
        end in
      match prepared with
      | Err e => ([], Some e)
      | Ok (leaderAddr, cohort) =>
          let revocation := ecr_GetTermRevocation cert in
          let proposal := Some {|
            prop_TermRevocation := revocation;
            ProposalLeader := leaderAddr;
            ProposedTransition := proposedTransition;
            SkipOutgoingQuorum := true |} in
          Run (certified_change reason_ cert proposal) rpc dl now cohort revocation
      end
  end.

End runtime.
