(* ===== verification/CoordinatorSafety.v ===== *)
(** What the coordinator's rule changes guarantee: whatever the poolers answer and
    in whatever order the answers arrive. *)

From stdpp Require Import base strings list gmap.
From S2P Require Import Prelude ClusterMetadata Demo TopoId Ordering Compare Cohort.
From S2P Require Import Durability Revocation Proposals ProposalFacts ProposalSafety.
From S2P Require Import Backoff Health FailoverBackoff LeaderFitness RuleChange Coordinator.

Local Open Scope Z_scope.

(** ** The maps of a cohort *)

Lemma buildCohortMaps_Ok cohort addr health k a :
  buildCohortMaps cohort = Ok (addr, health) -> addr !! k = Some a ->
  exists p mp, p ∈ cohort /\ GetMultipooler p = Some mp /\ ClusterIDString (mp_Id mp) = k /\
    a = PoolerAddressFor (Some mp).
Proof.
  revert addr health k a. unfold buildCohortMaps.
  induction cohort as [|x cohort IH] using rev_ind; intros addr health k a H Hk; cbn in H.
  { injection H as <- <-. by rewrite lookup_empty in Hk. }
  rewrite foldl_app in H. cbn [foldl] in H.
  destruct (foldl _ _ cohort) as [[ad he]|] eqn:Hf; cbn in H; [|done].
  unfold deref_Multipooler in H. destruct (GetMultipooler x) as [mp|] eqn:Hm; cbn in H; [|done].
  injection H as <- <-. destruct (decide (ClusterIDString (mp_Id mp) = k)) as [<-|Hne].
  - rewrite lookup_insert_eq in Hk. injection Hk as <-. exists x, mp. split_and!; [set_solver|done..].
  - rewrite lookup_insert_ne in Hk by done.
    destruct (IH _ _ _ _ eq_refl Hk) as (p & m & ? & ?). exists p, m. split; [set_solver|done].
Qed.

Lemma selectFittestLeader_elem candidates health draw cs :
  selectFittestLeader candidates health draw = Some cs -> Some cs ∈ candidates.
Proof.
  unfold selectFittestLeader. destruct candidates as [|c rest]; [done|].
  destruct (len (c :: rest) =? 0); [done|]. cbn zeta.
  destruct (_ !! _) as [x|] eqn:Hx; cbn; [|done]. intros ->.
  apply list_elem_of_lookup_2 in Hx. by apply (tied_spec health c rest) in Hx as [? _].
Qed.

(** ** The failover's proposal *)

Lemma failoverCandidates_Ok r candidates cs :
  failoverCandidates r = Ok candidates -> cs ∈ candidates ->
  cs ∈ EligibleLeaders r /\ status_key cs ∈ map ClusterIDString (GetCohortMembers (rr_OutgoingRule r)).
Proof.
  unfold failoverCandidates. intros H Hcs. destruct (len (EligibleLeaders r) =? 0); [done|].
  destruct (_ =? 0); [done|]. inv_ok. by apply list_elem_of_filter in Hcs as [? ?].
Qed.

(** The rule a failover proposes: the outgoing rule with another leader, at the
    revocation's term. *)
Definition failover_rule (outgoing : option ShardRule) (rev : option TermRevocation)
    (leader : option ConsensusStatus) (rule : option ShardRule) : Prop :=
  GetRuleNumber rule = Some (mkRuleNumber (GetRevokedBelowTerm rev) 0) /\
  GetLeaderId rule = GetId leader /\
  GetCohortMembers rule = GetCohortMembers outgoing /\
  GetDurabilityPolicy rule = GetDurabilityPolicy outgoing /\
  GetCoordinatorId rule = GetAcceptedCoordinatorId rev /\
  is_Some (GetCreationTime rule).

Lemma failover_builder_Ok cohort addr health dr k r p :
  buildCohortMaps cohort = Ok (addr, health) ->
  failover_builder addr health dr k r = Ok p ->
  exists leader mp h, leader ∈ EligibleLeaders r /\
    status_key leader ∈ map ClusterIDString (GetCohortMembers (rr_OutgoingRule r)) /\
    h ∈ cohort /\ GetMultipooler h = Some mp /\ ClusterIDString (mp_Id mp) = status_key leader /\
    pa_GetId (GetProposalLeader p) = mp_Id mp /\
    GetDecision (GetProposedTransition p) = rr_OutgoingRule r /\
    failover_rule (rr_OutgoingRule r) (rr_TermRevocation r) leader
      (GetProposal (GetProposedTransition p)).
Proof.
  unfold failover_builder. intros Hmaps H. inv_ok. rename a into candidates.
  unfold buildFailoverProposal in H.
  destruct (rr_OutgoingRule r) as [out|] eqn:Hout; [|done].
  destruct (selectFittestLeader candidates health (rng dr k)) as [leader|] eqn:Hsel; [|done].
  destruct (addr !! _) as [a|] eqn:Ha; [|done]. inv_ok.
  apply selectFittestLeader_elem in Hsel.
  destruct (failoverCandidates_Ok _ _ _ Hbind Hsel) as [He Hk]. rewrite Hout in Hk.
  destruct (buildCohortMaps_Ok _ _ _ _ _ Hmaps Ha) as (h & mp & ? & ? & ? & ->).
  exists (Some leader), mp, h. by repeat split.
Qed.

Section safety.
  Context `{R : Runtime} `{!RuntimeLaws R}.
  Context (c : Coordinator) (rpc : MultipoolerClient) (dl : Delivery) `{!FairDelivery dl} (dr : Draws)
    (at_ : Timestamp) (now : Z).

(** A member a failover recruits. *)
Definition failover_member (cohort : list (option PoolerHealthState)) (mp : Multipooler) : Prop :=
  exists p, p ∈ cohort /\ PoolerIsCohortIneligible (GetAvailabilityStatus p) = false /\
    GetMultipooler p = Some mp.

(** A status answered to a Recruit of this revocation by a recruited member. *)
Definition recruit_answer (cohort : list (option PoolerHealthState)) (rev : option TermRevocation)
    (cs : option ConsensusStatus) : Prop :=
  exists mp, failover_member cohort mp /\ rpc_Recruit rpc mp rev = Ok cs.

(** What a failover that reached the promotion phase went through. *)
Record failover_promoted (cohort : list (option PoolerHealthState)) (calls : list Call) (e : option gerror)
    (rev : TermRevocation) (poolers : list Multipooler) (statuses : Statuses)
    (leader : option ConsensusStatus) (req : PromoteRequest) : Prop := {
  fp_revocation : NewTermRevocation (eligibleConsensusStatuses cohort) (coordinatorID c) (Some at_)
    DefaultBackoffResetDuration = Ok rev;
  fp_members : forall mp, mp ∈ poolers <-> failover_member cohort mp;
  fp_answers : forall cs, cs ∈ statuses -> recruit_answer cohort (Some rev) cs;
  fp_leader : leader ∈ round_recruits (Some rev) statuses /\
    (forall other, other ∈ round_recruits (Some rev) statuses ->
       ComparePoolerPosition (GetCurrentPosition other) (GetCurrentPosition leader) <= 0) /\
    holds_durable_writes (Some rev) statuses leader;
  fp_rule : let outgoing := PossiblyUndecidedRule (status_position leader) in
    GetDecision (GetProposedTransition (pr_Proposal req)) = outgoing /\
    status_key leader ∈ map ClusterIDString (GetCohortMembers outgoing) /\
    failover_rule outgoing (Some rev) leader (GetProposal (GetProposedTransition (pr_Proposal req)));
  fp_target : exists mp, mp ∈ poolers /\ ClusterIDString (mp_Id mp) = status_key leader;
  fp_calls : calls = map (fun p => CallRecruit p (Some rev)) poolers ++
    map (fun p => promote_call p req (is_leader_key (status_key leader) p)) poolers;
  fp_outcome : e = None <-> forall p, p ∈ poolers -> is_leader_key (status_key leader) p = true ->
    rpc_Promote rpc p req = None
}.

Lemma cohort_poolers_members cohort poolers mp :
  cohort_poolers (fst (filterCohortIneligible cohort)) poolers ->
  mp ∈ poolers <-> failover_member cohort mp.
Proof.
  intros H. split.
  - intros [i Hi]%list_elem_of_lookup.
    destruct (Forall2_lookup_r _ _ _ _ _ H Hi) as (p & Hp & Hm & _).
    apply list_elem_of_lookup_2, elem_of_eligible in Hp as [? ?]. exists p. done.
  - intros (p & Hp & Hel & Hm).
    assert (p ∈ fst (filterCohortIneligible cohort)) as [i Hi]%list_elem_of_lookup by (by apply elem_of_eligible).
    destruct (Forall2_lookup_l _ _ _ _ _ H Hi) as (mp' & Hmp & Hm' & _).
    rewrite Hm in Hm'. injection Hm' as ->. by apply list_elem_of_lookup_2 in Hmp.
Qed.

Lemma runFailover_cases cohort reason_ calls e :
  runFailover c rpc dl dr at_ now cohort reason_ = (calls, e) ->
  (e <> None /\ forall call, call ∈ calls -> exists p rev, call = CallRecruit p rev) \/
  exists rev poolers statuses leader req,
    failover_promoted cohort calls e rev poolers statuses leader req.
Proof.
  unfold runFailover. intros H. destruct (filterCohortIneligible cohort) as [eligible ineligible] eqn:Hf.
  assert (eligible = fst (filterCohortIneligible cohort)) as Hel by (by rewrite Hf).
  destruct (len eligible =? 0); [left; injection H as <- <-; split; [done|]; by intros ? ?%elem_of_nil|].
  destruct (NewTermRevocation _ _ _ _) as [rev|] eqn:Hrev;
    [|left; injection H as <- <-; split; [done|]; by intros ? ?%elem_of_nil].
  destruct (buildCohortMaps eligible) as [[addr health]|] eqn:Hmaps;
    [|left; injection H as <- <-; split; [done|]; by intros ? ?%elem_of_nil].
  destruct (Run _ _ _ _ _ _) as [calls' e'] eqn:Hrun. injection H as <- <-.
  assert (forall P : Prop, (e' = None <-> P) ->
    (if bool_decide (ineligible = []) then e' else wrap_err "failover excluded ineligible members %v" e') = None
    <-> P) as Hout.
  { intros P HP. case_bool_decide; [done|]. unfold wrap_err. by rewrite fmap_None. }
  apply Run_cases in Hrun as [[He Hc]|(poolers & n & statuses & req & Hp)]; [left|right|done].
  { split; [by rewrite (Hout (e' = None))|]. intros call Hin. destruct (Hc call Hin). eauto. }
  pose proof (run_built _ _ _ _ _ _ _ _ _ _ _ _ Hp) as Hb. cbn in Hb.
  apply BuildSafeProposal_leader in Hb as (pos & leaders & _ & Hcore & Hbuild & _).
  destruct (failover_builder_Ok _ _ _ _ _ _ _ Hmaps Hbuild)
    as (leader & mp & h & Hlead & Hmem & Hh & Hmp & Hkey & Haddr & Hdec & Hrule).
  destruct (eligible_leader _ _ _ _ _ _ Hcore Hlead) as (Hrec & Hpos & Hdom & Hdur).
  pose proof (run_poolers _ _ _ _ _ _ _ _ _ _ _ _ Hp) as Hpool. rewrite Hel in Hpool.
  exists rev, poolers, statuses, leader, req. constructor; try done.
  - by rewrite <- Hrev, Hel.
  - intros m. by apply cohort_poolers_members.
  - intros cs Hcs. destruct (run_answers _ _ _ _ _ _ _ _ _ _ _ _ Hp cs Hcs) as (_ & m & Hm & Ha).
    exists m. split; [|done]. by eapply cohort_poolers_members.
  - rewrite Hpos. done.
  - exists mp. split; [|done]. eapply cohort_poolers_members; [done|].
    rewrite Hel in Hh. apply elem_of_eligible in Hh as [? ?]. exists h. done.
  - rewrite <- Hkey, <- Haddr. apply Hp.
  - apply Hout. rewrite <- Hkey, <- Haddr. apply Hp.
Qed.

Lemma elem_of_promotes poolers req key call :
  call ∈ map (fun p => promote_call p req (is_leader_key key p)) poolers <->
  exists p, p ∈ poolers /\
    call = if is_leader_key key p then CallPromote p req
           else CallSetPrimary p (ReplicationPrimaryFromProposal (pr_Proposal req) false).
Proof.
  change (map ?f ?l) with (f <$> l). rewrite list_elem_of_fmap. unfold promote_call. naive_solver.
Qed.

(** The calls of a failover: a Promote is one of the second phase's. *)
Lemma promote_of_failover cohort calls e rev poolers statuses leader req mp req' :
  failover_promoted cohort calls e rev poolers statuses leader req ->
  CallPromote mp req' ∈ calls ->
  req' = req /\ mp ∈ poolers /\ ClusterIDString (mp_Id mp) = status_key leader.
Proof.
  intros Hf Hin. rewrite (fp_calls _ _ _ _ _ _ _ _ Hf) in Hin.
  apply elem_of_app in Hin as [(? & ? & _)%list_elem_of_fmap|(p & Hp & Heq)%elem_of_promotes]; [done|].
  destruct (is_leader_key (status_key leader) p) eqn:Hk; [|done]. injection Heq as -> ->.
  by apply String.eqb_eq in Hk.
Qed.

(** C2: A failover promotes a leader that has everything.  Whatever the poolers
    answer and in whatever order, a Promote a failover sends goes to an eligible
    cohort member that accepted the round's revocation, that no recruit of the
    round is ahead of, that holds every write durable under its own decision, and
    that belongs to the outgoing cohort; the rule it carries is the outgoing rule
    with that leader, at the term of the revocation. *)
Theorem failover_promotes_safe_leader cohort reason_ calls e mp req :
  runFailover c rpc dl dr at_ now cohort reason_ = (calls, e) -> CallPromote mp req ∈ calls ->
  exists rev statuses leader,
    NewTermRevocation (eligibleConsensusStatuses cohort) (coordinatorID c) (Some at_)
      DefaultBackoffResetDuration = Ok rev /\
    failover_member cohort mp /\ ClusterIDString (mp_Id mp) = status_key leader /\
    (forall cs, cs ∈ statuses -> recruit_answer cohort (Some rev) cs) /\
    leader ∈ round_recruits (Some rev) statuses /\
    (forall other, other ∈ round_recruits (Some rev) statuses ->
       ComparePoolerPosition (GetCurrentPosition other) (GetCurrentPosition leader) <= 0) /\
    holds_durable_writes (Some rev) statuses leader /\
    let outgoing := PossiblyUndecidedRule (status_position leader) in
    let transition := GetProposedTransition (pr_Proposal req) in
    GetDecision transition = outgoing /\
    status_key leader ∈ map ClusterIDString (GetCohortMembers outgoing) /\
    failover_rule outgoing (Some rev) leader (GetProposal transition).
Proof.
  intros [[_ Hr]|(rev & poolers & statuses & leader & req' & Hf)]%runFailover_cases Hin.
  { by destruct (Hr _ Hin) as (? & ? & ?). }
  destruct (promote_of_failover _ _ _ _ _ _ _ _ _ _ Hf Hin) as (-> & Hmp & Hk).
  pose proof (fp_leader _ _ _ _ _ _ _ _ Hf) as (? & ? & ?).
  pose proof (fp_rule _ _ _ _ _ _ _ _ Hf) as (? & ? & ?).
  exists rev, statuses, leader. split_and!; try done.
  - apply (fp_revocation _ _ _ _ _ _ _ _ Hf).
  - by apply (fp_members _ _ _ _ _ _ _ _ Hf).
  - apply (fp_answers _ _ _ _ _ _ _ _ Hf).
Qed.

(** A failover that reports success has a promoted leader: some eligible
    member was sent Promote and accepted it, no other pooler key was sent one, all
    carried the same request, and every other recruited member was sent SetPrimary
    towards that leader's position. *)
Theorem failover_success_means_promoted cohort reason_ calls :
  runFailover c rpc dl dr at_ now cohort reason_ = (calls, None) ->
  exists mp req, CallPromote mp req ∈ calls /\ rpc_Promote rpc mp req = None /\
    (forall mp' req', CallPromote mp' req' ∈ calls ->
       req' = req /\ ClusterIDString (mp_Id mp') = ClusterIDString (mp_Id mp)) /\
    forall mp', failover_member cohort mp' -> ClusterIDString (mp_Id mp') <> ClusterIDString (mp_Id mp) ->
      CallSetPrimary mp' (ReplicationPrimaryFromProposal (pr_Proposal req) false) ∈ calls.
Proof.
  intros [[He _]|(rev & poolers & statuses & leader & req & Hf)]%runFailover_cases; [done|].
  destruct (fp_target _ _ _ _ _ _ _ _ Hf) as (mp & Hmp & Hk).
  assert (is_leader_key (status_key leader) mp = true) as Hlead by (by apply String.eqb_eq).
  pose proof (fp_calls _ _ _ _ _ _ _ _ Hf) as Hc.
  exists mp, req. split_and!.
  - rewrite Hc. apply elem_of_app. right. apply elem_of_promotes. exists mp. by rewrite Hlead.
  - by apply (fp_outcome _ _ _ _ _ _ _ _ Hf).
  - intros mp' req' Hin. destruct (promote_of_failover _ _ _ _ _ _ _ _ _ _ Hf Hin) as (-> & _ & ->). done.
  - intros mp' Hm Hne. rewrite Hc. apply elem_of_app. right. apply elem_of_promotes.
    exists mp'. split; [by apply (fp_members _ _ _ _ _ _ _ _ Hf)|].
    unfold is_leader_key. by rewrite (proj2 (String.eqb_neq _ _)) by congruence.
Qed.

End safety.

(** ** Certified changes *)

Section certified.
  Context `{R : Runtime} `{!RuntimeLaws R}.
  Context (topo : TopoStore) (rpc : MultipoolerClient) (dl : Delivery) `{!FairDelivery dl}
    (order : list Multipooler -> list Multipooler) (now : Z).

Lemma resolveCohort_Ok members addr0 addr cohort k a :
  resolveCohort topo members addr0 = Ok (addr, cohort) -> addr !! k = Some a ->
  addr0 !! k = Some a \/
  exists id mp, id ∈ members /\ k = ClusterIDString id /\ topo_GetMultipooler topo id = Ok mp /\
    a = PoolerAddressFor mp.
Proof.
  revert addr0 cohort. induction members as [|id members IH]; intros addr0 cohort H Ha; cbn in H; inv_ok.
  { by left. }
  destruct a1 as [addr1 cohort1]. inv_ok.
  destruct (IH _ _ Hbind0 Ha) as [Hk|(id' & mp & ? & ?)].
  - destruct (decide (ClusterIDString id = k)) as [<-|Hne].
    + rewrite lookup_insert_eq in Hk. injection Hk as <-. right. exists id, a0.
      split_and!; [by left|done|by destruct (topo_GetMultipooler topo id); inv_ok|done].
    + rewrite lookup_insert_ne in Hk by done. by left.
  - right. exists id', mp. split; [by right|done].
Qed.

Lemma validateCertifiedRuleChange_None sk transition cert_ :
  validateCertifiedRuleChange sk transition cert_ = None ->
  let rule := GetProposal transition in
  let rev := ecr_GetTermRevocation cert_ in
  is_Some (GetLeaderId rule) /\ is_Some (GetCoordinatorId rule) /\ is_Some (GetCreationTime rule) /\
  0 < GetRevokedBelowTerm rev /\ GetCoordinatorTerm (GetOutgoingRule rev) < GetRevokedBelowTerm rev /\
  GetCoordinatorTerm (GetRuleNumber rule) = GetRevokedBelowTerm rev /\
  ClusterIDString (GetLeaderId rule) ∈ map ClusterIDString (GetCohortMembers rule).
Proof.
  intros H rule rev. unfold validateCertifiedRuleChange in H. fold rule rev in H.
  destruct (_ || _); [done|]. destruct cert_ as [x|]; [|split_ifs; done].
  split_ifs; try done. reflect_bools.
  rewrite !is_Some_alt. repeat match goal with H : ?x <> None |- _ => destruct x eqn:?; [clear H|done] end.
  split_and!; try done; try lia.
  match goal with H : existsb _ _ = true |- _ => apply existsb_exists in H as (id & Hid & Heq) end.
  apply String.eqb_eq in Heq. rewrite <- Heq. apply list_elem_of_fmap. exists id.
  split; [done|]. by apply list_elem_of_In.
Qed.

(** C36: A certified change does what the operator asked and no more.  A Promote it
    sends carries exactly the certified transition and revocation and goes to the
    pooler that the topology records for the leader the transition names, a member
    of its cohort.  The request lists the nodes it was built from: the statuses
    that had arrived by then of all the Recruits sent, in order of arrival and
    none left out; that leader is among those that accepted the revocation, at or
    beyond the frozen position, and no other of them is ahead of it. *)
Theorem certified_change_promotes_named_leader sk transition cert_ reason_ calls e mp req :
  ApplyCertifiedRuleChange topo rpc dl order now sk transition cert_ reason_ = (calls, e) ->
  CallPromote mp req ∈ calls ->
  let rule := GetProposal transition in
  let rev := ecr_GetTermRevocation cert_ in
  GetProposedTransition (pr_Proposal req) = transition /\
  prop_GetTermRevocation (pr_Proposal req) = rev /\
  (exists id rec, id ∈ GetCohortMembers rule /\ ClusterIDString id = ClusterIDString (GetLeaderId rule) /\
     topo_GetMultipooler topo id = Ok (Some rec) /\ ClusterIDString (mp_Id mp) = ClusterIDString (mp_Id rec)) /\
  GetCoordinatorTerm (GetRuleNumber rule) = GetRevokedBelowTerm rev /\
  GetCoordinatorTerm (GetOutgoingRule rev) < GetRevokedBelowTerm rev /\
  exists poolers k leader lsn frozen,
    let statuses := answered_statuses (take k (snd (dispatchRecruit rpc dl poolers rev))) in
    map (fun p => CallRecruit p rev) poolers `prefix_of` calls /\
    (forall p, CallRecruit p rev ∈ calls -> p ∈ poolers) /\
    pr_AcceptedNodeIds req = map GetId statuses /\
    leader ∈ round_recruits rev statuses /\ status_key leader = ClusterIDString (mp_Id mp) /\
    at_lsn lsn leader /\ ParseLSN (GetFrozenLsn cert_) = Some frozen /\ frozen <= lsn /\
    forall other, other ∈ round_recruits rev statuses ->
      ComparePoolerPosition (GetCurrentPosition other) (GetCurrentPosition leader) <= 0.
Proof.
  intros H Hin rule rev. unfold ApplyCertifiedRuleChange in H.
  destruct (validateCertifiedRuleChange _ _ _) eqn:Hv.
  { injection H as <- <-. by apply elem_of_nil in Hin. }
  apply validateCertifiedRuleChange_None in Hv as ([lid Hlid] & _ & _ & _ & Hgt & Hterm & Hmem).
  fold rule rev in Hlid, Hgt, Hterm, Hmem.
  match goal with H : match ?x with Ok _ => _ | Err _ => _ end = _ |- _ => destruct x as [[la cohort]|] eqn:Hprep end.
  2: { injection H as <- <-. by apply elem_of_nil in Hin. }
  inv_ok. destruct a0 as [addr cohort0]. inv_ok. fold rule in Hbind0, Hprep.
  destruct (addr !! _) as [x|] eqn:Haddr; [|done]. inv_ok. fold rev in H.
  apply Run_cases in H as [[_ Hc]|(poolers & n & statuses & req' & Hp)]; [| |done].
  { by destruct (Hc _ Hin). }
  pose proof (run_built _ _ _ _ _ _ _ _ _ _ _ _ Hp) as Hb. cbn [certified_change tryBuildProposal] in Hb.
  destruct (certified_leader _ _ _ _ Hb) as (basis & pos & leaders & leader & lsn & Hcert & _ & Hbuild & _ &
    Hkey & Hrec & _ & Hat & Hle & Hdom). fold rev in Hrec, Hdom.
  injection Hbuild as Hprop. rewrite <- Hprop in Hkey. cbn in Hkey.
  apply newCertBasis_Ok in Hcert as (_ & _ & Hlsn).
  assert (exists id rec, id ∈ GetCohortMembers rule /\ ClusterIDString id = ClusterIDString (GetLeaderId rule) /\
    topo_GetMultipooler topo id = Ok (Some rec) /\ status_key leader = ClusterIDString (mp_Id rec)) as Hlead.
  { destruct (resolveCohort_Ok _ _ _ _ _ _ Hbind0 Haddr) as [?%lookup_empty_Some|(id & m & Hid & Heq & Hm & ->)];
      [done|]. destruct m as [m|]; cbn in *; [by exists id, m|].
    pose proof (elem_of_round_recruits _ _ _ Hrec) as (_ & _ & Hne). by apply ClusterIDString_nonempty in Hkey. }
  pose proof (run_calls _ _ _ _ _ _ _ _ _ _ _ _ Hp) as Hcalls. rewrite <- Hprop in Hcalls.
  destruct (run_arrivals _ _ _ _ _ _ _ _ _ _ _ _ Hp) as [k ->].
  pose proof Hin as Hin'. rewrite Hcalls in Hin.
  apply elem_of_app in Hin as [(? & ? & _)%list_elem_of_fmap|(p & Hpin & Heq)%elem_of_promotes]; [done|].
  cbn in Heq. rewrite <- Hkey in Heq.
  destruct (is_leader_key (status_key leader) p) eqn:Hk; [|done]. injection Heq as -> ->.
  apply String.eqb_eq in Hk. rewrite <- Hprop. split_and!; try done; [by rewrite Hk|].
  exists poolers, k, leader, lsn, (basis_floor basis). cbv zeta. split_and!; try done.
  - rewrite Hcalls. by apply prefix_app_r.
  - intros q. rewrite Hcalls.
    intros [(? & [= <-] & ?)%list_elem_of_fmap|(p' & _ & Hc)%elem_of_promotes]%elem_of_app; [done|].
    by destruct (is_leader_key _ p').
  - apply (run_request _ _ _ _ _ _ _ _ _ _ _ _ Hp).
Qed.

End certified.

(** ** A round of three poolers *)

Definition in_order : Delivery := mkDelivery (fun l => l) (fun l => l).

#[export] Instance in_order_fair : FairDelivery in_order.
Proof. by split. Qed.

Definition reversed : Delivery := mkDelivery (@rev _) (@rev _).

#[export] Instance reversed_fair : FairDelivery reversed.
Proof. split; intros; cbn; by rewrite <- Permutation_rev. Qed.

Definition demo_draws : Draws := mkDraws (fun _ _ => 0) (fun _ => mkTimestamp 300 0).

Definition demo_mp (id : option ID) : Multipooler := mkMultipooler id (GetName id) {["postgres" := 5432]}.

(** [p1] leads rule 1; [p2] and [p3] follow, [p2] further ahead. *)
Definition demo_lsn (id : option ID) : string := if decide (id = p2) then "0/18" else "0/10".

Definition demo_member (id : option ID) : option PoolerHealthState :=
  let r1 := demo_rule 1 p1 [p1; p2; p3] (at_least 2) in
  Some (mkPoolerHealthState (Some (demo_mp id)) (ts 200)
    (demo_status id None (decided r1) (demo_lsn id)) None None
    (Some (mkStatus None None true true POSTGRES_STATUS_STANDBY true 0))).

(** [p1] is unreachable, the others accept. *)
Definition demo_client : MultipoolerClient := {|
  rpc_Recruit := fun mp rev =>
    if decide (mp_Id mp = p1) then Err (err "unreachable")
    else Ok (demo_status (mp_Id mp) rev (decided (demo_rule 1 p1 [p1; p2; p3] (at_least 2))) (demo_lsn (mp_Id mp)));
  rpc_Promote := fun mp _ => if decide (mp_Id mp = p1) then Some (err "unreachable") else None;
  rpc_SetPrimary := fun mp _ => if decide (mp_Id mp = p1) then Some (err "unreachable") else None;
  rpc_Status := fun _ => Err (err "unused") |}.

Definition demo_failover (dl : Delivery) : list Call * option gerror :=
  runFailover (NewCoordinator orch1) demo_client dl demo_draws (mkTimestamp 300 0) (300 * second)
    [demo_member p1; demo_member p2; demo_member p3] "LeaderUnreachableByCohort".

Lemma failover_promotes_safe_leader_witness :
  exists mp req rev leader, CallPromote mp req ∈ fst (demo_failover reversed) /\ mp_Id mp = p2 /\
    GetRuleNumber (GetProposal (GetProposedTransition (pr_Proposal req))) = Some (mkRuleNumber rev 0) /\
    ClusterIDString (mp_Id mp) = status_key leader.
Proof.
  assert (exists req, nth_error (fst (demo_failover reversed)) 4 = Some (CallPromote (demo_mp p2) req)) as [req Hreq]
    by (eexists; vm_compute; reflexivity).
  assert (CallPromote (demo_mp p2) req ∈ fst (demo_failover reversed)) as Hin
    by (apply list_elem_of_In; by eapply nth_error_In).
  destruct (failover_promotes_safe_leader (NewCoordinator orch1) demo_client reversed demo_draws
    (mkTimestamp 300 0) (300 * second) _ _ _ _ _ _ (surjective_pairing (demo_failover reversed)) Hin)
    as (rev & statuses & leader & _ & _ & Hk & _ & _ & _ & _ & _ & _ & Hn & _).
  exists (demo_mp p2), req, (RevokedBelowTerm rev), leader. exact (conj Hin (conj eq_refl (conj Hn Hk))).
Defined.

Lemma failover_success_means_promoted_witness :
  exists mp req, CallPromote mp req ∈ fst (demo_failover in_order) /\ rpc_Promote demo_client mp req = None.
Proof.
  assert (demo_failover in_order = (fst (demo_failover in_order), None)) as Hd by (vm_compute; reflexivity).
  destruct (failover_success_means_promoted (NewCoordinator orch1) demo_client in_order demo_draws
    (mkTimestamp 300 0) (300 * second) _ _ _ Hd) as (mp & req & H1 & H2 & _).
  exists mp, req. exact (conj H1 H2).
Defined.

(** ** A certified change *)

Definition demo_topo : TopoStore := {|
  topo_GetDatabase := fun _ => Ok (at_least 2);
  topo_GetCellNames := Ok ["zone1"; "zone2"; "zone3"];
  topo_GetMultipoolersByCell := fun cell _ =>
    Ok (if String.eqb cell "zone2" then [Some (demo_mp p2)] else [Some (demo_mp p3)]);
  topo_GetMultipooler := fun id => Ok (Some (demo_mp id)) |}.

(** The client of the certified round also answers status probes. *)
Definition demo_certified_client : MultipoolerClient :=
  mkMultipoolerClient (rpc_Recruit demo_client) (rpc_Promote demo_client) (rpc_SetPrimary demo_client)
    (fun mp => Ok (demo_status (mp_Id mp) None (decided (demo_rule 1 p1 [p1; p2; p3] (at_least 2)))
                     (demo_lsn (mp_Id mp)))).

Definition demo_transition : option RulePosition :=
  Some (mkRulePosition (demo_rule 1 p1 [p1; p2; p3] (at_least 2)) (demo_rule 2 p2 [p2; p3] (at_least 2))).

Definition demo_certified : list Call * option gerror :=
  ApplyCertifiedRuleChange demo_topo demo_certified_client reversed (fun l => l) (300 * second)
    (Some (mkShardKey "db" "default" "0-inf")) demo_transition demo_cert "operator".

Lemma certified_change_promotes_named_leader_witness :
  exists mp req, CallPromote mp req ∈ fst demo_certified /\
    ClusterIDString (mp_Id mp) = ClusterIDString p2 /\ GetProposedTransition (pr_Proposal req) = demo_transition.
Proof.
  assert (exists req, nth_error (fst demo_certified) 2 = Some (CallPromote (demo_mp p2) req)) as [req Hreq]
    by (eexists; vm_compute; reflexivity).
  assert (CallPromote (demo_mp p2) req ∈ fst demo_certified) as Hin
    by (apply list_elem_of_In; by eapply nth_error_In).
  destruct (certified_change_promotes_named_leader demo_topo demo_certified_client reversed (fun l => l)
    (300 * second) _ _ _ _ _ _ _ _ (surjective_pairing demo_certified) Hin) as (Ht & _ & _).
  exists (demo_mp p2), req. exact (conj Hin (conj eq_refl Ht)).
Defined.
