(* ===== verification/Snapshot.v ===== *)
(** What the orchestrator's analyzers judge: go/services/multiorch/internal/snapshot
    (the shard snapshot and its thresholds), recovery/types/types.go (problems),
    recovery/analysis/analyzer_helpers.go and availability_policy.go. *)

From stdpp Require Import base strings list gmap.
From S2P Require Import Prelude ClusterMetadata TopoId Compare Cohort Revocation.
From S2P Require Import Backoff Health FailoverBackoff LeaderFitness.

Local Open Scope Z_scope.

Record AvailabilityPolicy := mkAvailabilityPolicy {
  LeaderLivenessFreshness : Z;
  FollowerStreamFreshness : Z;
  LeaderChangeFreshness : Z;
  ConnectReplicasToNewLeaderGrace : Z;
  ObservationFreshness : Z;
  QuorumCommitStaleAfter : Z;
  PreRecheckRefreshTimeout : Z
}.

Definition DefaultObservationFreshness : Z := 15 * second.
Definition DefaultLeaderWriteFreshness : Z := 15 * second.

Definition DefaultAvailabilityPolicy : AvailabilityPolicy := {|
  LeaderLivenessFreshness := 15 * second;
  FollowerStreamFreshness := 15 * second;
  LeaderChangeFreshness := DefaultLeaderWriteFreshness;
  ConnectReplicasToNewLeaderGrace := 10 * second;
  ObservationFreshness := DefaultObservationFreshness;
  QuorumCommitStaleAfter := DefaultQuorumCommitStaleAfter;
  PreRecheckRefreshTimeout := 5 * second |}.

(** The snapshot of a shard; a set of component IDs is a list. *)
Record Shard := mkShard {
  Poolers : list (option PoolerHealthState);
  Now : Z;
  AvailabilityPolicy_ : AvailabilityPolicy;
  TombstoneIDs : list string;
  BootstrapDurabilityPolicy : option DurabilityPolicyMsg
}.

Definition HighestIntendedRule (sa : Shard) : option RulePosition :=
  HighestKnownRule (consensusStatusesOf (Poolers sa)).

Definition IntendedLeaderID (sa : Shard) : option ID :=
  GetLeaderId (PossiblyUndecidedRule (HighestIntendedRule sa)).

(** ** Problems *)

Inductive ProblemCode :=
| ProblemShardNeedsInitialization
| ProblemLeaderUnspecified
| ProblemLeaderUnreachableByCohort
| ProblemLeaderUnhealthy
| ProblemLeaderResigned
| ProblemLeaderQuorumWritesStalled
| ProblemReplicaNotReplicating
| ProblemReplicaRecruitAbandoned
| ProblemReplicaWrongPrimary
| ProblemReplicaLagging
| ProblemReplicaMisconfigured
| ProblemReplicaIsWritable
| ProblemStaleLeader
| ProblemPoolerNotInCohort
| ProblemCohortMemberIneligible
| ProblemShardAtRisk
| ProblemShardStuck
| ProblemNoHealthyCohortMembers
| ProblemLeaderHealthUnknown.

#[export] Instance ProblemCode_eq_dec : EqDecision ProblemCode.
Proof. solve_decision. Defined.

Definition IsFailoverProblem (c : ProblemCode) : bool :=
  bool_decide (c = ProblemLeaderUnspecified) ||
  bool_decide (c = ProblemLeaderUnreachableByCohort) ||
  bool_decide (c = ProblemLeaderUnhealthy) ||
  bool_decide (c = ProblemLeaderResigned) ||
  bool_decide (c = ProblemLeaderQuorumWritesStalled).

Definition PriorityShardBootstrap : Z := 10000.
Definition PriorityEmergency : Z := 1000.
Definition PriorityHigh : Z := 500.
Definition PriorityNormal : Z := 100.

Inductive ProblemScope := ScopeShard | ScopePooler.

(** The action a problem asks for, by the constructor of action_factory.go. *)
Inductive RecoveryAction :=
| ShardInitAction
| AppointLeaderAction
| FixReplicationAction
| DemoteStaleLeaderAction
| ReconcileCohortAction
| ReconnectRecruitAbandonedAction
| AlertOnlyAction.

(** The description, the shard key and the detection time are not kept. *)
Record Problem := mkProblem {
  Code : ProblemCode;
  CheckName : string;
  PoolerID : option ID;
  Priority : Z;
  Scope : ProblemScope;
  RecoveryAction_ : RecoveryAction;
  SkipPreRecheckRefresh : bool
}.

Definition IsShardWide (p : Problem) : bool :=
  match Scope p with ScopeShard => true | ScopePooler => false end.

(** ** Helpers *)

Definition leaderEndpoint (leader : option PoolerHealthState) : string * Z :=
  (GetHostname (GetMultipooler leader), postgres_port (GetMultipooler leader)).

Definition poolerID (p : option PoolerHealthState) : option ID := mp_GetId (GetMultipooler p).

Definition walReplayNotPaused (p : option PoolerHealthState) : bool :=
  match GetReplicationStatus (GetStatus p) with
  | None => false
  | Some rs => negb (IsWalReplayPaused rs)
  end.

Definition primaryConnInfoHost (p : option PoolerHealthState) : string :=
  ci_GetHost (GetPrimaryConnInfo (GetReplicationStatus (GetStatus p))).

Definition walReceiverActive (p : option PoolerHealthState) : bool :=
  match GetReplicationStatus (GetStatus p) with
  | None => false
  | Some rs => String.eqb (WalReceiverStatus rs) "streaming" || String.eqb (WalReceiverStatus rs) "waiting"
  end.

Definition walReceiverStreaming (p : option PoolerHealthState) : bool :=
  match GetReplicationStatus (GetStatus p) with
  | None => false
  | Some rs =>
      if String.eqb (WalReceiverStatus rs) "waiting" then true
      else if String.eqb (WalReceiverStatus rs) "streaming" then negb (String.eqb (LastReceiveLsn rs) "")
      else false
  end.

Definition compareLeaderTimeline (a b : option PoolerHealthState) : Z :=
  CompareRulePosition (pp_GetPosition (GetCurrentPosition (GetConsensusStatus a)))
                      (pp_GetPosition (GetCurrentPosition (GetConsensusStatus b))).

(** [analyzeAllPoolers]: every problem found, and the first error. *)
Definition analyzeAllPoolers (sa : Shard)
    (fn : Shard -> option PoolerHealthState -> result (option Problem)) : list Problem * option gerror :=
  foldl (fun '(problems, firstErr) pa =>
    match fn sa pa with
    | Err e => (problems, if bool_decide (firstErr = None) then Some e else firstErr)
    | Ok None => (problems, firstErr)
    | Ok (Some p) => (problems ++ [p], firstErr)
    end) ([], None) (Poolers sa).

Section runtime.
  Context `{R : Runtime}.

(** The first pooler with this very ID. *)
Definition PoolerHealth (sa : Shard) (id : option ID) : option PoolerHealthState :=
  match id with
  | None => None
  | Some _ => default None (List.find (fun p => proto_equal (poolerID p) id) (Poolers sa))
  end.

Definition IntendedLeaderHealth (sa : Shard) : option PoolerHealthState :=
  PoolerHealth sa (IntendedLeaderID sa).

Definition observationFresh (h : option PoolerHealthState) (now maxAge : Z) : bool :=
  snd (HealthWithin h now maxAge).

Definition freshAndInitialized (p : option PoolerHealthState) (now freshness : Z) : bool :=
  let '(hs, ok) := HealthWithin p now freshness in
  ok && GetIsInitialized (GetStatus hs).

Definition recruitable (p : option PoolerHealthState) (now freshness : Z) : bool :=
  if negb (freshAndInitialized p now freshness) then false
  else
    let '(hs, _) := HealthWithin p now freshness in
    if PoolerIsCohortIneligible (GetAvailabilityStatus hs) then false
    else if bool_decide (GetCurrentPosition (GetConsensusStatus hs) = None) then false
    else bool_decide (GetRecruitBlockedUntil (GetConsensusStatus hs) = None).

(** ** What the helpers mean *)

(** Evidence that a member could be recruited now. *)
Record recruitable_evidence (p : option PoolerHealthState) (now freshness : Z) : Prop := {
  re_seen : exists ls, GetLastSeen p = Some ls /\ time_Sub now (AsTime (Some ls)) <= freshness;
  re_initialized : GetIsInitialized (GetStatus p) = true;
  re_eligible : PoolerIsCohortIneligible (GetAvailabilityStatus p) = false;
  re_position : is_Some (GetCurrentPosition (GetConsensusStatus p));
  re_unblocked : GetRecruitBlockedUntil (GetConsensusStatus p) = None
}.

Lemma recruitable_true p now freshness :
  recruitable p now freshness = true -> recruitable_evidence p now freshness.
Proof.
  unfold recruitable, freshAndInitialized.
  destruct (HealthWithin p now freshness) as [hs []] eqn:Hw; [|done].
  apply HealthWithin_true in Hw as [-> Hseen]. cbn [andb].
  destruct (GetIsInitialized _) eqn:Hi; [|done]. cbn [negb].
  destruct (PoolerIsCohortIneligible _) eqn:He; [done|].
  case_bool_decide as Hp; [done|]. intros Hb%bool_decide_eq_true.
  constructor; try done. by destruct (GetCurrentPosition _); [eexists|].
Qed.

Lemma PoolerHealth_elem `{!RuntimeLaws R} sa id p :
  PoolerHealth sa id = Some p -> Some p ∈ Poolers sa /\ poolerID (Some p) = id.
Proof.
  unfold PoolerHealth. destruct id as [i|]; [|done].
  destruct (List.find _ _) as [q|] eqn:Hf; [|done]. cbn. intros ->.
  apply List.find_some in Hf as [Hin Heq]. apply proto_equal_spec in Heq.
  by rewrite list_elem_of_In.
Qed.

End runtime.
