(* ===== verification/LeaderReplacement.v ===== *)
(** go/services/multiorch/recovery/analysis/leader_needs_replacement_analyzer.go:
    when an orchestrator asks for a failover. *)

From stdpp Require Import base strings list gmap.
From S2P Require Import Prelude ClusterMetadata Demo TopoId Ordering Compare Cohort.
From S2P Require Import Durability Revocation Backoff Health FailoverBackoff LeaderFitness Snapshot.

Local Open Scope Z_scope.

Definition replicationHeartbeatStalenessMultiplier : Z := 3.
Definition defaultReplicationHeartbeatStalenessThreshold : Z := 30 * second.

(** The durations the analyzers read from the configuration. *)
Record Config := mkConfig {
  LeaderPostgresResponseThreshold : Z;
  LeaderFailoverGracePeriodBase : Z;
  LeaderFailoverGracePeriodMaxJitter : Z
}.

Record RecoveryActionFactory := mkRecoveryActionFactory { factory_Config : option Config }.

(** [cfg.GetX()]: a nil configuration panics in Go; it reads zero here. *)
Definition GetLeaderPostgresResponseThreshold (c : option Config) : Z :=
  getp 0 LeaderPostgresResponseThreshold c.

Definition recruitmentFeasible (policy : DurabilityPolicy) (cohort reachable : IDs) : bool :=
  bool_decide (CheckSufficientRecruitment policy cohort reachable = None).

Definition causeIsConclusive (cause : ProblemCode) : bool :=
  bool_decide (cause = ProblemLeaderUnspecified) || bool_decide (cause = ProblemLeaderResigned).

Definition LeaderNeedsReplacement_Name : string := "LeaderNeedsReplacement".

Definition shardProblem (leaderID : option ID) (code : ProblemCode) (priority : Z)
    (action : RecoveryAction) : list Problem :=
  [{| Code := code; CheckName := LeaderNeedsReplacement_Name; PoolerID := leaderID; Priority := priority;
      Scope := ScopeShard; RecoveryAction_ := action; SkipPreRecheckRefresh := causeIsConclusive code |}].

Definition atRiskProblem (leaderID : option ID) : list Problem :=
  [{| Code := ProblemShardAtRisk; CheckName := LeaderNeedsReplacement_Name; PoolerID := leaderID;
      Priority := PriorityNormal; Scope := ScopePooler; RecoveryAction_ := AlertOnlyAction;
      SkipPreRecheckRefresh := false |}].

Definition revocationSufficient (policy : DurabilityPolicy) (cohort cutOff : IDs) : bool :=
  let cutKeys := map ComponentIDString cutOff in
  let remaining := filter (fun m => ComponentIDString m ∉ cutKeys) cohort in
  bool_decide (SatisfiedBy policy remaining <> None).

Definition cohortWithout (cohort : IDs) (exclude : option ID) : IDs :=
  filter (fun m => ComponentIDString m <> ComponentIDString exclude) cohort.

Inductive followerLeaderRelation := relationUnaware | relationAdapting | relationConnected | relationCutOff.

#[export] Instance followerLeaderRelation_eq_dec : EqDecision followerLeaderRelation.
Proof. solve_decision. Defined.

Definition replicaConfiguredForLeader (replica : option PoolerHealthState) (primaryHost : string)
    (primaryPort : Z) : bool :=
  let connInfo := GetPrimaryConnInfo (GetReplicationStatus (GetStatus replica)) in
  negb (String.eqb (ci_GetHost connInfo) "") && String.eqb (ci_GetHost connInfo) primaryHost &&
  (ci_GetPort connInfo =? primaryPort).

Definition intendedLeaderShutdownTombstoned (sa : Shard) (leaderID : option ID) : bool :=
  match leaderID with
  | None => false
  | Some _ => bool_decide (ComponentIDString leaderID ∈ TombstoneIDs sa)
  end.

(** [time.Time{}] in nanoseconds of the Unix epoch. *)
Definition zero_time : Z := -62135596800 * second.

Section runtime.
  Context `{R : Runtime}.

(** ** What is observed of the leader *)

Definition followerStreamingFromLeader (sa : Shard) (replica : option PoolerHealthState)
    (primaryHost : string) (primaryPort : Z) : bool :=
  if negb (replicaConfiguredForLeader replica primaryHost primaryPort) then false
  else
    let rs := GetReplicationStatus (GetStatus replica) in
    if String.eqb (GetLastReceiveLsn rs) "" || negb (String.eqb (GetWalReceiverStatus rs) "streaming")
    then false
    else match getp None LastMsgReceiveTime rs with
    | None => true
    | Some ts =>
        let delay := time_Sub (Now sa) (AsTime (Some ts)) in
        let timeout := getp None WalReceiverTimeout rs in
        if bool_decide (timeout <> None) && (AsDuration timeout <? delay) then false
        else
          let interval := getp None WalReceiverStatusInterval rs in
          let threshold :=
            if bool_decide (interval <> None) && (0 <? AsDuration interval)
            then wrap64 (replicationHeartbeatStalenessMultiplier * AsDuration interval)
            else defaultReplicationHeartbeatStalenessThreshold in
          negb (threshold <? delay)
    end.

Definition intendedLeaderObservedLive (sa : Shard) : bool :=
  match IntendedLeaderHealth sa with
  | None => false
  | Some _ => observationFresh (IntendedLeaderHealth sa) (Now sa)
                (LeaderLivenessFreshness (AvailabilityPolicy_ sa))
  end.

Definition intendedLeaderHasResigned (sa : Shard) : bool :=
  bool_decide (IntendedLeaderHealth sa <> None) && LeaderNeedsReplacement (IntendedLeaderHealth sa).

Definition intendedLeaderPostgresReady (sa : Shard) : bool :=
  bool_decide (IntendedLeaderHealth sa <> None) && GetPostgresReady (GetStatus (IntendedLeaderHealth sa)).

Definition intendedLeaderServing (sa : Shard) : bool :=
  match IntendedLeaderHealth sa with
  | None => false
  | Some _ =>
      observationFresh (IntendedLeaderHealth sa) (Now sa) (LeaderChangeFreshness (AvailabilityPolicy_ sa)) &&
      intendedLeaderPostgresReady sa && negb (intendedLeaderHasResigned sa)
  end.

Definition intendedLeaderPostgresRunning (sa : Shard) : bool :=
  bool_decide (IntendedLeaderHealth sa <> None) && GetPostgresRunning (GetStatus (IntendedLeaderHealth sa)).

Definition intendedLeaderLastPostgresReadyTime (sa : Shard) : Z :=
  match GetLastPostgresReadyTime (IntendedLeaderHealth sa) with
  | None => zero_time
  | Some ts => AsTime (Some ts)
  end.

Definition intendedLeaderPromoting (sa : Shard) : bool :=
  bool_decide (IntendedLeaderHealth sa <> None) &&
  bool_decide (GetPostgresStatus (GetStatus (IntendedLeaderHealth sa)) = POSTGRES_STATUS_PROMOTING).

Definition intendedLeaderInRecovery (sa : Shard) : bool :=
  bool_decide (IntendedLeaderHealth sa <> None) &&
  bool_decide (GetPostgresStatus (GetStatus (IntendedLeaderHealth sa)) = POSTGRES_STATUS_STANDBY).

Definition inPromotionGrace (sa : Shard) : bool :=
  if negb (intendedLeaderPromoting sa) || negb (intendedLeaderObservedLive sa) ||
     negb (intendedLeaderPostgresRunning sa) then false
  else
    let ruleAge := time_Sub (Now sa)
      (AsTime (GetCreationTime (PossiblyUndecidedRule (HighestIntendedRule sa)))) in
    ruleAge <? ConnectReplicasToNewLeaderGrace (AvailabilityPolicy_ sa).

(** ** What is observed of the cohort *)

Definition classifyFollowerToLeader (sa : Shard) (pa : option PoolerHealthState) (leaderID : option ID)
    (primaryHost : string) (primaryPort : Z) : followerLeaderRelation :=
  if negb (observationFresh pa (Now sa) (FollowerStreamFreshness (AvailabilityPolicy_ sa)))
  then relationUnaware
  else if followerStreamingFromLeader sa pa primaryHost primaryPort then relationConnected
  else
    let rule := PossiblyUndecidedRule (HighestKnownRule [GetConsensusStatus pa]) in
    if negb (RuleNamesLeader rule leaderID) then relationUnaware
    else
      let created := GetCreationTime rule in
      if bool_decide (created = None) ||
         (time_Sub (Now sa) (AsTime created) <=? ConnectReplicasToNewLeaderGrace (AvailabilityPolicy_ sa))
      then relationAdapting
      else if negb (replicaConfiguredForLeader pa primaryHost primaryPort) then relationUnaware
      else relationCutOff.

(** The members other than the leader whose health the predicate accepts. *)
Definition followers_where (sa : Shard) (leaderID : option ID)
    (pred : option PoolerHealthState -> bool) (cohort : IDs) : IDs :=
  filter (fun member =>
    ComponentIDString member <> ComponentIDString leaderID /\
    PoolerHealth sa member <> None /\ pred (PoolerHealth sa member) = true) cohort.

(** A member is in one of the two lists, as the loop's switch decides. *)
Definition classifyCohortReachability (sa : Shard) (cohort : IDs) (leaderID : option ID) : IDs * IDs :=
  match IntendedLeaderHealth sa with
  | None => ([], [])
  | Some _ =>
      let '(primaryHost, primaryPort) := leaderEndpoint (IntendedLeaderHealth sa) in
      let classify pa := classifyFollowerToLeader sa pa leaderID primaryHost primaryPort in
      let vouching := followers_where sa leaderID
        (fun pa => bool_decide (classify pa = relationConnected)) cohort in
      let cutOff := followers_where sa leaderID
        (fun pa => bool_decide (classify pa = relationCutOff)) cohort in
      (if 0 <? len vouching then vouching ++ [leaderID] else vouching, cutOff)
  end.

Definition receiveLsnStillAdvancing (sa : Shard) (cohort : IDs) (leaderID : option ID)
    (policy : DurabilityPolicy) : bool :=
  match IntendedLeaderHealth sa with
  | None => false
  | Some _ =>
      let '(primaryHost, primaryPort) := leaderEndpoint (IntendedLeaderHealth sa) in
      let vouching := followers_where sa leaderID (fun pa =>
        replicaConfiguredForLeader pa primaryHost primaryPort &&
        match GetLastReceiveLsnAdvanceTime (GetReplicationStatus (GetStatus pa)) with
        | None => false
        | Some ts => time_Sub (Now sa) (AsTime (Some ts)) <=? FollowerStreamFreshness (AvailabilityPolicy_ sa)
        end) cohort in
      if len vouching =? 0 then false
      else bool_decide (SatisfiedBy policy (vouching ++ [leaderID]) = None)
  end.

(** One iteration of the loop over the poolers. *)
Definition fresher_commit (freshest : option Timestamp) (pa : option PoolerHealthState) : option Timestamp :=
  match pa with
  | None => freshest
  | Some _ =>
      match rs_GetQuorumCommitTs (GetReplicationStatus (GetStatus pa)) with
      | None => freshest
      | Some ts =>
          if bool_decide (freshest = None) || (AsTime freshest <? AsTime (Some ts)) then Some ts else freshest
      end
  end.

Definition freshestQuorumCommitTs (sa : Shard) : option Timestamp :=
  foldl fresher_commit (ps_GetQuorumCommitTs (GetPrimaryStatus (GetStatus (IntendedLeaderHealth sa))))
    (Poolers sa).

(** ** The verdict on the leader *)

(** [(cause, inconclusive)]: no cause is the empty code of the source. *)
Definition Verdict : Type := option ProblemCode * bool.

Definition quorumCommitStuckCause (sa : Shard) (cohort : IDs) (leaderID : option ID)
    (policy : DurabilityPolicy) : Verdict :=
  let freshest := freshestQuorumCommitTs sa in
  if negb (QuorumCommitStale freshest (Now sa) (QuorumCommitStaleAfter (AvailabilityPolicy_ sa)))
  then (None, false)
  else if negb (IsRuleDecided (HighestIntendedRule sa)) && receiveLsnStillAdvancing sa cohort leaderID policy
  then (None, false)
  else (Some ProblemLeaderQuorumWritesStalled, false).

(** The anti-flap test: the process is alive and postgres answered recently.
    [wall] is [time.Now()]. *)
Definition recently_ready (f : RecoveryActionFactory) (sa : Shard) (wall : Z) : bool :=
  intendedLeaderPostgresRunning sa &&
  (let lastReady := intendedLeaderLastPostgresReadyTime sa in
   negb (lastReady =? zero_time) &&
   (time_Sub wall lastReady <=? GetLeaderPostgresResponseThreshold (factory_Config f))).

Definition leaderReplacementCause (f : RecoveryActionFactory) (sa : Shard) (wall : Z) (cohort : IDs)
    (leaderID : option ID) (leaderLive : bool) (policy : DurabilityPolicy) : Verdict :=
  if intendedLeaderHasResigned sa || intendedLeaderShutdownTombstoned sa leaderID
  then (Some ProblemLeaderResigned, false)
  else if leaderLive && intendedLeaderInRecovery sa then (Some ProblemLeaderUnhealthy, false)
  else if leaderLive && intendedLeaderPostgresReady sa then quorumCommitStuckCause sa cohort leaderID policy
  else if leaderLive then
    if recently_ready f sa wall then (None, false) else (Some ProblemLeaderUnhealthy, false)
  else
    let '(vouching, cutOff) := classifyCohortReachability sa cohort leaderID in
    if revocationSufficient policy cohort cutOff then (Some ProblemLeaderUnreachableByCohort, false)
    else if bool_decide (SatisfiedBy policy vouching = None)
    then quorumCommitStuckCause sa cohort leaderID policy
    else (None, true).

(** ** What is reported *)

Definition cohortSatisfying (sa : Shard) (cohort : IDs) (exclude : option ID)
    (pred : option PoolerHealthState -> bool) : IDs :=
  filter (fun m =>
    ~ (exclude <> None /\ ComponentIDString m = ComponentIDString exclude) /\
    PoolerHealth sa m <> None /\ pred (PoolerHealth sa m) = true) cohort.

Definition freshInitializedCohort (sa : Shard) (cohort : IDs) (exclude : option ID) : IDs :=
  cohortSatisfying sa cohort exclude
    (fun pa => freshAndInitialized pa (Now sa) (ObservationFreshness (AvailabilityPolicy_ sa))).

Definition recruitableCohort (sa : Shard) (cohort : IDs) (exclude : option ID) : IDs :=
  cohortSatisfying sa cohort exclude
    (fun pa => recruitable pa (Now sa) (ObservationFreshness (AvailabilityPolicy_ sa))).

Definition hasUsableShardHealth (sa : Shard) (cohort : IDs) : bool :=
  0 <? len (freshInitializedCohort sa cohort None).

Definition blindOrStuck (sa : Shard) (leaderID : option ID) (cohort : IDs) : list Problem :=
  if negb (hasUsableShardHealth sa cohort)
  then shardProblem leaderID ProblemNoHealthyCohortMembers PriorityEmergency AlertOnlyAction
  else shardProblem leaderID ProblemShardStuck PriorityEmergency AlertOnlyAction.

Definition emitFailover (sa : Shard) (leaderID : option ID) (policy : DurabilityPolicy) (cohort : IDs)
    (cause : ProblemCode) : list Problem :=
  if negb (recruitmentFeasible policy cohort (recruitableCohort sa cohort None))
  then blindOrStuck sa leaderID cohort
  else shardProblem leaderID cause PriorityEmergency AppointLeaderAction.

Definition emitInconclusive (sa : Shard) (leaderID : option ID) (policy : DurabilityPolicy) (cohort : IDs)
    : list Problem :=
  if recruitmentFeasible policy cohort (recruitableCohort sa cohort None)
  then shardProblem leaderID ProblemLeaderHealthUnknown PriorityNormal AlertOnlyAction
  else blindOrStuck sa leaderID cohort.

Definition atRiskProblemIfDegraded (sa : Shard) (policy : DurabilityPolicy) (cohort : IDs)
    (leaderID : option ID) : list Problem :=
  let recoverableIfLeaderLost := recruitmentFeasible policy cohort (recruitableCohort sa cohort leaderID) in
  let recoverableIfFullyReachable := recruitmentFeasible policy cohort (cohortWithout cohort leaderID) in
  if negb recoverableIfLeaderLost && recoverableIfFullyReachable then atRiskProblem leaderID else [].

Definition LeaderNeedsReplacement_Analyze (factory : option RecoveryActionFactory) (wall : Z) (sa : Shard)
    : result (list Problem) :=
  match factory with
  | None => Err (err "recovery action factory not initialized")
  | Some f =>
      let intendedRule := PossiblyUndecidedRule (HighestIntendedRule sa) in
      let intendedLeaderID := GetLeaderId intendedRule in
      let intendedCohort := GetCohortMembers intendedRule in
      if bool_decide (intendedLeaderID = None) && (len intendedCohort =? 0) then Ok []
      else
        policy ← wrap_result "leader-needs-replacement: durability policy unavailable"
                   (NewPolicyFromProto (GetDurabilityPolicy intendedRule));
        if bool_decide (intendedLeaderID = None)
        then Ok (emitFailover sa None policy intendedCohort ProblemLeaderUnspecified)
        else if inPromotionGrace sa then Ok []
        else
          let leaderLive := intendedLeaderObservedLive sa in
          match leaderReplacementCause f sa wall intendedCohort intendedLeaderID leaderLive policy with
          | (_, true) => Ok (emitInconclusive sa intendedLeaderID policy intendedCohort)
          | (None, false) => Ok (atRiskProblemIfDegraded sa policy intendedCohort intendedLeaderID)
          | (Some cause, false) => Ok (emitFailover sa intendedLeaderID policy intendedCohort cause)
          end
  end.

(** ** Evidence *)

Context `{!RuntimeLaws R}.

(** A follower that should be connected to the leader and is not: seen recently,
    told of this leader long enough ago, pointed at it, and not streaming. *)
Record cut_off (sa : Shard) (leaderID : option ID) (h : option PoolerHealthState) : Prop := {
  co_fresh : observationFresh h (Now sa) (FollowerStreamFreshness (AvailabilityPolicy_ sa)) = true;
  co_silent : followerStreamingFromLeader sa h (fst (leaderEndpoint (IntendedLeaderHealth sa)))
    (snd (leaderEndpoint (IntendedLeaderHealth sa))) = false;
  co_told : let rule := PossiblyUndecidedRule (HighestKnownRule [GetConsensusStatus h]) in
    RuleNamesLeader rule leaderID = true /\
    exists created, GetCreationTime rule = Some created /\
      ConnectReplicasToNewLeaderGrace (AvailabilityPolicy_ sa) < time_Sub (Now sa) (AsTime (Some created));
  co_configured : replicaConfiguredForLeader h (fst (leaderEndpoint (IntendedLeaderHealth sa)))
    (snd (leaderEndpoint (IntendedLeaderHealth sa))) = true
}.

Lemma classify_cut_off sa h leaderID :
  classifyFollowerToLeader sa h leaderID (fst (leaderEndpoint (IntendedLeaderHealth sa)))
    (snd (leaderEndpoint (IntendedLeaderHealth sa))) = relationCutOff -> cut_off sa leaderID h.
Proof.
  unfold classifyFollowerToLeader. intros H.
  destruct (observationFresh _ _ _) eqn:H1; [|done]. cbn [negb] in H.
  destruct (followerStreamingFromLeader _ _ _ _) eqn:H2; [done|].
  destruct (RuleNamesLeader _ _) eqn:H3; [|done]. cbn [negb] in H.
  destruct (_ || _) eqn:H4; [done|]. destruct (replicaConfiguredForLeader _ _ _) eqn:H5; [|done].
  reflect_bools. constructor; try done. split; [done|].
  destruct (GetCreationTime _) as [t|]; [|done]. by eexists.
Qed.

Lemma elem_of_followers_where sa leaderID pred cohort m :
  m ∈ followers_where sa leaderID pred cohort <->
  m ∈ cohort /\ ComponentIDString m <> ComponentIDString leaderID /\
  exists h, PoolerHealth sa m = Some h /\ pred (Some h) = true.
Proof.
  unfold followers_where. rewrite list_elem_of_filter.
  destruct (PoolerHealth sa m) as [h|]; naive_solver.
Qed.

(** The evidence behind each cause of a failover. *)
Definition convicted (f : RecoveryActionFactory) (sa : Shard) (wall : Z) (policy : DurabilityPolicy)
    (cohort : IDs) (leaderID : option ID) (cause : ProblemCode) : Prop :=
  match cause with
  | ProblemLeaderUnspecified => leaderID = None /\ cohort <> []
  | ProblemLeaderResigned =>
      (exists h, IntendedLeaderHealth sa = Some h /\ LeaderNeedsReplacement (Some h) = true) \/
      ComponentIDString leaderID ∈ TombstoneIDs sa
  | ProblemLeaderUnhealthy =>
      intendedLeaderObservedLive sa = true /\
      (intendedLeaderInRecovery sa = true \/
       intendedLeaderPostgresReady sa = false /\ recently_ready f sa wall = false)
  | ProblemLeaderUnreachableByCohort =>
      intendedLeaderObservedLive sa = false /\
      exists cutOff,
        (forall m, m ∈ cutOff -> m ∈ cohort /\ ComponentIDString m <> ComponentIDString leaderID /\
           exists h, PoolerHealth sa m = Some h /\ cut_off sa leaderID (Some h)) /\
        SatisfiedBy policy (filter (fun m => ComponentIDString m ∉ map ComponentIDString cutOff) cohort) <> None
  | ProblemLeaderQuorumWritesStalled =>
      QuorumCommitStale (freshestQuorumCommitTs sa) (Now sa)
        (QuorumCommitStaleAfter (AvailabilityPolicy_ sa)) = true /\
      (IsRuleDecided (HighestIntendedRule sa) = true \/
       receiveLsnStillAdvancing sa cohort leaderID policy = false)
  | _ => False
  end.

Lemma quorumCommitStuckCause_convicts f wall sa cohort leaderID policy cause b :
  quorumCommitStuckCause sa cohort leaderID policy = (Some cause, b) ->
  convicted f sa wall policy cohort leaderID cause /\ IsFailoverProblem cause = true.
Proof.
  unfold quorumCommitStuckCause. destruct (QuorumCommitStale _ _ _) eqn:E1; [|done]. cbn [negb].
  destruct (_ && _) eqn:E2; [done|]. intros [= <- _]. split; [|done]. split; [done|].
  destruct (IsRuleDecided _); [by left|]. cbn in E2. by right.
Qed.

Lemma leaderReplacementCause_convicts f sa wall cohort leaderID policy cause b :
  leaderReplacementCause f sa wall cohort leaderID (intendedLeaderObservedLive sa) policy = (Some cause, b) ->
  convicted f sa wall policy cohort leaderID cause /\ IsFailoverProblem cause = true.
Proof.
  unfold leaderReplacementCause. intros H.
  destruct (_ || _) eqn:Hres in H.
  { injection H as <- _. split; [|done]. apply orb_true_iff in Hres as [Hr|Ht].
    - left. unfold intendedLeaderHasResigned in Hr.
      destruct (IntendedLeaderHealth sa); [|done]. by eexists.
    - right. unfold intendedLeaderShutdownTombstoned in Ht. destruct leaderID; [|done].
      by apply bool_decide_eq_true in Ht. }
  destruct (intendedLeaderObservedLive sa) eqn:Hlive; cbn [andb] in H.
  - destruct (intendedLeaderInRecovery sa) eqn:Hrec; [injection H as <- _; split; [cbn|done]; by auto|].
    destruct (intendedLeaderPostgresReady sa) eqn:Hready; [by eapply quorumCommitStuckCause_convicts|].
    destruct (recently_ready f sa wall) eqn:Hrr; [done|]. injection H as <- _. split; [cbn|done]. by auto.
  - unfold classifyCohortReachability in H. destruct (IntendedLeaderHealth sa) as [lh|] eqn:Hlh.
    2: { destruct (revocationSufficient policy cohort []) eqn:Hs.
         - injection H as <- _. split; [|done]. split; [done|]. exists []. apply bool_decide_eq_true in Hs.
           split; [by intros ? ?%elem_of_nil|done].
         - destruct (bool_decide _); [by eapply quorumCommitStuckCause_convicts|done]. }
    rewrite <- Hlh in H. destruct (leaderEndpoint _) as [host port] eqn:Hend. cbv zeta in H.
    destruct (revocationSufficient _ _ _) eqn:Hs.
    + injection H as <- _. split; [|done]. split; [done|]. apply bool_decide_eq_true in Hs.
      eexists. split; [|exact Hs].
      intros m (Hm & Hne & h & Hh & Hcl%bool_decide_eq_true)%elem_of_followers_where.
      split_and!; [done..|]. exists h. split; [done|]. apply classify_cut_off.
      by rewrite Hend.
    + destruct (bool_decide _); [by eapply quorumCommitStuckCause_convicts|done].
Qed.

Lemma elem_of_recruitableCohort sa cohort m :
  m ∈ recruitableCohort sa cohort None ->
  m ∈ cohort /\ exists h, h ∈ Poolers sa /\ poolerID h = m /\
    recruitable_evidence h (Now sa) (ObservationFreshness (AvailabilityPolicy_ sa)).
Proof.
  unfold recruitableCohort, cohortSatisfying. intros [(_ & Hn & Hr) Hm]%list_elem_of_filter.
  split; [done|]. destruct (PoolerHealth sa m) as [h|] eqn:Hh; [|done].
  apply PoolerHealth_elem in Hh as [? ?]. exists (Some h). by apply recruitable_true in Hr.
Qed.

Lemma emitFailover_appoints sa leaderID policy cohort cause p :
  p ∈ emitFailover sa leaderID policy cohort cause -> RecoveryAction_ p = AppointLeaderAction ->
  Code p = cause /\ CheckSufficientRecruitment policy cohort (recruitableCohort sa cohort None) = None.
Proof.
  unfold emitFailover, recruitmentFeasible. case_bool_decide; cbn [negb].
  - by intros ->%list_elem_of_singleton _.
  - unfold blindOrStuck. destruct (negb _); by intros ->%list_elem_of_singleton.
Qed.

(** C9: A failover needs evidence and a way out.  When the analyzer asks for a new
    leader, the members it could recruit now (seen recently, initialized,
    eligible, with a position and no pending rewind) suffice to revoke the outgoing
    rule, and the leader stands convicted by what its cause says: it has no leader,
    the leader itself asked to step down, it is observed without a serving
    postgres, its cut-off followers leave it no quorum, or its quorum commits have
    stopped. *)
Theorem failover_needs_evidence f wall sa problems p :
  LeaderNeedsReplacement_Analyze (Some f) wall sa = Ok problems ->
  p ∈ problems -> RecoveryAction_ p = AppointLeaderAction ->
  let rule := PossiblyUndecidedRule (HighestIntendedRule sa) in
  exists policy reachable,
    NewPolicyFromProto (GetDurabilityPolicy rule) = Ok policy /\
    CheckSufficientRecruitment policy (GetCohortMembers rule) reachable = None /\
    (forall m, m ∈ reachable -> m ∈ GetCohortMembers rule /\
       exists h, h ∈ Poolers sa /\ poolerID h = m /\
         recruitable_evidence h (Now sa) (ObservationFreshness (AvailabilityPolicy_ sa))) /\
    IsFailoverProblem (Code p) = true /\
    convicted f sa wall policy (GetCohortMembers rule) (GetLeaderId rule) (Code p).
Proof.
  intros H Hp Hact rule. unfold LeaderNeedsReplacement_Analyze in H. fold rule in H.
  destruct (_ && _) eqn:Hempty; [inv_ok; by apply elem_of_nil in Hp|]. inv_ok.
  assert (forall cause, p ∈ emitFailover sa (GetLeaderId rule) a (GetCohortMembers rule) cause ->
    convicted f sa wall a (GetCohortMembers rule) (GetLeaderId rule) cause -> IsFailoverProblem cause = true ->
    exists policy reachable, Ok a = Ok policy /\
    CheckSufficientRecruitment policy (GetCohortMembers rule) reachable = None /\
    (forall m, m ∈ reachable -> m ∈ GetCohortMembers rule /\
       exists h, h ∈ Poolers sa /\ poolerID h = m /\
         recruitable_evidence h (Now sa) (ObservationFreshness (AvailabilityPolicy_ sa))) /\
    IsFailoverProblem (Code p) = true /\
    convicted f sa wall policy (GetCohortMembers rule) (GetLeaderId rule) (Code p)) as Hdone.
  { intros cause Hin Hc Hf. destruct (emitFailover_appoints _ _ _ _ _ _ Hin Hact) as [-> Hs].
    exists a, (recruitableCohort sa (GetCohortMembers rule) None).
    split_and!; [done|done| |done|done]. intros m. apply elem_of_recruitableCohort. }
  case_bool_decide as Hl; inv_ok.
  { rewrite Hl in *. apply Hdone with ProblemLeaderUnspecified; [done| |done].
    split; [done|]. intros Hnil. rewrite Hnil in Hempty. done. }
  destruct (inPromotionGrace sa); [inv_ok; by apply elem_of_nil in Hp|].
  destruct (leaderReplacementCause _ _ _ _ _ _ _) as [[cause|] []] eqn:Hc; inv_ok;
    try (unfold emitInconclusive, atRiskProblemIfDegraded, blindOrStuck in Hp; split_ifs;
         by apply list_elem_of_singleton in Hp as -> || by apply elem_of_nil in Hp).
  destruct (leaderReplacementCause_convicts _ _ _ _ _ _ _ _ Hc). by apply Hdone with cause.
Qed.

(** The evidence cannot contradict itself.  When the followers streaming from
    an unobserved leader form, with it, a durable quorum, the members not cut off
    can still commit, so that leader is never convicted as unreachable: the order
    of the two tests does not matter. *)
Theorem vouched_leader_not_unreachable f sa wall cohort leaderID policy vouching cutOff :
  Forall valid_id cohort -> leaderID ∈ cohort ->
  (forall a b, a ∈ cohort -> b ∈ cohort -> ComponentIDString a = ComponentIDString b -> a = b) ->
  classifyCohortReachability sa cohort leaderID = (vouching, cutOff) ->
  SatisfiedBy policy vouching = None ->
  revocationSufficient policy cohort cutOff = false /\
  fst (leaderReplacementCause f sa wall cohort leaderID false policy) <> Some ProblemLeaderUnreachableByCohort.
Proof.
  intros Hv Hl Hinj Hcl Hsat.
  assert (revocationSufficient policy cohort cutOff = false) as Hns.
  { unfold revocationSufficient. apply bool_decide_eq_false. intros Hn. apply Hn.
    assert (forall m, m ∈ vouching -> m ∈ cohort /\ ComponentIDString m ∉ map ComponentIDString cutOff) as Hvc.
    { unfold classifyCohortReachability in Hcl. destruct (IntendedLeaderHealth sa) as [lh|] eqn:Hlh.
      2: { injection Hcl as <- <-. by intros m ?%elem_of_nil. }
      rewrite <- Hlh in Hcl. destruct (leaderEndpoint _) as [host port]. cbv zeta in Hcl.
      injection Hcl as Hvo Hcu. intros m Hm.
      assert (m = leaderID \/ exists h, m ∈ cohort /\ PoolerHealth sa m = Some h /\
        classifyFollowerToLeader sa (Some h) leaderID host port = relationConnected) as Hm'.
      { subst vouching. destruct (0 <? _) in Hm; [apply elem_of_app in Hm as [Hm|Hm]|].
        - apply elem_of_followers_where in Hm as (? & _ & h & ? & ?%bool_decide_eq_true). eauto.
        - apply list_elem_of_singleton in Hm. by left.
        - apply elem_of_followers_where in Hm as (? & _ & h & ? & ?%bool_decide_eq_true). eauto. }
      split; [destruct Hm' as [->|(? & ? & _)]; done|].
      intros (x & Heq & Hx)%list_elem_of_fmap. subst cutOff.
      apply elem_of_followers_where in Hx as (Hxc & Hxl & h' & Hh' & Hcut%bool_decide_eq_true).
      destruct Hm' as [->|(h & Hmc & Hh & Hcon)]; [by symmetry in Heq|].
      rewrite (Hinj m x Hmc Hxc Heq) in Hh. congruence. }
    apply (satisfied_mono policy vouching); [| | |done].
    - apply Forall_forall. intros m Hm. rewrite Forall_forall in Hv. by apply Hv, Hvc.
    - apply Forall_forall. intros m [_ Hm]%list_elem_of_filter. rewrite Forall_forall in Hv. by apply Hv.
    - intros k (m & Hm & <-)%elem_of_poolerKeysOf. apply poolerKeysOf_intro, list_elem_of_filter.
      destruct (Hvc m Hm). done. }
  split; [done|]. unfold leaderReplacementCause, quorumCommitStuckCause.
  destruct (_ || _); [done|]. cbn [andb]. rewrite Hcl, Hns. split_ifs; done.
Qed.

End runtime.

(** ** A leader cut off from its cohort *)

Definition demo_factory : RecoveryActionFactory :=
  mkRecoveryActionFactory (Some (mkConfig (30 * second) (4 * second) (8 * second))).

(** A follower of [p1] configured for it, seen at [seen] seconds. *)
Definition demo_follower (id : option ID) (seen : Z) (wal : string) : option PoolerHealthState :=
  let r1 := demo_rule 1 p1 [p1; p2; p3] (at_least 2) in
  Some (mkPoolerHealthState (Some (mkMultipooler id (GetName id) {["postgres" := 5432]})) (ts seen)
    (demo_status id None (decided r1) "0/10") None None
    (Some (mkStatus None
       (Some (mkStandbyReplicationStatus "0/10" false (Some (mkPrimaryConnInfo "a" 5432 "repl" "app")) wal
          None None None None None))
       true true POSTGRES_STATUS_STANDBY true 0))).

Definition demo_leader (seen : Z) (av : option AvailabilityStatus) : option PoolerHealthState :=
  let r1 := demo_rule 1 p1 [p1; p2; p3] (at_least 2) in
  Some (mkPoolerHealthState (Some (mkMultipooler p1 "a" {["postgres" := 5432]})) (ts seen)
    (demo_status p1 None (decided r1) "0/10") None av
    (Some (mkStatus None None true true POSTGRES_STATUS_PRIMARY true 0))).

(** At second 100 the leader was last seen at second 10. *)
Definition demo_shard (wal : string) (av : option AvailabilityStatus) : Shard :=
  mkShard [demo_leader 10 av; demo_follower p2 98 wal; demo_follower p3 99 wal] (100 * second)
    DefaultAvailabilityPolicy [] None.

Lemma failover_needs_evidence_witness :
  exists p problems,
    LeaderNeedsReplacement_Analyze (Some demo_factory) (100 * second) (demo_shard "stopped" None) = Ok problems /\
    p ∈ problems /\ Code p = ProblemLeaderUnreachableByCohort /\ IsFailoverProblem (Code p) = true.
Proof.
  assert (exists p, LeaderNeedsReplacement_Analyze (Some demo_factory) (100 * second) (demo_shard "stopped" None)
    = Ok [p] /\ Code p = ProblemLeaderUnreachableByCohort /\ RecoveryAction_ p = AppointLeaderAction)
    as (p & Ha & Hc & Hr) by (eexists; split_and!; vm_compute; reflexivity).
  destruct (failover_needs_evidence _ _ _ _ _ Ha ltac:(left) Hr) as (_ & _ & _ & _ & _ & Hf & _).
  exists p, [p]. split; [exact Ha|]. split; [left|]. exact (conj Hc Hf).
Defined.

Lemma vouched_leader_not_unreachable_witness :
  let cr := classifyCohortReachability (demo_shard "streaming" None) [p1; p2; p3] p1 in
  fst cr = [p2; p3; p1] /\
  revocationSufficient (AtLeastNValue (mkAtLeastNPolicy 2)) [p1; p2; p3] (snd cr) = false.
Proof.
  intros cr. split; [vm_compute; reflexivity|].
  refine (proj1 (vouched_leader_not_unreachable demo_factory (demo_shard "streaming" None) 0 [p1; p2; p3] p1
    (AtLeastNValue (mkAtLeastNPolicy 2)) (fst cr) (snd cr) _ _ _ (surjective_pairing _) _)).
  - repeat constructor; by eexists.
  - left.
  - intros a b Ha Hb. repeat (apply elem_of_cons in Ha as [->|Ha]); try (by apply elem_of_nil in Ha);
      repeat (apply elem_of_cons in Hb as [->|Hb]); try (by apply elem_of_nil in Hb); done.
  - vm_compute. reflexivity.
Defined.

(** A resignation is believed however old its report is: the leader below was last
    seen at the epoch, and a failover is asked for on its word. *)
Theorem stale_resignation_convicts :
  let resigned := Some (mkAvailabilityStatus None (Some (mkCohortEligibilityStatus COHORT_SIGNAL_INELIGIBLE))) in
  let sa := mkShard [demo_leader 0 resigned; demo_follower p2 999999 "streaming"; demo_follower p3 999999 "streaming"]
    (1000000 * second) DefaultAvailabilityPolicy [] None in
  intendedLeaderObservedLive sa = false /\
  exists p, LeaderNeedsReplacement_Analyze (Some demo_factory) (1000000 * second) sa = Ok [p] /\
    Code p = ProblemLeaderResigned /\ RecoveryAction_ p = AppointLeaderAction.
Proof. intros resigned sa. split; [vm_compute; reflexivity|]. eexists. split_and!; vm_compute; reflexivity. Qed.
