(* ===== verification/Analyzers.v ===== *)
(** The orchestrator's other analyzers, under go/services/multiorch/recovery/analysis:
    cohort drift, stale leaders, stranded and disconnected followers, and shards
    without a cohort. *)

From stdpp Require Import base strings list gmap fin_maps sorting.
From S2P Require Import Prelude ClusterMetadata Demo TopoId Ordering Compare Cohort.
From S2P Require Import Durability CohortSafety Revocation PoolerRole Backoff Health.
From S2P Require Import FailoverBackoff LeaderFitness Snapshot LeaderReplacement.

Local Open Scope Z_scope.

Definition is_self_leader (pa : option PoolerHealthState) : bool :=
  bool_decide (SelfConsensusRole (GetConsensusStatus pa) = ConsensusRoleLeader).

Definition pooler_problem (code : ProblemCode) (check : string) (id : option ID) (priority : Z)
    (action : RecoveryAction) : Problem :=
  {| Code := code; CheckName := check; PoolerID := id; Priority := priority; Scope := ScopePooler;
     RecoveryAction_ := action; SkipPreRecheckRefresh := false |}.

(** ** cohort_mismatch_analyzer.go *)

Definition ineligible_problem (id : option ID) : Problem :=
  pooler_problem ProblemCohortMemberIneligible "CohortMismatch" id PriorityNormal ReconcileCohortAction.

Definition not_in_cohort_problem (id : option ID) : Problem :=
  pooler_problem ProblemPoolerNotInCohort "CohortMismatch" id PriorityNormal ReconcileCohortAction.

(** The cohort keyed by component ID; a later entry replaces an earlier one. *)
Definition cohort_by_id (cohort : IDs) : gmap string (option ID) :=
  foldl (fun m id => <[ComponentIDString id := id]> m) ∅ cohort.

(** The members found missing: the first tombstoned one and the first other one
    whose removal is safe, in the iteration order of the map. *)
Definition missing_step (rule : option ShardRule) (tombstones seen : list string)
    (acc : option ID * option ID) (entry : string * option ID) : option ID * option ID :=
  let '(tombstoneRemove, missingRemove) := acc in
  let '(key, id) := entry in
  if bool_decide (key ∈ seen) then acc
  else
    let isTombstone := bool_decide (key ∈ tombstones) in
    if negb isTombstone && negb (IsCohortMemberRemovalSafe rule id) then acc
    else if isTombstone then
      (if bool_decide (tombstoneRemove = None) then id else tombstoneRemove, missingRemove)
    else (tombstoneRemove, if bool_decide (missingRemove = None) then id else missingRemove).

Section runtime.
  Context `{R : Runtime}.

Definition isAdditionCandidate (sa : Shard) (pa : option PoolerHealthState) : bool :=
  if is_self_leader pa then false
  else if negb (recruitable pa (Now sa) (ObservationFreshness (AvailabilityPolicy_ sa))) then false
  else if String.eqb (primaryConnInfoHost pa) "" || negb (walReplayNotPaused pa) then false
  else walReceiverStreaming pa.

(** One iteration over the poolers: the members seen and the problems so far. *)
Definition mismatch_step (sa : Shard) (rule : option ShardRule) (cohortIDs : gmap string (option ID))
    (acc : list string * list Problem) (pa : option PoolerHealthState) : list string * list Problem :=
  let '(seen, problems) := acc in
  let id := poolerID pa in
  let key := ComponentIDString id in
  match cohortIDs !! key with
  | Some _ =>
      (key :: seen,
       if PoolerIsCohortIneligible (GetAvailabilityStatus pa) && IsCohortMemberRemovalSafe rule id
       then problems ++ [ineligible_problem id] else problems)
  | None => (seen, if isAdditionCandidate sa pa then problems ++ [not_in_cohort_problem id] else problems)
  end.

(** [order] is the iteration order of the Go map. *)
Definition CohortMismatch_Analyze (factory : option RecoveryActionFactory)
    (order : list (string * option ID) -> list (string * option ID)) (sa : Shard) : result (list Problem) :=
  match factory with
  | None => Err (err "recovery action factory not initialized")
  | Some _ =>
      if negb (intendedLeaderServing sa) then Ok []
      else
        let intendedRule := PossiblyUndecidedRule (HighestIntendedRule sa) in
        let cohortIDs := cohort_by_id (GetCohortMembers intendedRule) in
        let '(seen, problems) := foldl (mismatch_step sa intendedRule cohortIDs) ([], []) (Poolers sa) in
        let '(tombstoneRemove, missingRemove) :=
          foldl (missing_step intendedRule (TombstoneIDs sa) seen) (None, None) (order (map_to_list cohortIDs)) in
        Ok (if bool_decide (tombstoneRemove <> None) then problems ++ [ineligible_problem tombstoneRemove]
            else if bool_decide (missingRemove <> None) then problems ++ [ineligible_problem missingRemove]
            else problems)
  end.

(** ** stale_leader_analyzer.go *)

Definition staleLeaders (sa : Shard) (leaderID : option ID) : list (option PoolerHealthState) :=
  filter (fun pa =>
    snd (HealthWithin pa (Now sa) (ObservationFreshness (AvailabilityPolicy_ sa))) = true /\
    is_self_leader pa = true /\ proto_equal (poolerID pa) leaderID = false) (Poolers sa).

(** [sort] is [slices.SortFunc] with [compareLeaderTimeline]. *)
Definition StaleLeader_Analyze (factory : option RecoveryActionFactory)
    (sort : list (option PoolerHealthState) -> list (option PoolerHealthState)) (sa : Shard)
    : result (list Problem) :=
  match factory with
  | None => Err (err "recovery action factory not initialized")
  | Some _ =>
      match IntendedLeaderID sa with
      | None => Ok []
      | Some leader =>
          let stale := staleLeaders sa (Some leader) in
          if len stale =? 0 then Ok []
          else Ok (imap (fun i p => pooler_problem ProblemStaleLeader "StaleLeader" (poolerID p)
                     (PriorityHigh - Z.of_nat i) DemoteStaleLeaderAction) (sort stale))
      end
  end.

(** ** recruit_abandoned_analyzer.go *)

Definition revocationStrandsFollower (sa : Shard) (p : option PoolerHealthState) : bool :=
  match HighestIntendedRule sa with
  | None => false
  | Some _ => IsRuleRevoked (HighestIntendedRule sa) (GetTermRevocation (GetConsensusStatus p))
  end.

Definition revocationAgedPastFailoverGrace (factory : RecoveryActionFactory) (sa : Shard)
    (p : option PoolerHealthState) : bool :=
  match GetCoordinatorInitiatedAt (GetTermRevocation (GetConsensusStatus p)) with
  | None => false
  | Some initiatedAt =>
      let grace := match factory_Config factory with
                   | None => 0
                   | Some cfg => wrap64 (LeaderFailoverGracePeriodBase cfg + LeaderFailoverGracePeriodMaxJitter cfg)
                   end in
      grace <=? time_Sub (Now sa) (AsTime (Some initiatedAt))
  end.

Definition RecruitAbandoned_analyzePooler (factory : option RecoveryActionFactory) (sa : Shard)
    (pa : option PoolerHealthState) : result (option Problem) :=
  match factory with
  | None => Err (err "recovery action factory not initialized")
  | Some f =>
      if is_self_leader pa then Ok None
      else
        let '(hs, ok) := HealthWithin pa (Now sa) (ObservationFreshness (AvailabilityPolicy_ sa)) in
        if negb ok || negb (GetIsInitialized (GetStatus hs)) then Ok None
        else if String.eqb (fst (leaderEndpoint (IntendedLeaderHealth sa))) "" then Ok None
        else if negb (LeaderWritesProgressing (IntendedLeaderHealth sa) (HighestIntendedRule sa) (Now sa)
                        (LeaderChangeFreshness (AvailabilityPolicy_ sa))) then Ok None
        else if negb (IsSelfRevoked (GetConsensusStatus pa)) then Ok None
        else if negb (revocationStrandsFollower sa pa) then Ok None
        else if negb (revocationAgedPastFailoverGrace f sa pa) then Ok None
        else Ok (Some (pooler_problem ProblemReplicaRecruitAbandoned "ReplicaRecruitAbandoned" (poolerID pa)
                         PriorityHigh ReconnectRecruitAbandonedAction))
  end.

Definition RecruitAbandoned_Analyze (factory : option RecoveryActionFactory) (sa : Shard)
    : list Problem * option gerror :=
  analyzeAllPoolers sa (RecruitAbandoned_analyzePooler factory).

(** ** replica_not_replicating_analyzer.go *)

Definition needsReplicationFix (pa : option PoolerHealthState) : bool :=
  if String.eqb (primaryConnInfoHost pa) "" then true
  else if negb (walReplayNotPaused pa) then true
  else negb (walReceiverActive pa).

Definition ReplicaNotReplicating_analyzePooler (factory : option RecoveryActionFactory) (sa : Shard)
    (pa : option PoolerHealthState) : result (option Problem) :=
  match factory with
  | None => Err (err "recovery action factory not initialized")
  | Some _ =>
      if is_self_leader pa then Ok None
      else
        let '(hs, ok) := HealthWithin pa (Now sa) (FollowerStreamFreshness (AvailabilityPolicy_ sa)) in
        if negb ok || negb (GetIsInitialized (GetStatus hs)) then Ok None
        else
          let status := GetStatus hs in
          if bool_decide (GetReplicationStatus status = None) && GetPostgresRunning status then Ok None
          else if negb (intendedLeaderServing sa) ||
                  String.eqb (fst (leaderEndpoint (IntendedLeaderHealth sa))) "" then Ok None
          else if revocationStrandsFollower sa pa then Ok None
          else if negb (needsReplicationFix pa) then Ok None
          else Ok (Some (pooler_problem ProblemReplicaNotReplicating "ReplicaNotReplicating" (poolerID pa)
                           PriorityHigh FixReplicationAction))
  end.

Definition ReplicaNotReplicating_Analyze (factory : option RecoveryActionFactory) (sa : Shard)
    : list Problem * option gerror :=
  analyzeAllPoolers sa (ReplicaNotReplicating_analyzePooler factory).

(** ** shard_needs_initialization_analyzer.go *)

(** A pooler whose own position records a cohort. *)
Definition has_cohort (pa : option PoolerHealthState) : bool :=
  let position := pp_GetPosition (GetCurrentPosition (GetConsensusStatus pa)) in
  0 <? len (GetCohortMembers (PossiblyUndecidedRule position)).

Definition initializedIDs (sa : Shard) : IDs :=
  map poolerID (filter (fun pa =>
    freshAndInitialized pa (Now sa) (ObservationFreshness (AvailabilityPolicy_ sa)) = true) (Poolers sa)).

Definition ShardNeedsInitialization_Analyze (factory : option RecoveryActionFactory) (sa : Shard)
    : result (list Problem) :=
  match factory with
  | None => Err (err "recovery action factory not initialized")
  | Some _ =>
      match BootstrapDurabilityPolicy sa with
      | None => Ok []
      | Some _ =>
          if existsb has_cohort (Poolers sa) then Ok []
          else
            durabilityPolicy ← wrap_result "failed to parse bootstrap durability policy"
                                 (NewPolicyFromProto (BootstrapDurabilityPolicy sa));
            match SatisfiedBy durabilityPolicy (initializedIDs sa) with
            | Some _ => Ok []
            | None => Ok [{| Code := ProblemShardNeedsInitialization; CheckName := "ShardNeedsInitialization";
                             PoolerID := None; Priority := PriorityShardBootstrap; Scope := ScopeShard;
                             RecoveryAction_ := ShardInitAction; SkipPreRecheckRefresh := false |}]
            end
      end
  end.

(** ** What the analyzers report *)

Context `{!RuntimeLaws R}.

Lemma cohort_by_id_lookup cohort k :
  match cohort_by_id cohort !! k with
  | Some id => id ∈ cohort /\ ComponentIDString id = k
  | None => forall id, id ∈ cohort -> ComponentIDString id <> k
  end.
Proof.
  unfold cohort_by_id. induction cohort as [|x cohort IH] using rev_ind; cbn.
  { rewrite lookup_empty. by intros id ?%elem_of_nil. }
  rewrite foldl_app. cbn. destruct (decide (ComponentIDString x = k)) as [<-|Hne].
  - rewrite lookup_insert_eq. split; [set_solver|done].
  - rewrite lookup_insert_ne by done. destruct (_ !! k).
    + destruct IH. split; [set_solver|done].
    + intros id [?| ->%list_elem_of_singleton]%elem_of_app; auto.
Qed.

(** A pooler that may join the cohort: observed, eligible and streaming. *)
Definition may_join (sa : Shard) (h : option PoolerHealthState) : Prop :=
  recruitable_evidence h (Now sa) (ObservationFreshness (AvailabilityPolicy_ sa)) /\
  is_self_leader h = false /\ primaryConnInfoHost h <> "" /\ walReplayNotPaused h = true /\
  walReceiverStreaming h = true.

Lemma isAdditionCandidate_true sa h : isAdditionCandidate sa h = true -> may_join sa h.
Proof.
  unfold isAdditionCandidate, may_join. destruct (is_self_leader h); [done|].
  destruct (recruitable _ _ _) eqn:Hr; [|done]. cbn [negb].
  destruct (_ || _) eqn:Ho; [done|]. reflect_bools. intros Hw.
  split_and!; [by apply recruitable_true|done| |done|done]. by apply String.eqb_neq.
Qed.

(** What a reported cohort change rests on. *)
Definition justified (sa : Shard) (rule : option ShardRule) (p : Problem) : Prop :=
  let in_cohort := exists id, id ∈ GetCohortMembers rule /\
    ComponentIDString id = ComponentIDString (PoolerID p) in
  (Code p = ProblemPoolerNotInCohort /\ ~ in_cohort /\
     exists h, h ∈ Poolers sa /\ poolerID h = PoolerID p /\ may_join sa h) \/
  (Code p = ProblemCohortMemberIneligible /\ in_cohort /\
     (IsCohortMemberRemovalSafe rule (PoolerID p) = true \/
      ComponentIDString (PoolerID p) ∈ TombstoneIDs sa)).

Lemma mismatch_fold sa rule l acc :
  (forall h, h ∈ l -> h ∈ Poolers sa) -> (forall p, p ∈ snd acc -> justified sa rule p) ->
  forall p, p ∈ snd (foldl (mismatch_step sa rule (cohort_by_id (GetCohortMembers rule))) acc l) ->
    justified sa rule p.
Proof.
  revert acc. induction l as [|pa l IH]; intros [seen problems] Hl Hacc p Hp; cbn [foldl] in Hp; [auto|].
  revert Hp. apply IH; [set_solver|]. clear p. cbn [mismatch_step].
  pose proof (cohort_by_id_lookup (GetCohortMembers rule) (ComponentIDString (poolerID pa))) as Hk.
  destruct (_ !! _) as [id|]; cbn [snd] in *.
  - destruct (_ && _) eqn:He; [|done]. reflect_bools.
    intros p [Hp| ->%list_elem_of_singleton]%elem_of_app; [auto|]. right. cbn.
    split_and!; [done|exists id; done|by left].
  - destruct (isAdditionCandidate sa pa) eqn:He; [|done].
    intros p [Hp| ->%list_elem_of_singleton]%elem_of_app; [auto|]. left. cbn.
    split_and!; [done| |exists pa; split_and!; [set_solver|done|by apply isAdditionCandidate_true]].
    intros (id & ? & ?). by eapply Hk.
Qed.

Lemma missing_fold rule tombstones seen l acc t m :
  foldl (missing_step rule tombstones seen) acc l = (t, m) ->
  (t = fst acc \/ exists k, (k, t) ∈ l /\ k ∈ tombstones) /\
  (m = snd acc \/ exists k, (k, m) ∈ l /\ IsCohortMemberRemovalSafe rule m = true).
Proof.
  revert acc. induction l as [|[k id] l IH]; intros [t0 m0] H; cbn [foldl] in H.
  { injection H as <- <-. by auto. }
  apply IH in H as [Ht Hm]. clear IH.
  set (acc := missing_step _ _ _ _ _) in *.
  assert ((fst acc = t0 \/ fst acc = id /\ k ∈ tombstones) /\
          (snd acc = m0 \/ snd acc = id /\ IsCohortMemberRemovalSafe rule id = true)) as [Ha Hb].
  { subst acc. unfold missing_step. repeat case_bool_decide; cbn [negb andb];
      destruct (IsCohortMemberRemovalSafe rule id) eqn:?; cbn; auto. }
  split.
  - destruct Ht as [->|(k' & ? & ?)]; [|right; exists k'; split; [by right|done]].
    destruct Ha as [->|[-> ?]]; [by left|right; exists k; split; [left|done]].
  - destruct Hm as [->|(k' & ? & ?)]; [|right; exists k'; split; [by right|done]].
    destruct Hb as [->|[-> ?]]; [by left|right; exists k; split; [left|done]].
Qed.

(** Every cohort change an orchestrator asks for is justified by what it sees,
    and asked for only while the intended leader is serving. *)
Lemma cohort_changes_justified f order sa problems p :
  (forall l, order l ≡ₚ l) ->
  CohortMismatch_Analyze (Some f) order sa = Ok problems -> p ∈ problems ->
  intendedLeaderServing sa = true /\ justified sa (PossiblyUndecidedRule (HighestIntendedRule sa)) p.
Proof.
  intros Hord H Hp. unfold CohortMismatch_Analyze in H.
  destruct (intendedLeaderServing sa); cbn [negb] in H; [|inv_ok; by apply elem_of_nil in Hp].
  split; [done|]. set (rule := PossiblyUndecidedRule _) in *.
  pose proof (mismatch_fold sa rule (Poolers sa) ([], []) (fun _ H => H)
    (fun p H => False_ind _ (proj1 (elem_of_nil p) H))) as Hfold.
  destruct (foldl (mismatch_step _ _ _) _ _) as [seen ps]. cbn [snd] in Hfold.
  destruct (foldl (missing_step _ _ _) _ _) as [t m] eqn:Hmiss.
  apply missing_fold in Hmiss as [Ht Hm]. cbn [fst snd] in Ht, Hm.
  assert (forall k id, (k, id) ∈ order (map_to_list (cohort_by_id (GetCohortMembers rule))) ->
    id ∈ GetCohortMembers rule /\ ComponentIDString id = k) as Hmem.
  { intros k id. rewrite Hord. intros Hk%elem_of_map_to_list.
    pose proof (cohort_by_id_lookup (GetCohortMembers rule) k) as Hl. by rewrite Hk in Hl. }
  inv_ok. repeat case_bool_decide; [|apply elem_of_app in Hp as [Hp|Hp]; [auto|]|auto].
  - apply elem_of_app in Hp as [Hp| ->%list_elem_of_singleton]; [auto|].
    destruct Ht as [->|(k & Hk & Hin)]; [done|]. destruct (Hmem _ _ Hk) as [? <-].
    right. cbn. split_and!; [done|eauto|by right].
  - apply list_elem_of_singleton in Hp as ->.
    destruct Hm as [->|(k & Hk & Hs)]; [done|]. destruct (Hmem _ _ Hk) as [? <-].
    right. cbn. split_and!; [done|eauto|by left].
Qed.

(** ** Ownership of followers *)

(** A follower is never handled twice.  A pooler reported as stranded by an
    abandoned recruit is not reported as merely disconnected, so the two repairs
    cannot fight over it; and it is reported only when it is itself revoked, its
    promise revokes the rule in force, the leader is writing under a decided rule,
    and the recruit is older than the failover grace. *)
Theorem stranded_follower_has_one_owner f sa pa p :
  RecruitAbandoned_analyzePooler (Some f) sa pa = Ok (Some p) ->
  ReplicaNotReplicating_analyzePooler (Some f) sa pa = Ok None /\
  PoolerID p = poolerID pa /\
  IsSelfRevoked (GetConsensusStatus pa) = true /\
  IsRuleRevoked (HighestIntendedRule sa) (GetTermRevocation (GetConsensusStatus pa)) = true /\
  IsRuleDecided (HighestIntendedRule sa) = true /\
  GetPostgresStatus (GetStatus (IntendedLeaderHealth sa)) = POSTGRES_STATUS_PRIMARY /\
  revocationAgedPastFailoverGrace f sa pa = true.
Proof.
  unfold RecruitAbandoned_analyzePooler. intros H.
  destruct (is_self_leader pa) eqn:Hl; [done|].
  destruct (HealthWithin _ _ _) as [hs ok]. destruct (_ || _) in H; [done|].
  destruct (String.eqb _ _); [done|].
  destruct (LeaderWritesProgressing _ _ _ _) eqn:Hw; [|done]. cbn [negb] in H.
  destruct (IsSelfRevoked _) eqn:Hsr; [|done]. cbn [negb] in H.
  destruct (revocationStrandsFollower sa pa) eqn:Hst; [|done]. cbn [negb] in H.
  destruct (revocationAgedPastFailoverGrace f sa pa) eqn:Hg; [|done]. cbn [negb] in H. injection H as <-.
  unfold LeaderWritesProgressing in Hw. destruct (IntendedLeaderHealth sa) as [lh|] eqn:Hlh; [|done].
  destruct (observationAge _ _) as [age ok']. destruct (_ || _) in Hw; [done|].
  case_bool_decide as Hpg; [|done]. cbn [negb] in Hw.
  split_and!; try done.
  - unfold ReplicaNotReplicating_analyzePooler. rewrite Hl, Hst.
    destruct (HealthWithin _ _ _). by split_ifs.
  - unfold revocationStrandsFollower in Hst. by destruct (HighestIntendedRule sa).
Qed.

(** ** Stale leaders *)

(** Exactly the stale leaders are demoted, most stale first: one problem for
    each recently seen pooler that takes itself for the leader while the highest
    known rule names another, in an order in which no pooler precedes one behind
    it, with strictly decreasing priorities. *)
Theorem stale_leaders_demoted_in_order f sort sa leader problems :
  (forall l, sort l ≡ₚ l) ->
  (forall l i j a b, (i < j)%nat -> sort l !! i = Some a -> sort l !! j = Some b -> compareLeaderTimeline a b <= 0) ->
  IntendedLeaderID sa = Some leader ->
  StaleLeader_Analyze (Some f) sort sa = Ok problems ->
  map PoolerID problems ≡ₚ map poolerID (staleLeaders sa (Some leader)) /\
  forall i p, problems !! i = Some p -> Priority p = PriorityHigh - Z.of_nat i /\
    exists h, h ∈ Poolers sa /\ poolerID h = PoolerID p /\ is_self_leader h = true /\
      poolerID h <> Some leader /\
      forall j q, (i < j)%nat -> problems !! j = Some q ->
        exists h', h' ∈ Poolers sa /\ poolerID h' = PoolerID q /\ compareLeaderTimeline h h' <= 0.
Proof.
  intros Hperm Hsort Hlead H. unfold StaleLeader_Analyze in H. rewrite Hlead in H.
  destruct (len _ =? 0) eqn:Hlen; inv_ok.
  { apply Z.eqb_eq in Hlen. unfold len in Hlen. destruct (staleLeaders _ _); [|cbn in Hlen; lia].
    split; [done|]. intros i p Hp. by rewrite lookup_nil in Hp. }
  assert (forall h, h ∈ sort (staleLeaders sa (Some leader)) -> h ∈ Poolers sa /\ is_self_leader h = true /\
    poolerID h <> Some leader) as Hstale.
  { intros h. rewrite Hperm. intros [(_ & ? & Hne) ?]%list_elem_of_filter. split_and!; [done|done|].
    intros Heq. by rewrite (proj2 (proto_equal_spec _ _ _) Heq) in Hne. }
  split.
  - transitivity (map poolerID (sort (staleLeaders sa (Some leader))));
      [|by apply Permutation_map, Hperm].
    apply reflexive_eq, list_eq. intros i. change (map ?f ?l) with (f <$> l).
    rewrite !list_lookup_fmap, list_lookup_imap. by destruct (_ !! i).
  - intros i p Hp. rewrite list_lookup_imap in Hp.
    destruct (sort _ !! i) as [h|] eqn:Hi; cbn in Hp; [|done]. injection Hp as <-. split; [done|].
    destruct (Hstale h ltac:(by eapply list_elem_of_lookup_2)) as (? & ? & ?).
    exists h. split_and!; try done. intros j q Hij Hq. rewrite list_lookup_imap in Hq.
    destruct (sort _ !! j) as [h'|] eqn:Hj; cbn in Hq; [|done]. injection Hq as <-.
    destruct (Hstale h' ltac:(by eapply list_elem_of_lookup_2)) as (? & ? & ?).
    exists h'. split_and!; try done. by eapply Hsort.
Qed.

End runtime.

(** ** Examples *)

Definition serving_leader : option PoolerHealthState := demo_leader 99 None.

(** [p4] streams from the leader and is not in the cohort. *)
Definition demo_drift : Shard :=
  mkShard [serving_leader; demo_follower p2 98 "streaming"; demo_follower p4 99 "streaming"] (100 * second)
    DefaultAvailabilityPolicy [] None.

(** [p2] was recruited at term 5 by a coordinator that never came back. *)
Definition demo_stranded : option PoolerHealthState :=
  let r1 := demo_rule 1 p1 [p1; p2; p3] (at_least 2) in
  Some (mkPoolerHealthState (Some (mkMultipooler p2 "b" ∅)) (ts 199)
    (demo_status p2 (demo_revocation 5 (rn 1 0)) (decided r1) "0/10") None None
    (Some (mkStatus None None true true POSTGRES_STATUS_STANDBY true 0))).

Definition demo_abandoned : Shard :=
  mkShard [demo_leader 199 None; demo_stranded] (200 * second) DefaultAvailabilityPolicy [] None.

Lemma stranded_follower_has_one_owner_witness :
  exists p, RecruitAbandoned_analyzePooler (Some demo_factory) demo_abandoned demo_stranded = Ok (Some p) /\
    ReplicaNotReplicating_analyzePooler (Some demo_factory) demo_abandoned demo_stranded = Ok None.
Proof.
  assert (exists p, RecruitAbandoned_analyzePooler (Some demo_factory) demo_abandoned demo_stranded = Ok (Some p))
    as [p Hp] by (eexists; vm_compute; reflexivity).
  exists p. exact (conj Hp (proj1 (stranded_follower_has_one_owner _ _ _ _ Hp))).
Defined.

Definition not_ahead (a b : option PoolerHealthState) : Prop := compareLeaderTimeline a b <= 0.

#[export] Instance not_ahead_dec a b : Decision (not_ahead a b).
Proof. unfold not_ahead. apply _. Defined.
#[export] Instance not_ahead_trans : Transitive not_ahead.
Proof. intros a b c. unfold not_ahead, compareLeaderTimeline. apply cmp_trans. Qed.
#[export] Instance not_ahead_total : Total not_ahead.
Proof. intros a b. apply (cmp_total CompareRulePosition). Qed.

Lemma StronglySorted_lookup {A} (rel : A -> A -> Prop) l i j a b :
  StronglySorted rel l -> (i < j)%nat -> l !! i = Some a -> l !! j = Some b -> rel a b.
Proof.
  intros Hs. revert i j. induction Hs as [|x l Hs IH Hall]; intros i j Hij Hi Hj; [done|].
  destruct j as [|j]; [lia|]. destruct i as [|i]; cbn in *.
  - injection Hi as <-. rewrite Forall_forall in Hall. apply Hall. by eapply list_elem_of_lookup_2.
  - apply (IH i j); [lia|done|done].
Qed.

Definition sort_by_timeline (l : list (option PoolerHealthState)) : list (option PoolerHealthState) :=
  merge_sort not_ahead l.

(** [p2] still believes in rule 1 although [p1] leads at rule 3. *)
Definition demo_two_leaders : Shard :=
  let old := demo_rule 1 p2 [p1; p2; p3] (at_least 2) in
  let new := demo_rule 3 p1 [p1; p2; p3] (at_least 2) in
  let h id rule := Some (mkPoolerHealthState (Some (mkMultipooler id "h" ∅)) (ts 99)
    (demo_status id None (decided rule) "0/10") None None None) in
  mkShard [h p1 new; h p2 old] (100 * second) DefaultAvailabilityPolicy [] None.

Lemma stale_leaders_demoted_in_order_witness :
  exists problems, StaleLeader_Analyze (Some demo_factory) sort_by_timeline demo_two_leaders = Ok problems /\
    map PoolerID problems = [p2] /\
    map PoolerID problems ≡ₚ map poolerID (staleLeaders demo_two_leaders p1).
Proof.
  eexists. split; [vm_compute; reflexivity|]. split; [reflexivity|].
  refine (proj1 (stale_leaders_demoted_in_order demo_factory sort_by_timeline demo_two_leaders
    (mkID MULTIPOOLER "zone1" "a") _ _ _ _ _)).
  - intros l. apply merge_sort_Permutation.
  - intros l i j a b Hij Hi Hj. refine (StronglySorted_lookup not_ahead _ i j a b _ Hij Hi Hj).
    apply (StronglySorted_merge_sort not_ahead).
  - vm_compute. reflexivity.
  - vm_compute. reflexivity.
Defined.
