(* ===== verification/Actions.v ===== *)
(** Two recovery actions of go/services/multiorch/recovery/actions: the change of a
    cohort (reconcile_cohort.go) and the first cohort of a shard
    (shard_init_action.go), composed with the analyzers that ask for them and the
    coordinator that carries them out. *)

From stdpp Require Import base strings list gmap.
From S2P Require Import Prelude ClusterMetadata Demo TopoId Ordering Compare Cohort.
From S2P Require Import Durability CohortSafety Revocation Proposals ProposalFacts ProposalSafety.
From S2P Require Import Backoff Health.
From S2P Require Import FailoverBackoff RuleChange Coordinator CoordinatorSafety.
From S2P Require Import Snapshot LeaderReplacement Analyzers.

Local Open Scope Z_scope.

(** ** reconcile_cohort.go *)

Inductive RuleOperation :=
| RULE_OPERATION_UNSPECIFIED
| RULE_OPERATION_COHORT_ADD
| RULE_OPERATION_COHORT_REMOVE
| RULE_OPERATION_ADVANCE
| RULE_OPERATION_UNNAMED (wire : Z).

#[export] Instance RuleOperation_eq_dec : EqDecision RuleOperation.
Proof. solve_decision. Defined.

Record UpdateConsensusRuleRequest := mkUpdateConsensusRuleRequest {
  Operation : RuleOperation;
  StandbyIds : IDs;
  ExpectedOutgoingRule : option RuleNumber
}.

Record RecheckedProblem := mkRecheckedProblem {
  rp_Problem : Problem;
  rp_HighestKnownRule : option RulePosition
}.

Inductive ActionCall :=
| CallUpdateConsensusRule (to : Multipooler) (req : UpdateConsensusRuleRequest)
| CallStatus (to : Multipooler)
| CallMemberSetPrimary (to : Multipooler) (primary : option ReplicationPrimary).

(** The pooler cache by component ID, the leader's answers. *)
Record ReconcileEnv := mkReconcileEnv {
  FindPoolerByID : option ID -> result (option PoolerHealthState);
  rpc_UpdateConsensusRule : Multipooler -> UpdateConsensusRuleRequest -> option gerror;
  rpc_LeaderStatus : Multipooler -> result (option ConsensusStatus)
}.

Section runtime.
  Context `{R : Runtime}.

Definition clearJoiningMemberArchive (env : ReconcileEnv) (leader target : Multipooler) : list ActionCall :=
  CallStatus leader ::
  match rpc_LeaderStatus env leader with
  | Err _ => []
  | Ok status =>
      match HighestKnownRule [status] with
      | None => []
      | Some postAddRule =>
          [CallMemberSetPrimary target (Some {|
             rp_Position := Some postAddRule;
             rp_Primary := PoolerAddressFor (Some leader);
             RewindReady := GetRewindReady (ReplicationPrimaryOrNil status) |})]
      end
  end.

(** The checks before the rule is changed: the operation, the joining pooler, the
    ID to add or remove, the leader and its record. *)
Definition reconcile_plan (env : ReconcileEnv) (now : Z) (rechecked : RecheckedProblem)
    : result (RuleOperation * option Multipooler * option ID * Multipooler) :=
  let problem := rp_Problem rechecked in
  let rule := rp_HighestKnownRule rechecked in
  if bool_decide (PoolerID problem = None) then Err (err "panic: nil PoolerID")
  else
  op ← match Code problem with
       | ProblemPoolerNotInCohort => Ok RULE_OPERATION_COHORT_ADD
       | ProblemCohortMemberIneligible => Ok RULE_OPERATION_COHORT_REMOVE
       | _ => Err (err "unsupported problem code for reconcile cohort")
       end;
  if bool_decide (rule = None) then Err (err "no consensus rule known for shard")
  else if negb (IsRuleDecided rule) then
    Err (err "shard has an undecided rule proposal; cohort reconciliation requires a decided rule")
  else
    let decidedRule := GetDecision rule in
    '(target, targetID) ←
      match op with
      | RULE_OPERATION_COHORT_ADD =>
          t ← wrap_result "failed to find target pooler" (FindPoolerByID env (PoolerID problem));
          mp ← deref_Multipooler t;
          Ok (Some mp, mp_Id mp)
      | _ => Ok (None, PoolerID problem)
      end;
    leader ← wrap_result "failed to find leader named by consensus rule"
               (FindPoolerByID env (GetLeaderId decidedRule));
    if negb (LeaderWritesProgressing leader rule now DefaultLeaderWriteFreshness) then
      Err (err "leader does not look able to commit writes right now")
    else
      leaderMp ← deref_Multipooler leader;
      Ok (op, target, targetID, leaderMp).

Definition ReconcileCohort_Execute (env : ReconcileEnv) (now : Z) (rechecked : RecheckedProblem)
    : list ActionCall * option gerror :=
  match reconcile_plan env now rechecked with
  | Err e => ([], Some e)
  | Ok (op, target, targetID, leader) =>
      let req := {| Operation := op; StandbyIds := [targetID];
                    ExpectedOutgoingRule := GetRuleNumber (GetDecision (rp_HighestKnownRule rechecked)) |} in
      let update := CallUpdateConsensusRule leader req in
      match wrap_err "UpdateConsensusRule failed" (rpc_UpdateConsensusRule env leader req) with
      | Some e => ([update], Some e)
      | None =>
          (update :: match op, target with
                     | RULE_OPERATION_COHORT_ADD, Some t => clearJoiningMemberArchive env leader t
                     | _, _ => []
                     end, None)
      end
  end.

(** ** shard_init_action.go *)

(** The poolers usable for the first cohort, or that a cohort exists already. *)
Fixpoint getInitializedPoolers (now : Z) (poolers : list (option PoolerHealthState))
    : list (option PoolerHealthState) * bool :=
  match poolers with
  | [] => ([], false)
  | p :: rest =>
      if bool_decide (GetMultipooler p = None) || bool_decide (poolerID p = None)
      then getInitializedPoolers now rest
      else if has_cohort p then ([], true)
      else
        let '(initialized, established) := getInitializedPoolers now rest in
        if established then ([], true)
        else (if freshAndInitialized p now DefaultObservationFreshness then p :: initialized else initialized, false)
  end.

Definition buildCohortFromIDs (poolers : list (option PoolerHealthState)) (committedIDs : IDs)
    : list (option PoolerHealthState) :=
  filter (fun p => ClusterIDString (poolerID p) ∈ map ClusterIDString committedIDs) poolers.

(** [claim] is [topoStore.ClaimShardInitialization] for this shard. *)
Definition ShardInit_Execute (allowUnsafeInitialCohort : bool) (c : Coordinator) (topo : TopoStore)
    (claim : option ID -> IDs -> result (bool * IDs)) (rpc : MultipoolerClient) (dl : Delivery) (dr : Draws)
    (at_ : Timestamp) (now : Z) (shardKey : option ShardKey) (shard : list (option PoolerHealthState))
    : Coordinator * (list Call * option gerror) :=
  let '(initializedPoolers, cohortEstablished) := getInitializedPoolers now shard in
  if cohortEstablished then (c, ([], None))
  else if len initializedPoolers =? 0 then (c, ([], Some (err "no initialized poolers found for shard")))
  else
    let '(policyProto, c') := GetBootstrapPolicy c topo (getp "" sk_Database shardKey) in
    let prepared :=
      policyProto ← wrap_result "failed to load durability policy from topology" policyProto;
      durabilityPolicy ← wrap_result "failed to parse durability policy" (NewPolicyFromProto policyProto);
      let initialized := map poolerID initializedPoolers in
      (guard! const (err "insufficient initialized poolers for initial cohort") <$>
        SatisfiedBy durabilityPolicy initialized;
      if negb allowUnsafeInitialCohort &&
         negb (CohortSurvivesAnyMemberLoss (Some durabilityPolicy) initialized)
      then Err (err "initialized poolers satisfy the durability policy but aren't failure-safe")
      else
        '(won, committedIDs) ← wrap_result "failed to claim shard initialization"
                                 (claim (coordinatorID c') initialized);
        if negb won then Ok None
        else
          let committedCohort := buildCohortFromIDs initializedPoolers committedIDs in
          let committedCohortIDs := map poolerID committedCohort in
          guard! const (err "insufficient committed cohort poolers reachable") <$>
            SatisfiedBy durabilityPolicy committedCohortIDs;
          if negb allowUnsafeInitialCohort &&
             negb (CohortSurvivesAnyMemberLoss (Some durabilityPolicy) committedCohortIDs)
          then Err (err "committed cohort satisfies the durability policy but isn't failure-safe")
          else Ok (Some committedCohort))%go in
    match prepared with
    | Err e => (c', ([], Some e))
    | Ok None => (c', ([], None))
    | Ok (Some committedCohort) =>
        let '(c'', (calls, e)) := AppointInitialLeader c' topo rpc dl dr at_ now shardKey committedCohort in
        (c'', (calls, wrap_err "failed to appoint initial leader" e))
    end.

(** ** The members of a shard (store/pooler_store.go) *)

Record ShardMembers := mkShardMembers {
  sm_Poolers : list (option PoolerHealthState);
  HighestKnownPosition : option RulePosition;
  sm_Leader : option (option PoolerHealthState)
}.

(** Over the poolers the cache holds for the shard. *)
Definition FindShardMembers (poolers : list (option PoolerHealthState)) : ShardMembers :=
  let position := HighestKnownRule (consensusStatusesOf poolers) in
  let leaderID := GetLeaderId (PossiblyUndecidedRule position) in
  {| sm_Poolers := poolers;
     HighestKnownPosition := position;
     sm_Leader := match leaderID with
                  | None => None
                  | Some _ => List.find (fun p => proto_equal (poolerID p) leaderID) poolers
                  end |}.

(** ** reconnect_recruit_abandoned.go *)

(** [update] answers an UpdateConsensusRule with the position the leader reports,
    [set_primary] a SetPrimary. *)
Definition ReconnectRecruitAbandoned_Execute (env : ReconcileEnv)
    (update : Multipooler -> UpdateConsensusRuleRequest -> result (option RulePosition))
    (set_primary : Multipooler -> option ReplicationPrimary -> option gerror)
    (poolers : list (option PoolerHealthState)) (rechecked : RecheckedProblem)
    : list ActionCall * option gerror :=
  let problem := rp_Problem rechecked in
  let members := FindShardMembers poolers in
  if bool_decide (PoolerID problem = None) then ([], Some (err "panic: nil PoolerID"))
  else match wrap_result "failed to find stranded follower" (FindPoolerByID env (PoolerID problem)) with
  | Err e => ([], Some e)
  | Ok follower =>
      match sm_Leader members, HighestKnownPosition members with
      | None, _ | _, None => ([], Some (err "no consensus leader known for shard"))
      | Some leader, Some position =>
          match deref_pooler leader, deref_pooler follower with
          | Err panic, _ | _, Err panic => ([], Some panic)
          | Ok leaderMp, Ok followerMp =>
              let revocation := GetTermRevocation (GetConsensusStatus follower) in
              let relay calls advanced :=
                let primary := Some {|
                  rp_Position := advanced;
                  rp_Primary := PoolerAddressFor (Some leaderMp);
                  RewindReady := GetRewindReady (ReplicationPrimaryOrNil (GetConsensusStatus leader)) |} in
                (calls ++ [CallMemberSetPrimary followerMp primary],
                 wrap_err "SetPrimary to reconnect stranded follower failed" (set_primary followerMp primary)) in
              if IsRuleRevoked (Some position) revocation then
                if negb (IsRuleDecided (Some position)) then
                  ([], Some (err "shard has an undecided proposal; cannot advance rule yet"))
                else
                  let req := {| Operation := RULE_OPERATION_ADVANCE; StandbyIds := [];
                                ExpectedOutgoingRule := GetRuleNumber (GetDecision (Some position)) |} in
                  let calls := [CallUpdateConsensusRule leaderMp req] in
                  match wrap_result "leader-led rule advance failed" (update leaderMp req) with
                  | Err e => (calls, Some e)
                  | Ok advanced =>
                      if IsRuleRevoked advanced revocation then
                        (calls, Some (err "leader reported rule still short of the follower's revocation after advancing"))
                      else relay calls advanced
                  end
              else relay [] (Some position)
          end
      end
  end.

(** ** demote_stale_leader.go *)

Definition DemoteStaleLeader_Execute (env : ReconcileEnv)
    (set_primary : Multipooler -> option ReplicationPrimary -> option gerror)
    (poolers : list (option PoolerHealthState)) (rechecked : RecheckedProblem)
    : list ActionCall * option gerror :=
  let problem := rp_Problem rechecked in
  let members := FindShardMembers poolers in
  match FindPoolerByID env (PoolerID problem) with
  | Err _ => ([], Some (err "stale leader not found in store"))
  | Ok staleLeader =>
      match sm_Leader members, HighestKnownPosition members with
      | None, _ | _, None => ([], Some (err "no consensus leader known for shard"))
      | Some correctLeader, Some correctPosition =>
          if proto_equal (poolerID correctLeader) (PoolerID problem) then ([], None)
          else match deref_pooler correctLeader, deref_Multipooler staleLeader with
          | Err panic, _ | _, Err panic => ([], Some panic)
          | Ok leaderMp, Ok staleMp =>
              let primary := Some {|
                rp_Position := Some correctPosition;
                rp_Primary := PoolerAddressFor (Some leaderMp);
                RewindReady := GetRewindReady (ReplicationPrimaryOrNil (GetConsensusStatus correctLeader)) |} in
              ([CallMemberSetPrimary staleMp primary],
               wrap_err "SetPrimary RPC failed" (set_primary staleMp primary))
          end
      end
  end.

(** ** Cohort changes *)

Context `{!RuntimeLaws R}.

Lemma reconcile_plan_Ok env now rechecked op target id leader :
  reconcile_plan env now rechecked = Ok (op, target, id, leader) ->
  let rule := rp_HighestKnownRule rechecked in
  let problem := rp_Problem rechecked in
  IsRuleDecided rule = true /\
  (exists h, FindPoolerByID env (GetLeaderId (GetDecision rule)) = Ok h /\ GetMultipooler h = Some leader /\
     LeaderWritesProgressing h rule now DefaultLeaderWriteFreshness = true) /\
  (op = RULE_OPERATION_COHORT_ADD /\ Code problem = ProblemPoolerNotInCohort /\
     (exists t mp, FindPoolerByID env (PoolerID problem) = Ok t /\ GetMultipooler t = Some mp /\
        target = Some mp /\ id = mp_Id mp) \/
   op = RULE_OPERATION_COHORT_REMOVE /\ Code problem = ProblemCohortMemberIneligible /\
     target = None /\ id = PoolerID problem).
Proof.
  intros H rule problem. unfold reconcile_plan in H. fold rule problem in H.
  case_bool_decide; [done|]. inv_ok. rename a into op'.
  case_bool_decide; [done|]. destruct (IsRuleDecided rule) eqn:Hd; [|done]. cbn [negb] in H. inv_ok.
  destruct a as [target' id']. inv_ok. rename a into lh.
  destruct (LeaderWritesProgressing _ _ _ _) eqn:Hw; [|done]. cbn [negb] in H. inv_ok.
  split; [done|]. split.
  - exists lh. unfold deref_Multipooler in *. destruct (GetMultipooler lh); inv_ok. done.
  - destruct (Code problem) eqn:Hc; inv_ok.
    + left. split_and!; [done..|]. exists a, a0. unfold deref_Multipooler in *.
      destruct (GetMultipooler a); inv_ok. done.
    + right. done.
Qed.

(** A cohort change is applied to the rule it was judged on.  From a problem
    the cohort analyzer found in a snapshot, the action asks the leader named by
    that snapshot's decided rule, conditionally on that rule being in force, to add
    exactly one pooler that is outside the cohort, recently observed, eligible,
    unblocked and streaming, or to remove exactly one member whose removal leaves a
    shard that survives its leader or that is known to be shut down. *)
Theorem cohort_change_acts_on_checked_rule f order sa problems p env now calls e mp req :
  (forall l, order l ≡ₚ l) ->
  (forall id h m, FindPoolerByID env id = Ok h -> GetMultipooler h = Some m -> mp_Id m = id) ->
  CohortMismatch_Analyze (Some f) order sa = Ok problems -> p ∈ problems ->
  ReconcileCohort_Execute env now (mkRecheckedProblem p (HighestIntendedRule sa)) = (calls, e) ->
  CallUpdateConsensusRule mp req ∈ calls ->
  let rule := GetDecision (HighestIntendedRule sa) in
  let in_cohort := exists id, id ∈ GetCohortMembers rule /\
    ComponentIDString id = ComponentIDString (PoolerID p) in
  IsRuleDecided (HighestIntendedRule sa) = true /\
  ExpectedOutgoingRule req = GetRuleNumber rule /\
  mp_Id mp = GetLeaderId rule /\ StandbyIds req = [PoolerID p] /\
  (Operation req = RULE_OPERATION_COHORT_ADD /\ ~ in_cohort /\
     (exists h, h ∈ Poolers sa /\ poolerID h = PoolerID p /\ may_join sa h) \/
   Operation req = RULE_OPERATION_COHORT_REMOVE /\ in_cohort /\
     (IsCohortMemberRemovalSafe rule (PoolerID p) = true \/
      ComponentIDString (PoolerID p) ∈ TombstoneIDs sa)).
Proof.
  intros Hord Hstore Ha Hp Hx Hin rule in_cohort.
  destruct (cohort_changes_justified _ _ _ _ _ Hord Ha Hp) as [_ Hj].
  unfold ReconcileCohort_Execute in Hx.
  destruct (reconcile_plan _ _ _) as [[[[op target] id] leader]|] eqn:Hplan.
  2: { no_calls Hx Hin. }
  apply reconcile_plan_Ok in Hplan as (Hd & (h & Hf & Hm & _) & Hop).
  cbn [rp_HighestKnownRule rp_Problem] in *.
  assert (PossiblyUndecidedRule (HighestIntendedRule sa) = rule) as Hrule
    by (unfold PossiblyUndecidedRule; by rewrite Hd).
  rewrite Hrule in Hj.
  assert (mp = leader /\ req = {| Operation := op; StandbyIds := [id]; ExpectedOutgoingRule := GetRuleNumber rule |})
    as [-> ->].
  { destruct (wrap_err _ _); injection Hx as <- <-; apply elem_of_cons in Hin as [Hin|Hin];
      try (injection Hin as -> ->; done); [by apply elem_of_nil in Hin|].
    unfold clearJoiningMemberArchive in Hin.
    repeat (case_match; try (apply elem_of_cons in Hin as [?|Hin]); try done; try (by apply elem_of_nil in Hin)). }
  cbn. split_and!; [done|done|by eapply Hstore| |].
  - destruct Hop as [(_ & _ & t & m & Ht & Htm & _ & ->)|(_ & _ & _ & ->)]; [|done].
    by rewrite (Hstore _ _ _ Ht Htm).
  - destruct Hj as [(Hc & Hn & Hh)|(Hc & Hi & Hs)], Hop as [(-> & Hc' & _)|(-> & Hc' & _)];
      try congruence; [by left|by right].
Qed.

(** ** Reconnecting and demoting *)

(** A stranded follower is only told of a rule it will accept.  Whatever the
    leader answers, the position relayed to the follower is not revoked by the
    promise it was seen to hold; and the leader's rule is only advanced under the
    decided rule it was read at. *)
Theorem reconnect_relays_accepted_rule env update set_primary poolers rechecked calls e call :
  ReconnectRecruitAbandoned_Execute env update set_primary poolers rechecked = (calls, e) -> call ∈ calls ->
  exists follower, FindPoolerByID env (PoolerID (rp_Problem rechecked)) = Ok follower /\
  match call with
  | CallMemberSetPrimary to primary =>
      GetMultipooler follower = Some to /\
      IsRuleRevoked (rp_GetPosition primary) (GetTermRevocation (GetConsensusStatus follower)) = false
  | CallUpdateConsensusRule to req =>
      let position := HighestKnownPosition (FindShardMembers poolers) in
      Operation req = RULE_OPERATION_ADVANCE /\ IsRuleDecided position = true /\
      ExpectedOutgoingRule req = GetRuleNumber (GetDecision position) /\
      IsRuleRevoked position (GetTermRevocation (GetConsensusStatus follower)) = true
  | CallStatus _ => False
  end.
Proof.
  unfold ReconnectRecruitAbandoned_Execute. intros H Hin.
  case_bool_decide; [no_calls H Hin|].
  destruct (FindPoolerByID env _) as [follower|] eqn:Hf; cbn [wrap_result] in H;
    [|no_calls H Hin].
  exists follower. split; [done|].
  destruct (sm_Leader _) as [leader|]; [|no_calls H Hin].
  destruct (HighestKnownPosition _) as [position|] eqn:Hpos; [|no_calls H Hin].
  destruct (deref_pooler leader) as [lmp|]; [|no_calls H Hin].
  destruct (deref_pooler follower) as [fmp|] eqn:Hd; [|no_calls H Hin].
  assert (GetMultipooler follower = Some fmp) as Hmp.
  { unfold deref_pooler, deref_Multipooler in Hd. destruct (GetMultipooler follower); [|done]. cbn in Hd.
    destruct (mp_Id _); inv_ok. done. }
  destruct (IsRuleRevoked (Some position) _) eqn:Hrev.
  - destruct (IsRuleDecided (Some position)) eqn:Hdec; cbn [negb] in H;
      [|no_calls H Hin].
    destruct (update _ _) as [advanced|]; cbn [wrap_result] in H;
      [|injection H as <- <-; by apply list_elem_of_singleton in Hin as ->].
    destruct (IsRuleRevoked advanced _) eqn:Hadv; injection H as <- <-;
      [by apply list_elem_of_singleton in Hin as ->|].
    apply elem_of_cons in Hin as [->| ->%list_elem_of_singleton]; done.
  - injection H as <- <-. by apply list_elem_of_singleton in Hin as ->.
Qed.

(** A demotion never targets the leader the shard's highest rule names, and carries
    that very rule. *)
Lemma demote_spares_leader env set_primary poolers rechecked calls e to primary :
  (forall id h m, FindPoolerByID env id = Ok h -> GetMultipooler h = Some m -> mp_Id m = id) ->
  DemoteStaleLeader_Execute env set_primary poolers rechecked = (calls, e) ->
  CallMemberSetPrimary to primary ∈ calls ->
  let position := HighestKnownRule (consensusStatusesOf poolers) in
  mp_Id to = PoolerID (rp_Problem rechecked) /\
  mp_Id to <> GetLeaderId (PossiblyUndecidedRule position) /\ rp_GetPosition primary = position.
Proof.
  intros Hstore H Hin position. unfold DemoteStaleLeader_Execute in H.
  destruct (FindPoolerByID env _) as [stale|] eqn:Hf; [|no_calls H Hin].
  cbn [FindShardMembers sm_Leader HighestKnownPosition] in H. fold position in H.
  destruct (GetLeaderId (PossiblyUndecidedRule position)) as [lid|] eqn:Hlid;
    [|no_calls H Hin].
  destruct (List.find _ poolers) as [leader|] eqn:Hfind; [|no_calls H Hin].
  destruct position as [pos|] eqn:Hpos; [|no_calls H Hin].
  apply List.find_some in Hfind as [_ Heq]. apply proto_equal_spec in Heq.
  destruct (proto_equal (poolerID leader) _) eqn:Hne; [no_calls H Hin|].
  destruct (deref_pooler leader); [|no_calls H Hin].
  destruct (deref_Multipooler stale) as [smp|] eqn:Hs; [|no_calls H Hin].
  injection H as <- <-. apply list_elem_of_singleton in Hin. injection Hin as -> ->.
  assert (mp_Id smp = PoolerID (rp_Problem rechecked)) as Hid.
  { unfold deref_Multipooler in Hs. destruct (GetMultipooler stale) eqn:Hm; inv_ok. by eapply Hstore. }
  split_and!; [done| |done]. rewrite Hid, <- Heq. intros Heq'.
  by rewrite (proj2 (proto_equal_spec _ _ _) (eq_sym Heq')) in Hne.
Qed.

(** ** The first cohort *)

Lemma getInitializedPoolers_spec now poolers l :
  getInitializedPoolers now poolers = (l, false) ->
  (forall p, p ∈ poolers -> is_Some (poolerID p) -> has_cohort p = false) /\
  forall p, p ∈ l -> p ∈ poolers /\ is_Some (poolerID p) /\
    freshAndInitialized p now DefaultObservationFreshness = true.
Proof.
  revert l. induction poolers as [|p poolers IH]; intros l H; cbn in H.
  { injection H as <-. split; intros ? ?%elem_of_nil; done. }
  destruct (_ || _) eqn:Hn.
  { destruct (IH _ H) as [H1 H2]. split.
    - intros q [->|Hq]%elem_of_cons Hs; [|auto]. exfalso. apply orb_true_iff in Hn as [Hn|Hn];
        apply bool_decide_eq_true in Hn; [|by rewrite Hn in Hs; destruct Hs].
      unfold poolerID in Hs. rewrite Hn in Hs. by destruct Hs.
    - intros q Hq. destruct (H2 q Hq) as (? & ? & ?). split_and!; [by right|done..]. }
  destruct (has_cohort p) eqn:Hc; [done|].
  destruct (getInitializedPoolers now poolers) as [initialized []]; [done|].
  injection H as <-. destruct (IH _ eq_refl) as [H1 H2]. reflect_bools. split.
  - intros q [->|Hq]%elem_of_cons Hs; auto.
  - intros q Hq. destruct (freshAndInitialized p _ _) eqn:Hfr.
    + apply elem_of_cons in Hq as [->|Hq]; [split_and!; [left| |done]; by destruct (poolerID p)|].
      destruct (H2 q Hq) as (? & ? & ?). split_and!; [by right|done..].
    + destruct (H2 q Hq) as (? & ? & ?). split_and!; [by right|done..].
Qed.

End runtime.

Section init.
  Context `{R : Runtime} `{!RuntimeLaws R} (dl : Delivery) `{!FairDelivery dl}.

Definition call_to (call : Call) : Multipooler :=
  match call with CallRecruit p _ | CallPromote p _ | CallSetPrimary p _ => p end.

Lemma poolerIDs_Ok cohort ids : poolerIDs cohort = Ok ids -> ids = map poolerID cohort.
Proof.
  unfold poolerIDs. intros H. inv_ok. apply each_Ok in Hbind.
  induction Hbind as [|p m l ms Hp _ IH]; [done|]. cbn. f_equal; [|done].
  unfold deref_Multipooler in Hp. unfold poolerID. destruct (GetMultipooler p); inv_ok. done.
Qed.

(** A bootstrap only calls the poolers of its cohort, and promotes one of them to
    lead exactly that cohort under the bootstrap policy. *)
Lemma AppointInitialLeader_calls c topo rpc dr at_ now sk cohort c' calls e call :
  AppointInitialLeader c topo rpc dl dr at_ now sk cohort = (c', (calls, e)) -> call ∈ calls ->
  exists policy, fst (GetBootstrapPolicy c topo (getp "" sk_Database sk)) = Ok policy /\
    (exists p, p ∈ cohort /\ GetMultipooler p = Some (call_to call)) /\
    forall mp req, call = CallPromote mp req ->
      let rule := GetProposal (GetProposedTransition (pr_Proposal req)) in
      GetCohortMembers rule = map poolerID cohort /\ GetDurabilityPolicy rule = policy /\
      exists leader, GetLeaderId rule = GetId leader /\ ClusterIDString (mp_Id mp) = ClusterIDString (GetId leader).
Proof.
  unfold AppointInitialLeader. intros H Hin.
  destruct (len cohort =? 0); [injection H as <- <- <-; by apply elem_of_nil in Hin|].
  destruct (GetBootstrapPolicy _ _ _) as [policy c1] eqn:Hpol. injection H as <- H.
  destruct policy as [policy|]; cbn [wrap_result] in H; [|no_calls H Hin].
  exists policy. split; [done|].
  destruct (MostAdvancedPosition _) as [top|]; [|no_calls H Hin].
  destruct (NewTermRevocation _ _ _ _) as [rev|]; [|no_calls H Hin].
  destruct (buildCohortMaps cohort) as [[addr health]|] eqn:Hmaps; [|no_calls H Hin].
  destruct (poolerIDs cohort) as [ids|] eqn:Hids; [|no_calls H Hin].
  apply poolerIDs_Ok in Hids as ->.
  destruct (Run_calls _ _ _ _ _ _ _ _ _ H Hin) as (p & Hp & Hpm).
  split; [exists p; destruct call; done|].
  intros mp req ->. cbv zeta.
  apply Run_cases in H as [[_ Hc]|(poolers & n & statuses & req' & Hrun)]; [by destruct (Hc _ Hin)| |done].
  pose proof (run_built _ _ _ _ _ _ _ _ _ _ _ _ Hrun) as Hb. cbn in Hb.
  destruct (certified_leader _ _ _ _ Hb) as (basis & pos & leaders & _ & _ & _ & _ & Hbuild & _).
  rewrite (run_calls _ _ _ _ _ _ _ _ _ _ _ _ Hrun) in Hin.
  apply elem_of_app in Hin as [(? & ? & _)%list_elem_of_fmap|(q & Hq & Heq)%elem_of_promotes]; [done|].
  destruct (is_leader_key _ q) eqn:Hk; [|done]. injection Heq as -> ->. apply String.eqb_eq in Hk.
  unfold buildBootstrapProposal in Hbuild. cbn in Hbuild. destruct leaders as [|leader rest]; [done|].
  destruct (addr !! _) as [ad|] eqn:Had; [|done]. injection Hbuild as Hprop.
  destruct (buildCohortMaps_Ok _ _ _ _ _ Hmaps Had) as (h & m & _ & _ & Hkey & ->).
  rewrite <- Hprop in *. cbn in *. split_and!; [done..|].
  exists leader. split; [done|]. by rewrite Hk.
Qed.

Lemma GetBootstrapPolicy_again c topo db policy c' :
  GetBootstrapPolicy c topo db = (Ok policy, c') ->
  GetBootstrapPolicy c' topo db = (Ok policy, c') /\ coordinatorID c' = coordinatorID c.
Proof.
  unfold GetBootstrapPolicy. destruct (policyCache c !! db) as [cached|] eqn:Hc.
  - intros [=<- <-]. by rewrite Hc.
  - destruct (topo_GetDatabase topo db) as [[p|]|]; intros H; try done. injection H as <- <-. cbn.
    by rewrite lookup_insert_eq.
Qed.

(** C37: A shard is bootstrapped with a cohort that survives.  A run of the
    bootstrap action calls a pooler only when no pooler of the shard it was given
    records a cohort and the claim was answered as won; every pooler it calls is
    of the claimed cohort, freshly observed and initialized; those poolers
    satisfy the bootstrap policy and, unless the operator opted out, when their
    IDs are valid (non-nil, no underscore in a cell) any one of them can be lost:
    the others are a majority of the cohort and include a pooler of every set
    of its members that could make a write durable (the others need not
    satisfy the policy by themselves); and the leader it promotes leads exactly
    that cohort under exactly that policy. *)
Theorem bootstrap_cohort_is_safe unsafe c topo claim rpc dr at_ now sk shard c' calls e call :
  ShardInit_Execute unsafe c topo claim rpc dl dr at_ now sk shard = (c', (calls, e)) -> call ∈ calls ->
  exists policyProto policy offered committed cohort,
    fst (GetBootstrapPolicy c topo (getp "" sk_Database sk)) = Ok policyProto /\
    NewPolicyFromProto policyProto = Ok policy /\
    (forall p, p ∈ shard -> is_Some (poolerID p) -> has_cohort p = false) /\
    claim (coordinatorID c) offered = Ok (true, committed) /\
    (forall p, p ∈ cohort -> p ∈ shard /\ freshAndInitialized p now DefaultObservationFreshness = true /\
       ClusterIDString (poolerID p) ∈ map ClusterIDString committed) /\
    SatisfiedBy policy (map poolerID cohort) = None /\
    (unsafe = false -> Forall valid_id (map poolerID cohort) -> forall lost, lost ∈ cohort ->
       let keys := poolerKeysOf (map poolerID cohort) in
       let rest := keys ∖ {[ClusterIDString (poolerID lost)]} in
       Z.of_nat (size keys) / 2 < Z.of_nat (size rest) /\
       forall quorum, Forall valid_id quorum -> poolerKeysOf quorum ⊆ keys -> SatisfiedBy policy quorum = None ->
         exists k, k ∈ poolerKeysOf quorum /\ k ∈ rest) /\
    (exists p, p ∈ cohort /\ GetMultipooler p = Some (call_to call)) /\
    forall mp req, call = CallPromote mp req ->
      let rule := GetProposal (GetProposedTransition (pr_Proposal req)) in
      GetCohortMembers rule = map poolerID cohort /\ GetDurabilityPolicy rule = policyProto.
Proof.
  unfold ShardInit_Execute. intros H Hin.
  destruct (getInitializedPoolers now shard) as [initialized []] eqn:Hi;
    [injection H as <- <- <-; by apply elem_of_nil in Hin|].
  destruct (len initialized =? 0); [injection H as <- <- <-; by apply elem_of_nil in Hin|].
  destruct (GetBootstrapPolicy _ _ _) as [policyProto c1] eqn:Hpol.
  match goal with H : match ?x with Ok _ => _ | Err _ => _ end = _ |- _ => destruct x as [[cohort|]|] eqn:Hprep end;
    [|injection H as <- <- <-; by apply elem_of_nil in Hin..].
  inv_ok. rename a into proto, a0 into policy.
  destruct (negb unsafe && _) in Hprep; [done|]. inv_ok. destruct a as [won committed].
  destruct won; cbn [negb] in Hprep; [|done]. inv_ok.
  destruct (negb unsafe && _) eqn:Hs2 in Hprep; [done|]. injection Hprep as <-.
  destruct (AppointInitialLeader _ _ _ _ _ _ _ _ _) as [c2 [calls2 e2]] eqn:Happ. injection H as <- <- <-.
  destruct (GetBootstrapPolicy_again _ _ _ _ _ Hpol) as [Hagain Hcid].
  destruct (AppointInitialLeader_calls _ _ _ _ _ _ _ _ _ _ _ _ Happ Hin) as (p' & Hp' & Htarget & Hprom).
  rewrite Hagain in Hp'. injection Hp' as <-.
  destruct (getInitializedPoolers_spec _ _ _ Hi) as [Hnone Hinit].
  eexists proto, policy, _, committed, _. split_and!; try done.
  - by rewrite <- Hcid.
  - intros q [Hk Hq]%list_elem_of_filter. destruct (Hinit q Hq) as (? & ? & ?). done.
  - by apply fmap_None in Hchk0.
  - intros -> Hv lost Hlost. cbn [negb andb] in Hs2. apply negb_false_iff in Hs2.
    by apply (survives_any_loss _ _ _ Hv Hs2), list_elem_of_fmap_2.
  - intros mp req Hc. by destruct (Hprom mp req Hc) as (? & ? & _).
Qed.

End init.

(** ** Examples *)

(** The cache answers with the pooler of the snapshot, and every call succeeds. *)
Definition demo_cache (id : option ID) : result (option PoolerHealthState) :=
  if decide (id = p1) then Ok serving_leader
  else if decide (id = p2) then Ok demo_stranded
  else if decide (id = p4) then Ok (demo_follower p4 99 "streaming")
  else Err (err "not found").

Definition demo_env : ReconcileEnv := mkReconcileEnv demo_cache (fun _ _ => None) (fun _ => Err (err "unused")).

Lemma demo_cache_by_id id h m : FindPoolerByID demo_env id = Ok h -> GetMultipooler h = Some m -> mp_Id m = id.
Proof. cbn. unfold demo_cache. repeat case_decide; subst; intros [=<-] [=<-]; done. Qed.

Lemma cohort_change_acts_on_checked_rule_witness :
  exists p calls mp req,
    CohortMismatch_Analyze (Some demo_factory) (fun l => l) demo_drift = Ok [p] /\
    ReconcileCohort_Execute demo_env (100 * second) (mkRecheckedProblem p (HighestIntendedRule demo_drift))
      = (calls, None) /\
    CallUpdateConsensusRule mp req ∈ calls /\ mp_Id mp = p1 /\ StandbyIds req = [p4] /\
    StandbyIds req = [PoolerID p].
Proof.
  assert (exists p, CohortMismatch_Analyze (Some demo_factory) (fun l => l) demo_drift = Ok [p] /\
    Code p = ProblemPoolerNotInCohort /\ PoolerID p = p4) as (p & Ha & Hc & Hp)
    by (eexists; split_and!; vm_compute; reflexivity).
  assert (exists mp req rest,
    ReconcileCohort_Execute demo_env (100 * second) (mkRecheckedProblem p (HighestIntendedRule demo_drift))
      = (CallUpdateConsensusRule mp req :: rest, None) /\ mp_Id mp = p1 /\ StandbyIds req = [p4])
    as (mp & req & rest & Hx & Hm & Hs).
  { destruct p as [code chk id pr sc ac sk]. cbn in Hc, Hp. subst code id.
    do 3 eexists. split_and!; vm_compute; reflexivity. }
  exists p, (CallUpdateConsensusRule mp req :: rest), mp, req.
  destruct (cohort_change_acts_on_checked_rule demo_factory (fun l => l) demo_drift [p] p demo_env (100 * second)
    _ _ mp req ltac:(done) demo_cache_by_id Ha ltac:(left) Hx ltac:(left)) as (_ & _ & _ & Hid & _).
  split_and!; [exact Ha|exact Hx|left|exact Hm|exact Hs|exact Hid].
Defined.

Lemma reconnect_relays_accepted_rule_witness :
  let problem := pooler_problem ProblemReplicaRecruitAbandoned "ReplicaRecruitAbandoned" p2 PriorityHigh
    ReconnectRecruitAbandonedAction in
  let advanced := Some (mkRulePosition (Some (mkShardRule (rn 1 1) p1 [p1; p2; p3] (at_least 2) orch1 (ts 1))) None) in
  let run := ReconnectRecruitAbandoned_Execute demo_env (fun _ _ => Ok advanced) (fun _ _ => None)
    (Poolers demo_abandoned) (mkRecheckedProblem problem None) in
  exists call, call ∈ fst run /\ (exists to primary, call = CallMemberSetPrimary to primary /\
    IsRuleRevoked (rp_GetPosition primary) (GetTermRevocation (GetConsensusStatus demo_stranded)) = false).
Proof.
  intros problem advanced run.
  assert (exists to primary, nth_error (fst run) 1 = Some (CallMemberSetPrimary to primary)) as (to & primary & Hn)
    by (do 2 eexists; vm_compute; reflexivity).
  assert (CallMemberSetPrimary to primary ∈ fst run) as Hin by (apply list_elem_of_In; by eapply nth_error_In).
  exists (CallMemberSetPrimary to primary). split; [exact Hin|].
  destruct (reconnect_relays_accepted_rule demo_env _ _ _ _ _ _ _ (surjective_pairing run) Hin)
    as (follower & Hf & _ & Hr).
  exists to, primary. split; [reflexivity|].
  assert (follower = demo_stranded) as <- by (by injection Hf as <-). exact Hr.
Defined.

(** Three restored poolers under the empty rule 0. *)
Definition demo_restored (id : option ID) : option PoolerHealthState :=
  let r0 := Some (mkShardRule (rn 0 1) None [] None orch1 (ts 1)) in
  Some (mkPoolerHealthState (Some (demo_mp id)) (ts 299) (demo_status id None (decided r0) "0/10") None None
    (Some (mkStatus None None true true POSTGRES_STATUS_STANDBY true 0))).

Definition demo_restored_client : MultipoolerClient :=
  mkMultipoolerClient
    (fun mp rev => Ok (demo_status (mp_Id mp) rev
       (decided (Some (mkShardRule (rn 0 1) None [] None orch1 (ts 1)))) "0/10"))
    (fun _ _ => None) (fun _ _ => None) (fun _ => Err (err "unused")).

Definition demo_init : Coordinator * (list Call * option gerror) :=
  ShardInit_Execute false (NewCoordinator orch1) demo_topo (fun _ ids => Ok (true, ids)) demo_restored_client
    in_order demo_draws (mkTimestamp 300 0) (300 * second) (Some (mkShardKey "db" "default" "0-inf"))
    [demo_restored p1; demo_restored p2; demo_restored p3].

Lemma bootstrap_cohort_is_safe_witness :
  snd (snd demo_init) = None /\
  exists mp req, CallPromote mp req ∈ fst (snd demo_init) /\
    GetCohortMembers (GetProposal (GetProposedTransition (pr_Proposal req))) = [p1; p2; p3] /\
    exists policy, SatisfiedBy policy [p1; p2; p3] = None /\
      forall quorum, Forall valid_id quorum -> poolerKeysOf quorum ⊆ poolerKeysOf [p1; p2; p3] ->
        SatisfiedBy policy quorum = None ->
        exists k, k ∈ poolerKeysOf quorum /\ k ∈ poolerKeysOf [p1; p2; p3] ∖ {[ClusterIDString p1]}.
Proof.
  split; [vm_compute; reflexivity|].
  assert (exists mp req, nth_error (fst (snd demo_init)) 3 = Some (CallPromote mp req) /\
    GetCohortMembers (GetProposal (GetProposedTransition (pr_Proposal req))) = [p1; p2; p3])
    as (mp & req & Hn & Hm) by (do 2 eexists; split; vm_compute; reflexivity).
  assert (demo_init = (fst demo_init, (fst (snd demo_init), snd (snd demo_init)))) as Hd
    by (by rewrite <- !surjective_pairing).
  assert (CallPromote mp req ∈ fst (snd demo_init)) as Hin by (apply list_elem_of_In; by eapply nth_error_In).
  exists mp, req. split_and!; [exact Hin|exact Hm|].
  destruct (bootstrap_cohort_is_safe in_order false _ _ _ _ _ _ _ _ _ _ _ _ _ Hd Hin)
    as (pp & policy & offered & committed & cohort & _ & _ & _ & _ & _ & Hsat & Hsafe & _ & Hprom).
  pose proof (proj1 (Hprom mp req eq_refl)) as Hc. rewrite Hm in Hc. rewrite <- Hc in Hsat, Hsafe.
  exists policy. split; [exact Hsat|].
  assert (exists lost, lost ∈ cohort /\ poolerID lost = p1) as (lost & Hl & Hp).
  { destruct cohort as [|lost rest]; [done|]. exists lost. split; [left|]. by injection Hc. }
  assert (Forall valid_id [p1; p2; p3]) as Hv by by_decide.
  pose proof (proj2 (Hsafe eq_refl Hv lost Hl)) as Hq. rewrite Hp in Hq. exact Hq.
Defined.
