(* ===== verification/Bytes.v ===== *)
(** Bytes and their encodings: the standard library's [encoding/binary]
    big-endian integers and [strconv]'s decimal numbers, as the protocol code and
    the evaluation engine use them. *)

From Stdlib Require Import Strings.Byte.
From stdpp Require Import base numbers list strings.
From S2P Require Import Prelude.

Local Open Scope Z_scope.

#[export] Instance byte_eq_dec : EqDecision byte.
Proof. exact Byte.byte_eq_dec. Defined.

(** ** A byte and its value *)

Definition byteZ (b : byte) : Z := Z.of_N (Byte.to_N b).
Definition Zbyte (z : Z) : byte := default x00 (Byte.of_N (Z.to_N (z mod 256))).

Lemma byteZ_range b : 0 <= byteZ b < 256.
Proof. unfold byteZ. pose proof (Byte.to_N_bounded b). lia. Qed.

Lemma byteZ_Zbyte z : byteZ (Zbyte z) = z mod 256.
Proof.
  unfold byteZ, Zbyte. pose proof (Z.mod_pos_bound z 256 ltac:(lia)).
  destruct (Byte.of_N _) as [b|] eqn:E; cbn.
  - apply Byte.to_of_N in E. rewrite E. lia.
  - apply Byte.of_N_None_iff in E. lia.
Qed.

Lemma Zbyte_byteZ b : Zbyte (byteZ b) = b.
Proof.
  unfold byteZ, Zbyte. pose proof (Byte.to_N_bounded b).
  rewrite Z.mod_small, N2Z.id by lia. by rewrite Byte.of_to_N.
Qed.

Lemma byteZ_inj b c : byteZ b = byteZ c -> b = c.
Proof. intros H. by rewrite <- (Zbyte_byteZ b), H, Zbyte_byteZ. Qed.

(** ** Big-endian integers *)

(** [binary.BigEndian.PutUint<8n>] of [z]. *)
Fixpoint be_bytes (n : nat) (z : Z) : list byte :=
  match n with
  | O => []
  | S n' => Zbyte (z / 256 ^ Z.of_nat n') :: be_bytes n' z
  end.

(** [binary.BigEndian.Uint<8n>]. *)
Definition be_value (l : list byte) : Z := foldl (fun acc b => acc * 256 + byteZ b) 0 l.

Lemma be_bytes_length n z : length (be_bytes n z) = n.
Proof. induction n; cbn; congruence. Qed.

Lemma be_value_foldl acc l :
  foldl (fun acc b => acc * 256 + byteZ b) acc l = acc * 256 ^ len l + be_value l.
Proof.
  unfold be_value, len. revert acc. induction l as [|b l IH]; intros acc; [cbn; lia|].
  cbn [foldl length]. rewrite IH, (IH (0 * 256 + byteZ b)), Nat2Z.inj_succ, Z.pow_succ_r by lia. lia.
Qed.

Lemma be_value_cons b l : be_value (b :: l) = byteZ b * 256 ^ len l + be_value l.
Proof. unfold be_value at 1. cbn [foldl]. by rewrite be_value_foldl. Qed.

Lemma be_value_range l : 0 <= be_value l < 256 ^ len l.
Proof.
  induction l as [|b l IH]; [unfold len, be_value; cbn; lia|]. rewrite be_value_cons. pose proof (byteZ_range b).
  unfold len in *. cbn [length]. rewrite Nat2Z.inj_succ, Z.pow_succ_r by lia. nia.
Qed.

Lemma be_value_bytes n z : be_value (be_bytes n z) = z mod 256 ^ Z.of_nat n.
Proof.
  induction n as [|n IH]; [cbn; by rewrite Z.mod_1_r|]. cbn [be_bytes].
  rewrite be_value_cons, IH, byteZ_Zbyte. unfold len. rewrite be_bytes_length.
  rewrite Nat2Z.inj_succ, Z.pow_succ_r, (Z.mul_comm 256), Z.rem_mul_r by lia. lia.
Qed.

Lemma be_bytes_value l : be_bytes (length l) (be_value l) = l.
Proof.
  induction l as [|b l IH]; [done|]. cbn [be_bytes length]. rewrite be_value_cons.
  pose proof (be_value_range l) as Hr. unfold len in *. f_equal.
  - rewrite Z.div_add_l, Z.div_small by lia. rewrite Z.add_0_r. apply Zbyte_byteZ.
  - transitivity (be_bytes (length l) (be_value l)); [|done]. clear IH Hr. generalize (be_value l). intros v.
    assert (forall n k, (n <= length l)%nat -> be_bytes n (k * 256 ^ Z.of_nat (length l) + v) = be_bytes n v) as Haux.
    { induction n as [|n IHn]; intros k Hn; [done|]. cbn. rewrite IHn by lia. f_equal.
      replace (Z.of_nat (length l)) with (Z.of_nat n + 1 + (Z.of_nat (length l) - Z.of_nat n - 1)) by lia.
      rewrite !Z.pow_add_r by lia.
      replace (k * (256 ^ Z.of_nat n * 256 ^ 1 * 256 ^ (Z.of_nat (length l) - Z.of_nat n - 1)) + v)
        with (k * 256 ^ (Z.of_nat (length l) - Z.of_nat n - 1) * 256 * 256 ^ Z.of_nat n + v) by lia.
      rewrite Z.div_add_l by lia.
      apply byteZ_inj. rewrite !byteZ_Zbyte. rewrite <- Z.add_mod_idemp_l, Z.mod_mul by lia. done. }
    by apply Haux.
Qed.

(** ** Decimal numbers *)

Definition digit_byte (d : Z) : byte := Zbyte (48 + d).

(** The digits of [z >= 0], least significant first. *)
Fixpoint decimal_rev (fuel : nat) (z : Z) : list byte :=
  match fuel with
  | O => []
  | S fuel' =>
      digit_byte (z mod 10) :: (if z <? 10 then [] else decimal_rev fuel' (z / 10))
  end.

(** Enough digits for [z]. *)
Definition decimal_fuel (z : Z) : nat := S (Z.to_nat (Z.log2 z)).

(** [strconv.AppendInt(nil, z, 10)]. *)
Definition decimal (z : Z) : list byte :=
  let digits := rev (decimal_rev (decimal_fuel (Z.abs z)) (Z.abs z)) in
  if z <? 0 then Zbyte 45 :: digits else digits.

(** [fmt.Sprintf("%d", z)]. *)
Definition Sprintf_d (z : Z) : string := String.string_of_list_byte (decimal z).

Definition is_digit (b : byte) : bool := (48 <=? byteZ b) && (byteZ b <=? 57).
Definition digit_value (b : byte) : Z := byteZ b - 48.

(** The value of a string of digits. *)
Definition decimal_value (l : list byte) : Z := foldl (fun acc b => acc * 10 + digit_value b) 0 l.

Lemma digit_byte_ok d : 0 <= d < 10 -> is_digit (digit_byte d) = true /\ digit_value (digit_byte d) = d.
Proof.
  intros Hd. unfold is_digit, digit_value, digit_byte. rewrite byteZ_Zbyte, Z.mod_small by lia.
  split; [|lia]. apply andb_true_iff. lia.
Qed.

Lemma decimal_rev_digits fuel z : 0 <= z -> Forall (fun b => is_digit b = true) (decimal_rev fuel z).
Proof.
  revert z. induction fuel as [|fuel IH]; intros z Hz; cbn; [constructor|]. constructor.
  - apply digit_byte_ok. apply Z.mod_pos_bound. lia.
  - destruct (z <? 10); [constructor|]. apply IH. apply Z.div_pos; lia.
Qed.

Lemma decimal_rev_value fuel z :
  0 <= z -> (Z.to_nat (Z.log2 z) < fuel)%nat -> decimal_value (rev (decimal_rev fuel z)) = z.
Proof.
  unfold decimal_value. revert z. induction fuel as [|fuel IH]; intros z Hz Hf; [lia|].
  cbn [decimal_rev]. destruct (Z.ltb_spec z 10) as [Hs|Hs].
  - cbn. rewrite (proj2 (digit_byte_ok (z mod 10) ltac:(apply Z.mod_pos_bound; lia))), Z.mod_small by lia. lia.
  - cbn [rev]. rewrite foldl_app. cbn [foldl].
    rewrite (proj2 (digit_byte_ok (z mod 10) ltac:(apply Z.mod_pos_bound; lia))).
    rewrite IH; [pose proof (Z.div_mod z 10); lia|apply Z.div_pos; lia|].
    assert (Z.log2 (z / 10) < Z.log2 z) as Hl.
    { assert (Z.log2 (z / 10) <= Z.log2 (z / 2)) by (apply Z.log2_le_mono, Z.div_le_compat_l; lia).
      assert (Z.log2 (z / 2) = Z.log2 z - 1).
      { rewrite <- Z.div2_div. pose proof (Z.log2_shiftr z 1) as E. rewrite <- Z.div2_spec in E.
        rewrite E by lia. pose proof (Z.log2_le_mono 2 z ltac:(lia)) as Hm. change (Z.log2 2) with 1 in Hm. lia. }
      lia. }
    pose proof (Z.log2_nonneg (z / 10)). lia.
Qed.

(** The digits of a number are digits and give the number back. *)
Lemma decimal_digits z :
  0 <= z -> Forall (fun b => is_digit b = true) (decimal z) /\ decimal_value (decimal z) = z /\ decimal z <> [].
Proof.
  intros Hz. unfold decimal. destruct (Z.ltb_spec z 0); [lia|]. rewrite Z.abs_eq by lia. split_and!.
  - apply Forall_rev, decimal_rev_digits. lia.
  - apply decimal_rev_value; [lia|]. unfold decimal_fuel. lia.
  - unfold decimal_fuel. cbn. destruct (rev _ ++ _) eqn:E; [|done].
    by apply app_eq_nil in E as [_ E].
Qed.
