(* ===== verification/Diagnostics.v ===== *)
(** Errors as clients see them: common/mterrors.  A PostgreSQL diagnostic with its
    fourteen fields (pgdiagnostic.go), the constructors of code.go, the Go error
    values the protocol code tells apart, and how a chain of wrapped errors is
    searched ([errors.Is], [errors.As], RootCause, Code). *)

From Stdlib Require Import Strings.Byte.
From stdpp Require Import base numbers list strings.
From S2P Require Import Prelude.
From S2P Require Import Bytes.

Local Open Scope Z_scope.

(** ** Diagnostics *)

Record PgDiagnostic := mkPgDiagnostic {
  MessageType : byte;
  Severity : string;
  Code : string;
  Message : string;
  Detail : string;
  Hint : string;
  Position : Z;
  InternalPosition : Z;
  InternalQuery : string;
  Where : string;
  Schema : string;
  Table : string;
  Column : string;
  DataType : string;
  Constraint_ : string
}.

#[export] Instance PgDiagnostic_eq_dec : EqDecision PgDiagnostic.
Proof. solve_decision. Defined.

(** [d.Hint = s] and the like. *)
Definition set_Detail (s : string) (d : PgDiagnostic) : PgDiagnostic :=
  mkPgDiagnostic (MessageType d) (Severity d) (Code d) (Message d) s (Hint d) (Position d)
    (InternalPosition d) (InternalQuery d) (Where d) (Schema d) (Table d) (Column d) (DataType d) (Constraint_ d).
Definition set_Hint (s : string) (d : PgDiagnostic) : PgDiagnostic :=
  mkPgDiagnostic (MessageType d) (Severity d) (Code d) (Message d) (Detail d) s (Position d)
    (InternalPosition d) (InternalQuery d) (Where d) (Schema d) (Table d) (Column d) (DataType d) (Constraint_ d).
Definition set_Code (s : string) (d : PgDiagnostic) : PgDiagnostic :=
  mkPgDiagnostic (MessageType d) (Severity d) s (Message d) (Detail d) (Hint d) (Position d)
    (InternalPosition d) (InternalQuery d) (Where d) (Schema d) (Table d) (Column d) (DataType d) (Constraint_ d).
Definition set_Position (z : Z) (d : PgDiagnostic) : PgDiagnostic :=
  mkPgDiagnostic (MessageType d) (Severity d) (Code d) (Message d) (Detail d) (Hint d) z
    (InternalPosition d) (InternalQuery d) (Where d) (Schema d) (Table d) (Column d) (DataType d) (Constraint_ d).

Definition IsFatal (d : PgDiagnostic) : bool :=
  bool_decide (Severity d = "FATAL") || bool_decide (Severity d = "PANIC").

(** ** SQLSTATEs and constructors *)

Definition PgSSProtocolViolation : string := "08P01".
Definition PgSSConnectionFailure : string := "08006".
Definition PgSSFeatureNotSupported : string := "0A000".
Definition PgSSInvalidParameterValue : string := "22023".
Definition PgSSSyntaxError : string := "42601".
Definition PgSSQueryCanceled : string := "57014".
Definition PgSSCannotConnectNow : string := "57P03".
Definition PgSSIdleSessionTimeout : string := "57P05".
Definition PgSSInternalError : string := "XX000".

Definition msgError : byte := "E".
Definition msgNotice : byte := "N".

Definition NewPgError (severity sqlState message detail : string) : PgDiagnostic :=
  mkPgDiagnostic msgError severity sqlState message detail "" 0 0 "" "" "" "" "" "" "".

Definition NewPgNotice (severity sqlState message detail : string) : PgDiagnostic :=
  mkPgDiagnostic msgNotice severity sqlState message detail "" 0 0 "" "" "" "" "" "" "".

Definition NewParseError (message : string) : PgDiagnostic := NewPgError "ERROR" PgSSSyntaxError message "".

Definition NewParseErrorAt (message : string) (position : Z) (sqlState : string) : PgDiagnostic :=
  let d := set_Position position (NewParseError message) in
  if bool_decide (sqlState = "") then d else set_Code sqlState d.

Definition NewQueryCanceled : PgDiagnostic :=
  NewPgError "ERROR" PgSSQueryCanceled "canceling statement due to user request" "".
Definition NewStatementTimeout : PgDiagnostic :=
  NewPgError "ERROR" PgSSQueryCanceled "canceling statement due to statement timeout" "".
Definition NewIdleSessionTimeout : PgDiagnostic :=
  NewPgError "FATAL" PgSSIdleSessionTimeout "terminating connection due to idle-session timeout" "".

(** Multigres' own error codes; only the templates without arguments are used here. *)
Record MTError := mkMTError { ID : string; Description : string; mt_Severity : string; Format : string }.

Definition MTError_New (e : MTError) : PgDiagnostic :=
  NewPgError (mt_Severity e) (ID e) (Format e) (Description e).

Definition NewWithDetail (e : MTError) (detail : string) : PgDiagnostic := set_Detail detail (MTError_New e).

Definition MTD03 : MTError := mkMTError "MTD03" "Internal proxy error." "ERROR" "internal error".
Definition MTD04 : MTError :=
  mkMTError "MTD04" "Extended query Parse could not be processed." "ERROR" "parse failed".
Definition MTD05 : MTError :=
  mkMTError "MTD05" "Extended query Bind could not be processed." "ERROR" "bind failed".
Definition MTD06 : MTError :=
  mkMTError "MTD06" "Extended query Describe could not be processed." "ERROR" "describe failed".
Definition MTD07 : MTError :=
  mkMTError "MTD07" "Extended query Close could not be processed." "ERROR" "close failed".
Definition MTD08 : MTError :=
  mkMTError "MTD08" "Extended query Sync could not be processed." "ERROR" "sync failed".

(** ** Go errors *)

(** The error values compared by identity. *)
Inductive sentinel :=
| io_EOF
| io_ErrUnexpectedEOF
| context_Canceled
| context_DeadlineExceeded
| errFatalDiagnosticSent
| errIncompleteDataRow
| errFrontendMessageTooLarge
| net_error
| net_timeout.

#[export] Instance sentinel_eq_dec : EqDecision sentinel.
Proof. solve_decision. Defined.

Inductive goerror :=
| EPg (d : PgDiagnostic)                      (* *PgDiagnostic *)
| EGatewayRejection (d : PgDiagnostic)        (* *GatewayRejection *)
| EFundamental (code : Z) (msg : string)      (* mterrors.New *)
| EWrapping (msg : string) (cause : goerror)  (* mterrors.Wrap *)
| ECoded (code : Z) (e : goerror)             (* mterrors.WithCode *)
| EFmt (msg : string) (e : goerror)           (* fmt.Errorf("msg: %w", e) *)
| EJoin (e1 e2 : goerror)                     (* fmt.Errorf("%w: %w", e1, e2) *)
| EString (msg : string)                      (* errors.New, fmt.Errorf without %w *)
| ESentinel (s : sentinel).

Definition sentinel_text (s : sentinel) : string :=
  match s with
  | io_EOF => "EOF"
  | io_ErrUnexpectedEOF => "unexpected EOF"
  | context_Canceled => "context canceled"
  | context_DeadlineExceeded => "context deadline exceeded"
  | errFatalDiagnosticSent => "fatal diagnostic sent; closing connection"
  | errIncompleteDataRow => "upstream failed during a DataRow frame"
  | errFrontendMessageTooLarge => "frontend message too large"
  | net_error => "connection reset by peer"
  | net_timeout => "i/o timeout"
  end.

(** [err.Error()]. *)
Fixpoint Error (e : goerror) : string :=
  match e with
  | EPg d | EGatewayRejection d => Severity d +:+ ": " +:+ Message d
  | EFundamental _ msg => msg
  | EWrapping msg c => msg +:+ ": " +:+ Error c
  | ECoded _ c => Error c
  | EFmt msg c => msg +:+ ": " +:+ Error c
  | EJoin a b => Error a +:+ ": " +:+ Error b
  | EString msg => msg
  | ESentinel s => sentinel_text s
  end.

(** [errors.Is(err, s)]. *)
Fixpoint errors_Is (s : sentinel) (e : goerror) : bool :=
  match e with
  | EWrapping _ c | ECoded _ c | EFmt _ c => errors_Is s c
  | EJoin a b => errors_Is s a || errors_Is s b
  | ESentinel s' => bool_decide (s' = s)
  | EPg _ | EGatewayRejection _ | EFundamental _ _ | EString _ => false
  end.

(** [errors.As(err, &diag)]. *)
Fixpoint errors_As_diag (e : goerror) : option PgDiagnostic :=
  match e with
  | EPg d | EGatewayRejection d => Some d
  | EWrapping _ c | ECoded _ c | EFmt _ c => errors_As_diag c
  | EJoin a b => match errors_As_diag a with Some d => Some d | None => errors_As_diag b end
  | EFundamental _ _ | EString _ | ESentinel _ => None
  end.

(** [errors.As(err, &coded)] for an ErrorWithCode. *)
Fixpoint errors_As_code (e : goerror) : option Z :=
  match e with
  | EFundamental c _ | ECoded c _ => Some c
  | EWrapping _ c | EFmt _ c => errors_As_code c
  | EJoin a b => match errors_As_code a with Some c => Some c | None => errors_As_code b end
  | EPg _ | EGatewayRejection _ | EString _ | ESentinel _ => None
  end.

Definition Code_CANCELED : Z := 1.
Definition Code_UNKNOWN : Z := 2.
Definition Code_DEADLINE_EXCEEDED : Z := 4.
Definition Code_UNAVAILABLE : Z := 14.

(** [mterrors.Code] of a non-nil error. *)
Definition error_Code (e : goerror) : Z :=
  match errors_As_code e with
  | Some c => c
  | None =>
      if errors_Is context_Canceled e then Code_CANCELED
      else if errors_Is context_DeadlineExceeded e then Code_DEADLINE_EXCEEDED
      else Code_UNKNOWN
  end.

(** Only mterrors.Wrap gives a [Cause]. *)
Fixpoint RootCause (e : goerror) : goerror :=
  match e with EWrapping _ c => RootCause c | _ => e end.

(** Unwrapping Wrap layers does not change what a search of the chain finds. *)
Lemma RootCause_diag e : errors_As_diag (RootCause e) = errors_As_diag e.
Proof. induction e; cbn; auto. Qed.
