(* ===== verification/BufPool.v ===== *)
(** The byte-buffer pool: common/pgprotocol/bufpool/pool.go.  Buffers are slices with
    a length and a capacity; what a [sync.Pool] hands out is left open, as its
    documentation does. *)

From Stdlib Require Import Strings.Byte.
From stdpp Require Import base numbers list.
From S2P Require Import Prelude.
From S2P Require Import Bytes.

Local Open Scope Z_scope.

(** ** Slices *)

(** A [[]byte] with its backing array: [storage] is the capacity, [blen] the length. *)
Record Buffer := mkBuffer { storage : list byte; blen : nat }.

Definition cap (b : Buffer) : Z := len (storage b).
Definition contents (b : Buffer) : list byte := take (blen b) (storage b).

(** [make([]byte, size)]. *)
Definition make_buffer (size : Z) : Buffer := mkBuffer (replicate (Z.to_nat size) x00) (Z.to_nat size).

(** [b[:size]]: [None] is the run-time panic of a size beyond the capacity. *)
Definition reslice (b : Buffer) (size : Z) : option Buffer :=
  if (0 <=? size) && (size <=? cap b) then Some (mkBuffer (storage b) (Z.to_nat size)) else None.

(** ** The pool *)

(** A [sizedPool]: its size and the buffers its [sync.Pool] holds. *)
Record sizedPool := mkSizedPool { sp_size : Z; sp_free : list Buffer }.

Record Pool := mkPool { minSize : Z; maxSize : Z; pools : list sizedPool }.

Definition newSizedPool (size : Z) : sizedPool := mkSizedPool size [].

(** [sync.Pool.Get] removes an arbitrary item, or behaves as if there were none and
    calls [New]; [pick] is what it chooses. *)
Definition sp_Get (sp : sizedPool) (pick : option nat) : Buffer * sizedPool :=
  match pick ≫= fun i => (fun b => (i, b)) <$> (sp_free sp !! i) with
  | Some (i, b) => (b, mkSizedPool (sp_size sp) (delete i (sp_free sp)))
  | None => (make_buffer (sp_size sp), sp)
  end.

Definition sp_Put (sp : sizedPool) (b : Buffer) : sizedPool := mkSizedPool (sp_size sp) (b :: sp_free sp).

(** The loop of [New]; [None]: it has not ended within the fuel. *)
Fixpoint make_buckets (fuel : nat) (curSize maxSize : Z) : option (list sizedPool) :=
  match fuel with
  | O => None
  | S fuel' =>
      if curSize <? maxSize
      then cons (newSizedPool curSize) <$> make_buckets fuel' (wrap64 (curSize * 2)) maxSize
      else Some [newSizedPool maxSize]
  end.

(** [New], [None] being the panic of [maxSize < minSize].  Sixty-four rounds: a
    positive size doubled that often has passed every [int]. *)
Definition New (minSize maxSize : Z) : option Pool :=
  if maxSize <? minSize then None else mkPool minSize maxSize <$> make_buckets 64 minSize maxSize.

(** [bits.Len64]. *)
Definition Len64 (x : Z) : Z := if x =? 0 then 0 else Z.log2 x + 1.

(** The index of the bucket, [None] for a size beyond [maxSize]. *)
Definition findPool (p : Pool) (size : Z) : option nat :=
  if maxSize p <? size then None
  else
    let div := wrapu64 size / minSize p in
    let rem := wrapu64 size mod minSize p in
    let idx := Len64 div in
    let idx := if (rem =? 0) && negb (div =? 0) && (Z.land div (div - 1) =? 0) then idx - 1 else idx in
    let idx := if len (pools p) <=? idx then len (pools p) - 1 else idx in
    Some (Z.to_nat idx).

Definition set_pools (p : Pool) (l : list sizedPool) : Pool := mkPool (minSize p) (maxSize p) l.

(** [None] is a panic: an index or a reslice out of range. *)
Definition Get (p : Pool) (size : Z) (pick : option nat) : option (Buffer * Pool) :=
  match findPool p size with
  | None => Some (make_buffer size, p)
  | Some i =>
      sp ← pools p !! i;
      let '(b, sp') := sp_Get sp pick in
      b' ← reslice b size;
      Some (b', set_pools p (<[i := sp']> (pools p)))
  end.

Definition Put (p : Pool) (b : Buffer) : option Pool :=
  match findPool p (cap b) with
  | None => Some p
  | Some i =>
      sp ← pools p !! i;
      Some (set_pools p (<[i := sp_Put sp (mkBuffer (storage b) (length (storage b)))]> (pools p)))
  end.

(** ** Well-formed pools *)

(** The buckets are [minSize] doubled, [maxSize] last, and a pooled buffer has its
    bucket's capacity. *)
Record pool_ok (p : Pool) : Prop := {
  ok_min : 1 <= minSize p <= maxSize p;
  ok_max : maxSize p <= 2 ^ 62;
  ok_sizes : exists k : nat,
    (forall j : nat, (j < k)%nat -> minSize p * 2 ^ Z.of_nat j < maxSize p) /\
    maxSize p <= minSize p * 2 ^ Z.of_nat k /\
    sp_size <$> pools p = ((fun j => minSize p * 2 ^ Z.of_nat j) <$> seq 0 k) ++ [maxSize p];
  ok_free : forall i sp b, pools p !! i = Some sp -> b ∈ sp_free sp -> cap b = sp_size sp
}.

(** A buffer the pool may take back: one it handed out. *)
Definition pool_buffer (p : Pool) (b : Buffer) : Prop :=
  cap b ∈ (sp_size <$> pools p) \/ maxSize p < cap b.

Lemma make_buckets_S fuel cur max :
  make_buckets (S fuel) cur max =
    if cur <? max then cons (newSizedPool cur) <$> make_buckets fuel (wrap64 (cur * 2)) max
    else Some [newSizedPool max].
Proof. done. Qed.

Lemma make_buckets_ok fuel cur max :
  1 <= cur -> max <= 2 ^ 62 -> max <= cur * 2 ^ Z.of_nat fuel ->
  exists k,
    make_buckets (S fuel) cur max =
      Some ((newSizedPool ∘ (fun j => cur * 2 ^ Z.of_nat j) <$> seq 0 k) ++ [newSizedPool max]) /\
    (forall j : nat, (j < k)%nat -> cur * 2 ^ Z.of_nat j < max) /\ max <= cur * 2 ^ Z.of_nat k.
Proof.
  revert cur. induction fuel as [|fuel IH]; intros cur Hcur Hmax Hf;
    rewrite make_buckets_S; (destruct (Z.ltb_spec cur max) as [Hlt|Hge];
      [|exists 0%nat; split_and!; [done|lia|rewrite Z.pow_0_r; lia]]).
  { rewrite Z.pow_0_r in Hf. lia. }
  rewrite wrap64_id by (unfold in_int64, int64_min, int64_max; lia).
  rewrite Nat2Z.inj_succ, Z.pow_succ_r in Hf by lia.
  destruct (IH (cur * 2)) as (k & -> & Hk & Hk'); [lia|done|lia|].
  exists (S k). split_and!.
  - cbn [seq fmap list_fmap option_fmap option_map app]. do 2 f_equal; [cbn; by rewrite Z.mul_1_r|]. f_equal.
    rewrite <- fmap_S_seq, <- list_fmap_compose. apply list_fmap_ext. intros i x _. cbn [compose].
    rewrite Nat2Z.inj_succ, Z.pow_succ_r by lia. f_equal. lia.
  - intros [|j] Hj; [rewrite Z.pow_0_r; lia|]. specialize (Hk j ltac:(lia)).
    rewrite Nat2Z.inj_succ, Z.pow_succ_r by lia. lia.
  - rewrite Nat2Z.inj_succ, Z.pow_succ_r by lia. lia.
Qed.

(** [New] ends, and builds a well-formed pool. *)
Lemma New_ok min max :
  1 <= min <= max -> max <= 2 ^ 62 -> exists p, New min max = Some p /\ pool_ok p /\ maxSize p = max.
Proof.
  intros H1 H2. unfold New. destruct (Z.ltb_spec max min); [lia|].
  destruct (make_buckets_ok 63 min max) as (k & E & Hk & Hk'); [lia..|]. rewrite E.
  eexists. split_and!; [done| |done]. constructor; cbn; [done|done| |].
  - exists k. split_and!; [done|done|]. rewrite fmap_app, <- list_fmap_compose. done.
  - intros i sp b Hsp Hb. apply list_elem_of_lookup_2, elem_of_app in Hsp as [Hsp|Hsp].
    + apply list_elem_of_fmap in Hsp as (j & -> & _). by apply elem_of_nil in Hb.
    + apply list_elem_of_singleton in Hsp as ->. by apply elem_of_nil in Hb.
Qed.

(** ** The bucket of a size *)

Lemma power_of_two_test d : 0 < d -> Z.land d (d - 1) = 0 <-> d = 2 ^ Z.log2 d.
Proof.
  intros Hd. pose proof (Z.log2_spec d Hd) as [Hlo Hhi]. pose proof (Z.log2_nonneg d) as Hl. split.
  - intros E. destruct (decide (d = 2 ^ Z.log2 d)) as [|Hne]; [done|]. exfalso.
    assert (Z.log2 (d - 1) = Z.log2 d) as E1 by (apply Z.log2_unique; lia).
    assert (Z.testbit (Z.land d (d - 1)) (Z.log2 d) = true) as Hbit.
    { rewrite Z.land_spec, Z.bit_log2 by lia. rewrite <- E1 at 1. apply Z.bit_log2.
      pose proof (Z.pow_pos_nonneg 2 (Z.log2 d) ltac:(lia) Hl). lia. }
    rewrite E, Z.testbit_0_l in Hbit. done.
  - intros E. rewrite E at 1 2. replace (2 ^ Z.log2 d - 1) with (Z.ones (Z.log2 d)) by (rewrite Z.ones_equiv; lia).
    rewrite Z.land_ones by lia. apply Z.mod_same. pose proof (Z.pow_pos_nonneg 2 (Z.log2 d) ltac:(lia) Hl). lia.
Qed.

(** Before it is clamped, the index is the least one whose doubled size is enough. *)
Lemma raw_index size min :
  0 <= size -> 1 <= min ->
  let div := size / min in
  let idx := if (size mod min =? 0) && negb (div =? 0) && (Z.land div (div - 1) =? 0)
             then Len64 div - 1 else Len64 div in
  0 <= idx /\ size <= min * 2 ^ idx /\ (0 < idx -> min * 2 ^ (idx - 1) < size).
Proof.
  intros Hs Hm div. pose proof (Z.div_mod size min ltac:(lia)) as Hdm.
  pose proof (Z.mod_pos_bound size min ltac:(lia)) as Hr. fold div in Hdm.
  assert (0 <= div) as Hd by (apply Z.div_pos; lia). unfold Len64.
  destruct (Z.eqb_spec div 0) as [E0|E0].
  { rewrite andb_false_r. cbn. lia. }
  pose proof (Z.log2_spec div ltac:(lia)) as [Hlo Hhi]. pose proof (Z.log2_nonneg div).
  rewrite Z.pow_succ_r in Hhi by lia.
  destruct (Z.eqb_spec (size mod min) 0) as [Er|Er]; cbn;
    [destruct (Z.eqb_spec (Z.land div (div - 1)) 0) as [El|El]|].
  - apply power_of_two_test in El; [|lia]. cbn. replace (Z.log2 div + 1 - 1) with (Z.log2 div) by lia.
    split_and!; [lia|nia|]. intros Hp.
    assert (2 ^ Z.log2 div = 2 * 2 ^ (Z.log2 div - 1)) as E2.
    { rewrite <- Z.pow_succ_r by lia. f_equal. lia. }
    pose proof (Z.pow_pos_nonneg 2 (Z.log2 div - 1) ltac:(lia) ltac:(lia)). nia.
  - rewrite Z.pow_add_r by lia. change (2 ^ 1) with 2. replace (Z.log2 div + 1 - 1) with (Z.log2 div) by lia.
    rewrite power_of_two_test in El by lia. split_and!; [lia|nia|]. intros _. assert (2 ^ Z.log2 div < div) by lia. nia.
  - rewrite Z.pow_add_r by lia. change (2 ^ 1) with 2. replace (Z.log2 div + 1 - 1) with (Z.log2 div) by lia.
    split_and!; [lia|nia|]. intros _. nia.
Qed.

Lemma bucket_size p k i sp :
  sp_size <$> pools p = ((fun j => minSize p * 2 ^ Z.of_nat j) <$> seq 0 k) ++ [maxSize p] ->
  pools p !! i = Some sp ->
  (i < k)%nat /\ sp_size sp = minSize p * 2 ^ Z.of_nat i \/ i = k /\ sp_size sp = maxSize p.
Proof.
  intros E Hi. assert ((sp_size <$> pools p) !! i = Some (sp_size sp)) as Hs by (by rewrite list_lookup_fmap, Hi).
  rewrite E in Hs. apply lookup_app_Some in Hs as [Hs|[Hl Hs]].
  - apply list_lookup_fmap_Some in Hs as (j & E1 & Hj). apply lookup_seq in Hj as [-> ?]. by left.
  - rewrite length_fmap, length_seq in Hl, Hs. apply list_lookup_singleton_Some in Hs as [? <-]. right. split; [lia|done].
Qed.

(** The bucket found is the first that is large enough. *)
Lemma findPool_first_fit p size :
  pool_ok p -> 0 <= size <= maxSize p ->
  exists i sp, findPool p size = Some i /\ pools p !! i = Some sp /\ size <= sp_size sp /\
    forall j sp', (j < i)%nat -> pools p !! j = Some sp' -> sp_size sp' < size.
Proof.
  intros [Hmin Hmax (k & Hlow & Hhigh & Hsz) _] Hs. unfold findPool.
  destruct (Z.ltb_spec (maxSize p) size); [lia|]. unfold wrapu64. rewrite (Z.mod_small size (2 ^ 64)) by lia.
  pose proof (raw_index size (minSize p) ltac:(lia) ltac:(lia)) as Hraw. cbv zeta in Hraw |- *.
  set (idx := if (size mod minSize p =? 0) && negb (size / minSize p =? 0) &&
                 (Z.land (size / minSize p) (size / minSize p - 1) =? 0)
              then Len64 (size / minSize p) - 1 else Len64 (size / minSize p)) in *.
  destruct Hraw as (Hi0 & Hi1 & Hi2).
  assert (length (pools p) = S k) as Hlen.
  { apply (f_equal length) in Hsz. rewrite length_fmap, length_app, length_fmap, length_seq in Hsz. cbn in Hsz. lia. }
  set (i := Z.to_nat (if len (pools p) <=? idx then len (pools p) - 1 else idx)).
  assert (Hik : (i <= k)%nat /\ (Z.of_nat i <= idx) /\ ((i < k)%nat -> Z.of_nat i = idx)).
  { subst i. unfold len. rewrite Hlen. destruct (Z.leb_spec (Z.of_nat (S k)) idx); lia. }
  destruct (lookup_lt_is_Some_2 (pools p) i) as [sp Hsp]; [lia|].
  exists i, sp. split_and!; [done|done| |].
  - destruct (bucket_size p k i sp Hsz Hsp) as [[Hlt ->]|[-> ->]]; [|lia].
    destruct Hik as (_ & _ & E). rewrite E by done. done.
  - intros j sp' Hj Hsp'. destruct (bucket_size p k j sp' Hsz Hsp') as [[Hlt ->]|[-> _]]; [|lia].
    assert (minSize p * 2 ^ Z.of_nat j <= minSize p * 2 ^ (idx - 1)); [|lia].
    apply Z.mul_le_mono_nonneg_l; [lia|]. apply Z.pow_le_mono_r; lia.
Qed.

(** A size that is a bucket's own falls into that bucket. *)
Lemma findPool_exact p i sp :
  pool_ok p -> pools p !! i = Some sp -> 0 <= sp_size sp <= maxSize p -> findPool p (sp_size sp) = Some i.
Proof.
  intros Hok Hi Hs. destruct (findPool_first_fit p (sp_size sp) Hok Hs) as (j & sp' & -> & Hj & Hle & Hfirst).
  f_equal. destruct (Nat.lt_trichotomy i j) as [Hlt|[E|Hlt]]; [|done|].
  - specialize (Hfirst i sp Hlt Hi). lia.
  - destruct Hok as [Hmin _ (k & Hlow & Hhigh & Hsz) _]. exfalso.
    destruct (bucket_size p k j sp' Hsz Hj) as [[Hjk Ej]|[Ej _]];
      destruct (bucket_size p k i sp Hsz Hi) as [[Hik Ei]|[Ei _]]; try lia.
    + assert (2 ^ Z.of_nat j < 2 ^ Z.of_nat i) by (apply Z.pow_lt_mono_r; lia). nia.
    + specialize (Hlow j Hjk). destruct (bucket_size p k i sp Hsz Hi) as [[? _]|[_ ?]]; lia.
Qed.

Lemma bucket_sizes_bounded p i sp : pool_ok p -> pools p !! i = Some sp -> 0 <= sp_size sp <= maxSize p.
Proof.
  intros [Hmin Hmax (k & Hlow & Hhigh & Hsz) _] Hi.
  destruct (bucket_size p k i sp Hsz Hi) as [[Hik ->]|[_ ->]]; [|lia].
  specialize (Hlow i Hik). pose proof (Z.pow_nonneg 2 (Z.of_nat i) ltac:(lia)). nia.
Qed.

(** ** Taking and returning buffers *)

(** Replacing a bucket by one of the same size whose buffers fit keeps the pool well-formed. *)
Lemma set_bucket_ok p i sp sp' :
  pool_ok p -> pools p !! i = Some sp -> sp_size sp' = sp_size sp ->
  (forall b, b ∈ sp_free sp' -> cap b = sp_size sp) ->
  pool_ok (set_pools p (<[i := sp']> (pools p))) /\
  sp_size <$> <[i := sp']> (pools p) = sp_size <$> pools p.
Proof.
  intros [Hmin Hmax Hsz Hfree] Hi Es Hb.
  assert (sp_size <$> <[i := sp']> (pools p) = sp_size <$> pools p) as E.
  { rewrite list_fmap_insert, Es. apply list_insert_id. by rewrite list_lookup_fmap, Hi. }
  split; [|done]. constructor; cbn; [done|done|by rewrite E|].
  intros j spj b Hj Hin. destruct (decide (j = i)) as [->|Hne].
  - rewrite list_lookup_insert_eq in Hj by (by eapply lookup_lt_Some). simplify_eq. rewrite Es. auto.
  - rewrite list_lookup_insert_ne in Hj by done. eauto.
Qed.

Lemma sp_Get_ok sp pick :
  0 <= sp_size sp -> (forall b, b ∈ sp_free sp -> cap b = sp_size sp) ->
  let '(b, sp') := sp_Get sp pick in
  cap b = sp_size sp /\ sp_size sp' = sp_size sp /\ (forall b', b' ∈ sp_free sp' -> b' ∈ sp_free sp).
Proof.
  intros Hs Hf. unfold sp_Get. destruct pick as [i|]; cbn; [destruct (sp_free sp !! i) as [b|] eqn:E; cbn|].
  - split_and!; [eapply Hf, list_elem_of_lookup_2, E|done|]. intros b'.
    intros Hb'. eapply elem_of_sublist; [exact Hb'|apply sublist_delete].
  - unfold cap, make_buffer, len. cbn. rewrite length_replicate. split_and!; [lia|done|done].
  - unfold cap, make_buffer, len. cbn. rewrite length_replicate. split_and!; [lia|done|done].
Qed.

(** What [Get] hands out has the asked length, whatever the pool kept, and may be put back. *)
Lemma Get_ok p size pick :
  pool_ok p -> 0 <= size ->
  exists b p', Get p size pick = Some (b, p') /\ len (contents b) = size /\
    pool_ok p' /\ pool_buffer p' b /\ (forall b', pool_buffer p b' -> pool_buffer p' b') /\
    maxSize p' = maxSize p /\
    (forall i sp, findPool p size = Some i -> pools p !! i = Some sp -> cap b = sp_size sp).
Proof.
  intros Hok Hs. unfold Get, contents, len. destruct (Z.le_gt_cases size (maxSize p)) as [Hle|Hgt].
  - destruct (findPool_first_fit p size Hok ltac:(lia)) as (i & sp & -> & Hi & Hsize & _). rewrite Hi. cbn.
    pose proof (bucket_sizes_bounded p i sp Hok Hi) as Hb.
    pose proof (sp_Get_ok sp pick ltac:(lia) (fun b => ok_free p Hok i sp b Hi)) as Hg.
    destruct (sp_Get sp pick) as [b sp'] eqn:E. destruct Hg as (Hcap & Hsz & Hin).
    unfold reslice. rewrite Hcap, (proj2 (Z.leb_le 0 size)), (proj2 (Z.leb_le size _)) by lia. cbn.
    destruct (set_bucket_ok p i sp sp' Hok Hi Hsz) as [Hok' Hsizes].
    { intros b' Hb'. eapply ok_free; eauto. }
    eexists _, _. split_and!; [done| |done| | |done|by intros; simplify_eq].
    + cbn. unfold cap, len in Hcap. rewrite length_take. lia.
    + left. cbn. rewrite Hsizes. unfold cap in *. cbn. rewrite Hcap.
      apply list_elem_of_fmap. exists sp. split; [done|]. by eapply list_elem_of_lookup_2.
    + intros b'. unfold pool_buffer. cbn. by rewrite Hsizes.
  - unfold findPool. rewrite (proj2 (Z.ltb_lt _ _)) by lia. eexists _, _. split_and!; [done| |done| |done|done|done].
    + cbn. rewrite length_take, length_replicate. lia.
    + right. unfold cap, make_buffer, len. cbn. rewrite length_replicate. lia.
Qed.

(** A buffer that came from the pool goes back into its own bucket. *)
Lemma Put_ok p b :
  pool_ok p -> pool_buffer p b ->
  exists p', Put p b = Some p' /\ pool_ok p' /\ (forall b', pool_buffer p b' -> pool_buffer p' b') /\
    maxSize p' = maxSize p.
Proof.
  intros Hok [Hin|Hbig]; unfold Put.
  - apply list_elem_of_fmap in Hin as (sp & Ecap & [i Hi]%list_elem_of_lookup_1).
    rewrite Ecap, (findPool_exact p i sp Hok Hi (bucket_sizes_bounded p i sp Hok Hi)), Hi. cbn.
    edestruct (set_bucket_ok p i sp) as [Hok' Hsizes]; [done|done| | |].
    3: { eexists. split_and!; [done|exact Hok'| |done]. intros b'. unfold pool_buffer. cbn. by rewrite Hsizes. }
    + done.
    + cbn. intros b' [->|Hb']%elem_of_cons; [done|]. eapply ok_free; eauto.
  - unfold findPool. rewrite (proj2 (Z.ltb_lt _ _)) by lia. by exists p.
Qed.

(** ** The interface the protocol code relies on *)

Class BufferPool := {
  pool : Type;
  (** What the pool keeps true, and the buffers on loan from it. *)
  pool_inv : pool -> Prop;
  on_loan : pool -> Buffer -> Prop;
  pool_Get : pool -> Z -> option (Buffer * pool);
  pool_Put : pool -> Buffer -> option pool;
  pool_Get_ok p size :
    pool_inv p -> 0 <= size ->
    exists b p', pool_Get p size = Some (b, p') /\ len (contents b) = size /\ pool_inv p' /\ on_loan p' b /\
      (forall b', on_loan p b' -> on_loan p' b');
  pool_Put_ok p b :
    pool_inv p -> on_loan p b ->
    exists p', pool_Put p b = Some p' /\ pool_inv p' /\ (forall b', on_loan p b' -> on_loan p' b')
}.

(** The pool with the choices its [sync.Pool]s will make. *)
#[export, refine] Instance bucket_pool : BufferPool := {
  pool := Pool * list (option nat);
  pool_inv p := pool_ok p.1;
  on_loan p b := pool_buffer p.1 b;
  pool_Get p size :=
    '(b, q) ← Get p.1 size (default None (head p.2)); Some (b, (q, tail p.2));
  pool_Put p b := q ← Put p.1 b; Some (q, p.2)
}.
Proof.
  - intros [p picks] size Hok Hs. cbn in *.
    destruct (Get_ok p size (default None (head picks)) Hok Hs) as (b & p' & -> & ? & ? & ? & ? & _). cbn. eauto 10.
  - intros [p picks] b Hok Hb. cbn in *. destruct (Put_ok p b Hok Hb) as (p' & -> & ? & ? & _). cbn. eauto.
Defined.

(** ** Histories of a pool *)

(** A caller asks for a buffer, or gives back the [i]-th it holds. *)
Inductive pool_op :=
| OpGet (size : Z) (pick : option nat)
| OpPut (i : nat).

(** [None] is a panic. *)
Definition pool_step (s : Pool * list Buffer) (op : pool_op) : option (Pool * list Buffer) :=
  match op with
  | OpGet size pick => '(b, p) ← Get s.1 size pick; Some (p, b :: s.2)
  | OpPut i =>
      match s.2 !! i with
      | None => Some s
      | Some b => p ← Put s.1 b; Some (p, delete i s.2)
      end
  end.

Fixpoint pool_run (s : Pool * list Buffer) (ops : list pool_op) : option (Pool * list Buffer) :=
  match ops with [] => Some s | op :: ops' => s' ← pool_step s op; pool_run s' ops' end.

Lemma pool_run_ok p held ops :
  pool_ok p -> Forall (pool_buffer p) held ->
  Forall (fun op => match op with OpGet size _ => 0 <= size | OpPut _ => True end) ops ->
  exists p' held', pool_run (p, held) ops = Some (p', held') /\ pool_ok p' /\ maxSize p' = maxSize p.
Proof.
  revert p held. induction ops as [|op ops IH]; intros p held Hok Hheld Hops; [by exists p, held|].
  apply Forall_cons in Hops as [Hop Hops]. destruct op as [size pick|i]; cbn.
  - destruct (Get_ok p size pick Hok Hop) as (b & p' & -> & _ & Hok' & Hb & Hmono & <- & _). cbn.
    apply IH; [done| |done]. constructor; [done|]. eapply Forall_impl; eauto.
  - destruct (held !! i) as [b|] eqn:E; [|by apply IH].
    pose proof (Forall_lookup_1 _ _ _ _ Hheld E) as Hb.
    destruct (Put_ok p b Hok Hb) as (p' & -> & Hok' & Hmono & <-). cbn. apply IH; [done| |done].
    eapply Forall_impl; [|exact Hmono]. by apply Forall_delete.
Qed.

(** C: Whatever buffers its callers take and give back, a pool never panics, and a
    buffer it hands out has exactly the asked length: it comes from the first bucket
    large enough for the size, or is allocated when no bucket is. *)
Theorem buffer_pool_serves min max ops :
  1 <= min <= max -> max <= 2 ^ 62 ->
  Forall (fun op => match op with OpGet size _ => 0 <= size | OpPut _ => True end) ops ->
  exists p0 p held,
    New min max = Some p0 /\ pool_run (p0, []) ops = Some (p, held) /\
    forall size pick, 0 <= size ->
      exists b p', Get p size pick = Some (b, p') /\ len (contents b) = size /\
        (size <= max -> exists i sp, findPool p size = Some i /\ pools p !! i = Some sp /\ cap b = sp_size sp /\
           size <= sp_size sp /\ forall j sp', (j < i)%nat -> pools p !! j = Some sp' -> sp_size sp' < size).
Proof.
  intros Hmin Hmax Hops. destruct (New_ok min max Hmin Hmax) as (p0 & E0 & Hok0 & Em0).
  destruct (pool_run_ok p0 [] ops Hok0 (Forall_nil_2 _) Hops) as (p & held & Er & Hok & Em).
  exists p0, p, held. split_and!; [done|done|]. intros size pick Hs.
  destruct (Get_ok p size pick Hok Hs) as (b & p' & Eg & Hlen & _ & _ & _ & _ & Hcap).
  exists b, p'. split_and!; [done|done|]. intros Hle.
  destruct (findPool_first_fit p size Hok ltac:(lia)) as (i & sp & Ef & Hi & Hsz & Hfirst). eauto 10.
Qed.

Lemma buffer_pool_serves_witness :
  let ops := [OpGet 5 None; OpGet 9 None; OpPut 1; OpGet 3 (Some 0%nat)] in
  exists p0 p held, New 4 16 = Some p0 /\ pool_run (p0, []) ops = Some (p, held) /\
    sp_size <$> pools p0 = [4; 8; 16] /\ (fun b => (cap b, blen b)) <$> held = [(4, 3%nat); (16, 9%nat)].
Proof.
  cbv zeta. pose proof (buffer_pool_serves 4 16 [OpGet 5 None; OpGet 9 None; OpPut 1; OpGet 3 (Some 0%nat)]
    ltac:(lia) ltac:(lia) ltac:(repeat constructor; lia)) as (p0 & p & held & E0 & Er & _).
  exists p0, p, held. split_and!; [done|done| |]; vm_compute in E0; injection E0 as <-; vm_compute in Er;
    injection Er as <- <-; reflexivity.
Defined.

(** A buffer from elsewhere whose capacity lies between two bucket sizes is not
    discarded: it lands in the larger bucket, and a later [Get] that receives it
    panics. *)
Example foreign_buffer_panics :
  exists p p', New 4 16 = Some p /\ Put p (make_buffer 5) = Some p' /\ Get p' 7 (Some 0%nat) = None.
Proof. eexists _, _. vm_compute. repeat split. Qed.
