(* ===== verification/Wire.v ===== *)
(** Packets of the PostgreSQL wire protocol: common/pgprotocol/server/packet.go and
    client/packet.go.  The buffered writer of the standard library over a connection
    that may fail, the in-place construction of a packet ([startPacket],
    [writeXxxAt], [writePacket]), the reading of framed messages, and MessageReader.
    [None] is a Go panic throughout. *)

From Stdlib Require Import Strings.Byte.
From stdpp Require Import base numbers list strings.
From S2P Require Import Prelude.
From S2P Require Import Bytes.
From S2P Require Import Diagnostics.
From S2P Require Import BufPool.

Local Open Scope Z_scope.

(** ** Strings as bytes *)

Definition bytes_of (s : string) : list byte := String.list_byte_of_string s.
Definition string_of (l : list byte) : string := String.string_of_list_byte l.

Lemma string_of_bytes_of s : string_of (bytes_of s) = s.
Proof. apply String.string_of_list_byte_of_string. Qed.

Lemma bytes_of_string_of l : bytes_of (string_of l) = l.
Proof. apply String.list_byte_of_string_of_list_byte. Qed.

(** [%c], a rune in UTF-8, and [%02x], of a byte. *)
Definition Sprintf_c (b : byte) : string :=
  let n := byteZ b in
  string_of (if n <? 128 then [b] else [Zbyte (192 + n / 64); Zbyte (128 + n mod 64)]).
Definition hex_digit (n : Z) : byte := Zbyte (if n <? 10 then 48 + n else 87 + n).
Definition Sprintf_02x (b : byte) : string := string_of [hex_digit (byteZ b / 16); hex_digit (byteZ b mod 16)].

(** [%q] of a byte, a rune in single quotes. *)
Definition Sprintf_q (b : byte) : string :=
  let n := byteZ b in
  let quoted s := "'" +:+ s +:+ "'" in
  if (n =? 39) || (n =? 92) then quoted ("\" +:+ Sprintf_c b)
  else if (7 <=? n) && (n <=? 13) then quoted ("\" +:+ string_of (take 1 (drop (Z.to_nat (n - 7)) (bytes_of "abtnvfr"))))
  else if (n <? 32) || (n =? 127) then quoted ("\x" +:+ Sprintf_02x b)
  else if (128 <=? n) && (n <=? 160) || (n =? 173) then quoted ("\u00" +:+ Sprintf_02x b)
  else quoted (Sprintf_c b).

(** [uint16]/[uint32] reinterpreted as signed. *)
Definition int16_of (z : Z) : Z := if z <? 2 ^ 15 then z else z - 2 ^ 16.
Definition int32_of (z : Z) : Z := if z <? 2 ^ 31 then z else z - 2 ^ 32.

Definition in_int16 (z : Z) : Prop := - 2 ^ 15 <= z < 2 ^ 15.
Definition in_int32 (z : Z) : Prop := - 2 ^ 31 <= z < 2 ^ 31.
Definition in_uint32 (z : Z) : Prop := 0 <= z < 2 ^ 32.

(** ** The network and the buffered writer *)

(** What the peer has received, and how the next writes to the connection fare: a
    write delivers all its bytes, or [Some k] of them and fails. *)
Record Net := mkNet { delivered : list byte; faults : list (option nat) }.

Definition net_Write (n : Net) (p : list byte) : nat * option goerror * Net :=
  match faults n with
  | Some k :: fs =>
      (k `min` length p, Some (ESentinel net_error), mkNet (delivered n ++ take k p) fs)%nat
  | None :: fs => (length p, None, mkNet (delivered n ++ p) fs)
  | [] => (length p, None, mkNet (delivered n ++ p) [])
  end.

(** [bufio.Writer]: [w_n] bytes of [w_buf] are waiting. *)
Record Writer := mkWriter { w_buf : list byte; w_n : nat; w_err : option goerror }.

Definition Buffered (w : Writer) : list byte := take (w_n w) (w_buf w).
Definition Available (w : Writer) : nat := length (w_buf w) - w_n w.

Definition connBufferSize : nat := 16 * 1024.

(** A writer reset to a connection: the contents of its buffer are left over. *)
Definition fresh_writer (leftover : list byte) : Writer := mkWriter leftover 0 None.

(** Overwrites [l] at [pos]. *)
Definition put_at (buf : list byte) (pos : nat) (l : list byte) : list byte :=
  take pos buf ++ l ++ drop (pos + length l) buf.

Definition bufio_Flush (w : Writer) (n : Net) : option goerror * Writer * Net :=
  match w_err w with
  | Some e => (Some e, w, n)
  | None =>
      if (w_n w =? 0)%nat then (None, w, n)
      else
        match net_Write n (Buffered w) with
        | (k, Some e, n') =>
            (Some e, mkWriter (put_at (w_buf w) 0 (drop k (Buffered w))) (w_n w - k) (Some e), n')
        | (_, None, n') => (None, mkWriter (w_buf w) 0 None, n')
        end
  end.

(** The loop of [bufio.Writer.Write] runs at most twice: it fills and flushes the
    buffer, then writes the rest directly. *)
Fixpoint write_loop (fuel : nat) (w : Writer) (n : Net) (p : list byte) : Writer * Net * list byte :=
  match fuel with
  | O => (w, n, p)
  | S fuel' =>
      if (Available w <? length p)%nat && bool_decide (w_err w = None) then
        if (w_n w =? 0)%nat then
          let '(k, e, n') := net_Write n p in
          write_loop fuel' (mkWriter (w_buf w) (w_n w) e) n' (drop k p)
        else
          let k := (Available w `min` length p)%nat in
          let w' := mkWriter (put_at (w_buf w) (w_n w) (take k p)) (w_n w + k) (w_err w) in
          let '(_, w'', n') := bufio_Flush w' n in
          write_loop fuel' w'' n' (drop k p)
      else (w, n, p)
  end.

Definition bufio_Write (w : Writer) (n : Net) (p : list byte) : option goerror * Writer * Net :=
  let '(w', n', p') := write_loop 3 w n p in
  match w_err w' with
  | Some e => (Some e, w', n')
  | None => (None, mkWriter (put_at (w_buf w') (w_n w') p') (w_n w' + length p') None, n')
  end.

(** ** Packets *)

Section packets.
Context {BP : BufferPool}.

(** What the writing methods of a connection touch. *)
Record WSide := mkWSide {
  bufferedWriter : option Writer;
  outboundPoolBuf : option Buffer;
  bufMu : bool;
  bufPool : option pool;
  net : Net
}.

(** A method that writes: [None] panics (or locks a mutex it holds). *)
Definition W (A : Type) : Type := WSide -> option (A * WSide).

Definition header (msgType : byte) (bodyLen : nat) : list byte :=
  msgType :: be_bytes 4 (4 + Z.of_nat bodyLen).

Definition lock (ws : WSide) : option WSide :=
  if bufMu ws then None
  else Some (mkWSide (bufferedWriter ws) (outboundPoolBuf ws) true (bufPool ws) (net ws)).

Definition unlock (ws : WSide) : WSide :=
  mkWSide (bufferedWriter ws) (outboundPoolBuf ws) false (bufPool ws) (net ws).

Definition set_writer (ws : WSide) (w : option Writer) (n : Net) : WSide :=
  mkWSide w (outboundPoolBuf ws) (bufMu ws) (bufPool ws) n.

(** The client's [startPacket]: the packet's bytes, header written, and the position of
    its body.  On the fast path they are a part of the writer's own buffer beyond what
    is waiting. *)
Definition client_startPacket (msgType : byte) (bodyLen : nat) : W (list byte * nat) := fun ws =>
  let totalLen := (5 + bodyLen)%nat in
  let slow :=
    match bufPool ws with
    | Some p =>
        '(b, p') ← pool_Get p (Z.of_nat totalLen);
        Some ((put_at (contents b) 0 (header msgType bodyLen), 5%nat),
              mkWSide (bufferedWriter ws) (Some b) (bufMu ws) (Some p') (net ws))
    | None => Some ((put_at (replicate totalLen x00) 0 (header msgType bodyLen), 5%nat), ws)
    end in
  match bufferedWriter ws with
  | Some w =>
      if (totalLen <=? Available w)%nat
      then Some ((put_at (take totalLen (drop (w_n w) (w_buf w))) 0 (header msgType bodyLen), 5%nat), ws)
      else slow
  | None => slow
  end.

(** The server's also takes [bufMu], for the notification pusher writes too. *)
Definition startPacket (msgType : byte) (bodyLen : nat) : W (list byte * nat) := fun ws0 =>
  ws ← lock ws0; client_startPacket msgType bodyLen ws.

(** Writes bytes through the buffered writer if there is one. *)
Definition raw_write (p : list byte) (ws : WSide) : option goerror * WSide :=
  match bufferedWriter ws with
  | Some w => let '(e, w', n') := bufio_Write w (net ws) p in (e, set_writer ws (Some w') n')
  | None => let '(_, e, n') := net_Write (net ws) p in (e, set_writer ws None n')
  end.

(** Returns the pool buffer, if one was borrowed. *)
Definition returnOutboundBuffer (ws : WSide) : option WSide :=
  match outboundPoolBuf ws, bufPool ws with
  | None, _ => Some ws
  | Some b, Some p =>
      p' ← pool_Put p b; Some (mkWSide (bufferedWriter ws) None (bufMu ws) (Some p') (net ws))
  | Some _, None => None
  end.

Definition client_writePacket (buf : list byte) (pos : nat) : W (option goerror) := fun ws =>
  if (pos =? length buf)%nat then
    let '(e, ws') := raw_write buf ws in
    ws'' ← returnOutboundBuffer ws';
    Some (e, ws'')
  else None.

Definition writePacket (buf : list byte) (pos : nat) : W (option goerror) := fun ws =>
  '(e, ws') ← client_writePacket buf pos ws; Some (e, unlock ws').

(** [WriteRawMessage] and, for one byte, [writeRawByte]. *)
Definition WriteRawMessage (raw : list byte) : W (option goerror) := fun ws0 =>
  ws ← lock ws0;
  let '(e, ws') := raw_write raw ws in
  Some (e, unlock ws').

(** ** In-place encoders *)

(** They write at [buf[pos:]] and return the new position. *)
Definition encoder : Type := list byte -> nat -> option (list byte * nat).

Definition writeBytes_fixed (l : list byte) : encoder := fun buf pos =>
  if (pos + length l <=? length buf)%nat then Some (put_at buf pos l, (pos + length l)%nat) else None.

Definition writeByteAt (b : byte) : encoder := writeBytes_fixed [b].
Definition writeInt16At (v : Z) : encoder := writeBytes_fixed (be_bytes 2 v).
Definition writeInt32At (v : Z) : encoder := writeBytes_fixed (be_bytes 4 v).
Definition writeUint32At (v : Z) : encoder := writeBytes_fixed (be_bytes 4 v).

(** [copy(buf[pos:], b)] copies what fits. *)
Definition writeBytesAt (b : list byte) : encoder := fun buf pos =>
  if (pos <=? length buf)%nat then
    let n := ((length buf - pos) `min` length b)%nat in
    Some (put_at buf pos (take n b), (pos + n)%nat)
  else None.

Definition writeStringAt (s : string) : encoder := fun buf pos =>
  '(buf', pos') ← writeBytesAt (bytes_of s) buf pos;
  writeByteAt x00 buf' pos'.

(** NULL is [None]. *)
Definition writeByteStringAt (b : option (list byte)) : encoder := fun buf pos =>
  match b with
  | None => writeInt32At (-1) buf pos
  | Some l => '(buf', pos') ← writeInt32At (len l) buf pos; writeBytesAt l buf' pos'
  end.

Definition enc_seq (e1 e2 : encoder) : encoder := fun buf pos => '(buf', pos') ← e1 buf pos; e2 buf' pos'.
Definition enc_nil : encoder := fun buf pos => Some (buf, pos).

(** A loop over a slice. *)
Fixpoint enc_list {A} (f : A -> encoder) (l : list A) : encoder :=
  match l with [] => enc_nil | x :: l' => enc_seq (f x) (enc_list f l') end.

(** [startPacket], the encoders, [writePacket]. *)
Definition packet (msgType : byte) (bodyLen : nat) (enc : encoder) : W (option goerror) := fun ws =>
  '((buf, pos), ws') ← startPacket msgType bodyLen ws;
  '(buf', pos') ← enc buf pos;
  writePacket buf' pos' ws'.

Definition client_packet (msgType : byte) (bodyLen : nat) (enc : encoder) : W (option goerror) := fun ws =>
  '((buf, pos), ws') ← client_startPacket msgType bodyLen ws;
  '(buf', pos') ← enc buf pos;
  client_writePacket buf' pos' ws'.

Definition writeMessage (msgType : byte) (body : list byte) : W (option goerror) :=
  packet msgType (length body) (if (0 <? length body)%nat then writeBytesAt body else enc_nil).

End packets.

Notation "e1 +>+ e2" := (enc_seq e1 e2) (at level 60, right associativity) : go_scope.

(** ** Reading *)

(** A fallible method's value or error. *)
Notation gres A := (goerror + A)%type.

Record MessageReader := mkMessageReader { r_buf : list byte; r_pos : nat }.

Definition NewMessageReader (buf : list byte) : MessageReader := mkMessageReader buf 0.

Definition Remaining (r : MessageReader) : Z := len (r_buf r) - Z.of_nat (r_pos r).

(** A reading method; the receiver is updated, on errors too. *)
Definition Rd (A : Type) : Type := MessageReader -> gres A * MessageReader.

Definition rd_ret {A} (a : A) : Rd A := fun r => (inr a, r).
Definition rd_fail {A} (e : goerror) : Rd A := fun r => (inl e, r).
Definition rd_bind {A B} (m : Rd A) (f : A -> Rd B) : Rd B := fun r =>
  match m r with (inl e, r') => (inl e, r') | (inr a, r') => f a r' end.

(** [if err != nil { return fmt.Errorf(msg + ": %w", err) }]. *)
Definition rd_wrap {A} (msg : string) (m : Rd A) : Rd A := fun r =>
  match m r with (inl e, r') => (inl (EFmt msg e), r') | (inr a, r') => (inr a, r') end.

#[export] Instance rd_mret : MRet Rd := @rd_ret.
#[export] Instance rd_mbind : MBind Rd := fun A B f m => rd_bind m f.

(** The next [n] bytes, or [io.EOF]. *)
Definition ReadBytes (n : nat) : Rd (list byte) := fun r =>
  if (length (r_buf r) <? r_pos r + n)%nat then (inl (ESentinel io_EOF), r)
  else (inr (take n (drop (r_pos r) (r_buf r))), mkMessageReader (r_buf r) (r_pos r + n)).

Definition ReadByte : Rd byte := fun r =>
  match r_buf r !! r_pos r with
  | None => (inl (ESentinel io_EOF), r)
  | Some b => (inr b, mkMessageReader (r_buf r) (r_pos r + 1))
  end.

Definition ReadUint16 : Rd Z := l ← ReadBytes 2; mret (be_value l).
Definition ReadUint32 : Rd Z := l ← ReadBytes 4; mret (be_value l).
Definition ReadInt16 : Rd Z := v ← ReadUint16; mret (int16_of v).
Definition ReadInt32 : Rd Z := v ← ReadUint32; mret (int32_of v).

(** The loop of [ReadString] over the rest of the buffer: what precedes the null
    terminator. *)
Fixpoint scan_string (l : list byte) : option (list byte) :=
  match l with
  | [] => None
  | b :: l' => if bool_decide (b = x00) then Some [] else cons b <$> scan_string l'
  end.

Definition ReadString : Rd string := fun r =>
  match scan_string (drop (r_pos r) (r_buf r)) with
  | Some s => (inr (string_of s), mkMessageReader (r_buf r) (r_pos r + length s + 1))
  | None => (inl (ESentinel io_EOF), mkMessageReader (r_buf r) (r_pos r `max` length (r_buf r)))
  end.

(** [None] is NULL.  Client and server differ in the text of the error. *)
Definition read_byte_string (what : string) : Rd (option (list byte)) :=
  n ← ReadInt32;
  if n =? -1 then mret None
  else if n <? 0 then rd_fail (EString ("invalid " +:+ what +:+ " length: " +:+ Sprintf_d n))
  else l ← ReadBytes (Z.to_nat n); mret (Some l).

Definition ReadByteString : Rd (option (list byte)) := read_byte_string "string".
Definition client_ReadByteString : Rd (option (list byte)) := read_byte_string "byte string".

(** [n] readings. *)
Fixpoint rd_list {A} (n : nat) (m : Rd A) : Rd (list A) :=
  match n with O => mret [] | S n' => x ← m; l ← rd_list n' m; mret (x :: l) end.

(** ** Framed messages on the input *)

(** What the buffered reader will still deliver, and the error that follows it. *)
Record Input := mkInput { inp : list byte; inp_err : sentinel }.

Definition set_inp (i : Input) (l : list byte) : Input := mkInput l (inp_err i).

(** [bufio.Reader.ReadByte]. *)
Definition readMessageType (i : Input) : gres byte * Input :=
  match inp i with
  | [] => (inl (ESentinel (inp_err i)), i)
  | b :: l => (inr b, set_inp i l)
  end.

(** [Peek(4)] and [Discard(4)]: too few bytes are left in place. *)
Definition read_uint32 (i : Input) : gres Z * Input :=
  if (length (inp i) <? 4)%nat then (inl (ESentinel (inp_err i)), i)
  else (inr (be_value (take 4 (inp i))), set_inp i (drop 4 (inp i))).

Definition readMessageLength (i : Input) : gres Z * Input :=
  match read_uint32 i with
  | (inl e, i') => (inl e, i')
  | (inr length, i') =>
      if length <? 4 then (inl (EString ("invalid message length: " +:+ Sprintf_d length)), i')
      else (inr (length - 4), i')
  end.

Definition MaxFrontendMessageBodyLength : Z := 1073741822.

(** The server's also bounds the length. *)
Definition ReadMessageLength (i : Input) : gres Z * Input :=
  match readMessageLength i with
  | (inl e, i') => (inl e, i')
  | (inr bodyLength, i') =>
      if MaxFrontendMessageBodyLength <? bodyLength
      then (inl (EJoin (ESentinel errFrontendMessageTooLarge)
              (EString ("message body length " +:+ Sprintf_d bodyLength +:+ " exceeds maximum " +:+
                        Sprintf_d MaxFrontendMessageBodyLength))), i')
      else (inr bodyLength, i')
  end.

(** [io.ReadFull]: what there is is consumed. *)
Definition ReadFull (n : nat) (i : Input) : gres (list byte) * Input :=
  if (n <=? length (inp i))%nat then (inr (take n (inp i)), set_inp i (drop n (inp i)))
  else
    let e := if (0 <? length (inp i))%nat && bool_decide (inp_err i = io_EOF) then io_ErrUnexpectedEOF else inp_err i in
    (inl (ESentinel e), set_inp i []).

(** The client's [readMessageBody]; a nil slice is empty. *)
Definition client_readMessageBody (length : Z) (i : Input) : gres (list byte) * Input :=
  if length =? 0 then (inr [], i) else ReadFull (Z.to_nat length) i.

Definition readMessageHeader (i : Input) : gres (byte * Z) * Input :=
  match readMessageType i with
  | (inl e, i') => (inl e, i')
  | (inr msgType, i') =>
      match readMessageLength i' with
      | (inl e, i'') => (inl e, i'')
      | (inr bodyLen, i'') => (inr (msgType, bodyLen), i'')
      end
  end.

Definition readMessage (i : Input) : gres (byte * list byte) * Input :=
  match readMessageHeader i with
  | (inl e, i') => (inl e, i')
  | (inr (msgType, bodyLen), i') =>
      match client_readMessageBody bodyLen i' with
      | (inl e, i'') => (inl e, i'')
      | (inr body, i'') => (inr (msgType, body), i'')
      end
  end.
