(* ===== verification/WireFacts.v ===== *)
(** Lemmas on packets: what an encoder writes, what a reader reads back, and that a
    packet put together in place reaches the stream as its header and body, whichever
    buffer it was built in and whatever the connection does. *)

From Stdlib Require Import Strings.Byte.
From stdpp Require Import base numbers list strings.
From S2P Require Import Prelude.
From S2P Require Import Bytes.
From S2P Require Import Diagnostics.
From S2P Require Import BufPool.
From S2P Require Import Wire.

Local Open Scope Z_scope.
Local Open Scope go_scope.

Create HintDb wire.

(** Evaluates the comparisons of message types and field codes. *)
Ltac byte_tests :=
  repeat match goal with
  | |- context [@bool_decide (?a = ?b) ?D] =>
      lazymatch type of a with byte =>
        let v := eval vm_compute in (@bool_decide (a = b) D) in
        lazymatch v with true => idtac | false => idtac end; change (@bool_decide (a = b) D) with v
      end
  end;
  cbv iota; cbn [orb andb negb].

(** ** Overwriting part of a buffer *)

Lemma put_at_app pre l junk :
  (length l <= length junk)%nat -> put_at (pre ++ junk) (length pre) l = pre ++ l ++ drop (length l) junk.
Proof. intros H. unfold put_at. by rewrite take_app_length, drop_app_add. Qed.

Lemma put_at_length buf pos l : (pos + length l <= length buf)%nat -> length (put_at buf pos l) = length buf.
Proof. intros H. unfold put_at. rewrite !length_app, length_take, length_drop. lia. Qed.

Lemma take_put_at buf pos l :
  (pos + length l <= length buf)%nat -> take (pos + length l) (put_at buf pos l) = take pos buf ++ l.
Proof.
  intros H. unfold put_at. rewrite app_assoc. apply take_app_length'. rewrite length_app, length_take. lia.
Qed.

(** ** What encoders write *)

(** [enc] writes [l], whatever the buffer held there. *)
Definition writes (enc : encoder) (l : list byte) : Prop :=
  forall pre junk, (length l <= length junk)%nat ->
    enc (pre ++ junk) (length pre) = Some (pre ++ l ++ drop (length l) junk, (length pre + length l)%nat).

Lemma writes_fixed l : writes (writeBytes_fixed l) l.
Proof.
  intros pre junk H. unfold writeBytes_fixed. rewrite length_app, (proj2 (Nat.leb_le _ _)) by lia.
  by rewrite put_at_app.
Qed.

Lemma writes_byte b : writes (writeByteAt b) [b].
Proof. apply writes_fixed. Qed.
Lemma writes_int16 v : writes (writeInt16At v) (be_bytes 2 v).
Proof. apply writes_fixed. Qed.
Lemma writes_int32 v : writes (writeInt32At v) (be_bytes 4 v).
Proof. apply writes_fixed. Qed.
Lemma writes_uint32 v : writes (writeUint32At v) (be_bytes 4 v).
Proof. apply writes_fixed. Qed.

Lemma writes_bytes l : writes (writeBytesAt l) l.
Proof.
  intros pre junk H. unfold writeBytesAt. rewrite length_app, (proj2 (Nat.leb_le _ _)) by lia.
  replace ((length pre + length junk - length pre) `min` length l)%nat with (length l) by lia.
  by rewrite take_ge, put_at_app by done.
Qed.

Lemma writes_nil : writes enc_nil [].
Proof. intros pre junk H. cbn. by rewrite drop_0, Nat.add_0_r. Qed.

Lemma writes_seq e1 e2 l1 l2 : writes e1 l1 -> writes e2 l2 -> writes (e1 +>+ e2) (l1 ++ l2).
Proof.
  intros H1 H2 pre junk H. rewrite length_app in H. unfold enc_seq. rewrite H1 by lia. cbn.
  rewrite (app_assoc pre), <- length_app, H2 by (rewrite length_drop; lia).
  rewrite drop_drop, !length_app, <- !app_assoc. by rewrite Nat.add_assoc.
Qed.

Lemma writes_string s : writes (writeStringAt s) (bytes_of s ++ [x00]).
Proof. apply (writes_seq (writeBytesAt (bytes_of s)) (writeByteAt x00)); [apply writes_bytes|apply writes_byte]. Qed.

(** A length-prefixed byte string on the wire; [None] is NULL. *)
Definition byte_string_bytes (b : option (list byte)) : list byte :=
  match b with None => be_bytes 4 (-1) | Some l => be_bytes 4 (len l) ++ l end.

Lemma writes_byte_string b : writes (writeByteStringAt b) (byte_string_bytes b).
Proof.
  destruct b as [l|]; [|apply writes_int32].
  apply (writes_seq (writeInt32At (len l)) (writeBytesAt l)); [apply writes_int32|apply writes_bytes].
Qed.

Lemma writes_list {A} (f : A -> encoder) (g : A -> list byte) l :
  (forall x, writes (f x) (g x)) -> writes (enc_list f l) (concat (g <$> l)).
Proof. intros Hf. induction l as [|x l IH]; [apply writes_nil|]. by apply writes_seq. Qed.

#[export] Hint Resolve writes_byte writes_int16 writes_int32 writes_uint32 writes_bytes writes_nil writes_string
  writes_byte_string writes_list writes_seq : wire.

(** ** What readers read *)

(** [rd] reads the bytes [l] as [v] and stops after them. *)
Definition reads {A} (rd : Rd A) (l : list byte) (v : A) : Prop :=
  forall pre rest,
    rd (mkMessageReader (pre ++ l ++ rest) (length pre)) =
      (inr v, mkMessageReader (pre ++ l ++ rest) (length pre + length l)).

Lemma reads_ret {A} (v : A) : reads (mret v) [] v.
Proof. intros pre rest. cbn. by rewrite Nat.add_0_r. Qed.

Lemma reads_bind {A B} (m : Rd A) (f : A -> Rd B) l1 l2 v w :
  reads m l1 v -> reads (f v) l2 w -> reads (m ≫= f) (l1 ++ l2) w.
Proof.
  intros H1 H2 pre rest. unfold mbind, rd_mbind, rd_bind. rewrite <- app_assoc, H1.
  rewrite !(app_assoc pre l1), <- length_app, H2. by rewrite !length_app, <- Nat.add_assoc.
Qed.

Lemma reads_wrap {A} msg (m : Rd A) l v : reads m l v -> reads (rd_wrap msg m) l v.
Proof. intros H pre rest. unfold rd_wrap. by rewrite H. Qed.

Lemma reads_ext {A} (m : Rd A) l l' v : l = l' -> reads m l v -> reads m l' v.
Proof. by intros <-. Qed.

Lemma reads_then_ret {A B} (m : Rd A) (f : A -> B) l v : reads m l v -> reads (x ← m; mret (f x)) l (f v).
Proof. intros H. eapply reads_ext; [apply app_nil_r|]. eapply reads_bind; [exact H|]. apply reads_ret. Qed.

Lemma reads_bytes l : reads (ReadBytes (length l)) l l.
Proof.
  intros pre rest. unfold ReadBytes. cbn [r_buf r_pos]. rewrite !length_app.
  rewrite (proj2 (Nat.ltb_ge _ _)) by lia. by rewrite drop_app_length, take_app_length.
Qed.

Lemma reads_byte b : reads ReadByte [b] b.
Proof. intros pre rest. unfold ReadByte. cbn [r_buf r_pos app]. by rewrite list_lookup_middle. Qed.

Lemma reads_uint16 v : 0 <= v < 2 ^ 16 -> reads ReadUint16 (be_bytes 2 v) v.
Proof.
  intros Hv. replace v with (be_value (be_bytes 2 v)) at 2 by (rewrite be_value_bytes; apply Z.mod_small; done).
  apply (reads_then_ret (ReadBytes 2)), (reads_bytes (be_bytes 2 v)).
Qed.

Lemma reads_uint32 v : in_uint32 v -> reads ReadUint32 (be_bytes 4 v) v.
Proof.
  intros Hv. replace v with (be_value (be_bytes 4 v)) at 2 by (rewrite be_value_bytes; apply Z.mod_small; done).
  apply (reads_then_ret (ReadBytes 4)), (reads_bytes (be_bytes 4 v)).
Qed.

(** Only the low bits of an integer are written. *)
Lemma be_bytes_mod n z : be_bytes n (z mod 256 ^ Z.of_nat n) = be_bytes n z.
Proof.
  rewrite <- be_value_bytes. transitivity (be_bytes (length (be_bytes n z)) (be_value (be_bytes n z))).
  - by rewrite be_bytes_length.
  - apply be_bytes_value.
Qed.

Lemma int16_of_mod v : in_int16 v -> int16_of (v mod 2 ^ 16) = v.
Proof.
  unfold in_int16, int16_of. intros Hv. destruct (Z.lt_ge_cases v 0).
  - rewrite <- (Z.mod_unique v (2 ^ 16) (-1) (v + 2 ^ 16)) by lia. destruct (Z.ltb_spec (v + 2 ^ 16) (2 ^ 15)); lia.
  - rewrite Z.mod_small by lia. destruct (Z.ltb_spec v (2 ^ 15)); lia.
Qed.

Lemma int32_of_mod v : in_int32 v -> int32_of (v mod 2 ^ 32) = v.
Proof.
  unfold in_int32, int32_of. intros Hv. destruct (Z.lt_ge_cases v 0).
  - rewrite <- (Z.mod_unique v (2 ^ 32) (-1) (v + 2 ^ 32)) by lia. destruct (Z.ltb_spec (v + 2 ^ 32) (2 ^ 31)); lia.
  - rewrite Z.mod_small by lia. destruct (Z.ltb_spec v (2 ^ 31)); lia.
Qed.

Lemma reads_int16 v : in_int16 v -> reads ReadInt16 (be_bytes 2 v) v.
Proof.
  intros Hv. rewrite <- (int16_of_mod v Hv) at 2. apply (reads_then_ret ReadUint16).
  rewrite <- be_bytes_mod. apply reads_uint16. apply Z.mod_pos_bound. lia.
Qed.

Lemma reads_int32 v : in_int32 v -> reads ReadInt32 (be_bytes 4 v) v.
Proof.
  intros Hv. rewrite <- (int32_of_mod v Hv) at 2. apply (reads_then_ret ReadUint32).
  rewrite <- be_bytes_mod. apply reads_uint32. apply Z.mod_pos_bound. lia.
Qed.

(** A string without null bytes. *)
Definition no_nul (s : string) : Prop := x00 ∉ bytes_of s.

Lemma scan_string_app l rest : x00 ∉ l -> scan_string (l ++ x00 :: rest) = Some l.
Proof.
  induction l as [|b l IH]; intros Hn; [done|]. cbn [app scan_string]. apply not_elem_of_cons in Hn as [Hb Hn].
  rewrite bool_decide_eq_false_2 by congruence. by rewrite IH.
Qed.

Lemma reads_string s : no_nul s -> reads ReadString (bytes_of s ++ [x00]) s.
Proof.
  intros Hs pre rest. unfold ReadString. cbn [r_buf r_pos]. rewrite drop_app_length, <- app_assoc.
  cbn [app]. rewrite scan_string_app by done. rewrite string_of_bytes_of, length_app. cbn. by rewrite Nat.add_assoc.
Qed.

(** A byte string short enough for its length to be an [int32]. *)
Definition fits32 (b : option (list byte)) : Prop := from_option (fun l => len l < 2 ^ 31) True b.

Lemma reads_byte_string what b : fits32 b -> reads (read_byte_string what) (byte_string_bytes b) b.
Proof.
  intros Hb. unfold read_byte_string. destruct b as [l|]; cbn [byte_string_bytes] in *.
  - apply (reads_bind ReadInt32 _ _ _ (len l)).
    + apply reads_int32. unfold fits32, in_int32, len in *. cbn [from_option] in Hb. lia.
    + unfold len. rewrite (proj2 (Z.eqb_neq _ _)), (proj2 (Z.ltb_ge _ _)), Nat2Z.id by lia.
      apply (reads_then_ret (ReadBytes (length l))), reads_bytes.
  - eapply reads_ext; [apply app_nil_r|].
    apply (reads_bind ReadInt32 _ _ _ (-1)); [apply reads_int32; unfold in_int32; lia|apply reads_ret].
Qed.

Lemma reads_list {A} (m : Rd A) (g : A -> list byte) l :
  (forall x, x ∈ l -> reads m (g x) x) -> reads (rd_list (length l) m) (concat (g <$> l)) l.
Proof.
  induction l as [|x l IH]; intros Hl; [apply reads_ret|]. cbn.
  eapply reads_bind; [apply Hl; left|]. apply (reads_then_ret (rd_list (length l) m) (cons x)).
  apply IH. intros y Hy. apply Hl. by right.
Qed.

(** A reading of the whole buffer. *)
Lemma reads_all {A} (m : Rd A) l v : reads m l v -> m (NewMessageReader l) = (inr v, mkMessageReader l (length l)).
Proof. intros H. specialize (H [] []). by rewrite app_nil_r in H. Qed.

#[export] Hint Resolve reads_ret reads_bind reads_wrap reads_byte reads_uint16 reads_uint32 reads_int16 reads_int32
  reads_string reads_byte_string reads_list : wire.

(** ** The buffered writer *)

Definition writer_ok (w : Writer) : Prop := (w_n w <= length (w_buf w))%nat.

(** A write to the connection delivers a prefix, all of it on success. *)
Lemma net_Write_ok n p k e n' :
  net_Write n p = (k, e, n') ->
  delivered n' = delivered n ++ take k p /\ (k <= length p)%nat /\ (e = None -> k = length p) /\
  (faults n = [] -> e = None /\ faults n' = []).
Proof.
  unfold net_Write. intros H. destruct (faults n) as [|[j|] fs] eqn:E; simplify_eq; cbn;
    rewrite ?take_ge by done; [by split_and!| |by split_and!].
  split_and!; [|lia|done|done]. destruct (Nat.le_ge_cases j (length p)).
  - by rewrite Nat.min_l.
  - by rewrite Nat.min_r, !take_ge.
Qed.

(** What is on its way: delivered or waiting in the writer. *)
Definition pending (w : Writer) (n : Net) : list byte := delivered n ++ Buffered w.

Lemma Buffered_length w : writer_ok w -> length (Buffered w) = w_n w.
Proof. intros H. unfold Buffered. rewrite length_take. unfold writer_ok in H. lia. Qed.

Lemma Flush_ok w n e w' n' :
  bufio_Flush w n = (e, w', n') -> writer_ok w ->
  pending w' n' = pending w n /\ writer_ok w' /\ length (w_buf w') = length (w_buf w) /\ w_err w' = e /\
  (e = None -> w_n w' = 0%nat) /\ (w_err w = None -> faults n = [] -> e = None /\ faults n' = []).
Proof.
  unfold bufio_Flush, pending. intros H Hok. destruct (w_err w) as [e0|] eqn:Ee; [by simplify_eq|].
  destruct (Nat.eqb_spec (w_n w) 0) as [E0|E0]; [by simplify_eq|].
  destruct (net_Write n (Buffered w)) as [[k [e1|]] n1] eqn:Ew; apply net_Write_ok in Ew as (Hd & Hk & He & Hf); simplify_eq.
  - rewrite Buffered_length in Hk by done. unfold writer_ok in *. cbn.
    assert (length (drop k (Buffered w)) = w_n w - k)%nat as Hl by (rewrite length_drop, Buffered_length by done; lia).
    rewrite put_at_length by (cbn; lia). split_and!; [|lia|done|done|done|].
    + rewrite Hd, <- app_assoc. f_equal. unfold Buffered at 1. cbn [w_n w_buf].
      rewrite <- Hl. pose proof (take_put_at (w_buf w) 0 (drop k (Buffered w)) ltac:(cbn; lia)) as Et.
      cbn in Et. rewrite Et. apply take_drop.
    + intros _ Hn. by destruct (Hf Hn).
  - unfold writer_ok in *. cbn. split_and!; [|lia|done|done|done|].
    + rewrite Hd. unfold Buffered at 2. cbn. rewrite app_nil_r, take_ge by (rewrite He; done). done.
    + intros _ Hn. by destruct (Hf Hn).
Qed.

(** The rounds [write_loop] still needs. *)
Definition rounds (w : Writer) (p : list byte) : nat :=
  if (Available w <? length p)%nat && bool_decide (w_err w = None)
  then if (w_n w =? 0)%nat then 1 else 2 else 0.

Lemma write_loop_ok fuel w n p w' n' p' :
  write_loop fuel w n p = (w', n', p') -> writer_ok w -> w_err w = None -> (rounds w p <= fuel)%nat ->
  writer_ok w' /\ length (w_buf w') = length (w_buf w) /\
  (w_err w' = None -> pending w' n' ++ p' = pending w n ++ p /\ (length p' <= Available w')%nat) /\
  pending w' n' `prefix_of` pending w n ++ p /\
  (faults n = [] -> w_err w' = None /\ faults n' = []).
Proof.
  revert w n p. induction fuel as [|fuel IH]; intros w n p H Hok He Hr; cbn [write_loop] in H.
  { simplify_eq. unfold rounds in Hr. rewrite He in *. destruct (Nat.ltb_spec (Available w') (length p')).
    { rewrite bool_decide_eq_true_2 in Hr by done. cbn [andb] in Hr. destruct (_ =? _)%nat; lia. }
    split_and!; auto. by apply prefix_app_r. }
  unfold rounds in Hr. rewrite He in H, Hr. rewrite bool_decide_eq_true_2, andb_true_r in H, Hr by done.
  destruct (Nat.ltb_spec (Available w) (length p)) as [Hav|Hav].
  2:{ simplify_eq. split_and!; auto. by apply prefix_app_r. }
  destruct (Nat.eqb_spec (w_n w) 0) as [E0|E0].
  - destruct (net_Write n p) as [[k e] n1] eqn:Ew. apply net_Write_ok in Ew as (Hd & Hk & Hall & Hf).
    assert (Buffered w = []) as Eb by (unfold Buffered; by rewrite E0).
    set (w1 := mkWriter (w_buf w) (w_n w) e) in *.
    assert (pending w1 n1 ++ drop k p = pending w n ++ p) as Ep.
    { unfold pending. rewrite Eb, Hd. unfold Buffered, w1. cbn. rewrite E0. cbn. rewrite !app_nil_r, <- app_assoc.
      by rewrite take_drop. }
    destruct e as [e|].
    + assert (write_loop fuel w1 n1 (drop k p) = (w1, n1, drop k p)) as Es.
      { destruct fuel; cbn; [done|]. by rewrite andb_false_r. }
      rewrite Es in H. simplify_eq. split_and!; [done|done|done| |intros Hn; by destruct (Hf Hn)].
      rewrite <- Ep. by apply prefix_app_r.
    + destruct (IH w1 n1 (drop k p) H) as (Hok' & Hl & Hp & Hpre & Hn'); [done|done| |].
      { unfold rounds. rewrite drop_ge by (rewrite (Hall eq_refl); done). cbn. lia. }
      rewrite Ep in Hp, Hpre. split_and!; auto. intros Hn. destruct (Hf Hn). auto.
  - set (k := (Available w `min` length p)%nat) in *.
    set (w1 := mkWriter (put_at (w_buf w) (w_n w) (take k p)) (w_n w + k) None) in *.
    assert (length (take k p) = k) as Hlk by (rewrite length_take; lia).
    unfold writer_ok in Hok. unfold Available in k, Hav.
    assert (writer_ok w1) as Hok1 by (unfold writer_ok, w1; cbn; rewrite put_at_length; lia).
    assert (pending w1 n ++ drop k p = pending w n ++ p) as Ep.
    { unfold pending, Buffered, w1. cbn [w_n w_buf]. rewrite <- Hlk at 1.
      rewrite take_put_at by lia. rewrite <- !app_assoc. by rewrite take_drop. }
    destruct (bufio_Flush w1 n) as [[e w2] n2] eqn:Ef.
    pose proof (Flush_ok w1 n e w2 n2 Ef Hok1) as (Epend & Hok2 & Hl2 & He2 & H0 & Hf2). rewrite <- Epend in Ep.
    assert (length (w_buf w2) = length (w_buf w)) as Hl by (rewrite Hl2; unfold w1; cbn; rewrite put_at_length; lia).
    destruct e as [e|].
    + assert (write_loop fuel w2 n2 (drop k p) = (w2, n2, drop k p)) as Es.
      { destruct fuel; cbn; [done|]. by rewrite He2, andb_false_r. }
      rewrite Es in H. simplify_eq. split_and!; [done|done|congruence| |].
      * rewrite <- Ep. by apply prefix_app_r.
      * intros Hn. destruct (Hf2 eq_refl Hn) as [? _]. done.
    + destruct (IH w2 n2 (drop k p) H) as (Hok' & Hl' & Hp & Hpre & Hn'); [done|done| |].
      { unfold rounds. rewrite (H0 eq_refl). cbn. destruct (_ && _); lia. }
      rewrite Ep in Hp, Hpre. split_and!; [done|congruence|done|done|].
      intros Hn. destruct (Hf2 eq_refl Hn). auto.
Qed.

Lemma bufio_Write_ok w n p e w' n' :
  bufio_Write w n p = (e, w', n') -> writer_ok w ->
  writer_ok w' /\ length (w_buf w') = length (w_buf w) /\ w_err w' = e /\
  (e = None -> pending w' n' = pending w n ++ p) /\ pending w' n' `prefix_of` pending w n ++ p /\
  (w_err w = None -> faults n = [] -> e = None /\ faults n' = []).
Proof.
  unfold bufio_Write. intros H Hok. destruct (w_err w) as [e0|] eqn:Ee.
  { assert (write_loop 3 w n p = (w, n, p)) as E by (cbn; by rewrite Ee, andb_false_r).
    rewrite E, Ee in H. simplify_eq. split_and!; [done|done|done|done|by apply prefix_app_r|done]. }
  destruct (write_loop 3 w n p) as [[w1 n1] p1] eqn:El.
  destruct (write_loop_ok 3 w n p w1 n1 p1 El Hok Ee) as (Hok1 & Hl & Hp & Hpre & Hf).
  { unfold rounds. destruct (_ && _); [destruct (_ =? _)%nat|]; lia. }
  destruct (w_err w1) as [e1|] eqn:Ew1; simplify_eq.
  - split_and!; [done|done|done|done|done|]. intros _ Hn. destruct (Hf Hn). done.
  - destruct (Hp eq_refl) as [Ep Hfit]. unfold Available, writer_ok in *. cbn.
    rewrite put_at_length by lia. split_and!; [lia|done|done| | |].
    + intros _. rewrite <- Ep. unfold pending, Buffered. cbn [w_n w_buf].
      rewrite take_put_at by lia. by rewrite app_assoc.
    + rewrite <- Ep. unfold pending, Buffered. cbn [w_n w_buf].
      rewrite take_put_at by lia. by rewrite app_assoc.
    + intros _ Hn. by destruct (Hf Hn).
Qed.

(** What was delivered stays delivered. *)
Lemma net_Write_mono n p : delivered n `prefix_of` delivered (net_Write n p).2.
Proof.
  destruct (net_Write n p) as [[k e] n'] eqn:E. apply net_Write_ok in E as (Hd & _). cbn. rewrite Hd. by apply prefix_app_r.
Qed.

Lemma Flush_mono w n : delivered n `prefix_of` delivered (bufio_Flush w n).2.
Proof.
  unfold bufio_Flush. destruct (w_err w); [done|]. destruct (_ =? _)%nat; [done|].
  pose proof (net_Write_mono n (Buffered w)) as Hm. by destruct (net_Write n (Buffered w)) as [[k [e|]] n'].
Qed.

Lemma write_loop_mono fuel w n p : delivered n `prefix_of` delivered (write_loop fuel w n p).1.2.
Proof.
  revert w n p. induction fuel as [|fuel IH]; intros w n p; cbn [write_loop]; [done|].
  destruct (_ && _); [|done]. destruct (_ =? _)%nat.
  - pose proof (net_Write_mono n p) as Hm. destruct (net_Write n p) as [[k e] n']. by etrans.
  - match goal with |- context [bufio_Flush ?w' n] => pose proof (Flush_mono w' n) as Hm; destruct (bufio_Flush w' n) as [[e w1] n'] end.
    by etrans.
Qed.

Lemma bufio_Write_mono w n p : delivered n `prefix_of` delivered (bufio_Write w n p).2.
Proof.
  unfold bufio_Write. pose proof (write_loop_mono 3 w n p) as Hm.
  destruct (write_loop 3 w n p) as [[w' n'] p']. by destruct (w_err w').
Qed.

(** ** Packets reach the stream *)

(** A frame on the wire: type, length, body. *)
Definition frame_bytes (msgType : byte) (body : list byte) : list byte := header msgType (length body) ++ body.

Section sent.
Context {BP : BufferPool}.

Record wside_ok (ws : WSide) : Prop := {
  ok_unlocked : bufMu ws = false;
  ok_no_loan : outboundPoolBuf ws = None;
  ok_pool : from_option pool_inv True (bufPool ws);
  ok_writer : from_option writer_ok True (bufferedWriter ws)
}.

(** Everything written, delivered or waiting. *)
Definition stream (ws : WSide) : list byte := delivered (net ws) ++ from_option Buffered [] (bufferedWriter ws).

(** The connection works: no write has failed and none will. *)
Definition healthy (ws : WSide) : Prop :=
  faults (net ws) = [] /\ from_option (fun w => w_err w = None) True (bufferedWriter ws).

(** The connection's pool has [b] on loan. *)
Definition lends (ws : WSide) (b : Buffer) : Prop := from_option (fun p => on_loan p b) False (bufPool ws).

(** The stream has grown by a prefix of [p] at most. *)
Definition grows (ws : WSide) (p : list byte) (ws' : WSide) : Prop :=
  delivered (net ws) `prefix_of` delivered (net ws') /\ stream ws' `prefix_of` stream ws ++ p.

(** Writing [p] in one piece, with a buffered writer or without. *)
Definition written (p : list byte) (w : option Writer) (n : Net) : option goerror * option Writer * Net :=
  match w with
  | Some w => let '(e, w', n') := bufio_Write w n p in (e, Some w', n')
  | None => let '(_, e, n') := net_Write n p in (e, None, n')
  end.

Definition as_written (p : list byte) (ws : WSide) (e : option goerror) (ws' : WSide) : Prop :=
  (e, bufferedWriter ws', net ws') = written p (bufferedWriter ws) (net ws).

(** Writing [p] ended with [e]: on success the stream has grown by exactly [p], on
    failure by a prefix of it. *)
Record sent (ws : WSide) (p : list byte) (e : option goerror) (ws' : WSide) : Prop := {
  sent_ok : wside_ok ws';
  sent_loans : forall b, lends ws b -> lends ws' b;
  sent_attached : is_Some (bufferedWriter ws') <-> is_Some (bufferedWriter ws);
  sent_stream : e = None -> stream ws' = stream ws ++ p;
  sent_prefix : grows ws p ws';
  sent_healthy : healthy ws -> e = None /\ healthy ws';
  sent_raw : as_written p ws e ws'
}.

Lemma raw_write_ok ws p e ws' :
  raw_write p ws = (e, ws') -> from_option writer_ok True (bufferedWriter ws) ->
  from_option writer_ok True (bufferedWriter ws') /\
  (is_Some (bufferedWriter ws') <-> is_Some (bufferedWriter ws)) /\
  bufMu ws' = bufMu ws /\ outboundPoolBuf ws' = outboundPoolBuf ws /\ bufPool ws' = bufPool ws /\
  (e = None -> stream ws' = stream ws ++ p) /\ grows ws p ws' /\
  (healthy ws -> e = None /\ healthy ws') /\ as_written p ws e ws'.
Proof.
  unfold raw_write, grows, stream, healthy, as_written, written. intros H Hw. destruct (bufferedWriter ws) as [w|] eqn:Ebw.
  - destruct (bufio_Write w (net ws) p) as [[e1 w1] n1] eqn:Ew. simplify_eq. cbn in *.
    destruct (bufio_Write_ok _ _ _ _ _ _ Ew Hw) as (Hok & _ & Herr & Hs & Hpre & Hf).
    pose proof (bufio_Write_mono w (net ws) p) as Hm. rewrite Ew in Hm.
    split_and!; auto; [done|]. intros [Hn He]. destruct (Hf He Hn). by subst.
  - destruct (net_Write (net ws) p) as [[k e1] n1] eqn:Ew. simplify_eq. cbn in *.
    apply net_Write_ok in Ew as (Hd & Hk & Hall & Hf). rewrite !app_nil_r, Hd. split_and!; [done|done|done|done|done| | | | |done].
    + intros ->. by rewrite take_ge by (rewrite Hall; done).
    + by apply prefix_app_r.
    + exists (drop k p). by rewrite <- app_assoc, take_drop.
    + intros [Hn _]. by destruct (Hf Hn).
Qed.

Lemma header_length ty n : length (header ty n) = 5%nat.
Proof. cbn [header length]. by rewrite be_bytes_length. Qed.

(** The buffer of a packet: its header and room for its body. *)
Definition packet_buffer (ty : byte) (n : nat) (buf : list byte) : Prop :=
  exists junk, buf = header ty n ++ junk /\ length junk = n.

Lemma packet_buffer_put ty n l : length l = (5 + n)%nat -> packet_buffer ty n (put_at l 0 (header ty n)).
Proof.
  intros Hl. exists (drop 5 l). split; [|rewrite length_drop; lia].
  pose proof (put_at_app [] (header ty n) l) as E. rewrite header_length in E. cbn [app length] in E. apply E. lia.
Qed.

Lemma startPacket_ok ws ty n :
  from_option pool_inv True (bufPool ws) -> from_option writer_ok True (bufferedWriter ws) ->
  outboundPoolBuf ws = None ->
  exists buf ws', client_startPacket ty n ws = Some ((buf, 5%nat), ws') /\ packet_buffer ty n buf /\
    bufferedWriter ws' = bufferedWriter ws /\ net ws' = net ws /\ bufMu ws' = bufMu ws /\
    (forall b, lends ws b -> lends ws' b) /\
    (outboundPoolBuf ws' = None /\ from_option pool_inv True (bufPool ws') \/
     exists b p, outboundPoolBuf ws' = Some b /\ bufPool ws' = Some p /\ pool_inv p /\ on_loan p b).
Proof.
  intros Hp Hw Hloan. unfold client_startPacket.
  set (slow := match bufPool ws with Some p => _ | None => _ end).
  assert (exists buf ws', slow = Some ((buf, 5%nat), ws') /\ packet_buffer ty n buf /\
    bufferedWriter ws' = bufferedWriter ws /\ net ws' = net ws /\ bufMu ws' = bufMu ws /\
    (forall b, lends ws b -> lends ws' b) /\
    (outboundPoolBuf ws' = None /\ from_option pool_inv True (bufPool ws') \/
     exists b p, outboundPoolBuf ws' = Some b /\ bufPool ws' = Some p /\ pool_inv p /\ on_loan p b)) as Hslow.
  { subst slow. destruct (bufPool ws) as [p|] eqn:Ep.
    - destruct (pool_Get_ok p (Z.of_nat (5 + n)) Hp ltac:(lia)) as (b & p' & -> & Hlen & Hinv & Hb & Hmono). cbn [mbind option_bind].
      eexists _, _. split_and!; [done| |done|done|done|unfold lends; by rewrite Ep|right; by exists b, p'].
      apply packet_buffer_put. unfold len in Hlen. lia.
    - eexists _, _. split_and!; [done| |done|done|done|done|left; by rewrite Ep].
      apply packet_buffer_put, length_replicate. }
  destruct (bufferedWriter ws) as [w|] eqn:Ew; [|done].
  destruct (Nat.leb_spec (5 + n) (Available w)) as [Hav|_]; [|done].
  eexists _, ws. split_and!; [done| |done|done|done|done|by left]. apply packet_buffer_put.
  unfold Available in Hav. rewrite length_take, length_drop. lia.
Qed.

Lemma client_writePacket_ok ws buf :
  from_option writer_ok True (bufferedWriter ws) ->
  (outboundPoolBuf ws = None /\ from_option pool_inv True (bufPool ws) \/
   exists b p, outboundPoolBuf ws = Some b /\ bufPool ws = Some p /\ pool_inv p /\ on_loan p b) ->
  exists e ws', client_writePacket buf (length buf) ws = Some (e, ws') /\
    outboundPoolBuf ws' = None /\ from_option pool_inv True (bufPool ws') /\
    from_option writer_ok True (bufferedWriter ws') /\
    (is_Some (bufferedWriter ws') <-> is_Some (bufferedWriter ws)) /\ bufMu ws' = bufMu ws /\
    (forall b, lends ws b -> lends ws' b) /\ (e = None -> stream ws' = stream ws ++ buf) /\ grows ws buf ws' /\
    (healthy ws -> e = None /\ healthy ws') /\ as_written buf ws e ws'.
Proof.
  intros Hw Hloan. unfold client_writePacket. rewrite Nat.eqb_refl.
  destruct (raw_write buf ws) as [e ws1] eqn:Er.
  destruct (raw_write_ok _ _ _ _ Er Hw) as (Hw1 & Hat & Hm & Hob & Hbp & Hs & Hpre & Hh & Haw).
  unfold returnOutboundBuffer. rewrite Hob, Hbp. destruct Hloan as [[El Hp]|(b & p & -> & Ep & Hinv & Hb)]; [|rewrite Ep].
  - rewrite El. eexists _, _. split_and!; [done|congruence|by rewrite Hbp|done|done|done| |done|done|done|done].
    unfold lends. by rewrite Hbp.
  - destruct (pool_Put_ok p b Hinv Hb) as (p' & -> & Hinv' & Hmono).
    eexists _, _. split_and!; [done|done|done|done|done|done| |done|done|done|done]. unfold lends. by rewrite Ep.
Qed.

(** A packet whose size was computed right: no panic, and the stream gets the frame. *)
Lemma client_packet_sends ty n enc body ws :
  from_option pool_inv True (bufPool ws) -> from_option writer_ok True (bufferedWriter ws) ->
  outboundPoolBuf ws = None -> writes enc body -> n = length body ->
  exists e ws', client_packet ty n enc ws = Some (e, ws') /\
    outboundPoolBuf ws' = None /\ from_option pool_inv True (bufPool ws') /\
    from_option writer_ok True (bufferedWriter ws') /\
    (is_Some (bufferedWriter ws') <-> is_Some (bufferedWriter ws)) /\ bufMu ws' = bufMu ws /\
    (forall b, lends ws b -> lends ws' b) /\
    (e = None -> stream ws' = stream ws ++ frame_bytes ty body) /\
    grows ws (frame_bytes ty body) ws' /\ (healthy ws -> e = None /\ healthy ws') /\ as_written (frame_bytes ty body) ws e ws'.
Proof.
  intros Hp Hw Hloan Hwr ->. unfold client_packet.
  destruct (startPacket_ok ws ty (length body) Hp Hw Hloan)
    as (buf & ws1 & -> & (junk & -> & Hj) & Ebw & En & Em & Hle & Hl). cbn [mbind option_bind].
  pose proof (Hwr (header ty (length body)) junk ltac:(lia)) as E. rewrite header_length in E.
  rewrite drop_ge, app_nil_r in E by lia. rewrite E. cbn [mbind option_bind].
  replace (5 + length body)%nat with (length (frame_bytes ty body))
    by (unfold frame_bytes; rewrite length_app, header_length; done).
  destruct (client_writePacket_ok ws1 (frame_bytes ty body)) as (e & ws2 & E2 & Hrest); [by rewrite Ebw|done|].
  exists e, ws2. split; [exact E2|].
  unfold grows, stream, healthy, as_written in *. rewrite Ebw, En, Em in Hrest.
  destruct Hrest as (?&?&?&?&?&?&?&[??]&?&?). split_and!; auto.
Qed.

Lemma packet_sends ty n enc body ws :
  wside_ok ws -> writes enc body -> n = length body ->
  exists e ws', packet ty n enc ws = Some (e, ws') /\ sent ws (frame_bytes ty body) e ws'.
Proof.
  intros [Hm Hloan Hp Hw] Hwr Hn. unfold packet, startPacket, writePacket, lock. rewrite Hm. cbn.
  set (ws0 := mkWSide (bufferedWriter ws) (outboundPoolBuf ws) true (bufPool ws) (net ws)).
  destruct (client_packet_sends ty n enc body ws0 Hp Hw Hloan Hwr Hn) as (e & ws1 & E & H1 & H2 & H3 & H4 & H5 & H6 & H7 & H8 & H9 & H10).
  unfold client_packet in E. fold ws0.
  destruct (client_startPacket ty n ws0) as [[[buf pos] ws2]|]; [|done]. cbn in E |- *.
  destruct (enc buf pos) as [[buf' pos']|]; [|done]. cbn in E |- *.
  rewrite E. cbn. eexists _, _. split; [done|]. constructor; [by constructor|done..].
Qed.

(** Pre-framed bytes are written as they are. *)
Lemma WriteRawMessage_sends raw ws :
  wside_ok ws -> exists e ws', WriteRawMessage raw ws = Some (e, ws') /\ sent ws raw e ws'.
Proof.
  intros [Hm Hloan Hp Hw]. unfold WriteRawMessage, lock. rewrite Hm. cbn.
  set (ws0 := mkWSide (bufferedWriter ws) (outboundPoolBuf ws) true (bufPool ws) (net ws)).
  destruct (raw_write raw ws0) as [e ws1] eqn:Er.
  destruct (raw_write_ok _ _ _ _ Er Hw) as (Hw1 & Hat & _ & Hob & Hbp & Hs & Hpre & Hh & Haw).
  eexists _, _. split; [done|]. constructor; try done.
  - constructor; cbn; try done; [by rewrite Hob|by rewrite Hbp].
  - unfold lends. cbn. by rewrite Hbp.
Qed.

End sent.

(** ** Reading frames back *)

(** A body whose length fits its frame. *)
Definition fits_frame (body : list byte) : Prop := len body + 4 < 2 ^ 32.

Lemma read_uint32_bytes v rest e :
  in_uint32 v -> read_uint32 (mkInput (be_bytes 4 v ++ rest) e) = (inr v, mkInput rest e).
Proof.
  intros Hv. unfold read_uint32. cbn [inp]. rewrite length_app, be_bytes_length, (proj2 (Nat.ltb_ge _ _)) by lia.
  rewrite take_app_length', drop_app_length' by (by rewrite be_bytes_length).
  rewrite be_value_bytes, Z.mod_small by done. done.
Qed.

Lemma readMessageLength_frame n rest e :
  Z.of_nat n + 4 < 2 ^ 32 ->
  readMessageLength (mkInput (be_bytes 4 (4 + Z.of_nat n) ++ rest) e) = (inr (Z.of_nat n), mkInput rest e).
Proof.
  intros Hn. unfold readMessageLength. rewrite read_uint32_bytes by (unfold in_uint32; lia).
  rewrite (proj2 (Z.ltb_ge _ _)) by lia. do 2 f_equal. lia.
Qed.

Lemma ReadFull_app l rest e : ReadFull (length l) (mkInput (l ++ rest) e) = (inr l, mkInput rest e).
Proof.
  unfold ReadFull. cbn [inp]. rewrite length_app, (proj2 (Nat.leb_le _ _)) by lia.
  by rewrite take_app_length, drop_app_length.
Qed.

(** A frame is read back as its type and body, and nothing beyond it is consumed. *)
Lemma readMessage_frame ty body rest e :
  fits_frame body -> readMessage (mkInput (frame_bytes ty body ++ rest) e) = (inr (ty, body), mkInput rest e).
Proof.
  intros Hf. unfold readMessage, readMessageHeader, frame_bytes, header. cbn [app readMessageType inp].
  unfold readMessageType. cbn [inp set_inp inp_err]. rewrite <- app_assoc. unfold set_inp. cbn [inp_err].
  unfold fits_frame, len in Hf. rewrite readMessageLength_frame by lia. unfold client_readMessageBody.
  destruct body as [|b body]; [done|]. rewrite (proj2 (Z.eqb_neq _ _)) by (cbn; lia).
  by rewrite Nat2Z.id, ReadFull_app.
Qed.
