(* ===== verification/WireMessages.v ===== *)
(** The messages a server sends: how common/pgprotocol/server/query.go writes them and
    how client/query.go and client/extended.go read them.  Each message has a
    definition of its body ([..._body]); the writers are proved to send exactly that
    body and the parsers to give back what was written. *)

From Stdlib Require Import Strings.Byte.
From stdpp Require Import base numbers list strings.
From S2P Require Import Prelude.
From S2P Require Import Bytes.
From S2P Require Import Diagnostics.
From S2P Require Import BufPool.
From S2P Require Import Wire.
From S2P Require Import WireFacts.

Local Open Scope Z_scope.
Local Open Scope go_scope.

(** ** Message types *)

Definition MsgParseComplete : byte := "1".
Definition MsgBindComplete : byte := "2".
Definition MsgCloseComplete : byte := "3".
Definition MsgNotificationResponse : byte := "A".
Definition MsgCommandComplete : byte := "C".
Definition MsgDataRow : byte := "D".
Definition MsgErrorResponse : byte := "E".
Definition MsgCopyInResponse : byte := "G".
Definition MsgCopyOutResponse : byte := "H".
Definition MsgEmptyQueryResponse : byte := "I".
Definition MsgNoticeResponse : byte := "N".
Definition MsgParameterStatus : byte := "S".
Definition MsgRowDescription : byte := "T".
Definition MsgReadyForQuery : byte := "Z".
Definition MsgNoData : byte := "n".
Definition MsgParameterDescription : byte := "t".
Definition MsgCopyData : byte := "d".
Definition MsgCopyDone : byte := "c".

(** Field codes of an ErrorResponse or NoticeResponse. *)
Definition FieldSeverity : byte := "S".
Definition FieldSeverityV : byte := "V".
Definition FieldCode : byte := "C".
Definition FieldMessage : byte := "M".
Definition FieldDetail : byte := "D".
Definition FieldHint : byte := "H".
Definition FieldPosition : byte := "P".
Definition FieldInternalPosition : byte := "p".
Definition FieldInternalQuery : byte := "q".
Definition FieldWhere : byte := "W".
Definition FieldSchema : byte := "s".
Definition FieldTable : byte := "t".
Definition FieldColumn : byte := "c".
Definition FieldDataType : byte := "d".
Definition FieldConstraint : byte := "n".
Definition FieldFile : byte := "F".
Definition FieldLine : byte := "L".
Definition FieldRoutine : byte := "R".

(** ** Data *)

Record Field := mkField {
  f_Name : string;
  f_Type : string;
  TableOid : Z;
  TableAttributeNumber : Z;
  DataTypeOid : Z;
  DataTypeSize : Z;
  TypeModifier : Z;
  f_Format : Z
}.

(** A column value; [None] is NULL. *)
Definition Value : Type := option (list byte).
Definition Row : Type := list Value.

Record Notification := mkNotification { PID : Z; Channel : string; Payload : string }.

(** ** The server's writers *)

Section writers.
Context {BP : BufferPool}.

Definition writeParameterDescription (params : list Z) : W (option goerror) :=
  packet MsgParameterDescription (2 + 4 * length params)
    (writeInt16At (len params) +>+ enc_list writeInt32At params).

Definition field_size (f : Field) : nat := String.length (f_Name f) + 1 + (4 + 2 + 4 + 2 + 4 + 2).

Definition write_field (f : Field) : encoder :=
  writeStringAt (f_Name f) +>+ writeInt32At (TableOid f) +>+ writeInt16At (TableAttributeNumber f) +>+
  writeInt32At (DataTypeOid f) +>+ writeInt16At (DataTypeSize f) +>+ writeInt32At (TypeModifier f) +>+
  writeInt16At (f_Format f).

Definition writeRowDescription (fields : list Field) : W (option goerror) :=
  packet MsgRowDescription (2 + sum_list (field_size <$> fields))
    (writeInt16At (len fields) +>+ enc_list write_field fields).

Definition value_size (v : Value) : nat := 4 + from_option length 0%nat v.

Definition write_value (v : Value) : encoder :=
  match v with
  | None => writeInt32At (-1)
  | Some l => writeInt32At (len l) +>+ writeBytesAt l
  end.

Definition writeDataRow (row : Row) : W (option goerror) :=
  packet MsgDataRow (2 + sum_list (value_size <$> row)) (writeInt16At (len row) +>+ enc_list write_value row).

Definition writeCommandComplete (tag : string) : W (option goerror) :=
  packet MsgCommandComplete (String.length tag + 1) (writeStringAt tag).

Definition writeReadyForQuery (txnStatus : byte) : W (option goerror) :=
  packet MsgReadyForQuery 1 (writeByteAt txnStatus).

Definition writeEmptyQueryResponse : W (option goerror) := packet MsgEmptyQueryResponse 0 enc_nil.

(** The fields set from a diagnostic; a zero position and an empty string are left out. *)
Definition opt_field (code : byte) (s : string) : list (byte * string) :=
  if bool_decide (s = "") then [] else [(code, s)].
Definition pos_field (code : byte) (z : Z) : list (byte * string) :=
  if z =? 0 then [] else [(code, Sprintf_d z)].

Definition diag_fields (d : PgDiagnostic) : list (byte * string) :=
  [(FieldSeverity, Severity d); (FieldSeverityV, Severity d); (FieldCode, Code d); (FieldMessage, Message d)] ++
  opt_field FieldDetail (Detail d) ++ opt_field FieldHint (Hint d) ++ pos_field FieldPosition (Position d) ++
  pos_field FieldInternalPosition (InternalPosition d) ++ opt_field FieldInternalQuery (InternalQuery d) ++
  opt_field FieldWhere (Where d) ++ opt_field FieldSchema (Schema d) ++ opt_field FieldTable (Table d) ++
  opt_field FieldColumn (Column d) ++ opt_field FieldDataType (DataType d) ++
  opt_field FieldConstraint (Constraint_ d).

(** [fields[fieldType]]. *)
Definition lookup_field (fields : list (byte * string)) (code : byte) : option string :=
  match list_find (fun kv => kv.1 = code) fields with Some (_, kv) => Some kv.2 | None => None end.

Definition diagFieldOrder : list byte :=
  [FieldSeverity; FieldSeverityV; FieldCode; FieldMessage; FieldDetail; FieldHint; FieldPosition;
   FieldInternalPosition; FieldInternalQuery; FieldWhere; FieldSchema; FieldTable; FieldColumn; FieldDataType;
   FieldConstraint; FieldFile; FieldLine; FieldRoutine].

Definition diag_field_size (fields : list (byte * string)) (code : byte) : nat :=
  match lookup_field fields code with Some value => (1 + String.length value + 1)%nat | None => 0%nat end.

Definition write_diag_field (fields : list (byte * string)) (code : byte) : encoder :=
  match lookup_field fields code with
  | Some value => writeByteAt code +>+ writeStringAt value
  | None => enc_nil
  end.

Definition writeErrorOrNotice (msgType : byte) (fields : list (byte * string)) : W (option goerror) :=
  packet msgType (1 + sum_list (diag_field_size fields <$> diagFieldOrder))
    (enc_list (write_diag_field fields) diagFieldOrder +>+ writeByteAt x00).

Definition writePgDiagnosticResponse (msgType : byte) (d : PgDiagnostic) : W (option goerror) :=
  writeErrorOrNotice msgType (diag_fields d).

Definition writeNoticeResponse (d : PgDiagnostic) : W (option goerror) :=
  writePgDiagnosticResponse MsgNoticeResponse d.

Definition write_parameter_status (name value : string) : W (option goerror) :=
  packet MsgParameterStatus (String.length name + 1 + String.length value + 1)
    (writeStringAt name +>+ writeStringAt value).

Definition write_copy_response (msgType : byte) (format : byte) (columnFormats : list Z) : W (option goerror) :=
  packet msgType (1 + 2 + 2 * length columnFormats)
    (writeByteAt format +>+ writeInt16At (len columnFormats) +>+ enc_list writeInt16At columnFormats).
Definition WriteCopyInResponse := write_copy_response MsgCopyInResponse.
Definition WriteCopyOutResponse := write_copy_response MsgCopyOutResponse.

Definition WriteCopyData (data : list byte) : W (option goerror) :=
  packet MsgCopyData (length data) (writeBytesAt data).
Definition WriteCopyDone : W (option goerror) := packet MsgCopyDone 0 enc_nil.

Definition writeNotificationResponseMsg (n : Notification) : W (option goerror) :=
  packet MsgNotificationResponse (4 + String.length (Channel n) + 1 + String.length (Payload n) + 1)
    (writeInt32At (PID n) +>+ writeStringAt (Channel n) +>+ writeStringAt (Payload n)).

End writers.

(** ** What the writers send *)

Definition parameterDescription_body (params : list Z) : list byte :=
  be_bytes 2 (len params) ++ concat (be_bytes 4 <$> params).

Definition cstring (s : string) : list byte := bytes_of s ++ [x00].

Definition field_bytes (f : Field) : list byte :=
  cstring (f_Name f) ++ be_bytes 4 (TableOid f) ++ be_bytes 2 (TableAttributeNumber f) ++
  be_bytes 4 (DataTypeOid f) ++ be_bytes 2 (DataTypeSize f) ++ be_bytes 4 (TypeModifier f) ++
  be_bytes 2 (f_Format f).

Definition rowDescription_body (fields : list Field) : list byte :=
  be_bytes 2 (len fields) ++ concat (field_bytes <$> fields).

Definition dataRow_body (row : Row) : list byte :=
  be_bytes 2 (len row) ++ concat (byte_string_bytes <$> row).

Definition diag_field_bytes (fields : list (byte * string)) (code : byte) : list byte :=
  match lookup_field fields code with Some value => code :: cstring value | None => [] end.

Definition diagnostic_body (fields : list (byte * string)) : list byte :=
  concat (diag_field_bytes fields <$> diagFieldOrder) ++ [x00].

Lemma length_concat_sum {A} (g : A -> list byte) (size : A -> nat) l :
  (forall x, length (g x) = size x) -> length (concat (g <$> l)) = sum_list (size <$> l).
Proof. intros Hg. induction l as [|x l IH]; [done|]. cbn. rewrite length_app, Hg, IH. done. Qed.

Lemma length_bytes_of s : length (bytes_of s) = String.length s.
Proof.
  unfold bytes_of, String.list_byte_of_string. rewrite length_map.
  induction s as [|c s IH]; cbn; [done|by rewrite IH].
Qed.

Section sends.
Context {BP : BufferPool}.

(** [m] never panics and sends the frame. *)
Definition sends (m : W (option goerror)) (msgType : byte) (body : list byte) : Prop :=
  forall ws, wside_ok ws -> exists e ws', m ws = Some (e, ws') /\ sent ws (frame_bytes msgType body) e ws'.

Lemma packet_sends_body ty n enc body : writes enc body -> n = length body -> sends (packet ty n enc) ty body.
Proof. intros Hw Hn ws Hok. by apply packet_sends. Qed.

Local Ltac wire_len := unfold cstring; rewrite ?length_app, ?be_bytes_length, ?length_bytes_of; cbn [length]; lia.

Lemma writeParameterDescription_sends params :
  sends (writeParameterDescription params) MsgParameterDescription (parameterDescription_body params).
Proof.
  apply packet_sends_body; [unfold parameterDescription_body; auto with wire|].
  unfold parameterDescription_body. rewrite length_app, be_bytes_length. f_equal.
  induction params as [|x l IH]; [done|]. cbn [fmap list_fmap concat length]. rewrite length_app, be_bytes_length. lia.
Qed.

Lemma writes_field f : writes (write_field f) (field_bytes f).
Proof. unfold write_field, field_bytes, cstring. auto 20 with wire. Qed.

Lemma writeRowDescription_sends fields :
  sends (writeRowDescription fields) MsgRowDescription (rowDescription_body fields).
Proof.
  apply packet_sends_body; unfold rowDescription_body.
  - apply writes_seq; [auto with wire|]. apply writes_list, writes_field.
  - rewrite length_app, be_bytes_length. f_equal. symmetry. apply length_concat_sum. intros f.
    unfold field_bytes, field_size. wire_len.
Qed.

Lemma writes_value v : writes (write_value v) (byte_string_bytes v).
Proof. destruct v; unfold write_value; cbn [byte_string_bytes]; auto with wire. Qed.

Lemma writeDataRow_sends row : sends (writeDataRow row) MsgDataRow (dataRow_body row).
Proof.
  apply packet_sends_body; unfold dataRow_body.
  - apply writes_seq; [auto with wire|]. apply writes_list, writes_value.
  - rewrite length_app, be_bytes_length. f_equal. symmetry. apply length_concat_sum. intros [l|]; [|done].
    unfold value_size. cbn [byte_string_bytes from_option]. wire_len.
Qed.

Lemma writeCommandComplete_sends tag : sends (writeCommandComplete tag) MsgCommandComplete (cstring tag).
Proof. apply packet_sends_body; [unfold cstring; auto with wire|wire_len]. Qed.

Lemma writeReadyForQuery_sends st : sends (writeReadyForQuery st) MsgReadyForQuery [st].
Proof. apply packet_sends_body; [auto with wire|done]. Qed.

Lemma writeEmptyQueryResponse_sends : sends writeEmptyQueryResponse MsgEmptyQueryResponse [].
Proof. apply packet_sends_body; [auto with wire|done]. Qed.

Lemma writePgDiagnosticResponse_sends ty d :
  sends (writePgDiagnosticResponse ty d) ty (diagnostic_body (diag_fields d)).
Proof.
  apply packet_sends_body; unfold diagnostic_body.
  - apply writes_seq; [|auto with wire]. apply writes_list. intros code. unfold write_diag_field, diag_field_bytes.
    destruct (lookup_field _ code) as [v|]; [|auto with wire].
    change (code :: cstring v) with ([code] ++ cstring v). unfold cstring. auto with wire.
  - rewrite length_app. cbn [length]. rewrite Nat.add_comm. f_equal. symmetry. apply length_concat_sum. intros code.
    unfold diag_field_bytes, diag_field_size. destruct (lookup_field _ code); [|done]. cbn [length]. wire_len.
Qed.

Lemma write_parameter_status_sends name value :
  sends (write_parameter_status name value) MsgParameterStatus (cstring name ++ cstring value).
Proof. apply packet_sends_body; [unfold cstring; auto with wire|wire_len]. Qed.

Lemma writeNotificationResponseMsg_sends n :
  sends (writeNotificationResponseMsg n) MsgNotificationResponse
    (be_bytes 4 (PID n) ++ cstring (Channel n) ++ cstring (Payload n)).
Proof. apply packet_sends_body; [unfold cstring; auto with wire|wire_len]. Qed.

Lemma writeMessage_sends ty body : sends (writeMessage ty body) ty body.
Proof. apply packet_sends_body; [|done]. destruct body; cbn; auto with wire. Qed.

End sends.

(** ** The client's parsers *)

(** [make([]T, n)] panics on a negative length, [None] here. *)
Definition read_counted {A} (n : Z) (m : Rd A) (r : MessageReader) : option (gres (list A)) :=
  if n <? 0 then None else Some (rd_list (Z.to_nat n) m r).1.

(** [oid_name] is the text of a type OID. *)
Definition read_field (oid_name : Z -> string) : Rd Field :=
  name ← rd_wrap "failed to read field name" ReadString;
  tableOid ← rd_wrap "failed to read table OID" ReadUint32;
  attrNum ← rd_wrap "failed to read attribute number" ReadInt16;
  dataTypeOid ← rd_wrap "failed to read data type OID" ReadUint32;
  dataTypeSize ← rd_wrap "failed to read data type size" ReadInt16;
  typeMod ← rd_wrap "failed to read type modifier" ReadInt32;
  formatCode ← rd_wrap "failed to read format code" ReadInt16;
  mret (mkField name (oid_name dataTypeOid) tableOid attrNum dataTypeOid dataTypeSize typeMod formatCode).

Definition parseRowDescription (oid_name : Z -> string) (body : list byte) : option (gres (list Field)) :=
  match rd_wrap "failed to read field count" ReadInt16 (NewMessageReader body) with
  | (inl e, _) => Some (inl e)
  | (inr fieldCount, r) => read_counted fieldCount (read_field oid_name) r
  end.

Definition parseDataRow (body : list byte) : option (gres Row) :=
  match rd_wrap "failed to read column count" ReadInt16 (NewMessageReader body) with
  | (inl e, _) => Some (inl e)
  | (inr columnCount, r) =>
      read_counted columnCount (rd_wrap "failed to read column value" client_ReadByteString) r
  end.

Definition parseParameterDescription (body : list byte) : option (gres (list Z)) :=
  match rd_wrap "failed to read parameter count" ReadInt16 (NewMessageReader body) with
  | (inl e, _) => Some (inl e)
  | (inr paramCount, r) => read_counted paramCount (rd_wrap "failed to read parameter OID" ReadUint32) r
  end.

Definition parseCommandComplete (body : list byte) : gres string :=
  (rd_wrap "failed to read command tag" ReadString (NewMessageReader body)).1.

Definition parseNotificationResponse (body : list byte) : gres Notification :=
  ((pid ← rd_wrap "failed to read notification PID" ReadInt32;
    channel ← rd_wrap "failed to read notification channel" ReadString;
    payload ← rd_wrap "failed to read notification payload" ReadString;
    mret (mkNotification pid channel payload)) (NewMessageReader body)).1.

(** [strconv.ParseInt(s, 10, 32)]; [None] is an error. *)
Definition ParseInt32 (s : string) : option Z :=
  let digits l := if negb (bool_decide (l = [])) && forallb is_digit l then Some (decimal_value l) else None in
  z ← match bytes_of s with
      | "-" :: l => Z.opp <$> digits l
      | "+" :: l => digits l
      | l => digits l
      end%byte;
  if (- 2 ^ 31 <=? z) && (z <? 2 ^ 31) then Some z else None.

Definition set_diag_field (code : byte) (v : string) (d : PgDiagnostic) : PgDiagnostic :=
  let '(mkPgDiagnostic mt sev cod msg det hint pos ipos iq wh sch tab col dt con) := d in
  let num cur := default cur (ParseInt32 v) in
  if bool_decide (code = FieldSeverity) then mkPgDiagnostic mt v cod msg det hint pos ipos iq wh sch tab col dt con
  else if bool_decide (code = FieldSeverityV)
  then mkPgDiagnostic mt (if bool_decide (sev = "") then v else sev) cod msg det hint pos ipos iq wh sch tab col dt con
  else if bool_decide (code = FieldCode) then mkPgDiagnostic mt sev v msg det hint pos ipos iq wh sch tab col dt con
  else if bool_decide (code = FieldMessage) then mkPgDiagnostic mt sev cod v det hint pos ipos iq wh sch tab col dt con
  else if bool_decide (code = FieldDetail) then mkPgDiagnostic mt sev cod msg v hint pos ipos iq wh sch tab col dt con
  else if bool_decide (code = FieldHint) then mkPgDiagnostic mt sev cod msg det v pos ipos iq wh sch tab col dt con
  else if bool_decide (code = FieldPosition)
  then mkPgDiagnostic mt sev cod msg det hint (num pos) ipos iq wh sch tab col dt con
  else if bool_decide (code = FieldInternalPosition)
  then mkPgDiagnostic mt sev cod msg det hint pos (num ipos) iq wh sch tab col dt con
  else if bool_decide (code = FieldInternalQuery)
  then mkPgDiagnostic mt sev cod msg det hint pos ipos v wh sch tab col dt con
  else if bool_decide (code = FieldWhere) then mkPgDiagnostic mt sev cod msg det hint pos ipos iq v sch tab col dt con
  else if bool_decide (code = FieldSchema) then mkPgDiagnostic mt sev cod msg det hint pos ipos iq wh v tab col dt con
  else if bool_decide (code = FieldTable) then mkPgDiagnostic mt sev cod msg det hint pos ipos iq wh sch v col dt con
  else if bool_decide (code = FieldColumn) then mkPgDiagnostic mt sev cod msg det hint pos ipos iq wh sch tab v dt con
  else if bool_decide (code = FieldDataType)
  then mkPgDiagnostic mt sev cod msg det hint pos ipos iq wh sch tab col v con
  else if bool_decide (code = FieldConstraint)
  then mkPgDiagnostic mt sev cod msg det hint pos ipos iq wh sch tab col dt v
  else d.

(** The loop of [parseDiagnosticFields]; a round consumes at least two bytes, so the
    length of the body is enough fuel. *)
Fixpoint diag_loop (fuel : nat) (r : MessageReader) (d : PgDiagnostic) : PgDiagnostic :=
  match fuel with
  | O => d
  | S fuel' =>
      if 0 <? Remaining r then
        match ReadByte r with
        | (inl _, _) => d
        | (inr fieldType, r1) =>
            if bool_decide (fieldType = x00) then d
            else match ReadString r1 with
                 | (inl _, _) => d
                 | (inr value, r2) => diag_loop fuel' r2 (set_diag_field fieldType value d)
                 end
        end
      else d
  end.

Definition parseDiagnosticFields (msgType : byte) (body : list byte) : PgDiagnostic :=
  diag_loop (length body) (NewMessageReader body) (mkPgDiagnostic msgType "" "" "" "" "" 0 0 "" "" "" "" "" "" "").

(** ** Round trips *)

(** A field description whose numbers fit their widths on the wire. *)
Definition field_fits (f : Field) : Prop :=
  no_nul (f_Name f) /\ in_uint32 (TableOid f) /\ in_int16 (TableAttributeNumber f) /\ in_uint32 (DataTypeOid f) /\
  in_int16 (DataTypeSize f) /\ in_int32 (TypeModifier f) /\ in_int16 (f_Format f).

(** The type's name is not sent: the client recomputes it. *)
Definition retype (oid_name : Z -> string) (f : Field) : Field :=
  mkField (f_Name f) (oid_name (DataTypeOid f)) (TableOid f) (TableAttributeNumber f) (DataTypeOid f)
    (DataTypeSize f) (TypeModifier f) (f_Format f).

Lemma reads_field oid_name f :
  field_fits f -> f_Type f = oid_name (DataTypeOid f) -> reads (read_field oid_name) (field_bytes f) f.
Proof.
  intros (H1 & H2 & H3 & H4 & H5 & H6 & H7) Ht. destruct f as [n ty t a o s m fm]. cbn in Ht. subst ty.
  unfold read_field, field_bytes, cstring. cbn [f_Name TableOid TableAttributeNumber DataTypeOid DataTypeSize TypeModifier f_Format].
  do 6 (eapply reads_bind; [by eauto with wire|]). eapply reads_then_ret. eauto with wire.
Qed.

(** A count followed by that many items. *)
Lemma counted_round_trip {A} msg (m : Rd A) (g : A -> list byte) (l : list A) :
  len l < 2 ^ 15 -> (forall x, x ∈ l -> reads m (g x) x) ->
  match rd_wrap msg ReadInt16 (NewMessageReader (be_bytes 2 (len l) ++ concat (g <$> l))) with
  | (inl e, _) => Some (inl e)
  | (inr n, r) => read_counted n m r
  end = Some (inr l).
Proof.
  intros Hl Hg. assert (in_int16 (len l)) as Hin by (unfold in_int16, len in *; lia).
  pose proof (reads_wrap msg ReadInt16 _ _ (reads_int16 _ Hin) [] (concat (g <$> l))) as E. cbn [app length] in E.
  unfold NewMessageReader. rewrite E. unfold read_counted, len. rewrite (proj2 (Z.ltb_ge _ _)), Nat2Z.id by lia.
  pose proof (reads_list m g l Hg (be_bytes 2 (len l)) []) as E2. rewrite app_nil_r, be_bytes_length in E2.
  rewrite be_bytes_length. cbn [Nat.add]. unfold len in E2. by rewrite E2.
Qed.

Lemma parseRowDescription_body oid_name fields :
  len fields < 2 ^ 15 -> Forall field_fits fields ->
  parseRowDescription oid_name (rowDescription_body fields) = Some (inr (retype oid_name <$> fields)).
Proof.
  intros Hl Hf. assert (rowDescription_body fields = rowDescription_body (retype oid_name <$> fields)) as ->.
  { unfold rowDescription_body, len. rewrite length_fmap, <- list_fmap_compose. done. }
  apply (counted_round_trip "failed to read field count" (read_field oid_name) field_bytes); [by unfold len in *; rewrite length_fmap|].
  intros f' (f & -> & Hin)%list_elem_of_fmap. apply reads_field; [|done].
  rewrite Forall_forall in Hf. exact (Hf f Hin).
Qed.

Lemma parseDataRow_body row :
  len row < 2 ^ 15 -> Forall fits32 row -> parseDataRow (dataRow_body row) = Some (inr row).
Proof.
  intros Hl Hf. rewrite Forall_forall in Hf.
  apply (counted_round_trip "failed to read column count" (rd_wrap "failed to read column value" client_ReadByteString) byte_string_bytes); [done|].
  intros v Hv. apply reads_wrap, reads_byte_string. auto.
Qed.

Lemma parseParameterDescription_body params :
  len params < 2 ^ 15 -> Forall in_uint32 params ->
  parseParameterDescription (parameterDescription_body params) = Some (inr params).
Proof.
  intros Hl Hf. rewrite Forall_forall in Hf.
  apply (counted_round_trip "failed to read parameter count" (rd_wrap "failed to read parameter OID" ReadUint32) (be_bytes 4)); [done|]. auto with wire.
Qed.

Lemma parseCommandComplete_body tag : no_nul tag -> parseCommandComplete (cstring tag) = inr tag.
Proof.
  intros Ht. unfold parseCommandComplete. by rewrite (reads_all _ _ _ (reads_wrap _ _ _ _ (reads_string tag Ht))).
Qed.

Lemma parseNotificationResponse_body n :
  in_int32 (PID n) -> no_nul (Channel n) -> no_nul (Payload n) ->
  parseNotificationResponse (be_bytes 4 (PID n) ++ cstring (Channel n) ++ cstring (Payload n)) = inr n.
Proof.
  intros H1 H2 H3. unfold parseNotificationResponse. destruct n as [p c l]. cbn [PID Channel Payload] in *.
  erewrite reads_all; [done|]. unfold cstring. do 2 (eapply reads_bind; [by eauto with wire|]).
  apply (reads_then_ret _ (mkNotification p c)). eauto with wire.
Qed.

(** ** Diagnostics *)

Lemma ParseInt32_Sprintf_d z : in_int32 z -> ParseInt32 (Sprintf_d z) = Some z.
Proof.
  intros Hz. unfold ParseInt32, Sprintf_d. unfold bytes_of. rewrite String.list_byte_of_string_of_list_byte.
  unfold in_int32 in Hz.
  assert (forall n, 0 <= n -> (if negb (bool_decide (decimal n = [])) && forallb is_digit (decimal n)
    then Some (decimal_value (decimal n)) else None) = Some n) as Hdig.
  { intros n Hn. destruct (decimal_digits n Hn) as (Hd & Hv & Hne).
    rewrite bool_decide_eq_false_2 by done. cbn [negb andb]. rewrite (proj2 (forallb_forall is_digit (decimal n))).
    - by rewrite Hv.
    - rewrite Forall_forall in Hd. intros b Hb. apply Hd. by apply list_elem_of_In. }
  assert (forall o, o = Some z -> (z' ← o; if (- 2 ^ 31 <=? z') && (z' <? 2 ^ 31) then Some z' else None) = Some z) as Hend.
  { intros o ->. cbn [mbind option_bind]. rewrite (proj2 (Z.leb_le _ _)), (proj2 (Z.ltb_lt _ _)) by lia. done. }
  destruct (Z.lt_ge_cases z 0) as [Hneg|Hpos].
  - assert (decimal z = "-"%byte :: decimal (- z)) as ->.
    { unfold decimal. rewrite (proj2 (Z.ltb_lt z 0)), (proj2 (Z.ltb_ge (- z) 0)), Z.abs_opp by lia. reflexivity. }
    apply Hend. rewrite Hdig by lia. cbn. f_equal. lia.
  - specialize (Hdig z Hpos). destruct (decimal_digits z Hpos) as (Hd & _ & Hne).
    destruct (decimal z) as [|b l]; [done|]. apply Forall_cons in Hd as [Hb _].
    destruct b; try (vm_compute in Hb; discriminate Hb); apply Hend, Hdig.
Qed.

Lemma no_nul_Sprintf_d z : no_nul (Sprintf_d z).
Proof.
  unfold no_nul, Sprintf_d. rewrite bytes_of_string_of.
  assert (forall n, 0 <= n -> x00 ∉ decimal n) as Hd.
  { intros n Hn Hin. destruct (decimal_digits n Hn) as (Hd & _). rewrite Forall_forall in Hd.
    specialize (Hd _ Hin). done. }
  destruct (Z.lt_ge_cases z 0); [|by apply Hd].
  assert (decimal z = "-"%byte :: decimal (- z)) as ->.
  { unfold decimal. rewrite (proj2 (Z.ltb_lt z 0)), (proj2 (Z.ltb_ge (- z) 0)), Z.abs_opp by lia. reflexivity. }
  apply not_elem_of_cons. split; [done|]. apply Hd. lia.
Qed.

Lemma lookup_field_app l1 l2 code :
  lookup_field (l1 ++ l2) code =
    match lookup_field l1 code with Some v => Some v | None => lookup_field l2 code end.
Proof.
  unfold lookup_field. induction l1 as [|[k v] l1 IH]; [done|]. cbn. destruct (decide (k = code)); [done|].
  destruct (list_find _ (l1 ++ l2)) as [[? ?]|], (list_find _ l1) as [[? ?]|]; cbn in *; done.
Qed.

(** The bytes of a field that is left out when it is empty, or zero. *)
Definition opt_bytes (code : byte) (s : string) : list byte := if bool_decide (s = "") then [] else code :: cstring s.
Definition pos_bytes (code : byte) (z : Z) : list byte := if z =? 0 then [] else code :: cstring (Sprintf_d z).

Lemma diagnostic_body_eq d :
  diagnostic_body (diag_fields d) =
    (FieldSeverity :: cstring (Severity d)) ++ (FieldSeverityV :: cstring (Severity d)) ++
    (FieldCode :: cstring (Code d)) ++ (FieldMessage :: cstring (Message d)) ++
    opt_bytes FieldDetail (Detail d) ++ opt_bytes FieldHint (Hint d) ++ pos_bytes FieldPosition (Position d) ++
    pos_bytes FieldInternalPosition (InternalPosition d) ++ opt_bytes FieldInternalQuery (InternalQuery d) ++
    opt_bytes FieldWhere (Where d) ++ opt_bytes FieldSchema (Schema d) ++ opt_bytes FieldTable (Table d) ++
    opt_bytes FieldColumn (Column d) ++ opt_bytes FieldDataType (DataType d) ++
    opt_bytes FieldConstraint (Constraint_ d) ++ [x00].
Proof.
  unfold diagnostic_body, diagFieldOrder. cbn [fmap list_fmap concat]. unfold diag_field_bytes, diag_fields.
  assert (forall k s c, lookup_field (opt_field k s) c =
    if bool_decide (k = c) then (if bool_decide (s = "") then None else Some s) else None) as Ho.
  { intros k s c. unfold opt_field, lookup_field. destruct (bool_decide (s = "")); cbn.
    - by destruct (bool_decide _).
    - rewrite bool_decide_decide. by destruct (decide (k = c)). }
  assert (forall k z c, lookup_field (pos_field k z) c =
    if bool_decide (k = c) then (if z =? 0 then None else Some (Sprintf_d z)) else None) as Hp.
  { intros k z c. unfold pos_field, lookup_field. destruct (z =? 0); cbn.
    - by destruct (bool_decide _).
    - rewrite bool_decide_decide. by destruct (decide (k = c)). }
  assert (forall a b c m code,
    lookup_field [(FieldSeverity, a); (FieldSeverityV, b); (FieldCode, c); (FieldMessage, m)] code =
      if bool_decide (FieldSeverity = code) then Some a else if bool_decide (FieldSeverityV = code) then Some b
      else if bool_decide (FieldCode = code) then Some c else if bool_decide (FieldMessage = code) then Some m
      else None) as Hh.
  { intros a b c m code. unfold lookup_field. rewrite !bool_decide_decide. cbn.
    do 4 (destruct (decide _); [done|]). done. }
  assert (forall o : option string, match o with Some v => Some v | None => None end = o) as Hi by (by intros []).
  assert (forall (b : bool) (v : string) k, match (if b then None else Some v) with
    | Some value => k :: cstring value | None => [] end = if b then [] else k :: cstring v) as Hm by (by intros []).
  rewrite !lookup_field_app, !Ho, !Hp, !Hh.
  byte_tests. rewrite !Hi, !Hm, !app_nil_r. unfold opt_bytes, pos_bytes. rewrite <- !app_assoc. done.
Qed.

(** The loop takes the fields encoded in [l] and turns [d] into [d']. *)
Definition parses (l : list byte) (d d' : PgDiagnostic) : Prop :=
  forall pre rest fuel, (length (l ++ rest) <= fuel)%nat ->
    exists fuel', (length rest <= fuel')%nat /\
      diag_loop fuel (mkMessageReader (pre ++ l ++ rest) (length pre)) d =
      diag_loop fuel' (mkMessageReader (pre ++ l ++ rest) (length pre + length l)) d'.

Lemma parses_nil d : parses [] d d.
Proof. intros pre rest fuel Hf. exists fuel. by rewrite Nat.add_0_r. Qed.

Lemma parses_app l1 l2 d1 d2 d3 : parses l1 d1 d2 -> parses l2 d2 d3 -> parses (l1 ++ l2) d1 d3.
Proof.
  intros H1 H2 pre rest fuel Hf. rewrite <- app_assoc in *.
  destruct (H1 pre (l2 ++ rest) fuel Hf) as (f1 & Hf1 & ->).
  rewrite (app_assoc pre l1), <- length_app. destruct (H2 (pre ++ l1) rest f1 Hf1) as (f2 & Hf2 & ->).
  exists f2. split; [done|]. f_equal. f_equal. rewrite !length_app. lia.
Qed.

Lemma parses_field code v d :
  code <> x00 -> no_nul v -> parses (code :: cstring v) d (set_diag_field code v d).
Proof.
  intros Hc Hv pre rest fuel Hf. destruct fuel as [|fuel]; [cbn in Hf; lia|].
  assert (length rest <= fuel)%nat by (cbn in Hf; rewrite length_app in Hf; lia).
  exists fuel. split; [done|]. cbn [diag_loop].
  replace (0 <? Remaining _) with true.
  2:{ symmetry. apply Z.ltb_lt. unfold Remaining, len. cbn [r_buf r_pos]. rewrite !length_app. cbn [length]. lia. }
  change (code :: cstring v) with ([code] ++ cstring v). rewrite <- (app_assoc [code]).
  rewrite (reads_byte code pre (cstring v ++ rest)), bool_decide_eq_false_2 by done.
  rewrite (app_assoc pre [code]). replace (length pre + length [code])%nat with (length (pre ++ [code]))
    by (by rewrite length_app).
  unfold cstring. rewrite (reads_string v Hv (pre ++ [code]) rest). f_equal. f_equal. rewrite !length_app. cbn. lia.
Qed.

Lemma parses_mandatory code v d d' :
  code <> x00 -> no_nul v -> set_diag_field code v d = d' -> parses (code :: cstring v) d d'.
Proof. intros Hc Hv <-. by apply parses_field. Qed.

Lemma parses_opt code s d d' :
  code <> x00 -> no_nul s -> (s = "" -> d = d') -> (s <> "" -> set_diag_field code s d = d') ->
  parses (opt_bytes code s) d d'.
Proof.
  intros Hc Hs H0 H1. unfold opt_bytes. case_bool_decide; [rewrite H0 by done; apply parses_nil|].
  rewrite <- H1 by done. by apply parses_field.
Qed.

Lemma parses_pos code z d d' :
  code <> x00 -> (z = 0 -> d = d') -> (z <> 0 -> set_diag_field code (Sprintf_d z) d = d') ->
  parses (pos_bytes code z) d d'.
Proof.
  intros Hc H0 H1. unfold pos_bytes. destruct (Z.eqb_spec z 0); [rewrite H0 by done; apply parses_nil|].
  rewrite <- H1 by done. apply parses_field; [done|]. apply no_nul_Sprintf_d.
Qed.

(** A diagnostic whose texts have no null bytes and whose positions are [int32]s. *)
Definition diag_fits (d : PgDiagnostic) : Prop :=
  no_nul (Severity d) /\ no_nul (Code d) /\ no_nul (Message d) /\ no_nul (Detail d) /\ no_nul (Hint d) /\
  in_int32 (Position d) /\ in_int32 (InternalPosition d) /\ no_nul (InternalQuery d) /\ no_nul (Where d) /\
  no_nul (Schema d) /\ no_nul (Table d) /\ no_nul (Column d) /\ no_nul (DataType d) /\ no_nul (Constraint_ d).

Definition set_MessageType (ty : byte) (d : PgDiagnostic) : PgDiagnostic :=
  mkPgDiagnostic ty (Severity d) (Code d) (Message d) (Detail d) (Hint d) (Position d)
    (InternalPosition d) (InternalQuery d) (Where d) (Schema d) (Table d) (Column d) (DataType d) (Constraint_ d).

(** The next field brings the diagnostic to [d']. *)
Local Ltac field d' :=
  apply (parses_app _ _ _ d');
  [first [apply parses_mandatory; [done|done|first [reflexivity
           |match goal with |- set_diag_field FieldSeverityV ?v _ = _ => by destruct v end]]
         |apply parses_opt; [done|done|by intros ->|done]
         |apply parses_pos; [done|by intros ->|intros _; cbn;
            match goal with E : ParseInt32 _ = Some _ |- _ => by rewrite E end]]|].

Lemma parseDiagnosticFields_body ty d :
  diag_fits d -> parseDiagnosticFields ty (diagnostic_body (diag_fields d)) = set_MessageType ty d.
Proof.
  intros (H1 & H2 & H3 & H4 & H5 & H6 & H7 & H8 & H9 & H10 & H11 & H12 & H13 & H14).
  rewrite diagnostic_body_eq.
  destruct d as [mt sev cod msg det hint pos ipos iq wh sch tab col dt con].
  unfold set_MessageType. cbn [Severity Code Message Detail Hint Position InternalPosition InternalQuery Where Schema Table
    Column DataType Constraint_] in *.
  unfold parseDiagnosticFields. set (body := _ ++ _).
  set (fields := (FieldSeverity :: cstring sev) ++ (FieldSeverityV :: cstring sev) ++
    (FieldCode :: cstring cod) ++ (FieldMessage :: cstring msg) ++
    opt_bytes FieldDetail det ++ opt_bytes FieldHint hint ++ pos_bytes FieldPosition pos ++
    pos_bytes FieldInternalPosition ipos ++ opt_bytes FieldInternalQuery iq ++
    opt_bytes FieldWhere wh ++ opt_bytes FieldSchema sch ++ opt_bytes FieldTable tab ++
    opt_bytes FieldColumn col ++ opt_bytes FieldDataType dt ++ opt_bytes FieldConstraint con).
  assert (body = fields ++ [x00]) as Eb by (subst body fields; by rewrite <- !app_assoc).
  assert (parses fields (mkPgDiagnostic ty "" "" "" "" "" 0 0 "" "" "" "" "" "" "")
    (mkPgDiagnostic ty sev cod msg det hint pos ipos iq wh sch tab col dt con)) as Hp.
  { subst fields body.
    pose proof (ParseInt32_Sprintf_d pos H6) as Ep. pose proof (ParseInt32_Sprintf_d ipos H7) as Ei.
    field (mkPgDiagnostic ty sev "" "" "" "" 0 0 "" "" "" "" "" "" "").
    field (mkPgDiagnostic ty sev "" "" "" "" 0 0 "" "" "" "" "" "" "").
    field (mkPgDiagnostic ty sev cod "" "" "" 0 0 "" "" "" "" "" "" "").
    field (mkPgDiagnostic ty sev cod msg "" "" 0 0 "" "" "" "" "" "" "").
    field (mkPgDiagnostic ty sev cod msg det "" 0 0 "" "" "" "" "" "" "").
    field (mkPgDiagnostic ty sev cod msg det hint 0 0 "" "" "" "" "" "" "").
    field (mkPgDiagnostic ty sev cod msg det hint pos 0 "" "" "" "" "" "" "").
    field (mkPgDiagnostic ty sev cod msg det hint pos ipos "" "" "" "" "" "" "").
    field (mkPgDiagnostic ty sev cod msg det hint pos ipos iq "" "" "" "" "" "").
    field (mkPgDiagnostic ty sev cod msg det hint pos ipos iq wh "" "" "" "" "").
    field (mkPgDiagnostic ty sev cod msg det hint pos ipos iq wh sch "" "" "" "").
    field (mkPgDiagnostic ty sev cod msg det hint pos ipos iq wh sch tab "" "" "").
    field (mkPgDiagnostic ty sev cod msg det hint pos ipos iq wh sch tab col "" "").
    field (mkPgDiagnostic ty sev cod msg det hint pos ipos iq wh sch tab col dt "").
    apply parses_opt; [done|done|by intros ->|done]. }
  rewrite Eb. destruct (Hp [] [x00] (length (fields ++ [x00])) (Nat.le_refl _)) as (f & Hf & E).
  cbn [app length Nat.add] in E. unfold NewMessageReader. rewrite E. destruct f as [|f]; [cbn in Hf; lia|].
  cbn [diag_loop]. destruct (0 <? _); [|done]. pose proof (reads_byte x00 fields []) as Er. cbn [app] in Er. by rewrite Er.
Qed.

(** ** From the server's methods to the client's *)

Inductive server_message :=
| SRowDescription (fields : list Field)
| SDataRow (row : Row)
| SCommandComplete (tag : string)
| SParameterDescription (params : list Z)
| SNotification (n : Notification)
| SDiagnostic (ty : byte) (d : PgDiagnostic).

(** The server's method for a message. *)
Definition server_write {BP : BufferPool} (m : server_message) : W (option goerror) :=
  match m with
  | SRowDescription fields => writeRowDescription fields
  | SDataRow row => writeDataRow row
  | SCommandComplete tag => writeCommandComplete tag
  | SParameterDescription params => writeParameterDescription params
  | SNotification n => writeNotificationResponseMsg n
  | SDiagnostic ty d => writePgDiagnosticResponse ty d
  end.

Definition server_type (m : server_message) : byte :=
  match m with
  | SRowDescription _ => MsgRowDescription
  | SDataRow _ => MsgDataRow
  | SCommandComplete _ => MsgCommandComplete
  | SParameterDescription _ => MsgParameterDescription
  | SNotification _ => MsgNotificationResponse
  | SDiagnostic ty _ => ty
  end.

Definition server_body (m : server_message) : list byte :=
  match m with
  | SRowDescription fields => rowDescription_body fields
  | SDataRow row => dataRow_body row
  | SCommandComplete tag => cstring tag
  | SParameterDescription params => parameterDescription_body params
  | SNotification n => be_bytes 4 (PID n) ++ cstring (Channel n) ++ cstring (Payload n)
  | SDiagnostic _ d => diagnostic_body (diag_fields d)
  end.

(** What the client makes of a message it has read: [None] panics. *)
Definition client_parse (oid_name : Z -> string) (ty : byte) (body : list byte) : option (gres server_message) :=
  if bool_decide (ty = MsgRowDescription) then sum_map id SRowDescription <$> parseRowDescription oid_name body
  else if bool_decide (ty = MsgDataRow) then sum_map id SDataRow <$> parseDataRow body
  else if bool_decide (ty = MsgCommandComplete) then Some (sum_map id SCommandComplete (parseCommandComplete body))
  else if bool_decide (ty = MsgParameterDescription)
  then sum_map id SParameterDescription <$> parseParameterDescription body
  else if bool_decide (ty = MsgNotificationResponse)
  then Some (sum_map id SNotification (parseNotificationResponse body))
  else if bool_decide (ty = MsgErrorResponse) || bool_decide (ty = MsgNoticeResponse)
  then Some (inr (SDiagnostic ty (parseDiagnosticFields ty body)))
  else Some (inl (EString "unexpected message type")).

(** The client reads and parses [n] messages. *)
Fixpoint client_read_all (oid_name : Z -> string) (n : nat) (i : Input) : option (gres (list server_message)) :=
  match n with
  | O => Some (inr [])
  | S n' =>
      match readMessage i with
      | (inl e, _) => Some (inl e)
      | (inr (ty, body), i') =>
          r ← client_parse oid_name ty body;
          match r with
          | inl e => Some (inl e)
          | inr m => sum_map id (cons m) <$> client_read_all oid_name n' i'
          end
      end
  end.

(** The server writes messages one after the other, and stops at an error. *)
Fixpoint server_write_all {BP : BufferPool} (ms : list server_message) : W (option goerror) := fun ws =>
  match ms with
  | [] => Some (None, ws)
  | m :: ms' =>
      '(e, ws') ← server_write m ws;
      match e with Some _ => Some (e, ws') | None => server_write_all ms' ws' end
  end.

(** A message as the client will see it. *)
Definition client_view (oid_name : Z -> string) (m : server_message) : server_message :=
  match m with
  | SRowDescription fields => SRowDescription (retype oid_name <$> fields)
  | SDiagnostic ty d => SDiagnostic ty (set_MessageType ty d)
  | _ => m
  end.

(** Values within the widths of the protocol: texts without null bytes, at most 32767
    columns or parameters, and a body its length field can describe. *)
Definition message_fits (m : server_message) : Prop :=
  fits_frame (server_body m) /\
  match m with
  | SRowDescription fields => len fields < 2 ^ 15 /\ Forall field_fits fields
  | SDataRow row => len row < 2 ^ 15 /\ Forall fits32 row
  | SCommandComplete tag => no_nul tag
  | SParameterDescription params => len params < 2 ^ 15 /\ Forall in_uint32 params
  | SNotification n => in_int32 (PID n) /\ no_nul (Channel n) /\ no_nul (Payload n)
  | SDiagnostic ty d => (ty = MsgErrorResponse \/ ty = MsgNoticeResponse) /\ diag_fits d
  end.

Lemma server_write_sends {BP : BufferPool} m : sends (server_write m) (server_type m) (server_body m).
Proof.
  destruct m; [apply writeRowDescription_sends|apply writeDataRow_sends|apply writeCommandComplete_sends
    |apply writeParameterDescription_sends|apply writeNotificationResponseMsg_sends|apply writePgDiagnosticResponse_sends].
Qed.

Lemma client_parse_body oid_name m :
  message_fits m -> client_parse oid_name (server_type m) (server_body m) = Some (inr (client_view oid_name m)).
Proof.
  intros [_ H]. destruct m as [fs|row|tag|ps|n|ty d]; cbn [server_type server_body] in *; unfold client_parse; byte_tests.
  - destruct H. by rewrite parseRowDescription_body.
  - destruct H. by rewrite parseDataRow_body.
  - by rewrite parseCommandComplete_body.
  - destruct H. by rewrite parseParameterDescription_body.
  - destruct H as (? & ? & ?). by rewrite parseNotificationResponse_body.
  - destruct H as [[-> | ->] Hd]; byte_tests; by rewrite parseDiagnosticFields_body.
Qed.

Lemma server_write_all_sends {BP : BufferPool} ms ws :
  wside_ok ws -> healthy ws ->
  exists ws', server_write_all ms ws = Some (None, ws') /\ wside_ok ws' /\ healthy ws' /\
    stream ws' = stream ws ++ concat ((fun m => frame_bytes (server_type m) (server_body m)) <$> ms).
Proof.
  revert ws. induction ms as [|m ms IH]; intros ws Hok Hh; cbn [server_write_all].
  { exists ws. cbn. by rewrite app_nil_r. }
  destruct (server_write_sends m ws Hok) as (e & ws1 & -> & [Hok1 _ _ Hs _ Hh1 _]).
  destruct (Hh1 Hh) as [-> Hh1']. cbn [mbind option_bind].
  destruct (IH ws1 Hok1 Hh1') as (ws2 & -> & Hok2 & Hh2 & Es). exists ws2. split_and!; [done|done|done|].
  rewrite Es, Hs by done. cbn. by rewrite <- app_assoc.
Qed.

(** C32: Messages survive the wire.  Whatever messages a server's methods write on a
    working connection, through whichever buffer they were built in, a client that reads
    the stream gets them back in order, as long as each fits the protocol's widths (at
    most 32767 columns or parameters, texts without null bytes, numbers and bodies
    within their fields: a ParameterDescription of 32768 parameters makes the client
    panic).  It gets them as sent, but for what the wire does not carry: the type name
    of a column is the client's own name of the type's OID, and a diagnostic is marked
    with the type of the message that brought it. *)
Theorem server_messages_round_trip {BP : BufferPool} oid_name ms ws :
  wside_ok ws -> healthy ws -> Forall message_fits ms ->
  exists ws' bytes, server_write_all ms ws = Some (None, ws') /\ stream ws' = stream ws ++ bytes /\
    forall rest e, client_read_all oid_name (length ms) (mkInput (bytes ++ rest) e) =
      Some (inr (client_view oid_name <$> ms)).
Proof.
  intros Hok Hh Hf. destruct (server_write_all_sends ms ws Hok Hh) as (ws' & E & _ & _ & Es).
  eexists ws', _. split_and!; [done|exact Es|]. clear E Es. intros rest e.
  induction Hf as [|m ms Hm _ IH]; [done|]. cbn [fmap list_fmap concat length client_read_all].
  rewrite <- app_assoc, readMessage_frame by apply Hm. rewrite client_parse_body by done.
  cbn [mbind option_bind]. by rewrite IH.
Qed.

(** A connection with a small writer and a pool, so that packets take every path. *)
Definition demo_pool : Pool := default (mkPool 4 64 []) (New 4 64).
Definition demo_wside : WSide :=
  mkWSide (Some (fresh_writer (replicate 24 x2a))) None false (Some (demo_pool, [None; Some 0%nat])) (mkNet [] []).

Lemma demo_pool_ok : pool_ok demo_pool.
Proof.
  unfold demo_pool. destruct (New_ok 4 64 ltac:(lia) ltac:(lia)) as (p & -> & Hp & _). done.
Qed.

Lemma demo_wside_ok : wside_ok demo_wside /\ healthy demo_wside.
Proof.
  split; [constructor; cbn; [done|done|exact demo_pool_ok|]|done]. unfold writer_ok. cbn. lia.
Qed.

Definition demo_messages : list server_message :=
  [SRowDescription [mkField "id" "int4" 16384 1 23 4 (-1) 0]; SDataRow [Some (bytes_of "42"); None];
   SCommandComplete "SELECT 1";
   SDiagnostic MsgErrorResponse (set_Position 8 (NewPgError "ERROR" "42601" "syntax error" ""))].

Ltac no_nul := unfold no_nul; by_decide.

Lemma server_messages_round_trip_witness :
  exists ws' bytes, server_write_all demo_messages demo_wside = Some (None, ws') /\ stream ws' = bytes /\
    client_read_all (fun _ => "int4") 4 (mkInput bytes io_EOF) = Some (inr demo_messages).
Proof.
  destruct demo_wside_ok as [Hok Hh].
  destruct (server_messages_round_trip (fun _ => "int4") demo_messages demo_wside Hok Hh) as (ws' & bytes & E & Es & Hr).
  { repeat constructor; try (unfold in_int16, in_int32, in_uint32; cbn; lia); try no_nul; try by_decide. }
  exists ws', bytes. split_and!; [done|exact Es|]. specialize (Hr [] io_EOF). by rewrite app_nil_r in Hr.
Defined.

(** A statement described with 32768 parameters makes the client panic: the count is
    read as a signed 16-bit number. *)
Example many_parameters_panic :
  parseParameterDescription (parameterDescription_body (replicate 32768 23)) = None.
Proof. vm_compute. reflexivity. Qed.
