(* ===== verification/WireRequests.v ===== *)
(** The messages a client sends: how client/query.go and client/extended.go write them
    and how the handlers of server/conn.go take their bodies apart, malformed ones
    included; and the encoding of parameters between gateway and pooler
    (common/sqltypes/params.go). *)

From Stdlib Require Import Strings.Byte.
From stdpp Require Import base numbers list strings.
From S2P Require Import Prelude.
From S2P Require Import Bytes.
From S2P Require Import Diagnostics.
From S2P Require Import BufPool.
From S2P Require Import Wire.
From S2P Require Import WireFacts.
From S2P Require Import WireMessages.

Local Open Scope Z_scope.
Local Open Scope go_scope.

Definition MsgBind : byte := "B".
Definition MsgClose : byte := "C".
Definition MsgDescribe : byte := "D".
Definition MsgExecute : byte := "E".
Definition MsgFunctionCall : byte := "F".
Definition MsgFlush : byte := "H".
Definition MsgParse : byte := "P".
Definition MsgQuery : byte := "Q".
Definition MsgSync : byte := "S".
Definition MsgTerminate : byte := "X".

(** ** The client's writers *)

Section writers.
Context {BP : BufferPool}.

(** [flush] follows. *)
Definition writeQueryMessage (queryStr : string) : W (option goerror) :=
  client_packet MsgQuery (String.length queryStr + 1) (writeStringAt queryStr).

Definition writeParse (name queryStr : string) (paramTypes : list Z) : W (option goerror) :=
  client_packet MsgParse (String.length name + 1 + String.length queryStr + 1 + 2 + 4 * length paramTypes)
    (writeStringAt name +>+ writeStringAt queryStr +>+ writeInt16At (len paramTypes) +>+
     enc_list writeUint32At paramTypes).

Definition writeBind (portalName stmtName : string) (params : list Value) (paramFormats resultFormats : list Z)
    : W (option goerror) :=
  client_packet MsgBind
    (String.length portalName + 1 + String.length stmtName + 1 + (2 + 2 * length paramFormats) +
     (2 + sum_list (value_size <$> params)) + (2 + 2 * length resultFormats))
    (writeStringAt portalName +>+ writeStringAt stmtName +>+
     writeInt16At (len paramFormats) +>+ enc_list writeInt16At paramFormats +>+
     writeInt16At (len params) +>+ enc_list writeByteStringAt params +>+
     writeInt16At (len resultFormats) +>+ enc_list writeInt16At resultFormats).

Definition writeExecute (portalName : string) (maxRows : Z) : W (option goerror) :=
  client_packet MsgExecute (String.length portalName + 1 + 4) (writeStringAt portalName +>+ writeInt32At maxRows).

Definition writeDescribe (typ : byte) (name : string) : W (option goerror) :=
  client_packet MsgDescribe (1 + String.length name + 1) (writeByteAt typ +>+ writeStringAt name).

Definition writeClose (typ : byte) (name : string) : W (option goerror) :=
  client_packet MsgClose (1 + String.length name + 1) (writeByteAt typ +>+ writeStringAt name).

Definition writeSync : W (option goerror) := client_packet MsgSync 0 enc_nil.
Definition writeFlush : W (option goerror) := client_packet MsgFlush 0 enc_nil.
Definition writeTerminate : W (option goerror) := client_packet MsgTerminate 0 enc_nil.

End writers.

(** ** The server's parsers *)

Definition protocolViolation (message : string) (e : option goerror) : PgDiagnostic :=
  NewPgError "ERROR" PgSSProtocolViolation message (from_option Error "" e).

(** Taking a body apart: the diagnostic that is sent back instead, or the value. *)
Definition Rq (A : Type) : Type := MessageReader -> (PgDiagnostic + A) * MessageReader.

Definition rq_bind {A B} (m : Rq A) (f : A -> Rq B) : Rq B := fun r =>
  match m r with (inl d, r') => (inl d, r') | (inr a, r') => f a r' end.
#[export] Instance rq_mret : MRet Rq := fun A a r => (inr a, r).
#[export] Instance rq_mbind : MBind Rq := fun A B f m => rq_bind m f.

Definition rq_fail {A} (d : PgDiagnostic) : Rq A := fun r => (inl d, r).

(** [if err != nil { return c.writeExtendedProtocolViolation(message, fmt.Errorf(what + ": %w", err)) }]. *)
Definition field_of {A} (message what : string) (m : Rd A) : Rq A := fun r =>
  match m r with
  | (inl e, r') => (inl (protocolViolation message (Some (EFmt what e))), r')
  | (inr a, r') => (inr a, r')
  end.

(** A count that the rest of the body can hold, at [width] bytes an item. *)
Definition check_count (message what : string) (width n : Z) : Rq nat := fun r =>
  if Remaining r / width <? n
  then (inl (protocolViolation message
               (Some (EString (what +:+ " " +:+ Sprintf_d n +:+ " exceeds remaining message body")))), r)
  else (inr (Z.to_nat n), r).

Definition count_of (message what what_count : string) (width : Z) : Rq nat :=
  n ← field_of message ("failed to read " +:+ what) ReadUint16; check_count message what_count width n.

Fixpoint rq_list {A} (n : nat) (m : Rq A) : Rq (list A) :=
  match n with O => mret [] | S n' => x ← m; l ← rq_list n' m; mret (x :: l) end.

Definition requireMessageConsumed (message messageType : string) : Rq unit := fun r =>
  if Remaining r =? 0 then (inr tt, r)
  else (inl (protocolViolation message
               (Some (EString ("invalid " +:+ messageType +:+ " message: " +:+ Sprintf_d (Remaining r) +:+
                               " trailing bytes")))), r).

(** The body of a Parse message: statement name, query, parameter types. *)
Fixpoint parameter_types (n : nat) (i : nat) : Rq (list Z) :=
  match n with
  | O => mret []
  | S n' =>
      oid ← field_of "invalid Parse message" ("failed to read parameter type " +:+ Sprintf_d (Z.of_nat i)) ReadUint32;
      l ← parameter_types n' (S i);
      mret (oid :: l)
  end.

Definition parse_Parse : Rq (string * string * list Z) :=
  stmtName ← field_of "invalid Parse message" "failed to read statement name" ReadString;
  queryStr ← field_of "invalid Parse message" "failed to read query string" ReadString;
  paramCount ← count_of "invalid Parse message" "parameter count" "parameter type count" 4;
  paramTypes ← parameter_types paramCount 0;
  _ ← requireMessageConsumed "invalid Parse message" "Parse";
  mret (stmtName, queryStr, paramTypes).

(** A format code must be 0 or 1. *)
Definition format_code (what : string) : Rq Z :=
  format ← field_of "invalid Bind message" what ReadInt16;
  if negb (format =? 0) && negb (format =? 1)
  then rq_fail (NewPgError "ERROR" PgSSInvalidParameterValue ("unsupported format code: " +:+ Sprintf_d format)
                  "Formats must be 0 (text) or 1 (binary).")
  else mret format.

Record BindArgs := mkBindArgs {
  b_portal : string; b_stmt : string; b_params : list Value; b_paramFormats : list Z; b_resultFormats : list Z
}.

Definition parse_Bind : Rq BindArgs :=
  portalName ← field_of "invalid Bind message" "failed to read portal name" ReadString;
  stmtName ← field_of "invalid Bind message" "failed to read statement name" ReadString;
  paramFormatCount ← count_of "invalid Bind message" "parameter format count" "parameter format count" 2;
  paramFormats ← rq_list paramFormatCount (format_code "failed to read parameter format");
  paramCount ← count_of "invalid Bind message" "parameter count" "parameter count" 4;
  params ← rq_list paramCount (field_of "invalid Bind message" "failed to read parameter" ReadByteString);
  resultFormatCount ← count_of "invalid Bind message" "result format count" "result format count" 2;
  resultFormats ← rq_list resultFormatCount (format_code "failed to read result format");
  _ ← requireMessageConsumed "invalid Bind message" "Bind";
  mret (mkBindArgs portalName stmtName params paramFormats resultFormats).

Definition parse_Execute : Rq (string * Z) :=
  portalName ← field_of "invalid Execute message" "failed to read portal name" ReadString;
  maxRows ← field_of "invalid Execute message" "failed to read max rows" ReadInt32;
  _ ← requireMessageConsumed "invalid Execute message" "Execute";
  mret (portalName, maxRows).

(** Describe and Close name a statement ('S') or a portal ('P'). *)
Definition parse_target (message messageType : string) : Rq (byte * string) :=
  typ ← field_of message "failed to read target type" ReadByte;
  if bool_decide (typ <> "S"%byte) && bool_decide (typ <> "P"%byte)
  then rq_fail (protocolViolation message
         (Some (EString ("unsupported target type " +:+ Sprintf_q typ))))
  else
    name ← field_of message "failed to read target name" ReadString;
    _ ← requireMessageConsumed message messageType;
    mret (typ, name).

Definition parse_Describe : Rq (byte * string) := parse_target "invalid Describe message" "Describe".
Definition parse_Close : Rq (byte * string) := parse_target "invalid Close message" "Close".

(** Runs a parser over a whole body. *)
Definition parse_body {A} (m : Rq A) (body : list byte) : PgDiagnostic + A := (m (NewMessageReader body)).1.

(** ** Parameters between gateway and pooler *)

(** The length of each parameter, -1 for NULL, and the values one after the other. *)
Definition ParamsToProto (params : list Value) : list Z * list byte :=
  (from_option len (-1) <$> params, concat (default [] <$> params)).

(** [None] panics: the values are too short.  Their capacity is taken to be their length. *)
Fixpoint ParamsFromProto_at (lengths : list Z) (values : list byte) (offset : Z) : option (list Value) :=
  match lengths with
  | [] => Some []
  | n :: lengths' =>
      if n =? -1 then cons None <$> ParamsFromProto_at lengths' values offset
      else if n =? 0 then cons (Some []) <$> ParamsFromProto_at lengths' values offset
      else if (0 <=? n) && (offset + n <=? len values)
      then cons (Some (take (Z.to_nat n) (drop (Z.to_nat offset) values))) <$>
           ParamsFromProto_at lengths' values (offset + n)
      else None
  end.

Definition ParamsFromProto (lengths : list Z) (values : list byte) : option (list Value) :=
  ParamsFromProto_at lengths values 0.

(** ** What the parsers accept *)

(** Followed by [rest], the bytes [l] are taken as [v]. *)
Definition takes {A} (m : Rq A) (l : list byte) (v : A) (rest : list byte) : Prop :=
  forall pre, m (mkMessageReader (pre ++ l ++ rest) (length pre)) =
    (inr v, mkMessageReader (pre ++ l ++ rest) (length pre + length l)).

Lemma takes_ret {A} (v : A) rest : takes (mret v) [] v rest.
Proof. intros pre. cbn. by rewrite Nat.add_0_r. Qed.

Lemma takes_bind {A B} (m : Rq A) (f : A -> Rq B) l1 l2 v w rest :
  takes m l1 v (l2 ++ rest) -> takes (f v) l2 w rest -> takes (m ≫= f) (l1 ++ l2) w rest.
Proof.
  intros H1 H2 pre. unfold mbind, rq_mbind, rq_bind. rewrite <- app_assoc, H1.
  rewrite !(app_assoc pre l1), <- length_app, H2. by rewrite !length_app, <- Nat.add_assoc.
Qed.

Lemma takes_field {A} message what (m : Rd A) l v rest : reads m l v -> takes (field_of message what m) l v rest.
Proof. intros H pre. unfold field_of. by rewrite H. Qed.

Lemma takes_count message what what_count width n rest :
  0 < width -> Z.of_nat n < 2 ^ 16 -> Z.of_nat n * width <= len rest ->
  takes (count_of message what what_count width) (be_bytes 2 (Z.of_nat n)) n rest.
Proof.
  intros Hw Hn Hr pre. unfold count_of, mbind, rq_mbind, rq_bind.
  rewrite (takes_field _ _ ReadUint16 _ (Z.of_nat n)) by (apply reads_uint16; lia).
  unfold check_count, Remaining, len. cbn [r_buf r_pos]. rewrite !length_app, (proj2 (Z.ltb_ge _ _)), Nat2Z.id; [done|].
  apply Z.div_le_lower_bound; [done|]. unfold len in Hr. lia.
Qed.

Lemma takes_list {A} (m : Rq A) (g : A -> list byte) l rest :
  (forall x rest', x ∈ l -> takes m (g x) x rest') -> takes (rq_list (length l) m) (concat (g <$> l)) l rest.
Proof.
  induction l as [|x l IH]; intros Hl; [apply takes_ret|]. cbn.
  eapply takes_bind; [apply Hl; left|]. rewrite <- (app_nil_r (concat (g <$> l))).
  eapply takes_bind; [|apply takes_ret]. apply IH. intros y r' Hy. apply Hl. by right.
Qed.

Lemma takes_end message messageType : takes (requireMessageConsumed message messageType) [] tt [].
Proof.
  intros pre. unfold requireMessageConsumed, Remaining, len. cbn [r_buf r_pos].
  rewrite !length_app, (proj2 (Z.eqb_eq _ _)) by (cbn; lia). by rewrite Nat.add_0_r.
Qed.

(** The end of every parser: nothing may follow, then the result. *)
Lemma takes_last {A} message messageType (v : A) :
  takes (_ ← requireMessageConsumed message messageType; mret v) [] v [].
Proof. apply (takes_bind _ (fun _ => mret v) [] [] tt); [apply takes_end|apply takes_ret]. Qed.

Lemma parse_body_takes {A} (m : Rq A) body v : takes m body v [] -> parse_body m body = inr v.
Proof. intros H. specialize (H []). unfold parse_body, NewMessageReader. rewrite app_nil_r in H. cbn [app length] in H. by rewrite H. Qed.

(** A message that cannot be taken apart is reported as an error that is not fatal. *)
Definition mild {A} (m : Rq A) : Prop := forall r d r', m r = (inl d, r') -> IsFatal d = false.

Create HintDb mild.

Lemma mild_ret {A} (a : A) : mild (mret a).
Proof. by intros r d r' [=]. Qed.

Lemma mild_bind {A B} (m : Rq A) (f : A -> Rq B) : mild m -> (forall a, mild (f a)) -> mild (m ≫= f).
Proof.
  intros Hm Hf r d r'. unfold mbind, rq_mbind, rq_bind. destruct (m r) as [[d1|a] r1] eqn:E; [|apply Hf].
  intros [= -> ->]. by eapply Hm.
Qed.

Lemma mild_field {A} message what (m : Rd A) : mild (field_of message what m).
Proof. intros r d r'. unfold field_of. destruct (m r) as [[e|a] r1]; [|done]. by intros [= <- _]. Qed.

Lemma mild_count message what what_count width : mild (count_of message what what_count width).
Proof.
  apply mild_bind; [apply mild_field|]. intros n r d r'. unfold check_count. destruct (_ <? _); [|done]. by intros [= <- _].
Qed.

Lemma mild_consumed message messageType : mild (requireMessageConsumed message messageType).
Proof. intros r d r'. unfold requireMessageConsumed. destruct (_ =? 0); [done|]. by intros [= <- _]. Qed.

#[export] Hint Resolve mild_ret mild_bind mild_field mild_count mild_consumed : mild.

Lemma mild_list {A} n (m : Rq A) : mild m -> mild (rq_list n m).
Proof. intros Hm. induction n; cbn; auto with mild. Qed.

Lemma mild_types n i : mild (parameter_types n i).
Proof. revert i. induction n; intros i; cbn; auto with mild. Qed.

Lemma mild_format what : mild (format_code what).
Proof.
  apply mild_bind; [apply mild_field|]. intros f. destruct (_ && _); [|apply mild_ret].
  intros r d r'. unfold rq_fail. by intros [= <- _].
Qed.

Lemma mild_target message messageType : mild (parse_target message messageType).
Proof.
  apply mild_bind; [apply mild_field|]. intros t. destruct (_ && _); [|auto with mild].
  intros r d r'. unfold rq_fail. by intros [= <- _].
Qed.

#[export] Hint Resolve mild_list mild_types mild_format mild_target : mild.

Lemma mild_parsers : mild parse_Parse /\ mild parse_Bind /\ mild parse_Describe /\ mild parse_Close.
Proof. unfold parse_Parse, parse_Bind, parse_Describe, parse_Close. auto 25 with mild. Qed.

Lemma parse_body_mild {A} (m : Rq A) body d : mild m -> parse_body m body = inl d -> IsFatal d = false.
Proof. unfold parse_body. intros Hm E. destruct (m _) as [x r] eqn:Em. cbn in E. subst x. by eapply Hm. Qed.

(** ** The requests on the wire *)

Definition parse_request_body (name queryStr : string) (paramTypes : list Z) : list byte :=
  cstring name ++ cstring queryStr ++ be_bytes 2 (len paramTypes) ++ concat (be_bytes 4 <$> paramTypes).

Definition bind_request_body (a : BindArgs) : list byte :=
  cstring (b_portal a) ++ cstring (b_stmt a) ++
  be_bytes 2 (len (b_paramFormats a)) ++ concat (be_bytes 2 <$> b_paramFormats a) ++
  be_bytes 2 (len (b_params a)) ++ concat (byte_string_bytes <$> b_params a) ++
  be_bytes 2 (len (b_resultFormats a)) ++ concat (be_bytes 2 <$> b_resultFormats a).

Lemma length_concat_width {A} (g : A -> list byte) (w : nat) l :
  (forall x, length (g x) = w) -> length (concat (g <$> l)) = (w * length l)%nat.
Proof. intros Hg. induction l as [|x l IH]; [cbn; lia|]. cbn. rewrite length_app, Hg, IH. lia. Qed.

Lemma length_concat_ge {A} (g : A -> list byte) (w : nat) l :
  (forall x, (w <= length (g x))%nat) -> (w * length l <= length (concat (g <$> l)))%nat.
Proof. intros Hg. induction l as [|x l IH]; [cbn; lia|]. cbn. rewrite length_app. specialize (Hg x). lia. Qed.

Lemma length_byte_string v : (4 <= length (byte_string_bytes v))%nat.
Proof. destruct v; cbn [byte_string_bytes]; rewrite ?length_app, be_bytes_length; lia. Qed.

Lemma takes_types n i l rest :
  n = length l -> Forall in_uint32 l -> takes (parameter_types n i) (concat (be_bytes 4 <$> l)) l rest.
Proof.
  intros -> Hl. revert i. induction Hl as [|x l Hx _ IH]; intros i; [apply takes_ret|]. cbn [length parameter_types].
  cbn [fmap list_fmap concat]. eapply takes_bind; [apply takes_field, reads_uint32, Hx|].
  rewrite <- (app_nil_r (concat _)). eapply takes_bind; [apply IH|]. apply takes_ret.
Qed.

Lemma takes_format what f rest : f = 0 \/ f = 1 -> takes (format_code what) (be_bytes 2 f) f rest.
Proof.
  intros Hf. unfold format_code. rewrite <- (app_nil_r (be_bytes 2 f)).
  eapply takes_bind; [apply takes_field, reads_int16; unfold in_int16; lia|].
  destruct Hf as [-> | ->]; apply takes_ret.
Qed.

Lemma parse_Parse_ok name queryStr paramTypes :
  no_nul name -> no_nul queryStr -> len paramTypes < 2 ^ 16 -> Forall in_uint32 paramTypes ->
  parse_body parse_Parse (parse_request_body name queryStr paramTypes) = inr (name, queryStr, paramTypes).
Proof.
  intros H1 H2 H3 H4. apply parse_body_takes. unfold parse_Parse, parse_request_body, cstring.
  do 2 (eapply takes_bind; [by apply takes_field, reads_string|]).
  eapply takes_bind; [apply takes_count; [done|exact H3|]|].
  { unfold len. rewrite app_nil_r, (length_concat_width _ 4) by (intros; apply be_bytes_length). lia. }
  rewrite <- (app_nil_r (concat _)). eapply takes_bind; [by apply takes_types|]. apply takes_last.
Qed.

Definition bind_fits (a : BindArgs) : Prop :=
  no_nul (b_portal a) /\ no_nul (b_stmt a) /\
  len (b_paramFormats a) < 2 ^ 16 /\ Forall (fun f => f = 0 \/ f = 1) (b_paramFormats a) /\
  len (b_params a) < 2 ^ 16 /\ Forall fits32 (b_params a) /\
  len (b_resultFormats a) < 2 ^ 16 /\ Forall (fun f => f = 0 \/ f = 1) (b_resultFormats a).

Lemma parse_Bind_ok a : bind_fits a -> parse_body parse_Bind (bind_request_body a) = inr a.
Proof.
  destruct a as [portal stmt params pf rf]. intros (H1 & H2 & H3 & H4 & H5 & H6 & H7 & H8).
  rewrite !Forall_forall in *. cbn [b_portal b_stmt b_params b_paramFormats b_resultFormats] in *.
  apply parse_body_takes. unfold parse_Bind, bind_request_body, cstring.
  cbn [b_portal b_stmt b_params b_paramFormats b_resultFormats].
  do 2 (eapply takes_bind; [by apply takes_field, reads_string|]).
  assert (forall (l : list Z) rest, Z.of_nat (length l) * 2 <= len (concat (be_bytes 2 <$> l) ++ rest)) as Hw2.
  { intros l rest. unfold len. rewrite length_app, (length_concat_width _ 2) by (intros; apply be_bytes_length). lia. }
  assert (forall (l : list Value) rest, Z.of_nat (length l) * 4 <= len (concat (byte_string_bytes <$> l) ++ rest)) as Hw4.
  { intros l rest. unfold len. rewrite length_app.
    pose proof (length_concat_ge (A := Value) byte_string_bytes 4 l length_byte_string). unfold Value in *. lia. }
  eapply takes_bind; [apply takes_count; [done|exact H3|]; rewrite <- app_assoc; apply Hw2|].
  eapply takes_bind; [apply (takes_list _ (be_bytes 2)); intros; by apply takes_format, H4|].
  eapply takes_bind; [apply takes_count; [done|exact H5|]; rewrite <- app_assoc; apply Hw4|].
  eapply takes_bind; [apply (takes_list _ byte_string_bytes); intros; by apply takes_field, reads_byte_string, H6|].
  eapply takes_bind; [apply takes_count; [done|exact H7|]; apply Hw2|].
  rewrite <- (app_nil_r (concat _)).
  eapply takes_bind; [apply (takes_list _ (be_bytes 2)); intros; by apply takes_format, H8|]. apply takes_last.
Qed.

Lemma parse_Execute_ok portal maxRows :
  no_nul portal -> in_int32 maxRows ->
  parse_body parse_Execute (cstring portal ++ be_bytes 4 maxRows) = inr (portal, maxRows).
Proof.
  intros H1 H2. apply parse_body_takes. unfold parse_Execute, cstring.
  eapply takes_bind; [by apply takes_field, reads_string|]. rewrite <- (app_nil_r (be_bytes 4 maxRows)).
  eapply takes_bind; [by apply takes_field, reads_int32|]. apply takes_last.
Qed.

Lemma parse_target_ok message messageType typ name :
  typ = "S"%byte \/ typ = "P"%byte -> no_nul name ->
  parse_body (parse_target message messageType) (typ :: cstring name) = inr (typ, name).
Proof.
  intros Ht Hn. apply parse_body_takes. unfold parse_target.
  change (typ :: cstring name) with ([typ] ++ cstring name).
  eapply takes_bind; [apply takes_field, reads_byte|].
  assert ((bool_decide (typ <> "S"%byte) && bool_decide (typ <> "P"%byte)) = false) as ->
    by (destruct Ht as [-> | ->]; reflexivity).
  rewrite <- (app_nil_r (cstring name)). eapply takes_bind; [by apply takes_field, reads_string|]. apply takes_last.
Qed.

(** ** From the client's methods to the server's parsers *)

Inductive request :=
| RQuery (queryStr : string)
| RParse (name queryStr : string) (paramTypes : list Z)
| RBind (a : BindArgs)
| RExecute (portal : string) (maxRows : Z)
| RDescribe (typ : byte) (name : string)
| RClose (typ : byte) (name : string)
| RSync
| RFlush
| RTerminate.

Definition client_write {BP : BufferPool} (q : request) : W (option goerror) :=
  match q with
  | RQuery s => writeQueryMessage s
  | RParse name s types => writeParse name s types
  | RBind a => writeBind (b_portal a) (b_stmt a) (b_params a) (b_paramFormats a) (b_resultFormats a)
  | RExecute portal n => writeExecute portal n
  | RDescribe typ name => writeDescribe typ name
  | RClose typ name => writeClose typ name
  | RSync => writeSync
  | RFlush => writeFlush
  | RTerminate => writeTerminate
  end.

Definition request_type (q : request) : byte :=
  match q with
  | RQuery _ => MsgQuery | RParse _ _ _ => MsgParse | RBind _ => MsgBind | RExecute _ _ => MsgExecute
  | RDescribe _ _ => MsgDescribe | RClose _ _ => MsgClose | RSync => MsgSync | RFlush => MsgFlush
  | RTerminate => MsgTerminate
  end.

Definition request_body (q : request) : list byte :=
  match q with
  | RQuery s => cstring s
  | RParse name s types => parse_request_body name s types
  | RBind a => bind_request_body a
  | RExecute portal n => cstring portal ++ be_bytes 4 n
  | RDescribe typ name | RClose typ name => typ :: cstring name
  | RSync | RFlush | RTerminate => []
  end.

Definition request_bytes (q : request) : list byte := frame_bytes (request_type q) (request_body q).

Section client.
Context {BP : BufferPool}.

Definition client_ok (ws : WSide) : Prop :=
  from_option pool_inv True (bufPool ws) /\ from_option writer_ok True (bufferedWriter ws) /\ outboundPoolBuf ws = None.

Local Ltac wire_len := unfold cstring; rewrite ?length_app, ?be_bytes_length, ?length_bytes_of; cbn [length]; lia.

Lemma client_write_body q :
  exists n enc, client_write q = client_packet (request_type q) n enc /\ writes enc (request_body q) /\
    n = length (request_body q).
Proof.
  destruct q as [s|name s types|a|portal n|typ name|typ name| | |]; (eexists _, _; split_and!; [done| |]);
    cbn [request_body]; unfold parse_request_body, bind_request_body, cstring; 
    try solve [auto 20 with wire|wire_len
      |change (typ :: bytes_of name ++ [x00]) with ([typ] ++ bytes_of name ++ [x00]);
       first [solve [auto with wire]|wire_len]].
  - rewrite !length_app, !be_bytes_length, !length_bytes_of, (length_concat_width _ 4) by (intros; apply be_bytes_length).
    cbn [length]. lia.
  - rewrite !length_app, !be_bytes_length, !length_bytes_of.
    do 2 rewrite (length_concat_width (be_bytes 2) 2) by (intros; apply be_bytes_length).
    rewrite (length_concat_sum (A := Value) byte_string_bytes value_size); [cbn [length]; lia|].
    intros [v|]; [|done]. unfold value_size. cbn [byte_string_bytes from_option]. wire_len.
Qed.

(** A request reaches the stream as its frame. *)
Lemma client_write_sends q ws :
  client_ok ws -> healthy ws ->
  exists ws', client_write q ws = Some (None, ws') /\ client_ok ws' /\ healthy ws' /\
    stream ws' = stream ws ++ request_bytes q.
Proof.
  intros (H1 & H2 & H3) Hh. destruct (client_write_body q) as (n & enc & -> & Hw & Hn).
  destruct (client_packet_sends (request_type q) n enc (request_body q) ws H1 H2 H3 Hw Hn)
    as (e & ws' & E & Ha & Hb & Hc & _ & _ & _ & Hs & _ & Hh' & _). destruct (Hh' Hh) as [-> Hh'']. exists ws'. split_and!; auto.
  by split_and!.
Qed.

Fixpoint client_write_all (qs : list request) : W (option goerror) := fun ws =>
  match qs with
  | [] => Some (None, ws)
  | q :: qs' =>
      '(e, ws') ← client_write q ws;
      match e with Some _ => Some (e, ws') | None => client_write_all qs' ws' end
  end.

Lemma client_write_all_sends qs ws :
  client_ok ws -> healthy ws ->
  exists ws', client_write_all qs ws = Some (None, ws') /\ client_ok ws' /\ healthy ws' /\
    stream ws' = stream ws ++ concat (request_bytes <$> qs).
Proof.
  revert ws. induction qs as [|q qs IH]; intros ws Hok Hh; cbn [client_write_all].
  { exists ws. cbn. by rewrite app_nil_r. }
  destruct (client_write_sends q ws Hok Hh) as (ws1 & -> & Hok1 & Hh1 & E1). cbn [mbind option_bind].
  destruct (IH ws1 Hok1 Hh1) as (ws2 & -> & Hok2 & Hh2 & E2). exists ws2. split_and!; [done|done|done|].
  rewrite E2, E1. cbn. by rewrite <- app_assoc.
Qed.
End client.

(** ** Parameters survive the way to the pooler *)

Lemma ParamsFromProto_at_app params pre rest :
  ParamsFromProto_at (from_option len (-1) <$> params) (pre ++ concat (default [] <$> params) ++ rest) (len pre) =
    Some params.
Proof.
  revert pre. induction params as [|[l|] params IH]; intros pre; [done| |].
  - cbn [fmap list_fmap from_option ParamsFromProto_at concat default id].
    rewrite (proj2 (Z.eqb_neq _ _)) by (unfold len; lia). destruct l as [|b l]; [cbn; by rewrite IH|].
    rewrite (proj2 (Z.eqb_neq _ _)) by (unfold len; cbn; lia).
    rewrite (proj2 (Z.leb_le _ _)), (proj2 (Z.leb_le _ _)) by (unfold len; repeat rewrite length_app; lia). cbn [andb].
    rewrite <- app_assoc. unfold len in *. rewrite !Nat2Z.id, drop_app_length, take_app_length.
    rewrite <- Nat2Z.inj_add, <- length_app, app_assoc. by rewrite IH.
  - cbn. by rewrite IH.
Qed.

Lemma params_proto_round_trip params :
  ParamsFromProto (ParamsToProto params).1 (ParamsToProto params).2 = Some params.
Proof. pose proof (ParamsFromProto_at_app params [] []) as E. by rewrite app_nil_r in E. Qed.

(** A target that was accepted is a statement or a portal. *)
Lemma parse_target_type message messageType body typ name :
  parse_body (parse_target message messageType) body = inr (typ, name) -> typ = "S"%byte \/ typ = "P"%byte.
Proof.
  unfold parse_body, parse_target, mbind, rq_mbind, rq_bind. cbv beta. intros E.
  destruct (field_of message "failed to read target type" ReadByte _) as [[d|t] r1]; [done|].
  destruct (bool_decide (t <> "S"%byte) && bool_decide (t <> "P"%byte)) eqn:Et; [done|].
  destruct (field_of message "failed to read target name" ReadString r1) as [[d|n] r2]; [done|].
  destruct (requireMessageConsumed message messageType r2) as [[d|[]] r3]; [done|]. cbn in E. simplify_eq.
  apply andb_false_iff in Et as [Et|Et]; apply bool_decide_eq_false, dec_stable in Et; auto.
Qed.
