(* ===== verification/ServerConn.v ===== *)
(** The server side of a client connection: common/pgprotocol/server/conn.go (with
    query.go and the parameter reports of startup.go), from [serve]'s command loop
    down to the handlers of each message.  The query handler behind it is an
    interface, as in handler.go; a streaming handler is a tree of the results it
    emits.  The connection's methods run in a state monad over [Conn]; [None] is a Go
    panic.  COPY, replication, notifications and the startup phase are not modelled, nor
    are a connection closed from outside its loop and deadlines that cannot be set. *)

From Stdlib Require Import Strings.Byte.
From stdpp Require Import base numbers list gmap strings.
From S2P Require Import Prelude.
From S2P Require Import Bytes.
From S2P Require Import Diagnostics.
From S2P Require Import BufPool.
From S2P Require Import Wire.
From S2P Require Import WireFacts.
From S2P Require Import WireMessages.
From S2P Require Import WireRequests.

Local Open Scope Z_scope.

Definition TxnStatusIdle : byte := "I".
Definition TxnStatusInBlock : byte := "T".
Definition TxnStatusFailed : byte := "E".

(** ** Results and the handler interface *)

(** [sqltypes.Result], what the protocol layer reads of it. *)
Record Result := mkResult {
  Fields : option (list Field);
  Rows : list Row;
  PassthroughBlock : option (list byte);
  PassthroughRowInProgress : bool;
  CommandTag : string;
  Notices : list PgDiagnostic;
  ParameterStatus : list (string * string)
}.

Record StatementDescription := mkStatementDescription { sd_Parameters : list Z; sd_Fields : option (list Field) }.

(** A streaming call: it emits results through the callback, whose error it sees, and
    returns.  [canceled]: a CancelRequest arrived meanwhile.  A nil result is [None]. *)
Inductive Run (S : Type) :=
| Done (e : option goerror) (canceled : bool) (s : S)
| Emit (r : option Result) (k : option goerror -> Run S).
Arguments Done {S} e canceled s.
Arguments Emit {S} r k.

(** The [Handler] interface.  [session] is the handler's state of the connection, the
    transaction status it sets on the connection included. *)
Class Handler := {
  session : Type;
  txnStatus : session -> byte;
  HandleQuery : session -> string -> Run session;
  HandleParse : session -> string -> string -> list Z -> option goerror * session;
  HandleBind : session -> BindArgs -> option goerror * session;
  HandleExecute : session -> string -> Z -> bool -> Run session;
  HandleDescribe : session -> byte -> string -> gres (option StatementDescription) * session;
  HandleClose : session -> byte -> string -> option goerror * session;
  HandleSync : session -> option goerror * session;
  (** zero when the handler manages no idle timeout *)
  IdleSessionTimeout : session -> Z
}.

Section conn.
Context {BP : BufferPool} {H : Handler}.

Record Conn := mkConn {
  c_in : Input;
  inboundPoolBuf : option Buffer;
  c_ws : WSide;
  (** the buffer of the writer the pool will hand out *)
  w_spare : list byte;
  c_session : session;
  reportedParams : gmap string string;
  (** a Describe('P') held back, by portal name *)
  deferredPortalDescribe : option string;
  discardingUntilSync : bool
}.

Definition set_in (i : Input) (c : Conn) : Conn :=
  mkConn i (inboundPoolBuf c) (c_ws c) (w_spare c) (c_session c) (reportedParams c) (deferredPortalDescribe c)
    (discardingUntilSync c).
Definition set_ws (ws : WSide) (c : Conn) : Conn :=
  mkConn (c_in c) (inboundPoolBuf c) ws (w_spare c) (c_session c) (reportedParams c) (deferredPortalDescribe c)
    (discardingUntilSync c).
Definition set_inbound (b : option Buffer) (p : option pool) (c : Conn) : Conn :=
  mkConn (c_in c) b
    (mkWSide (bufferedWriter (c_ws c)) (outboundPoolBuf (c_ws c)) (bufMu (c_ws c)) p (net (c_ws c)))
    (w_spare c) (c_session c) (reportedParams c) (deferredPortalDescribe c) (discardingUntilSync c).
Definition set_session (s : session) (c : Conn) : Conn :=
  mkConn (c_in c) (inboundPoolBuf c) (c_ws c) (w_spare c) s (reportedParams c) (deferredPortalDescribe c)
    (discardingUntilSync c).
Definition set_reported (m : gmap string string) (c : Conn) : Conn :=
  mkConn (c_in c) (inboundPoolBuf c) (c_ws c) (w_spare c) (c_session c) m (deferredPortalDescribe c)
    (discardingUntilSync c).
Definition set_deferred (d : option string) (c : Conn) : Conn :=
  mkConn (c_in c) (inboundPoolBuf c) (c_ws c) (w_spare c) (c_session c) (reportedParams c) d (discardingUntilSync c).
Definition set_discarding (b : bool) (c : Conn) : Conn :=
  mkConn (c_in c) (inboundPoolBuf c) (c_ws c) (w_spare c) (c_session c) (reportedParams c)
    (deferredPortalDescribe c) b.

(** ** The monad *)

Definition Act (A : Type) : Type := Conn -> option (A * Conn).

#[export] Instance act_ret : MRet Act := fun A a c => Some (a, c).
#[export] Instance act_bind : MBind Act := fun A B f m c => '(a, c') ← m c; f a c'.

Definition get : Act Conn := fun c => Some (c, c).
Definition modify (f : Conn -> Conn) : Act unit := fun c => Some (tt, f c).

(** [if err := m; err != nil { return err }], and with a wrap. *)
Definition act_try (m k : Act (option goerror)) : Act (option goerror) :=
  e ← m; match e with Some e => mret (Some e) | None => k end.
Definition act_wrap (msg : string) (m : Act (option goerror)) : Act (option goerror) :=
  e ← m; mret (EFmt msg <$> e).

(** [v, err := m; if err != nil { return fmt.Errorf(msg + ": %w", err) }]. *)
Definition act_val {A} (msg : string) (m : Act (gres A)) (k : A -> Act (option goerror)) : Act (option goerror) :=
  r ← m; match r with inl e => mret (Some (EFmt msg e)) | inr a => k a end.

(** A writing method of the connection, a reading one, a call of the handler. *)
Definition wr (m : W (option goerror)) : Act (option goerror) := fun c =>
  '(e, ws) ← m (c_ws c); Some (e, set_ws ws c).
Definition rd {A} (m : Input -> gres A * Input) : Act (gres A) := fun c =>
  let '(r, i) := m (c_in c) in Some (r, set_in i c).
Definition call {A} (f : session -> A * session) : Act A := fun c =>
  let '(a, s) := f (c_session c) in Some (a, set_session s c).

(** ** Buffers *)

Definition startWriterBuffering : Act unit := fun c =>
  ws ← lock (c_ws c);
  let w := match bufferedWriter ws with Some w => w | None => fresh_writer (w_spare c) end in
  Some (tt, set_ws (unlock (set_writer ws (Some w) (net ws))) c).

Definition flush : Act (option goerror) := fun c =>
  ws ← lock (c_ws c);
  match bufferedWriter ws with
  | None => Some (None, set_ws (unlock ws) c)
  | Some w =>
      let '(e, w', n') := bufio_Flush w (net ws) in
      Some (e, set_ws (unlock (set_writer ws (Some w') n')) c)
  end.

Definition endWriterBuffering : Act (option goerror) := fun c =>
  ws ← lock (c_ws c);
  match bufferedWriter ws with
  | None => Some (None, set_ws (unlock ws) c)
  | Some w =>
      let '(e, _, n') := bufio_Flush w (net ws) in
      Some (e, set_ws (unlock (set_writer ws None n')) c)
  end.

Definition abortWriterBuffering : Act unit := fun c =>
  ws ← lock (c_ws c); Some (tt, set_ws (unlock (set_writer ws None (net ws))) c).

(** [bufPool.Put(c.inboundPoolBuf)]: there is a buffer only if there is a pool. *)
Definition returnReadBuffer : Act unit := fun c =>
  match inboundPoolBuf c, bufPool (c_ws c) with
  | None, _ => Some (tt, c)
  | Some b, Some p => p' ← pool_Put p b; Some (tt, set_inbound None (Some p') c)
  | Some _, None => None
  end.

(** The body aliases the pool buffer until [returnReadBuffer]; it is only read. *)
Definition readMessageBody (length : Z) : Act (gres (list byte)) :=
  if length =? 0 then mret (inr [])
  else
    _ ← returnReadBuffer;
    _ ← (fun c => match bufPool (c_ws c) with
                  | Some p => '(b, p') ← pool_Get p length; Some (tt, set_inbound (Some b) (Some p') c)
                  | None => Some (tt, c)
                  end);
    r ← rd (ReadFull (Z.to_nat length));
    match r with
    | inl e => _ ← returnReadBuffer; mret (inl e)
    | inr body => mret (inr body)
    end.

(** A message's length and body, and what is done with it before its buffer goes back. *)
Definition with_body (what body_what : string) (k : list byte -> Act (option goerror)) : Act (option goerror) :=
  act_val ("failed to read " +:+ what +:+ " message length") (rd ReadMessageLength) (fun bodyLen =>
  act_val body_what (readMessageBody bodyLen) (fun body =>
  e ← k body;
  _ ← returnReadBuffer;
  mret e)).

(** ** Errors sent to the client *)

Definition fatalDiagnostic (e : goerror) : option PgDiagnostic :=
  match errors_As_diag (RootCause e) with Some d => if IsFatal d then Some d else None | None => None end.

(** The diagnostic [writeError] puts on the wire. *)
Definition error_diagnostic (e : goerror) : PgDiagnostic :=
  match errors_As_diag (RootCause e) with
  | Some d => d
  | None =>
      if error_Code e =? Code_UNAVAILABLE
      then NewPgError "ERROR" PgSSConnectionFailure "connection to server lost" (Error e)
      else NewPgError "ERROR" PgSSInternalError (Error e) ""
  end.

Definition writeError (e : goerror) : Act (option goerror) :=
  wr (writePgDiagnosticResponse MsgErrorResponse (error_diagnostic e)).

(** Writes an ErrorResponse, enters the drain mode and flushes. *)
Definition writeExtendedQueryError (e : goerror) : Act (option goerror) :=
  _ ← modify (set_discarding true);
  act_try (writeError e)
    (match fatalDiagnostic e with
     | Some _ => mret (Some (ESentinel errFatalDiagnosticSent))
     | None => flush
     end).

Definition preserveExtendedQueryError (e : goerror) (fallback : MTError) : goerror :=
  match errors_As_diag e with Some _ => e | None => EPg (NewWithDetail fallback (Error e)) end.

Definition queryContextError (canceled : bool) (e : goerror) : goerror :=
  match fatalDiagnostic e with
  | Some _ => e
  | None =>
      if canceled then EPg NewQueryCanceled
      else if errors_Is context_DeadlineExceeded e then EPg NewStatementTimeout
      else e
  end.

Definition ready_for_query : Act (option goerror) := fun c =>
  wr (writeReadyForQuery (txnStatus (c_session c))) c.

(** ** Results sent to the client *)

Definition reportParameterStatus (name value : string) : Act (option goerror) :=
  c ← get;
  if bool_decide (reportedParams c !! name = Some value) then mret None
  else
    act_try (wr (write_parameter_status name value))
      (_ ← modify (fun c => set_reported (<[name := value]> (reportedParams c)) c); mret None).

Fixpoint reportParameterStatuses (params : list (string * string)) : Act (option goerror) :=
  match params with
  | [] => mret None
  | (name, value) :: params' =>
      act_try (act_wrap "writing parameter status" (reportParameterStatus name value))
        (reportParameterStatuses params')
  end.

Fixpoint write_notices (notices : list PgDiagnostic) : Act (option goerror) :=
  match notices with
  | [] => mret None
  | d :: notices' =>
      act_try (act_wrap "writing notice response" (wr (writeNoticeResponse d)))
        (act_try (act_wrap "flushing notice response" flush) (write_notices notices'))
  end.

Fixpoint write_rows (rows : list Row) : Act (option goerror) :=
  match rows with
  | [] => mret None
  | row :: rows' => act_try (act_wrap "writing data row" (wr (writeDataRow row))) (write_rows rows')
  end.

Definition writeResultRows (r : Result) : Act (option goerror) :=
  match PassthroughBlock r with
  | Some block => act_wrap "writing raw data block" (wr (WriteRawMessage block))
  | None => write_rows (Rows r)
  end.

(** What the callback remembers: whether the row description was sent, and whether the
    last passthrough block ended inside a row. *)
Record cbstate := mkCbstate { sentRowDescription : bool; rowInProgress : bool }.

Definition no_data : Act (option goerror) := act_wrap "writing no data" (wr (writeMessage MsgNoData [])).

(** The callback of [handleQuery] ([simple]) and of [handleExecute] (with
    [includeDescribe]). *)
Definition result_callback (simple includeDescribe : bool) (st : cbstate) (r : option Result)
    : Act (option goerror * cbstate) :=
  let owed st := negb simple && includeDescribe && negb (sentRowDescription st) in
  match r with
  | None =>
      e ← act_try (if owed st then no_data else mret None) (wr writeEmptyQueryResponse);
      mret (e, st)
  | Some r =>
      e ← write_notices (Notices r);
      match e with Some _ => mret (e, st) | None =>
      let describe := match Fields r with Some _ => negb (sentRowDescription st) | None => false end in
      e ← (if describe
           then act_wrap "writing row description" (wr (writeRowDescription (default [] (Fields r))))
           else mret None);
      match e with Some _ => mret (e, st) | None =>
      let st := if describe then mkCbstate true (rowInProgress st) else st in
      e ← writeResultRows r;
      match e with Some _ => mret (e, st) | None =>
      let st := match PassthroughBlock r with
                | Some _ => mkCbstate (sentRowDescription st) (PassthroughRowInProgress r)
                | None => st
                end in
      let complete := negb (bool_decide (CommandTag r = "")) in
      e ← (if complete
           then act_try (if owed st then no_data else mret None)
                  (act_wrap "writing command complete" (wr (writeCommandComplete (CommandTag r))))
           else mret None);
      match e with Some _ => mret (e, st) | None =>
      let st := if complete && simple then mkCbstate false (rowInProgress st) else st in
      e ← reportParameterStatuses (ParameterStatus r);
      mret (e, st)
      end end end end
  end.

(** A streaming call of the handler: its error, whether a CancelRequest came in, and
    the callback's last state. *)
Fixpoint run_stream (cb : cbstate -> option Result -> Act (option goerror * cbstate)) (st : cbstate)
    (run : Run session) : Act (option goerror * bool * cbstate) :=
  match run with
  | Done e canceled s => _ ← modify (set_session s); mret (e, canceled, st)
  | Emit r k => '(e, st') ← cb st r; run_stream cb st' (k e)
  end.

(** ** The messages *)

Definition readQueryMessage : Act (gres string) :=
  r ← rd ReadMessageLength;
  match r with
  | inl e => mret (inl (EFmt "reading query length" e))
  | inr bodyLen =>
      if bodyLen <? 1 then mret (inl (EString ("invalid query message length: " +:+ Sprintf_d (bodyLen + 4))))
      else
        r ← readMessageBody bodyLen;
        match r with
        | inl e => mret (inl (EFmt "reading query body" e))
        | inr body =>
            _ ← returnReadBuffer;
            if bool_decide (last body = Some x00) then mret (inr (string_of (removelast body)))
            else mret (inl (EString "query string missing null terminator"))
        end
  end.

(** What each handler does once its message is parsed. *)
Definition query_action (queryStr : string) : Act (option goerror) :=
  c ← get;
  '(e, canceled, st) ← run_stream (result_callback true false) (mkCbstate false false)
                         (HandleQuery (c_session c) queryStr);
  match e with
  | None => ready_for_query
  | Some e =>
      let e := queryContextError canceled e in
      if rowInProgress st then mret (Some (EJoin (ESentinel errIncompleteDataRow) e))
      else act_try (writeError e)
             (match fatalDiagnostic e with
              | Some _ => mret (Some (ESentinel errFatalDiagnosticSent))
              | None => ready_for_query
              end)
  end.

Definition handleQuery : Act (option goerror) :=
  act_val "reading query message" readQueryMessage query_action.

Definition parse_action (stmtName queryStr : string) (paramTypes : list Z) : Act (option goerror) :=
  e ← call (fun s => HandleParse s stmtName queryStr paramTypes);
  match e with
  | Some e => writeExtendedQueryError (preserveExtendedQueryError e MTD04)
  | None => wr (writeMessage MsgParseComplete [])
  end.

Definition handleParse : Act (option goerror) :=
  with_body "Parse" "failed to read Parse message body" (fun body =>
  match parse_body parse_Parse body with
  | inl d => writeExtendedQueryError (EPg d)
  | inr (stmtName, queryStr, paramTypes) => parse_action stmtName queryStr paramTypes
  end).

Definition bind_action (args : BindArgs) : Act (option goerror) :=
  e ← call (fun s => HandleBind s args);
  match e with
  | Some e => writeExtendedQueryError (preserveExtendedQueryError e MTD05)
  | None => wr (writeMessage MsgBindComplete [])
  end.

Definition handleBind : Act (option goerror) :=
  with_body "Bind" "failed to read Bind message body" (fun body =>
  match parse_body parse_Bind body with
  | inl d => writeExtendedQueryError (EPg d)
  | inr args => bind_action args
  end).

(** RowDescription, or NoData when there are no fields. *)
Definition write_description (fields : option (list Field)) : Act (option goerror) :=
  match fields with Some fs => wr (writeRowDescription fs) | None => wr (writeMessage MsgNoData []) end.

Definition resolveDeferredPortalDescribe : Act (option goerror) :=
  c ← get;
  match deferredPortalDescribe c with
  | None => mret None
  | Some name =>
      _ ← modify (set_deferred None);
      r ← call (fun s => HandleDescribe s "P" name);
      match r with
      | inl e => writeExtendedQueryError (preserveExtendedQueryError e MTD06)
      | inr desc => write_description (desc ≫= sd_Fields)
      end
  end.

(** The portal is executed; [includeDescribe] folds a held Describe into the call. *)
Definition execute_portal (portalName : string) (maxRows : Z) (includeDescribe : bool) : Act (option goerror) :=
  c ← get;
  '(e, canceled, st) ← run_stream (result_callback false includeDescribe) (mkCbstate false false)
                         (HandleExecute (c_session c) portalName maxRows includeDescribe);
  match e with
  | None => mret None
  | Some e =>
      let e := queryContextError canceled e in
      if rowInProgress st then mret (Some (EJoin (ESentinel errIncompleteDataRow) e))
      else writeExtendedQueryError e
  end.

(** With the Describe held back for the portal folded in, if there is one. *)
Definition execute_action (portalName : string) (maxRows : Z) : Act (option goerror) :=
  c ← get;
  match deferredPortalDescribe c with
  | None => execute_portal portalName maxRows false
  | Some name =>
      if bool_decide (name = portalName)
      then _ ← modify (set_deferred None); execute_portal portalName maxRows true
      else act_try resolveDeferredPortalDescribe
             (c ← get;
              if discardingUntilSync c then mret None else execute_portal portalName maxRows false)
  end.

Definition handleExecute : Act (option goerror) :=
  with_body "Execute" "failed to read Execute message body" (fun body =>
  match parse_body parse_Execute body with
  | inl d => writeExtendedQueryError (EPg d)
  | inr (portalName, maxRows) => execute_action portalName maxRows
  end).

(** A nil description of a statement is dereferenced: a panic. *)
Definition describe_action (typ : byte) (name : string) : Act (option goerror) :=
  if bool_decide (typ = "P"%byte) then _ ← modify (set_deferred (Some name)); mret None
  else
    _ ← startWriterBuffering;
    e ← (r ← call (fun s => HandleDescribe s typ name);
         match r with
         | inl e => writeExtendedQueryError (preserveExtendedQueryError e MTD06)
         | inr None => fun _ => None
         | inr (Some desc) =>
             act_try (act_wrap "failed to write parameter description"
                        (wr (writeParameterDescription (sd_Parameters desc))))
               (write_description (sd_Fields desc))
         end);
    _ ← endWriterBuffering;
    mret e.

Definition handleDescribe : Act (option goerror) :=
  with_body "Describe" "failed to read describe body" (fun body =>
  match parse_body parse_Describe body with
  | inl d => writeExtendedQueryError (EPg d)
  | inr (typ, name) => describe_action typ name
  end).

Definition close_action (typ : byte) (name : string) : Act (option goerror) :=
  e ← call (fun s => HandleClose s typ name);
  match e with
  | Some e => writeExtendedQueryError (EPg (NewWithDetail MTD07 (Error e)))
  | None => wr (writeMessage MsgCloseComplete [])
  end.

Definition handleClose : Act (option goerror) :=
  with_body "Close" "failed to read close body" (fun body =>
  match parse_body parse_Close body with
  | inl d => writeExtendedQueryError (EPg d)
  | inr (typ, name) => close_action typ name
  end).

Definition sync_action : Act (option goerror) :=
  e ← call HandleSync;
  act_try (match e with
           | Some e => writeError (EPg (NewWithDetail MTD08 (Error e)))
           | None => mret None
           end)
    ready_for_query.

Definition handleSync : Act (option goerror) :=
  act_val "failed to read Sync message length" (rd ReadMessageLength) (fun bodyLen =>
  if negb (bodyLen =? 0) then
    act_val "failed to read Sync message body" (readMessageBody bodyLen) (fun _ =>
    _ ← returnReadBuffer;
    act_try (writeError (EPg (protocolViolation "invalid Sync message"
               (Some (EString ("expected empty body, got " +:+ Sprintf_d bodyLen +:+ " bytes"))))))
      ready_for_query)
  else sync_action).

Definition handleFlush : Act (option goerror) :=
  act_val "failed to read Flush message length" (rd ReadMessageLength) (fun bodyLen =>
  if negb (bodyLen =? 0) then
    act_val "failed to read Flush message body" (readMessageBody bodyLen) (fun _ =>
    _ ← returnReadBuffer;
    writeExtendedQueryError (EPg (protocolViolation "invalid Flush message"
      (Some (EString ("expected empty body, got " +:+ Sprintf_d bodyLen +:+ " bytes"))))))
  else flush).

(** [bufferedReader.Discard]: what there is is consumed. *)
Definition Discard (n : nat) (i : Input) : gres unit * Input :=
  if (n <=? length (inp i))%nat then (inr tt, set_inp i (drop n (inp i)))
  else (inl (ESentinel (inp_err i)), set_inp i []).

Definition discardMessageBody : Act (option goerror) :=
  r ← rd ReadMessageLength;
  match r with
  | inl e => mret (Some e)
  | inr bodyLen =>
      if bodyLen =? 0 then mret None
      else r ← rd (Discard (Z.to_nat bodyLen)); mret (match r with inl e => Some e | inr _ => None end)
  end.

Definition handleFunctionCall : Act (option goerror) :=
  act_try (act_wrap "failed to discard unsupported FunctionCall message" discardMessageBody)
    (act_try (writeError (EGatewayRejection (NewPgError "ERROR" PgSSFeatureNotSupported
                            "fast-path function call protocol is not supported" "")))
       ready_for_query).

Definition drainExtendedQueryMessage : Act (option goerror) :=
  act_val "read length while draining" (rd ReadMessageLength) (fun bodyLen =>
  act_val "read body while draining" (readMessageBody bodyLen) (fun _ =>
  _ ← returnReadBuffer; mret None)).

(** A Flush that is drained still flushes. *)
Definition drain_flush : Act (option goerror) :=
  act_val "failed to read Flush message length" (rd ReadMessageLength) (fun bodyLen =>
  if negb (bodyLen =? 0)
  then act_val "failed to read Flush message body" (readMessageBody bodyLen)
         (fun _ => _ ← returnReadBuffer; flush)
  else flush).

(** [Some e]: the message was absorbed, with error [e]. *)
Definition maybeDispatchDrain (msgType : byte) : Act (option (option goerror)) :=
  c ← get;
  if negb (discardingUntilSync c) then mret None
  else if bool_decide (msgType = MsgSync) then _ ← modify (set_discarding false); mret None
  else if bool_decide (msgType = MsgTerminate) then mret None
  else if bool_decide (msgType = MsgFlush) then
    e ← drain_flush; mret (Some e)
  else e ← drainExtendedQueryMessage; mret (Some e).

(** [if handled, err := c.maybeDispatchDrain(msgType); handled { return err }]. *)
Definition unless_drained (msgType : byte) (k : Act (option goerror)) : Act (option goerror) :=
  h ← maybeDispatchDrain msgType; match h with Some e => mret e | None => k end.

Definition dispatch (msgType : byte) : Act (option goerror) :=
  if bool_decide (msgType = MsgQuery) then handleQuery
  else if bool_decide (msgType = MsgParse) then handleParse
  else if bool_decide (msgType = MsgBind) then handleBind
  else if bool_decide (msgType = MsgDescribe) then handleDescribe
  else if bool_decide (msgType = MsgClose) then handleClose
  else if bool_decide (msgType = MsgSync) then handleSync
  else if bool_decide (msgType = MsgFlush) then handleFlush
  else if bool_decide (msgType = MsgFunctionCall) then handleFunctionCall
  else mret (Some (EString ("unsupported message type: " +:+ Sprintf_c msgType +:+ " (0x" +:+ Sprintf_02x msgType +:+ ")"))).

Definition handleMessage (msgType : byte) : Act (option goerror) :=
  unless_drained msgType
    (if bool_decide (msgType = MsgExecute) then handleExecute
     else if bool_decide (msgType = MsgTerminate) then mret (Some (ESentinel io_EOF))
     else act_try resolveDeferredPortalDescribe (unless_drained msgType (dispatch msgType))).

(** ** The command loop *)

Definition handleIdleSessionTimeout : Act unit :=
  _ ← startWriterBuffering;
  _ ← wr (writePgDiagnosticResponse MsgErrorResponse NewIdleSessionTimeout);
  _ ← endWriterBuffering;
  mret tt.

Definition idle_timeout_armed (waitingForCommand : bool) (s : session) : bool :=
  waitingForCommand && bool_decide (txnStatus s = TxnStatusIdle) && (0 <? IdleSessionTimeout s).

(** What a round does with the outcome of its message. *)
Definition finish_round (msgType : byte) (e : option goerror) : Act (option goerror + bool) :=
  match e with
  | Some e =>
      if errors_Is io_EOF e then mret (inl None)
      else if errors_Is errFatalDiagnosticSent e then _ ← endWriterBuffering; mret (inl None)
      else if errors_Is errIncompleteDataRow e || errors_Is errFrontendMessageTooLarge e
      then _ ← abortWriterBuffering; mret (inl (Some e))
      else
        _ ← writeError (EPg (NewWithDetail MTD03 (Error e)));
        _ ← ready_for_query;
        _ ← endWriterBuffering;
        mret (inl (Some e))
  | None =>
      c ← get;
      let isBatchBoundary := bool_decide (msgType = MsgSync) || bool_decide (msgType = MsgFunctionCall) ||
                             (bool_decide (msgType = MsgQuery) && negb (discardingUntilSync c)) in
      if isBatchBoundary then
        e ← endWriterBuffering;
        match e with Some e => mret (inl (Some e)) | None => mret (inr true) end
      else mret (inr false)
  end.

(** One round: [inl e] ends the loop with error [e], [inr b] goes on waiting for a new
    command if [b]. *)
Definition serve_round (waitingForCommand : bool) : Act (option goerror + bool) :=
  c ← get;
  let armed := idle_timeout_armed waitingForCommand (c_session c) in
  r ← rd readMessageType;
  match r with
  | inl e =>
      if armed && errors_Is net_timeout e then _ ← handleIdleSessionTimeout; mret (inl None)
      else if errors_Is io_EOF e then mret (inl None)
      else mret (inl (Some e))
  | inr msgType =>
      _ ← startWriterBuffering;
      e ← handleMessage msgType;
      finish_round msgType e
  end.

(** The loop; a round consumes at least the type of a message, so one round more than
    there are bytes is enough.  The result is [serve]'s error. *)
Fixpoint serve_loop (fuel : nat) (waitingForCommand : bool) : Act (option (option goerror)) :=
  match fuel with
  | O => mret None
  | S fuel' =>
      r ← serve_round waitingForCommand;
      match r with inl e => mret (Some e) | inr w => serve_loop fuel' w end
  end.

Definition serve : Act (option (option goerror)) := fun c =>
  serve_loop (S (length (inp (c_in c)))) true c.

End conn.
