(* ===== verification/ServerDemo.v ===== *)
(** A small query handler and a connection of it, on which the theorems about server
    connections are instantiated. *)

From Stdlib Require Import Strings.Byte.
From stdpp Require Import base numbers list gmap strings.
From S2P Require Import Prelude.
From S2P Require Import Bytes.
From S2P Require Import Diagnostics.
From S2P Require Import BufPool.
From S2P Require Import Wire.
From S2P Require Import WireFacts.
From S2P Require Import WireMessages.
From S2P Require Import WireRequests.
From S2P Require Import ServerConn.

Local Open Scope Z_scope.

Definition demo_field : Field := mkField "n" "int4" 0 0 23 4 (-1) 0.
Definition demo_result : Result :=
  mkResult (Some [demo_field]) [[Some (bytes_of "1")]] None false "SELECT 1" [] [("TimeZone", "UTC")].
Definition demo_error : goerror := EPg (NewPgError "ERROR" "42P01" "no such table" "").

(** Every query yields a row, except one; there is one prepared statement, whose
    portals are only missing when their name says so. *)
Definition demo_handler : Handler := {|
  session := unit;
  txnStatus _ := TxnStatusIdle;
  HandleQuery _ q :=
    if bool_decide (q = "fail") then Done (Some demo_error) false tt else Emit (Some demo_result) (fun e => Done e false tt);
  HandleParse _ _ q _ := (if bool_decide (q = "fail") then Some demo_error else None, tt);
  HandleBind _ _ := (None, tt);
  HandleExecute _ _ _ _ := Emit (Some demo_result) (fun e => Done e false tt);
  HandleDescribe _ _ name :=
    (if bool_decide (name = "missing") then inl demo_error
     else inr (Some (mkStatementDescription [] (Some [demo_field]))), tt);
  HandleClose _ _ _ := (None, tt);
  HandleSync _ := (None, tt);
  IdleSessionTimeout _ := 0
|}.

(** A connection about to serve [input]. *)
Definition demo_conn (input : list byte) : @Conn bucket_pool demo_handler :=
  @mkConn bucket_pool demo_handler (mkInput input io_EOF) None
    (mkWSide None None false (Some (demo_pool, [])) (mkNet [] [])) (replicate 64 x00) tt ∅ None false.

Definition demo_bind : BindArgs := mkBindArgs "p" "s" [] [] [].
Definition demo_requests : list request :=
  [RParse "s" "select 1" []; RBind demo_bind; RDescribe "P" "p"; RExecute "p" 0; RSync; RQuery "fail"; RTerminate].
Definition demo_frames : list (byte * list byte) := (fun q => (request_type q, request_body q)) <$> demo_requests.

Lemma demo_described s name s' : @HandleDescribe demo_handler s "S" name <> (inr None, s').
Proof. cbn. by case_bool_decide. Qed.
