(* ===== verification/ServerTotal.v ===== *)
(** The command loop of a server connection is total: whatever the client sends,
    whatever the handler answers and however the network fails, it neither panics nor
    loops, and it gives its pool buffers back. *)

From Stdlib Require Import Strings.Byte.
From stdpp Require Import base numbers list gmap strings.
From S2P Require Import Prelude.
From S2P Require Import Bytes.
From S2P Require Import Diagnostics.
From S2P Require Import BufPool.
From S2P Require Import Wire.
From S2P Require Import WireFacts.
From S2P Require Import WireMessages.
From S2P Require Import WireRequests.
From S2P Require Import ServerConn.
From S2P Require Import ServerDemo.

Local Open Scope Z_scope.

Section total.
Context {BP : BufferPool} {H : Handler}.

(** The write side is in order, and a buffer held for reading is on loan. *)
Record conn_ok (c : Conn) : Prop := {
  ok_ws : wside_ok (c_ws c);
  ok_inbound : from_option (lends (c_ws c)) True (inboundPoolBuf c)
}.

Definition left (c : Conn) : nat := length (inp (c_in c)).

(** [m] returns, keeps the connection in order and puts no input back. *)
Definition total {A} (m : Act A) : Prop :=
  forall c, conn_ok c -> exists a c', m c = Some (a, c') /\ conn_ok c' /\ (left c' <= left c)%nat.

Create HintDb total.

Lemma total_ret {A} (a : A) : total (mret a).
Proof. intros c Hc. by exists a, c. Qed.

Lemma total_bind {A B} (m : Act A) (f : A -> Act B) : total m -> (forall a, total (f a)) -> total (m ≫= f).
Proof.
  intros Hm Hf c Hc. destruct (Hm c Hc) as (a & c1 & E1 & Hc1 & Hl1).
  destruct (Hf a c1 Hc1) as (b & c2 & E2 & Hc2 & Hl2). exists b, c2. split_and!; [|done|lia].
  unfold mbind, act_bind. by rewrite E1.
Qed.

Lemma total_get : total get.
Proof. intros c Hc. by exists c, c. Qed.

(** A change of what the protocol keeps, apart from input and buffers. *)
Lemma total_modify f :
  (forall c, c_ws (f c) = c_ws c /\ inboundPoolBuf (f c) = inboundPoolBuf c /\ c_in (f c) = c_in c) ->
  total (modify f).
Proof.
  intros Hf c [Hw Hb]. destruct (Hf c) as (E1 & E2 & E3). exists tt, (f c). split_and!; [done| |].
  - constructor; by rewrite E1, ?E2.
  - unfold left. by rewrite E3.
Qed.

Lemma total_call {A} (f : session -> A * session) : total (call f).
Proof.
  intros c [Hw Hb]. unfold call. destruct (f (c_session c)) as [a s]. eexists _, _. split_and!; [done|by constructor|done].
Qed.

Lemma total_rd {A} (m : Input -> gres A * Input) :
  (forall i, length (inp (m i).2) <= length (inp i))%nat -> total (rd m).
Proof.
  intros Hm c [Hw Hb]. unfold rd. destruct (m (c_in c)) as [r i] eqn:E. eexists _, _.
  split_and!; [done|by constructor|]. specialize (Hm (c_in c)). rewrite E in Hm. exact Hm.
Qed.

Lemma total_wr m ty body : sends m ty body -> total (wr m).
Proof.
  intros Hm c [Hw Hb]. unfold wr. destruct (Hm (c_ws c) Hw) as (e & ws & -> & [Hok Hl _ _ _ _ _]). cbn.
  eexists _, _. split_and!; [done| |done]. constructor; cbn; [done|]. destruct (inboundPoolBuf c); cbn in *; auto.
Qed.

Lemma total_raw raw : total (wr (WriteRawMessage raw)).
Proof.
  intros c [Hw Hb]. unfold wr. destruct (WriteRawMessage_sends raw (c_ws c) Hw) as (e & ws & -> & [Hok Hl _ _ _ _ _]). cbn.
  eexists _, _. split_and!; [done| |done]. constructor; cbn; [done|]. destruct (inboundPoolBuf c); cbn in *; auto.
Qed.

(** A method that only touches the writer, under the lock. *)
Lemma total_writer {A} (m : Act A) :
  (forall c, bufMu (c_ws c) = false -> from_option writer_ok True (bufferedWriter (c_ws c)) ->
    exists a w n, m c = Some (a, set_ws (mkWSide w (outboundPoolBuf (c_ws c)) false (bufPool (c_ws c)) n) c) /\
      from_option writer_ok True w) ->
  total m.
Proof.
  intros Hm c [[Hmu Hloan Hp Hw] Hb]. destruct (Hm c Hmu Hw) as (a & w & n & -> & Hw'). eexists _, _.
  split_and!; [done| |done]. constructor; [by constructor|]. cbn. by destruct (inboundPoolBuf c).
Qed.

Lemma total_startWriterBuffering : total startWriterBuffering.
Proof.
  apply total_writer. intros c Hmu Hw. unfold startWriterBuffering, lock. rewrite Hmu. cbn.
  eexists _, _, _. split; [done|]. destruct (bufferedWriter (c_ws c)); [done|]. cbn. unfold writer_ok. cbn. lia.
Qed.

Lemma total_flush : total flush.
Proof.
  apply total_writer. intros c Hmu Hw. unfold flush, lock. rewrite Hmu. cbn.
  destruct (bufferedWriter (c_ws c)) as [w|] eqn:E; cbn; [|by eexists _, _, _].
  destruct (bufio_Flush w (net (c_ws c))) as [[e w'] n'] eqn:Ef.
  destruct (Flush_ok _ _ _ _ _ Ef Hw) as (_ & Hok & _). by eexists _, _, _.
Qed.

Lemma total_endWriterBuffering : total endWriterBuffering.
Proof.
  apply total_writer. intros c Hmu Hw. unfold endWriterBuffering, lock. rewrite Hmu. cbn.
  destruct (bufferedWriter (c_ws c)) as [w|] eqn:E; cbn; [|by eexists _, _, _].
  destruct (bufio_Flush w (net (c_ws c))) as [[e w'] n'] eqn:Ef. by eexists _, None, _.
Qed.

Lemma total_abortWriterBuffering : total abortWriterBuffering.
Proof.
  apply total_writer. intros c Hmu Hw. unfold abortWriterBuffering, lock. rewrite Hmu. cbn. by eexists _, None, _.
Qed.

Lemma total_returnReadBuffer : total returnReadBuffer.
Proof.
  intros c Hc. pose proof Hc as [[Hmu Hloan Hp Hw] Hb]. unfold returnReadBuffer. unfold lends in Hb.
  destruct (inboundPoolBuf c) as [b|] eqn:Eb; cbn in Hb; [|by exists tt, c].
  destruct (bufPool (c_ws c)) as [p|] eqn:Ep; [|done]. cbn in Hb, Hp.
  destruct (pool_Put_ok p b Hp Hb) as (p' & -> & Hinv & _). eexists _, _. split_and!; [done| |done]. by constructor.
Qed.

(** The part of [readMessageBody] that borrows a buffer. *)
Lemma total_borrow length :
  0 <= length ->
  total (fun c => match bufPool (c_ws c) with
                  | Some p => '(b, p') ← pool_Get p length; Some (tt, set_inbound (Some b) (Some p') c)
                  | None => Some (tt, c)
                  end).
Proof.
  intros Hl c Hc. pose proof Hc as [[Hmu Hloan Hp Hw] Hb]. destruct (bufPool (c_ws c)) as [p|] eqn:Ep; [|by exists tt, c].
  destruct (pool_Get_ok p length Hp Hl) as (b & p' & -> & _ & Hinv & Hlo & _). cbn.
  eexists _, _. split_and!; [done| |done]. by constructor.
Qed.

Lemma ReadFull_left n i : (length (inp (ReadFull n i).2) <= length (inp i))%nat.
Proof. unfold ReadFull. destruct (_ <=? _)%nat; cbn; rewrite ?length_drop; lia. Qed.

Lemma ReadMessageLength_left i : (length (inp (ReadMessageLength i).2) <= length (inp i))%nat.
Proof.
  unfold ReadMessageLength, readMessageLength, read_uint32. destruct (_ <? _)%nat; [done|].
  destruct (_ <? 4); [cbn; rewrite length_drop; lia|]. destruct (_ <? _); cbn; rewrite length_drop; lia.
Qed.

Lemma readMessageType_left i : (length (inp (readMessageType i).2) <= length (inp i))%nat.
Proof. unfold readMessageType. destruct (inp i) eqn:E; cbn; rewrite ?E; cbn; lia. Qed.

Lemma Discard_left n i : (length (inp (Discard n i).2) <= length (inp i))%nat.
Proof. unfold Discard. destruct (_ <=? _)%nat; cbn; rewrite ?length_drop; lia. Qed.

(** A length that was read is not negative. *)
Lemma ReadMessageLength_nonneg i n i' : ReadMessageLength i = (inr n, i') -> 0 <= n <= MaxFrontendMessageBodyLength.
Proof.
  unfold ReadMessageLength, readMessageLength, read_uint32. intros E.
  split_ifs; simplify_eq. reflect_bools. lia.
Qed.

Hint Resolve total_ret total_bind total_get total_call total_raw total_startWriterBuffering total_flush
  total_endWriterBuffering total_abortWriterBuffering total_returnReadBuffer : total.
Hint Extern 1 (total (modify _)) => (apply total_modify; by intros []) : total.
Hint Extern 1 (total (rd ReadMessageLength)) => (apply total_rd, ReadMessageLength_left) : total.
Hint Extern 1 (total (rd (ReadFull _))) => (apply total_rd; intros; apply ReadFull_left) : total.
Hint Extern 1 (total (rd (Discard _))) => (apply total_rd; intros; apply Discard_left) : total.
Hint Extern 1 (total (rd readMessageType)) => (apply total_rd, readMessageType_left) : total.
Hint Extern 1 (total (wr _)) => (eapply total_wr; first
  [apply writePgDiagnosticResponse_sends | apply writeReadyForQuery_sends | apply writeRowDescription_sends
  |apply writeDataRow_sends | apply writeCommandComplete_sends | apply writeEmptyQueryResponse_sends
  |apply write_parameter_status_sends | apply writeParameterDescription_sends | apply writeMessage_sends
  |apply writeNotificationResponseMsg_sends]) : total.

Lemma total_try m k : total m -> total k -> total (act_try m k).
Proof. intros Hm Hk. apply total_bind; [done|]. intros [e|]; auto with total. Qed.
Lemma total_wrap msg m : total m -> total (act_wrap msg m).
Proof. intros Hm. apply total_bind; auto with total. Qed.
Lemma total_val {A} msg (m : Act (gres A)) k : total m -> (forall a, total (k a)) -> total (act_val msg m k).
Proof. intros Hm Hk. apply total_bind; [done|]. intros [e|a]; auto with total. Qed.

(** Follows the structure of a method. *)
Ltac total_step :=
  match goal with
  | |- total (_ ≫= _) => apply total_bind; [|intros ?]
  | |- total (match ?x with _ => _ end) => destruct x
  | |- total (let _ := _ in _) => cbv zeta
  | |- total (act_try _ _) => apply total_try
  | |- total (act_wrap _ _) => apply total_wrap
  | |- total (act_val _ (readMessageBody _) _) => apply total_val; [|intros ?]
  | _ => solve [auto with total]
  end.
Ltac total_tac := repeat total_step.

Hint Resolve total_try total_wrap total_val : total.

Lemma total_readMessageBody n : 0 <= n -> total (readMessageBody n).
Proof. intros. unfold readMessageBody. pose proof (total_borrow n). total_tac. Qed.

(** What follows the reading of a length may rely on its range. *)
Lemma total_length_bind {B} (f : gres Z -> Act B) :
  (forall e, total (f (inl e))) -> (forall n, 0 <= n -> total (f (inr n))) -> total (rd ReadMessageLength ≫= f).
Proof.
  intros He Hn c Hc. destruct (total_rd ReadMessageLength ReadMessageLength_left c Hc) as (r & c1 & E1 & Hc1 & Hl1).
  assert (total (f r)) as Hf.
  { destruct r as [e|n]; [apply He|]. apply Hn. unfold rd in E1.
    destruct (ReadMessageLength (c_in c)) as [r i] eqn:E. simplify_eq. by apply ReadMessageLength_nonneg in E as [? _]. }
  destruct (Hf c1 Hc1) as (b & c2 & E2 & Hc2 & Hl2). exists b, c2. split_and!; [|done|lia].
  unfold mbind, act_bind. by rewrite E1.
Qed.

Lemma total_length msg k : (forall n, 0 <= n -> total (k n)) -> total (act_val msg (rd ReadMessageLength) k).
Proof. intros Hk. unfold act_val. apply total_length_bind; [intros; total_tac|done]. Qed.

Hint Resolve total_readMessageBody total_length : total.

Lemma total_with_body what body_what k : (forall body, total (k body)) -> total (with_body what body_what k).
Proof.
  intros Hk. unfold with_body. apply total_length. intros n Hn. apply total_val; [auto with total|]. intros body. total_tac.
Qed.

Lemma total_writeExtendedQueryError e : total (writeExtendedQueryError e).
Proof. unfold writeExtendedQueryError, writeError. total_tac. Qed.

Lemma total_ready_for_query : total ready_for_query.
Proof. intros c Hc. unfold ready_for_query. eapply total_wr; [apply writeReadyForQuery_sends|done]. Qed.

Lemma total_writeError e : total (writeError e).
Proof. unfold writeError. auto with total. Qed.

Hint Resolve total_with_body total_writeExtendedQueryError total_ready_for_query total_writeError : total.

Lemma total_report params : total (reportParameterStatuses params).
Proof.
  induction params as [|[name value] params IH]; cbn [reportParameterStatuses]; [auto with total|].
  apply total_try; [|done]. apply total_wrap. unfold reportParameterStatus. total_tac.
Qed.

Lemma total_notices ds : total (write_notices ds).
Proof.
  induction ds as [|d ds IH]; cbn [write_notices]; [auto with total|]. unfold writeNoticeResponse.
  apply total_try; [auto with total|]. apply total_try; auto with total.
Qed.

Lemma total_rows rows : total (write_rows rows).
Proof. induction rows as [|row rows IH]; cbn [write_rows]; auto with total. Qed.

Lemma total_result_rows r : total (writeResultRows r).
Proof. unfold writeResultRows. pose proof (total_rows (Rows r)). total_tac. Qed.

Lemma total_no_data : total no_data.
Proof. unfold no_data. auto with total. Qed.

Hint Resolve total_report total_notices total_result_rows total_no_data : total.

Lemma total_callback simple includeDescribe st r : total (result_callback simple includeDescribe st r).
Proof. unfold result_callback. total_tac. Qed.

Lemma total_run_stream cb st run : (forall st r, total (cb st r)) -> total (run_stream cb st run).
Proof.
  intros Hcb. revert st. induction run as [e canceled s|r k IH]; intros st; cbn [run_stream]; [total_tac|].
  apply total_bind; [done|]. intros [e st']. apply IH.
Qed.

Hint Resolve total_callback total_run_stream : total.

Lemma total_write_description fs : total (write_description fs).
Proof. unfold write_description. total_tac. Qed.

Lemma total_readQueryMessage : total readQueryMessage.
Proof. unfold readQueryMessage. apply total_length_bind; [auto with total|]. intros n Hn. total_tac. Qed.

Hint Resolve total_write_description total_readQueryMessage : total.

Lemma total_handleQuery : total handleQuery.
Proof. unfold handleQuery, query_action. apply total_val; [auto with total|]. intros q. total_tac. Qed.

Lemma total_resolve : total resolveDeferredPortalDescribe.
Proof. unfold resolveDeferredPortalDescribe. total_tac. Qed.

Lemma total_execute_portal portal n d : total (execute_portal portal n d).
Proof. unfold execute_portal. total_tac. Qed.

Hint Resolve total_handleQuery total_resolve total_execute_portal : total.

Lemma total_handleParse : total handleParse.
Proof. apply total_with_body. intros body. unfold parse_action. total_tac. Qed.

Lemma total_handleBind : total handleBind.
Proof. apply total_with_body. intros body. unfold bind_action. total_tac. Qed.

Lemma total_handleExecute : total handleExecute.
Proof. apply total_with_body. intros body. unfold execute_action. total_tac. Qed.

Lemma total_handleClose : total handleClose.
Proof. apply total_with_body. intros body. unfold close_action. total_tac. Qed.

Lemma total_handleSync : total handleSync.
Proof.
  unfold handleSync, sync_action. apply total_length. intros n Hn. total_tac.
Qed.

Lemma total_handleFlush : total handleFlush.
Proof. unfold handleFlush. apply total_length. intros n Hn. total_tac. Qed.

Lemma total_handleFunctionCall : total handleFunctionCall.
Proof.
  unfold handleFunctionCall, discardMessageBody. total_tac.
Qed.

Lemma total_drain : total drainExtendedQueryMessage.
Proof.
  unfold drainExtendedQueryMessage. apply total_length. intros n Hn. apply total_val; [auto with total|].
  intros b. total_tac.
Qed.

Hint Resolve total_handleParse total_handleBind total_handleExecute total_handleClose total_handleSync
  total_handleFlush total_handleFunctionCall total_drain : total.

Lemma total_maybeDispatchDrain ty : total (maybeDispatchDrain ty).
Proof.
  unfold maybeDispatchDrain, drain_flush. total_tac. apply total_length. intros n Hn. total_tac.
Qed.

(** A described statement has a description. *)
Context (Hdesc : forall s name s', HandleDescribe s "S" name <> (inr None, s')).

Lemma total_handleDescribe : total handleDescribe.
Proof.
  apply total_with_body. intros body. unfold describe_action. destruct (parse_body parse_Describe body) as [d|[typ name]] eqn:E; [total_tac|].
  case_bool_decide as Ht; [total_tac|].
  destruct (parse_target_type _ _ _ _ _ E) as [-> | ->]; [|done].
  apply total_bind; [auto with total|intros _]. apply total_bind; [|intros e; total_tac].
  intros c Hc. pose proof (total_call (fun s => HandleDescribe s "S" name) c Hc) as (r & c1 & E1 & Hc1 & Hl1).
  assert (r <> inr None) as Hr.
  { intros ->. unfold call in E1. destruct (HandleDescribe _ _ _) as [r s] eqn:Eh. simplify_eq. by eapply Hdesc. }
  match goal with |- context [mbind ?f _] => assert (total (f r)) as Hf end.
  { destruct r as [e|[desc|]]; [total_tac..|done]. }
  destruct (Hf c1 Hc1) as (e & c2 & E2 & Hc2 & Hl2). exists e, c2. split_and!; [|done|lia].
  unfold mbind, act_bind. by rewrite E1.
Qed.

Hint Resolve total_maybeDispatchDrain total_handleDescribe : total.

Lemma total_handleMessage ty : total (handleMessage ty).
Proof. unfold handleMessage, unless_drained, dispatch. total_tac. Qed.

Hint Resolve total_handleMessage : total.

(** A round that goes on has consumed the type of a message. *)
Lemma serve_round_progress waiting c :
  conn_ok c ->
  exists r c', serve_round waiting c = Some (r, c') /\ conn_ok c' /\
    match r with inl _ => True | inr _ => (left c' < left c)%nat end.
Proof.
  intros Hc. unfold serve_round, finish_round. unfold mbind at 1, act_bind at 1, get. cbn [mbind option_bind].
  unfold mbind at 1, act_bind at 1, rd. unfold readMessageType.
  destruct (inp (c_in c)) as [|ty l] eqn:Ei.
  - cbn [mbind option_bind fst snd].
    match goal with |- exists r c', ?m ?c0 = _ /\ _ => assert (total m) as Hm end.
    { unfold handleIdleSessionTimeout. total_tac. }
    destruct (Hm (set_in (c_in c) c)) as (r & c' & E & Hc' & _); [by destruct Hc; constructor|].
    exists r, c'. split_and!; [exact E|done|]. destruct r; [done|].
    exfalso. revert E. unfold mbind, act_bind, mret, act_ret. intros E. destruct (idle_timeout_armed _ _ && _).
    + destruct (handleIdleSessionTimeout _) as [[? ?]|]; cbn in E; simplify_eq.
    + destruct (errors_Is io_EOF _); cbn in E; simplify_eq.
  - cbn [mbind option_bind fst snd].
    match goal with |- exists r c', ?m ?c0 = _ /\ _ => assert (total m) as Hm end.
    { total_tac. }
    destruct (Hm (set_in (set_inp (c_in c) l) c)) as (r & c' & E & Hc' & Hl); [by destruct Hc; constructor|].
    exists r, c'. split_and!; [exact E|done|]. destruct r; [done|]. unfold left in *. cbn in Hl. rewrite Ei. cbn. lia.
Qed.

Lemma serve_loop_total fuel waiting c :
  conn_ok c -> (left c < fuel)%nat -> exists e c', serve_loop fuel waiting c = Some (Some e, c') /\ conn_ok c'.
Proof.
  revert waiting c. induction fuel as [|fuel IH]; intros waiting c Hc Hf; [lia|]. cbn [serve_loop].
  destruct (serve_round_progress waiting c Hc) as (r & c1 & E & Hc1 & Hl). unfold mbind, act_bind. rewrite E.
  cbn [option_bind]. destruct r as [e|w]; [by exists e, c1|]. apply IH; [done|lia].
Qed.

(** C33: The command loop ends: whatever bytes the client sends, whatever the handler
    answers and however writing to the network fails, [serve] returns without a panic
    (provided a statement that is described without an error has a description), with
    its mutex released and its borrowed buffers accounted for. *)
Theorem serve_terminates c :
  conn_ok c -> exists e c', serve c = Some (Some e, c') /\ conn_ok c'.
Proof. intros Hc. apply serve_loop_total; [done|]. unfold left. lia. Qed.
End total.

Lemma demo_conn_ok input : conn_ok (demo_conn input).
Proof. constructor; [constructor; cbn; [done|done|exact demo_pool_ok|done]|done]. Qed.

Lemma serve_terminates_witness :
  exists e c', @serve bucket_pool demo_handler (demo_conn (concat (request_bytes <$> demo_requests))) = Some (Some e, c') /\
    conn_ok c'.
Proof. apply serve_terminates; [apply demo_described|apply demo_conn_ok]. Defined.
