(* ===== verification/ServerRuns.v ===== *)
(** Runs of a server connection over a working network: what it writes, as frames, and
    what is left of the protocol state, as a triple logic over [Conn].  The streaming
    callbacks send reply frames only, if the blocks of rows passed through are the
    bytes of DataRow frames, in pieces of any size. *)

From Stdlib Require Import Strings.Byte.
From stdpp Require Import base numbers list gmap strings.
From S2P Require Import Prelude.
From S2P Require Import Bytes.
From S2P Require Import Diagnostics.
From S2P Require Import BufPool.
From S2P Require Import Wire.
From S2P Require Import WireFacts.
From S2P Require Import WireMessages.
From S2P Require Import WireRequests.
From S2P Require Import ServerConn.
From S2P Require Import ServerDemo.
From S2P Require Import ServerTotal.

Local Open Scope Z_scope.

(** ** Output *)

(** A frame, or a piece of one. *)
Inductive chunk :=
| ChFrame (ty : byte) (body : list byte)
| ChRaw (raw : list byte).

Definition chunk_bytes (ch : chunk) : list byte :=
  match ch with ChFrame ty body => frame_bytes ty body | ChRaw raw => raw end.
Definition chunks_bytes (l : list chunk) : list byte := concat (chunk_bytes <$> l).

Lemma chunks_bytes_app l1 l2 : chunks_bytes (l1 ++ l2) = chunks_bytes l1 ++ chunks_bytes l2.
Proof. unfold chunks_bytes. by rewrite fmap_app, concat_app. Qed.

Definition is_frame (ty : byte) (ch : chunk) : bool :=
  match ch with ChFrame ty' _ => bool_decide (ty' = ty) | ChRaw _ => false end.
Definition is_error : chunk -> bool := is_frame MsgErrorResponse.
Definition is_ready : chunk -> bool := is_frame MsgReadyForQuery.

(** The frame of an error. *)
Definition error_frame (d : PgDiagnostic) : chunk := ChFrame MsgErrorResponse (diagnostic_body (diag_fields d)).

(** After an error ([pending]) only an error or ReadyForQuery may come: [None] if
    something else does, else whether an error is last. *)
Fixpoint after_errors (pending : bool) (l : list chunk) : option bool :=
  match l with
  | [] => Some pending
  | ch :: l' =>
      if pending && negb (is_error ch || is_ready ch) then None else after_errors (is_error ch) l'
  end.

(** The number of ReadyForQuery frames. *)
Definition readies (l : list chunk) : nat := length (filter (fun ch => is_ready ch = true) l).

Definition whole (ch : chunk) : Prop := match ch with ChFrame _ _ => True | ChRaw _ => False end.

(** Frames that answer a message without ending a cycle. *)
Definition is_reply (ch : chunk) : Prop := whole ch /\ is_error ch = false /\ is_ready ch = false.

Lemma after_errors_app b l1 l2 : after_errors b (l1 ++ l2) = after_errors b l1 ≫= fun b' => after_errors b' l2.
Proof.
  revert b. induction l1 as [|ch l1 IH]; intros b; [done|]. cbn [app after_errors].
  destruct (b && _); [done|]. apply IH.
Qed.

Lemma after_errors_replies l : Forall is_reply l -> after_errors false l = Some false.
Proof. induction 1 as [|ch l (_ & He & _) _ IH]; [done|]. cbn. by rewrite He. Qed.

Lemma readies_app l1 l2 : readies (l1 ++ l2) = (readies l1 + readies l2)%nat.
Proof. unfold readies. by rewrite filter_app, length_app. Qed.

Lemma readies_replies l : Forall is_reply l -> readies l = 0%nat.
Proof.
  unfold readies. induction 1 as [|ch l (_ & _ & Hr) _ IH]; [done|]. by rewrite filter_cons_False by (by rewrite Hr).
Qed.

(** ** Rows passed through *)

Definition row_frames (rows : list (list byte)) : list chunk := ChFrame MsgDataRow <$> rows.

(** The beginning of a DataRow frame. *)
Definition row_prefix (part : list byte) : Prop :=
  exists row n, part = take n (frame_bytes MsgDataRow row) /\ (n < length (frame_bytes MsgDataRow row))%nat.

Lemma row_prefix_nil : row_prefix [].
Proof. exists [], 0%nat. split; [done|]. unfold frame_bytes. rewrite length_app, header_length. lia. Qed.

Lemma row_frames_replies rows : Forall is_reply (row_frames rows).
Proof. apply Forall_fmap, Forall_true. done. Qed.

(** After a result that follows [part] of a row, [part'] of a row is out: its block
    continues the row and is made of rows after that, and says whether it ends inside
    one.  While a row is incomplete nothing else comes between its pieces. *)
Record result_framed (sent : bool) (r : Result) (part part' : list byte) : Prop := {
  rf_block :
    match PassthroughBlock r with
    | None => part' = part
    | Some block => row_prefix part' /\ PassthroughRowInProgress r = negb (bool_decide (part' = [])) /\
        exists rows, part ++ block = chunks_bytes (row_frames rows) ++ part'
    end;
  rf_before : part <> [] ->
    Notices r = [] /\ (Fields r = None \/ sent = true) /\ (PassthroughBlock r = None -> Rows r = []);
  rf_after : part' <> [] -> CommandTag r = "" /\ ParameterStatus r = []
}.

(** Whether the row description is out after a result. *)
Definition described (simple sent : bool) (r : Result) : bool :=
  if simple && negb (bool_decide (CommandTag r = "")) then false
  else sent || match Fields r with Some _ => true | None => false end.

(** A handler that passes rows through whole: its blocks are the bytes of rows, and it
    does not return success inside one. *)
Fixpoint rows_framed {S} (simple sent : bool) (part : list byte) (run : Run S) : Prop :=
  match run with
  | Done e _ _ => part = [] \/ e <> None
  | Emit None k => part = [] /\ rows_framed simple sent [] (k None)
  | Emit (Some r) k =>
      exists part', result_framed sent r part part' /\ rows_framed simple (described simple sent r) part' (k None)
  end.

(** The call ends with the error [e], all it emits being taken. *)
Fixpoint fails_with {S} (run : Run S) (e : goerror) : Prop :=
  match run with Done e' _ _ => e' = Some e | Emit _ k => fails_with (k None) e end.

Section safety.
Context {BP : BufferPool} {H : Handler}.

(** ** Runs over a working network *)

Definition good (c : Conn) : Prop := conn_ok c /\ healthy (c_ws c).

(** What the protocol state machine looks at: the input, the held Describe and the
    drain flag. *)
Definition view : Type := Input * option string * bool.
Definition view_of (c : Conn) : view := (c_in c, deferredPortalDescribe c, discardingUntilSync c).

(** The connection has gone from [c] to [c'] writing the chunks [l]. *)
Record wrote (c : Conn) (l : list chunk) (c' : Conn) : Prop := {
  wrote_good : good c';
  wrote_stream : stream (c_ws c') = stream (c_ws c) ++ chunks_bytes l;
  wrote_mono : delivered (net (c_ws c)) `prefix_of` delivered (net (c_ws c'))
}.

(** [m] returns; it has written the chunks [l]. *)
Definition ends {A} (m : Act A) (c : Conn) (Q : A -> view -> list chunk -> Prop) : Prop :=
  exists a c' l, m c = Some (a, c') /\ wrote c l c' /\ Q a (view_of c') l.

Lemma wrote_refl c : good c -> wrote c [] c.
Proof. intros Hc. constructor; [done|by rewrite app_nil_r|done]. Qed.

Lemma wrote_trans c l c1 l1 c2 : wrote c l c1 -> wrote c1 l1 c2 -> wrote c (l ++ l1) c2.
Proof.
  intros [H1 H2 H3] [H4 H5 H6]. constructor; [done| |by etrans]. by rewrite H5, H2, chunks_bytes_app, app_assoc.
Qed.

Lemma ends_ret {A} (a : A) c (Q : A -> view -> list chunk -> Prop) :
  good c -> Q a (view_of c) [] -> ends (mret a) c Q.
Proof. intros Hc HQ. exists a, c, []. auto using wrote_refl. Qed.

Lemma ends_bind {A B} (m : Act A) (f : A -> Act B) c (P : A -> view -> list chunk -> Prop)
    (Q : B -> view -> list chunk -> Prop) :
  ends m c P ->
  (forall a c' l, good c' -> P a (view_of c') l -> ends (f a) c' (fun b v l' => Q b v (l ++ l'))) ->
  ends (m ≫= f) c Q.
Proof.
  intros (a & c1 & l1 & E1 & Hw1 & HP) Hf.
  destruct (Hf a c1 l1 (wrote_good _ _ _ Hw1) HP) as (b & c2 & l2 & E2 & Hw2 & HQ).
  exists b, c2, (l1 ++ l2). split_and!; [|by eapply wrote_trans|done]. unfold mbind, act_bind. by rewrite E1.
Qed.

Lemma ends_mono {A} (m : Act A) c (P Q : A -> view -> list chunk -> Prop) :
  ends m c P -> (forall a v l, P a v l -> Q a v l) -> ends m c Q.
Proof. intros (a & c' & l & E & Hw & HP) HPQ. exists a, c', l. auto. Qed.

Lemma ends_get {B} (f : Conn -> Act B) c Q : ends (f c) c Q -> ends (get ≫= f) c Q.
Proof. intros Hf. exact Hf. Qed.

(** A packet, or raw bytes, sent. *)
Lemma wrote_sent c ch e ws :
  good c -> sent (c_ws c) (chunk_bytes ch) e ws -> e = None /\ wrote c [ch] (set_ws ws c).
Proof.
  intros [[Hw Hb] Hh] [Hok Hl Hat Hs [Hm _] Hh' _]. destruct (Hh' Hh) as [-> Hh'']. split; [done|].
  constructor; cbn [set_ws c_ws]; [|by rewrite Hs; unfold chunks_bytes; cbn; rewrite ?app_nil_r|done].
  split; [|done]. constructor; cbn; [done|]. destruct (inboundPoolBuf c); cbn in *; auto.
Qed.

Lemma ends_wr m ty body c :
  sends m ty body -> good c -> ends (wr m) c (fun e v l => e = None /\ v = view_of c /\ l = [ChFrame ty body]).
Proof.
  intros Hm Hg. unfold ends, wr. destruct (Hm (c_ws c)) as (e & ws & -> & Hsent); [by destruct Hg as [[? _] _]|].
  destruct (wrote_sent c (ChFrame ty body) e ws Hg Hsent) as [-> Hw]. by eexists _, _, _.
Qed.

Lemma ends_raw raw c :
  good c -> ends (wr (WriteRawMessage raw)) c (fun e v l => e = None /\ v = view_of c /\ l = [ChRaw raw]).
Proof.
  intros Hg. unfold ends, wr.
  destruct (WriteRawMessage_sends raw (c_ws c)) as (e & ws & -> & Hsent); [by destruct Hg as [[? _] _]|].
  destruct (wrote_sent c (ChRaw raw) e ws Hg Hsent) as [-> Hw]. by eexists _, _, _.
Qed.

(** A method of the writer that sends nothing new. *)
Lemma wrote_writer c w n :
  good c -> from_option writer_ok True w -> faults n = [] -> from_option (fun w => w_err w = None) True w ->
  delivered n ++ from_option Buffered [] w = stream (c_ws c) -> delivered (net (c_ws c)) `prefix_of` delivered n ->
  wrote c [] (set_ws (mkWSide w (outboundPoolBuf (c_ws c)) false (bufPool (c_ws c)) n) c).
Proof.
  intros [[[Hmu Hloan Hp Hw] Hb] Hh] Hw' Hf He Es Hm. constructor; [split; [|done]|by cbn; rewrite app_nil_r|done].
  constructor; [by constructor|]. cbn. by destruct (inboundPoolBuf c).
Qed.

Lemma ends_startWriterBuffering c : good c -> ends startWriterBuffering c (fun _ v l => v = view_of c /\ l = []).
Proof.
  intros Hg. pose proof Hg as [[[Hmu Hloan Hp Hw] Hb] [Hf He]]. unfold ends, startWriterBuffering, lock. rewrite Hmu. cbn.
  eexists _, _, []. split_and!; [done| |done|done].
  apply wrote_writer; try done; unfold stream; destruct (bufferedWriter (c_ws c)) as [w|]; try done.
  unfold writer_ok. cbn. lia.
Qed.

Lemma ends_flush c : good c -> ends flush c (fun e v l => e = None /\ v = view_of c /\ l = []).
Proof.
  intros Hg. pose proof Hg as [[[Hmu Hloan Hp Hw] Hb] [Hf He]]. unfold ends, flush, lock. rewrite Hmu. cbn.
  destruct (bufferedWriter (c_ws c)) as [w|] eqn:Ew; cbn in *.
  - pose proof (Flush_mono w (net (c_ws c))) as Hm. destruct (bufio_Flush w (net (c_ws c))) as [[e w'] n'] eqn:Ef.
    destruct (Flush_ok _ _ _ _ _ Ef Hw) as (Ep & Hok & _ & Herr & _ & Hfine). destruct (Hfine He Hf) as [-> Hf'].
    eexists _, _, []. split_and!; [done| |done|done|done]. apply wrote_writer; try done. unfold stream. rewrite Ew. exact Ep.
  - eexists _, _, []. split_and!; [done| |done|done|done]. unfold unlock. cbn. rewrite ?Ew. apply wrote_writer; try done.
    unfold stream. by rewrite Ew.
Qed.

(** After [endWriterBuffering] everything written has been delivered. *)
Definition flushed (c : Conn) : Prop := bufferedWriter (c_ws c) = None.

Lemma endWriterBuffering_flushes c :
  good c -> exists c', endWriterBuffering c = Some (None, c') /\ wrote c [] c' /\ flushed c' /\ view_of c' = view_of c.
Proof.
  intros Hg. pose proof Hg as [[[Hmu Hloan Hp Hw] Hb] [Hf He]]. unfold endWriterBuffering, lock. rewrite Hmu. cbn.
  destruct (bufferedWriter (c_ws c)) as [w|] eqn:Ew; cbn in *.
  - pose proof (Flush_mono w (net (c_ws c))) as Hm. destruct (bufio_Flush w (net (c_ws c))) as [[e w'] n'] eqn:Ef.
    destruct (Flush_ok _ _ _ _ _ Ef Hw) as (Ep & Hok & _ & Herr & H0 & Hfine). destruct (Hfine He Hf) as [-> Hf'].
    eexists. split_and!; [done| |done|done]. apply wrote_writer; try done. cbn. rewrite app_nil_r. unfold stream. rewrite Ew. cbn.
    unfold pending, Buffered in Ep. rewrite (H0 eq_refl) in Ep. cbn in Ep. by rewrite app_nil_r in Ep.
  - eexists. split_and!; [done| |done|done]. unfold unlock. cbn. rewrite ?Ew. apply wrote_writer; try done.
    unfold stream. by rewrite Ew.
Qed.

Lemma ends_endWriterBuffering c : good c -> ends endWriterBuffering c (fun e v l => e = None /\ v = view_of c /\ l = []).
Proof. intros Hg. destruct (endWriterBuffering_flushes c Hg) as (c' & E & Hw & _ & Ev). by eexists _, _, []. Qed.

(** A step that leaves the writer alone. *)
Lemma ends_quiet {A} (m : Act A) c a c' (Q : A -> view -> list chunk -> Prop) :
  m c = Some (a, c') -> good c -> conn_ok c' -> net (c_ws c') = net (c_ws c) ->
  bufferedWriter (c_ws c') = bufferedWriter (c_ws c) -> Q a (view_of c') [] -> ends m c Q.
Proof.
  intros E [_ [Hf He]] Hok En Ew HQ. exists a, c', []. split_and!; [done| |done]. constructor.
  - split; [done|]. unfold healthy. by rewrite En, Ew.
  - unfold stream. rewrite En, Ew. cbn. by rewrite app_nil_r.
  - by rewrite En.
Qed.

Lemma ends_modify f c (Q : unit -> view -> list chunk -> Prop) :
  good c -> c_ws (f c) = c_ws c -> inboundPoolBuf (f c) = inboundPoolBuf c -> Q tt (view_of (f c)) [] ->
  ends (modify f) c Q.
Proof.
  intros Hg Ew Eb HQ. eapply ends_quiet; [done|done| |by rewrite Ew|by rewrite Ew|done].
  destruct Hg as [[Hw Hb] _]. constructor; by rewrite Ew, ?Eb.
Qed.

Lemma ends_call {A} (f : session -> A * session) c :
  good c -> ends (call f) c (fun a v l => v = view_of c /\ l = [] /\ a = (f (c_session c)).1).
Proof.
  intros Hg. destruct (f (c_session c)) as [a s] eqn:E.
  apply (ends_quiet _ c a (set_session s c)); [by unfold call; rewrite E|done| |done|done|done]. by destruct Hg as [[Hw Hb] _].
Qed.

Lemma ends_rd {A} (m : Input -> gres A * Input) c :
  good c -> ends (rd m) c (fun r v l => (r, v.1.1) = m (c_in c) /\ v.1.2 = (view_of c).1.2 /\ v.2 = (view_of c).2 /\ l = []).
Proof.
  intros Hg. destruct (m (c_in c)) as [r i] eqn:E.
  apply (ends_quiet _ c r (set_in i c)); [by unfold rd; rewrite E|done| |done|done|done]. by destruct Hg as [[Hw Hb] _].
Qed.

Lemma ends_returnReadBuffer c : good c -> ends returnReadBuffer c (fun _ v l => v = view_of c /\ l = []).
Proof.
  intros Hg. destruct Hg as [Hok Hh]. destruct (total_returnReadBuffer c Hok) as ([] & c' & E & Hok' & _).
  apply (ends_quiet _ c tt c' _ E); [by split|done|..];
    unfold returnReadBuffer in E; destruct (inboundPoolBuf c), (bufPool (c_ws c)); simplify_eq; try done;
    destruct (pool_Put _ _); cbn in E; by simplify_eq.
Qed.

(** A first step that writes nothing. *)
Lemma ends_silent {A B} (m : Act A) (f : A -> Act B) c (P : A -> view -> Prop) Q :
  ends m c (fun a v l => P a v /\ l = []) ->
  (forall a c', good c' -> P a (view_of c') -> ends (f a) c' Q) -> ends (m ≫= f) c Q.
Proof. intros Hm Hf. eapply ends_bind; [exact Hm|]. intros a c' l Hg [HP ->]. by apply Hf. Qed.

Lemma ends_then {A B} (m : Act A) (f : A -> Act B) c Q :
  ends m c (fun _ v l => v = view_of c /\ l = []) ->
  (forall a c', good c' -> view_of c' = view_of c -> ends (f a) c' Q) -> ends (m ≫= f) c Q.
Proof. intros Hm Hf. by apply (ends_silent m f c (fun _ v => v = view_of c)). Qed.

(** ** Reading a frame *)

(** The input after a message's type, with the body of the message in front. *)
Definition body_input (body rest : list byte) (err : sentinel) : Input :=
  mkInput (be_bytes 4 (4 + Z.of_nat (length body)) ++ body ++ rest) err.

Definition acceptable (body : list byte) : Prop := len body <= MaxFrontendMessageBodyLength.

Section frame.
Context (body rest : list byte) (err : sentinel) (d : option string) (p : bool).
Context (Hacc : acceptable body).

Lemma ends_length {B} (f : gres Z -> Act B) c Q :
  good c -> view_of c = (body_input body rest err, d, p) ->
  (forall c', good c' -> view_of c' = (mkInput (body ++ rest) err, d, p) ->
     ends (f (inr (Z.of_nat (length body)))) c' Q) ->
  ends (rd ReadMessageLength ≫= f) c Q.
Proof.
  intros Hg Hv Hf. apply (ends_silent _ _ _ (fun r v => r = inr (Z.of_nat (length body)) /\ v = (mkInput (body ++ rest) err, d, p))).
  - eapply ends_mono; [by apply ends_rd|]. intros r [[i d'] p'] l (E & Ed & Ep & ->). rewrite Hv in Ed, Ep. cbn in *.
    unfold view_of in Hv. assert (c_in c = body_input body rest err) as Ei by congruence. rewrite Ei in E.
    unfold ReadMessageLength, body_input, acceptable, len, MaxFrontendMessageBodyLength in *.
    rewrite readMessageLength_frame, (proj2 (Z.ltb_ge _ _)) in E by lia. by simplify_eq.
  - intros r c' Hg' [-> Hv']. auto.
Qed.

Lemma ends_body {B} (f : gres (list byte) -> Act B) c Q :
  good c -> view_of c = (mkInput (body ++ rest) err, d, p) ->
  (forall c', good c' -> view_of c' = (mkInput rest err, d, p) -> ends (f (inr body)) c' Q) ->
  ends (readMessageBody (Z.of_nat (length body)) ≫= f) c Q.
Proof.
  intros Hg Hv Hf. apply (ends_silent _ _ _ (fun r v => r = inr body /\ v = (mkInput rest err, d, p)));
    [|intros r c' Hg' [-> Hv']; auto].
  unfold readMessageBody. destruct (Z.eqb_spec (Z.of_nat (length body)) 0) as [E0|_].
  { apply ends_ret; [done|]. destruct body; [|done]. by rewrite Hv. }
  apply ends_then; [by apply ends_returnReadBuffer|]. intros _ c1 Hg1 Hv1.
  apply ends_then.
  { destruct Hg1 as [Hok Hh]. destruct (total_borrow (Z.of_nat (length body)) ltac:(lia) c1 Hok) as ([] & c2 & E & Hok2 & _).
    apply (ends_quiet _ c1 tt c2 _ E); [by split|done|..];
      destruct (bufPool (c_ws c1)); simplify_eq; try done; destruct (pool_Get _ _) as [[? ?]|]; cbn in E; by simplify_eq. }
  intros _ c2 Hg2 Hv2. apply (ends_silent _ _ _ (fun r v => r = inr body /\ v = (mkInput rest err, d, p))).
  - eapply ends_mono; [by apply ends_rd|]. intros r [[i d'] p'] l (E & Ed & Ep & ->). rewrite Hv2, Hv1, Hv in Ed, Ep. cbn in *.
    assert (c_in c2 = mkInput (body ++ rest) err) as Ei by (unfold view_of in *; congruence).
    rewrite Ei, Nat2Z.id, ReadFull_app in E. by simplify_eq.
  - intros r c3 Hg3 [-> Hv3]. by apply ends_ret.
Qed.

(** The body is handed over and its buffer returned. *)
Lemma ends_return {A} (m : Act A) c (Q : A -> view -> list chunk -> Prop) :
  ends m c Q -> ends (a ← m; _ ← returnReadBuffer; mret a) c Q.
Proof.
  intros Hm. eapply ends_bind; [exact Hm|]. intros a c' l Hg HQ.
  apply ends_then; [by apply ends_returnReadBuffer|]. intros _ c2 Hg2 Hv. apply ends_ret; [done|]. by rewrite app_nil_r, Hv.
Qed.

Lemma ends_with_body what body_what k c Q :
  good c -> view_of c = (body_input body rest err, d, p) ->
  (forall c', good c' -> view_of c' = (mkInput rest err, d, p) -> ends (k body) c' Q) ->
  ends (with_body what body_what k) c Q.
Proof.
  intros Hg Hv Hk. unfold with_body, act_val. apply ends_length; [done|done|]. intros c1 Hg1 Hv1.
  apply ends_body; [done|done|]. intros c2 Hg2 Hv2. apply ends_return. auto.
Qed.
End frame.

(** ** Replies *)

(** [m] succeeds: it sends replies only and leaves the protocol state alone. *)
Definition replies (m : Act (option goerror)) : Prop :=
  forall c, good c -> ends m c (fun e v l => e = None /\ v = view_of c /\ Forall is_reply l).

Create HintDb replies.

Lemma replies_ret : replies (mret None).
Proof. intros c Hc. by apply ends_ret. Qed.

Lemma replies_wr m ty body : sends m ty body -> is_reply (ChFrame ty body) -> replies (wr m).
Proof. intros Hm Hr c Hc. eapply ends_mono; [by eapply ends_wr|]. intros e v l (-> & -> & ->). auto. Qed.

Lemma replies_flush : replies flush.
Proof. intros c Hc. eapply ends_mono; [by apply ends_flush|]. intros e v l (-> & -> & ->). auto. Qed.

Lemma replies_try m k : replies m -> replies k -> replies (act_try m k).
Proof.
  intros Hm Hk c Hc. eapply ends_bind; [by apply Hm|]. intros e c1 l1 Hg1 (-> & Hv1 & Hl1).
  eapply ends_mono; [by apply Hk|]. intros e v l2 (-> & -> & Hl2). split_and!; [done|done|]. by apply Forall_app.
Qed.

Lemma replies_wrap msg m : replies m -> replies (act_wrap msg m).
Proof.
  intros Hm c Hc. eapply ends_bind; [by apply Hm|]. intros e c1 l1 Hg1 (-> & Hv1 & Hl1).
  apply ends_ret; [done|]. by rewrite app_nil_r.
Qed.

Hint Resolve replies_ret replies_flush replies_try replies_wrap : replies.
Hint Extern 1 (replies (wr _)) => (eapply replies_wr; [first
  [apply writePgDiagnosticResponse_sends | apply writeRowDescription_sends
  |apply writeDataRow_sends | apply writeCommandComplete_sends | apply writeEmptyQueryResponse_sends
  |apply write_parameter_status_sends | apply writeParameterDescription_sends | apply writeMessage_sends]|done]) : replies.

Lemma replies_report params : replies (reportParameterStatuses params).
Proof.
  induction params as [|[name value] params IH]; cbn [reportParameterStatuses]; [auto with replies|].
  apply replies_try; [|done]. apply replies_wrap. intros c Hc. unfold reportParameterStatus. apply ends_get.
  destruct (bool_decide _); [by apply replies_ret|]. revert c Hc. apply replies_try; [auto with replies|].
  intros c Hc. apply ends_then; [by apply ends_modify|]. intros _ c1 Hg1 Hv1.
  rewrite <- Hv1. by apply replies_ret.
Qed.

Lemma replies_notices ds : replies (write_notices ds).
Proof. induction ds as [|d ds IH]; cbn [write_notices]; unfold writeNoticeResponse; auto 6 with replies. Qed.

Lemma replies_rows rows : replies (write_rows rows).
Proof. induction rows as [|row rows IH]; cbn [write_rows]; auto with replies. Qed.

Lemma replies_no_data : replies no_data.
Proof. unfold no_data. auto with replies. Qed.

Lemma replies_write_description fs : replies (write_description fs).
Proof. unfold write_description. destruct fs; auto with replies. Qed.

Hint Resolve replies_report replies_notices replies_rows replies_no_data replies_write_description : replies.

(** ** Streams of results *)

(** The same bytes may be cut differently. *)
Lemma ends_rechunk {A} (m : Act A) c (Q : A -> view -> list chunk -> Prop) :
  ends m c (fun a v l => exists l', chunks_bytes l = chunks_bytes l' /\ Q a v l') -> ends m c Q.
Proof.
  intros (a & c' & l & E & [Hg Es Hm] & l' & El & HQ). exists a, c', l'. split_and!; [done| |done].
  constructor; [done|by rewrite Es, El|done].
Qed.

(** [m] returns [a]; where [part] of a row was out, replies and [part'] of a row are. *)
Definition flows {A} (m : Act A) (a : A) (part part' : list byte) : Prop :=
  forall c, good c -> ends m c (fun a' v l => a' = a /\ v = view_of c /\
    exists l', part ++ chunks_bytes l = chunks_bytes l' ++ part' /\ Forall is_reply l').

Lemma flows_ret {A} (a : A) part : flows (mret a) a part part.
Proof. intros c Hc. apply ends_ret; [done|]. split_and!; [done|done|]. exists []. split; [|done]. cbn. by rewrite app_nil_r. Qed.

Lemma flows_bind {A B} (m : Act A) (f : A -> Act B) a b part part1 part2 :
  flows m a part part1 -> flows (f a) b part1 part2 -> flows (m ≫= f) b part part2.
Proof.
  intros Hm Hf c Hc. eapply ends_bind; [by apply Hm|]. intros a' c1 l1 Hg1 (-> & Hv1 & l1' & E1 & H1).
  eapply ends_mono; [by apply Hf|]. intros b' v l2 (-> & -> & l2' & E2 & H2). split_and!; [done|done|].
  exists (l1' ++ l2'). split; [|by apply Forall_app]. by rewrite !chunks_bytes_app, app_assoc, E1, <- !app_assoc, E2.
Qed.

Lemma flows_replies m part : replies m -> part = [] -> flows m None part part.
Proof.
  intros Hm -> c Hc. eapply ends_mono; [by apply Hm|]. intros e v l (-> & -> & Hl). split_and!; [done|done|].
  exists l. by rewrite app_nil_r.
Qed.

Lemma flows_wrap msg m part part' : flows m None part part' -> flows (act_wrap msg m) None part part'.
Proof. intros Hm. eapply flows_bind; [exact Hm|]. apply flows_ret. Qed.

Lemma flows_rows sent r part part' :
  result_framed sent r part part' -> flows (writeResultRows r) None part part'.
Proof.
  intros [Hb Hbef _]. unfold writeResultRows. destruct (PassthroughBlock r) as [block|].
  - destruct Hb as (_ & _ & rows & Eb). apply flows_wrap. intros c Hc. eapply ends_mono; [by apply ends_raw|].
    intros e v l (-> & -> & ->). split_and!; [done|done|]. exists (row_frames rows).
    split; [|apply row_frames_replies]. unfold chunks_bytes at 1. cbn. by rewrite app_nil_r.
  - subst part'. destruct (decide (part = [])) as [->|Hne]; [by apply flows_replies; auto with replies|].
    destruct (Hbef Hne) as (_ & _ & Hr). rewrite (Hr eq_refl). apply flows_ret.
Qed.

Lemma flows_callback simple incl st r part part' :
  result_framed (sentRowDescription st) r part part' -> rowInProgress st = negb (bool_decide (part = [])) ->
  flows (result_callback simple incl st (Some r))
    (None, mkCbstate (described simple (sentRowDescription st) r) (negb (bool_decide (part' = [])))) part part'.
Proof.
  intros Hf Hip. pose proof Hf as [Hb Hbef Haft]. unfold result_callback.
  eapply (flows_bind _ _ None _ _ part).
  { destruct (decide (part = [])) as [->|Hne]; [apply flows_replies; auto with replies|].
    destruct (Hbef Hne) as (-> & _). apply flows_ret. }
  cbv zeta. set (describe := match Fields r with Some _ => _ | None => _ end).
  eapply (flows_bind _ _ None _ _ part).
  { destruct (decide (part = [])) as [->|Hne]; [apply flows_replies; [|done]; destruct describe; auto with replies|].
    destruct (Hbef Hne) as (_ & [Hn|Hs] & _); subst describe; [rewrite Hn|rewrite Hs; destruct (Fields r)]; apply flows_ret. }
  eapply (flows_bind _ _ None _ _ part'); [by eapply flows_rows|].
  set (st2 := match PassthroughBlock r with Some _ => _ | None => _ end).
  assert (st2 = mkCbstate (sentRowDescription st || match Fields r with Some _ => true | None => false end)
    (negb (bool_decide (part' = [])))) as ->.
  { subst st2 describe. destruct st as [sent ip]. cbn in Hip |- *.
    destruct (PassthroughBlock r), (Fields r), sent; cbn; try (destruct Hb as (_ & -> & _)); subst; done. }
  set (complete := negb (bool_decide (CommandTag r = ""))). cbn [sentRowDescription rowInProgress].
  eapply (flows_bind _ _ None _ _ part').
  { destruct (decide (part' = [])) as [->|Hne].
    - apply flows_replies; [|done]. destruct complete; [|auto with replies].
      apply replies_try; [|auto with replies]. destruct (_ && _ && _); auto with replies.
    - destruct (Haft Hne) as [Ht _]. subst complete. rewrite Ht. apply flows_ret. }
  eapply (flows_bind _ _ None _ _ part').
  { destruct (decide (part' = [])) as [->|Hne]; [apply flows_replies; auto with replies|].
    destruct (Haft Hne) as [_ ->]. apply flows_ret. }
  unfold described. fold complete. rewrite (andb_comm simple complete).
  destruct (complete && simple); apply flows_ret.
Qed.

Lemma flows_empty simple incl st : flows (result_callback simple incl st None) (None, st) [] [].
Proof.
  unfold result_callback. eapply (flows_bind _ _ None _ _ []); [|apply flows_ret].
  apply flows_replies; [|done]. apply replies_try; [|auto with replies]. destruct (_ && _); auto with replies.
Qed.

(** A streaming call sends replies, and at its end the beginning of a row only if it
    fails inside one. *)
Lemma ends_stream simple incl run c :
  good c -> rows_framed simple false [] run ->
  ends (run_stream (result_callback simple incl) (mkCbstate false false) run) c (fun '(e, _, st) v l =>
    v = view_of c /\ exists l' part, l = l' ++ (if decide (part = []) then [] else [ChRaw part]) /\ Forall is_reply l' /\
      row_prefix part /\ rowInProgress st = negb (bool_decide (part = [])) /\ (part <> [] -> e <> None) /\
      (forall e', e = Some e' -> fails_with run e')).
Proof.
  intros Hg Hr. apply ends_rechunk.
  assert (forall st part c, good c -> rows_framed simple (sentRowDescription st) part run -> row_prefix part ->
    rowInProgress st = negb (bool_decide (part = [])) ->
    ends (run_stream (result_callback simple incl) st run) c (fun '(e, _, st) v l =>
      v = view_of c /\ exists l' part', part ++ chunks_bytes l = chunks_bytes l' ++ part' /\ Forall is_reply l' /\
        row_prefix part' /\ rowInProgress st = negb (bool_decide (part' = [])) /\ (part' <> [] -> e <> None) /\
        (forall e', e = Some e' -> fails_with run e'))) as Hall.
  { clear c Hg Hr. induction run as [e canceled s|r k IH]; intros st part c Hg Hr Hpre Hip; cbn [run_stream].
    - eapply ends_then; [by apply ends_modify|]. intros _ c1 Hg1 Hv1. apply ends_ret; [done|]. split; [done|].
      exists [], part. cbn. rewrite app_nil_r. split_and!; try done. by destruct Hr as [->|Hr].
    - assert (exists st' part', flows (result_callback simple incl st r) (None, st') part part' /\
        rows_framed simple (sentRowDescription st') part' (k None) /\ row_prefix part' /\
        rowInProgress st' = negb (bool_decide (part' = []))) as (st' & part1 & Hf & Hr1 & Hpre1 & Hip1).
      { destruct r as [r|]; cbn in Hr.
        - destruct Hr as (part' & Hrf & Hr). eexists _, part'. split_and!; [by apply flows_callback|done| |done].
          pose proof (rf_block _ _ _ _ Hrf) as Hb. destruct (PassthroughBlock r); [by destruct Hb|by subst].
        - destruct Hr as [-> Hr]. eexists st, []. split_and!; [apply flows_empty|done..]. }
      eapply ends_bind; [by apply Hf|]. intros [e st1] c1 l1 Hg1 ([= -> ->] & Hv1 & l1' & E1 & H1).
      eapply ends_mono; [by apply (IH None st' part1)|]. intros [[e canceled] st2] v l2 (-> & l2' & part2 & E2 & H2 & ? & ? & ? & ?).
      split; [done|]. exists (l1' ++ l2'), part2. split_and!; try done; [|by apply Forall_app].
      by rewrite !chunks_bytes_app, app_assoc, E1, <- !app_assoc, E2. }
  pose proof row_prefix_nil. eapply ends_mono; [by apply (Hall (mkCbstate false false) [] c Hg)|].
  intros [[e canceled] st] v l (-> & l' & part & E & ? & ? & ? & ? & ?). cbn [app] in E.
  eexists. split; [|split; [done|exists l', part; split_and!; done]].
  rewrite E, chunks_bytes_app. f_equal. destruct (decide _) as [->|_]; [done|]. unfold chunks_bytes. cbn. by rewrite app_nil_r.
Qed.

(** ** Draining *)

Lemma unless_drained_off ty k c : discardingUntilSync c = false -> unless_drained ty k c = k c.
Proof. intros E. unfold unless_drained, maybeDispatchDrain, mbind, act_bind, get. cbn. by rewrite E. Qed.

Lemma unless_drained_sync k c :
  discardingUntilSync c = true -> unless_drained MsgSync k c = k (set_discarding false c).
Proof. intros E. unfold unless_drained, maybeDispatchDrain, mbind, act_bind, get. cbn. by rewrite E. Qed.

Lemma unless_drained_on ty k c :
  discardingUntilSync c = true -> ty <> MsgSync -> ty <> MsgTerminate ->
  unless_drained ty k c = (if bool_decide (ty = MsgFlush) then drain_flush else drainExtendedQueryMessage) c.
Proof.
  intros E Hs Ht. unfold unless_drained, maybeDispatchDrain, mbind, act_bind, get. cbn. rewrite E. cbn.
  rewrite !(bool_decide_eq_false_2 (ty = _)) by done. case_bool_decide; unfold mret, act_ret.
  - by destruct (drain_flush c) as [[]|].
  - by destruct (drainExtendedQueryMessage c) as [[]|].
Qed.

(** A round whose input starts with a frame handles its message. *)
Lemma serve_round_message waiting ty body rest err c :
  c_in c = mkInput (frame_bytes ty body ++ rest) err ->
  serve_round waiting c =
  (_ ← startWriterBuffering; e ← handleMessage ty; finish_round ty e) (set_in (body_input body rest err) c).
Proof.
  intros Ei. unfold serve_round, mbind, act_bind, get, rd, readMessageType. cbn [mbind option_bind]. rewrite Ei.
  unfold frame_bytes, header. by rewrite <- app_assoc.
Qed.
End safety.
