(* ===== verification/ServerSafety.v ===== *)
(** What a client sees of a server connection over a working network, message by
    message.  Every message is answered in its turn: after an ErrorResponse nothing but
    an ErrorResponse or ReadyForQuery is sent, every cycle is closed by exactly one
    ReadyForQuery and is delivered by then, and messages are consumed frame by frame,
    whatever their bodies hold. *)

From Stdlib Require Import Strings.Byte.
From stdpp Require Import base numbers list gmap strings.
From S2P Require Import Prelude.
From S2P Require Import Bytes.
From S2P Require Import Diagnostics.
From S2P Require Import BufPool.
From S2P Require Import Wire.
From S2P Require Import WireFacts.
From S2P Require Import WireMessages.
From S2P Require Import WireRequests.
From S2P Require Import ServerConn.
From S2P Require Import ServerDemo.
From S2P Require Import ServerTotal.
From S2P Require Import ServerRuns.

Local Open Scope Z_scope.

(** The number of ReadyForQuery frames that answer a message of type [ty] if the drain
    mode is then [p']. *)
Definition closing (ty : byte) (p' : bool) : nat :=
  if bool_decide (ty = MsgSync) || (bool_decide (ty = MsgQuery) || bool_decide (ty = MsgFunctionCall)) && negb p'
  then 1 else 0.

(** How a message of type [ty] is answered with [l]: [p] and [p'] say whether the
    connection drains messages, before and after, [h] whether a Describe may be held
    back from before.  Only the failure of such a Describe drains a Query or a
    FunctionCall. *)
Record answered (p h : bool) (ty : byte) (l : list chunk) (p' : bool) : Prop := {
  an_whole : Forall whole l;
  an_errors : after_errors p l = Some p';
  an_ready : readies l = closing ty p';
  an_drain : p = true -> ty <> MsgSync -> l = [];
  an_open : p = false -> h = false -> ty = MsgQuery \/ ty = MsgFunctionCall -> p' = false;
  an_sync : ty = MsgSync -> p' = false;
  an_last : closing ty p' = 1%nat -> exists l1 b, l = l1 ++ [ChFrame MsgReadyForQuery b]
}.

Definition parses_Execute (body : list byte) : Prop := exists args, parse_body parse_Execute body = inr args.

(** The message types the loop knows, and the messages it cannot read. *)
Definition frontend_types : list byte :=
  [MsgQuery; MsgParse; MsgBind; MsgDescribe; MsgExecute; MsgClose; MsgSync; MsgFlush; MsgFunctionCall; MsgTerminate].
Definition unreadable (ty : byte) (body : list byte) : Prop :=
  ty ∉ frontend_types \/ ty = MsgQuery /\ last body <> Some x00.

Section safety.
Context {BP : BufferPool} {H : Handler}.

(** The errors of the handler: those of its streaming calls, and those of the other
    calls whose errors are passed on. *)
Definition streams (e : goerror) : Prop :=
  (exists s q, fails_with (HandleQuery s q) e) \/ (exists s name n fold, fails_with (HandleExecute s name n fold) e).
Definition raises (e : goerror) : Prop :=
  (exists s name q types s', HandleParse s name q types = (Some e, s')) \/
  (exists s args s', HandleBind s args = (Some e, s')) \/
  (exists s typ name s', HandleDescribe s typ name = (inl e, s')) \/ streams e.

(** A fatal error the handler has reported. *)
Definition reported_fatal (d : PgDiagnostic) : Prop := exists e, raises e /\ fatalDiagnostic e = Some d.

(** How a handler's error leaves its answer: with a fatal ErrorResponse, or inside a
    row. *)
Definition halts (e : goerror) (tail : list chunk) : Prop :=
  (e = ESentinel errFatalDiagnosticSent /\ exists d, reported_fatal d /\ tail = [error_frame d]) \/
  (exists e' part, e = EJoin (ESentinel errIncompleteDataRow) e' /\ (exists e0, streams e0) /\
     part <> [] /\ row_prefix part /\ tail = [ChRaw part]).

(** What a handler leaves behind, once the connection is not draining: it has answered
    without closing a cycle, drains exactly if it has sent an error, and has held
    something back only if it [holds]. *)
Definition served (holds : bool) (i : Input) (e : option goerror) (v : view) (l : list chunk) : Prop :=
  exists l1 tail, l = l1 ++ tail /\ Forall is_reply l1 /\
  match e with
  | None => (exists d, v = (i, d, false) /\ (d = None \/ holds = true) /\ tail = []) \/ (exists d, v = (i, None, true) /\ tail = [error_frame d])
  | Some e => halts e tail
  end.

Lemma served_replies holds i d l : d = None \/ holds = true -> Forall is_reply l -> served holds i None (i, d, false) l.
Proof. intros Hd Hl. exists l, []. rewrite app_nil_r. split_and!; eauto 6. Qed.

Lemma served_app holds i l1 e v l2 : Forall is_reply l1 -> served holds i e v l2 -> served holds i e v (l1 ++ l2).
Proof.
  intros Hl (l3 & tail & -> & Hl3 & Ht). exists (l1 ++ l3), tail. split_and!; [by rewrite app_assoc|by apply Forall_app|done].
Qed.

Lemma ends_served_replies holds m i c :
  replies m -> good c -> view_of c = (i, None, false) -> ends m c (served holds i).
Proof.
  intros Hm Hg Hv. eapply ends_mono; [by apply Hm|]. intros a v l (-> & -> & Hl). rewrite Hv. apply served_replies; auto.
Qed.

Lemma ends_writeError e c :
  good c -> ends (writeError e) c (fun r v l => r = None /\ v = view_of c /\ l = [error_frame (error_diagnostic e)]).
Proof. intros Hg. eapply ends_wr; [apply writePgDiagnosticResponse_sends|done]. Qed.

Lemma ends_ready c :
  good c -> exists body, ends ready_for_query c (fun r v l => r = None /\ v = view_of c /\ l = [ChFrame MsgReadyForQuery body]).
Proof. intros Hg. eexists. unfold ready_for_query, ends. apply ends_wr; [apply writeReadyForQuery_sends|done]. Qed.

Lemma fatal_error e d : fatalDiagnostic e = Some d -> error_diagnostic e = d.
Proof. unfold fatalDiagnostic, error_diagnostic. destruct (errors_As_diag _); [|done]. destruct (IsFatal _); congruence. Qed.

(** An error is fatal only if the handler has reported it. *)
Definition lawful (e : goerror) : Prop := forall d, fatalDiagnostic e = Some d -> reported_fatal d.

Lemma lawful_raised e : raises e -> lawful e.
Proof. intros Hr d Hd. by exists e. Qed.

Lemma lawful_mild d : IsFatal d = false -> lawful (EPg d).
Proof. intros Hd d'. unfold fatalDiagnostic. cbn. by rewrite Hd. Qed.

Lemma lawful_preserve e fallback :
  raises e -> IsFatal (NewWithDetail fallback (Error e)) = false -> lawful (preserveExtendedQueryError e fallback).
Proof. intros Hr Hf. unfold preserveExtendedQueryError. destruct (errors_As_diag e); auto using lawful_raised, lawful_mild. Qed.

Lemma lawful_context canceled e : raises e -> lawful (queryContextError canceled e).
Proof.
  intros Hr. unfold queryContextError. destruct (fatalDiagnostic e); [by apply lawful_raised|].
  destruct canceled; [by apply lawful_mild|]. destruct (errors_Is _ _); [by apply lawful_mild|by apply lawful_raised].
Qed.

(** An error makes the connection drain. *)
Lemma ends_drain_error holds e i p c :
  lawful e -> good c -> view_of c = (i, None, p) ->
  ends (writeExtendedQueryError e) c (fun r v l => served holds i r v l /\ v = (i, None, true)).
Proof.
  intros Hlaw Hg Hv. unfold writeExtendedQueryError. unfold view_of in Hv. simplify_eq.
  apply (ends_silent _ _ _ (fun _ v => v = (c_in c, None, true))).
  { apply ends_modify; [done|done|done|]. split; [|done]. unfold view_of. cbn. congruence. }
  intros _ c1 Hg1 Hv1. eapply ends_bind; [by apply ends_writeError|].
  intros r c2 l Hg2 (-> & Hv2 & ->). rewrite Hv1 in Hv2. destruct (fatalDiagnostic e) as [d|] eqn:Ef.
  - apply ends_ret; [done|]. split; [|done]. exists [], [error_frame (error_diagnostic e)]. split_and!; [done|done|]. left.
    split; [done|]. exists d. split; [by apply Hlaw|by rewrite (fatal_error e d)].
  - eapply ends_mono; [by apply ends_flush|]. intros r v l (-> & -> & ->). rewrite Hv2. split; [|done].
    exists [], [error_frame (error_diagnostic e)]. split_and!; [done|done|]. right. by eexists.
Qed.

Lemma ends_extended_error holds e i p c :
  lawful e -> good c -> view_of c = (i, None, p) -> ends (writeExtendedQueryError e) c (served holds i).
Proof. intros Hl Hg Hv. eapply ends_mono; [by eapply ends_drain_error|]. naive_solver. Qed.

(** ** The handlers of the extended protocol *)

Section message.
Context (body rest : list byte) (err : sentinel) (Hacc : acceptable body).

(** A handler that passes rows through whole. *)
Context (Hquery : forall s q, rows_framed true false [] (HandleQuery s q)).
Context (Hexecute : forall s name n fold, rows_framed false false [] (HandleExecute s name n fold)).

Lemma replies_complete ty : is_reply (ChFrame ty []) -> replies (wr (writeMessage ty [])).
Proof. intros Hr. eapply replies_wr; [apply writeMessage_sends|done]. Qed.

Lemma ends_call_served {A} (f : session -> A * session) (k : A -> Act (option goerror)) holds i d c :
  good c -> view_of c = (i, d, false) ->
  (forall a c', good c' -> view_of c' = (i, d, false) -> (exists s s', f s = (a, s')) -> ends (k a) c' (served holds i)) ->
  ends (call f ≫= k) c (served holds i).
Proof.
  intros Hg Hv Hk. eapply ends_bind; [by apply ends_call|]. intros a c' l Hg' (Hv' & -> & Ea). cbn [app].
  apply Hk; [done|by rewrite Hv'|]. exists (c_session c). destruct (f _) as [a' s']. cbn in Ea. subst. eauto.
Qed.

(** A message that cannot be taken apart. *)
Lemma ends_malformed {A} (m : Rq A) holds dg i p c :
  parse_body m body = inl dg -> mild m -> good c -> view_of c = (i, None, p) ->
  ends (writeExtendedQueryError (EPg dg)) c (served holds i).
Proof. intros E Hm. by eapply ends_extended_error, lawful_mild, parse_body_mild. Qed.

Lemma ends_handleParse c :
  good c -> view_of c = (body_input body rest err, None, false) ->
  ends handleParse c (served false (mkInput rest err)).
Proof.
  intros Hg Hv. eapply ends_with_body; [done|done|done|]. intros c1 Hg1 Hv1. unfold parse_action.
  destruct (parse_body parse_Parse body) as [dg|[[stmt query] types]] eqn:E;
    [eapply ends_malformed; [exact E|apply mild_parsers|done..]|].
  eapply ends_call_served; [done|done|]. intros [e|] c2 Hg2 Hv2 (s & s' & Ea);
    [eapply ends_extended_error; [|done..]; apply lawful_preserve; [left; eauto 6|done]|].
  by eapply ends_served_replies; [apply replies_complete|..].
Qed.

Lemma ends_handleBind c :
  good c -> view_of c = (body_input body rest err, None, false) ->
  ends handleBind c (served false (mkInput rest err)).
Proof.
  intros Hg Hv. eapply ends_with_body; [done|done|done|]. intros c1 Hg1 Hv1. unfold bind_action.
  destruct (parse_body parse_Bind body) as [dg|args] eqn:E;
    [eapply ends_malformed; [exact E|apply mild_parsers|done..]|].
  eapply ends_call_served; [done|done|]. intros [e|] c2 Hg2 Hv2 (s & s' & Ea);
    [eapply ends_extended_error; [|done..]; apply lawful_preserve; [right; left; eauto|done]|].
  by eapply ends_served_replies; [apply replies_complete|..].
Qed.

Lemma ends_handleClose c :
  good c -> view_of c = (body_input body rest err, None, false) ->
  ends handleClose c (served false (mkInput rest err)).
Proof.
  intros Hg Hv. eapply ends_with_body; [done|done|done|]. intros c1 Hg1 Hv1. unfold close_action.
  destruct (parse_body parse_Close body) as [dg|[typ name]] eqn:E;
    [eapply ends_malformed; [exact E|apply mild_parsers|done..]|].
  eapply ends_call_served; [done|done|]. intros [e|] c2 Hg2 Hv2 (s & s' & Ea);
    [eapply ends_extended_error; [|done..]; by apply lawful_mild|].
  by eapply ends_served_replies; [apply replies_complete|..].
Qed.

Lemma ends_handleFlush c :
  good c -> view_of c = (body_input body rest err, None, false) ->
  ends handleFlush c (served false (mkInput rest err)).
Proof.
  intros Hg Hv. unfold handleFlush, act_val. eapply ends_length; [done|done|done|]. intros c1 Hg1 Hv1.
  destruct (Z.eqb_spec (Z.of_nat (length body)) 0) as [E0|_]; cbn [negb].
  - destruct body; [|done]. by eapply ends_served_replies; [apply replies_flush|..].
  - eapply ends_body; [done..|]. intros c2 Hg2 Hv2. apply ends_then; [by apply ends_returnReadBuffer|].
    intros _ c3 Hg3 Hv3. eapply ends_extended_error; [by apply lawful_mild|done|]. by rewrite Hv3.
Qed.

Lemma lawful_described s typ name e : inl e = (HandleDescribe s typ name).1 -> lawful (preserveExtendedQueryError e MTD06).
Proof.
  intros E. apply lawful_preserve; [|done]. right; right; left. destruct (HandleDescribe s typ name) as [r s'] eqn:Eh.
  cbn in E. subst r. eauto.
Qed.

(** A held Describe is answered, and held no longer. *)
Lemma ends_resolve i d c :
  good c -> view_of c = (i, d, false) ->
  ends resolveDeferredPortalDescribe c (fun e v l =>
    served false i e v l /\ v.1.2 = None /\ (d = None -> e = None /\ v = (i, None, false) /\ l = [])).
Proof.
  intros Hg Hv. unfold resolveDeferredPortalDescribe. apply ends_get.
  assert (deferredPortalDescribe c = d) as -> by (unfold view_of in Hv; congruence).
  destruct d as [name|].
  2:{ apply ends_ret; [done|]. rewrite Hv. split_and!; [|done..]. apply served_replies; auto. }
  apply (ends_silent _ _ _ (fun _ v => v = (i, None, false))).
  { apply ends_modify; [done..|]. split; [|done]. unfold view_of in *. cbn. congruence. }
  intros _ c1 Hg1 Hv1. eapply ends_bind; [by apply ends_call|]. intros r c2 l Hg2 (Hv2 & -> & Er). rewrite Hv1 in Hv2.
  destruct r as [e|desc].
  - eapply ends_mono; [eapply ends_drain_error; [by eapply lawful_described|done..]|]. intros r v l [Hs ->]. done.
  - eapply ends_mono; [by apply replies_write_description|]. intros r v l (-> & -> & Hl). rewrite Hv2. split_and!; [|done..].
    apply served_replies; auto.
Qed.

Lemma served_next holds i v l :
  served holds i None v l -> v.1.2 = None -> (v = (i, None, false) /\ Forall is_reply l) \/ v = (i, None, true).
Proof.
  intros (l1 & tail & -> & Hl & [(d & -> & _ & ->)|(d & -> & _)]) Hd; [left|by right]. cbn in Hd. subst d. by rewrite app_nil_r.
Qed.

Lemma ends_execute_portal portal n fold i c :
  good c -> view_of c = (i, None, false) ->
  ends (execute_portal portal n fold) c (served false i).
Proof.
  intros Hg Hv. unfold execute_portal. apply ends_get.
  eapply ends_bind; [by apply ends_stream|]. intros [[e canceled] st] c1 l Hg1 (Hv1 & l1 & part & -> & Hl & Hpre & -> & He & Hfw).
  assert (forall e', e = Some e' -> streams e') as Hst by (intros e' E; right; eauto 6). rewrite Hv in Hv1. destruct (decide (part = [])) as [->|Hne].
  - rewrite app_nil_r. cbn. destruct e as [e|]; cbv zeta.
    + eapply ends_mono; [eapply ends_extended_error; [|done..]; apply lawful_context; right; right; right; auto|].
      intros r v l2 Hs. by apply served_app.
    + apply ends_ret; [done|]. rewrite Hv1, app_nil_r. apply served_replies; auto.
  - rewrite (bool_decide_eq_false_2 (part = [])) by done. destruct e as [e|]; [|by destruct (He Hne)]. apply ends_ret; [done|].
    rewrite app_nil_r. eexists l1, [_]. split_and!; [done|done|]. right. eexists _, part. split_and!; eauto.
Qed.

Lemma ends_handleExecute d c :
  good c -> view_of c = (body_input body rest err, d, false) -> parses_Execute body ->
  ends handleExecute c (served false (mkInput rest err)).
Proof.
  intros Hg Hv Hp. eapply ends_with_body; [done|done|done|]. intros c1 Hg1 Hv1. unfold execute_action.
  destruct Hp as [[portal n] ->]. apply ends_get.
  assert (deferredPortalDescribe c1 = d) as -> by (unfold view_of in Hv1; congruence).
  destruct d as [name|]; [|by apply ends_execute_portal]. case_bool_decide as En.
  - apply (ends_silent _ _ _ (fun _ v => v = (mkInput rest err, None, false))).
    { apply ends_modify; [done..|]. split; [|done]. unfold view_of in *. cbn. congruence. }
    intros _ c2 Hg2 Hv2. by apply ends_execute_portal.
  - eapply ends_bind; [by eapply ends_resolve|]. intros e c2 l Hg2 (Hs & Hd & _). destruct e as [e|].
    { apply ends_ret; [done|]. by rewrite app_nil_r. }
    destruct (served_next _ _ _ _ Hs Hd) as [[Hv2 Hl]|Hv2]; apply ends_get.
    + assert (discardingUntilSync c2 = false) as -> by (unfold view_of in Hv2; congruence).
      eapply ends_mono; [by apply ends_execute_portal|]. intros e v l2 Hs2. by apply served_app.
    + assert (discardingUntilSync c2 = true) as -> by (unfold view_of in Hv2; congruence).
      apply ends_ret; [done|]. by rewrite app_nil_r.
Qed.

(** A described statement has a description. *)
Context (Hdesc : forall s name s', HandleDescribe s "S" name <> (inr None, s')).

Lemma ends_handleDescribe c :
  good c -> view_of c = (body_input body rest err, None, false) ->
  ends handleDescribe c (served true (mkInput rest err)).
Proof.
  intros Hg Hv. eapply ends_with_body; [done|done|done|]. intros c1 Hg1 Hv1. unfold describe_action.
  destruct (parse_body parse_Describe body) as [dg|[typ name]] eqn:E;
    [eapply ends_malformed; [exact E|apply mild_parsers|done..]|].
  case_bool_decide as Ht.
  { apply (ends_silent _ _ _ (fun _ v => v = (mkInput rest err, Some name, false))).
    { apply ends_modify; [done..|]. split; [|done]. unfold view_of in *. cbn. congruence. }
    intros _ c2 Hg2 Hv2. apply ends_ret; [done|]. rewrite Hv2. apply served_replies; auto. }
  destruct (parse_target_type _ _ _ _ _ E) as [-> | ->]; [|done].
  apply ends_then; [by apply ends_startWriterBuffering|]. intros _ c2 Hg2 Hv2. rewrite Hv1 in Hv2.
  eapply (ends_bind _ _ _ (served true (mkInput rest err))).
  - eapply ends_bind; [by apply ends_call|]. intros r c3 l Hg3 (Hv3 & -> & Er). rewrite Hv2 in Hv3.
    destruct r as [e|[desc|]]; [by eapply ends_extended_error; [by eapply lawful_described|..]| |].
    + eapply ends_served_replies; [|done|done]. apply replies_try; [|apply replies_write_description].
      apply replies_wrap. eapply replies_wr; [apply writeParameterDescription_sends|done].
    + destruct (HandleDescribe _ _ _) as [r s'] eqn:Eh. cbn in Er. subst r. by destruct (Hdesc _ _ _ Eh).
  - intros e c3 l Hg3 Hs. eapply ends_bind; [by apply ends_endWriterBuffering|]. intros r c4 l4 Hg4 (-> & Hv4 & ->).
    apply ends_ret; [done|]. by rewrite !app_nil_r, Hv4.
Qed.

(** ** A message and its turn *)

(** An error of the loop's own, that [finish_round] reports. *)
Definition internal (e : goerror) : Prop :=
  errors_Is io_EOF e = false /\ errors_Is errFatalDiagnosticSent e = false /\
  errors_Is errIncompleteDataRow e = false /\ errors_Is errFrontendMessageTooLarge e = false.

(** What [handleMessage] leaves behind: on an error, which ends the loop, why; otherwise
    an answered message, consumed to its end. *)
Definition turn (p h : bool) (ty : byte) (e : option goerror) (v : view) (l : list chunk) : Prop :=
  match e with
  | Some e =>
      (ty = MsgTerminate /\ e = ESentinel io_EOF /\ l = []) \/
      (p = false /\ exists l1 tail, l = l1 ++ tail /\ Forall is_reply l1 /\
         (halts e tail \/ (internal e /\ unreadable ty body /\ tail = [])))
  | None => exists d p', v = (mkInput rest err, d, p') /\ (p' = true -> d = None) /\ (d <> None -> ty = MsgDescribe) /\
      answered p h ty l p'
  end.

Lemma served_turn h ty e v l :
  ty <> MsgSync -> ty <> MsgQuery -> ty <> MsgFunctionCall ->
  served (bool_decide (ty = MsgDescribe)) (mkInput rest err) e v l -> turn false h ty e v l.
Proof.
  intros H1 H2 H3 (l1 & tail & -> & Hl & Ht). destruct e as [e|].
  { right. split; [done|]. exists l1, tail. auto. }
  assert (Forall whole l1) as Hw by (eapply Forall_impl; [exact Hl|]; by intros ch (? & _)).
  assert (forall p', closing ty p' = 0%nat) as Hc by (intros p'; unfold closing; by rewrite !bool_decide_eq_false_2).
  destruct Ht as [(d & -> & Hd & ->)|(d & -> & ->)].
  - exists d, false. split_and!; [done|done| |].
    { destruct Hd as [?|Hd]; [done|]. intros _. by apply bool_decide_eq_true in Hd. }
    rewrite app_nil_r. constructor; [done| | |done|done|done|by rewrite Hc].
    + by apply after_errors_replies.
    + by rewrite readies_replies, Hc.
  - exists None, true. split_and!; [done|done|done|]. constructor; [| | |done|by intros _ _ [?|?]|done|by rewrite Hc].
    + apply Forall_app. split; [done|by repeat constructor].
    + by rewrite after_errors_app, after_errors_replies.
    + by rewrite readies_app, readies_replies, Hc.
Qed.

(** The end of a cycle: perhaps an error, then ReadyForQuery. *)
Definition closes (tail : list chunk) : Prop :=
  Forall whole tail /\ (forall p, after_errors p tail = Some false) /\ readies tail = 1%nat /\
  exists t b, tail = t ++ [ChFrame MsgReadyForQuery b].

Lemma closes_ready b : closes [ChFrame MsgReadyForQuery b].
Proof. split_and!; [by repeat constructor|by intros []|done|by exists [], b]. Qed.
Lemma closes_error b b' : closes [ChFrame MsgErrorResponse b; ChFrame MsgReadyForQuery b'].
Proof. split_and!; [by repeat constructor|by intros []|done|by eexists [_], _]. Qed.

Lemma turn_closed p h ty l1 tail :
  closing ty false = 1%nat -> (p = true -> ty = MsgSync /\ l1 = []) -> Forall is_reply l1 -> closes tail ->
  turn p h ty None (mkInput rest err, None, false) (l1 ++ tail).
Proof.
  intros Hc Hp Hl (Hw & Ht & Hr & t & b & ->). exists None, false. split_and!; [done|done|done|]. constructor.
  - apply Forall_app. split; [|done]. eapply Forall_impl; [exact Hl|]. by intros ch (? & _).
  - rewrite after_errors_app. destruct p; [|rewrite after_errors_replies by done; apply Ht].
    destruct (Hp eq_refl) as [_ ->]. cbn. apply Ht.
  - by rewrite readies_app, readies_replies, Hr.
  - intros Hp' Hty. by destruct (Hp Hp').
  - done.
  - done.
  - intros _. exists (l1 ++ t), b. by rewrite app_assoc.
Qed.

Lemma ends_close_cycle p h ty l1 c :
  closing ty false = 1%nat -> (p = true -> ty = MsgSync /\ l1 = []) -> Forall is_reply l1 ->
  good c -> view_of c = (mkInput rest err, None, false) ->
  ends ready_for_query c (fun e v l => turn p h ty e v (l1 ++ l)).
Proof.
  intros Hc Hp Hl Hg Hv. destruct (ends_ready c Hg) as [b Hr]. eapply ends_mono; [exact Hr|].
  intros e v l (-> & -> & ->). rewrite Hv. apply turn_closed; auto using closes_ready.
Qed.

Lemma ends_close_error p h ty l1 e c :
  closing ty false = 1%nat -> (p = true -> ty = MsgSync /\ l1 = []) -> Forall is_reply l1 ->
  good c -> view_of c = (mkInput rest err, None, false) ->
  ends (act_try (writeError e) ready_for_query) c (fun e v l => turn p h ty e v (l1 ++ l)).
Proof.
  intros Hc Hp Hl Hg Hv. eapply ends_bind; [by apply ends_writeError|].
  intros r c1 l Hg1 (-> & Hv1 & ->). destruct (ends_ready c1 Hg1) as [b' Hr]. eapply ends_mono; [exact Hr|].
  intros r v l (-> & -> & ->). rewrite Hv1, Hv. apply turn_closed; [done..|apply closes_error].
Qed.

Lemma ends_readQueryMessage c :
  good c -> view_of c = (body_input body rest err, None, false) ->
  ends readQueryMessage c (fun r v l =>
    match r with
    | inl e => last body <> Some x00 /\ exists msg, e = EString msg
    | inr _ => v = (mkInput rest err, None, false)
    end /\ l = []).
Proof.
  intros Hg Hv. unfold readQueryMessage. eapply ends_length; [done..|]. intros c1 Hg1 Hv1.
  destruct (Z.ltb_spec (Z.of_nat (length body)) 1) as [Hlt|_].
  { apply ends_ret; [done|]. split; [|done]. destruct body; [eauto|cbn in Hlt; lia]. }
  eapply ends_body; [done..|]. intros c2 Hg2 Hv2.
  apply ends_then; [by apply ends_returnReadBuffer|]. intros _ c3 Hg3 Hv3. rewrite Hv2 in Hv3.
  case_bool_decide; apply ends_ret; eauto.
Qed.

Lemma ends_handleQuery h c :
  good c -> view_of c = (body_input body rest err, None, false) -> ends handleQuery c (turn false h MsgQuery).
Proof.
  intros Hg Hv. unfold handleQuery, act_val, query_action.
  eapply ends_silent; [by apply ends_readQueryMessage|].
  intros [e|query] c1 Hg1 Hv1.
  { destruct Hv1 as [Hn [msg ->]]. apply ends_ret; [done|]. right. split; [done|]. exists [], []. split_and!; [done|done|].
    right. split_and!; [done|by right|done]. }
  apply ends_get. eapply ends_bind; [by apply ends_stream|].
  intros [[e canceled] st] c2 l2 Hg2 (Hv2 & l1 & part & -> & Hl & Hpre & -> & He & Hfw). rewrite Hv1 in Hv2.
  assert (forall e', e = Some e' -> streams e') as Hst by (intros e' E; left; eauto).
  destruct (decide (part = [])) as [->|Hne]; [rewrite app_nil_r; cbn|].
  - destruct e as [e|]; cbv zeta; [|by eapply ends_close_cycle].
    assert (lawful (queryContextError canceled e)) as Hlaw by (apply lawful_context; right; right; right; auto).
    revert Hlaw. generalize (queryContextError canceled e). intros e' Hlaw.
    destruct (fatalDiagnostic e') as [d|] eqn:Ef; [|by eapply ends_close_error].
    eapply ends_bind; [by apply ends_writeError|]. intros r c3 l Hg3 (-> & Hv3 & ->). apply ends_ret; [done|].
    rewrite app_nil_r. right. split; [done|]. eexists l1, [_]. split_and!; [done|done|]. left. left. split; [done|].
    exists d. split; [by apply Hlaw|by rewrite (fatal_error e' d)].
  - rewrite (bool_decide_eq_false_2 (part = [])) by done. destruct e as [e|]; [|by destruct (He Hne)]. apply ends_ret; [done|].
    rewrite app_nil_r. right. split; [done|]. eexists l1, [_]. split_and!; [done|done|]. left. right. eexists _, part.
    split_and!; eauto.
Qed.

Lemma ends_handleSync p h c :
  good c -> view_of c = (body_input body rest err, None, false) -> ends handleSync c (turn p h MsgSync).
Proof.
  intros Hg Hv. unfold handleSync, act_val, sync_action. eapply ends_length; [done..|]. intros c1 Hg1 Hv1.
  destruct (Z.eqb_spec (Z.of_nat (length body)) 0) as [E0|_]; cbn [negb].
  - destruct body; [|done]. eapply ends_bind; [by apply ends_call|]. intros e c2 l Hg2 (Hv2 & -> & _). rewrite Hv1 in Hv2.
    destruct e as [e|]; [by eapply (ends_close_error _ _ _ [])|]. by eapply (ends_close_cycle _ _ _ []).
  - eapply ends_body; [done..|]. intros c2 Hg2 Hv2. apply ends_then; [by apply ends_returnReadBuffer|].
    intros _ c3 Hg3 Hv3. rewrite Hv2 in Hv3. by eapply (ends_close_error _ _ _ []).
Qed.

Lemma ends_discardMessageBody c :
  good c -> view_of c = (body_input body rest err, None, false) ->
  ends discardMessageBody c (fun e v l => e = None /\ v = (mkInput rest err, None, false) /\ l = []).
Proof.
  intros Hg Hv. unfold discardMessageBody. eapply ends_length; [done..|]. intros c1 Hg1 Hv1.
  destruct (Z.eqb_spec (Z.of_nat (length body)) 0) as [E0|_].
  { destruct body; [|done]. by apply ends_ret. }
  eapply ends_bind; [by apply ends_rd|]. intros r c2 l Hg2 (E & Ed & Ep & ->). rewrite Hv1 in Ed, Ep. cbn in Ed, Ep.
  assert (c_in c1 = mkInput (body ++ rest) err) as Ei by (unfold view_of in Hv1; congruence).
  unfold Discard in E. rewrite Ei, Nat2Z.id in E. cbn [inp] in E.
  rewrite (proj2 (Nat.leb_le _ _)), drop_app_length in E by (rewrite length_app; lia). simplify_eq.
  apply ends_ret; [done|]. split_and!; [done| |done]. unfold view_of, set_inp in *. cbn in *. congruence.
Qed.

Lemma ends_handleFunctionCall h c :
  good c -> view_of c = (body_input body rest err, None, false) -> ends handleFunctionCall c (turn false h MsgFunctionCall).
Proof.
  intros Hg Hv. unfold handleFunctionCall.
  eapply (ends_bind _ _ _ (fun e v l => e = None /\ v = (mkInput rest err, None, false) /\ l = [])).
  - eapply ends_bind; [by apply ends_discardMessageBody|]. intros e c1 l Hg1 (-> & Hv1 & ->). by apply ends_ret.
  - intros e c1 l Hg1 (-> & Hv1 & ->). by eapply (ends_close_error _ _ _ []).
Qed.

(** ** Draining *)

(** A message that is drained is consumed and nothing else. *)
Lemma ends_drained ty c :
  good c -> view_of c = (body_input body rest err, None, true) -> ty <> MsgSync -> ty <> MsgTerminate ->
  ends (maybeDispatchDrain ty) c (fun h v l => h = Some None /\ v = (mkInput rest err, None, true) /\ l = []).
Proof.
  intros Hg Hv Hs Ht. unfold maybeDispatchDrain. apply ends_get.
  assert (discardingUntilSync c = true) as -> by (unfold view_of in Hv; congruence). cbn [negb].
  rewrite !(bool_decide_eq_false_2 (ty = _)) by done.
  assert (forall m : Act (option goerror), ends m c (fun e v l => e = None /\ v = (mkInput rest err, None, true) /\ l = []) ->
    ends (e ← m; mret (Some e)) c (fun h v l => h = Some None /\ v = (mkInput rest err, None, true) /\ l = [])) as Hret.
  { intros m Hm. eapply ends_bind; [exact Hm|]. intros e c1 l Hg1 (-> & Hv1 & ->). by apply ends_ret. }
  case_bool_decide; apply Hret; unfold drain_flush, drainExtendedQueryMessage, act_val; (eapply ends_length; [done..|]); intros c1 Hg1 Hv1.
  - destruct (Z.eqb_spec (Z.of_nat (length body)) 0) as [E0|_]; cbn [negb].
    + destruct body; [|done]. eapply ends_mono; [by apply ends_flush|]. cbn. rewrite Hv1. done.
    + eapply ends_body; [done..|]. intros c2 Hg2 Hv2. apply ends_then; [by apply ends_returnReadBuffer|].
      intros _ c3 Hg3 Hv3. eapply ends_mono; [by apply ends_flush|]. cbn. by rewrite Hv3, Hv2.
  - eapply ends_body; [done..|]. intros c2 Hg2 Hv2. apply ends_then; [by apply ends_returnReadBuffer|].
    intros _ c3 Hg3 Hv3. apply ends_ret; [done|]. by rewrite Hv3, Hv2.
Qed.

Lemma turn_drained h ty : ty <> MsgSync -> turn true h ty None (mkInput rest err, None, true) [].
Proof.
  intros Hs. exists None, true. split_and!; [done|done|done|]. assert (closing ty true = 0%nat) as Hc.
  { unfold closing. rewrite bool_decide_eq_false_2 by done. cbn [orb negb]. by rewrite andb_false_r. }
  constructor; try done. by rewrite Hc.
Qed.

(** A message is drained, or dispatched by [k]. *)
Lemma ends_unless_drained p h ty k d c :
  good c -> view_of c = (body_input body rest err, d, p) -> (p = true -> d = None) -> ty <> MsgTerminate ->
  (forall c', good c' -> view_of c' = (body_input body rest err, d, false) -> (p = true -> ty = MsgSync) ->
     ends k c' (turn p h ty)) ->
  ends (unless_drained ty k) c (turn p h ty).
Proof.
  intros Hg Hv Hd Ht Hk. assert (discardingUntilSync c = p) as Ep by (unfold view_of in Hv; congruence).
  destruct p; [|unfold ends; rewrite unless_drained_off by done; by apply Hk].
  unfold unless_drained. rewrite (Hd eq_refl) in Hv.
  destruct (decide (ty = MsgSync)) as [->|Hs].
  - apply (ends_silent _ _ _ (fun h v => h = None /\ v = (body_input body rest err, None, false))).
    + unfold maybeDispatchDrain. apply ends_get. rewrite Ep. apply (ends_silent _ _ _ (fun _ v => v = (body_input body rest err, None, false))).
      { apply ends_modify; [done..|]. split; [|done]. unfold view_of in *. cbn. congruence. }
      intros _ c1 Hg1 Hv1. by apply ends_ret.
    + intros o c1 Hg1 [-> Hv1]. apply Hk; [done| |done]. by rewrite (Hd eq_refl).
  - eapply ends_bind; [by apply ends_drained|]. intros o c1 l Hg1 (-> & Hv1 & ->). apply ends_ret; [done|].
    rewrite Hv1. by apply turn_drained.
Qed.

Lemma ends_dispatch p h ty c :
  good c -> view_of c = (body_input body rest err, None, false) -> (p = true -> ty = MsgSync) ->
  ty <> MsgExecute -> ty <> MsgTerminate -> ends (dispatch ty) c (turn p h ty).
Proof.
  intros Hg Hv Hp Hx Hterm. unfold dispatch.
  assert (ty <> MsgSync -> p = false) as Hp' by (intros; destruct p; naive_solver).
  repeat case_bool_decide; subst; rewrite ?Hp' by done;
    [by apply ends_handleQuery
    |eapply ends_mono; [by apply ends_handleParse|]; intros; by apply served_turn
    |eapply ends_mono; [by apply ends_handleBind|]; intros; by apply served_turn
    |eapply ends_mono; [by apply ends_handleDescribe|]; intros; by apply served_turn
    |eapply ends_mono; [by apply ends_handleClose|]; intros; by apply served_turn
    |by apply ends_handleSync
    |eapply ends_mono; [by apply ends_handleFlush|]; intros; by apply served_turn
    |by apply ends_handleFunctionCall
    |apply ends_ret; [done|]; right; split; [done|]; exists [], []; split_and!; [done|done|]; right;
     split_and!; [done|left; set_solver|done]].
Qed.

(** A message that ends the loop has closed no cycle. *)
Lemma turn_unclosed p h ty e v l : turn p h ty (Some e) v l -> readies l = 0%nat.
Proof.
  intros [(_ & _ & ->)|(_ & l1 & tail & -> & Hl & Ht)]; [done|]. rewrite readies_app, readies_replies by done.
  destruct Ht as [[(_ & d & _ & ->)|(e' & part & _ & _ & _ & _ & ->)]|(_ & _ & ->)]; done.
Qed.

(** The turn of a message after a held Describe was answered. *)
Lemma turn_resolved i d p1 h l1 ty e v l :
  ty <> MsgTerminate -> served false i None (i, d, p1) l1 -> (h = false -> p1 = false) ->
  turn p1 false ty e v l -> turn false h ty e v (l1 ++ l).
Proof.
  intros Hterm (l2 & tail & -> & Hl & Hs) Hh Ht.
  assert (turn false h MsgFlush None (mkInput rest err, d, p1) (l2 ++ tail)) as Han.
  { apply served_turn; [done..|]. exists l2, tail. split_and!; [done|done|].
    destruct Hs as [(d' & [= <- ->] & [->|[=]] & ->)|(d' & [= -> ->] & ->)]; eauto 7. }
  destruct Han as (d' & p' & [= <- <-] & _ & _ & [Hw He1 Hr1 _ _ _ _]). destruct e as [e|].
  - destruct Ht as [(? & _)|(-> & l3 & tail2 & -> & Hl3 & Ht)]; [done|]. right. split; [done|].
    destruct Hs as [(d' & _ & _ & ->)|(d' & [=] & _)]. rewrite app_nil_r. exists (l2 ++ l3), tail2.
    split_and!; [by rewrite app_assoc|by apply Forall_app|done].
  - destruct Ht as (d2 & p2 & -> & Hd & Hds & [Hw2 He Hr _ Ho Hsy Hla]). exists d2, p2. split_and!; [done|done|done|].
    constructor; [| | |done|by intros _ Hh0; apply Ho; [apply Hh|]|done|].
    + by apply Forall_app.
    + by rewrite after_errors_app, He1.
    + rewrite readies_app, Hr1, Hr. done.
    + intros Hc. destruct (Hla Hc) as (l3 & b & ->). exists ((l2 ++ tail) ++ l3), b. by rewrite app_assoc.
Qed.

Lemma ends_handleMessage p h ty d c :
  good c -> view_of c = (body_input body rest err, d, p) -> (p = true -> d = None) -> (d <> None -> h = true) ->
  (ty = MsgExecute -> parses_Execute body) -> ends (handleMessage ty) c (turn p h ty).
Proof.
  intros Hg Hv Hd Hh Hex. unfold handleMessage. destruct (decide (ty = MsgTerminate)) as [->|Ht].
  { unfold unless_drained, maybeDispatchDrain. eapply (ends_silent _ _ _ (fun h _ => h = None)).
    - apply ends_get. destruct (negb _); by apply ends_ret.
    - intros o c1 Hg1 ->. apply ends_ret; [done|]. by left. }
  eapply ends_unless_drained; [done..|]. intros c1 Hg1 Hv1 Hp.
  rewrite (bool_decide_eq_false_2 (ty = MsgTerminate)) by done.
  case_bool_decide as Hx.
  { subst ty. destruct p; [by specialize (Hp eq_refl)|]. eapply ends_mono; [eapply ends_handleExecute; eauto|].
    intros. by apply served_turn. }
  destruct p.
  - rewrite (Hd eq_refl) in Hv1. unfold resolveDeferredPortalDescribe. unfold act_try.
    apply (ends_silent _ _ _ (fun e v => e = None /\ v = view_of c1)).
    { apply ends_get. assert (deferredPortalDescribe c1 = None) as -> by (unfold view_of in Hv1; congruence). by apply ends_ret. }
    intros e c2 Hg2 [-> Hv2]. rewrite Hv1 in Hv2. unfold ends.
    rewrite unless_drained_off by (unfold view_of in Hv2; congruence). by apply ends_dispatch.
  - eapply ends_bind; [by eapply ends_resolve|]. intros e c2 l Hg2 (Hs & Hd2 & Hn).
    destruct e as [e|].
    { apply ends_ret; [done|]. rewrite app_nil_r. destruct Hs as (l1 & tail & -> & Hl & Hhalt). right. split; [done|].
      exists l1, tail. auto. }
    assert (exists p2, view_of c2 = (body_input body rest err, None, p2)) as [p2 Hv2]
      by (destruct (served_next _ _ _ _ Hs Hd2) as [[? _]|?]; eauto).
    eapply ends_mono; [eapply (ends_unless_drained p2 false); [done..|]; intros c3 Hg3 Hv3 Hp3; by apply ends_dispatch|].
    intros e v l2. apply (turn_resolved (body_input body rest err) None); [done|by rewrite <- Hv2|].
    intros ->. destruct d; [by specialize (Hh ltac:(done))|]. destruct (Hn eq_refl) as (_ & E & _). congruence.
Qed.

End message.
(** ** The command loop *)

(** What has reached the client, of the chunks [l] written: everything up to the last
    ReadyForQuery at least. *)
Definition seen (base : list byte) (l : list chunk) (n : Net) : Prop :=
  delivered n `prefix_of` base ++ chunks_bytes l /\
  exists l1 l2, l = l1 ++ l2 /\ readies l2 = 0%nat /\ base ++ chunks_bytes l1 `prefix_of` delivered n.

(** The loop is where [l] has been written since [base]. *)
Definition at_chunks (base : list byte) (l : list chunk) (c : Conn) : Prop :=
  good c /\ stream (c_ws c) = base ++ chunks_bytes l /\ seen base l (net (c_ws c)).

Lemma at_chunks_wrote base l c l' c' :
  at_chunks base l c -> wrote c l' c' -> readies l' = 0%nat \/ flushed c' -> at_chunks base (l ++ l') c'.
Proof.
  intros (Hg & Es & [Hp (l1 & l2 & -> & Hr & Hl1)]) [Hg' Es' Hm] Hor.
  assert (stream (c_ws c') = base ++ chunks_bytes ((l1 ++ l2) ++ l')) as Ec
    by (by rewrite Es', Es, (chunks_bytes_app (l1 ++ l2)), app_assoc).
  split_and!; [done|done|]. split; [rewrite <- Ec; by apply prefix_app_r|].
  destruct Hor as [Hr'|Hfl].
  - exists l1, (l2 ++ l'). split_and!; [by rewrite app_assoc|by rewrite readies_app, Hr, Hr'|by etrans].
  - exists ((l1 ++ l2) ++ l'), []. split_and!; [by rewrite app_nil_r|done|]. rewrite <- Ec. unfold stream.
    by rewrite Hfl, app_nil_r.
Qed.

(** Why a message ends the loop, the loop's error, and what the message was answered
    with, where [p] says whether the connection drains messages: the client takes its
    leave; a fatal error is reported; the handler fails inside a row, which is
    left incomplete; or the message cannot be read, and is answered as an error. *)
Inductive stops : bool -> byte -> list byte -> option goerror -> list chunk -> Prop :=
| stop_terminate p body : stops p MsgTerminate body None []
| stop_fatal ty body l d : Forall is_reply l -> reported_fatal d -> stops false ty body None (l ++ [error_frame d])
| stop_row ty body l part e e0 : Forall is_reply l -> streams e0 -> part <> [] -> row_prefix part ->
    stops false ty body e (l ++ [ChRaw part])
| stop_unreadable ty body l d b e : Forall is_reply l -> unreadable ty body ->
    stops false ty body (Some e) (l ++ [error_frame d; ChFrame MsgReadyForQuery b]).

Lemma stops_errors p ty body e l : stops p ty body e l -> is_Some (after_errors p l).
Proof. destruct 1; [done|..]; rewrite after_errors_app, after_errors_replies by done; eauto. Qed.

(** An error that is last has been delivered. *)
Definition told (base : list byte) (l tail : list chunk) (n : Net) : Prop :=
  forall ch, last tail = Some ch -> is_error ch = true -> delivered n = base ++ chunks_bytes (l ++ tail).

Lemma told_flushed base l tail c : at_chunks base (l ++ tail) c -> flushed c -> told base l tail (net (c_ws c)).
Proof. intros (_ & Es & _) Hf ch _ _. unfold stream in Es. rewrite Hf in Es. cbn in Es. by rewrite app_nil_r in Es. Qed.

Lemma told_no_error base l tail n ch : is_error ch = false -> told base l (tail ++ [ch]) n.
Proof. intros He ch'. rewrite last_snoc. intros [= <-]. congruence. Qed.

(** The round writes [l] and ends with [r]. *)
Record round_ok (base : list byte) (l0 : list chunk) (p h : bool) (ty : byte) (body : list byte) (rest : Input)
    (r : option goerror + bool) (c' : Conn) (l : list chunk) : Prop := {
  rd_seen : seen base (l0 ++ l) (net (c_ws c'));
  rd_turn :
    match r with
    | inl e => stops p ty body e l /\ told base l0 l (net (c_ws c'))
    | inr _ => at_chunks base (l0 ++ l) c' /\
        exists d p', view_of c' = (rest, d, p') /\ (p' = true -> d = None) /\ (d <> None -> ty = MsgDescribe) /\
          answered p h ty l p'
    end
}.

Lemma at_flushed base l c c' :
  at_chunks base l c -> wrote c [] c' -> flushed c' -> at_chunks base l c'.
Proof. intros Hat Hw Hf. rewrite <- (app_nil_r l). eapply at_chunks_wrote; eauto. Qed.

(** A handler's error is left as it is, whether the buffer is flushed or dropped. *)
Lemma finish_halts base l0 l1 tail h ty body rest e c :
  at_chunks base (l0 ++ l1 ++ tail) c -> Forall is_reply l1 -> halts e tail ->
  exists r c' l', finish_round ty (Some e) c = Some (inl r, c') /\ round_ok base l0 false h ty body rest (inl r) c' l'.
Proof.
  intros Hat Hl Hh. pose proof Hat as (Hg & _ & Hseen). cbn [finish_round].
  destruct (endWriterBuffering_flushes c Hg) as (c1 & E1 & Hw1 & Hf1 & _).
  pose proof (at_flushed _ _ _ _ Hat Hw1 Hf1) as Hat1. pose proof Hat1 as (_ & _ & Hseen1).
  destruct Hh as [(-> & d & Hd & ->)|(e' & part & -> & [e0 He0] & Hne & Hpre & ->)].
  - change (errors_Is io_EOF _) with false. change (errors_Is errFatalDiagnosticSent _) with true. cbv iota.
    eexists None, c1, _. split; [unfold mbind, act_bind; by rewrite E1|].
    constructor; [exact Hseen1|]. split; [by constructor|]. by apply told_flushed.
  - assert (forall r c', seen base (l0 ++ l1 ++ [ChRaw part]) (net (c_ws c')) ->
      round_ok base l0 false h ty body rest (inl r) c' (l1 ++ [ChRaw part])) as Hok.
    { intros r c' Hs. constructor; [done|]. split; [by econstructor|by apply told_no_error]. }
    destruct (errors_Is io_EOF _); [by eexists _, _, _; split; [|apply Hok]|].
    destruct (errors_Is errFatalDiagnosticSent _).
    { eexists None, c1, _. split; [unfold mbind, act_bind; by rewrite E1|]. by apply Hok. }
    change (errors_Is errIncompleteDataRow _) with true. cbn [orb].
    destruct (total_abortWriterBuffering c) as ([] & c' & E & _); [by destruct Hg|]. eexists _, c', _. split.
    + unfold mbind, act_bind. by rewrite E.
    + apply Hok. unfold abortWriterBuffering in E. destruct (lock _) eqn:El; [|done]. cbn in E. simplify_eq.
      unfold lock in El. destruct (bufMu (c_ws c)); by simplify_eq.
Qed.

Lemma finish_unreadable base l0 l1 h ty body rest e c :
  at_chunks base (l0 ++ l1) c -> Forall is_reply l1 -> internal e -> unreadable ty body ->
  exists r c' l', finish_round ty (Some e) c = Some (inl r, c') /\ round_ok base l0 false h ty body rest (inl r) c' l'.
Proof.
  intros Hat Hl (E1 & E2 & E3 & E4) Hu. pose proof Hat as (Hg & _). cbn [finish_round]. rewrite E1, E2, E3, E4. cbn [orb].
  destruct (ends_writeError (EPg (NewWithDetail MTD03 (Error e))) c Hg) as (r1 & c1 & l2 & Ew & Hw1 & -> & _ & ->).
  destruct (ends_ready c1 (wrote_good _ _ _ Hw1)) as (b2 & r2 & c2 & l3 & Er & Hw2 & -> & _ & ->).
  destruct (endWriterBuffering_flushes c2 (wrote_good _ _ _ Hw2)) as (c3 & Ef & Hw3 & Hf3 & _).
  pose proof (wrote_trans _ _ _ _ _ (wrote_trans _ _ _ _ _ Hw1 Hw2) Hw3) as Hw. cbn [app] in Hw.
  eexists (Some e), c3, (l1 ++ _). split; [unfold mbind, act_bind; rewrite Ew; cbn; rewrite Er; cbn; by rewrite Ef|].
  constructor; [rewrite app_assoc; by eapply at_chunks_wrote; [..|right]|]. split; [by constructor|].
  rewrite cons_middle, app_assoc. by apply told_no_error.
Qed.

Lemma finish_error base l0 p h l body rest ty e v err c :
  at_chunks base (l0 ++ l) c -> turn body rest err p h ty (Some e) v l ->
  exists r c' l', finish_round ty (Some e) c = Some (inl r, c') /\
    round_ok base l0 p h ty body (mkInput rest err) (inl r) c' l'.
Proof.
  intros Hat [(-> & -> & ->)|(-> & l1 & tail & -> & Hl & [Hh|(Hi & Hu & ->)])].
  - cbn. eexists None, c, []. split; [done|]. constructor; [by destruct Hat as (_ & _ & ?)|]. split; [constructor|done].
  - by eapply finish_halts.
  - rewrite app_nil_r in Hat. by eapply finish_unreadable.
Qed.

Lemma finish_ok base l0 p h l p' ty body rest d c c1 :
  at_chunks base l0 c -> wrote c l c1 -> view_of c1 = (rest, d, p') -> (p' = true -> d = None) ->
  (d <> None -> ty = MsgDescribe) -> answered p h ty l p' ->
  exists w c', finish_round ty None c1 = Some (inr w, c') /\ round_ok base l0 p h ty body rest (inr w) c' l.
Proof.
  intros Hat Hw Hv Hd Hds Han.
  assert (forall c', wrote c l c' -> readies l = 0%nat \/ flushed c' -> view_of c' = view_of c1 ->
    forall w, round_ok base l0 p h ty body rest (inr w) c' l) as Hok.
  { intros c' Hw' Hor Hv' w. pose proof (at_chunks_wrote _ _ _ _ _ Hat Hw' Hor) as Hat'. constructor; [by destruct Hat' as (_ & _ & ?)|].
    split; [done|]. exists d, p'. by rewrite Hv'. }
  cbn [finish_round]. unfold mbind at 1, act_bind at 1, get. cbn [mbind option_bind]. cbv zeta.
  assert (discardingUntilSync c1 = p') as -> by (unfold view_of in Hv; congruence).
  destruct (_ || _) eqn:Eb.
  - destruct (endWriterBuffering_flushes c1 (wrote_good _ _ _ Hw)) as (c2 & E & Hw2 & Hf & Hv2).
    eexists true, c2. split; [unfold mbind, act_bind; by rewrite E|]. apply Hok; [|by right|done].
    rewrite <- (app_nil_r l). by eapply wrote_trans.
  - eexists false, c1. split; [done|]. apply Hok; [done| |done]. left. rewrite (an_ready _ _ _ _ _ Han).
    unfold closing. destruct (bool_decide (ty = MsgSync)), (bool_decide (ty = MsgQuery)), (bool_decide (ty = MsgFunctionCall)), p'; done.
Qed.

(** What is asked of the handler: a statement it describes has a description, and rows
    it passes through are whole. *)
Record handler_ok : Prop := {
  ho_describe : forall s name s', HandleDescribe s "S" name <> (inr None, s');
  ho_query : forall s q, rows_framed true false [] (HandleQuery s q);
  ho_execute : forall s name n fold, rows_framed false false [] (HandleExecute s name n fold)
}.

(** A round on a frame. *)
Lemma serve_round_frame base l0 p h ty body rest err d waiting c :
  handler_ok ->
  at_chunks base l0 c -> view_of c = (mkInput (frame_bytes ty body ++ rest) err, d, p) -> (p = true -> d = None) ->
  (d <> None -> h = true) -> acceptable body -> (ty = MsgExecute -> parses_Execute body) ->
  exists r c' l, serve_round waiting c = Some (r, c') /\ round_ok base l0 p h ty body (mkInput rest err) r c' l.
Proof.
  intros [Hdesc Hq Hx] Hat Hv Hd Hh Hacc Hex. pose proof Hat as (Hg & _).
  rewrite (serve_round_message _ ty body rest err) by (unfold view_of in Hv; congruence).
  set (m := _ ← startWriterBuffering; e ← handleMessage ty; finish_round ty e).
  set (c0 := set_in _ c).
  assert (wrote c [] c0) as Hw0.
  { destruct Hg as [[? ?] ?]. constructor; [by split|by rewrite app_nil_r|done]. }
  assert (view_of c0 = (body_input body rest err, d, p)) as Hv0 by (unfold view_of in *; cbn; congruence).
  assert (ends (_ ← startWriterBuffering; handleMessage ty) c0 (turn body rest err p h ty)) as (e & c1 & l & E & Hw & Ht).
  { apply ends_then; [apply ends_startWriterBuffering; by destruct Hw0|]. intros _ c1 Hg1 Hv1. rewrite Hv0 in Hv1.
    by eapply ends_handleMessage. }
  pose proof (wrote_trans _ _ _ _ _ Hw0 Hw) as Hw1. cbn [app] in Hw1.
  assert (m c0 = finish_round ty e c1) as ->.
  { unfold m, mbind, act_bind in *. destruct (startWriterBuffering c0) as [[u c2]|]; [|done]. cbn in E |- *. by rewrite E. }
  destruct e as [e|].
  - destruct (finish_error base l0 p h l body rest ty e (view_of c1) err c1) as (r & c2 & l2 & -> & Hok); eauto.
    eapply at_chunks_wrote; [done..|]. left. by eapply turn_unclosed.
  - destruct Ht as (d' & p' & Hv1 & Hd' & Hds & Han).
    destruct (finish_ok base l0 p h l p' ty body (mkInput rest err) d' c c1) as (w & c2 & -> & Hok); eauto.
Qed.

(** The round that finds the input at its end: silence, or the notice of an idle session. *)
Lemma serve_round_end base l0 err waiting c :
  at_chunks base l0 c -> c_in c = mkInput [] err ->
  exists e c' l, serve_round waiting c = Some (inl e, c') /\ seen base (l0 ++ l) (net (c_ws c')) /\
    told base l0 l (net (c_ws c')) /\
    (l = [] \/ (err = net_timeout /\ l = [error_frame NewIdleSessionTimeout])) /\ (err = io_EOF -> e = None).
Proof.
  intros Hat Ei. pose proof Hat as (Hg & _ & Hs). unfold serve_round. unfold mbind at 1, act_bind at 1, get. cbn [mbind option_bind].
  unfold mbind at 1, act_bind at 1, rd, readMessageType. rewrite Ei. cbn [inp mbind option_bind fst snd inp_err].
  replace (set_in _ c) with c by (rewrite <- Ei; by destruct c). destruct (_ && _) eqn:Ea.
  - apply andb_true_iff in Ea as [_ Et]. cbn in Et. apply bool_decide_eq_true in Et. unfold handleIdleSessionTimeout.
    destruct (ends_startWriterBuffering c Hg) as ([] & c1 & l1 & E1 & Hw1 & Hv1 & ->).
    destruct (ends_wr _ _ _ c1 (writePgDiagnosticResponse_sends MsgErrorResponse NewIdleSessionTimeout) (wrote_good _ _ _ Hw1))
      as (r2 & c2 & l2 & E2 & Hw2 & -> & _ & ->).
    destruct (endWriterBuffering_flushes c2 (wrote_good _ _ _ Hw2)) as (c3 & E3 & Hw3 & Hf & _).
    pose proof (wrote_trans _ _ _ _ _ (wrote_trans _ _ _ _ _ Hw1 Hw2) Hw3) as Hw. cbn [app] in Hw.
    assert (at_chunks base (l0 ++ [error_frame NewIdleSessionTimeout]) c3) as Hat3 by (by eapply at_chunks_wrote; [..|right]).
    eexists None, c3, _. split_and!.
    + unfold mbind, act_bind. rewrite E1. cbn [mbind option_bind]. rewrite E2. cbn [mbind option_bind]. rewrite E3. done.
    + apply Hat3.
    + by apply told_flushed.
    + by right.
    + done.
  - destruct (errors_Is io_EOF _) eqn:Ee.
    + eexists _, c, []. split_and!; [done|by rewrite app_nil_r|done|by left|done].
    + eexists _, c, []. split_and!; [done|by rewrite app_nil_r|done|by left|]. intros ->. done.
Qed.

(** A sequence of messages, each answered in its turn; a Describe may be held back
    until the message that follows it, no longer. *)
Inductive conversation : bool -> bool -> list (byte * list byte) -> list chunk -> bool -> bool -> Prop :=
| conv_nil p h : conversation p h [] [] p h
| conv_cons p h ty body l p1 ms ls p2 h2 :
    answered p h ty l p1 -> conversation p1 (bool_decide (ty = MsgDescribe)) ms ls p2 h2 ->
    conversation p h ((ty, body) :: ms) (l ++ ls) p2 h2.

Lemma conversation_snoc p h ms l p1 h1 ty body l1 p2 :
  conversation p h ms l p1 h1 -> answered p1 h1 ty l1 p2 ->
  conversation p h (ms ++ [(ty, body)]) (l ++ l1) p2 (bool_decide (ty = MsgDescribe)).
Proof.
  induction 1 as [p h|p h ty0 body0 l0 p0 ms ls p1 h1 H0 _ IH]; intros Ha; cbn [app].
  - rewrite <- (app_nil_r l1). econstructor; [done|constructor].
  - rewrite <- app_assoc. econstructor; eauto.
Qed.

Lemma conversation_errors p h ms l p' h' : conversation p h ms l p' h' -> after_errors p l = Some p'.
Proof.
  induction 1 as [p h|p h ty body l p1 ms ls p2 h2 [_ He _ _ _ _ _] _ IH]; [done|]. by rewrite after_errors_app, He.
Qed.

Definition frames (ms : list (byte * list byte)) : list byte := concat ((fun m => frame_bytes m.1 m.2) <$> ms).

(** A message the loop can read to its end; the body of an Execute is well formed. *)
Definition sound_message (m : byte * list byte) : Prop :=
  acceptable m.2 /\ (m.1 = MsgExecute -> parses_Execute m.2).

(** How the connection ends, fed with the messages [ms] and then the condition [err]:
    it served [served_ms], answering with [l], and ended with [tail] and the error [e],
    because the input was at its end or because of the message that followed. *)
Record ending (base : list byte) (ms : list (byte * list byte)) (err : sentinel)
    (served_ms : list (byte * list byte)) (l tail : list chunk) (e : option goerror) (n : Net) : Prop := {
  en_stop : exists p h, conversation false false served_ms l p h /\
    ((served_ms = ms /\ (tail = [] \/ (err = net_timeout /\ tail = [error_frame NewIdleSessionTimeout])) /\
      (err = io_EOF -> e = None)) \/
     exists ty body rest, ms = served_ms ++ (ty, body) :: rest /\ stops p ty body e tail);
  en_errors : is_Some (after_errors false (l ++ tail));
  en_seen : seen base (l ++ tail) n;
  en_told : told base l tail n
}.

Lemma serve_loop_conversation base ms0 err :
  handler_ok ->
  forall ms fuel waiting l0 d p h before c,
  ms0 = before ++ ms -> Forall sound_message ms -> (length ms < fuel)%nat ->
  conversation false false before l0 p h -> at_chunks base l0 c ->
  view_of c = (mkInput (frames ms) err, d, p) -> (p = true -> d = None) -> (d <> None -> h = true) ->
  exists e c' served_ms l tail, serve_loop fuel waiting c = Some (Some e, c') /\
    ending base ms0 err served_ms l tail e (net (c_ws c')).
Proof.
  intros Hok ms. induction ms as [|[ty body] ms IH]; intros fuel waiting l0 d p h before c Eb Hms Hf Hconv Hat Hv Hd Hh;
    (destruct fuel as [|fuel]; [cbn in Hf; lia|]); cbn [serve_loop].
  - destruct (serve_round_end base l0 err waiting c Hat) as (e & c' & l & E & Hs & Ht & Hl & He).
    { unfold view_of in Hv. by simplify_eq. }
    exists e, c', before, l0, l. split; [unfold mbind, act_bind; by rewrite E|]. constructor; [| |done|done].
    + exists p, h. split; [done|]. left. by rewrite Eb, app_nil_r.
    + rewrite after_errors_app, (conversation_errors _ _ _ _ _ _ Hconv). cbn.
      destruct Hl as [->|[_ ->]]; [done|]. cbn. rewrite andb_false_r. done.
  - apply Forall_cons in Hms as [[Hacc Hex] Hms].
    destruct (serve_round_frame base l0 p h ty body (frames ms) err d waiting c) as (r & c1 & l & E & [Hs Ht]); try done.
    unfold mbind, act_bind. rewrite E. cbn [mbind option_bind]. destruct r as [e|w].
    + destruct Ht as [Hst Ht]. exists e, c1, before, l0, l. split; [done|]. constructor; [|..|done|done].
      * exists p, h. split; [done|]. right. by exists ty, body, ms.
      * rewrite after_errors_app, (conversation_errors _ _ _ _ _ _ Hconv). by eapply stops_errors.
    + destruct Ht as (Hat1 & d1 & p1 & Hv1 & Hd1 & Hds & Han).
      eapply (IH fuel w (l0 ++ l) d1 p1 (bool_decide (ty = MsgDescribe)) (before ++ [(ty, body)])); try done.
      * by rewrite <- app_assoc.
      * cbn in Hf. lia.
      * by eapply conversation_snoc.
      * intros Hn. by apply bool_decide_eq_true, Hds.
Qed.

Lemma frames_length ms : (length ms <= length (frames ms))%nat.
Proof.
  unfold frames. induction ms as [|[ty body] ms IH]; [done|]. rewrite fmap_cons. cbn [concat fst snd length].
  rewrite length_app. unfold frame_bytes at 1. rewrite length_app, header_length. lia.
Qed.

(** C30: A connection follows the protocol.  Over a working network, with a handler that
    gives every statement it describes a description and passes rows through whole (in
    pieces of any size), fed with any frames of acceptable length whose Execute
    messages are well formed, the loop returns.  It has answered a prefix of the frames,
    each in its turn and with whole frames.  After an ErrorResponse only an ErrorResponse
    or ReadyForQuery is sent, and every message until the next Sync is drained, without
    an answer; a Query or FunctionCall is drained otherwise only if the Describe sent
    just before it was held back until then and failed.  Each Sync, and each Query and
    FunctionCall that is not drained, is answered by exactly one ReadyForQuery, the last
    frame of its answer; no other message is answered by any.  The loop stopped for one
    of these reasons: the frames were at their end (without a word, but for the notice of
    an idle session if a timeout ended them, and without an error if the client closed
    the connection); the next message is a Terminate, left without a word; the handler
    reported a fatal error, whose diagnostic was sent last, no ReadyForQuery after it; a
    streaming call of the handler failed inside a row, of which only the beginning is
    out; or the next message has an unknown type or is a Query without its terminator,
    answered by an ErrorResponse and a ReadyForQuery.  What reached the client is a
    prefix of all this, up to the last ReadyForQuery at least, and up to the end if that
    is an error. *)
Theorem serve_follows_protocol c ms err :
  handler_ok -> good c -> flushed c -> view_of c = (mkInput (frames ms) err, None, false) -> Forall sound_message ms ->
  exists e c' served_ms l tail, serve c = Some (Some e, c') /\
    ending (delivered (net (c_ws c))) ms err served_ms l tail e (net (c_ws c')).
Proof.
  intros Hok Hg Hfl Hv Hms. unfold serve.
  eapply (serve_loop_conversation (delivered (net (c_ws c))) ms err Hok ms _ _ [] None false false []); try done.
  - unfold view_of in Hv. assert (c_in c = mkInput (frames ms) err) as -> by congruence. cbn. pose proof (frames_length ms). lia.
  - constructor.
  - split_and!; [done| |split].
    + unfold stream. by rewrite Hfl.
    + by apply prefix_app_r.
    + exists [], []. split_and!; [done|done|]. cbn. by rewrite app_nil_r.
Qed.
End safety.

Lemma demo_handler_ok : @handler_ok demo_handler.
Proof.
  split; [apply demo_described| |].
  - intros s q. cbn. case_bool_decide; cbn; [by left|]. exists []. split; [|by left]. by constructor.
  - intros s name n fold. cbn. exists []. split; [|by left]. by constructor.
Qed.

Lemma serve_follows_protocol_witness :
  exists e c' served_ms l tail, @serve bucket_pool demo_handler (demo_conn (frames demo_frames)) = Some (Some e, c') /\
    @ending demo_handler [] demo_frames io_EOF served_ms l tail e (net (c_ws c')).
Proof.
  apply (serve_follows_protocol (demo_conn (frames demo_frames)) demo_frames io_EOF).
  - apply demo_handler_ok.
  - split; [apply demo_conn_ok|done].
  - done.
  - reflexivity.
  - repeat constructor; cbn; try by_decide; try done; intros _; eexists; vm_compute; reflexivity.
Defined.

(** ** A malformed Execute *)

(** The types of the frames in [l]. *)
Fixpoint frame_types (fuel : nat) (l : list byte) : list byte :=
  match fuel, readMessage (mkInput l io_EOF) with
  | S fuel', (inr (ty, _), i) => ty :: frame_types fuel' (inp i)
  | _, _ => []
  end.

Definition held_describe : list (byte * list byte) :=
  (fun q => (request_type q, request_body q)) <$> [RParse "s" "select 1" []; RBind demo_bind; RDescribe "P" "p"].

(** A malformed Execute leaves a held Describe held: at the Sync the row description is
    sent after the ErrorResponse and before ReadyForQuery, where the protocol allows
    nothing.  This is why Execute messages are assumed to be well formed above. *)
Example malformed_execute_leaks :
  (fun r => frame_types 9 (delivered (net (c_ws r.2)))) <$>
    @serve bucket_pool demo_handler (demo_conn (frames (held_describe ++ [(MsgExecute, [x41]); (MsgSync, [])]))) =
  Some [MsgParseComplete; MsgBindComplete; MsgErrorResponse; MsgRowDescription; MsgReadyForQuery].
Proof. vm_compute. reflexivity. Qed.
