(* ===== verification/ServerRefinement.v ===== *)
(** A connection serves requests, not bytes: fed with what a client writes for a list of
    requests, the command loop does what a server would do that is handed the requests
    themselves.  The handler is any, and so is the way writing to the network fails; the
    buffers of the pool are the only thing in which the two may differ. *)

From Stdlib Require Import Strings.Byte.
From stdpp Require Import base numbers list gmap strings.
From S2P Require Import Prelude.
From S2P Require Import Bytes.
From S2P Require Import Diagnostics.
From S2P Require Import BufPool.
From S2P Require Import Wire.
From S2P Require Import WireFacts.
From S2P Require Import WireMessages.
From S2P Require Import WireRequests.
From S2P Require Import ServerConn.
From S2P Require Import ServerDemo.
From S2P Require Import ServerTotal.
From S2P Require Import ServerRuns.

Local Open Scope Z_scope.

Section refinement.
Context {BP : BufferPool} {H : Handler}.

(** ** The server of requests *)

Definition request_action (q : request) : Act (option goerror) :=
  match q with
  | RQuery s => query_action s
  | RParse name s types => parse_action name s types
  | RBind a => bind_action a
  | RExecute portal n => execute_action portal n
  | RDescribe typ name => describe_action typ name
  | RClose typ name => close_action typ name
  | RSync => sync_action
  | RFlush => flush
  | RTerminate => mret (Some (ESentinel io_EOF))
  end.

(** After an error requests are skipped up to the next Sync. *)
Definition skipping (q : request) (k : Act (option goerror)) : Act (option goerror) :=
  c ← get;
  if negb (discardingUntilSync c) then k
  else match q with
       | RSync => _ ← modify (set_discarding false); k
       | RTerminate => k
       | RFlush => flush
       | _ => mret None
       end.

Definition serve_request (q : request) : Act (option goerror) :=
  skipping q
    (match q with
     | RExecute _ _ | RTerminate => request_action q
     | _ => act_try resolveDeferredPortalDescribe (skipping q (request_action q))
     end).

(** The client closes the connection after its last request. *)
Fixpoint serve_requests (qs : list request) : Act (option goerror) :=
  match qs with
  | [] => mret None
  | q :: qs' =>
      _ ← startWriterBuffering;
      e ← serve_request q;
      r ← finish_round (request_type q) e;
      match r with inl e => mret e | inr _ => serve_requests qs' end
  end.

(** ** Equal up to input and pool buffers *)

Record same (c1 c2 : Conn) : Prop := {
  sm_writer : bufferedWriter (c_ws c1) = bufferedWriter (c_ws c2);
  sm_net : net (c_ws c1) = net (c_ws c2);
  sm_spare : w_spare c1 = w_spare c2;
  sm_session : c_session c1 = c_session c2;
  sm_reported : reportedParams c1 = reportedParams c2;
  sm_deferred : deferredPortalDescribe c1 = deferredPortalDescribe c2;
  sm_discarding : discardingUntilSync c1 = discardingUntilSync c2
}.

#[export] Instance same_equiv : Equivalence same.
Proof.
  split.
  - intros c. by constructor.
  - intros c1 c2 []. by constructor.
  - intros c1 c2 c3 [] []. constructor; congruence.
Qed.

(** Both runs panic, or both return the same, the first with [P] of its input. *)
Definition outcome {A} (P : A -> Input -> Prop) (r1 r2 : option (A * Conn)) : Prop :=
  match r1, r2 with
  | None, None => True
  | Some (a1, c1), Some (a2, c2) => a1 = a2 /\ conn_ok c1 /\ conn_ok c2 /\ same c1 c2 /\ P a1 (c_in c1)
  | _, _ => False
  end.

(** Methods that do the same on connections that are the same, and read nothing. *)
Definition alike {A} (m1 m2 : Act A) : Prop :=
  forall c1 c2, conn_ok c1 -> conn_ok c2 -> same c1 c2 -> outcome (fun _ i => i = c_in c1) (m1 c1) (m2 c2).

Create HintDb alike.

Lemma alike_ret {A} (a : A) : alike (mret a) (mret a).
Proof. intros c1 c2 H1 H2 Hs. done. Qed.

Lemma alike_bind {A B} (m1 m2 : Act A) (f1 f2 : A -> Act B) :
  alike m1 m2 -> (forall a, alike (f1 a) (f2 a)) -> alike (m1 ≫= f1) (m2 ≫= f2).
Proof.
  intros Hm Hf c1 c2 H1 H2 Hs. specialize (Hm c1 c2 H1 H2 Hs). unfold mbind, act_bind.
  destruct (m1 c1) as [[a1 c1']|], (m2 c2) as [[a2 c2']|]; try done. destruct Hm as (-> & H1' & H2' & Hs' & <-).
  cbn [mbind option_bind]. by apply Hf.
Qed.

(** What is read from the connection is the same. *)
Lemma alike_get {B} (f1 f2 : Conn -> Act B) :
  (forall c1 c2, same c1 c2 -> alike (f1 c1) (f2 c2)) -> alike (get ≫= f1) (get ≫= f2).
Proof. intros Hf c1 c2 H1 H2 Hs. by apply Hf. Qed.

Lemma alike_panic {A} : alike (A := A) (fun _ => None) (fun _ => None).
Proof. done. Qed.

Lemma alike_modify f :
  (forall c, c_ws (f c) = c_ws c /\ inboundPoolBuf (f c) = inboundPoolBuf c /\ c_in (f c) = c_in c) ->
  (forall c1 c2, same c1 c2 -> same (f c1) (f c2)) -> alike (modify f) (modify f).
Proof.
  intros Hf Hsame c1 c2 [] [] Hs. unfold modify, outcome.
  destruct (Hf c1) as (E1 & E2 & E3), (Hf c2) as (E4 & E5 & _).
  split_and!; [done|constructor; by rewrite E1, ?E2|constructor; by rewrite E4, ?E5|auto|done].
Qed.

Lemma alike_call {A} (f : session -> A * session) : alike (call f) (call f).
Proof.
  intros c1 c2 [] [] []. unfold call. rewrite sm_session0. destruct (f _) as [a s].
  split_and!; [done|by constructor|by constructor|by constructor|done].
Qed.

Lemma alike_sent m p : (forall ws, wside_ok ws -> exists e ws', m ws = Some (e, ws') /\ sent ws p e ws') -> alike (wr m) (wr m).
Proof.
  intros Hm c1 c2 [Hw1 Hb1] [Hw2 Hb2] Hs. unfold wr.
  destruct (Hm _ Hw1) as (e1 & ws1 & -> & [Hok1 Hl1 _ _ _ _ Hr1]), (Hm _ Hw2) as (e2 & ws2 & -> & [Hok2 Hl2 _ _ _ _ Hr2]).
  unfold as_written in *. destruct Hs. rewrite sm_writer0, sm_net0 in Hr1. rewrite <- Hr1 in Hr2. simplify_eq. cbn.
  split_and!; [done| | |by constructor|done]; constructor; cbn; [done| |done|];
    [destruct (inboundPoolBuf c1)|destruct (inboundPoolBuf c2)]; cbn in *; auto.
Qed.

Lemma alike_wr m ty body : sends m ty body -> alike (wr m) (wr m).
Proof. apply alike_sent. Qed.

Lemma alike_raw raw : alike (wr (WriteRawMessage raw)) (wr (WriteRawMessage raw)).
Proof. apply (alike_sent _ raw). intros ws. apply WriteRawMessage_sends. Qed.

(** A method of the writer, by what it makes of it. *)
Lemma alike_writer {A} (m : Act A) (f : option Writer -> Net -> list byte -> A * option Writer * Net) :
  (forall c, bufMu (c_ws c) = false ->
     m c = let '(a, w, n) := f (bufferedWriter (c_ws c)) (net (c_ws c)) (w_spare c) in
           Some (a, set_ws (mkWSide w (outboundPoolBuf (c_ws c)) false (bufPool (c_ws c)) n) c)) ->
  (forall w n l a w' n', f w n l = (a, w', n') -> from_option writer_ok True w -> from_option writer_ok True w') ->
  alike m m.
Proof.
  intros Hm Hf c1 c2 [[Hmu1 Hlo1 Hp1 Hw1] Hb1] [[Hmu2 Hlo2 Hp2 Hw2] Hb2] [].
  rewrite (Hm c1), (Hm c2), sm_writer0, sm_net0, sm_spare0 by done.
  destruct (f _ _ _) as [[a w] n] eqn:E. rewrite <- sm_writer0 in E. pose proof (Hf _ _ _ _ _ _ E Hw1) as Hw.
  split_and!; [done| | |by constructor|done]; (constructor; [by constructor|]); cbn;
    [by destruct (inboundPoolBuf c1)|by destruct (inboundPoolBuf c2)].
Qed.

Lemma alike_startWriterBuffering : alike startWriterBuffering startWriterBuffering.
Proof.
  apply (alike_writer _ (fun w n l => (tt, Some (default (fresh_writer l) w), n))).
  - intros c Hmu. unfold startWriterBuffering, lock. rewrite Hmu. cbn. by destruct (bufferedWriter (c_ws c)).
  - intros [w|] n l a w' n' E Hw; simplify_eq; [done|]. unfold writer_ok. cbn. lia.
Qed.

Definition flush_writer (close : bool) (w : option Writer) (n : Net) : option goerror * option Writer * Net :=
  match w with
  | None => (None, None, n)
  | Some w => let '(e, w', n') := bufio_Flush w n in (e, if close then None else Some w', n')
  end.

Lemma flush_writer_ok close w n e w' n' :
  flush_writer close w n = (e, w', n') -> from_option writer_ok True w -> from_option writer_ok True w'.
Proof.
  destruct w as [w|]; cbn; [|by intros [= <- <- <-]]. destruct (bufio_Flush w n) as [[e1 w1] n1] eqn:E. intros [= <- <- <-] Hw.
  destruct close; [done|]. by apply (Flush_ok _ _ _ _ _ E).
Qed.

Lemma alike_flush : alike flush flush.
Proof.
  apply (alike_writer _ (fun w n _ => flush_writer false w n)).
  - intros c Hmu. unfold flush, lock. rewrite Hmu. cbn. destruct (bufferedWriter (c_ws c)) as [w|] eqn:E; cbn; [|by rewrite ?E].
    by destruct (bufio_Flush w (net (c_ws c))) as [[e w'] n'].
  - intros w n _ a w' n'. apply flush_writer_ok.
Qed.

Lemma alike_endWriterBuffering : alike endWriterBuffering endWriterBuffering.
Proof.
  apply (alike_writer _ (fun w n _ => flush_writer true w n)).
  - intros c Hmu. unfold endWriterBuffering, lock. rewrite Hmu. cbn. destruct (bufferedWriter (c_ws c)) as [w|] eqn:E; cbn; [|by rewrite ?E].
    by destruct (bufio_Flush w (net (c_ws c))) as [[e w'] n'].
  - intros w n _ a w' n'. apply flush_writer_ok.
Qed.

Lemma alike_abortWriterBuffering : alike abortWriterBuffering abortWriterBuffering.
Proof.
  apply (alike_writer _ (fun _ n _ => (tt, None, n))).
  - intros c Hmu. unfold abortWriterBuffering, lock. by rewrite Hmu.
  - intros w n _ a w' n' E Hw. by simplify_eq.
Qed.

Lemma alike_try m1 m2 k1 k2 : alike m1 m2 -> alike k1 k2 -> alike (act_try m1 k1) (act_try m2 k2).
Proof. intros Hm Hk. apply alike_bind; [done|]. intros [e|]; [apply alike_ret|done]. Qed.

Lemma alike_wrap msg m : alike m m -> alike (act_wrap msg m) (act_wrap msg m).
Proof. intros Hm. apply alike_bind; [done|]. intros e. apply alike_ret. Qed.

Lemma alike_ready : alike ready_for_query ready_for_query.
Proof.
  intros c1 c2 H1 H2 Hs. unfold ready_for_query. rewrite (sm_session _ _ Hs).
  eapply alike_wr; [apply writeReadyForQuery_sends|done..].
Qed.

Hint Resolve alike_ret alike_panic alike_call alike_raw alike_startWriterBuffering alike_flush alike_endWriterBuffering
  alike_abortWriterBuffering alike_try alike_wrap alike_ready : alike.
Hint Extern 1 (alike (modify _) (modify _)) => (apply alike_modify; [by intros []|by intros ?? []; constructor]) : alike.
Hint Extern 1 (alike (wr _) (wr _)) => (eapply alike_wr; first
  [apply writePgDiagnosticResponse_sends | apply writeRowDescription_sends
  |apply writeDataRow_sends | apply writeCommandComplete_sends | apply writeEmptyQueryResponse_sends
  |apply write_parameter_status_sends | apply writeParameterDescription_sends | apply writeMessage_sends]) : alike.

(** Follows the structure of a method, on both sides. *)
Ltac alike_step :=
  match goal with
  | |- alike (get ≫= _) (get ≫= _) =>
      apply alike_get; let Hs := fresh "Hs" in intros ?c1 ?c2 Hs; destruct Hs; cbv beta; simplify_eq;
      repeat match goal with E : _ ?c = _ ?c' |- context [?f ?c] => rewrite E end
  | |- alike (_ ≫= _) (_ ≫= _) => apply alike_bind; [|intros ?]
  | |- alike (match ?x with _ => _ end) _ => destruct x
  | |- alike (let _ := _ in _) _ => cbv zeta
  | |- alike (act_try _ _) _ => apply alike_try
  | |- alike (act_wrap _ _) _ => apply alike_wrap
  | _ => solve [auto with alike]
  end.
Ltac alike_tac := repeat alike_step.

Lemma alike_writeError e : alike (writeError e) (writeError e).
Proof. unfold writeError. auto with alike. Qed.

Lemma alike_extended_error e : alike (writeExtendedQueryError e) (writeExtendedQueryError e).
Proof. unfold writeExtendedQueryError, writeError. alike_tac. Qed.

Lemma alike_report params : alike (reportParameterStatuses params) (reportParameterStatuses params).
Proof.
  induction params as [|[name value] params IH]; cbn [reportParameterStatuses]; [auto with alike|].
  apply alike_try; [|done]. apply alike_wrap. unfold reportParameterStatus. alike_tac.
  apply alike_modify; [by intros []|]. intros ?? []. constructor; try done. cbn. by f_equal.
Qed.

Lemma alike_notices ds : alike (write_notices ds) (write_notices ds).
Proof. induction ds as [|d ds IH]; cbn [write_notices]; unfold writeNoticeResponse; auto 6 with alike. Qed.

Lemma alike_rows rows : alike (write_rows rows) (write_rows rows).
Proof. induction rows as [|row rows IH]; cbn [write_rows]; auto with alike. Qed.

Hint Resolve alike_writeError alike_extended_error alike_report alike_notices alike_rows : alike.

Lemma alike_callback simple fold st r : alike (result_callback simple fold st r) (result_callback simple fold st r).
Proof. unfold result_callback, writeResultRows, no_data. alike_tac. Qed.

Lemma alike_stream simple fold st run :
  alike (run_stream (result_callback simple fold) st run) (run_stream (result_callback simple fold) st run).
Proof.
  revert st. induction run as [e canceled s|r k IH]; intros st; cbn [run_stream]; [alike_tac|].
  apply alike_bind; [apply alike_callback|]. intros [e st']. apply IH.
Qed.

Lemma alike_description fs : alike (write_description fs) (write_description fs).
Proof. unfold write_description. alike_tac. Qed.

Hint Resolve alike_stream alike_description : alike.

Lemma alike_resolve : alike resolveDeferredPortalDescribe resolveDeferredPortalDescribe.
Proof. unfold resolveDeferredPortalDescribe. alike_tac. Qed.

Lemma alike_execute_portal portal n fold : alike (execute_portal portal n fold) (execute_portal portal n fold).
Proof. unfold execute_portal. alike_tac. Qed.

Hint Resolve alike_resolve alike_execute_portal : alike.

(** Every action is alike itself. *)
Lemma alike_action q : alike (request_action q) (request_action q).
Proof.
  destruct q; cbn [request_action];
    unfold query_action, parse_action, bind_action, execute_action, describe_action, close_action, sync_action; alike_tac.
Qed.

Lemma alike_finish ty e : alike (finish_round ty e) (finish_round ty e).
Proof. unfold finish_round. alike_tac. Qed.

(** ** From the bytes to the requests *)

Lemma outcome_bind {A B} (P : A -> Input -> Prop) (Q : B -> Input -> Prop) (m1 m2 : Act A) (f1 f2 : A -> Act B) c1 c2 :
  outcome P (m1 c1) (m2 c2) ->
  (forall a c1' c2', conn_ok c1' -> conn_ok c2' -> same c1' c2' -> P a (c_in c1') -> outcome Q (f1 a c1') (f2 a c2')) ->
  outcome Q ((m1 ≫= f1) c1) ((m2 ≫= f2) c2).
Proof.
  intros Hm Hf. unfold mbind, act_bind. destruct (m1 c1) as [[a1 c1']|], (m2 c2) as [[a2 c2']|]; try done.
  destruct Hm as (<- & ?). cbn [mbind option_bind]. naive_solver.
Qed.

Lemma outcome_mono {A} (P Q : A -> Input -> Prop) r1 r2 :
  outcome P r1 r2 -> (forall a i, P a i -> Q a i) -> outcome Q r1 r2.
Proof. destruct r1 as [[a1 c1]|], r2 as [[a2 c2]|]; cbn; naive_solver. Qed.

(** A step of the first run that only touches input and buffers. *)
Definition quietly {A} (m : Act A) (c : Conn) (a : A) (i : Input) : Prop :=
  exists c', m c = Some (a, c') /\ conn_ok c' /\ same c c' /\ c_in c' = i.

Lemma outcome_quietly {A B} (Q : B -> Input -> Prop) (m : Act A) (f : A -> Act B) c a i r :
  quietly m c a i -> (forall c', conn_ok c' -> same c c' -> c_in c' = i -> outcome Q (f a c') r) ->
  outcome Q ((m ≫= f) c) r.
Proof. intros (c' & E & ? & ? & ?) Hf. unfold mbind, act_bind. rewrite E. cbn [mbind option_bind]. auto. Qed.

Lemma quietly_returnReadBuffer c : conn_ok c -> quietly returnReadBuffer c tt (c_in c).
Proof.
  intros Hok. destruct (total_returnReadBuffer c Hok) as ([] & c' & E & Hok' & _). exists c'. split_and!; [done|done|..];
    unfold returnReadBuffer in E; destruct (inboundPoolBuf c), (bufPool (c_ws c)); simplify_eq; try done;
    destruct (pool_Put _ _); cbn in E; simplify_eq; by constructor.
Qed.

Section frame.
Context (body rest : list byte) (err : sentinel) (Hacc : acceptable body).

Lemma quietly_length c :
  conn_ok c -> c_in c = body_input body rest err ->
  quietly (rd ReadMessageLength) c (inr (Z.of_nat (length body))) (mkInput (body ++ rest) err).
Proof.
  intros [] Ei. exists (set_in (mkInput (body ++ rest) err) c). split_and!; [|by constructor|by constructor|done].
  unfold rd, ReadMessageLength, body_input, acceptable, len, MaxFrontendMessageBodyLength in *.
  by rewrite Ei, readMessageLength_frame, (proj2 (Z.ltb_ge _ _)) by lia.
Qed.

Lemma quietly_body c :
  conn_ok c -> c_in c = mkInput (body ++ rest) err ->
  quietly (readMessageBody (Z.of_nat (length body))) c (inr body) (mkInput rest err).
Proof.
  intros Hok Ei. unfold readMessageBody. destruct (Z.eqb_spec (Z.of_nat (length body)) 0) as [E0|_].
  { exists c. destruct body; done. }
  destruct (quietly_returnReadBuffer c Hok) as (c1 & E1 & Hok1 & Hs1 & Ei1).
  destruct (total_borrow (Z.of_nat (length body)) ltac:(lia) c1 Hok1) as ([] & c2 & E2 & Hok2 & _).
  assert (same c1 c2 /\ c_in c2 = c_in c1) as [Hs2 Ei2].
  { destruct (bufPool (c_ws c1)); simplify_eq; [|done]. destruct (pool_Get _ _) as [[? ?]|]; cbn in E2; simplify_eq.
    split; [by constructor|done]. }
  exists (set_in (mkInput rest err) c2). split_and!; [|by destruct Hok2|by etrans; [|etrans]; [exact Hs1|exact Hs2|constructor]|done].
  unfold mbind at 1, act_bind at 1. rewrite E1. cbn [mbind option_bind]. unfold mbind at 1, act_bind at 1. rewrite E2.
  cbn [mbind option_bind]. unfold mbind, act_bind, rd. by rewrite Ei2, Ei1, Ei, Nat2Z.id, ReadFull_app.
Qed.

(** The body's buffer is returned after its use. *)
Lemma outcome_return {A} (P : A -> Input -> Prop) (m : Act A) c r :
  outcome P (m c) r -> outcome P ((a ← m; _ ← returnReadBuffer; mret a) c) r.
Proof.
  unfold mbind, act_bind. destruct (m c) as [[a c1]|], r as [[a2 c2]|]; try done. intros (<- & Hok1 & Hok2 & Hs & HP).
  cbn [mbind option_bind]. destruct (quietly_returnReadBuffer c1 Hok1) as (c1' & -> & Hok1' & Hs1 & Ei).
  cbn [mbind option_bind]. unfold mret, act_ret. split_and!; [done|done|done|by rewrite <- Hs1|by rewrite Ei].
Qed.

(** The message's input is behind the connection, unless an error ends the loop. *)
Definition consumed (e : option goerror) (i : Input) : Prop := e = None -> i = mkInput rest err.

Lemma outcome_with_body what body_what k m c1 c2 :
  conn_ok c1 -> conn_ok c2 -> same c1 c2 -> c_in c1 = body_input body rest err -> alike (k body) m ->
  outcome consumed (with_body what body_what k c1) (m c2).
Proof.
  intros Hok1 Hok2 Hs Ei Hk. unfold with_body, act_val. eapply outcome_quietly; [by apply quietly_length|].
  intros c3 Hok3 Hs3 Ei3. eapply outcome_quietly; [by apply quietly_body|]. intros c4 Hok4 Hs4 Ei4. apply outcome_return.
  eapply outcome_mono; [apply Hk; [done|done|by rewrite <- Hs4, <- Hs3]|]. intros e i -> _. done.
Qed.

End frame.

(** A request the wire format can carry. *)
Definition request_fits (q : request) : Prop :=
  acceptable (request_body q) /\
  match q with
  | RParse name s types => no_nul name /\ no_nul s /\ len types < 2 ^ 16 /\ Forall in_uint32 types
  | RBind a => bind_fits a
  | RExecute portal n => no_nul portal /\ in_int32 n
  | RDescribe typ name | RClose typ name => (typ = "S"%byte \/ typ = "P"%byte) /\ no_nul name
  | RQuery _ | RSync | RFlush | RTerminate => True
  end.

Section request.
Context (rest : list byte) (err : sentinel).

(** The connections before a message, and its input. *)
Definition facing (q : request) (c1 c2 : Conn) : Prop :=
  conn_ok c1 /\ conn_ok c2 /\ same c1 c2 /\ c_in c1 = body_input (request_body q) rest err.

Lemma outcome_query s c1 c2 :
  request_fits (RQuery s) -> facing (RQuery s) c1 c2 ->
  outcome (consumed rest err) (handleQuery c1) (query_action s c2).
Proof.
  intros [Hacc _] (Hok1 & Hok2 & Hs & Ei). unfold handleQuery, act_val.
  assert (length (cstring s) = S (length (bytes_of s))) as El by (unfold cstring; rewrite length_app; cbn; lia).
  assert (quietly readQueryMessage c1 (inr s) (mkInput rest err)) as Hq.
  { unfold readQueryMessage. destruct (quietly_length _ _ _ Hacc c1 Hok1 Ei) as (c3 & E3 & Hok3 & Hs3 & Ei3).
    destruct (quietly_body _ rest err Hacc c3 Hok3 Ei3) as (c4 & E4 & Hok4 & Hs4 & Ei4).
    destruct (quietly_returnReadBuffer c4 Hok4) as (c5 & E5 & Hok5 & Hs5 & Ei5).
    exists c5. split_and!; [|done|by rewrite Hs3, Hs4|by rewrite Ei5].
    cbn [request_body] in E3, E4. unfold mbind at 1, act_bind at 1. rewrite E3. cbn [mbind option_bind].
    rewrite (proj2 (Z.ltb_ge _ _)) by lia. unfold mbind at 1, act_bind at 1. rewrite E4. cbn [mbind option_bind].
    unfold mbind, act_bind. rewrite E5. cbn [mbind option_bind]. unfold cstring.
    rewrite last_snoc, bool_decide_eq_true_2, removelast_last, string_of_bytes_of by done. done. }
  eapply outcome_quietly; [exact Hq|]. intros c3 Hok3 Hs3 Ei3.
  eapply outcome_mono; [apply (alike_action (RQuery s)); [done|done|by rewrite <- Hs3]|]. intros e i -> _. done.
Qed.

(** A message without a body. *)
Lemma outcome_empty q msg k m c1 c2 :
  request_body q = [] -> facing q c1 c2 -> alike (k 0) m ->
  outcome (consumed rest err) (act_val msg (rd ReadMessageLength) k c1) (m c2).
Proof.
  intros Eb (Hok1 & Hok2 & Hs & Ei) Hk. rewrite Eb in Ei. unfold act_val.
  eapply outcome_quietly; [apply (quietly_length [] rest err); [|done|done]|].
  { unfold acceptable, len, MaxFrontendMessageBodyLength. cbn. lia. }
  intros c3 Hok3 Hs3 Ei3. eapply outcome_mono; [apply Hk; [done|done|by rewrite <- Hs3]|]. intros e i -> _. done.
Qed.

Lemma outcome_dispatch q c1 c2 :
  request_fits q -> q <> RTerminate -> (forall portal n, q <> RExecute portal n) -> facing q c1 c2 ->
  outcome (consumed rest err) (dispatch (request_type q) c1) (request_action q c2).
Proof.
  intros Hfit Ht Hx Hf. pose proof Hf as (Hok1 & Hok2 & Hs & Ei). pose proof Hfit as [Hacc Hargs].
  pose proof (alike_action q) as Hq. destruct q; cbn [request_type request_action request_body] in *; try (by naive_solver).
  - by apply outcome_query.
  - eapply outcome_with_body; [done..|]. cbv beta. by rewrite parse_Parse_ok by naive_solver.
  - eapply outcome_with_body; [done..|]. cbv beta. by rewrite parse_Bind_ok.
  - eapply outcome_with_body; [done..|]. cbv beta. unfold parse_Describe. by rewrite parse_target_ok by naive_solver.
  - eapply outcome_with_body; [done..|]. cbv beta. unfold parse_Close. by rewrite parse_target_ok by naive_solver.
  - by eapply (outcome_empty RSync).
  - by eapply (outcome_empty RFlush).
Qed.

(** Skipping a request is draining its message. *)
Lemma outcome_skipped q c1 c2 :
  request_fits q -> facing q c1 c2 -> q <> RFlush ->
  outcome (consumed rest err) (drainExtendedQueryMessage c1) ((mret None : Act (option goerror)) c2).
Proof.
  intros [Hacc _] (Hok1 & Hok2 & Hs & Ei) Hq. unfold drainExtendedQueryMessage, act_val.
  eapply outcome_quietly; [by apply quietly_length|]. intros c3 Hok3 Hs3 Ei3.
  eapply outcome_quietly; [by apply quietly_body|]. intros c4 Hok4 Hs4 Ei4.
  eapply outcome_quietly; [by apply quietly_returnReadBuffer|]. intros c5 Hok5 Hs5 Ei5. cbn.
  split_and!; [done|done|done|by rewrite <- Hs5, <- Hs4, <- Hs3|]. intros _. by rewrite Ei5.
Qed.

Lemma outcome_drain q k m c1 c2 :
  request_fits q -> q <> RTerminate -> facing q c1 c2 ->
  (forall c1' c2', facing q c1' c2' -> outcome (consumed rest err) (k c1') (m c2')) ->
  outcome (consumed rest err) (unless_drained (request_type q) k c1) (skipping q m c2).
Proof.
  intros Hfit Ht Hf Hk. pose proof Hf as (Hok1 & Hok2 & Hs & Ei).
  unfold skipping, mbind, act_bind, get. cbn [mbind option_bind].
  rewrite <- (sm_discarding _ _ Hs). destruct (discardingUntilSync c1) eqn:Ed; cbn [negb].
  2:{ rewrite unless_drained_off by done. by apply Hk. }
  destruct q; cbn [request_type]; try done;
    try (rewrite unless_drained_on by done; by eapply outcome_skipped).
  - rewrite unless_drained_sync by done. apply Hk. destruct Hok1, Hok2, Hs. split_and!; [by constructor..|exact Ei].
  - rewrite unless_drained_on by done. by eapply (outcome_empty RFlush), alike_flush.
Qed.

Lemma outcome_message q c1 c2 :
  request_fits q -> q <> RTerminate -> facing q c1 c2 ->
  outcome (consumed rest err) (handleMessage (request_type q) c1) (serve_request q c2).
Proof.
  intros Hfit Ht Hf. unfold handleMessage, serve_request. apply outcome_drain; [done..|]. intros c3 c4 Hf'.
  assert (q <> RTerminate -> (forall portal n, q <> RExecute portal n) ->
    outcome (consumed rest err)
      ((act_try resolveDeferredPortalDescribe (unless_drained (request_type q) (dispatch (request_type q)))) c3)
      ((act_try resolveDeferredPortalDescribe (skipping q (request_action q))) c4)) as Hmsg.
  { intros _ Hx. destruct Hf' as (Hok3 & Hok4 & Hs & Ei). eapply outcome_bind; [by apply alike_resolve|].
    intros [e|] c5 c6 Hok5 Hok6 Hs' Ei'; [cbn; by split_and!|].
    apply outcome_drain; [done|done|split_and!; [done..|by rewrite Ei']|]. intros c7 c8 Hf7. by apply outcome_dispatch. }
  destruct q; try (apply Hmsg; naive_solver); [|done].
  destruct Hf' as (Hok3 & Hok4 & Hs & Ei), Hfit as [Hacc Hargs].
  eapply (outcome_with_body _ rest err Hacc); [done..|]. cbn [request_body]. rewrite parse_Execute_ok by naive_solver.
  apply (alike_action (RExecute portal maxRows)).
Qed.

Lemma outcome_terminate c1 c2 :
  conn_ok c1 -> conn_ok c2 -> same c1 c2 ->
  outcome (consumed rest err) (handleMessage MsgTerminate c1) (serve_request RTerminate c2).
Proof.
  intros Hok1 Hok2 Hs. unfold handleMessage, serve_request, unless_drained, maybeDispatchDrain, skipping, mbind, act_bind, get.
  cbn. rewrite <- (sm_discarding _ _ Hs). destruct (discardingUntilSync c1); cbn; by split_and!.
Qed.
End request.

(** ** The loops *)

(** An error ends the loop. *)
Lemma finish_round_error ty e c r c' : finish_round ty (Some e) c = Some (r, c') -> exists e', r = inl e'.
Proof.
  cbn [finish_round]. unfold mbind, act_bind, mret, act_ret. intros E.
  repeat case_match; simplify_eq; eauto;
    repeat match goal with E : (_ ≫= _) = Some _ |- _ => apply bind_Some in E as ([? ?] & _ & E) end; simplify_eq; eauto.
Qed.

(** A round on the bytes of a request; the input is behind it if the loop goes on. *)
Lemma outcome_round q rest err c1 c2 :
  request_fits q -> facing rest err q c1 c2 ->
  outcome (fun r i => forall w, r = inr w -> i = mkInput rest err)
    ((_ ← startWriterBuffering; e ← handleMessage (request_type q); finish_round (request_type q) e) c1)
    ((_ ← startWriterBuffering; e ← serve_request q; finish_round (request_type q) e) c2).
Proof.
  intros Hq (Hok1 & Hok2 & Hs & Ei). eapply outcome_bind; [by apply alike_startWriterBuffering|].
  intros u c3 c4 Hok3 Hok4 Hs3 Ei3. cbv beta in Ei3. eapply (outcome_bind (consumed rest err)).
  - assert (q = RTerminate \/ q <> RTerminate) as [->|Ht] by (destruct q; auto); [by apply outcome_terminate|].
    apply outcome_message; [done|done|]. split_and!; [done..|by rewrite Ei3].
  - intros e c5 c6 Hok5 Hok6 Hs5 He. pose proof (alike_finish (request_type q) e c5 c6 Hok5 Hok6 Hs5) as Hfin.
    destruct e as [e|]; [|eapply outcome_mono; [exact Hfin|]; intros r i -> w _; by apply He].
    destruct (finish_round (request_type q) (Some e) c5) as [[r c7]|] eqn:E7,
      (finish_round (request_type q) (Some e) c6) as [[r' c8]|]; try done.
    destruct Hfin as (<- & ? & ? & ? & _). split_and!; [done..|]. intros w ->.
    by apply finish_round_error in E7 as [e' [=]].
Qed.

Lemma outcome_loop qs fuel waiting c1 c2 :
  Forall request_fits qs -> (length qs < fuel)%nat -> conn_ok c1 -> conn_ok c2 -> same c1 c2 ->
  c_in c1 = mkInput (concat (request_bytes <$> qs)) io_EOF ->
  outcome (fun _ _ => True) (serve_loop fuel waiting c1) ((e ← serve_requests qs; mret (Some e)) c2).
Proof.
  intros Hfit. revert fuel waiting c1 c2. induction Hfit as [|q qs Hq _ IH]; intros fuel waiting c1 c2 Hf Hok1 Hok2 Hs Ei;
    (destruct fuel as [|fuel]; [cbn in Hf; lia|]); cbn [serve_loop serve_requests].
  { unfold mbind, act_bind, serve_round, mbind, act_bind, get, rd, readMessageType. cbn. rewrite Ei. cbn. rewrite andb_false_r. cbn.
    split_and!; [done|by destruct Hok1|done|by destruct Hs|done]. }
  unfold mbind at 1, act_bind at 1. rewrite fmap_cons in Ei. cbn [concat] in Ei. unfold request_bytes at 1 in Ei.
  rewrite (serve_round_message _ _ _ _ _ _ Ei). set (c0 := set_in _ c1).
  assert (facing (concat (request_bytes <$> qs)) io_EOF q c0 c2) as Hface.
  { split_and!; [by destruct Hok1|done|by destruct Hs|done]. }
  pose proof (outcome_round q _ _ c0 c2 Hq Hface) as Hround.
  set (m1 := _ ← startWriterBuffering; e ← handleMessage (request_type q); finish_round (request_type q) e) in *.
  set (m2 := _ ← startWriterBuffering; e ← serve_request q; finish_round (request_type q) e) in *.
  match goal with |- outcome _ _ ?rr => assert (rr =
    (m2 ≫= fun r => match r with inl e => mret (Some e) | inr _ => e ← serve_requests qs; mret (Some e) end) c2) as -> end.
  { subst m2. unfold mbind, act_bind. destruct (startWriterBuffering c2) as [[u c3]|]; [|done]. cbn.
    destruct (serve_request q c3) as [[e c4]|]; [|done]. cbn.
    by destruct (finish_round (request_type q) e c4) as [[[e'|w] c5]|]. }
  clearbody m1 m2. unfold mbind, act_bind.
  destruct (m1 c0) as [[r c3]|], (m2 c2) as [[r' c4]|]; try done.
  destruct Hround as (<- & Hok3 & Hok4 & Hs' & Ei'). cbn [mbind option_bind]. destruct r as [e|w]; [cbn; by split_and!|].
  cbn in Hf. exact (IH fuel w c3 c4 ltac:(lia) Hok3 Hok4 Hs' (Ei' w eq_refl)).
Qed.

Lemma requests_length qs : (length qs <= length (concat (request_bytes <$> qs)))%nat.
Proof.
  induction qs as [|q qs IH]; [done|]. rewrite fmap_cons. cbn [concat length]. rewrite length_app.
  unfold request_bytes at 1, frame_bytes. rewrite length_app, header_length. lia.
Qed.

Lemma serve_is_serve_requests qs c :
  conn_ok c -> Forall request_fits qs -> c_in c = mkInput (concat (request_bytes <$> qs)) io_EOF ->
  match serve c, serve_requests qs c with
  | Some (e1, c1), Some (e2, c2) => e1 = Some e2 /\ same c1 c2
  | None, None => True
  | _, _ => False
  end.
Proof.
  intros Hc Hfit Ei. assert (length qs < S (length (inp (c_in c))))%nat as Hlen.
  { rewrite Ei. cbn. pose proof (requests_length qs). lia. }
  pose proof (outcome_loop qs _ true c c Hfit Hlen Hc Hc ltac:(reflexivity) Ei) as Ho.
  unfold serve. unfold mbind, act_bind in Ho.
  destruct (serve_loop _ true c) as [[e1 c1]|], (serve_requests qs c) as [[e2 c2]|]; cbn in Ho; naive_solver.
Qed.

(** C29: Serving bytes is serving requests.  Whatever requests (that fit the wire format)
    a client writes over a working connection, the server that reads its bytes returns
    what a server handed the requests themselves returns, and has called the handler in
    the same way, sent the same bytes and kept the same state, for any handler and any
    failures of its own network; and it panics only if the other does. *)
Theorem serving_requests_refines qs ws :
  client_ok ws -> healthy ws -> Forall request_fits qs ->
  exists ws' bytes, client_write_all qs ws = Some (None, ws') /\ stream ws' = stream ws ++ bytes /\
    forall c, conn_ok c -> c_in c = mkInput bytes io_EOF ->
      match serve c, serve_requests qs c with
      | Some (e1, c1), Some (e2, c2) => e1 = Some e2 /\ same c1 c2
      | None, None => True
      | _, _ => False
      end.
Proof.
  intros Hok Hh Hfit. destruct (client_write_all_sends qs ws Hok Hh) as (ws' & E & _ & _ & Es).
  exists ws', (concat (request_bytes <$> qs)). split_and!; [done|done|]. intros c Hc Ei. by apply serve_is_serve_requests.
Qed.
End refinement.

Lemma serving_requests_refines_witness :
  exists ws' bytes, client_write_all demo_requests demo_wside = Some (None, ws') /\ stream ws' = stream demo_wside ++ bytes /\
    forall c : @Conn bucket_pool demo_handler, conn_ok c -> c_in c = mkInput bytes io_EOF ->
      match serve c, serve_requests demo_requests c with
      | Some (e1, c1), Some (e2, c2) => e1 = Some e2 /\ same c1 c2
      | None, None => True
      | _, _ => False
      end.
Proof.
  apply (serving_requests_refines demo_requests demo_wside).
  - destruct demo_wside_ok as [[] _]. by split_and!.
  - apply demo_wside_ok.
  - repeat apply Forall_cons_2; try apply Forall_nil_2; (split; [by_decide|]); cbn; unfold bind_fits; split_and?;
      first [done|no_nul|unfold in_int32; lia|by_decide].
Defined.
