(* ===== verification/ServerErrors.v ===== *)
(** What an error costs a client: the rest of its batch, and nothing more.  A request the
    handler refuses is answered by one ErrorResponse that carries the handler's
    diagnostic; the requests up to the next Sync are skipped without reaching the
    handler; the Sync closes the cycle and the connection goes on. *)

From Stdlib Require Import Strings.Byte.
From stdpp Require Import base numbers list gmap strings.
From S2P Require Import Prelude.
From S2P Require Import Bytes.
From S2P Require Import Diagnostics.
From S2P Require Import BufPool.
From S2P Require Import Wire.
From S2P Require Import WireFacts.
From S2P Require Import WireMessages.
From S2P Require Import WireRequests.
From S2P Require Import ServerConn.
From S2P Require Import ServerDemo.
From S2P Require Import ServerTotal.
From S2P Require Import ServerRuns.
From S2P Require Import ServerRefinement.

Local Open Scope Z_scope.

Section errors.
Context {BP : BufferPool} {H : Handler}.

(** The handler's refusal of a request: its error, and the session then. *)
Definition refuses (q : request) (s : session) : option (goerror * session) :=
  let refusal (r : option goerror * session) := match r with (Some e, s') => Some (e, s') | (None, _) => None end in
  match q with
  | RParse name query types => refusal (HandleParse s name query types)
  | RBind a => refusal (HandleBind s a)
  | RClose typ name => refusal (HandleClose s typ name)
  | _ => None
  end.

(** What the client is told: for a Parse or a Bind the diagnostic the error carries,
    if it carries one; otherwise, and for every Close, an internal error of that step
    whose detail is the error's text. *)
Definition reported (q : request) (e : goerror) : PgDiagnostic :=
  match q, errors_As_diag e with
  | RParse _ _ _, Some d | RBind _, Some d => d
  | RParse _ _ _, None => NewWithDetail MTD04 (Error e)
  | RBind _, None => NewWithDetail MTD05 (Error e)
  | _, _ => NewWithDetail MTD07 (Error e)
  end.

(** The frame of the end of a cycle. *)
Definition ready_frame (s : session) : chunk := ChFrame MsgReadyForQuery [txnStatus s].

(** ** Steps, with the session *)

(** [m] returns [a]; the connection has written [l] and is left with view [v] and session [s]. *)
Definition goes {A} (m : Act A) (c : Conn) (a : A) (l : list chunk) (v : view) (s : session) : Prop :=
  exists c', m c = Some (a, c') /\ wrote c l c' /\ view_of c' = v /\ c_session c' = s.

Lemma goes_bind {A B} (m : Act A) (f : A -> Act B) c a l v s b l' v' s' :
  goes m c a l v s ->
  (forall c1, good c1 -> view_of c1 = v -> c_session c1 = s -> goes (f a) c1 b l' v' s') ->
  goes (m ≫= f) c b (l ++ l') v' s'.
Proof.
  intros (c1 & E1 & Hw1 & Hv1 & Hs1) Hf. destruct (Hf c1 (wrote_good _ _ _ Hw1) Hv1 Hs1) as (c2 & E2 & Hw2 & Hv2 & Hs2).
  exists c2. split_and!; [|by eapply wrote_trans|done|done]. unfold mbind, act_bind. by rewrite E1.
Qed.

(** What a method without the handler does, with the session it leaves alone. *)
Lemma goes_ends {A} (m : Act A) c a l v :
  ends m c (fun a' v' l' => a' = a /\ v' = v /\ l' = l) ->
  (forall a' c', m c = Some (a', c') -> c_session c' = c_session c) -> goes m c a l v (c_session c).
Proof. intros (a' & c' & l' & E & Hw & -> & Hv & ->) Hk. exists c'. split_and!; [done|done|done|by eapply Hk]. Qed.

Lemma wr_session m c a c' : wr m c = Some (a, c') -> c_session c' = c_session c.
Proof. unfold wr. intros E. apply bind_Some in E as ([e ws] & _ & E). by simplify_eq. Qed.

Lemma writer_session c a c' :
  startWriterBuffering c = Some (a, c') \/ (exists e, flush c = Some (e, c')) \/ (exists e, endWriterBuffering c = Some (e, c')) ->
  c_session c' = c_session c.
Proof.
  unfold startWriterBuffering, flush, endWriterBuffering.
  intros [E|[[e E]|[e E]]]; apply bind_Some in E as (ws & _ & E); repeat case_match; by simplify_eq.
Qed.

Lemma goes_start c : good c -> goes startWriterBuffering c tt [] (view_of c) (c_session c).
Proof.
  intros Hg. apply goes_ends.
  - eapply ends_mono; [by apply ends_startWriterBuffering|]. intros [] v l [-> ->]. done.
  - intros [] c' E. by eapply writer_session; left.
Qed.

Lemma goes_flush c : good c -> goes flush c None [] (view_of c) (c_session c).
Proof. intros Hg. apply goes_ends; [by apply ends_flush|]. intros a c' E. eapply (writer_session c tt); eauto. Qed.

Lemma goes_frame m ty body c :
  sends m ty body -> good c -> goes (wr m) c None [ChFrame ty body] (view_of c) (c_session c).
Proof. intros Hm Hg. apply goes_ends; [by apply ends_wr|]. intros a c' E. by eapply wr_session. Qed.

Lemma goes_modify f c :
  good c -> c_ws (f c) = c_ws c -> inboundPoolBuf (f c) = inboundPoolBuf c ->
  goes (modify f) c tt [] (view_of (f c)) (c_session (f c)).
Proof.
  intros [[Hw Hb] Hh] E1 E2. exists (f c). split_and!; [done| |done|done]. constructor; [split|..].
  - constructor; by rewrite E1, ?E2.
  - by rewrite E1.
  - by rewrite E1, app_nil_r.
  - by rewrite E1.
Qed.

Lemma goes_call {A} (f : session -> A * session) c a s :
  good c -> f (c_session c) = (a, s) -> goes (call f) c a [] (view_of c) s.
Proof.
  intros [[Hw Hb] Hh] E. exists (set_session s c). split_and!; [unfold call; by rewrite E| |done|done].
  constructor; [by split|by rewrite app_nil_r|done].
Qed.

Lemma goes_eq {A} (m : Act A) c a l v s l' v' s' : goes m c a l v s -> l = l' -> v = v' -> s = s' -> goes m c a l' v' s'.
Proof. by intros ? -> -> ->. Qed.

Lemma goes_ret {A} (a : A) c : good c -> goes (mret a) c a [] (view_of c) (c_session c).
Proof. intros Hg. exists c. split_and!; auto using wrote_refl. Qed.

Lemma goes_error e i d c :
  good c -> view_of c = (i, d, false) -> fatalDiagnostic e = None ->
  goes (writeExtendedQueryError e) c None [error_frame (error_diagnostic e)] (i, d, true) (c_session c).
Proof.
  intros Hg Hv Hf. unfold writeExtendedQueryError, writeError. rewrite Hf.
  eapply (goes_bind _ _ _ tt []); [by apply goes_modify|]. intros c1 Hg1 Hv1 Hs1.
  eapply (goes_eq _ _ _ ([error_frame (error_diagnostic e)] ++ [])); [|done|exact eq_refl|exact Hs1].
  eapply (goes_bind _ _ _ None); [apply goes_frame; [apply writePgDiagnosticResponse_sends|done]|].
  intros c2 Hg2 Hv2 Hs2. eapply goes_eq; [by apply goes_flush|done| |by rewrite Hs2].
  rewrite Hv2, Hv1. unfold view_of in *. cbn. by simplify_eq.
Qed.

(** A request that finds nothing held and no error before it is acted upon. *)
Lemma serve_request_idle q i c : view_of c = (i, None, false) -> serve_request q c = request_action q c.
Proof.
  intros Hv. unfold view_of in Hv. simplify_eq. unfold serve_request, skipping, resolveDeferredPortalDescribe, act_try.
  destruct q; unfold mbind, act_bind, get; cbn;
    repeat match goal with E : _ c = _ |- _ => rewrite E; cbn end; done.
Qed.

Lemma preserved_diagnostic e fallback :
  error_diagnostic (preserveExtendedQueryError e fallback) =
    default (NewWithDetail fallback (Error e)) (errors_As_diag e).
Proof.
  unfold error_diagnostic, preserveExtendedQueryError. destruct (errors_As_diag e) as [d|] eqn:E; [|done].
  by rewrite RootCause_diag, E.
Qed.

Lemma not_fatal e : IsFatal (error_diagnostic e) = false -> fatalDiagnostic e = None.
Proof. unfold error_diagnostic, fatalDiagnostic. destruct (errors_As_diag _); [by intros ->|done]. Qed.

Lemma refused_action q e s1 i c :
  good c -> view_of c = (i, None, false) -> refuses q (c_session c) = Some (e, s1) -> IsFatal (reported q e) = false ->
  goes (request_action q) c None [error_frame (reported q e)] (i, None, true) s1.
Proof.
  intros Hg Hv Hr Hf.
  assert (forall sent (f : session -> option goerror * session) (k : option goerror -> Act (option goerror)),
    f (c_session c) = (Some e, s1) -> k (Some e) = writeExtendedQueryError sent -> error_diagnostic sent = reported q e ->
    goes (call f ≫= k) c None [error_frame (reported q e)] (i, None, true) s1) as Hcall.
  { intros sent f k Ef Ek Hd. eapply (goes_bind _ _ _ (Some e) []); [by eapply goes_call|]. intros c1 Hg1 Hv1 Hs1.
    rewrite Ek, <- Hd. eapply goes_eq; [eapply goes_error; [done| |apply not_fatal; by rewrite Hd]|done|done|done].
    by rewrite Hv1. }
  destruct q; cbn in Hr; try done.
  - destruct (HandleParse _ _ _ _) as [[e'|] s'] eqn:E; simplify_eq. eapply Hcall; [done|done|].
    rewrite preserved_diagnostic. cbn. by destruct (errors_As_diag e).
  - destruct (HandleBind _ _) as [[e'|] s'] eqn:E; simplify_eq. eapply Hcall; [done|done|].
    rewrite preserved_diagnostic. cbn. by destruct (errors_As_diag e).
  - destruct (HandleClose _ _ _) as [[e'|] s'] eqn:E; simplify_eq. eapply Hcall; [done|done|].
    cbn. by destruct (errors_As_diag e).
Qed.

(** A round of the server of requests. *)
Definition request_round (q : request) : Act (option goerror + bool) :=
  _ ← startWriterBuffering; e ← serve_request q; finish_round (request_type q) e.

(** The round goes on when its message does not end a batch. *)
Lemma goes_finish ty c :
  good c -> ty <> MsgSync -> ty <> MsgFunctionCall -> discardingUntilSync c = true ->
  goes (finish_round ty None) c (inr false) [] (view_of c) (c_session c).
Proof.
  intros Hg H1 H2 Hd. cbn [finish_round]. exists c. split_and!; [|by apply wrote_refl|done|done].
  unfold mbind, act_bind, get. cbn. rewrite Hd, !(bool_decide_eq_false_2 (ty = MsgSync)), (bool_decide_eq_false_2 (ty = MsgFunctionCall)) by done.
  cbn. by rewrite andb_false_r.
Qed.

Lemma refused_round q e s1 i c :
  good c -> view_of c = (i, None, false) -> refuses q (c_session c) = Some (e, s1) -> IsFatal (reported q e) = false ->
  goes (request_round q) c (inr false) [error_frame (reported q e)] (i, None, true) s1.
Proof.
  intros Hg Hv Hr Hf. eapply (goes_bind _ _ _ tt []); [by apply goes_start|]. intros c1 Hg1 Hv1 Hs1. rewrite Hv in Hv1.
  eapply (goes_bind _ _ _ None [error_frame (reported q e)] (i, None, true) s1 _ []).
  - unfold goes. rewrite (serve_request_idle q i) by done. apply refused_action; [done|done| |done]. by rewrite Hs1.
  - intros c2 Hg2 Hv2 Hs2. eapply goes_eq; [apply goes_finish; [done| | |]|done|done|done];
      [by destruct q..|unfold view_of in Hv2; by simplify_eq].
Qed.

(** A request that is skipped. *)
Lemma skipped_round q i c :
  good c -> view_of c = (i, None, true) -> q <> RSync -> q <> RTerminate ->
  goes (request_round q) c (inr false) [] (i, None, true) (c_session c).
Proof.
  intros Hg Hv Hs Ht. eapply (goes_bind _ _ _ tt []); [by apply goes_start|]. intros c1 Hg1 Hv1 Hs1. rewrite Hv in Hv1.
  assert (discardingUntilSync c1 = true) as Ed by (unfold view_of in Hv1; by simplify_eq).
  eapply (goes_bind _ _ _ None [] (i, None, true) (c_session c) _ []).
  - assert (goes (match q with RFlush => flush | _ => mret None end) c1 None [] (i, None, true) (c_session c)) as Hskip.
    { rewrite <- Hv1, <- Hs1. destruct q; auto using goes_ret, goes_flush. }
    revert Hskip. unfold goes. unfold serve_request, skipping, mbind, act_bind, get. cbn. rewrite Ed. by destruct q.
  - intros c2 Hg2 Hv2 Hs2. eapply goes_eq; [apply goes_finish; [done| | |]|done|done|done];
      [by destruct q..|unfold view_of in Hv2; by simplify_eq].
Qed.

(** The Sync after an error closes the cycle, and everything is delivered. *)
Lemma sync_round s2 i c :
  good c -> view_of c = (i, None, true) -> HandleSync (c_session c) = (None, s2) ->
  exists c', request_round RSync c = Some (inr true, c') /\ wrote c [ready_frame s2] c' /\ flushed c' /\
    view_of c' = (i, None, false) /\ c_session c' = s2.
Proof.
  intros Hg Hv Hsync.
  assert (goes (_ ← startWriterBuffering; serve_request RSync) c None [ready_frame s2] (i, None, false) s2)
    as (c1 & E & Hw & Hv1 & Hs1).
  { eapply (goes_bind _ _ _ tt []); [by apply goes_start|]. intros c1 Hg1 Hv1 Hs1. rewrite Hv in Hv1.
    assert (discardingUntilSync c1 = true /\ deferredPortalDescribe c1 = None) as [Ed Ef] by (unfold view_of in Hv1; by simplify_eq).
    assert (serve_request RSync c1 = (_ ← modify (set_discarding false); sync_action) c1) as Eq.
    { unfold serve_request, skipping, resolveDeferredPortalDescribe, act_try, mbind, act_bind, get. cbn. rewrite Ed. cbn. by rewrite Ef. }
    unfold goes. rewrite Eq. fold (goes (_ ← modify (set_discarding false); sync_action) c1 None [ready_frame s2] (i, None, false) s2).
    eapply (goes_bind _ _ _ tt []); [by apply goes_modify|]. intros c2 Hg2 Hv2 Hs2.
    eapply (goes_bind _ _ _ None []); [apply goes_call; [done|]; rewrite Hs2; cbn; rewrite Hs1; exact Hsync|].
    intros c3 Hg3 Hv3 Hs3. eapply (goes_bind _ _ _ None [] (i, None, false) s2).
    - eapply goes_eq; [by apply goes_ret|done| |done]. rewrite Hv3, Hv2. unfold view_of in *. cbn. congruence.
    - intros c4 Hg4 Hv4 Hs4. eapply goes_eq; [|exact eq_refl|exact Hv4|exact Hs4].
      rewrite <- Hs4. unfold goes, ready_for_query. apply goes_frame; [apply writeReadyForQuery_sends|done]. }
  destruct (endWriterBuffering_flushes c1 (wrote_good _ _ _ Hw)) as (c2 & E2 & Hw2 & Hf2 & Hv2).
  exists c2. split_and!; [|rewrite <- (app_nil_r [_]); by eapply wrote_trans|done|by rewrite Hv2|].
  - unfold request_round, mbind, act_bind in *. destruct (startWriterBuffering c) as [[u c3]|]; [|done]. cbn in E |- *.
    rewrite E. cbn [mbind option_bind]. unfold finish_round, mbind, act_bind, get. cbn [mbind option_bind request_type].
    rewrite (bool_decide_eq_true_2 (MsgSync = MsgSync)) by done. cbn [orb]. by rewrite E2.
  - rewrite <- Hs1. eapply (writer_session c1 tt). eauto.
Qed.

(** ** The loop *)

Definition skippable (q : request) : Prop := q <> RSync /\ q <> RTerminate.

(** The loop in rounds. *)
Lemma serve_requests_round q qs c w c' :
  request_round q c = Some (inr w, c') -> serve_requests (q :: qs) c = serve_requests qs c'.
Proof.
  intros E. cbn [serve_requests]. unfold request_round, mbind, act_bind in *.
  destruct (startWriterBuffering c) as [[u c1]|]; [|done]. cbn in E |- *.
  destruct (serve_request q c1) as [[e c2]|]; [|done]. cbn in E |- *. by rewrite E.
Qed.

Lemma serve_requests_skip ms qs i c :
  good c -> view_of c = (i, None, true) -> Forall skippable ms ->
  exists c', serve_requests (ms ++ qs) c = serve_requests qs c' /\ wrote c [] c' /\ view_of c' = (i, None, true) /\
    c_session c' = c_session c.
Proof.
  intros Hg Hv Hms. revert c Hg Hv. induction Hms as [|q ms [Hs Ht] _ IH]; intros c Hg Hv.
  { exists c. split_and!; auto using wrote_refl. }
  destruct (skipped_round q i c Hg Hv Hs Ht) as (c1 & E & Hw & Hv1 & Hs1).
  destruct (IH c1 (wrote_good _ _ _ Hw) Hv1) as (c2 & E2 & Hw2 & Hv2 & Hs2).
  exists c2. split_and!; [cbn [app]; by rewrite (serve_requests_round _ _ _ _ _ E)|by apply (wrote_trans c [] c1 [])|done|congruence].
Qed.

(** C31: An error costs a client the rest of its batch and nothing else.  On a working
    connection that holds no Describe back and is not skipping, whose input is well-formed
    requests, let the handler refuse a Parse, Bind or Close with an error whose report
    is not fatal, and let it accept the next Sync (neither a Sync nor a Terminate comes
    in between).  Then the client gets exactly one ErrorResponse, with the diagnostic the
    handler's error carries (an error without one, and every error of a Close, is
    reported as the internal error of that step with the error's text as detail), and
    one ReadyForQuery at the Sync; both have been delivered by then, none of the requests
    in between has reached the handler, and what follows the Sync is served from the
    session the handler had after the refused request and the Sync. *)
Theorem refused_request_skips_batch q ms qs e s1 s2 c :
  good c -> flushed c ->
  view_of c = (mkInput (concat (request_bytes <$> q :: ms ++ RSync :: qs)) io_EOF, None, false) ->
  Forall request_fits (q :: ms ++ RSync :: qs) ->
  refuses q (c_session c) = Some (e, s1) -> IsFatal (reported q e) = false -> Forall skippable ms ->
  HandleSync s1 = (None, s2) ->
  exists c2, good c2 /\ flushed c2 /\ c_session c2 = s2 /\ deferredPortalDescribe c2 = None /\
    discardingUntilSync c2 = false /\
    delivered (net (c_ws c2)) = delivered (net (c_ws c)) ++ chunks_bytes [error_frame (reported q e); ready_frame s2] /\
    match serve c, serve_requests qs c2 with
    | Some (e1, c1'), Some (e2, c2') => e1 = Some e2 /\ same c1' c2'
    | None, None => True
    | _, _ => False
    end.
Proof.
  intros Hg Hfl Hv Hfit Hr Hf Hms Hsync.
  destruct (refused_round q e s1 _ c Hg Hv Hr Hf) as (c1 & E1 & Hw1 & Hv1 & Hs1).
  destruct (serve_requests_skip ms (RSync :: qs) _ c1 (wrote_good _ _ _ Hw1) Hv1 Hms) as (c3 & E3 & Hw3 & Hv3 & Hs3).
  destruct (sync_round s2 _ c3 (wrote_good _ _ _ Hw3) Hv3) as (c4 & E4 & Hw4 & Hf4 & Hv4 & Hs4); [by rewrite Hs3, Hs1|].
  pose proof (wrote_trans _ _ _ _ _ (wrote_trans _ _ _ _ _ Hw1 Hw3) Hw4) as Hw. cbn [app] in Hw.
  exists c4. unfold view_of in Hv4. assert (c_in c = mkInput (concat (request_bytes <$> q :: ms ++ RSync :: qs)) io_EOF) as Ei
    by (unfold view_of in Hv; congruence).
  split_and!; [by destruct Hw|done|done|congruence|congruence| |].
  - pose proof (wrote_stream _ _ _ Hw) as Es. unfold stream in Es. rewrite Hfl, Hf4 in Es. cbn [from_option] in Es. rewrite !app_nil_r in Es. exact Es.
  - rewrite <- (serve_requests_round _ _ _ _ _ E4), <- E3, <- (serve_requests_round _ _ _ _ _ E1).
    apply serve_is_serve_requests; [by destruct Hg|done|done].
Qed.
End errors.

Definition refused_requests : list request := [RParse "s" "fail" []; RBind demo_bind; RQuery "select 1"].
Definition demo_refused : @Conn bucket_pool demo_handler :=
  demo_conn (concat (request_bytes <$> refused_requests ++ RSync :: demo_requests)).

Lemma refused_request_skips_batch_witness :
  exists c2 : @Conn bucket_pool demo_handler, good c2 /\ flushed c2 /\ c_session c2 = tt /\ deferredPortalDescribe c2 = None /\
    discardingUntilSync c2 = false /\
    delivered (net (c_ws c2)) = [] ++ chunks_bytes [error_frame (NewPgError "ERROR" "42P01" "no such table" ""); @ready_frame demo_handler tt] /\
    match serve demo_refused, serve_requests demo_requests c2 with
    | Some (e1, c1'), Some (e2, c2') => e1 = Some e2 /\ same c1' c2'
    | None, None => True
    | _, _ => False
    end.
Proof.
  apply (@refused_request_skips_batch bucket_pool demo_handler (RParse "s" "fail" []) [RBind demo_bind; RQuery "select 1"] demo_requests
           demo_error tt tt demo_refused); try reflexivity.
  - split; [apply demo_conn_ok|done].
  - repeat apply Forall_cons_2; try apply Forall_nil_2; (split; [by_decide|]); cbn; unfold bind_fits; split_and?;
      first [done|no_nul|unfold in_int32; lia|by_decide].
  - by repeat constructor.
Defined.
