(* ===== verification/PgInteger.v ===== *)
(** The evaluation engine's integers: parser/datum/datum.go, pgeval/fmgr (the call
    frame), pgeval/funcs/int.go, support.go and hash.go.  Values are kept at their
    width; arithmetic is exact or an error, never a wrapped result. *)

From Stdlib Require Import Strings.Byte.
From stdpp Require Import base numbers list strings.
From S2P Require Import Prelude.
From S2P Require Import Bytes.

Local Open Scope Z_scope.

(** ** SQL errors

    [pgerror.Ereportf] panics with a diagnostic that the evaluation boundary
    recovers: the SQLSTATE and the message format. *)
Definition PgSSNumericValueOutOfRange : string := "22003".
Definition PgSSDivisionByZero : string := "22012".
Definition PgSSInvalidPrecedingOrFollowingSize : string := "22013".
Definition PgSSInvalidTextRepresentation : string := "22P02".
Definition PgSSProtocolViolation : string := "08P01".

Definition Ereportf {A} (sqlstate format : string) : result A := Err [sqlstate; format].

(** ** Widths *)

Inductive integer := int16 | int32 | int64.

#[export] Instance integer_eq_dec : EqDecision integer.
Proof. solve_decision. Defined.

Definition integerType (T : integer) : string * Z :=
  match T with
  | int16 => ("smallint", 16)
  | int32 => ("integer", 32)
  | int64 => ("bigint", 64)
  end.

Definition width (T : integer) : Z := snd (integerType T).

(** The conversion [T(z)]: two's-complement truncation. *)
Definition to_int (T : integer) (z : Z) : Z := (z + 2 ^ (width T - 1)) mod 2 ^ width T - 2 ^ (width T - 1).

(** The conversion [uint<w>(z)]. *)
Definition to_uint (w z : Z) : Z := z mod 2 ^ w.

Definition fits (T : integer) (z : Z) : Prop := - 2 ^ (width T - 1) <= z < 2 ^ (width T - 1).

#[export] Instance fits_dec T z : Decision (fits T z).
Proof. unfold fits. apply _. Defined.

(** ** Datums *)

Record Datum := mkDatum { val : Z; ptr : option (list byte) }.
Record NullableDatum := mkNullableDatum { Value : Datum; IsNull : bool }.

Definition zero_datum : Datum := mkDatum 0 None.

Definition BoolGetDatum (x : bool) : Datum := mkDatum (if x then 1 else 0) None.
Definition DatumGetBool (x : Datum) : bool := negb (val x =? 0).
Definition Int32GetDatum (x : Z) : Datum := mkDatum (to_uint 64 x) None.
Definition DatumGetInt16 (x : Datum) : Z := to_int int16 (val x).
Definition DatumGetInt32 (x : Datum) : Z := to_int int32 (val x).
Definition Int64GetDatum (x : Z) : Datum := mkDatum (to_uint 64 x) None.
Definition DatumGetInt64 (x : Datum) : Z := to_int int64 (val x).
Definition ObjectIdGetDatum (x : Z) : Datum := mkDatum (to_uint 64 x) None.

Definition BytesGetDatum (b : list byte) : Datum :=
  if len b =? 0 then zero_datum else mkDatum (len b) (Some b).
Definition DatumGetBytes (x : Datum) : list byte :=
  if val x =? 0 then []
  else match ptr x with Some p => take (Z.to_nat (val x)) p | None => [] end.

(** ** Call frames

    [fcinfo.Args]; reading past it panics in Go, here it reads a zero Datum: the
    engine allocates a frame per declared argument. *)
Notation Args := (list NullableDatum).

Definition Arg (fcinfo : Args) (n : nat) : Datum := default zero_datum (Value <$> fcinfo !! n).
Definition GetArgBool (fcinfo : Args) (n : nat) : bool := DatumGetBool (Arg fcinfo n).
Definition GetArgInt16 (fcinfo : Args) (n : nat) : Z := DatumGetInt16 (Arg fcinfo n).
Definition GetArgInt32 (fcinfo : Args) (n : nat) : Z := DatumGetInt32 (Arg fcinfo n).
Definition GetArgInt64 (fcinfo : Args) (n : nat) : Z := DatumGetInt64 (Arg fcinfo n).
Definition GetArgBytes (fcinfo : Args) (n : nat) : list byte := DatumGetBytes (Arg fcinfo n).

Definition integerArg (T : integer) (fcinfo : Args) (n : nat) : Z := to_int T (DatumGetInt64 (Arg fcinfo n)).

Definition integerOverflow {A} (T : integer) : result A :=
  Ereportf PgSSNumericValueOutOfRange (fst (integerType T) +:+ " out of range").

(** ** Comparisons *)

Definition compare_args (f : Z -> Z -> bool) (L R : integer) (fcinfo : Args) : result Datum :=
  Ok (BoolGetDatum (f (integerArg L fcinfo 0) (integerArg R fcinfo 1))).

Definition integerEq (L R : integer) : Args -> result Datum := compare_args Z.eqb L R.
Definition integerNe (L R : integer) : Args -> result Datum := compare_args (fun a b => negb (a =? b)) L R.
Definition integerLt (L R : integer) : Args -> result Datum := compare_args Z.ltb L R.
Definition integerLe (L R : integer) : Args -> result Datum := compare_args Z.leb L R.
Definition integerGt (L R : integer) : Args -> result Datum := compare_args Z.gtb L R.
Definition integerGe (L R : integer) : Args -> result Datum := compare_args Z.geb L R.

(** ** Arithmetic *)

Definition checkedAdd (T : integer) (a b : Z) : result Z :=
  let result := to_int T (a + b) in
  if Bool.eqb (a <? 0) (b <? 0) && negb (Bool.eqb (result <? 0) (a <? 0))
  then integerOverflow T else Ok result.

Definition checkedSub (T : integer) (a b : Z) : result Z :=
  let result := to_int T (a - b) in
  if negb (Bool.eqb (a <? 0) (b <? 0)) && negb (Bool.eqb (result <? 0) (a <? 0))
  then integerOverflow T else Ok result.

(** Go's [/] truncates and wraps at the minimum. *)
Definition go_div (T : integer) (a b : Z) : Z := to_int T (Z.quot a b).

Definition checkedMul (T : integer) (a b : Z) : result Z :=
  let result := to_int T (a * b) in
  if negb (a =? 0) &&
     (negb (go_div T result a =? b) || ((a =? -1) && (b <? 0) && (result <? 0)))
  then integerOverflow T else Ok result.

(** [-a == a] for a negative [a]: the minimum of the width. *)
Definition is_min (T : integer) (a : Z) : bool := (a <? 0) && (to_int T (- a) =? a).

Definition ret_int (r : result Z) : result Datum := v ← r; Ok (Int64GetDatum v).

Definition integerAdd (L R O : integer) (fcinfo : Args) : result Datum :=
  ret_int (checkedAdd O (to_int O (integerArg L fcinfo 0)) (to_int O (integerArg R fcinfo 1))).
Definition integerSub (L R O : integer) (fcinfo : Args) : result Datum :=
  ret_int (checkedSub O (to_int O (integerArg L fcinfo 0)) (to_int O (integerArg R fcinfo 1))).
Definition integerMul (L R O : integer) (fcinfo : Args) : result Datum :=
  ret_int (checkedMul O (to_int O (integerArg L fcinfo 0)) (to_int O (integerArg R fcinfo 1))).

Definition integerDiv (L R O : integer) (fcinfo : Args) : result Datum :=
  let a := to_int O (integerArg L fcinfo 0) in
  let b := to_int O (integerArg R fcinfo 1) in
  if b =? 0 then Ereportf PgSSDivisionByZero "division by zero"
  else if (b =? -1) && is_min O a then integerOverflow O
  else Ok (Int64GetDatum (go_div O a b)).

Definition integerNegate (T : integer) (fcinfo : Args) : result Datum :=
  let a := integerArg T fcinfo 0 in
  if is_min T a then integerOverflow T else Ok (Int64GetDatum (to_int T (- a))).

Definition integerIdentity (T : integer) (fcinfo : Args) : result Datum :=
  Ok (Int64GetDatum (integerArg T fcinfo 0)).

Definition integerAbs (T : integer) (fcinfo : Args) : result Datum :=
  let a := integerArg T fcinfo 0 in
  if a <? 0 then integerNegate T fcinfo else Ok (Int64GetDatum a).

Definition integerMod (T : integer) (fcinfo : Args) : result Datum :=
  let a := integerArg T fcinfo 0 in
  let b := integerArg T fcinfo 1 in
  if b =? 0 then Ereportf PgSSDivisionByZero "division by zero"
  else Ok (Int64GetDatum (to_int T (Z.rem a b))).

Definition integerInc (T : integer) (fcinfo : Args) : result Datum :=
  ret_int (checkedAdd T (integerArg T fcinfo 0) 1).
Definition integerDec (T : integer) (fcinfo : Args) : result Datum :=
  ret_int (checkedSub T (integerArg T fcinfo 0) 1).

Definition integerCast (From To : integer) (fcinfo : Args) : result Datum :=
  let arg := integerArg From fcinfo 0 in
  let result := to_int To arg in
  if negb (result =? arg) then integerOverflow To else Ok (Int64GetDatum result).

Definition integerLarger (T : integer) (fcinfo : Args) : result Datum :=
  Ok (Int64GetDatum (Z.max (integerArg T fcinfo 0) (integerArg T fcinfo 1))).
Definition integerSmaller (T : integer) (fcinfo : Args) : result Datum :=
  Ok (Int64GetDatum (Z.min (integerArg T fcinfo 0) (integerArg T fcinfo 1))).

(** ** Bits *)

Definition bit_args (f : Z -> Z -> Z) (T : integer) (fcinfo : Args) : result Datum :=
  Ok (Int64GetDatum (to_int T (f (integerArg T fcinfo 0) (integerArg T fcinfo 1)))).

Definition integerAnd (T : integer) : Args -> result Datum := bit_args Z.land T.
Definition integerOr (T : integer) : Args -> result Datum := bit_args Z.lor T.
Definition integerXor (T : integer) : Args -> result Datum := bit_args Z.lxor T.
Definition integerNot (T : integer) (fcinfo : Args) : result Datum :=
  Ok (Int64GetDatum (to_int T (Z.lnot (integerArg T fcinfo 0)))).

Definition integerShiftCount (T : integer) (fcinfo : Args) : Z :=
  Z.land (to_uint 32 (GetArgInt32 fcinfo 1)) (Z.max 32 (width T) - 1).
Definition integerShiftLeft (T : integer) (fcinfo : Args) : result Datum :=
  Ok (Int64GetDatum (to_int T (to_int int64 (Z.shiftl (integerArg T fcinfo 0) (integerShiftCount T fcinfo))))).
Definition integerShiftRight (T : integer) (fcinfo : Args) : result Datum :=
  Ok (Int64GetDatum (to_int T (Z.shiftr (integerArg T fcinfo 0) (integerShiftCount T fcinfo)))).

(** ** gcd and lcm *)

(** [for b != 0 { a, b = b, a%b }]; [None] when the fuel runs out. *)
Fixpoint gcd_loop (fuel : nat) (a b : Z) : option Z :=
  if b =? 0 then Some a
  else match fuel with O => None | S fuel' => gcd_loop fuel' b (Z.rem a b) end.

(** Iterations that are always enough at width [T]. *)
Definition gcd_fuel (T : integer) : nat := Z.to_nat (2 * width T).

Definition integerGCDValue (T : integer) (a b : Z) : option (result Z) :=
  let a := if 0 <? a then to_int T (- a) else a in
  let b := if 0 <? b then to_int T (- b) else b in
  match gcd_loop (gcd_fuel T) a b with
  | None => None
  | Some a => Some (if is_min T a then integerOverflow T else Ok (to_int T (- a)))
  end.

Definition integerGCD (T : integer) (fcinfo : Args) : option (result Datum) :=
  ret_int <$> integerGCDValue T (integerArg T fcinfo 0) (integerArg T fcinfo 1).

Definition integerLCM (T : integer) (fcinfo : Args) : option (result Datum) :=
  let a := integerArg T fcinfo 0 in
  let b := integerArg T fcinfo 1 in
  if (a =? 0) || (b =? 0) then Some (Ok (Int64GetDatum 0))
  else
    match integerGCDValue T a b with
    | None => None
    | Some r => Some (
        g ← r;
        result ← checkedMul T (go_div T a g) b;
        if result <? 0 then
          if to_int T (- result) =? result then integerOverflow T
          else Ok (Int64GetDatum (to_int T (- result)))
        else Ok (Int64GetDatum result))
    end.

(** ** support.go *)

Definition btint2cmp (fcinfo : Args) : result Datum :=
  Ok (Int32GetDatum (to_int int32 (GetArgInt16 fcinfo 0 - GetArgInt16 fcinfo 1))).

Definition cmp_Compare (a b : Z) : Z := match a ?= b with Lt => -1 | Eq => 0 | Gt => 1 end.

Definition integerCompare (L R : integer) (fcinfo : Args) : result Datum :=
  Ok (Int32GetDatum (cmp_Compare (integerArg L fcinfo 0) (integerArg R fcinfo 1))).

Definition btboolcmp (fcinfo : Args) : result Datum :=
  if Bool.eqb (GetArgBool fcinfo 0) (GetArgBool fcinfo 1) then Ok (Int32GetDatum 0)
  else if GetArgBool fcinfo 0 then Ok (Int32GetDatum 1)
  else Ok (Int32GetDatum (-1)).

Definition integerInRange (V O : integer) (fcinfo : Args) : result Datum :=
  let val := integerArg V fcinfo 0 in
  let base := integerArg V fcinfo 1 in
  let offset := integerArg O fcinfo 2 in
  let sub := GetArgBool fcinfo 3 in
  let less := GetArgBool fcinfo 4 in
  if offset <? 0 then
    Ereportf PgSSInvalidPrecedingOrFollowingSize "invalid preceding or following size in window function"
  else
    let offset := if sub then to_int int64 (- offset) else offset in
    let sum := to_int int64 (base + offset) in
    if ((0 <? offset) && (sum <? base)) || ((offset <? 0) && (base <? sum))
    then Ok (BoolGetDatum (negb (Bool.eqb less sub)))
    else if less then Ok (BoolGetDatum (val <=? sum))
    else Ok (BoolGetDatum (sum <=? val)).

(** ** hash.go *)

(** The types of a hashed value: a char is signed or unsigned. *)
Inductive hashInteger := hash_int8 | hash_uint8 | hash_integer (T : integer).
Coercion hash_integer : integer >-> hashInteger.

(** The conversion [T(z)]. *)
Definition to_hash (T : hashInteger) (z : Z) : Z :=
  match T with
  | hash_int8 => (z + 2 ^ 7) mod 2 ^ 8 - 2 ^ 7
  | hash_uint8 => to_uint 8 z
  | hash_integer T => to_int T z
  end.

(** [int64(T(v))] read as 32-bit halves; [value >> 32] is arithmetic. *)
Definition integerHashKey (T : hashInteger) (fcinfo : Args) : Z :=
  let value := to_hash T (GetArgInt64 fcinfo 0) in
  let high := to_uint 32 (Z.shiftr value 32) in
  let high := if value <? 0 then to_uint 32 (Z.lnot high) else high in
  Z.lxor (to_uint 32 value) high.

Definition RotateLeft32 (x k : Z) : Z :=
  Z.lor (to_uint 32 (Z.shiftl x k)) (Z.shiftr x (32 - k)).

Definition add32 (a b : Z) : Z := to_uint 32 (a + b).
Definition sub32 (a b : Z) : Z := to_uint 32 (a - b).

(** One line of the mix macro: [x -= z; x ^= rot(z, k); z += y]. *)
Definition mix_step (x y z k : Z) : Z * Z :=
  let x := sub32 x z in
  let x := Z.lxor x (RotateLeft32 z k) in
  (x, add32 z y).

(** One line of the final macro: [x ^= y; x -= rot(y, k)]. *)
Definition final_step (x y k : Z) : Z := sub32 (Z.lxor x y) (RotateLeft32 y k).

Definition hashUint32 (key seed : Z) : Z :=
  let a := to_uint 32 (0x9e3779b9 + 4 + 3923095) in
  let b := a in
  let c := a in
  let '(a, b, c) :=
    if negb (seed =? 0) then
      let a := add32 a (to_uint 32 (Z.shiftr seed 32)) in
      let b := add32 b (to_uint 32 seed) in
      let '(a, c) := mix_step a b c 4 in
      let '(b, a) := mix_step b c a 6 in
      let '(c, b) := mix_step c a b 8 in
      let '(a, c) := mix_step a b c 16 in
      let '(b, a) := mix_step b c a 19 in
      let '(c, b) := mix_step c a b 4 in
      (a, b, c)
    else (a, b, c) in
  let a := add32 a key in
  let c := final_step c b 14 in
  let a := final_step a c 11 in
  let b := final_step b a 25 in
  let c := final_step c b 16 in
  let a := final_step a c 4 in
  let b := final_step b a 14 in
  let c := final_step c b 24 in
  Z.lor (to_uint 64 (Z.shiftl b 32)) c.

Definition integerHash (T : hashInteger) (fcinfo : Args) : result Datum :=
  Ok (Int32GetDatum (to_int int32 (hashUint32 (integerHashKey T fcinfo) 0))).
Definition integerHashExtended (T : hashInteger) (fcinfo : Args) : result Datum :=
  Ok (Int64GetDatum (to_int int64
    (hashUint32 (integerHashKey T fcinfo) (to_uint 64 (GetArgInt64 fcinfo 1))))).

(** ** Exactness

    The reference is arithmetic on the integers: a result that does not fit the
    declared type is an error. *)

Definition exact (T : integer) (r : option Z) : result Datum :=
  match r with
  | None => Ereportf PgSSDivisionByZero "division by zero"
  | Some z => if decide (fits T z) then Ok (Int64GetDatum z) else integerOverflow T
  end.

Definition checked (T : integer) (z : Z) : result Z := if decide (fits T z) then Ok z else integerOverflow T.

Lemma ret_checked T z : ret_int (checked T z) = exact T (Some z).
Proof. unfold checked, exact. by case_decide. Qed.

Inductive arith := Plus | Minus | Times | Divide.

Definition arith_value (o : arith) (a b : Z) : option Z :=
  match o with
  | Plus => Some (a + b)
  | Minus => Some (a - b)
  | Times => Some (a * b)
  | Divide => if b =? 0 then None else Some (Z.quot a b)
  end.

Definition arith_fn (o : arith) : integer -> integer -> integer -> Args -> result Datum :=
  match o with Plus => integerAdd | Minus => integerSub | Times => integerMul | Divide => integerDiv end.

Ltac widths T := destruct T; unfold fits, to_int, width in *; cbn [snd integerType] in *.

Lemma to_int_fits T z : fits T (to_int T z).
Proof.
  widths T; match goal with |- context [?x mod ?m] => pose proof (Z.mod_pos_bound x m ltac:(lia)) end; lia.
Qed.

Lemma to_int_id T z : fits T z -> to_int T z = z.
Proof. intros H. widths T; rewrite Z.mod_small by lia; lia. Qed.

(** A conversion changes the value by a multiple of the width's modulus. *)
Lemma to_int_shift T z : exists k, to_int T z = z - k * (2 * 2 ^ (width T - 1)).
Proof.
  widths T;
    match goal with |- context [?x mod ?m] => exists (x / m); pose proof (Z.div_mod x m ltac:(lia)) end; lia.
Qed.

Lemma fits_wider L O z : width L <= width O -> fits L z -> fits O z.
Proof.
  unfold fits. intros Hw. pose proof (Z.pow_le_mono_r 2 (width L - 1) (width O - 1) ltac:(lia) ltac:(lia)). lia.
Qed.

Lemma integerArg_fits T fcinfo n : fits T (integerArg T fcinfo n).
Proof. apply to_int_fits. Qed.

(** Reading an argument at a wider type does not change it. *)
Lemma widen L O fcinfo n : width L <= width O -> to_int O (integerArg L fcinfo n) = integerArg L fcinfo n.
Proof. intros. apply to_int_id. eapply fits_wider, integerArg_fits. done. Qed.

Ltac by_shift T z :=
  let k := fresh "k" in let Hk := fresh "Hk" in
  destruct (to_int_shift T z) as [k Hk]; pose proof (to_int_fits T z);
  revert Hk; generalize dependent (to_int T z); intros.

Lemma checkedAdd_exact T a b :
  fits T a -> fits T b -> checkedAdd T a b = checked T (a + b).
Proof.
  intros Ha Hb. unfold checkedAdd, checked. case_decide as Hf.
  - rewrite to_int_id by done. destruct (Z.ltb_spec a 0), (Z.ltb_spec b 0), (Z.ltb_spec (a + b) 0); try done; lia.
  - by_shift T (a + b). widths T;
      destruct (Z.ltb_spec a 0), (Z.ltb_spec b 0), (Z.ltb_spec z 0); try done; lia.
Qed.

Lemma checkedSub_exact T a b :
  fits T a -> fits T b -> checkedSub T a b = checked T (a - b).
Proof.
  intros Ha Hb. unfold checkedSub, checked. case_decide as Hf.
  - rewrite to_int_id by done. destruct (Z.ltb_spec a 0), (Z.ltb_spec b 0), (Z.ltb_spec (a - b) 0); try done; lia.
  - by_shift T (a - b). widths T;
      destruct (Z.ltb_spec a 0), (Z.ltb_spec b 0), (Z.ltb_spec z 0); try done; lia.
Qed.

Lemma is_min_spec T a : fits T a -> is_min T a = bool_decide (a = - 2 ^ (width T - 1)).
Proof.
  intros Ha. unfold is_min. case_bool_decide as Hm.
  - subst a. destruct T; reflexivity.
  - apply andb_false_iff. destruct (Z.ltb_spec a 0); [right|by left]. apply Z.eqb_neq.
    rewrite to_int_id by (widths T; lia). lia.
Qed.

(** A quotient leaves the type only at the minimum divided by minus one. *)
Lemma quot_fits T a b :
  fits T a -> fits T b -> b <> 0 -> ~ (a = - 2 ^ (width T - 1) /\ b = -1) -> fits T (Z.quot a b).
Proof.
  intros Ha Hb Hb0 Hm.
  assert (Z.abs (Z.quot a b) <= Z.abs a) by (rewrite <- Z.quot_abs by lia; apply Z.quot_le_upper_bound; nia).
  destruct (decide (Z.abs a = 2 ^ (width T - 1))) as [E|E]; [|unfold fits in *; lia].
  assert (a = - 2 ^ (width T - 1)) as Ea by (unfold fits in *; lia).
  destruct (decide (b = 1)) as [->|]; [by rewrite Z.quot_1_r|].
  assert (2 * Z.abs (Z.quot a b) <= Z.abs a); [|unfold fits in *; lia].
  rewrite <- Z.quot_abs by lia. pose proof (Z.mul_quot_le (Z.abs a) (Z.abs b)). nia.
Qed.

Lemma go_div_exact T a b :
  fits T a -> fits T b -> b <> 0 -> ~ (a = - 2 ^ (width T - 1) /\ b = -1) -> go_div T a b = Z.quot a b.
Proof. intros. by apply to_int_id, quot_fits. Qed.

(** The inverse operation detects every product that wrapped, except at the
    minimum, which the second test catches. *)
Lemma wrapped_product T a b :
  fits T a -> fits T b -> a <> 0 -> ~ fits T (a * b) -> go_div T (to_int T (a * b)) a = b ->
  a = -1 /\ b < 0 /\ to_int T (a * b) < 0.
Proof.
  intros Ha Hb Ha0 Hn Hd. destruct (to_int_shift T (a * b)) as [k Hk].
  pose proof (to_int_fits T (a * b)) as Hr. set (r := to_int T (a * b)) in *.
  destruct (decide (r = - 2 ^ (width T - 1) /\ a = -1)) as [[Er ->]|Hm].
  - split_and!; [done| |].
    + rewrite <- Hd, Er. destruct T; reflexivity.
    + rewrite Er. destruct T; reflexivity.
  - rewrite go_div_exact in Hd by done. exfalso. apply Hn.
    pose proof (Z.quot_rem' r a) as Hq. rewrite Hd in Hq.
    pose proof (Z.rem_bound_abs r a Ha0) as Hb'.
    assert (k = 0) as ->; [|by replace (a * b) with r by lia].
    clear Hd Hm Hn. widths T; lia.
Qed.

Lemma checkedMul_exact T a b :
  fits T a -> fits T b -> checkedMul T a b = checked T (a * b).
Proof.
  intros Ha Hb. unfold checkedMul, checked. case_decide as Hf.
  - rewrite to_int_id by done. destruct (Z.eqb_spec a 0) as [->|Ha0]; [done|]. cbn [negb andb].
    assert (go_div T (a * b) a = b) as ->.
    { unfold go_div. rewrite Z.mul_comm, Z.quot_mul by done. by apply to_int_id. }
    rewrite Z.eqb_refl. cbn [negb orb].
    destruct (Z.ltb_spec b 0), (Z.ltb_spec (a * b) 0), (Z.eqb_spec a (-1)); try done; lia.
  - destruct (Z.eqb_spec a 0) as [->|Ha0]; [exfalso; apply Hf; widths T; lia|]. cbn [negb andb].
    destruct (Z.eqb_spec (go_div T (to_int T (a * b)) a) b) as [E|]; [|done].
    apply wrapped_product in E as (-> & Hb0 & Hr0); try done.
    apply Z.ltb_lt in Hb0, Hr0. by rewrite Hb0, Hr0.
Qed.

Lemma div_exact T a b :
  fits T a -> fits T b -> b <> 0 ->
  (if (b =? -1) && is_min T a then integerOverflow T else Ok (Int64GetDatum (go_div T a b)))
  = exact T (Some (Z.quot a b)).
Proof.
  intros Ha Hb Hb0. unfold exact. rewrite is_min_spec by done.
  destruct (Z.eqb_spec b (-1)) as [->|Hb1]; case_bool_decide as Hm; cbn [andb].
  - subst a. rewrite decide_False; [done|]. destruct T; vm_compute; by intros [_ [=]].
  - rewrite decide_True by (apply quot_fits; try done; intros [? _]; done).
    by rewrite go_div_exact by (try done; intros [? _]; done).
  - rewrite decide_True by (apply quot_fits; try done; intros [_ ?]; done).
    by rewrite go_div_exact by (try done; intros [_ ?]; done).
  - rewrite decide_True by (apply quot_fits; try done; intros [_ ?]; done).
    by rewrite go_div_exact by (try done; intros [_ ?]; done).
Qed.

(** C28: integer [+], [-], [*] and [/] of the evaluation engine, at any mix of widths
    no wider than the result type, compute the mathematical result exactly: when it
    fits the result type that is the value returned, when it does not the error is
    numeric_value_out_of_range, and only a zero divisor is division_by_zero; no
    wrapped value ever escapes, the minimum divided or multiplied by minus one
    included. *)
Theorem integer_arithmetic_exact o L R O fcinfo :
  width L <= width O -> width R <= width O ->
  arith_fn o L R O fcinfo = exact O (arith_value o (integerArg L fcinfo 0) (integerArg R fcinfo 1)).
Proof.
  intros HL HR. pose proof (fits_wider _ _ _ HL (integerArg_fits L fcinfo 0)).
  pose proof (fits_wider _ _ _ HR (integerArg_fits R fcinfo 1)).
  destruct o; cbn [arith_fn arith_value].
  - unfold integerAdd. rewrite !widen, checkedAdd_exact by done. apply ret_checked.
  - unfold integerSub. rewrite !widen, checkedSub_exact by done. apply ret_checked.
  - unfold integerMul. rewrite !widen, checkedMul_exact by done. apply ret_checked.
  - unfold integerDiv. rewrite !widen by done.
    destruct (Z.eqb_spec (integerArg R fcinfo 1) 0); [done|]. by apply div_exact.
Qed.

(** ** gcd and lcm *)

Lemma gcd_loop_ends n a b :
  Z.abs b < 2 ^ Z.of_nat n ->
  exists g, gcd_loop (2 * n) a b = Some g /\ Z.abs g = Z.gcd a b /\ (a <= 0 -> b <= 0 -> g <= 0).
Proof.
  revert a b. induction n as [|n IH]; intros a b Hb.
  - assert (b = 0) as -> by (cbn in Hb; lia). exists a. cbn. rewrite Z.gcd_0_r. auto.
  - replace (2 * S n)%nat with (S (S (2 * n))) by lia. cbn [gcd_loop].
    destruct (Z.eqb_spec b 0) as [->|Hb0]; [exists a; rewrite Z.gcd_0_r; auto|].
    pose proof (Z.rem_bound_abs a b Hb0) as Hr. pose proof (Z.gcd_rem a b Hb0) as Hg.
    destruct (Z.eqb_spec (Z.rem a b) 0) as [E|Hr0].
    + exists b. rewrite E, Z.gcd_0_l in Hg. rewrite Z.gcd_comm, <- Hg. auto.
    + pose proof (Z.rem_bound_abs b (Z.rem a b) Hr0) as Hr2. pose proof (Z.gcd_rem b (Z.rem a b) Hr0) as Hg2.
      destruct (IH (Z.rem a b) (Z.rem b (Z.rem a b))) as (g & E & Hv & Hs).
      * rewrite Nat2Z.inj_succ, Z.pow_succ_r in Hb by lia.
        pose proof (Z.quot_rem' b (Z.rem a b)). pose proof (Z.quot_rem' (Z.abs b) (Z.abs (Z.rem a b))) as Hq.
        rewrite Z.rem_abs in Hq by lia.
        assert (1 <= Z.quot (Z.abs b) (Z.abs (Z.rem a b))) by (apply Z.quot_le_lower_bound; lia). nia.
      * exists g. split_and!; [done| |].
        -- rewrite Hv, Z.gcd_comm, Hg2, Hg. apply Z.gcd_comm.
        -- intros Ha Hbn. apply Hs; by apply Z.rem_nonpos.
Qed.

Lemma half_pos T : 0 < 2 ^ (width T - 1).
Proof. by destruct T. Qed.

(** The argument negated into the negative half. *)
Lemma negative_half T a : fits T a -> (if 0 <? a then to_int T (- a) else a) = - Z.abs a.
Proof.
  intros Ha. destruct (Z.ltb_spec 0 a); [|lia]. rewrite to_int_id by (widths T; lia). lia.
Qed.

Lemma gcd_bound T a b : fits T a -> fits T b -> Z.gcd a b <= 2 ^ (width T - 1).
Proof.
  intros Ha Hb. destruct (decide (a = 0)) as [->|Ha0].
  - rewrite Z.gcd_0_l. unfold fits in *. lia.
  - pose proof (Z.divide_pos_le (Z.gcd a b) (Z.abs a) ltac:(lia)
      ltac:(apply Z.divide_abs_r, Z.gcd_divide_l)). unfold fits in *. lia.
Qed.

Lemma integerGCDValue_exact T a b :
  fits T a -> fits T b -> integerGCDValue T a b = Some (checked T (Z.gcd a b)).
Proof.
  intros Ha Hb. unfold integerGCDValue. rewrite !negative_half by done.
  assert (gcd_fuel T = 2 * Z.to_nat (width T))%nat as -> by (destruct T; reflexivity).
  destruct (gcd_loop_ends (Z.to_nat (width T)) (- Z.abs a) (- Z.abs b)) as (g & -> & Hv & Hs).
  { rewrite Z2Nat.id by (destruct T; done). widths T; lia. }
  rewrite Z.gcd_opp_l, Z.gcd_opp_r, Z.gcd_abs_l, Z.gcd_abs_r in Hv. specialize (Hs ltac:(lia) ltac:(lia)).
  pose proof (gcd_bound T a b Ha Hb) as Hm. pose proof (Z.gcd_nonneg a b). pose proof (half_pos T).
  f_equal. unfold checked. rewrite is_min_spec by (unfold fits; lia).
  case_bool_decide; case_decide as Hf; try done; [unfold fits in Hf; lia| |].
  - rewrite to_int_id by (replace (- g) with (Z.gcd a b) by lia; done). f_equal. lia.
  - exfalso. apply Hf. unfold fits. lia.
Qed.

Lemma integerLCM_exact T fcinfo :
  integerLCM T fcinfo = Some (exact T (Some (Z.lcm (integerArg T fcinfo 0) (integerArg T fcinfo 1)))).
Proof.
  unfold integerLCM. pose proof (integerArg_fits T fcinfo 0) as Ha. pose proof (integerArg_fits T fcinfo 1) as Hb.
  set (a := integerArg T fcinfo 0) in *. set (b := integerArg T fcinfo 1) in *.
  clearbody a b. destruct (Z.eqb_spec a 0) as [->|Ha0]; [destruct T; reflexivity|].
  destruct (Z.eqb_spec b 0) as [->|Hb0]; [rewrite Z.lcm_0_r; destruct T; reflexivity|]. cbn [orb].
  rewrite integerGCDValue_exact by done. f_equal.
  pose proof (Z.gcd_divide_l a b) as [qa Hqa]. pose proof (Z.gcd_divide_r a b) as [qb Hqb].
  pose proof (Z.gcd_nonneg a b) as Hg0. pose proof (gcd_bound T a b Ha Hb) as Hgb. pose proof (half_pos T).
  set (g := Z.gcd a b) in *. assert (0 < g) as Hg by (destruct (decide (g = 0)) as [E|]; nia).
  assert (Z.lcm a b = Z.abs (qa * b)) as Hl.
  { unfold Z.lcm. fold g. rewrite Hqb at 1. rewrite Z.div_mul by lia. rewrite Hqa at 1.
    rewrite Hqb at 1. f_equal. lia. }
  rewrite Hl. clear Hl. clearbody g. unfold checked, mbind, result_mbind, result_bind. case_decide as Hgf.
  - rewrite go_div_exact; [|done|done|lia|intros [_ ?]; lia].
    assert (Z.quot a g = qa) as -> by (rewrite Hqa; apply Z.quot_mul; lia).
    assert (fits T qa) as Hqf by (unfold fits in *; nia).
    rewrite checkedMul_exact by done. unfold checked, exact.
    set (m := qa * b). case_decide as Hm; [|rewrite decide_False; [done|unfold fits in *; lia]].
    destruct (Z.ltb_spec m 0) as [Hneg|Hpos].
    + destruct (Z.eqb_spec (to_int T (- m)) m) as [E|E].
      * rewrite decide_False; [done|]. intros Hf. rewrite to_int_id in E by (by replace (- m) with (Z.abs m) by lia). lia.
      * assert (m <> - 2 ^ (width T - 1)) by (intros ->; apply E; destruct T; reflexivity).
        rewrite decide_True by (unfold fits in *; lia). rewrite to_int_id by (unfold fits in *; lia).
        by replace (Z.abs m) with (- m) by lia.
    + rewrite decide_True by (by rewrite Z.abs_eq by lia). by rewrite Z.abs_eq by lia.
  - unfold exact. rewrite decide_False; [done|]. intros Hf. unfold fits in *.
    assert (g = 2 ^ (width T - 1)) as Eg by lia. clear Hgf. subst g.
    set (M := 2 ^ (width T - 1)) in *. clearbody M. subst a b.
    assert (forall q, q * M <> 0 -> - M <= q * M < M -> q = -1) as Hq.
    { clear -H. intros q Hq0 Hq. assert (q <> 0) by (by intros ->). nia. }
    rewrite (Hq qa Ha0 Ha), (Hq qb Hb0 Hb) in Hf. lia.
Qed.

(** gcd and lcm of the evaluation engine always answer: Euclid's loop ends within
    twice the width in iterations, and the result is the mathematical gcd or lcm,
    or numeric_value_out_of_range exactly when that value does not fit the type
    (the gcd of two minimums, for one). *)
Theorem integer_gcd_lcm_exact T fcinfo :
  integerGCD T fcinfo = Some (exact T (Some (Z.gcd (integerArg T fcinfo 0) (integerArg T fcinfo 1)))) /\
  integerLCM T fcinfo = Some (exact T (Some (Z.lcm (integerArg T fcinfo 0) (integerArg T fcinfo 1)))).
Proof.
  split; [|apply integerLCM_exact]. unfold integerGCD.
  rewrite integerGCDValue_exact by apply integerArg_fits. cbn. by rewrite ret_checked.
Qed.

(** ** The other functions *)

Inductive unary := Negate | AbsValue | Increment | Decrement | CastTo (To : integer).

Definition unary_value (u : unary) (a : Z) : Z :=
  match u with Negate => - a | AbsValue => Z.abs a | Increment => a + 1 | Decrement => a - 1 | CastTo _ => a end.

Definition unary_fn (u : unary) (T : integer) : Args -> result Datum :=
  match u with
  | Negate => integerNegate T | AbsValue => integerAbs T | Increment => integerInc T
  | Decrement => integerDec T | CastTo To => integerCast T To
  end.

Definition unary_type (u : unary) (T : integer) : integer := match u with CastTo To => To | _ => T end.

Lemma integerNegate_exact T fcinfo : integerNegate T fcinfo = exact T (Some (- integerArg T fcinfo 0)).
Proof.
  unfold integerNegate, exact. pose proof (integerArg_fits T fcinfo 0) as Ha.
  rewrite is_min_spec by done. case_bool_decide as Hm; case_decide as Hf; try done.
  - unfold fits in *. lia.
  - by rewrite to_int_id.
  - exfalso. apply Hf. unfold fits in *. lia.
Qed.

Lemma integer_unary_exact u T fcinfo :
  unary_fn u T fcinfo = exact (unary_type u T) (Some (unary_value u (integerArg T fcinfo 0))).
Proof.
  pose proof (integerArg_fits T fcinfo 0) as Ha.
  assert (fits T 1) by (widths T; lia).
  destruct u; cbn [unary_fn unary_value unary_type].
  - apply integerNegate_exact.
  - unfold integerAbs. destruct (Z.ltb_spec (integerArg T fcinfo 0) 0).
    + rewrite integerNegate_exact. do 2 f_equal. lia.
    + rewrite Z.abs_eq by lia. unfold exact. by rewrite decide_True.
  - unfold integerInc. rewrite checkedAdd_exact by done. apply ret_checked.
  - unfold integerDec. rewrite checkedSub_exact by done. apply ret_checked.
  - unfold integerCast, exact. case_decide as Hf.
    + by rewrite to_int_id, Z.eqb_refl by done.
    + destruct (Z.eqb_spec (to_int To (integerArg T fcinfo 0)) (integerArg T fcinfo 0)) as [E|]; [|done].
      exfalso. apply Hf. rewrite <- E. apply to_int_fits.
Qed.

(** A modulus is the mathematical remainder, at the minimum and minus one too. *)
Lemma integerMod_exact T fcinfo :
  integerMod T fcinfo = exact T
    (if integerArg T fcinfo 1 =? 0 then None
     else Some (Z.rem (integerArg T fcinfo 0) (integerArg T fcinfo 1))).
Proof.
  unfold integerMod. destruct (Z.eqb_spec (integerArg T fcinfo 1) 0) as [|Hb]; [done|].
  pose proof (integerArg_fits T fcinfo 0) as Ha. pose proof (integerArg_fits T fcinfo 1).
  assert (fits T (Z.rem (integerArg T fcinfo 0) (integerArg T fcinfo 1))) as Hf.
  { pose proof (Z.rem_bound_abs (integerArg T fcinfo 0) _ Hb). unfold fits in *. lia. }
  unfold exact. by rewrite decide_True, to_int_id.
Qed.

(** a window frame bound is compared as if integers were unbounded: for a
    nonnegative offset the answer is the comparison of the value with base plus or
    minus offset over the integers, also when that sum leaves 64 bits, which is
    never an error. *)
Theorem in_range_exact V O fcinfo :
  0 <= integerArg O fcinfo 2 ->
  let val := integerArg V fcinfo 0 in
  let bound := if GetArgBool fcinfo 3 then integerArg V fcinfo 1 - integerArg O fcinfo 2
               else integerArg V fcinfo 1 + integerArg O fcinfo 2 in
  integerInRange V O fcinfo
    = Ok (BoolGetDatum (if GetArgBool fcinfo 4 then val <=? bound else bound <=? val)).
Proof.
  intros Ho val bound. unfold integerInRange. subst val bound.
  assert (forall T z, fits T z -> fits int64 z) as Hw
    by (intros T z; apply fits_wider; by destruct T).
  pose proof (Hw _ _ (integerArg_fits V fcinfo 0)) as Hv. pose proof (Hw _ _ (integerArg_fits V fcinfo 1)) as Hb.
  pose proof (Hw _ _ (integerArg_fits O fcinfo 2)) as Hf.
  revert Ho Hv Hb Hf. generalize (integerArg V fcinfo 0) (integerArg V fcinfo 1) (integerArg O fcinfo 2).
  intros v b o Ho Hv Hb Hf. destruct (Z.ltb_spec o 0); [lia|].
  assert (forall s, fits int64 s -> exists k, to_int int64 (b + s) = b + s - k * 2 ^ 64 /\
    fits int64 (to_int int64 (b + s))) as Hs.
  { intros s _. destruct (to_int_shift int64 (b + s)) as [k Hk]. exists k.
    split; [exact Hk|apply to_int_fits]. }
  destruct (GetArgBool fcinfo 3), (GetArgBool fcinfo 4); cbn [Bool.eqb negb];
    rewrite ?(to_int_id int64 (- o)) by (unfold fits, width in *; cbn in *; lia).
  1,2: destruct (Hs (- o)) as (k & Hk & Hr); [unfold fits, width in *; cbn in *; lia|].
  3,4: destruct (Hs o Hf) as (k & Hk & Hr).
  all: unfold fits, width in *; cbn [snd integerType] in *; rewrite Hk in *;
    repeat match goal with |- context [?x <? ?y] => destruct (Z.ltb_spec x y) end; cbn [andb orb];
    do 2 f_equal; try lia.
Qed.

(** ** Hashing *)

(** The high half of a sign-extended value contributes nothing to the key. *)
Lemma integerHashKey_small (T : integer) fcinfo :
  fits int32 (integerArg T fcinfo 0) -> integerHashKey T fcinfo = to_uint 32 (integerArg T fcinfo 0).
Proof.
  unfold integerHashKey, to_hash, integerArg, GetArgInt64. generalize (to_int T (DatumGetInt64 (Arg fcinfo 0))).
  intros v Hv. unfold fits, width in Hv. cbn in Hv.
  destruct (Z.ltb_spec v 0).
  - assert (Z.shiftr v 32 = -1) as ->; [|apply Z.lxor_0_r].
    rewrite Z.shiftr_div_pow2 by lia. symmetry. apply (Z.div_unique_pos _ _ _ (v + 2 ^ 32)); lia.
  - assert (Z.shiftr v 32 = 0) as ->; [|apply Z.lxor_0_r].
    rewrite Z.shiftr_div_pow2 by lia. apply Z.div_small. lia.
Qed.

(** Integers that compare equal hash equally, whatever their widths. *)
Lemma hash_respects_equality (L R : integer) a b seed :
  integerEq L R [a; b] = Ok (BoolGetDatum true) ->
  integerHash L [a] = integerHash R [b] /\ integerHashExtended L [a; seed] = integerHashExtended R [b; seed].
Proof.
  unfold integerEq, compare_args. intros [= He]. destruct (Z.eqb_spec (integerArg L [a; b] 0) (integerArg R [a; b] 1));
    [|done].
  assert (forall s, integerHashKey L (a :: s) = integerHashKey R (b :: s)) as Hk.
  { intros s. assert (integerArg L (a :: s) 0 = integerArg R (b :: s) 0) as E by done.
    unfold integerHashKey, to_hash, GetArgInt64. unfold integerArg in E. by rewrite E. }
  unfold integerHash, integerHashExtended. rewrite !Hk. done.
Qed.

(** ** Examples *)

Definition int_arg (z : Z) : NullableDatum := mkNullableDatum (Int64GetDatum z) false.
Definition bool_arg (b : bool) : NullableDatum := mkNullableDatum (BoolGetDatum b) false.

(** A char of 200 is hashed as a negative number where char is signed; the hashes
    of a boolean agree. *)
Example hashchar_abi :
  integerHash hash_int8 [int_arg 200] <> integerHash hash_uint8 [int_arg 200] /\
  integerHash hash_int8 [int_arg 1] = integerHash hash_uint8 [int_arg 1].
Proof. split; vm_compute; [discriminate|reflexivity]. Qed.

Example hashint4_42 : integerHash int32 [int_arg 42] = Ok (Int32GetDatum 1509752520).
Proof. vm_compute. reflexivity. Qed.

Lemma integer_arithmetic_exact_witness :
  width int16 <= width int32 /\
  integerMul int16 int32 int32 [int_arg (-1); int_arg (-2147483648)] = integerOverflow int32 /\
  integerDiv int16 int32 int32 [int_arg (-32768); int_arg (-1)] = Ok (Int64GetDatum 32768).
Proof.
  assert (width int16 <= width int32) as Hw by (by vm_compute). split; [exact Hw|].
  pose proof (integer_arithmetic_exact Times int16 int32 int32 [int_arg (-1); int_arg (-2147483648)]
    Hw ltac:(reflexivity)) as Hm.
  pose proof (integer_arithmetic_exact Divide int16 int32 int32 [int_arg (-32768); int_arg (-1)]
    Hw ltac:(reflexivity)) as Hd.
  cbn [arith_fn] in Hm, Hd. rewrite Hm, Hd. split; vm_compute; reflexivity.
Defined.

Lemma in_range_exact_witness :
  let args := [int_arg 5; int_arg (2 ^ 63 - 1); int_arg 10; bool_arg false; bool_arg true] in
  0 <= integerArg int64 args 2 /\ integerInRange int64 int64 args = Ok (BoolGetDatum true).
Proof.
  intros args. assert (0 <= integerArg int64 args 2) as Ho by (by vm_compute). split; [exact Ho|].
  rewrite (in_range_exact int64 int64 args Ho). vm_compute. reflexivity.
Defined.
