(* ===== verification/PgText.v ===== *)
(** Text and binary forms of the evaluation engine's integers and booleans:
    pgeval/funcs/io.go, binary.go, bool.go and sqltypes.ParseBool. *)

From Stdlib Require Import Strings.Byte.
From stdpp Require Import base numbers list strings.
From S2P Require Import Prelude.
From S2P Require Import Bytes.
From S2P Require Import PgInteger.

Local Open Scope Z_scope.

(** ** io.go: text *)

(** The cutset [" \t\n\r\v\f"]. *)
Definition is_space (b : byte) : bool :=
  bool_decide (byteZ b = 32) || bool_decide (9 <= byteZ b <= 13).

(** [strings.TrimLeft] and [strings.Trim] with that cutset. *)
Fixpoint trim_left (s : list byte) : list byte :=
  match s with
  | [] => []
  | b :: s' => if is_space b then trim_left s' else s
  end.

Definition trim (s : list byte) : list byte := rev (trim_left (rev (trim_left s))).

(** [strings.Cut(s, "\x00")], the part before. *)
Fixpoint cut_nul (s : list byte) : list byte :=
  match s with
  | [] => []
  | b :: s' => if decide (b = x00) then [] else b :: cut_nul s'
  end.

Definition cstringArg (fcinfo : Args) : list byte := cut_nul (GetArgBytes fcinfo 0).

Definition integerDigit (c : byte) : Z :=
  let c := byteZ c in
  if (48 <=? c) && (c <=? 57) then c - 48
  else if (97 <=? c) && (c <=? 102) then c - 97 + 10
  else if (65 <=? c) && (c <=? 70) then c - 65 + 10
  else 16.

Definition integerInputSyntaxError {A} : result A :=
  Ereportf PgSSInvalidTextRepresentation "invalid input syntax for type %s".
Definition integerInputRangeError {A} : result A :=
  Ereportf PgSSNumericValueOutOfRange "value is out of range for type %s".

Definition is_sign (b : byte) : bool := bool_decide (b = "-"%byte) || bool_decide (b = "+"%byte).

(** The sign and the rest. *)
Definition split_sign (s : list byte) : bool * list byte :=
  match s with
  | b :: s' => if is_sign b then (bool_decide (b = "-"%byte), s') else (false, s)
  | [] => (false, s)
  end.

Definition prefix_base (c : byte) : Z :=
  if bool_decide (c = "x"%byte) || bool_decide (c = "X"%byte) then 16
  else if bool_decide (c = "o"%byte) || bool_decide (c = "O"%byte) then 8
  else if bool_decide (c = "b"%byte) || bool_decide (c = "B"%byte) then 2
  else 10.

(** The base and the digits after its prefix. *)
Definition split_base (s : list byte) : Z * list byte :=
  match s with
  | b :: c :: s' =>
      if bool_decide (b = "0"%byte) && negb (prefix_base c =? 10) then (prefix_base c, s') else (10, s)
  | _ => (10, s)
  end.

(** The digit loop: [first] is [i == 0]; it returns the magnitude, [first] and the
    unread input. *)
Fixpoint scan_digits (base maxMagnitude : Z) (first : bool) (magnitude : Z) (s : list byte)
    : result (Z * bool * list byte) :=
  match s with
  | [] => Ok (magnitude, first, [])
  | c :: s' =>
      let digit := integerDigit c in
      if digit <? base then
        if maxMagnitude / base <? magnitude then integerInputRangeError
        else scan_digits base maxMagnitude false (to_uint 64 (magnitude * base + digit)) s'
      else if bool_decide (c = "_"%byte) then
        if (first && (base =? 10)) ||
           match s' with [] => true | c' :: _ => base <=? integerDigit c' end
        then integerInputSyntaxError
        else scan_digits base maxMagnitude false magnitude s'
      else Ok (magnitude, first, s)
  end.

Definition parseInteger (input : list byte) (T : integer) : result Z :=
  let s := trim_left input in
  let '(negative, s) := split_sign s in
  let '(base, s) := split_base s in
  let maxMagnitude := to_uint 64 (Z.shiftl 1 (width T - 1)) in
  '(magnitude, none, rest) ← scan_digits base maxMagnitude true 0 s;
  if none || negb (bool_decide (trim rest = [])) then integerInputSyntaxError
  else if negative then
    if maxMagnitude <? magnitude then integerInputRangeError
    else Ok (to_int int64 (- to_int int64 magnitude))
  else if maxMagnitude <=? magnitude then integerInputRangeError
  else Ok (to_int int64 magnitude).

Definition integerIn (T : integer) (fcinfo : Args) : result Datum :=
  ret_int (parseInteger (cstringArg fcinfo) T).

Definition integerOut (T : integer) (fcinfo : Args) : result Datum :=
  Ok (BytesGetDatum (decimal (integerArg T fcinfo 0))).

(** ** binary.go *)

Record BinaryInput := mkBinaryInput { data : list byte; cursor : Z }.

Definition NewBinaryInput (d : list byte) : BinaryInput := mkBinaryInput d 0.
Definition Remaining (b : BinaryInput) : Z := len (data b) - cursor b.

Definition BinaryInput_read (b : BinaryInput) (n : Z) : result (list byte * BinaryInput) :=
  if Remaining b <? n then Ereportf PgSSProtocolViolation "insufficient data left in message"
  else Ok (take (Z.to_nat n) (drop (Z.to_nat (cursor b)) (data b)), mkBinaryInput (data b) (cursor b + n)).

(** The [INTERNAL] argument is the input, advanced past the value. *)
Definition integerRecv (T : integer) (input : BinaryInput) : result (Datum * BinaryInput) :=
  '(d, input) ← BinaryInput_read input (width T / 8);
  Ok (Int64GetDatum (to_int T (be_value d)), input).

Definition integerSend (T : integer) (fcinfo : Args) : result Datum :=
  Ok (BytesGetDatum (be_bytes (Z.to_nat (width T / 8)) (to_uint (width T) (integerArg T fcinfo 0)))).

Definition boolrecv (input : BinaryInput) : result (Datum * BinaryInput) :=
  if Remaining input =? 0 then Ereportf PgSSProtocolViolation "no data left in message"
  else
    '(d, input) ← BinaryInput_read input 1;
    Ok (BoolGetDatum (negb (byteZ (default x00 (head d)) =? 0)), input).

Definition boolsend (fcinfo : Args) : result Datum :=
  Ok (BytesGetDatum [if GetArgBool fcinfo 0 then x01 else x00]).

(** ** bool.go *)

(** [strings.ToLower] on ASCII; no other rune lowers to a letter of the accepted
    spellings. *)
Definition to_lower (b : byte) : byte :=
  if bool_decide (65 <= byteZ b <= 90) then Zbyte (byteZ b + 32) else b.

Definition bytes_of (s : string) : list byte := String.list_byte_of_string s.

(** [strings.HasPrefix(s, v)]. *)
Definition HasPrefix (s : string) (v : list byte) : bool := bool_decide (take (length v) (bytes_of s) = v).

(** [(value, ok)]; [None] is not ok. *)
Definition ParseBool (s : list byte) : option bool :=
  let v := map to_lower (trim s) in
  if bool_decide (v = []) then None
  else if bool_decide (v = bytes_of "1") || HasPrefix "true" v || HasPrefix "yes" v ||
          bool_decide (v = bytes_of "on") then Some true
  else if bool_decide (v = bytes_of "0") || HasPrefix "false" v || HasPrefix "no" v ||
          ((1 <? len v) && HasPrefix "off" v) then Some false
  else None.

Definition boolin (fcinfo : Args) : result Datum :=
  match ParseBool (cstringArg fcinfo) with
  | Some value => Ok (BoolGetDatum value)
  | None => Ereportf PgSSInvalidTextRepresentation "invalid input syntax for type boolean"
  end.

Definition boolout (fcinfo : Args) : result Datum :=
  Ok (BytesGetDatum (bytes_of (if GetArgBool fcinfo 0 then "t" else "f"))).
Definition booltext (fcinfo : Args) : result Datum :=
  Ok (BytesGetDatum (bytes_of (if GetArgBool fcinfo 0 then "true" else "false"))).

Definition bool_args (f : bool -> bool -> bool) (fcinfo : Args) : result Datum :=
  Ok (BoolGetDatum (f (GetArgBool fcinfo 0) (GetArgBool fcinfo 1))).

Definition booleq : Args -> result Datum := bool_args Bool.eqb.
Definition boolne : Args -> result Datum := bool_args (fun a b => negb (Bool.eqb a b)).
Definition boollt : Args -> result Datum := bool_args (fun a b => negb a && b).
Definition boolle : Args -> result Datum := bool_args (fun a b => negb a || b).
Definition boolgt : Args -> result Datum := bool_args (fun a b => a && negb b).
Definition boolge : Args -> result Datum := bool_args (fun a b => a || negb b).

Definition int4bool (fcinfo : Args) : result Datum := Ok (BoolGetDatum (negb (GetArgInt32 fcinfo 0 =? 0))).
Definition boolint4 (fcinfo : Args) : result Datum := Ok (Int32GetDatum (if GetArgBool fcinfo 0 then 1 else 0)).

Definition boolandStatefunc : Args -> result Datum := bool_args andb.
Definition boolorStatefunc : Args -> result Datum := bool_args orb.

(** ** Reading numbers *)

Lemma is_digit_range b : is_digit b = true -> 48 <= byteZ b <= 57.
Proof. unfold is_digit. intros H. reflect_bools. lia. Qed.

(** What the parser makes of a decimal digit. *)
Lemma digit_facts b : is_digit b = true ->
  is_space b = false /\ is_sign b = false /\ prefix_base b = 10 /\ b <> x00 /\
  integerDigit b = digit_value b /\ 0 <= digit_value b < 10.
Proof.
  intros H. pose proof (is_digit_range _ H) as Hr.
  assert (forall c, (byteZ c < 48 \/ 57 < byteZ c) -> bool_decide (b = c) = false) as Hne.
  { intros c Hc. apply bool_decide_eq_false. intros ->. lia. }
  unfold is_space, is_sign, prefix_base, integerDigit, digit_value.
  rewrite !Hne by (vm_compute; (left; reflexivity) || (right; reflexivity)).
  split_and!; try done; try lia.
  - apply orb_false_iff. split; apply bool_decide_eq_false; lia.
  - intros ->. vm_compute in H. done.
  - destruct (Z.leb_spec 48 (byteZ b)), (Z.leb_spec (byteZ b) 57); try lia. done.
Qed.

Definition value_from (m : Z) (l : list byte) : Z := foldl (fun acc b => acc * 10 + digit_value b) m l.

Lemma value_from_grows l m : Forall (fun b => is_digit b = true) l -> 0 <= m -> m <= value_from m l.
Proof.
  unfold value_from. intros Hl. revert m. induction Hl as [|b l Hb _ IH]; intros m Hm; cbn; [lia|].
  pose proof (digit_facts _ Hb) as (_ & _ & _ & _ & _ & ?). specialize (IH (m * 10 + digit_value b)). lia.
Qed.

(** The loop over digits: the value, or the range error when it is above the
    maximum. *)
Lemma scan_decimal mx l first m :
  0 <= mx <= 2 ^ 63 -> Forall (fun b => is_digit b = true) l -> 0 <= m ->
  scan_digits 10 mx first m l = Ok (value_from m l, first && bool_decide (l = []), []) \/
  (scan_digits 10 mx first m l = integerInputRangeError /\ mx < value_from m l).
Proof.
  intros Hmx Hl. revert first m. induction Hl as [|b l Hb Hl IH]; intros first m Hm.
  - left. cbn. by rewrite andb_true_r.
  - pose proof (digit_facts _ Hb) as (_ & _ & _ & _ & Hd & Hd10). cbn [scan_digits].
    rewrite Hd. destruct (Z.ltb_spec (digit_value b) 10); [|lia].
    rewrite bool_decide_eq_false_2, andb_false_r by done.
    destruct (Z.ltb_spec (mx / 10) m) as [Hover|Hok].
    + right. split; [done|]. cbn. pose proof (value_from_grows l (m * 10 + digit_value b) Hl ltac:(lia)).
      pose proof (Z.div_mod mx 10). pose proof (Z.mod_pos_bound mx 10). unfold value_from in *. lia.
    + assert (m * 10 <= mx) by (pose proof (Z.mul_div_le mx 10); lia).
      unfold to_uint. rewrite Z.mod_small by lia.
      destruct (IH false (m * 10 + digit_value b) ltac:(lia)) as [E|E]; [left|right]; exact E.
Qed.

Lemma split_base_digits l : Forall (fun b => is_digit b = true) l -> split_base l = (10, l).
Proof.
  intros Hl. destruct l as [|b [|c l]]; [done..|]. cbn.
  destruct (digit_facts c) as (_ & _ & -> & _); [by apply (Forall_inv (Forall_inv_tail Hl))|]. by rewrite andb_false_r.
Qed.

Lemma half_shift T : to_uint 64 (Z.shiftl 1 (width T - 1)) = 2 ^ (width T - 1).
Proof. by destruct T. Qed.

(** The decimal text of an integer: its sign and the digits of its magnitude. *)
Lemma split_decimal z :
  trim_left (decimal z) = decimal z /\ split_sign (decimal z) = (z <? 0, decimal (Z.abs z)).
Proof.
  pose proof (decimal_digits (Z.abs z) ltac:(lia)) as (Hd & _ & Hne).
  unfold decimal at 1 2 3. destruct (Z.ltb_spec z 0) as [Hz|Hz].
  - split; [reflexivity|]. unfold decimal. destruct (Z.ltb_spec (Z.abs z) 0); [lia|].
    by rewrite Z.abs_idemp.
  - assert (rev (decimal_rev (decimal_fuel (Z.abs z)) (Z.abs z)) = decimal (Z.abs z)) as ->.
    { unfold decimal. destruct (Z.ltb_spec (Z.abs z) 0); [lia|]. by rewrite Z.abs_idemp. }
    destruct (decimal (Z.abs z)) as [|b l]; [done|].
    destruct (digit_facts b (Forall_inv Hd)) as (Hs & Hg & _). cbn. by rewrite Hs, Hg.
Qed.

Lemma parse_decimal T z : parseInteger (decimal z) T = if decide (fits T z) then Ok z else integerInputRangeError.
Proof.
  unfold parseInteger. destruct (split_decimal z) as [-> ->].
  pose proof (decimal_digits (Z.abs z) ltac:(lia)) as (Hd & Hv & Hne).
  rewrite split_base_digits, half_shift by done. pose proof (half_pos T).
  assert (2 ^ (width T - 1) <= 2 ^ 63) by (by destruct T).
  assert (value_from 0 (decimal (Z.abs z)) = Z.abs z) as Hv' by exact Hv.
  destruct (scan_decimal (2 ^ (width T - 1)) (decimal (Z.abs z)) true 0 ltac:(lia) Hd ltac:(lia))
    as [->|[-> Hbig]]; rewrite Hv' in *; cbn [mbind result_mbind result_bind].
  - rewrite bool_decide_eq_false_2 by done. cbn [andb orb negb trim trim_left rev].
    rewrite bool_decide_eq_true_2 by done. cbn [negb].
    destruct (Z.ltb_spec z 0).
    + destruct (Z.ltb_spec (2 ^ (width T - 1)) (Z.abs z)); case_decide as Hf; try done;
        [unfold fits in Hf; lia| |exfalso; apply Hf; unfold fits; lia].
      f_equal. destruct (decide (z = - 2 ^ 63)) as [->|]; [reflexivity|].
      rewrite (to_int_id int64 (Z.abs z)) by (unfold fits, width; cbn; lia).
      rewrite to_int_id by (unfold fits, width; cbn; lia). lia.
    + destruct (Z.leb_spec (2 ^ (width T - 1)) (Z.abs z)); case_decide as Hf; try done;
        [unfold fits in Hf; lia| |exfalso; apply Hf; unfold fits; lia].
      f_equal. rewrite to_int_id by (unfold fits, width; cbn; lia). lia.
  - rewrite decide_False; [done|]. unfold fits. lia.
Qed.

Lemma cut_nul_id l : Forall (fun b => b <> x00) l -> cut_nul l = l.
Proof. induction 1; cbn; [done|]. rewrite decide_False by done. congruence. Qed.

Lemma DatumGetBytes_BytesGetDatum b : DatumGetBytes (BytesGetDatum b) = b.
Proof.
  unfold BytesGetDatum, DatumGetBytes, len. destruct b as [|x b]; [done|]. cbn [length].
  destruct (Z.eqb_spec (Z.of_nat (S (length b))) 0); [lia|]. cbn [val ptr].
  destruct (Z.eqb_spec (Z.of_nat (S (length b))) 0); [lia|]. rewrite Nat2Z.id. apply (firstn_all (x :: b)).
Qed.

Lemma decimal_no_nul z : Forall (fun b => b <> x00) (decimal z).
Proof.
  assert (forall y, 0 <= y -> Forall (fun b => b <> x00) (decimal y)) as Hd.
  { intros y Hy. eapply Forall_impl; [apply decimal_digits, Hy|]. intros b Hb. by apply digit_facts. }
  pose proof (Hd (Z.abs z) ltac:(lia)) as H. unfold decimal in *. rewrite Z.abs_idemp in H.
  destruct (Z.ltb_spec (Z.abs z) 0); [lia|]. destruct (z <? 0); [constructor; [done|]|]; exact H.
Qed.

(** text output followed by text input is exact across all integer types: reading
    back the text of an integer with the input function of type [T'] gives the same
    integer when it fits [T'], its own type in particular, and
    numeric_value_out_of_range when it does not, the most negative integer included. *)
Theorem integer_text_round_trip T T' fcinfo :
  exists text, integerOut T fcinfo = Ok text /\
    integerIn T' [mkNullableDatum text false] =
      (if decide (fits T' (integerArg T fcinfo 0)) then Ok (Int64GetDatum (integerArg T fcinfo 0))
       else integerInputRangeError) /\
    fits T (integerArg T fcinfo 0).
Proof.
  eexists. split_and!; [reflexivity| |apply integerArg_fits].
  unfold integerIn, cstringArg.
  change (GetArgBytes _ 0) with (DatumGetBytes (BytesGetDatum (decimal (integerArg T fcinfo 0)))).
  rewrite DatumGetBytes_BytesGetDatum, cut_nul_id by apply decimal_no_nul.
  rewrite parse_decimal. by case_decide.
Qed.

(** ** What a text denotes *)

Definition digits_value (base : Z) (m : Z) (body : list byte) : Z :=
  foldl (fun acc c => if integerDigit c <? base then acc * base + integerDigit c else acc) m body.

Inductive sign_spelling : list byte -> Z -> Prop :=
| no_sign : sign_spelling [] 1
| plus_sign : sign_spelling ["+"%byte] 1
| minus_sign : sign_spelling ["-"%byte] (-1).

Inductive base_spelling : list byte -> Z -> Prop :=
| base_10 : base_spelling [] 10
| base_prefix c : prefix_base c <> 10 -> base_spelling ["0"%byte; c] (prefix_base c).

(** [input] is a signed numeral of value [v] between blanks. *)
Definition denotes (input : list byte) (v : Z) : Prop :=
  exists blanks sgn sigma pre base body tail,
    input = blanks ++ sgn ++ pre ++ body ++ tail /\
    Forall (fun b => is_space b = true) blanks /\ Forall (fun b => is_space b = true) tail /\
    sign_spelling sgn sigma /\ base_spelling pre base /\
    body <> [] /\ Forall (fun c => integerDigit c < base \/ c = "_"%byte) body /\
    v = sigma * digits_value base 0 body.

Lemma trim_left_split s : exists blanks, s = blanks ++ trim_left s /\ Forall (fun b => is_space b = true) blanks.
Proof.
  induction s as [|b s (bl & Hs & Hb)]; [by exists []|]. cbn. destruct (is_space b) eqn:E.
  - exists (b :: bl). split; [cbn; congruence|by constructor].
  - by exists [].
Qed.

Lemma trim_nil s : trim s = [] -> Forall (fun b => is_space b = true) s.
Proof.
  unfold trim. intros H. apply (f_equal (@rev byte)) in H. rewrite rev_involutive in H. cbn in H.
  destruct (trim_left_split s) as (bl & Hs & Hb). destruct (trim_left_split (rev (trim_left s))) as (tl & Ht & Htl).
  rewrite H, app_nil_r in Ht. rewrite Hs. apply Forall_app. split; [done|].
  rewrite <- (rev_involutive (trim_left s)), Ht. by apply Forall_rev.
Qed.

Lemma scan_digits_sound base mx s first m m' none rest :
  2 <= base <= 16 -> 0 <= mx <= 2 ^ 63 -> 0 <= m ->
  scan_digits base mx first m s = Ok (m', none, rest) ->
  exists body, s = body ++ rest /\ m' = digits_value base m body /\ 0 <= m' /\
    Forall (fun c => integerDigit c < base \/ c = "_"%byte) body /\ (none = false -> first = false \/ body <> []).
Proof.
  intros Hb Hmx. revert first m. induction s as [|c s IH]; intros first m Hm; cbn.
  - intros [= <- <- <-]. exists []. split_and!; try done. intros ->. by left.
  - destruct (Z.ltb_spec (integerDigit c) base) as [Hd|Hd].
    + destruct (Z.ltb_spec (mx / base) m); [done|].
      assert (0 <= integerDigit c) by (unfold integerDigit; split_ifs; reflect_bools; lia).
      assert (m * base <= mx) by (pose proof (Z.mul_div_le mx base); nia).
      unfold to_uint. rewrite Z.mod_small by lia. intros (body & -> & -> & Hpos & Hf & _)%IH; [|nia].
      exists (c :: body). split_and!; [done| |done|constructor; auto|by right].
      cbn. destruct (Z.ltb_spec (integerDigit c) base); [done|lia].
    + case_bool_decide as Hu.
      * destruct (_ || _); [done|]. intros (body & -> & -> & Hpos & Hf & _)%IH; [|done].
        exists (c :: body). split_and!; [done| |done|constructor; auto|by right].
        cbn. destruct (Z.ltb_spec (integerDigit c) base); [lia|done].
      * intros [= <- <- <-]. exists []. split_and!; try done. intros ->. by left.
Qed.

Lemma prefix_base_range c : 2 <= prefix_base c <= 16.
Proof. unfold prefix_base. split_ifs; lia. Qed.

(** The sign and range check that ends the parse. *)
Lemma signed_magnitude T (negative : bool) m v :
  0 <= m ->
  (if negative then
     if 2 ^ (width T - 1) <? m then integerInputRangeError
     else Ok (to_int int64 (- to_int int64 m))
   else if 2 ^ (width T - 1) <=? m then integerInputRangeError
   else Ok (to_int int64 m)) = Ok v ->
  v = (if negative then -1 else 1) * m /\ fits T v.
Proof.
  intros Hm0 H. pose proof (half_pos T). assert (2 ^ (width T - 1) <= 2 ^ 63) by (by destruct T).
  unfold fits. destruct negative.
  - destruct (Z.ltb_spec (2 ^ (width T - 1)) m); [done|]. injection H as <-.
    destruct (decide (m = 2 ^ 63)) as [->|]; [split; [reflexivity|destruct T; vm_compute in *; lia || done]|].
    rewrite (to_int_id int64 m), to_int_id by (unfold fits, width; cbn; lia). lia.
  - destruct (Z.leb_spec (2 ^ (width T - 1)) m); [done|]. injection H as <-.
    rewrite to_int_id by (unfold fits, width; cbn; lia). lia.
Qed.

Lemma scan_nonneg base mx first m0 l m none rest :
  scan_digits base mx first m0 l = Ok (m, none, rest) -> 0 <= m0 -> 0 <= m.
Proof.
  revert first m0. induction l as [|c l IH]; intros first m0 H Hm; cbn in H; [by simplify_eq|].
  destruct (_ <? base); [|destruct (bool_decide _); [destruct (_ || _); [done|by eapply IH]|by simplify_eq]].
  destruct (_ <? m0); [done|]. eapply IH; [exact H|]. apply Z.mod_pos_bound. done.
Qed.

(** What the integer input functions accept fits the type. *)
Lemma parse_fits T input v : parseInteger input T = Ok v -> fits T v.
Proof.
  unfold parseInteger. destruct (split_sign _) as [negative s], (split_base s) as [base digits]. rewrite half_shift. intros H.
  inv_ok. destruct a as [[m none] rest]. destruct (none || _); [done|].
  apply (signed_magnitude T negative m v); [by eapply scan_nonneg|done].
Qed.

(** whatever text the integer input functions accept is a numeral and the value is
    the one it denotes: optional blanks, sign and base prefix, digits of that base
    possibly separated by underscores, blanks; the value fits the type, and the
    64-bit accumulator never wraps on the way. *)
Theorem parse_integer_sound T input v :
  parseInteger input T = Ok v -> denotes input v /\ fits T v.
Proof.
  unfold parseInteger. destruct (trim_left_split input) as (blanks & Hin & Hbl).
  destruct (split_sign (trim_left input)) as [negative s] eqn:Hsign.
  destruct (split_base s) as [base digits] eqn:Hbase. rewrite half_shift. intros H.
  destruct (scan_digits _ _ _ _ _) as [[[m none] rest]|] eqn:Hscan; [|done].
  cbn [mbind result_mbind result_bind] in H. destruct (none || _) eqn:Hend; [done|].
  apply orb_false_iff in Hend as [-> Hrest]. apply negb_false_iff, bool_decide_eq_true, trim_nil in Hrest.
  assert (exists sgn, trim_left input = sgn ++ s /\ sign_spelling sgn (if negative then -1 else 1)) as (sgn & Hs & Hsgn).
  { destruct (trim_left input) as [|b l]; cbn in Hsign; [simplify_eq; by exists []; repeat constructor|].
    unfold is_sign in Hsign. repeat case_bool_decide; simplify_eq/=;
      [exists ["-"%byte]|exists ["+"%byte]|exists []]; repeat constructor. }
  assert (exists pre, s = pre ++ digits /\ base_spelling pre base /\ 2 <= base <= 16) as (pre & Hp & Hpre & Hb).
  { destruct s as [|b [|c l]]; cbn in Hbase; [simplify_eq; exists []; repeat constructor; lia..|].
    destruct (Z.eqb_spec (prefix_base c) 10); cbn [negb] in Hbase.
    - rewrite andb_false_r in Hbase. simplify_eq. exists []. repeat constructor; lia.
    - case_bool_decide; cbn [andb] in Hbase; simplify_eq;
        [exists ["0"%byte; c]|exists []]; repeat constructor; try done; try lia; apply prefix_base_range. }
  pose proof (half_pos T). assert (2 ^ (width T - 1) <= 2 ^ 63) by (by destruct T).
  apply scan_digits_sound in Hscan as (body & -> & Hm & Hm0 & Hf & Hne); [|done|lia|lia].
  destruct (signed_magnitude T negative m v Hm0 H) as [Hv Hfit].
  split; [|done]. exists blanks, sgn, (if negative then -1 else 1), pre, base, body, rest.
  destruct (Hne eq_refl) as [?|Hbody]; [done|].
  split_and!; try done; [by rewrite Hin, Hs, Hp|by rewrite Hv, Hm].
Qed.

(** ** Binary form *)

Lemma to_int_uint T z : to_int T (to_uint (width T) z) = to_int T z.
Proof.
  unfold to_uint, to_int. f_equal. rewrite Z.add_mod_idemp_l; [done|]. by destruct T.
Qed.

Lemma read_middle pre mid rest :
  BinaryInput_read (mkBinaryInput (pre ++ mid ++ rest) (len pre)) (len mid)
  = Ok (mid, mkBinaryInput (pre ++ mid ++ rest) (len pre + len mid)).
Proof.
  unfold BinaryInput_read, Remaining, len. cbn [data cursor]. rewrite !length_app.
  destruct (Z.ltb_spec (Z.of_nat (length pre + (length mid + length rest)) - Z.of_nat (length pre))
    (Z.of_nat (length mid))); [lia|].
  by rewrite !Nat2Z.id, drop_app_length, take_app_length.
Qed.

Lemma send_length T z : len (be_bytes (Z.to_nat (width T / 8)) z) = width T / 8.
Proof. unfold len. rewrite be_bytes_length. by destruct T. Qed.

(** binary output followed by binary input gives the value back and consumes
    exactly its bytes: wherever the encoded integer stands in a buffer, receiving at
    its first byte yields the integer and leaves the cursor at the byte after it. *)
Theorem integer_wire_round_trip T fcinfo pre rest :
  exists d, integerSend T fcinfo = Ok d /\
    let input := pre ++ DatumGetBytes d ++ rest in
    integerRecv T (mkBinaryInput input (len pre))
      = Ok (Int64GetDatum (integerArg T fcinfo 0), mkBinaryInput input (len pre + width T / 8)).
Proof.
  eexists. split; [reflexivity|]. cbv zeta. rewrite DatumGetBytes_BytesGetDatum.
  unfold integerRecv. rewrite <- (send_length T (to_uint (width T) (integerArg T fcinfo 0))) at 2 4.
  rewrite read_middle. cbn [mbind result_mbind result_bind]. do 3 f_equal.
  rewrite be_value_bytes.
  assert (256 ^ Z.of_nat (Z.to_nat (width T / 8)) = 2 ^ width T) as -> by (by destruct T).
  rewrite (Z.mod_small (to_uint _ _)) by (apply Z.mod_pos_bound; by destruct T).
  rewrite to_int_uint. apply to_int_id, integerArg_fits.
Qed.

(** Booleans round trip through text and bytes. *)
Lemma bool_round_trip b :
  (d ← boolout [bool_arg b]; boolin [mkNullableDatum d false]) = Ok (BoolGetDatum b) /\
  (d ← booltext [bool_arg b]; boolin [mkNullableDatum d false]) = Ok (BoolGetDatum b) /\
  (d ← boolsend [bool_arg b]; boolrecv (NewBinaryInput (DatumGetBytes d)))
    = Ok (BoolGetDatum b, mkBinaryInput [if b then x01 else x00] 1).
Proof. destruct b; vm_compute; auto. Qed.

(** ** Examples *)

Example parse_hex : parseInteger (bytes_of " -0x_8000 ") int16 = Ok (-32768).
Proof. vm_compute. reflexivity. Qed.

Example parse_error_precedence : parseInteger (bytes_of "99999999999z") int32 = integerInputRangeError.
Proof. vm_compute. reflexivity. Qed.

Lemma parse_integer_sound_witness :
  parseInteger (bytes_of " -0b1_01") int16 = Ok (-5) /\ fits int16 (-5).
Proof.
  assert (parseInteger (bytes_of " -0b1_01") int16 = Ok (-5)) as H by (vm_compute; reflexivity).
  exact (conj H (proj2 (parse_integer_sound _ _ _ H))).
Defined.
