(* ===== verification/PgExec.v ===== *)
(** The expression executor: pgeval/exec/exec.go over pgeval/fmgr.  [Prepare] compiles
    an analyzed tree into steps that share call frames and CASE cells between
    evaluations; [Eval] runs them.  The frames and cells live in a store, so the
    reuse is part of the model. *)

From Stdlib Require Import Strings.Byte.
From stdpp Require Import base gmap numbers list strings.
From S2P Require Import Prelude.
From S2P Require Import Bytes.
From S2P Require Import PgInteger.
From S2P Require Import PgText.

Local Open Scope Z_scope.
Local Set Warnings "-register-all".

Definition Oid : Type := Z.
Definition InvalidOid : Oid := 0.
Definition BOOLOID : Oid := 16.

Definition PgSSFeatureNotSupported : string := "0A000".
Definition PgSSInternalError : string := "XX000".
Definition PgSSDatatypeMismatch : string := "42804".
Definition PgSSUndefinedObject : string := "42704".
Definition PgSSUndefinedFunction : string := "42883".
Definition PgSSTooManyArguments : string := "54023".

Definition Elogf {A} (format : string) : result A := Ereportf PgSSInternalError format.

(** A Go panic that is not an [ereport], such as an index out of range: it is not
    recovered. *)
Definition go_panic {A} : result A := Err ["panic"].

(** ** The analyzed tree (parser/ast/expressions.go, type_coercion_nodes.go) *)

Inductive BoolExprType := AND_EXPR | OR_EXPR | NOT_EXPR | BoolExprType_other (z : Z).
Inductive NullTestType := IS_NULL | IS_NOT_NULL | NullTestType_other (z : Z).
Inductive BoolTestType :=
| IS_TRUE | IS_NOT_TRUE | IS_FALSE | IS_NOT_FALSE | IS_UNKNOWN | IS_NOT_UNKNOWN | BoolTestType_other (z : Z).

Inductive Node :=
| NilNode
| Const (consttype : Oid) (constvalue : Datum) (constisnull : bool)
| Param (extern : bool) (paramid : Z) (paramtype : Oid)
| FuncExpr (funcid funcresulttype : Oid) (args : list Node)
| OpExpr (opfuncid opresulttype : Oid) (args : list Node)
| DistinctExpr (opfuncid opresulttype : Oid) (args : list Node)
| NullIfExpr (opfuncid opresulttype : Oid) (args : list Node)
| BoolExpr (boolop : BoolExprType) (args : list Node)
| RelabelType (arg : Node) (resulttype : Oid)
| CoerceViaIO (arg : Node) (resulttype : Oid)
| CaseExpr (casetype : Oid) (arg : option Node) (args : list Node) (defresult : option Node)
| CaseWhen (expr res : Node)
| CaseTestExpr (typeId : Oid)
| CoalesceExpr (coalescetype : Oid) (args : list Node)
| NullTest (arg : Node) (nulltesttype : NullTestType) (argisrow : bool)
| BooleanTest (arg : Node) (booltesttype : BoolTestType)
| ArrayExpr (arrayTypeid : Oid)
| ArrayCoerceExpr (resulttype : Oid)
| ScalarArrayOpExpr
| MinMaxExpr (minMaxType : Oid)
| CoerceToDomain (resulttype : Oid)
| OtherNode.

(** analyze/nodefuncs.go *)
Definition exprType (expr : Node) : result Oid :=
  match expr with
  | NilNode => Ok InvalidOid
  | Const t _ _ | Param _ _ t | FuncExpr _ t _ | OpExpr _ t _ | DistinctExpr _ t _ | NullIfExpr _ t _ => Ok t
  | ScalarArrayOpExpr | BoolExpr _ _ | NullTest _ _ _ | BooleanTest _ _ => Ok BOOLOID
  | RelabelType _ t | CoerceViaIO _ t | ArrayCoerceExpr t => Ok t
  | CaseExpr t _ _ _ | CaseTestExpr t | ArrayExpr t | CoalesceExpr t _ | MinMaxExpr t | CoerceToDomain t => Ok t
  | CaseWhen _ _ | OtherNode => Elogf "unrecognized node type: %s"
  end.

(** ** fmgr *)

(** A builtin takes the frame's arguments and answers a value and its nullness. *)
Definition PGFunction : Type := Args -> result (Datum * bool).

Record FmgrInfo := mkFmgrInfo { FnAddr : PGFunction; FnStrict : bool; FnRetset : bool }.

Record Proc := mkProc {
  proc_Oid : Oid; proc_Name : string; proc_ArgTypes : list Oid; proc_RetType : Oid;
  proc_Strict : bool; proc_RetSet : bool; proc_Kind_aggregate : bool; proc_Src : string
}.
Record PgType := mkPgType { typ_Oid : Oid; typ_Input : Oid; typ_Output : Oid; typ_Elem : Oid }.

(** The compiled-in catalog, the resolver of user functions and the registered
    implementations. *)
Record Catalog := mkCatalog {
  ProcByOid : Oid -> option Proc;
  TypeByOid : Oid -> option PgType;
  procResolver : option (Oid -> option Proc);
  builtins : string -> option PGFunction
}.

(** Call frames and the cells of CASE expressions, by identity. *)
Notation frame_id := nat (only parsing).
Inductive object := Frame (a : Args) | Cell (v : NullableDatum).
Notation store := (gmap nat object).

Section catalog.
Context (cat : Catalog).

Definition IsBuiltinRegistered (prosrc : string) : bool := bool_decide (is_Some (builtins cat prosrc)).

Definition lookupProc (oid : Oid) : option Proc :=
  match ProcByOid cat oid with
  | Some p => Some p
  | None => procResolver cat ≫= fun resolve => resolve oid
  end.

Definition stubFor (proc : Proc) : PGFunction := fun _ =>
  Ereportf PgSSFeatureNotSupported
    (if proc_Kind_aggregate proc then "aggregate function called as a scalar function"
     else "function is not yet implemented in the gateway evaluation engine").

Definition FmgrInfoFor (oid : Oid) : result FmgrInfo :=
  match lookupProc oid with
  | None => Ereportf PgSSUndefinedFunction "cache lookup failed for function"
  | Some proc =>
      let fn := match ProcByOid cat oid with Some _ => builtins cat (proc_Src proc) | None => None end in
      Ok (mkFmgrInfo (default (stubFor proc) fn) (proc_Strict proc) (proc_RetSet proc))
  end.

(** [CallFunction]: a strict function is not called on a NULL argument. *)
Definition CallFunction (flinfo : FmgrInfo) (args : Args) : result NullableDatum :=
  if FnStrict flinfo && existsb IsNull args then Ok (mkNullableDatum zero_datum true)
  else '(v, isnull) ← FnAddr flinfo args; Ok (mkNullableDatum v isnull).

(** ** Steps, frames and cells *)

Inductive step :=
| constStep (value : NullableDatum)
| paramStep (id : Z) (typ : Oid)
| funcStep (fcinfo : frame_id) (flinfo : FmgrInfo) (args : list (option step))
| distinctStep (fcinfo : frame_id) (flinfo : FmgrInfo) (args : list (option step))
| nullIfStep (fcinfo : frame_id) (flinfo : FmgrInfo) (args : list (option step))
| boolStep (op : BoolExprType) (args : list step)
| nullTestStep (arg : step) (wantNull : bool)
| boolTestStep (arg : step) (kind : BoolTestType)
| caseStep (val : frame_id) (arg : option step) (whens : list (step * step)) (def : step)
| caseTestStep (val : frame_id)
| coalesceStep (args : list step)
| ioCoerceStep (arg : step) (out : frame_id) (outinfo : FmgrInfo) (inp : frame_id) (ininfo : FmgrInfo).

(** Preparing allocates: the next identity and the store. *)
Record heap := mkHeap { next : frame_id; objects : store }.

Definition P (A : Type) : Type := heap -> heap * result A.
#[global] Instance P_ret : MRet P := fun A a h => (h, Ok a).
#[global] Instance P_bind : MBind P := fun A B f m h =>
  match m h with (h', Ok a) => f a h' | (h', Err e) => (h', Err e) end.

Definition P_lift {A} (r : result A) : P A := fun h => (h, r).
Definition alloc (o : object) : P frame_id := fun h =>
  (mkHeap (S (next h)) (<[next h := o]> (objects h)), Ok (next h)).

Definition set_slot (f : frame_id) (i : nat) (v : NullableDatum) (s : store) : store :=
  match s !! f with Some (Frame a) => <[f := Frame (<[i := v]> a)]> s | _ => s end.
Definition frame_args (s : store) (f : frame_id) : Args :=
  match s !! f with Some (Frame a) => a | _ => [] end.
Definition cell_value (s : store) (c : frame_id) : NullableDatum :=
  match s !! c with Some (Cell v) => v | _ => mkNullableDatum zero_datum false end.

Definition preload (f : frame_id) (i : nat) (v : NullableDatum) : P unit := fun h =>
  (mkHeap (next h) (set_slot f i v (objects h)), Ok ()).

(** ** Prepare *)

Definition funcMaxArgs : Z := 100.

Definition lookupFunc (funcid : Oid) : result FmgrInfo :=
  match FmgrInfoFor funcid with
  | Ok flinfo => Ok flinfo
  | Err _ => Elogf "cache lookup failed for function %d"
  end.

Definition requireImplemented (funcid : Oid) : result unit :=
  match ProcByOid cat funcid with
  | Some proc =>
      if IsBuiltinRegistered (proc_Src proc) then Ok ()
      else Ereportf PgSSFeatureNotSupported "function is not yet implemented in the gateway evaluation engine"
  | None => Ok ()
  end.

Definition typeByOid (oid : Oid) : result PgType :=
  match TypeByOid cat oid with Some t => Ok t | None => Elogf "cache lookup failed for type %d" end.

Definition unsupported {A} : result A :=
  Ereportf PgSSFeatureNotSupported "%s are not supported by the gateway evaluation engine".

Definition zero_args (n : nat) : Args := replicate n (mkNullableDatum zero_datum false).

(** The argument loop of [initFunc]: constants are preloaded into the frame. *)
Definition init_args (init : Node -> P step) (f : frame_id) : nat -> list Node -> P (list (option step)) :=
  fix go i items :=
    match items with
    | [] => mret []
    | arg :: items' =>
        o ← match arg with
            | Const _ v b => preload f i (mkNullableDatum v b) ;; mret None
            | _ => s ← init arg; mret (Some s)
            end;
        rest ← go (S i) items';
        mret (o :: rest)
    end.

Definition initFunc (init : Node -> P step) (items : list Node) (funcid : Oid)
    : P (frame_id * FmgrInfo * list (option step)) :=
  if funcMaxArgs <? len items then
    P_lift (Ereportf PgSSTooManyArguments "cannot pass more than %d arguments to a function")
  else
    flinfo ← P_lift (lookupFunc funcid);
    if FnRetset flinfo then
      P_lift (Ereportf PgSSFeatureNotSupported "set-valued function called in context that cannot accept a set")
    else
      P_lift (requireImplemented funcid) ;;
      f ← alloc (Frame (zero_args (length items)));
      args ← init_args init f 0 items;
      mret (f, flinfo, args).

Definition initList (init : Node -> P step) : list Node -> P (list step) :=
  fix go items :=
    match items with
    | [] => mret []
    | n :: items' => s ← init n; rest ← go items'; mret (s :: rest)
    end.

(** The WHEN loop of [initCase]: conditions see the inner value, results the outer. *)
Definition init_whens (init_cond init_result : Node -> P step) : list Node -> P (list (step * step)) :=
  fix go items :=
    match items with
    | [] => mret []
    | CaseWhen expr res :: items' =>
        c ← init_cond expr; r ← init_result res; rest ← go items'; mret ((c, r) :: rest)
    | _ :: _ => P_lift (Elogf "unrecognized node type: %T")
    end.

Definition io_in_args (dst : PgType) (str : NullableDatum) : Args :=
  let ioparam := if typ_Elem dst =? InvalidOid then typ_Oid dst else typ_Elem dst in
  [str; mkNullableDatum (ObjectIdGetDatum ioparam) false; mkNullableDatum (Int32GetDatum (-1)) false].

(** The two functions of a coercion through text. *)
Definition io_functions (n : Node) (resulttype : Oid) : result (FmgrInfo * FmgrInfo * PgType) :=
  srctype ← exprType n;
  src ← typeByOid srctype;
  if typ_Output src =? InvalidOid then
    Ereportf PgSSUndefinedFunction "no output function available for type %s"
  else
    requireImplemented (typ_Output src) ≫= fun _ =>
    outinfo ← lookupFunc (typ_Output src);
    dst ← typeByOid resulttype;
    if typ_Input dst =? InvalidOid then
      Ereportf PgSSUndefinedFunction "no input function available for type %s"
    else
      requireImplemented (typ_Input dst) ≫= fun _ =>
      ininfo ← lookupFunc (typ_Input dst);
      Ok (outinfo, ininfo, dst).

(** [caseval] is the cell of the innermost enclosing CASE. *)
Fixpoint initExpr (caseval : option frame_id) (node : Node) {struct node} : P step :=
  match node with
  | Const _ v b => mret (constStep (mkNullableDatum v b))
  | Param extern id typ =>
      if extern then mret (paramStep id typ) else P_lift (Elogf "unrecognized paramkind: %d")
  | FuncExpr funcid _ args | OpExpr funcid _ args =>
      '(f, flinfo, steps) ← initFunc (initExpr caseval) args funcid; mret (funcStep f flinfo steps)
  | DistinctExpr funcid _ args =>
      '(f, flinfo, steps) ← initFunc (initExpr caseval) args funcid; mret (distinctStep f flinfo steps)
  | NullIfExpr funcid _ args =>
      '(f, flinfo, steps) ← initFunc (initExpr caseval) args funcid; mret (nullIfStep f flinfo steps)
  | BoolExpr op args =>
      match op with
      | BoolExprType_other _ => P_lift (Elogf "unrecognized boolop: %d")
      | _ => steps ← initList (initExpr caseval) args; mret (boolStep op steps)
      end
  | RelabelType arg _ => initExpr caseval arg
  | CoerceViaIO arg resulttype =>
      s ← initExpr caseval arg;
      '(outinfo, ininfo, dst) ← P_lift (io_functions arg resulttype);
      out ← alloc (Frame (zero_args 1));
      inp ← alloc (Frame (io_in_args dst (mkNullableDatum zero_datum false)));
      mret (ioCoerceStep s out outinfo inp ininfo)
  | CaseExpr _ arg args defresult =>
      c ← alloc (Cell (mkNullableDatum zero_datum false));
      a ← match arg with
          | Some n => s ← initExpr caseval n; mret (Some s)
          | None => mret None
          end;
      let inner := match arg with Some _ => Some c | None => None end in
      whens ← init_whens (initExpr inner) (initExpr caseval) args;
      match defresult with
      | None => P_lift (Elogf "CASE expression without a default result")
      | Some d => def ← initExpr caseval d; mret (caseStep c a whens def)
      end
  | CaseTestExpr _ =>
      match caseval with
      | None => P_lift (Elogf "CaseTestExpr outside a CASE expression")
      | Some c => mret (caseTestStep c)
      end
  | CoalesceExpr _ args => steps ← initList (initExpr caseval) args; mret (coalesceStep steps)
  | NullTest arg kind argisrow =>
      if argisrow then P_lift unsupported
      else match kind with
           | NullTestType_other _ => P_lift (Elogf "unrecognized nulltesttype: %d")
           | _ => s ← initExpr caseval arg;
                  mret (nullTestStep s (match kind with IS_NULL => true | _ => false end))
           end
  | BooleanTest arg kind =>
      match kind with
      | BoolTestType_other _ => P_lift (Elogf "unrecognized booltesttype: %d")
      | _ => s ← initExpr caseval arg; mret (boolTestStep s kind)
      end
  | ArrayExpr _ | ArrayCoerceExpr _ | ScalarArrayOpExpr | MinMaxExpr _ | CoerceToDomain _ => P_lift unsupported
  | NilNode | CaseWhen _ _ | OtherNode => P_lift (Elogf "unrecognized node type: %T")
  end.

Record ExprState := mkExprState { root : step; state_store : store }.

Definition Prepare (expr : Node) : result ExprState :=
  match initExpr None expr (mkHeap 0%nat ∅) with
  | (h, Ok s) => Ok (mkExprState s (objects h))
  | (_, Err e) => Err e
  end.

(** ** Eval *)

Record ExternParam := mkExternParam { prm_Value : Datum; prm_IsNull : bool; prm_Type : Oid }.

Definition boolDatum (b : bool) : NullableDatum := mkNullableDatum (BoolGetDatum b) false.
Definition null_datum : NullableDatum := mkNullableDatum zero_datum true.

(** [paramStep.eval]. *)
Definition param_value (params : list ExternParam) (id : Z) (typ : Oid) : result NullableDatum :=
  match (if (0 <? id) && (id <=? len params) then params !! Z.to_nat (id - 1) else None) with
  | Some prm =>
      if prm_Type prm =? InvalidOid then Ereportf PgSSUndefinedObject "no value found for parameter %d"
      else if negb (prm_Type prm =? typ) then
        Ereportf PgSSDatatypeMismatch "type of parameter does not match that when preparing the plan"
      else Ok (mkNullableDatum (prm_Value prm) (prm_IsNull prm))
  | None => Ereportf PgSSUndefinedObject "no value found for parameter %d"
  end.

(** [funcStep.invoke]: the body, whatever the strictness. *)
Definition invoke (flinfo : FmgrInfo) (args : Args) : result NullableDatum :=
  '(v, isnull) ← FnAddr flinfo args; Ok (mkNullableDatum v isnull).

(** [distinctStep.eval] and [nullIfStep.eval] once the arguments are in the frame. *)
Definition distinct_result (flinfo : FmgrInfo) (args : Args) : result NullableDatum :=
  match args with
  | a0 :: a1 :: _ =>
      if IsNull a0 && IsNull a1 then Ok (boolDatum false)
      else if IsNull a0 || IsNull a1 then Ok (boolDatum true)
      else eq ← invoke flinfo args;
           Ok (mkNullableDatum (BoolGetDatum (negb (DatumGetBool (Value eq)))) (IsNull eq))
  | _ => go_panic
  end.

Definition nullif_result (flinfo : FmgrInfo) (args : Args) : result NullableDatum :=
  match args with
  | a0 :: a1 :: _ =>
      if negb (IsNull a0) && negb (IsNull a1) then
        eq ← invoke flinfo args;
        if negb (IsNull eq) && DatumGetBool (Value eq) then Ok null_datum else Ok a0
      else Ok a0
  | [a0] => if IsNull a0 then Ok a0 else go_panic
  | [] => go_panic
  end.

Definition not_value (v : NullableDatum) : NullableDatum :=
  mkNullableDatum (BoolGetDatum (negb (DatumGetBool (Value v)))) (IsNull v).

Definition bool_test (kind : BoolTestType) (v : NullableDatum) : NullableDatum :=
  match kind with
  | IS_TRUE => if IsNull v then boolDatum false else v
  | IS_NOT_TRUE => if IsNull v then boolDatum true else boolDatum (negb (DatumGetBool (Value v)))
  | IS_FALSE => if IsNull v then boolDatum false else boolDatum (negb (DatumGetBool (Value v)))
  | IS_NOT_FALSE => if IsNull v then boolDatum true else v
  | IS_UNKNOWN => boolDatum (IsNull v)
  | _ => boolDatum (negb (IsNull v))
  end.

Definition is_true (v : NullableDatum) : bool := negb (IsNull v) && DatumGetBool (Value v).

(** Evaluation threads the store. *)
Definition E (A : Type) : Type := store -> store * result A.
#[global] Instance E_ret : MRet E := fun A a s => (s, Ok a).
#[global] Instance E_bind : MBind E := fun A B f m s =>
  match m s with (s', Ok a) => f a s' | (s', Err e) => (s', Err e) end.
Definition E_lift {A} (r : result A) : E A := fun s => (s, r).
Definition E_modify (f : store -> store) : E unit := fun s => (f s, Ok ()).
Definition E_args (f : frame_id) : E Args := fun s => (s, Ok (frame_args s f)).

(** [evalArgs]: the non-constant arguments, into the frame. *)
Definition eval_args (ev : step -> E NullableDatum) (f : frame_id) : nat -> list (option step) -> E unit :=
  fix go i args :=
    match args with
    | [] => mret ()
    | None :: args' => go (S i) args'
    | Some a :: args' => v ← ev a; E_modify (set_slot f i v) ;; go (S i) args'
    end.

(** The AND and OR loop; [anynull] is whether a NULL was seen. *)
Definition eval_bool (ev : step -> E NullableDatum) (decisive : bool) : bool -> list step -> E NullableDatum :=
  fix go anynull args :=
    match args with
    | [] => mret (if (anynull : bool) then null_datum else boolDatum (negb decisive))
    | arg :: args' =>
        v ← ev arg;
        if IsNull v then go true args'
        else if Bool.eqb (DatumGetBool (Value v)) decisive then mret (boolDatum decisive)
        else go anynull args'
    end.

Definition eval_coalesce (ev : step -> E NullableDatum) : list step -> E NullableDatum :=
  fix go args :=
    match args with
    | [] => mret null_datum
    | arg :: args' => v ← ev arg; if IsNull v then go args' else mret v
    end.

(** The WHEN loop: the chosen result, or the default. *)
Definition eval_whens (ev : step -> E NullableDatum) (def : E NullableDatum) : list (step * step) -> E NullableDatum :=
  fix go whens :=
    match whens with
    | [] => def
    | (c, r) :: whens' => cond ← ev c; if is_true cond then ev r else go whens'
    end.

Definition io_call (flinfo : FmgrInfo) (f : frame_id) (arg : NullableDatum) : E Datum :=
  E_modify (set_slot f 0 arg) ;;
  args ← E_args f;
  '(v, _) ← E_lift (FnAddr flinfo args);
  mret v.

Fixpoint eval (params : list ExternParam) (s : step) {struct s} : E NullableDatum :=
  match s with
  | constStep v => mret v
  | paramStep id typ => E_lift (param_value params id typ)
  | funcStep f flinfo args =>
      eval_args (eval params) f 0 args ;; a ← E_args f; E_lift (CallFunction flinfo a)
  | distinctStep f flinfo args =>
      eval_args (eval params) f 0 args ;; a ← E_args f; E_lift (distinct_result flinfo a)
  | nullIfStep f flinfo args =>
      eval_args (eval params) f 0 args ;; a ← E_args f; E_lift (nullif_result flinfo a)
  | boolStep op args =>
      match op with
      | NOT_EXPR => match args with
                    | arg :: _ => v ← eval params arg; mret (not_value v)
                    | [] => E_lift go_panic
                    end
      | OR_EXPR => eval_bool (eval params) true false args
      | _ => eval_bool (eval params) false false args
      end
  | nullTestStep arg wantNull => v ← eval params arg; mret (boolDatum (Bool.eqb (IsNull v) wantNull))
  | boolTestStep arg kind => v ← eval params arg; mret (bool_test kind v)
  | caseStep c arg whens def =>
      match arg with
      | Some a => v ← eval params a; E_modify <[c := Cell v]>
      | None => mret ()
      end ;;
      eval_whens (eval params) (eval params def) whens
  | caseTestStep c => fun st => (st, Ok (cell_value st c))
  | coalesceStep args => eval_coalesce (eval params) args
  | ioCoerceStep arg out outinfo inp ininfo =>
      v ← eval params arg;
      str ← if IsNull v then mret zero_datum else io_call outinfo out (mkNullableDatum (Value v) false);
      if negb (FnStrict ininfo) || negb (IsNull v) then
        w ← io_call ininfo inp (mkNullableDatum str (IsNull v));
        mret (mkNullableDatum w (IsNull v))
      else mret v
  end.

Definition Eval (st : ExprState) (params : list ExternParam) : ExprState * result NullableDatum :=
  let '(s, r) := eval params (root st) (state_store st) in (mkExprState (root st) s, r).

(** Evaluating a prepared expression several times. *)
Fixpoint run_evals (st : ExprState) (runs : list (list ExternParam)) : list (result NullableDatum) :=
  match runs with
  | [] => []
  | params :: runs' => let '(st', r) := Eval st params in r :: run_evals st' runs'
  end.

(** ** What an expression means

    The value of a tree given the parameters and the value of the innermost
    enclosing CASE, with no frames, cells or preparation. *)

Definition denote_list (den : Node -> result NullableDatum) : list Node -> result Args :=
  fix go items :=
    match items with
    | [] => Ok []
    | n :: items' => v ← den n; vs ← go items'; Ok (v :: vs)
    end.

Definition denote_bool (den : Node -> result NullableDatum) (decisive : bool)
    : bool -> list Node -> result NullableDatum :=
  fix go anynull items :=
    match items with
    | [] => Ok (if (anynull : bool) then null_datum else boolDatum (negb decisive))
    | n :: items' =>
        v ← den n;
        if IsNull v then go true items'
        else if Bool.eqb (DatumGetBool (Value v)) decisive then Ok (boolDatum decisive)
        else go anynull items'
    end.

Definition denote_coalesce (den : Node -> result NullableDatum) : list Node -> result NullableDatum :=
  fix go items :=
    match items with
    | [] => Ok null_datum
    | n :: items' => v ← den n; if IsNull v then go items' else Ok v
    end.

Definition denote_whens (den_cond den_result : Node -> result NullableDatum) (def : result NullableDatum)
    : list Node -> result NullableDatum :=
  fix go items :=
    match items with
    | [] => def
    | CaseWhen c r :: items' => cond ← den_cond c; if is_true cond then den_result r else go items'
    | _ :: _ => Elogf "unrecognized node type: %T"
    end.

Definition denote_io (arg : Node) (resulttype : Oid) (v : NullableDatum) : result NullableDatum :=
  '(outinfo, ininfo, dst) ← io_functions arg resulttype;
  str ← (if IsNull v then Ok zero_datum
         else '(d, _) ← FnAddr outinfo [mkNullableDatum (Value v) false]; Ok d);
  if negb (FnStrict ininfo) || negb (IsNull v) then
    '(w, _) ← FnAddr ininfo (io_in_args dst (mkNullableDatum str (IsNull v)));
    Ok (mkNullableDatum w (IsNull v))
  else Ok v.

Fixpoint denote (params : list ExternParam) (caseval : option NullableDatum) (node : Node) {struct node}
    : result NullableDatum :=
  match node with
  | Const _ v b => Ok (mkNullableDatum v b)
  | Param _ id typ => param_value params id typ
  | FuncExpr funcid _ args | OpExpr funcid _ args =>
      a ← denote_list (denote params caseval) args; flinfo ← lookupFunc funcid; CallFunction flinfo a
  | DistinctExpr funcid _ args =>
      a ← denote_list (denote params caseval) args; flinfo ← lookupFunc funcid; distinct_result flinfo a
  | NullIfExpr funcid _ args =>
      a ← denote_list (denote params caseval) args; flinfo ← lookupFunc funcid; nullif_result flinfo a
  | BoolExpr NOT_EXPR args =>
      match args with
      | n :: _ => v ← denote params caseval n; Ok (not_value v)
      | [] => go_panic
      end
  | BoolExpr OR_EXPR args => denote_bool (denote params caseval) true false args
  | BoolExpr _ args => denote_bool (denote params caseval) false false args
  | RelabelType arg _ => denote params caseval arg
  | CoerceViaIO arg resulttype => v ← denote params caseval arg; denote_io arg resulttype v
  | CaseExpr _ arg args defresult =>
      inner ← match arg with
              | Some n => v ← denote params caseval n; Ok (Some v)
              | None => Ok None
              end;
      denote_whens (denote params inner) (denote params caseval)
        (match defresult with Some d => denote params caseval d | None => go_panic end) args
  | CaseTestExpr _ => match caseval with Some v => Ok v | None => go_panic end
  | CoalesceExpr _ args => denote_coalesce (denote params caseval) args
  | NullTest arg kind _ =>
      v ← denote params caseval arg;
      Ok (boolDatum (Bool.eqb (IsNull v) (match kind with IS_NULL => true | _ => false end)))
  | BooleanTest arg kind => v ← denote params caseval arg; Ok (bool_test kind v)
  | _ => go_panic
  end.

End catalog.
