(* ===== verification/PgExecFacts.v ===== *)
(** Facts about the expression executor: preparing allocates disjoint frames and
    cells, so running the steps computes the meaning of the tree whatever earlier
    evaluations left in the store. *)

From Stdlib Require Import Strings.Byte.
From stdpp Require Import base gmap numbers list strings.
From S2P Require Import Prelude.
From S2P Require Import Bytes.
From S2P Require Import PgInteger.
From S2P Require Import PgText.
From S2P Require Import PgExec.

(** ** Induction on trees *)

Section induction.
Variable Q : Node -> Prop.
Hypothesis H_leaf : forall n,
  match n with
  | FuncExpr _ _ _ | OpExpr _ _ _ | DistinctExpr _ _ _ | NullIfExpr _ _ _ | BoolExpr _ _ | RelabelType _ _
  | CoerceViaIO _ _ | CaseExpr _ _ _ _ | CaseWhen _ _ | CoalesceExpr _ _ | NullTest _ _ _ | BooleanTest _ _ => True
  | _ => Q n
  end.
Hypothesis H_func : forall f t args, Forall Q args ->
  Q (FuncExpr f t args) /\ Q (OpExpr f t args) /\ Q (DistinctExpr f t args) /\ Q (NullIfExpr f t args).
Hypothesis H_bool : forall op args, Forall Q args -> Q (BoolExpr op args).
Hypothesis H_relabel : forall n t, Q n -> Q (RelabelType n t).
Hypothesis H_io : forall n t, Q n -> Q (CoerceViaIO n t).
Hypothesis H_case : forall t arg args def,
  from_option Q True arg -> Forall Q args -> from_option Q True def -> Q (CaseExpr t arg args def).
Hypothesis H_when : forall c r, Q c -> Q r -> Q (CaseWhen c r).
Hypothesis H_coalesce : forall t args, Forall Q args -> Q (CoalesceExpr t args).
Hypothesis H_nulltest : forall n k r, Q n -> Q (NullTest n k r).
Hypothesis H_booltest : forall n k, Q n -> Q (BooleanTest n k).

Fixpoint Node_tree_ind (n : Node) : Q n :=
  let all := fix all (l : list Node) : Forall Q l :=
    match l with [] => Forall_nil_2 _ | x :: l' => Forall_cons_2 _ _ _ (Node_tree_ind x) (all l') end in
  let opt := fun o : option Node =>
    match o return from_option Q True o with Some x => Node_tree_ind x | None => I end in
  match n with
  | FuncExpr f t args => proj1 (H_func f t args (all args))
  | OpExpr f t args => proj1 (proj2 (H_func f t args (all args)))
  | DistinctExpr f t args => proj1 (proj2 (proj2 (H_func f t args (all args))))
  | NullIfExpr f t args => proj2 (proj2 (proj2 (H_func f t args (all args))))
  | BoolExpr op args => H_bool op args (all args)
  | RelabelType x t => H_relabel x t (Node_tree_ind x)
  | CoerceViaIO x t => H_io x t (Node_tree_ind x)
  | CaseExpr t arg args def => H_case t arg args def (opt arg) (all args) (opt def)
  | CaseWhen c r => H_when c r (Node_tree_ind c) (Node_tree_ind r)
  | CoalesceExpr t args => H_coalesce t args (all args)
  | NullTest x k r => H_nulltest x k r (Node_tree_ind x)
  | BooleanTest x k => H_booltest x k (Node_tree_ind x)
  | n => H_leaf n
  end.
End induction.

(** ** Stores *)

Definition agree_on (lo hi : nat) (s s' : store) : Prop := forall i, lo <= i < hi -> s !! i = s' !! i.
Definition same_outside (lo hi : nat) (s s' : store) : Prop := forall i, ~ (lo <= i < hi) -> s !! i = s' !! i.

(** An invariant of the objects in a range. *)
Definition stable (lo hi : nat) (I : store -> Prop) : Prop := forall s s', agree_on lo hi s s' -> I s -> I s'.

Lemma same_outside_trans lo hi s1 s2 s3 :
  same_outside lo hi s1 s2 -> same_outside lo hi s2 s3 -> same_outside lo hi s1 s3.
Proof. intros H1 H2 i Hi. by rewrite H1, H2. Qed.

Lemma same_outside_wider lo hi lo' hi' s s' :
  lo <= lo' -> hi' <= hi -> same_outside lo' hi' s s' -> same_outside lo hi s s'.
Proof. intros ? ? H i Hi. apply H. lia. Qed.

Lemma same_outside_agree lo hi lo' hi' s s' :
  (hi' <= lo \/ hi <= lo')%nat -> same_outside lo hi s s' -> agree_on lo' hi' s s'.
Proof. intros ? H i Hi. apply H. lia. Qed.

Lemma stable_and lo mid hi I J :
  lo <= mid <= hi -> stable lo mid I -> stable mid hi J -> stable lo hi (fun s => I s /\ J s).
Proof.
  intros ? HI HJ s s' H [Hi Hj]. split; [apply (HI s)|apply (HJ s)]; try assumption; intros i Hr; apply H; lia.
Qed.

Lemma stable_wider lo hi lo' hi' I : lo <= lo' -> hi' <= hi -> stable lo' hi' I -> stable lo hi I.
Proof. intros ? ? HI s s' H. apply HI. intros i ?. apply H. lia. Qed.

Lemma set_slot_same f i v s j : j <> f -> set_slot f i v s !! j = s !! j.
Proof. intros Hj. unfold set_slot. destruct (s !! f) as [[a|]|]; [|done..]. by rewrite lookup_insert_ne. Qed.

Lemma set_slot_frame f i v s a : s !! f = Some (Frame a) -> set_slot f i v s !! f = Some (Frame (<[i := v]> a)).
Proof. intros H. unfold set_slot. rewrite H. by rewrite lookup_insert_eq. Qed.

Lemma set_slot_outside f i v s lo hi : lo <= f < hi -> same_outside lo hi s (set_slot f i v s).
Proof. intros Hf j Hj. symmetry. apply set_slot_same. lia. Qed.

(** Splits a successful chain of preparation steps. *)
Ltac inv_prepare :=
  repeat match goal with
  | H : (?m ≫= ?k) ?h = (_, Ok _) |- _ =>
      unfold mbind at 1, P_bind at 1 in H; cbn beta in H;
      let h1 := fresh "h" in let r := fresh "r" in let E := fresh "E" in
      destruct (m h) as [h1 [r|]] eqn:E; [|discriminate H]
  | H : mret _ _ = (_, Ok _) |- _ => injection H as <- <-
  | H : P_lift _ _ = (_, Ok _) |- _ => injection H as <- H
  | H : alloc _ _ = (_, Ok _) |- _ => injection H as <- <-
  | x : unit |- _ => destruct x
  | x : _ * _ |- _ => destruct x
  end.

Section facts.
Context (cat : Catalog).

(** The value a cell shows to the code below it. *)
Definition shown (s : store) (caseval : option frame_id) : option NullableDatum := cell_value s <$> caseval.

Definition below (lo : nat) (caseval : option frame_id) : Prop :=
  match caseval with Some c => c < lo | None => True end.

Lemma shown_same lo hi s s' caseval : below lo caseval -> same_outside lo hi s s' -> shown s caseval = shown s' caseval.
Proof.
  intros Hb H. destruct caseval as [c|]; [|done]. cbn in *. unfold cell_value. by rewrite H by lia.
Qed.

Lemma below_mono lo lo' caseval : lo <= lo' -> below lo caseval -> below lo' caseval.
Proof. destruct caseval; cbn; [lia|done]. Qed.

(** Running [st] under [I] computes the meaning of [n] and touches only its range. *)
Definition computes (I : store -> Prop) (lo hi : nat) (caseval : option frame_id) (n : Node) (st : step) : Prop :=
  forall params s, I s ->
    let '(s', r) := eval params st s in
    I s' /\ same_outside lo hi s s' /\ r = denote cat params (shown s caseval) n.

Definition implements (lo hi : nat) (caseval : option frame_id) (n : Node) (st : step) (s0 : store) : Prop :=
  exists I, I s0 /\ stable lo hi I /\ computes I lo hi caseval n st.

Lemma computes_with I J lo hi lo' hi' lo'' hi'' caseval n st :
  computes I lo hi caseval n st -> stable lo'' hi'' J -> (hi'' <= lo \/ hi <= lo'')%nat ->
  lo' <= lo -> hi <= hi' -> computes (fun s => I s /\ J s) lo' hi' caseval n st.
Proof.
  intros Hc HJ Hd ? ? params s [Hi Hj]. specialize (Hc params s Hi). destruct (eval params st s) as [s' r].
  destruct Hc as (Hi' & Hs & Hr). split_and!; [done| |by eapply same_outside_wider|done].
  eapply HJ; [|exact Hj]. by eapply same_outside_agree.
Qed.

Lemma computes_iff (I J : store -> Prop) lo hi caseval n st :
  (forall s, I s <-> J s) -> computes I lo hi caseval n st -> computes J lo hi caseval n st.
Proof.
  intros HIJ H params s Hj. specialize (H params s (proj2 (HIJ s) Hj)).
  destruct (eval params st s) as [s' r]. destruct H as (? & ? & ?). split_and!; [by apply HIJ|done..].
Qed.

Lemma run_computes I lo hi caseval n st params s s' r :
  computes I lo hi caseval n st -> I s -> eval params st s = (s', r) ->
  I s' /\ same_outside lo hi s s' /\ r = denote cat params (shown s caseval) n.
Proof. intros H Hi E. specialize (H params s Hi). by rewrite E in H. Qed.

(** ** Running lists of steps *)

(** Runs the next step under its [computes] hypothesis. *)
Ltac run_step_from H HI :=
  let s' := fresh "s'" in let r := fresh "r" in let E := fresh "E" in
  unfold mbind, E_bind, mret, E_ret; cbn beta;
  match goal with
  | |- context [eval ?params ?st ?s] =>
      destruct (eval params st s) as [s' r] eqn:E;
      let Hi := fresh "Hi" in let Hs := fresh "Hs" in let Hr := fresh "Hr" in
      destruct (run_computes _ _ _ _ _ _ _ _ _ _ H HI E) as (Hi & Hs & Hr);
      clear E; symmetry in Hr; destruct r as [?v|?e]; rewrite Hr; cbn [result_mbind result_bind mbind]
  end.

Ltac run_step H := match goal with Hi : _ |- _ => run_step_from H Hi end.

Section lists.
Context (I : store -> Prop) (lo hi : nat) (caseval : option frame_id) (params : list ExternParam).
Hypothesis Hbelow : below lo caseval.

Local Notation den s := (denote cat params (shown s caseval)).

Lemma eval_bool_ok decisive items steps :
  Forall2 (computes I lo hi caseval) items steps -> forall anynull s, I s ->
  let '(s', r) := eval_bool (eval params) decisive anynull steps s in
  I s' /\ same_outside lo hi s s' /\ r = denote_bool (den s) decisive anynull items.
Proof.
  induction 1 as [|n st items steps Hst _ IH]; intros anynull s Hs0; cbn; [done|].
  run_step Hst; [|done].
  assert (forall an, let '(s2, r) := eval_bool (eval params) decisive an steps s' in
    I s2 /\ same_outside lo hi s s2 /\ r = denote_bool (den s) decisive an items) as IH'.
  { intros an. specialize (IH an s' Hi). destruct (eval_bool _ _ _ _ _) as [s2 r].
    destruct IH as (? & ? & ->). split_and!; [done|by eapply same_outside_trans|].
    by rewrite (shown_same lo hi s s' caseval). }
  destruct (IsNull v); [apply IH'|]. destruct (Bool.eqb _ _); [done|apply IH'].
Qed.

Lemma eval_coalesce_ok items steps :
  Forall2 (computes I lo hi caseval) items steps -> forall s, I s ->
  let '(s', r) := eval_coalesce (eval params) steps s in
  I s' /\ same_outside lo hi s s' /\ r = denote_coalesce (den s) items.
Proof.
  induction 1 as [|n st items steps Hst _ IH]; intros s Hs0; cbn; [done|].
  run_step Hst; [|done]. destruct (IsNull v); [|done].
  specialize (IH s' Hi). destruct (eval_coalesce _ _ _) as [s2 r].
  destruct IH as (? & ? & ->). split_and!; [done|by eapply same_outside_trans|].
  by rewrite (shown_same lo hi s s' caseval).
Qed.

(** One WHEN: its condition sees the inner value. *)
Definition when_computes (inner : option frame_id) (item : Node) (w : step * step) : Prop :=
  exists c r, item = CaseWhen c r /\ computes I lo hi inner c (fst w) /\ computes I lo hi caseval r (snd w).

Lemma eval_whens_ok inner items whens def d :
  below lo inner -> computes I lo hi caseval d def ->
  Forall2 (when_computes inner) items whens -> forall s, I s ->
  let '(s', r) := eval_whens (eval params) (eval params def) whens s in
  I s' /\ same_outside lo hi s s' /\
  r = denote_whens (denote cat params (shown s inner)) (den s) (den s d) items.
Proof.
  intros Hin Hdef. induction 1 as [|item [cs rs] items whens (c & r & -> & Hc & Hr) _ IH]; intros s Hs0.
  - cbn. by apply Hdef.
  - cbn. run_step Hc; [|done]. destruct (is_true v).
    + destruct (eval params rs s') as [s2 r2] eqn:E2.
      destruct (run_computes _ _ _ _ _ _ _ _ _ _ Hr Hi E2) as (? & ? & ->).
      split_and!; [done|by eapply same_outside_trans|]. by rewrite (shown_same lo hi s s' caseval).
    + specialize (IH s' Hi). destruct (eval_whens _ _ _ _) as [s2 r2]. destruct IH as (? & ? & ->).
      split_and!; [done|by eapply same_outside_trans|].
      by rewrite (shown_same lo hi s s' caseval), (shown_same lo hi s s' inner).
Qed.
End lists.

(** ** Arguments in a frame *)

Definition slot_computes (I : store -> Prop) (lo hi : nat) (caseval : option frame_id) (n : Node)
    (o : option step) : Prop :=
  match o with
  | None => exists t v b, n = Const t v b
  | Some st => computes I lo hi caseval n st
  end.

(** Slots from [k] on: the constants among [items] are preloaded. *)
Definition const_slots (k : nat) (items : list Node) (a : Args) : Prop :=
  forall i t v b, items !! i = Some (Const t v b) -> a !! (k + i) = Some (mkNullableDatum v b).

Lemma const_slots_cons k n items a :
  const_slots k (n :: items) a <->
  (forall t v b, n = Const t v b -> a !! k = Some (mkNullableDatum v b)) /\ const_slots (S k) items a.
Proof.
  unfold const_slots. split.
  - intros H. split; [intros t v b ->; rewrite <- (H 0 t v b eq_refl); f_equal; lia|].
    intros i t v b Hi. rewrite <- (H (S i) t v b Hi). f_equal. lia.
  - intros [H0 H] [|i] t v b Hi; cbn in Hi; simplify_eq/=.
    + rewrite Nat.add_0_r. by eapply H0.
    + rewrite <- (H i t v b Hi). f_equal. lia.
Qed.

Lemma const_slots_insert k items a v : const_slots (S k) items a -> const_slots (S k) items (<[k := v]> a).
Proof. intros H i t w b Hi. rewrite list_lookup_insert_ne by lia. by eapply H. Qed.

Lemma take_S_insert {A} k (v : A) (a : list A) : k < length a -> take (S k) (<[k := v]> a) = take k a ++ [v].
Proof. intros Hk. erewrite take_S_r by (by apply list_lookup_insert_eq). by rewrite take_insert_ge by lia. Qed.

Lemma take_shorter {A} k (a b : list A) : take (S k) a = take (S k) b -> take k a = take k b /\ a !! k = b !! k.
Proof.
  intros H. split.
  - apply (f_equal (take k)) in H. by rewrite !take_take, Nat.min_l in H by lia.
  - by rewrite <- (lookup_take_lt a (S k)), H, lookup_take_lt by lia.
Qed.

Section args.
Context (I : store -> Prop) (lo hi : nat) (caseval : option frame_id) (f : frame_id) (params : list ExternParam).
Hypothesis Hstable : stable lo hi I.
Hypothesis Hbelow : below f caseval.
Hypothesis Hrange : f < lo <= hi.

Local Notation den s := (denote cat params (shown s caseval)).

(** The frame after [evalArgs] from slot [k], and its result. *)
Definition args_done (s : store) (k : nat) (items : list Node) (a : Args) (run : store * result unit) : Prop :=
  let '(s', r) := run in
  I s' /\ same_outside f hi s s' /\
  exists a', s' !! f = Some (Frame a') /\ length a' = length a /\ take k a' = take k a /\ const_slots k items a' /\
    match denote_list (den s) items with
    | Err e => r = Err e
    | Ok vs => r = Ok () /\ a' = take k a ++ vs
    end.

(** Storing one argument. *)
Lemma store_arg s s' k v a :
  I s' -> same_outside lo hi s s' -> s !! f = Some (Frame a) ->
  let s2 := set_slot f k v s' in
  I s2 /\ same_outside f hi s s2 /\ s2 !! f = Some (Frame (<[k := v]> a)) /\ shown s caseval = shown s2 caseval.
Proof.
  intros Hi Hs Ha s2. assert (same_outside f hi s s2) as Hs2.
  { eapply same_outside_trans; [eapply same_outside_wider; [| |exact Hs]; lia|]. apply set_slot_outside. lia. }
  split_and!; [|done| |by eapply shown_same].
  - eapply Hstable; [|exact Hi]. intros i Hr'. symmetry. apply set_slot_same. lia.
  - apply set_slot_frame. by rewrite <- Hs by lia.
Qed.

Lemma eval_args_ok items osteps :
  Forall2 (slot_computes I lo hi caseval) items osteps -> forall k s a,
  I s -> s !! f = Some (Frame a) -> length a = k + length items -> const_slots k items a ->
  args_done s k items a (eval_args (eval params) f k osteps s).
Proof.
  induction 1 as [|n o items osteps Ho _ IH]; intros k s a Hi Ha Hl Hc.
  - cbn. split_and!; [done|done|]. exists a. cbn in Hl. rewrite app_nil_r, take_ge by lia. done.
  - apply const_slots_cons in Hc as [Hc0 Hc]. cbn [length] in Hl. unfold args_done.
    destruct o as [st|]; cbn [eval_args denote_list].
    + run_step Ho.
      2: { split_and!; [done|eapply same_outside_wider; [| |exact Hs]; lia|].
           exists a. rewrite <- Hs by lia. split_and!; try done. by apply const_slots_cons. }
      destruct (store_arg s s' k v a Hi0 Hs Ha) as (Hi2 & Hs2 & Ha2 & Hsh). unfold E_modify.
      specialize (IH (S k) _ _ Hi2 Ha2 ltac:(rewrite length_insert; lia) (const_slots_insert _ _ _ _ Hc)).
      unfold args_done in IH. rewrite <- Hsh in IH.
      destruct (eval_args _ _ _ _ _) as [s3 r3]. destruct IH as (Hi3 & Hs3 & a' & Ha' & Hl' & Ht & Hc' & Hd).
      rewrite length_insert in Hl'. apply take_shorter in Ht as Htk. destruct Htk as [Htk Hk].
      rewrite take_insert_ge in Htk by lia. rewrite list_lookup_insert_eq in Hk by lia.
      split_and!; [done|by eapply same_outside_trans|]. exists a'. split_and!; try done.
      * apply const_slots_cons. split; [|done]. intros t w b ->. cbn in Hr. by injection Hr as <-.
      * destruct (denote_list _ items) as [vs|]; [|done]. cbn. destruct Hd as [-> ->].
        split; [done|]. by rewrite take_S_insert, <- app_assoc by lia.
    + destruct Ho as (t & v & b & ->). specialize (Hc0 t v b eq_refl).
      specialize (IH (S k) s a Hi Ha ltac:(lia) Hc). unfold args_done in IH.
      destruct (eval_args _ _ _ _ _) as [s3 r3]. destruct IH as (Hi3 & Hs3 & a' & Ha' & Hl' & Ht & Hc' & Hd).
      apply take_shorter in Ht as [Htk Hk]. split_and!; [done|done|]. exists a'. split_and!; try done.
      * apply const_slots_cons. split; [|done]. intros t' w b' [= <- <- <-]. by rewrite Hk.
      * cbn. destruct (denote_list _ items) as [vs|]; [|done]. cbn. destruct Hd as [-> ->].
        split; [done|]. by rewrite (take_S_r a k _ Hc0), <- app_assoc.
Qed.
End args.

(** ** Preparation *)

Definition compiled (n : Node) : Prop := forall caseval h h' st,
  initExpr cat caseval n h = (h', Ok st) -> below (next h) caseval ->
  next h <= next h' /\ same_outside (next h) (next h') (objects h) (objects h') /\
  implements (next h) (next h') caseval n st (objects h').

(** Two adjacent ranges and their invariants. *)
Lemma combine lo mid hi (I J : store -> Prop) s1 s2 :
  lo <= mid <= hi -> stable lo mid I -> stable mid hi J -> I s1 -> J s2 -> same_outside mid hi s1 s2 ->
  (I s2 /\ J s2) /\ stable lo hi (fun s => I s /\ J s).
Proof.
  intros Hr HI HJ H1 H2 Hs. split; [split; [|done]|by eapply stable_and].
  eapply HI; [|exact H1]. eapply same_outside_agree; [|exact Hs]. lia.
Qed.

Lemma computes_left lo mid hi I J caseval n st :
  mid <= hi -> stable mid hi J -> computes I lo mid caseval n st ->
  computes (fun s => I s /\ J s) lo hi caseval n st.
Proof. intros Hr HJ H. eapply computes_with; [exact H|exact HJ|lia..]. Qed.

Lemma computes_right lo mid hi I J caseval n st :
  lo <= mid -> stable lo mid I -> computes J mid hi caseval n st ->
  computes (fun s => I s /\ J s) lo hi caseval n st.
Proof.
  intros Hr HI H. eapply computes_iff; [intros s; apply and_comm|].
  eapply computes_with; [exact H|exact HI|lia..].
Qed.

Lemma initList_ok caseval items : Forall compiled items -> forall h h' steps,
  initList (initExpr cat caseval) items h = (h', Ok steps) -> below (next h) caseval ->
  next h <= next h' /\ same_outside (next h) (next h') (objects h) (objects h') /\
  exists I, I (objects h') /\ stable (next h) (next h') I /\
    Forall2 (computes I (next h) (next h') caseval) items steps.
Proof.
  induction 1 as [|n items Hn _ IH]; intros h h' steps H Hb; cbn [initList] in H.
  - injection H as <- <-. split_and!; [done|done|]. exists (fun _ => True). done.
  - inv_prepare. destruct (Hn _ _ _ _ E Hb) as (Hle & Hs & I & HI & HstI & Hc).
    destruct (IH _ _ _ E0 ltac:(eapply below_mono; [|eassumption]; lia)) as (Hle2 & Hs2 & J & HJ & HstJ & Hcs).
    split_and!; [lia|eapply same_outside_trans; (eapply same_outside_wider; [| |eassumption]; lia)|].
    destruct (combine _ _ _ I J _ _ (conj Hle Hle2) HstI HstJ HI HJ Hs2) as [HIJ Hst].
    exists (fun s => I s /\ J s). split; [exact HIJ|split; [exact Hst|]]. constructor.
    + by eapply computes_left.
    + eapply Forall2_impl; [exact Hcs|]. intros m st Hm. by eapply computes_right.
Qed.

Lemma init_whens_ok inner caseval items : Forall compiled items -> forall h h' whens,
  (forall c r, CaseWhen c r ∈ items -> compiled c /\ compiled r) ->
  init_whens (initExpr cat inner) (initExpr cat caseval) items h = (h', Ok whens) ->
  below (next h) caseval -> below (next h) inner ->
  next h <= next h' /\ same_outside (next h) (next h') (objects h) (objects h') /\
  exists I, I (objects h') /\ stable (next h) (next h') I /\
    Forall2 (when_computes I (next h) (next h') caseval inner) items whens.
Proof.
  induction items as [|n items IH]; intros Hall h h' whens Hsub H Hb Hin; cbn [init_whens] in H.
  - injection H as <- <-. split_and!; [done|done|]. exists (fun _ => True). done.
  - destruct n; try discriminate H. destruct (Hsub n1 n2 ltac:(left)) as [Hc Hr]. inv_prepare.
    destruct (Hc _ _ _ _ E Hin) as (Hle1 & Hs1 & I & HI & HstI & Hci).
    destruct (Hr _ _ _ _ E0 ltac:(eapply below_mono; [|eassumption]; lia)) as (Hle2 & Hs2 & J & HJ & HstJ & Hcj).
    destruct (IH ltac:(by apply Forall_inv_tail in Hall) _ _ _ ltac:(intros; apply Hsub; by right) E1
      ltac:(eapply below_mono; [|exact Hb]; lia) ltac:(eapply below_mono; [|exact Hin]; lia))
      as (Hle3 & Hs3 & K & HK & HstK & Hcs).
    assert (same_outside (next h0) (next h2) (objects h0) (objects h2)) as Hs23
      by (eapply same_outside_trans; (eapply same_outside_wider; [| |eassumption]; lia)).
    split_and!; [lia|eapply same_outside_trans; (eapply same_outside_wider; [| |eassumption]; lia)|].
    destruct (combine _ _ _ J K _ _ (conj Hle2 Hle3) HstJ HstK HJ HK Hs3) as [HJK HstJK].
    destruct (combine _ _ _ I (fun s => J s /\ K s) _ _ (conj Hle1 (Nat.le_trans _ _ _ Hle2 Hle3)) HstI HstJK HI HJK Hs23)
      as [HIJK Hst].
    exists (fun s => I s /\ (J s /\ K s)). split; [exact HIJK|split; [exact Hst|]]. constructor.
    + exists n1, n2. split_and!; [done| |].
      * eapply computes_left; [|exact HstJK|exact Hci]. lia.
      * eapply computes_right; [|exact HstI|]; [lia|]. eapply computes_left; [|exact HstK|exact Hcj]. lia.
    + eapply Forall2_impl; [exact Hcs|]. intros m w (c & r' & -> & Hc1 & Hc2). exists c, r'.
      split_and!; [done| |]; (eapply computes_right; [|exact HstI|]; [lia|];
        eapply computes_right; [|exact HstJ|]; [lia|done]).
Qed.

(** Everything but the frame [f] and the range. *)
Definition same_but (f lo hi : nat) (s s' : store) : Prop :=
  forall i, i <> f -> ~ (lo <= i < hi) -> s !! i = s' !! i.

Lemma init_args_ok caseval f items : Forall compiled items -> forall k h h' osteps a,
  init_args (initExpr cat caseval) f k items h = (h', Ok osteps) ->
  f < next h -> below f caseval -> objects h !! f = Some (Frame a) -> length a = k + length items ->
  next h <= next h' /\ same_but f (next h) (next h') (objects h) (objects h') /\
  (exists a', objects h' !! f = Some (Frame a') /\ length a' = length a /\ take k a' = take k a /\
     const_slots k items a') /\
  exists I, I (objects h') /\ stable (next h) (next h') I /\
    Forall2 (slot_computes I (next h) (next h') caseval) items osteps.
Proof.
  induction 1 as [|n items Hn _ IH]; intros k h h' osteps a H Hf Hb Ha Hl; cbn [init_args] in H.
  - injection H as <- <-. split_and!; [done|done| |exists (fun _ => True); done].
    exists a. split_and!; done.
  - cbn [length] in Hl. assert ((exists t v b, n = Const t v b) \/
      (exists st h1, initExpr cat caseval n h = (h1, Ok st) /\ (forall t v b, n <> Const t v b) /\
         exists rest, init_args (initExpr cat caseval) f (S k) items h1 = (h', Ok rest) /\ osteps = Some st :: rest))
      as [(t & v & b & ->)|(st & h1 & E & Hnc & rest & E1 & ->)].
    { destruct n; try (left; do 3 eexists; reflexivity); right; inv_prepare; do 2 eexists;
        (split; [first [eassumption|reflexivity]|]); (split; [discriminate|]); eexists; (split; [eassumption|reflexivity]). }
    + inv_prepare. unfold preload in *. simplify_eq.
      destruct (IH (S k) _ _ _ (<[k := mkNullableDatum v b]> a) E0) as (Hle & Hs & (a' & Ha' & Hl' & Ht & Hc) & I & HI & Hst & Hcs);
        [done|done|by apply set_slot_frame|rewrite length_insert; lia|]. cbn in *.
      rewrite length_insert in Hl'. apply take_shorter in Ht as [Htk Hk].
      rewrite take_insert_ge in Htk by lia. rewrite list_lookup_insert_eq in Hk by lia.
      split_and!; [lia| | |].
      * intros i Hif Hi. rewrite <- Hs by done. symmetry. by apply set_slot_same.
      * exists a'. split_and!; try done. apply const_slots_cons. split; [|done]. by intros ? ? ? [= <- <- <-].
      * exists I. split_and!; [done|done|]. constructor; [by do 3 eexists|done].
    + destruct (Hn _ _ _ _ E ltac:(eapply below_mono; [|exact Hb]; lia)) as (Hle & Hs & I & HI & HstI & Hc).
      destruct (IH (S k) _ _ _ a E1) as (Hle2 & Hs2 & (a' & Ha' & Hl' & Ht & Hc2) & J & HJ & HstJ & Hcs);
        [lia|done|by rewrite <- Hs by lia|lia|].
      apply take_shorter in Ht as [Htk _]. split_and!; [lia| | |].
      * intros i Hif Hi. rewrite Hs, Hs2 by lia. done.
      * exists a'. split_and!; try done. apply const_slots_cons. split; [|done]. intros ? ? ? ->. by edestruct Hnc.
      * exists (fun s => I s /\ J s). split; [split; [|exact HJ]|split; [by eapply stable_and|]].
        { eapply HstI; [|exact HI]. intros i Hi. apply Hs2; lia. }
        constructor; [by eapply computes_left|].
        eapply Forall2_impl; [exact Hcs|]. intros m [s|] Hm; [|exact Hm]. by eapply computes_right.
Qed.

(** A prepared call: evaluating the arguments and finishing with [fin] computes
    [fin] of the arguments' values. *)
Lemma initFunc_ok caseval items funcid h h' f flinfo osteps :
  Forall compiled items ->
  initFunc cat (initExpr cat caseval) items funcid h = (h', Ok (f, flinfo, osteps)) -> below (next h) caseval ->
  lookupFunc cat funcid = Ok flinfo /\
  next h <= next h' /\ same_outside (next h) (next h') (objects h) (objects h') /\
  exists I, I (objects h') /\ stable (next h) (next h') I /\
    forall params s (fin : Args -> result NullableDatum), I s ->
      let '(s', r) := (eval_args (eval params) f 0 osteps ;; a ← E_args f; E_lift (fin a)) s in
      I s' /\ same_outside (next h) (next h') s s' /\
      r = (a ← denote_list (denote cat params (shown s caseval)) items; fin a).
Proof.
  intros Hall H Hb. unfold initFunc in H. destruct (_ <? _)%Z; [done|].
  unfold mbind at 1, P_bind at 1 in H. cbn beta in H. unfold P_lift at 1 in H.
  destruct (lookupFunc cat funcid) as [fl|] eqn:Hfl; [|done]. destruct (FnRetset fl); [done|].
  inv_prepare. subst fl r1.
  destruct (init_args_ok _ (next h) items Hall 0 _ _ _ (zero_args (length items)) E1)
    as (Hle & Hs & (a' & Ha' & Hl' & _ & Hc) & I & HI & Hst & Hcs);
    [cbn; lia|done|apply lookup_insert_eq|apply length_replicate|]. cbn in *.
  split; [done|]. split; [lia|]. split.
  { intros i Hi. rewrite <- Hs by lia. symmetry. apply lookup_insert_ne. lia. }
  exists (fun s => I s /\ exists a, s !! next h = Some (Frame a) /\ length a = length items /\ const_slots 0 items a).
  split_and!; [done| | |].
  - exists a'. split_and!; [done|rewrite Hl'; apply length_replicate|done].
  - intros s s' Hag [Hi (a & Ha & ?)]. split.
    + eapply Hst; [|exact Hi]. intros i ?. apply Hag. lia.
    + exists a. by rewrite <- Hag by lia.
  - intros params s fin [Hi (a & Ha & Hla & Hca)].
    pose proof (eval_args_ok I (S (next h)) (next h2) caseval (next h) params Hst ltac:(done) ltac:(lia)
      items osteps Hcs 0 s a Hi Ha Hla Hca) as Hrun.
    unfold mbind, E_bind. cbn beta. destruct (eval_args _ _ _ _ _) as [s' r].
    destruct Hrun as (Hi' & Hs' & a2 & Ha2 & Hl2 & _ & Hc2 & Hd).
    destruct (denote_list _ items) as [vs|]; cbn.
    + destruct Hd as [-> ->]. cbn. unfold E_lift, frame_args. rewrite Ha2. cbn.
      split_and!; [done| |done|done]. eexists. split_and!; [done|by rewrite Hl2|done].
    + rewrite Hd. cbn. split_and!; [done| |done|done]. eexists. split_and!; [done|by rewrite Hl2|done].
Qed.

(** ** Every tree *)

(** A step that post-processes the value of another. *)
Lemma implements_map lo hi caseval n st s0 n' st' (g : NullableDatum -> NullableDatum) :
  (forall params s, eval params st' s = (v ← eval params st; mret (g v)) s) ->
  (forall params cv, denote cat params cv n' = (v ← denote cat params cv n; Ok (g v))) ->
  implements lo hi caseval n st s0 -> implements lo hi caseval n' st' s0.
Proof.
  intros Hev Hden (I & HI & Hst & Hc). exists I. split_and!; [done|done|]. intros params s Hs0.
  rewrite Hev, Hden. run_step Hc; done.
Qed.

(** A prepared call finished by [fin]. *)
Lemma compiled_call items funcid (n : Node) (mk : nat -> FmgrInfo -> list (option step) -> step)
    (fin : FmgrInfo -> Args -> result NullableDatum) :
  Forall compiled items ->
  (forall caseval, initExpr cat caseval n =
     ('(f, flinfo, steps) ← initFunc cat (initExpr cat caseval) items funcid; mret (mk f flinfo steps))) ->
  (forall params f flinfo steps, eval params (mk f flinfo steps) =
     (eval_args (eval params) f 0 steps ;; a ← E_args f; E_lift (fin flinfo a))) ->
  (forall params cv, denote cat params cv n =
     (a ← denote_list (denote cat params cv) items; flinfo ← lookupFunc cat funcid; fin flinfo a)) ->
  compiled n.
Proof.
  intros Hall Hi Hev Hden caseval h h' st H Hb. rewrite Hi in H. inv_prepare.
  destruct (initFunc_ok _ _ _ _ _ _ _ _ Hall E Hb) as (Hfl & Hle & Hs & I & HI & Hst & Hrun).
  split_and!; [done|done|]. exists I. split_and!; [done|done|]. intros params s Hs0.
  rewrite Hev, Hden, Hfl. exact (Hrun params s _ Hs0).
Qed.

Lemma io_call_ok flinfo f arg s x rest :
  s !! f = Some (Frame (x :: rest)) ->
  io_call flinfo f arg s = (set_slot f 0 arg s, ('(v, _) ← FnAddr flinfo (arg :: rest); Ok v)).
Proof.
  intros H. unfold io_call, mbind, E_bind, E_modify, E_args, E_lift, frame_args. cbn.
  rewrite (set_slot_frame f 0 arg s _ H). cbn. by destruct (FnAddr flinfo (arg :: rest)) as [[]|].
Qed.

(** The frames of a coercion: one slot, and three with two preloaded. *)
Definition io_frames (out inp : nat) (dst : PgType) (s : store) : Prop :=
  (exists x, s !! out = Some (Frame [x])) /\ (exists x, s !! inp = Some (Frame (io_in_args dst x))).

Lemma io_frames_set out inp dst s f v :
  out <> inp -> f = out \/ f = inp -> io_frames out inp dst s -> io_frames out inp dst (set_slot f 0 v s).
Proof.
  intros Hne [->| ->] [[x Hx] [y Hy]]; split.
  - exists v. by rewrite (set_slot_frame _ _ _ _ _ Hx).
  - exists y. by rewrite set_slot_same by done.
  - exists x. by rewrite set_slot_same by done.
  - exists v. by rewrite (set_slot_frame _ _ _ _ _ Hy).
Qed.

(** The part of [ioCoerceStep.eval] after its argument. *)
Definition io_finish (out : nat) (outinfo : FmgrInfo) (inp : nat) (ininfo : FmgrInfo) (v : NullableDatum)
    : E NullableDatum :=
  str ← if IsNull v then mret zero_datum else io_call outinfo out (mkNullableDatum (Value v) false);
  if negb (FnStrict ininfo) || negb (IsNull v) then
    w ← io_call ininfo inp (mkNullableDatum str (IsNull v));
    mret (mkNullableDatum w (IsNull v))
  else mret v.

(** The input function's call. *)
Lemma io_input_ok mid dst ininfo str (v : NullableDatum) s :
  io_frames mid (S mid) dst s ->
  let '(s', r) := (if negb (FnStrict ininfo) || negb (IsNull v) then
      w ← io_call ininfo (S mid) (mkNullableDatum str (IsNull v)); mret (mkNullableDatum w (IsNull v))
    else mret v) s in
  io_frames mid (S mid) dst s' /\ same_outside mid (S (S mid)) s s' /\
  r = (if negb (FnStrict ininfo) || negb (IsNull v) then
         '(w, _) ← FnAddr ininfo (io_in_args dst (mkNullableDatum str (IsNull v)));
         Ok (mkNullableDatum w (IsNull v))
       else Ok v).
Proof.
  intros Hf. destruct (_ || _); [|by cbn].
  unfold mbind at 1, E_bind at 1. cbn beta. destruct (proj2 Hf) as [y Hy].
  rewrite (io_call_ok _ _ _ _ y (tail (io_in_args dst y)) Hy).
  change (_ :: tail (io_in_args dst y)) with (io_in_args dst (mkNullableDatum str (IsNull v))).
  assert (io_frames mid (S mid) dst (set_slot (S mid) 0 (mkNullableDatum str (IsNull v)) s)) as Hf2
    by (apply io_frames_set; [lia|by right|done]).
  pose proof (set_slot_outside (S mid) 0 (mkNullableDatum str (IsNull v)) s mid (S (S mid)) ltac:(lia)) as Hs.
  by destruct (FnAddr ininfo _) as [[w b]|].
Qed.

Lemma io_finish_ok arg resulttype mid outinfo ininfo dst v s :
  io_functions cat arg resulttype = Ok (outinfo, ininfo, dst) -> io_frames mid (S mid) dst s ->
  let '(s', r) := io_finish mid outinfo (S mid) ininfo v s in
  io_frames mid (S mid) dst s' /\ same_outside mid (S (S mid)) s s' /\ r = denote_io cat arg resulttype v.
Proof.
  intros Hio Hf. unfold denote_io, io_finish. rewrite Hio. cbn [mbind result_mbind result_bind].
  unfold mbind at 1, E_bind at 1. cbn beta. destruct (IsNull v) eqn:Hn.
  - cbn [mret E_ret]. rewrite <- Hn. exact (io_input_ok mid dst ininfo zero_datum v s Hf).
  - destruct (proj1 Hf) as [x Hx]. rewrite (io_call_ok _ _ _ _ x [] Hx).
    assert (io_frames mid (S mid) dst (set_slot mid 0 (mkNullableDatum (Value v) false) s)) as Hf1
      by (apply io_frames_set; [lia|by left|done]).
    pose proof (set_slot_outside mid 0 (mkNullableDatum (Value v) false) s mid (S (S mid)) ltac:(lia)) as Hs1.
    destruct (FnAddr outinfo _) as [[d b]|]; [|done]. cbn [mbind result_mbind result_bind].
    pose proof (io_input_ok mid dst ininfo d v _ Hf1) as H. rewrite Hn in H.
    unfold mbind at 1 in H. destruct (_ (set_slot _ _ _ _)) as [s2 r2]. destruct H as (? & ? & ->).
    split_and!; [done|by eapply same_outside_trans|done].
Qed.

Lemma compiled_io arg resulttype : compiled arg -> compiled (CoerceViaIO arg resulttype).
Proof.
  intros Harg caseval h h' st H Hb. cbn [initExpr] in H. inv_prepare. cbn [next objects].
  destruct (Harg _ _ _ _ E Hb) as (Hle & Hs & I & HI & Hst & Hc). set (mid := next h0) in *.
  set (s2 := <[S mid := Frame (io_in_args p0 (mkNullableDatum zero_datum false))]>
               (<[mid := Frame (zero_args 1)]> (objects h0))).
  assert (same_outside mid (S (S mid)) (objects h0) s2) as Hs2.
  { intros i Hi. unfold s2. by rewrite !lookup_insert_ne by lia. }
  assert (io_frames mid (S mid) p0 s2) as HJ.
  { unfold s2. split; eexists; [rewrite lookup_insert_ne by lia|]; apply lookup_insert_eq. }
  assert (stable mid (S (S mid)) (io_frames mid (S mid) p0)) as HstJ.
  { intros s s' Hag [[x Hx] [y Hy]]. split; [exists x|exists y]; rewrite <- Hag by lia; done. }
  destruct (combine (next h) mid (S (S mid)) I _ _ _ ltac:(lia) Hst HstJ HI HJ Hs2) as [HIJ HstIJ].
  split; [lia|]. split.
  { eapply same_outside_trans; (eapply same_outside_wider; [| |eassumption]; lia). }
  exists (fun s => I s /\ io_frames mid (S mid) p0 s). split; [done|]. split; [done|].
  intros params s Hs0.
  change (eval params (ioCoerceStep r mid f (S mid) f0) s)
    with ((v ← eval params r; io_finish mid f (S mid) f0 v) s).
  pose proof (computes_left (next h) mid (S (S mid)) _ _ _ _ _ ltac:(lia) HstJ Hc) as Hc'.
  cbn [denote]. run_step_from Hc' Hs0; [|exact (conj Hi (conj Hs1 eq_refl))].
  pose proof (io_finish_ok _ _ mid _ _ _ v s' E0 (proj2 Hi)) as Hfin.
  destruct (io_finish _ _ _ _ _ _) as [s3 r3]. destruct Hfin as (HJ3 & Hs3 & ->).
  split; [split; [|done]|split; [|done]].
  - eapply Hst; [|exact (proj1 Hi)]. eapply same_outside_agree; [|exact Hs3]. lia.
  - eapply same_outside_trans; [exact Hs1|]. eapply same_outside_wider; [| |exact Hs3]; lia.
Qed.

(** The WHEN clauses and the default of a CASE. *)
Lemma case_tail inner caseval args d hA hB hC whens def :
  (forall c r, CaseWhen c r ∈ args -> compiled c /\ compiled r) -> Forall compiled args -> compiled d ->
  init_whens (initExpr cat inner) (initExpr cat caseval) args hA = (hB, Ok whens) ->
  initExpr cat caseval d hB = (hC, Ok def) -> below (next hA) caseval -> below (next hA) inner ->
  next hA <= next hC /\ same_outside (next hA) (next hC) (objects hA) (objects hC) /\
  exists J, J (objects hC) /\ stable (next hA) (next hC) J /\
    forall params s, J s ->
      let '(s', r) := eval_whens (eval params) (eval params def) whens s in
      J s' /\ same_outside (next hA) (next hC) s s' /\
      r = denote_whens (denote cat params (shown s inner)) (denote cat params (shown s caseval))
            (denote cat params (shown s caseval) d) args.
Proof.
  intros Hsub Hall Hd E1 E2 Hb Hin.
  destruct (init_whens_ok _ _ _ Hall _ _ _ Hsub E1 Hb Hin) as (Hle1 & Hs1 & I & HI & HstI & Hws).
  destruct (Hd _ _ _ _ E2 ltac:(eapply below_mono; [|exact Hb]; lia)) as (Hle2 & Hs2 & J & HJ & HstJ & Hc).
  split_and!; [lia|eapply same_outside_trans; (eapply same_outside_wider; [| |eassumption]; lia)|].
  destruct (combine _ _ _ I J _ _ (conj Hle1 Hle2) HstI HstJ HI HJ Hs2) as [HIJ Hst].
  exists (fun s => I s /\ J s). split; [exact HIJ|split; [exact Hst|]].
  intros params s Hs0. apply (eval_whens_ok (fun s => I s /\ J s)); try done.
  - by eapply computes_right.
  - eapply Forall2_impl; [exact Hws|]. intros m w (c & r & -> & Hc1 & Hc2). exists c, r.
    split_and!; [done| |]; by eapply computes_left.
Qed.

Lemma compiled_case t arg args def :
  from_option compiled True arg -> (forall c r, CaseWhen c r ∈ args -> compiled c /\ compiled r) ->
  Forall compiled args -> from_option compiled True def -> compiled (CaseExpr t arg args def).
Proof.
  intros Harg Hwhens Hargs Hdef caseval h h' st H Hb. cbn [initExpr] in H.
  unfold mbind at 1, P_bind at 1, alloc at 1 in H. cbn beta iota in H.
  set (h1 := mkHeap (S (next h)) (<[next h := Cell (mkNullableDatum zero_datum false)]> (objects h))) in *.
  destruct def as [d|]; [|by inv_prepare].
  assert (below (next h1) caseval) as Hb1 by (eapply below_mono; [|exact Hb]; cbn; lia).
  assert (same_outside (next h) (next h1) (objects h) (objects h1)) as Hs1
    by (intros i Hi; symmetry; apply lookup_insert_ne; cbn in Hi; lia).
  change (next h1) with (S (next h)) in *.
  destruct arg as [n|]; inv_prepare.
  - destruct (Harg _ _ _ _ E2 Hb1) as (Hle2 & Hs2 & I & HI & HstI & Hc). change (next h1) with (S (next h)) in *.
    destruct (case_tail (Some (next h)) _ _ _ _ _ _ _ _ Hwhens Hargs Hdef E0 E1) as (Hle3 & Hs3 & J & HJ & HstJ & Hrun);
      [eapply below_mono; [|exact Hb1]; lia|cbn; lia|].
    split; [lia|]. split.
    { eapply same_outside_trans; [eapply same_outside_wider; [| |exact Hs1]; lia|].
      eapply same_outside_trans; (eapply same_outside_wider; [| |eassumption]; lia). }
    destruct (combine _ _ _ I J _ _ (conj Hle2 Hle3) HstI HstJ HI HJ Hs3) as [HIJ Hst].
    exists (fun s => I s /\ J s). split; [exact HIJ|].
    split; [eapply stable_wider; [| |exact Hst]; lia|].
    intros params s Hs0. cbn [eval denote].
    pose proof (computes_left (S (next h)) _ _ _ _ _ _ _ Hle3 HstJ Hc) as Hc'.
    run_step_from Hc' Hs0; [|split; [exact Hi|split; [|done]]; eapply same_outside_wider; [| |exact Hs]; lia].
    set (s2 := <[next h := Cell v]> s').
    assert (same_outside (next h) (next h3) s s2) as Hs02.
    { eapply same_outside_trans; [eapply same_outside_wider; [| |exact Hs]; lia|].
      intros i Hi'. symmetry. apply lookup_insert_ne. lia. }
    assert (I s2 /\ J s2) as Hi2.
    { eapply Hst; [|exact Hi]. intros i Hi'. symmetry. apply lookup_insert_ne. lia. }
    assert (shown s2 (Some (next h)) = Some v) as Hv.
    { cbn. unfold cell_value, s2. by rewrite lookup_insert_eq. }
    specialize (Hrun params s2 (proj2 Hi2)). rewrite Hv, <- (shown_same _ _ _ _ _ Hb Hs02) in Hrun.
    unfold E_modify. fold s2. destruct (eval_whens _ _ _ _) as [s3 r3]. destruct Hrun as (HJ3 & Hs33 & ->).
    split; [split; [|exact HJ3]|split; [|done]].
    + eapply HstI; [|exact (proj1 Hi2)]. eapply same_outside_agree; [|exact Hs33]. lia.
    + eapply same_outside_trans; [exact Hs02|]. eapply same_outside_wider; [| |exact Hs33]; lia.
  - destruct (case_tail None _ _ _ _ _ _ _ _ Hwhens Hargs Hdef E0 E1 Hb1 I) as (Hle3 & Hs3 & J & HJ & HstJ & Hrun).
    change (next h1) with (S (next h)) in *. split; [lia|]. split.
    { eapply same_outside_trans; (eapply same_outside_wider; [| |eassumption]; lia). }
    exists J. split; [exact HJ|]. split; [eapply stable_wider; [| |exact HstJ]; lia|].
    intros params s Hs0. cbn [eval denote]. specialize (Hrun params s Hs0).
    unfold mbind at 1, E_bind at 1. cbn beta iota. cbn [mret E_ret].
    destruct (eval_whens _ _ _ _) as [s3 r3]. destruct Hrun as (HJ3 & Hs33 & ->).
    split; [exact HJ3|split; [|done]]. eapply same_outside_wider; [| |exact Hs33]; lia.
Qed.

Lemma every_tree_compiled n : compiled n /\ (forall c r, n = CaseWhen c r -> compiled c /\ compiled r).
Proof.
  pose (Q := fun n => compiled n /\ (forall c r, n = CaseWhen c r -> compiled c /\ compiled r)).
  assert (forall l, Forall Q l -> Forall compiled l) as Hall
    by (intros l Hl; eapply Forall_impl; [exact Hl|]; by intros x []).
  assert (forall caseval h n st,
    (forall params s, eval params st s = (s, denote cat params (shown s caseval) n)) ->
    next h <= next h /\ same_outside (next h) (next h) (objects h) (objects h) /\
    implements (next h) (next h) caseval n st (objects h)) as Hpure.
  { intros caseval h m st Hev. split_and!; [done|done|]. exists (fun _ => True). split_and!; [done|done|].
    intros params s _. rewrite Hev. done. }
  assert (forall n, Q n -> compiled n) as Hq by (by intros m []).
  refine (Node_tree_ind Q _ _ _ _ _ _ _ _ _ _ n); clear n.
  - intros n. destruct n; try done; (split; [|done]); intros caseval h h' st H Hb; cbn [initExpr] in H; try done.
    + injection H as <- <-. by apply Hpure.
    + destruct extern; [|done]. injection H as <- <-. by apply Hpure.
    + destruct caseval as [c|]; [|done]. injection H as <- <-. by apply Hpure.
  - intros f t args Hargs%Hall. split_and!; (split; [|done]).
    + by eapply (compiled_call args f _ funcStep CallFunction).
    + by eapply (compiled_call args f _ funcStep CallFunction).
    + by eapply (compiled_call args f _ distinctStep distinct_result).
    + by eapply (compiled_call args f _ nullIfStep nullif_result).
  - intros op args Hargs%Hall. split; [|done]. intros caseval h h' st H Hb. cbn [initExpr] in H.
    destruct op; try done; inv_prepare; (destruct (initList_ok _ _ Hargs _ _ _ E Hb) as (Hle & Hs & I & HI & Hst & Hcs);
      split_and!; [done|done|]; exists I; split_and!; [done|done|]; intros params s Hs0).
    + by apply (eval_bool_ok I (next h) (next h0) caseval params Hb).
    + by apply (eval_bool_ok I (next h) (next h0) caseval params Hb).
    + destruct Hcs as [|m st' args r Hc _]; [done|]. cbn [eval denote]. run_step_from Hc Hs0; done.
  - intros n t [Hn _]. split; [|done]. intros caseval h h' st H Hb. exact (Hn _ _ _ _ H Hb).
  - intros n t [Hn _]. split; [|done]. by apply compiled_io.
  - intros t arg args def Harg Hargs Hdef. split; [|done]. apply compiled_case.
    + destruct arg; [by apply Hq|done].
    + intros c r Hin. rewrite Forall_forall in Hargs. by apply (Hargs _ Hin).
    + by apply Hall.
    + destruct def; [by apply Hq|done].
  - intros c r [Hc _] [Hr _]. split; [|by intros ? ? [= <- <-]]. intros caseval h h' st H Hb. done.
  - intros t args Hargs%Hall. split; [|done]. intros caseval h h' st H Hb. cbn [initExpr] in H. inv_prepare.
    destruct (initList_ok _ _ Hargs _ _ _ E Hb) as (Hle & Hs & I & HI & Hst & Hcs).
    split_and!; [done|done|]. exists I. split_and!; [done|done|]. intros params s Hs0.
    by apply (eval_coalesce_ok I (next h) (next h0) caseval params Hb).
  - intros n k isrow [Hn _]. split; [|done]. intros caseval h h' st H Hb. cbn [initExpr] in H.
    destruct isrow; [done|]. destruct k; try done; inv_prepare;
      destruct (Hn _ _ _ _ E Hb) as (Hle & Hs & Himp); (split_and!; [done|done|]);
      by eapply implements_map; [| |exact Himp].
  - intros n k [Hn _]. split; [|done]. intros caseval h h' st H Hb. cbn [initExpr] in H.
    destruct k; try done; inv_prepare;
      destruct (Hn _ _ _ _ E Hb) as (Hle & Hs & Himp); (split_and!; [done|done|]);
      by eapply implements_map; [| |exact Himp].
Qed.

Lemma Prepare_implements expr st : Prepare cat expr = Ok st ->
  exists I lo hi, I (state_store st) /\ computes I lo hi None expr (root st).
Proof.
  unfold Prepare. destruct (initExpr cat None expr _) as [h' [s|]] eqn:E; [|done]. intros [= <-].
  destruct (proj1 (every_tree_compiled expr) None _ _ _ E Logic.I) as (_ & _ & I & HI & _ & Hc). by exists I, 0, (next h').
Qed.

(** C26: a prepared expression evaluates to what the expression means, every time:
    any number of evaluations of one prepared state, with any parameters and after
    evaluations that failed half way, each return the value or the SQL error that
    direct evaluation of the tree gives; the call frames, preloaded constants and
    CASE cells shared between evaluations are never observable. *)
Theorem prepared_evaluations_denote expr st runs :
  Prepare cat expr = Ok st -> run_evals st runs = map (fun params => denote cat params None expr) runs.
Proof.
  intros (I & lo & hi & HI & Hc)%Prepare_implements. revert st HI Hc.
  induction runs as [|params runs IH]; intros st HI Hc; [done|]. cbn. unfold Eval.
  destruct (eval params (root st) (state_store st)) as [s' r] eqn:E.
  destruct (run_computes _ _ _ _ _ _ _ _ _ _ Hc HI E) as (HI' & _ & ->). f_equal. by apply IH.
Qed.

End facts.
