(* ===== verification/PgExecSafety.v ===== *)
(** What a prepared expression can answer: an expression that prepares never asks for
    an unsupported feature when it runs, and AND and OR are three-valued. *)

From Stdlib Require Import Strings.Byte.
From stdpp Require Import base gmap numbers list strings.
From S2P Require Import Prelude.
From S2P Require Import Bytes.
From S2P Require Import PgInteger.
From S2P Require Import PgText.
From S2P Require Import PgExec.
From S2P Require Import PgExecFacts.

(** ** Supported results *)

(** Not the error feature_not_supported. *)
Definition supported {A} (r : result A) : Prop := forall rest, r <> Err (PgSSFeatureNotSupported :: rest).

Lemma supported_Ok {A} (a : A) : supported (Ok a).
Proof. done. Qed.

Lemma supported_bind {A B} (r : result A) (f : A -> result B) :
  supported r -> (forall a, r = Ok a -> supported (f a)) -> supported (r ≫= f).
Proof. intros Hr Hf. destruct r as [a|e]; [by apply Hf|]. intros rest [= ->]. by eapply Hr. Qed.

Lemma supported_panic {A} : supported (go_panic (A := A)).
Proof. by intros rest [=]. Qed.

#[local] Hint Resolve supported_Ok supported_panic : core.

Section supported.
Context (cat : Catalog).
(** No user-defined functions, and no registered builtin answers
    feature_not_supported itself. *)
Context (Hresolver : procResolver cat = None).
Context (Hbuiltins : forall src fn args, builtins cat src = Some fn -> supported (fn args)).

(** The caller knows that [n] prepares in some position. *)
Definition prepares (n : Node) : Prop := exists caseval h h' st, initExpr cat caseval n h = (h', Ok st).
Definition means_supported (n : Node) : Prop := prepares n -> forall params cv, supported (denote cat params cv n).

Lemma prepared_function funcid fl args :
  lookupFunc cat funcid = Ok fl -> requireImplemented cat funcid = Ok () -> supported (FnAddr fl args).
Proof.
  unfold lookupFunc, requireImplemented, FmgrInfoFor, lookupProc. rewrite Hresolver. cbn.
  destruct (ProcByOid cat funcid) as [proc|]; [|done]. unfold IsBuiltinRegistered.
  intros [= <-]. case_bool_decide as Hreg; [|done]. intros _. destruct Hreg as [fn Hfn]. cbn. rewrite Hfn. cbn.
  by eapply Hbuiltins.
Qed.

Lemma initList_prepares caseval items h h' steps :
  initList (initExpr cat caseval) items h = (h', Ok steps) -> Forall prepares items.
Proof.
  revert h h' steps. induction items as [|n items IH]; intros h h' steps H; [constructor|].
  cbn [initList] in H. inv_prepare. constructor; [by do 4 eexists|by eapply IH].
Qed.

Lemma init_args_prepares caseval f k items h h' steps :
  init_args (initExpr cat caseval) f k items h = (h', Ok steps) ->
  Forall (fun n => prepares n \/ exists t v b, n = Const t v b) items.
Proof.
  revert k h h' steps. induction items as [|n items IH]; intros k h h' steps H; [constructor|].
  cbn [init_args] in H.
  assert (prepares n \/ exists t v b, n = Const t v b) as Hn
    by (destruct n; try (right; do 3 eexists; reflexivity); left; inv_prepare; do 4 eexists; eassumption).
  inv_prepare. constructor; [exact Hn|by eapply IH].
Qed.

Lemma init_whens_prepares inner caseval items h h' whens :
  init_whens (initExpr cat inner) (initExpr cat caseval) items h = (h', Ok whens) ->
  Forall (fun n => exists c r, n = CaseWhen c r /\ prepares c /\ prepares r) items.
Proof.
  revert h h' whens. induction items as [|n items IH]; intros h h' whens H; [constructor|].
  cbn [init_whens] in H. destruct n; try discriminate H. inv_prepare.
  constructor; [|by eapply IH]. do 2 eexists. split_and!; [done|by do 4 eexists..].
Qed.

Lemma initFunc_prepares caseval items funcid h h' f fl steps :
  initFunc cat (initExpr cat caseval) items funcid h = (h', Ok (f, fl, steps)) ->
  lookupFunc cat funcid = Ok fl /\ requireImplemented cat funcid = Ok () /\
  Forall (fun n => prepares n \/ exists t v b, n = Const t v b) items.
Proof.
  unfold initFunc. destruct (_ <? _)%Z; [done|]. intros H.
  unfold mbind at 1, P_bind at 1 in H. cbn beta in H. unfold P_lift at 1 in H.
  destruct (lookupFunc cat funcid) as [fl'|] eqn:Hfl; [|done]. destruct (FnRetset fl'); [done|].
  inv_prepare. subst. split_and!; [done|done|]. by eapply init_args_prepares.
Qed.

(** ** Meanings *)

Definition fine (den : Node -> result NullableDatum) (items : list Node) : Prop :=
  Forall (fun n => supported (den n)) items.

Lemma denote_list_supported den items : fine den items -> supported (denote_list den items).
Proof.
  induction 1 as [|n items Hn _ IH]; cbn; [done|]. apply supported_bind; [done|]. intros v _.
  by apply supported_bind.
Qed.

Lemma denote_bool_supported den d items : fine den items -> forall an, supported (denote_bool den d an items).
Proof.
  induction 1 as [|n items Hn _ IH]; intros an; cbn; [done|]. apply supported_bind; [done|]. intros v _.
  destruct (IsNull v); [apply IH|]. by destruct (Bool.eqb _ _).
Qed.

Lemma denote_coalesce_supported den items : fine den items -> supported (denote_coalesce den items).
Proof.
  induction 1 as [|n items Hn _ IH]; cbn; [done|]. apply supported_bind; [done|]. intros v _.
  by destruct (IsNull v).
Qed.

Lemma denote_whens_supported den den' def items :
  Forall (fun n => exists c r, n = CaseWhen c r /\ supported (den c) /\ supported (den' r)) items ->
  supported def -> supported (denote_whens den den' def items).
Proof.
  intros H Hd. induction H as [|n items (c & r & -> & Hc & Hr) _ IH]; cbn; [done|].
  apply supported_bind; [done|]. intros v _. by destruct (is_true v).
Qed.

Lemma param_value_supported params id typ : supported (param_value params id typ).
Proof.
  unfold param_value. destruct (_ && _); [|by intros rest [=]]. destruct (params !! _) as [p|]; [|by intros rest [=]].
  destruct (_ =? _)%Z; [by intros rest [=]|]. destruct (negb _); [by intros rest [=]|done].
Qed.

Lemma call_supported fl a :
  (forall args, supported (FnAddr fl args)) ->
  supported (CallFunction fl a) /\ supported (distinct_result fl a) /\ supported (nullif_result fl a).
Proof.
  intros Hfn. assert (supported (invoke fl a)) as Hinv
    by (unfold invoke; apply supported_bind; [done|]; by intros [] _).
  split_and!.
  - unfold CallFunction. destruct (_ && _); [done|]. apply supported_bind; [done|]. by intros [] _.
  - unfold distinct_result. destruct a as [|a0 [|a1 a]]; [done|done|].
    destruct (IsNull a0 && _); [done|]. destruct (_ || _); [done|]. apply supported_bind; [done|]. done.
  - unfold nullif_result. destruct a as [|a0 [|a1 a]]; [done|by destruct (IsNull a0)|].
    destruct (_ && _); [|done]. apply supported_bind; [done|]. intros v _. by destruct (_ && _).
Qed.

(** A prepared call, whatever finishes it. *)
Lemma call_means_supported items funcid params cv (fin : FmgrInfo -> Args -> result NullableDatum) :
  Forall means_supported items ->
  (exists caseval h h' r, initFunc cat (initExpr cat caseval) items funcid h = (h', Ok r)) ->
  (forall fl a, (forall args, supported (FnAddr fl args)) -> supported (fin fl a)) ->
  supported (a ← denote_list (denote cat params cv) items; flinfo ← lookupFunc cat funcid; fin flinfo a).
Proof.
  intros Hall (caseval & h & h' & [[f fl] steps] & H) Hfin.
  apply initFunc_prepares in H as (Hfl & Hreq & Hprep). apply supported_bind.
  - apply denote_list_supported. unfold fine. rewrite Forall_forall in *. intros n Hn.
    destruct (Hprep n Hn) as [Hp|(t & v & b & ->)]; [by apply Hall|done].
  - intros a _. rewrite Hfl. cbn. apply Hfin. intros args. by eapply prepared_function.
Qed.

Lemma io_functions_registered n t outinfo ininfo dst args :
  io_functions cat n t = Ok (outinfo, ininfo, dst) ->
  supported (FnAddr outinfo args) /\ supported (FnAddr ininfo args).
Proof.
  unfold io_functions. intros H. inv_ok. destruct (typ_Output _ =? _)%Z; [done|]. inv_ok.
  destruct (typ_Input _ =? _)%Z; [done|]. inv_ok. destruct a1, a4.
  split; by eapply prepared_function.
Qed.

Lemma io_means_supported n t v outinfo ininfo dst :
  io_functions cat n t = Ok (outinfo, ininfo, dst) -> supported (denote_io cat n t v).
Proof.
  intros H. unfold denote_io. rewrite H. cbn.
  pose proof (fun a => proj1 (io_functions_registered _ _ _ _ _ a H)) as Hout.
  pose proof (fun a => proj2 (io_functions_registered _ _ _ _ _ a H)) as Hin.
  apply supported_bind.
  - destruct (IsNull v); [done|]. apply supported_bind; [done|]. by intros [] _.
  - intros str _. destruct (_ || _); [|done]. apply supported_bind; [done|]. by intros [] _.
Qed.

Lemma prepared_means_supported n :
  means_supported n /\ (forall c r, n = CaseWhen c r -> means_supported c /\ means_supported r).
Proof.
  pose (Q := fun n => means_supported n /\ (forall c r, n = CaseWhen c r -> means_supported c /\ means_supported r)).
  assert (forall l, Forall Q l -> Forall means_supported l) as Hall
    by (intros l Hl; eapply Forall_impl; [exact Hl|]; by intros x []).
  assert (forall l, Forall means_supported l -> Forall prepares l -> forall params cv, fine (denote cat params cv) l)
    as Hfine by (intros l Hl Hp params cv; unfold fine; rewrite Forall_forall in *; intros m Hm; by apply Hl, Hp).
  refine (Node_tree_ind Q _ _ _ _ _ _ _ _ _ _ n); clear n.
  - intros n. destruct n; try done; (split; [|done]); intros (caseval & h & h' & st & H) params cv; cbn [denote];
      try done; [apply param_value_supported|by destruct cv].
  - intros f t args Hargs%Hall. split_and!; (split; [|done]); intros (caseval & h & h' & st & H) params cv;
      cbn [initExpr] in H; inv_prepare; cbn [denote];
      (eapply call_means_supported; [done|by do 4 eexists|]); intros fl a Hfn; by apply call_supported.
  - intros op args Hargs%Hall. split; [|done]. intros (caseval & h & h' & st & H) params cv. cbn [initExpr] in H.
    destruct op; try done; inv_prepare; apply initList_prepares in E; cbn [denote];
      [apply denote_bool_supported, Hfine; done..|].
    destruct E as [|n args Hn _]; [done|]. apply supported_bind; [|done].
    by apply (Forall_inv Hargs).
  - intros n t [Hn _]. split; [|done]. intros (caseval & h & h' & st & H) params cv. apply Hn. by do 4 eexists.
  - intros n t [Hn _]. split; [|done]. intros (caseval & h & h' & st & H) params cv. cbn [initExpr] in H. inv_prepare.
    cbn [denote]. apply supported_bind; [apply Hn; by do 4 eexists|]. intros v _. by eapply io_means_supported.
  - intros t arg args def Harg Hargs Hdef. split; [|done]. intros (caseval & h & h' & st & H) params cv.
    cbn [initExpr] in H. destruct def as [d|]; [|by inv_prepare].
    assert (prepares d /\ Forall (fun n => exists c r, n = CaseWhen c r /\ prepares c /\ prepares r) args /\
      from_option prepares True arg) as (Hpd & Hpw & Hpa).
    { destruct arg; inv_prepare; (split_and!; [by do 4 eexists|by eapply init_whens_prepares|]);
        [by do 4 eexists|done]. }
    cbn [denote]. apply supported_bind.
    + destruct arg as [n|]; [|done]. apply supported_bind; [by apply Harg|done].
    + intros inner _. apply denote_whens_supported; [|by apply Hdef].
      rewrite Forall_forall in *. intros m Hm. destruct (Hpw m Hm) as (c & r & -> & Hpc & Hpr).
      destruct (proj2 (Hargs _ Hm) c r eq_refl) as [Hc Hr]. exists c, r.
      split_and!; [done|by apply Hc|by apply Hr].
  - intros c r [Hc _] [Hr _]. split; [|by intros ? ? [= <- <-]]. by intros _ params cv.
  - intros t args Hargs%Hall. split; [|done]. intros (caseval & h & h' & st & H) params cv. cbn [initExpr] in H.
    inv_prepare. apply initList_prepares in E. by apply denote_coalesce_supported, Hfine.
  - intros n k isrow [Hn _]. split; [|done]. intros (caseval & h & h' & st & H) params cv. cbn [initExpr] in H.
    destruct isrow; [done|]. destruct k; try done; inv_prepare; cbn [denote];
      (apply supported_bind; [apply Hn; by do 4 eexists|done]).
  - intros n k [Hn _]. split; [|done]. intros (caseval & h & h' & st & H) params cv. cbn [initExpr] in H.
    destruct k; try done; inv_prepare; cbn [denote]; (apply supported_bind; [apply Hn; by do 4 eexists|done]).
Qed.
End supported.

(** whether an expression can run in the gateway is decided by preparing it: once
    [Prepare] accepts an expression, no evaluation of it, with any parameters and on
    any branch, answers feature_not_supported, as long as no user-defined functions
    are resolved and the registered builtins do not answer it themselves. *)
Theorem prepared_runs_supported cat expr st params st' r :
  procResolver cat = None ->
  (forall src fn args, builtins cat src = Some fn -> supported (fn args)) ->
  Prepare cat expr = Ok st -> Eval st params = (st', r) -> supported r.
Proof.
  intros Hres Hb Hp He. destruct (Prepare_implements _ _ _ Hp) as (I & lo & hi & HI & Hc).
  unfold Eval in He. destruct (eval params (root st) (state_store st)) as [s' r'] eqn:E.
  injection He as <- <-. destruct (run_computes _ _ _ _ _ _ _ _ _ _ _ Hc HI E) as (_ & _ & ->).
  apply (proj1 (prepared_means_supported cat Hres Hb expr)).
  unfold Prepare in Hp. destruct (initExpr _ _ _ _) as [h' [s|]] eqn:Ei; [|done]. by do 4 eexists.
Qed.

(** ** Three-valued AND and OR *)

(** The truth value of a result: [None] is unknown. *)
Definition truth (v : NullableDatum) : option bool :=
  if IsNull v then None else Some (DatumGetBool (Value v)).

(** Kleene's connective whose decisive value is [d]: false for AND, true for OR. *)
Definition kleene (d : bool) (vs : list (option bool)) : option bool :=
  if bool_decide (Some d ∈ vs) then Some d
  else if bool_decide (None ∈ vs) then None else Some (negb d).

Definition datum_of (t : option bool) : NullableDatum :=
  match t with Some b => boolDatum b | None => null_datum end.

Lemma kleene_ext d a b :
  (Some d ∈ a <-> Some d ∈ b) -> (None ∈ a <-> None ∈ b) -> kleene d a = kleene d b.
Proof. intros H1 H2. unfold kleene. by rewrite (bool_decide_ext _ _ H1), (bool_decide_ext _ _ H2). Qed.

Lemma denote_bool_kleene den d items vs an :
  denote_list den items = Ok vs ->
  denote_bool den d an items = Ok (datum_of (kleene d ((if an then [None] else []) ++ map truth vs))).
Proof.
  revert vs an. induction items as [|n items IH]; intros vs an H; cbn in *.
  - injection H as <-. unfold kleene. destruct an, d; reflexivity.
  - inv_ok. cbn [mbind result_mbind result_bind map].
    destruct (IsNull a) eqn:Hn.
    + rewrite (IH _ true) by done. do 2 f_equal. assert (truth a = None) as -> by (unfold truth; by rewrite Hn).
      apply kleene_ext; destruct an; cbn; rewrite !elem_of_cons; intuition congruence.
    + assert (truth a = Some (DatumGetBool (Value a))) as -> by (unfold truth; by rewrite Hn).
      destruct (Bool.eqb_spec (DatumGetBool (Value a)) d) as [->|Hd].
      * unfold kleene. rewrite bool_decide_eq_true_2; [done|]. apply elem_of_app. right. left.
      * rewrite (IH _ an) by done. do 2 f_equal. apply kleene_ext; rewrite !elem_of_app, elem_of_cons; intuition congruence.
Qed.

(** AND and OR of operands that evaluate are Kleene's connectives, in any order of
    the operands. *)
Lemma bool_expr_kleene cat params cv items vs :
  denote_list (denote cat params cv) items = Ok vs ->
  denote cat params cv (BoolExpr AND_EXPR items) = Ok (datum_of (kleene false (map truth vs))) /\
  denote cat params cv (BoolExpr OR_EXPR items) = Ok (datum_of (kleene true (map truth vs))).
Proof. intros H. split; exact (denote_bool_kleene _ _ _ _ false H). Qed.

(** ** The registered builtins (init functions of package funcs)

    The receive functions, whose argument is a pointer to a cursor, are left out. *)

Definition never_null (f : Args -> result Datum) : PGFunction := fun args => d ← f args; Ok (d, false).
Definition total (f : Args -> option (result Datum)) (args : Args) : result Datum := default go_panic (f args).

Definition registerIntegerPair (prefix : string) (L R O : integer) : list (string * (Args -> result Datum)) :=
  [(prefix +:+ "eq", integerEq L R); (prefix +:+ "ne", integerNe L R); (prefix +:+ "lt", integerLt L R);
   (prefix +:+ "le", integerLe L R); (prefix +:+ "gt", integerGt L R); (prefix +:+ "ge", integerGe L R);
   (prefix +:+ "pl", integerAdd L R O); (prefix +:+ "mi", integerSub L R O); (prefix +:+ "mul", integerMul L R O);
   (prefix +:+ "div", integerDiv L R O)].

Definition registerInteger (prefix : string) (T : integer) : list (string * (Args -> result Datum)) :=
  [(prefix +:+ "um", integerNegate T); (prefix +:+ "up", integerIdentity T); (prefix +:+ "abs", integerAbs T);
   (prefix +:+ "mod", integerMod T); (prefix +:+ "larger", integerLarger T); (prefix +:+ "smaller", integerSmaller T);
   (prefix +:+ "and", integerAnd T); (prefix +:+ "or", integerOr T); (prefix +:+ "xor", integerXor T);
   (prefix +:+ "not", integerNot T); (prefix +:+ "shl", integerShiftLeft T); (prefix +:+ "shr", integerShiftRight T);
   (prefix +:+ "in", integerIn T); (prefix +:+ "out", integerOut T)].

(** [linux_arm64]: the target whose C compilers take char as unsigned. *)
Definition registered (linux_arm64 : bool) : list (string * (Args -> result Datum)) :=
  registerIntegerPair "int2" int16 int16 int16 ++ registerIntegerPair "int4" int32 int32 int32 ++
  registerIntegerPair "int8" int64 int64 int64 ++ registerIntegerPair "int24" int16 int32 int32 ++
  registerIntegerPair "int42" int32 int16 int32 ++ registerIntegerPair "int28" int16 int64 int64 ++
  registerIntegerPair "int82" int64 int16 int64 ++ registerIntegerPair "int48" int32 int64 int64 ++
  registerIntegerPair "int84" int64 int32 int64 ++
  registerInteger "int2" int16 ++ registerInteger "int4" int32 ++ registerInteger "int8" int64 ++
  [("i2toi4", integerCast int16 int32); ("i4toi2", integerCast int32 int16); ("int28", integerCast int16 int64);
   ("int82", integerCast int64 int16); ("int48", integerCast int32 int64); ("int84", integerCast int64 int32);
   ("int4inc", integerInc int32); ("int8inc", integerInc int64); ("int8dec", integerDec int64);
   ("int4gcd", total (integerGCD int32)); ("int8gcd", total (integerGCD int64));
   ("int4lcm", total (integerLCM int32)); ("int8lcm", total (integerLCM int64));
   ("boolin", boolin); ("boolout", boolout); ("booltext", booltext); ("booleq", booleq); ("boolne", boolne);
   ("boollt", boollt); ("boolle", boolle); ("boolgt", boolgt); ("boolge", boolge); ("int4_bool", int4bool);
   ("bool_int4", boolint4); ("booland_statefunc", boolandStatefunc); ("boolor_statefunc", boolorStatefunc);
   ("btint2cmp", btint2cmp); ("btint4cmp", integerCompare int32 int32); ("btint8cmp", integerCompare int64 int64);
   ("btint24cmp", integerCompare int16 int32); ("btint42cmp", integerCompare int32 int16);
   ("btint28cmp", integerCompare int16 int64); ("btint82cmp", integerCompare int64 int16);
   ("btint48cmp", integerCompare int32 int64); ("btint84cmp", integerCompare int64 int32); ("btboolcmp", btboolcmp);
   ("in_range_int2_int2", integerInRange int16 int16); ("in_range_int2_int4", integerInRange int16 int32);
   ("in_range_int2_int8", integerInRange int16 int64); ("in_range_int4_int2", integerInRange int32 int16);
   ("in_range_int4_int4", integerInRange int32 int32); ("in_range_int4_int8", integerInRange int32 int64);
   ("in_range_int8_int8", integerInRange int64 int64);
   ("hashint2", integerHash int16); ("hashint4", integerHash int32); ("hashint8", integerHash int64);
   ("hashint2extended", integerHashExtended int16); ("hashint4extended", integerHashExtended int32);
   ("hashint8extended", integerHashExtended int64);
   ("hashchar", integerHash (if linux_arm64 then hash_uint8 else hash_int8));
   ("hashcharextended", integerHashExtended (if linux_arm64 then hash_uint8 else hash_int8));
   ("int2send", integerSend int16); ("int4send", integerSend int32); ("int8send", integerSend int64);
   ("boolsend", boolsend)].

Definition funcs_builtins (linux_arm64 : bool) (src : string) : option PGFunction :=
  never_null <$> ((list_to_map (registered linux_arm64) : gmap string (Args -> result Datum)) !! src).

(** Registering never panics: no name is empty or taken twice. *)
Lemma registered_names arm : NoDup (registered arm).*1 /\ Forall (fun name => name <> "") (registered arm).*1.
Proof. split; by_decide. Qed.

Lemma supported_Ereportf {A} code format : code <> PgSSFeatureNotSupported -> supported (Ereportf (A := A) code format).
Proof. intros Hc rest [= ? _]. done. Qed.

Lemma supported_scan base mx first m s : supported (scan_digits base mx first m s).
Proof.
  revert first m. induction s as [|c s IH]; intros first m; cbn; [done|].
  destruct (_ <? _)%Z; [destruct (_ <? _)%Z; [by apply supported_Ereportf|apply IH]|].
  destruct (bool_decide _); [|done]. destruct (_ || _); [by apply supported_Ereportf|apply IH].
Qed.

(** Walks a builtin's branches. *)
Ltac by_branches :=
  repeat first
    [ apply supported_Ok | apply supported_scan
    | apply supported_Ereportf; discriminate
    | apply supported_bind; [|intros ? _]
    | match goal with
      | |- supported (if ?b then _ else _) => destruct b
      | |- supported (match ?x with _ => _ end) => destruct x
      | |- supported (let '_ := ?x in _) => destruct x
      end ].

Lemma registered_supported arm : Forall (fun p => forall args, supported (snd p args)) (registered arm).
Proof.
  assert (forall T r, supported (exact T r)) as Hexact
    by (intros T [z|]; unfold exact, integerOverflow; by_branches).
  unfold registered, registerIntegerPair, registerInteger. cbn [app].
  repeat (constructor; [intros args; cbn [snd]|]); [..|constructor];
    try (unfold total; first
      [ rewrite integerLCM_exact; apply Hexact
      | unfold integerGCD; rewrite integerGCDValue_exact by apply integerArg_fits; cbn [fmap option_fmap option_map default];
        rewrite ret_checked; apply Hexact ]);
    unfold integerEq, integerNe, integerLt, integerLe, integerGt, integerGe, compare_args, integerAdd, integerSub,
      integerMul, integerDiv, integerInc, integerDec, ret_int, checkedAdd, checkedSub, checkedMul, integerAbs, integerNegate, integerIdentity,
      integerMod, integerLarger, integerSmaller, integerAnd, integerOr, integerXor, integerNot, bit_args,
      integerShiftLeft, integerShiftRight, integerIn, parseInteger, integerInputRangeError, integerInputSyntaxError,
      integerOut, integerCast, boolin, boolout, booltext, booleq, boolne, boollt, boolle, boolgt,
      boolge, bool_args, int4bool, boolint4, boolandStatefunc, boolorStatefunc, btint2cmp, integerCompare, btboolcmp,
      integerInRange, integerHash, integerHashExtended, integerSend, boolsend, integerOverflow; by_branches.
Qed.

Lemma funcs_builtins_supported arm src fn args : funcs_builtins arm src = Some fn -> supported (fn args).
Proof.
  unfold funcs_builtins. intros (f & Hf & ->)%fmap_Some. apply elem_of_list_to_map_2 in Hf.
  pose proof (registered_supported arm) as H. rewrite Forall_forall in H.
  unfold never_null. apply supported_bind; [exact (H _ Hf args)|done].
Qed.

(** ** Examples *)

Local Open Scope Z_scope.


(** Four rows of pg_proc, bool and int4 of pg_type. *)
Definition demo_procs (oid : Oid) : option Proc :=
  if (oid =? 65) then Some (mkProc 65 "int4eq" [23; 23] 16 true false false "int4eq")
  else if (oid =? 154) then Some (mkProc 154 "int4div" [23; 23] 23 true false false "int4div")
  else if (oid =? 42) then Some (mkProc 42 "int4in" [2275] 23 true false false "int4in")
  else if (oid =? 43) then Some (mkProc 43 "int4out" [23] 2275 true false false "int4out")
  else if (oid =? 67) then Some (mkProc 67 "texteq" [25; 25] 16 true false false "texteq")
  else None.

Definition demo_catalog : Catalog :=
  mkCatalog demo_procs (fun oid => if (oid =? 23) then Some (mkPgType 23 42 43 0) else None) None (funcs_builtins false).

Definition demo_param : Node := Param true 1 23.
Definition int4_const (z : Z) : Node := Const 23 (Int64GetDatum z) false.

(** [CASE $1 WHEN 0 THEN NULL ELSE 10 / $1 END] *)
Definition demo_expr : Node :=
  CaseExpr 23 (Some demo_param)
    [CaseWhen (OpExpr 65 16 [CaseTestExpr 23; int4_const 0]) (Const 23 zero_datum true)]
    (Some (OpExpr 154 23 [int4_const 10; demo_param])).

Definition int4_param (z : Z) : list ExternParam := [mkExternParam (Int64GetDatum z) false 23].

Definition prepared (cat : Catalog) (expr : Node) : bool :=
  match Prepare cat expr with Ok _ => true | Err _ => false end.

(** The prepared state, without computing the function bodies in it. *)
Lemma prepared_state cat expr : prepared cat expr = true -> exists st, Prepare cat expr = Ok st.
Proof. unfold prepared. destruct (Prepare cat expr) as [st|]; [by exists st|done]. Qed.

Lemma prepared_evaluations_denote_witness :
  exists st, Prepare demo_catalog demo_expr = Ok st /\
    run_evals st [int4_param 3; int4_param 0; int4_param 5] =
      [Ok (mkNullableDatum (Int64GetDatum 3) false); Ok null_datum; Ok (mkNullableDatum (Int64GetDatum 2) false)].
Proof.
  destruct (prepared_state demo_catalog demo_expr ltac:(vm_compute; reflexivity)) as [st E].
  exists st. split; [exact E|]. rewrite (prepared_evaluations_denote demo_catalog demo_expr st _ E).
  vm_compute. reflexivity.
Defined.

Lemma prepared_runs_supported_witness :
  exists st st' r, Prepare demo_catalog demo_expr = Ok st /\ Eval st (int4_param 4) = (st', r) /\ supported r.
Proof.
  destruct (prepared_state demo_catalog demo_expr ltac:(vm_compute; reflexivity)) as [st E].
  destruct (Eval st (int4_param 4)) as [st' r] eqn:Er. exists st, st', r. split; [exact E|]. split; [exact Er|].
  exact (prepared_runs_supported demo_catalog demo_expr st (int4_param 4) st' r eq_refl (funcs_builtins_supported false) E Er).
Defined.

(** A builtin without a body is refused before anything runs, even on a dead branch. *)
Example unimplemented_refused :
  prepared demo_catalog (CaseExpr 23 None [CaseWhen (Const 16 (BoolGetDatum false) false) (OpExpr 67 16 [])]
    (Some (int4_const 1))) = false.
Proof. vm_compute. reflexivity. Qed.

(** A user-defined function is not: with a resolver installed it prepares, and only
    calling it answers feature_not_supported, so whether the statement runs depends
    on the branch its values take. *)
Theorem user_function_prepares :
  let resolver := fun oid => if (oid =? 90000) then Some (mkProc 90000 "my_func" [] 23 false false false "my_func") else None in
  let user := mkCatalog demo_procs (TypeByOid demo_catalog) (Some resolver) (funcs_builtins false) in
  let expr := CaseExpr 23 None [CaseWhen (OpExpr 65 16 [demo_param; int4_const 0]) (FuncExpr 90000 23 [])]
                (Some (int4_const 1)) in
  exists st, Prepare user expr = Ok st /\
    snd (Eval st (int4_param 1)) = Ok (mkNullableDatum (Int64GetDatum 1) false) /\
    ~ supported (snd (Eval st (int4_param 0))).
Proof.
  intros resolver user expr.
  destruct (prepared_state user expr ltac:(vm_compute; reflexivity)) as [st E]. exists st. split; [done|].
  destruct (Prepare_implements _ _ _ E) as (I & lo & hi & HI & Hc).
  assert (forall params, snd (Eval st params) = denote user params None expr) as Hden.
  { intros params. unfold Eval. destruct (eval params (root st) (state_store st)) as [s' r] eqn:Er.
    destruct (run_computes _ _ _ _ _ _ _ _ _ _ _ Hc HI Er) as (_ & _ & ->). done. }
  rewrite !Hden. split; [vm_compute; reflexivity|]. intros Hs.
  apply (Hs ["function is not yet implemented in the gateway evaluation engine"]). vm_compute. reflexivity.
Qed.
