(* ===== verification/PgCatalog.v ===== *)
(** The rows of pg_proc and pg_type that the engine's builtins implement:
    common/pgcatalog/procs_generated.go and types_generated.go, one definition per
    run of consecutive rows, named by its first OID.  Columns the engine does not
    read (variadic, defaults, volatility) are left out. *)

From stdpp Require Import base gmap numbers list strings.
From S2P Require Import Prelude.
From S2P Require Import PgInteger.
From S2P Require Import PgExec.

Local Open Scope Z_scope.

Definition procs_from_38 : list Proc :=
  [mkProc 38 "int2in" [2275] 21 true false false "int2in";
   mkProc 39 "int2out" [21] 2275 true false false "int2out"].

Definition procs_from_42 : list Proc :=
  [mkProc 42 "int4in" [2275] 23 true false false "int4in";
   mkProc 43 "int4out" [23] 2275 true false false "int4out"].

Definition procs_from_56 : list Proc :=
  [mkProc 56 "boollt" [16; 16] 16 true false false "boollt";
   mkProc 57 "boolgt" [16; 16] 16 true false false "boolgt";
   mkProc 60 "booleq" [16; 16] 16 true false false "booleq"].

Definition procs_from_63 : list Proc :=
  [mkProc 63 "int2eq" [21; 21] 16 true false false "int2eq";
   mkProc 64 "int2lt" [21; 21] 16 true false false "int2lt";
   mkProc 65 "int4eq" [23; 23] 16 true false false "int4eq";
   mkProc 66 "int4lt" [23; 23] 16 true false false "int4lt"].

Definition procs_from_84 : list Proc :=
  [mkProc 84 "boolne" [16; 16] 16 true false false "boolne"].

Definition procs_from_141 : list Proc :=
  [mkProc 141 "int4mul" [23; 23] 23 true false false "int4mul";
   mkProc 144 "int4ne" [23; 23] 16 true false false "int4ne";
   mkProc 145 "int2ne" [21; 21] 16 true false false "int2ne";
   mkProc 146 "int2gt" [21; 21] 16 true false false "int2gt";
   mkProc 147 "int4gt" [23; 23] 16 true false false "int4gt";
   mkProc 148 "int2le" [21; 21] 16 true false false "int2le";
   mkProc 149 "int4le" [23; 23] 16 true false false "int4le";
   mkProc 150 "int4ge" [23; 23] 16 true false false "int4ge";
   mkProc 151 "int2ge" [21; 21] 16 true false false "int2ge";
   mkProc 152 "int2mul" [21; 21] 21 true false false "int2mul";
   mkProc 153 "int2div" [21; 21] 21 true false false "int2div";
   mkProc 154 "int4div" [23; 23] 23 true false false "int4div";
   mkProc 155 "int2mod" [21; 21] 21 true false false "int2mod";
   mkProc 156 "int4mod" [23; 23] 23 true false false "int4mod"].

Definition procs_from_158 : list Proc :=
  [mkProc 158 "int24eq" [21; 23] 16 true false false "int24eq";
   mkProc 159 "int42eq" [23; 21] 16 true false false "int42eq";
   mkProc 160 "int24lt" [21; 23] 16 true false false "int24lt";
   mkProc 161 "int42lt" [23; 21] 16 true false false "int42lt";
   mkProc 162 "int24gt" [21; 23] 16 true false false "int24gt";
   mkProc 163 "int42gt" [23; 21] 16 true false false "int42gt";
   mkProc 164 "int24ne" [21; 23] 16 true false false "int24ne";
   mkProc 165 "int42ne" [23; 21] 16 true false false "int42ne";
   mkProc 166 "int24le" [21; 23] 16 true false false "int24le";
   mkProc 167 "int42le" [23; 21] 16 true false false "int42le";
   mkProc 168 "int24ge" [21; 23] 16 true false false "int24ge";
   mkProc 169 "int42ge" [23; 21] 16 true false false "int42ge";
   mkProc 170 "int24mul" [21; 23] 23 true false false "int24mul";
   mkProc 171 "int42mul" [23; 21] 23 true false false "int42mul";
   mkProc 172 "int24div" [21; 23] 23 true false false "int24div";
   mkProc 173 "int42div" [23; 21] 23 true false false "int42div";
   mkProc 176 "int2pl" [21; 21] 21 true false false "int2pl";
   mkProc 177 "int4pl" [23; 23] 23 true false false "int4pl";
   mkProc 178 "int24pl" [21; 23] 23 true false false "int24pl";
   mkProc 179 "int42pl" [23; 21] 23 true false false "int42pl";
   mkProc 180 "int2mi" [21; 21] 21 true false false "int2mi";
   mkProc 181 "int4mi" [23; 23] 23 true false false "int4mi";
   mkProc 182 "int24mi" [21; 23] 23 true false false "int24mi";
   mkProc 183 "int42mi" [23; 21] 23 true false false "int42mi"].

Definition procs_from_212 : list Proc :=
  [mkProc 212 "int4um" [23] 23 true false false "int4um";
   mkProc 213 "int2um" [21] 21 true false false "int2um"].

Definition procs_from_313 : list Proc :=
  [mkProc 313 "int4" [21] 23 true false false "i2toi4";
   mkProc 314 "int2" [23] 21 true false false "i4toi2"].

Definition procs_from_350 : list Proc :=
  [mkProc 350 "btint2cmp" [21; 21] 23 true false false "btint2cmp";
   mkProc 351 "btint4cmp" [23; 23] 23 true false false "btint4cmp"].

Definition procs_from_425 : list Proc :=
  [mkProc 425 "hashint4extended" [23; 20] 20 true false false "hashint4extended"].

Definition procs_from_441 : list Proc :=
  [mkProc 441 "hashint2extended" [21; 20] 20 true false false "hashint2extended";
   mkProc 442 "hashint8extended" [20; 20] 20 true false false "hashint8extended"].

Definition procs_from_446 : list Proc :=
  [mkProc 446 "hashcharextended" [18; 20] 20 true false false "hashcharextended"].

Definition procs_from_449 : list Proc :=
  [mkProc 449 "hashint2" [21] 23 true false false "hashint2";
   mkProc 450 "hashint4" [23] 23 true false false "hashint4"].

Definition procs_from_454 : list Proc :=
  [mkProc 454 "hashchar" [18] 23 true false false "hashchar"].

Definition procs_from_460 : list Proc :=
  [mkProc 460 "int8in" [2275] 20 true false false "int8in";
   mkProc 461 "int8out" [20] 2275 true false false "int8out";
   mkProc 462 "int8um" [20] 20 true false false "int8um";
   mkProc 463 "int8pl" [20; 20] 20 true false false "int8pl";
   mkProc 464 "int8mi" [20; 20] 20 true false false "int8mi";
   mkProc 465 "int8mul" [20; 20] 20 true false false "int8mul";
   mkProc 466 "int8div" [20; 20] 20 true false false "int8div";
   mkProc 467 "int8eq" [20; 20] 16 true false false "int8eq";
   mkProc 468 "int8ne" [20; 20] 16 true false false "int8ne";
   mkProc 469 "int8lt" [20; 20] 16 true false false "int8lt";
   mkProc 470 "int8gt" [20; 20] 16 true false false "int8gt";
   mkProc 471 "int8le" [20; 20] 16 true false false "int8le";
   mkProc 472 "int8ge" [20; 20] 16 true false false "int8ge";
   mkProc 474 "int84eq" [20; 23] 16 true false false "int84eq";
   mkProc 475 "int84ne" [20; 23] 16 true false false "int84ne";
   mkProc 476 "int84lt" [20; 23] 16 true false false "int84lt";
   mkProc 477 "int84gt" [20; 23] 16 true false false "int84gt";
   mkProc 478 "int84le" [20; 23] 16 true false false "int84le";
   mkProc 479 "int84ge" [20; 23] 16 true false false "int84ge";
   mkProc 480 "int4" [20] 23 true false false "int84";
   mkProc 481 "int8" [23] 20 true false false "int48"].

Definition procs_from_714 : list Proc :=
  [mkProc 714 "int2" [20] 21 true false false "int82"].

Definition procs_from_754 : list Proc :=
  [mkProc 754 "int8" [21] 20 true false false "int28"].

Definition procs_from_766 : list Proc :=
  [mkProc 766 "int4inc" [23] 23 true false false "int4inc"].

Definition procs_from_768 : list Proc :=
  [mkProc 768 "int4larger" [23; 23] 23 true false false "int4larger";
   mkProc 769 "int4smaller" [23; 23] 23 true false false "int4smaller";
   mkProc 770 "int2larger" [21; 21] 21 true false false "int2larger";
   mkProc 771 "int2smaller" [21; 21] 21 true false false "int2smaller"].

Definition procs_from_837 : list Proc :=
  [mkProc 837 "int82pl" [20; 21] 20 true false false "int82pl";
   mkProc 838 "int82mi" [20; 21] 20 true false false "int82mi";
   mkProc 839 "int82mul" [20; 21] 20 true false false "int82mul";
   mkProc 840 "int82div" [20; 21] 20 true false false "int82div";
   mkProc 841 "int28pl" [21; 20] 20 true false false "int28pl";
   mkProc 842 "btint8cmp" [20; 20] 23 true false false "btint8cmp"].

Definition procs_from_852 : list Proc :=
  [mkProc 852 "int48eq" [23; 20] 16 true false false "int48eq";
   mkProc 853 "int48ne" [23; 20] 16 true false false "int48ne";
   mkProc 854 "int48lt" [23; 20] 16 true false false "int48lt";
   mkProc 855 "int48gt" [23; 20] 16 true false false "int48gt";
   mkProc 856 "int48le" [23; 20] 16 true false false "int48le";
   mkProc 857 "int48ge" [23; 20] 16 true false false "int48ge"].

Definition procs_from_940 : list Proc :=
  [mkProc 940 "mod" [21; 21] 21 true false false "int2mod";
   mkProc 941 "mod" [23; 23] 23 true false false "int4mod";
   mkProc 942 "int28mi" [21; 20] 20 true false false "int28mi";
   mkProc 943 "int28mul" [21; 20] 20 true false false "int28mul"].

Definition procs_from_945 : list Proc :=
  [mkProc 945 "int8mod" [20; 20] 20 true false false "int8mod"].

Definition procs_from_947 : list Proc :=
  [mkProc 947 "mod" [20; 20] 20 true false false "int8mod";
   mkProc 948 "int28div" [21; 20] 20 true false false "int28div";
   mkProc 949 "hashint8" [20] 23 true false false "hashint8"].

Definition procs_from_1219 : list Proc :=
  [mkProc 1219 "int8inc" [20] 20 true false false "int8inc";
   mkProc 1230 "int8abs" [20] 20 true false false "int8abs";
   mkProc 1236 "int8larger" [20; 20] 20 true false false "int8larger";
   mkProc 1237 "int8smaller" [20; 20] 20 true false false "int8smaller"].

Definition procs_from_1242 : list Proc :=
  [mkProc 1242 "boolin" [2275] 16 true false false "boolin";
   mkProc 1243 "boolout" [16] 2275 true false false "boolout"].

Definition procs_from_1251 : list Proc :=
  [mkProc 1251 "int4abs" [23] 23 true false false "int4abs"].

Definition procs_from_1253 : list Proc :=
  [mkProc 1253 "int2abs" [21] 21 true false false "int2abs"].

Definition procs_from_1274 : list Proc :=
  [mkProc 1274 "int84pl" [20; 23] 20 true false false "int84pl";
   mkProc 1275 "int84mi" [20; 23] 20 true false false "int84mi";
   mkProc 1276 "int84mul" [20; 23] 20 true false false "int84mul";
   mkProc 1277 "int84div" [20; 23] 20 true false false "int84div";
   mkProc 1278 "int48pl" [23; 20] 20 true false false "int48pl";
   mkProc 1279 "int48mi" [23; 20] 20 true false false "int48mi";
   mkProc 1280 "int48mul" [23; 20] 20 true false false "int48mul";
   mkProc 1281 "int48div" [23; 20] 20 true false false "int48div"].

Definition procs_from_1396 : list Proc :=
  [mkProc 1396 "abs" [20] 20 true false false "int8abs";
   mkProc 1397 "abs" [23] 23 true false false "int4abs";
   mkProc 1398 "abs" [21] 21 true false false "int2abs"].

Definition procs_from_1691 : list Proc :=
  [mkProc 1691 "boolle" [16; 16] 16 true false false "boolle";
   mkProc 1692 "boolge" [16; 16] 16 true false false "boolge";
   mkProc 1693 "btboolcmp" [16; 16] 23 true false false "btboolcmp"].

Definition procs_from_1850 : list Proc :=
  [mkProc 1850 "int28eq" [21; 20] 16 true false false "int28eq";
   mkProc 1851 "int28ne" [21; 20] 16 true false false "int28ne";
   mkProc 1852 "int28lt" [21; 20] 16 true false false "int28lt";
   mkProc 1853 "int28gt" [21; 20] 16 true false false "int28gt";
   mkProc 1854 "int28le" [21; 20] 16 true false false "int28le";
   mkProc 1855 "int28ge" [21; 20] 16 true false false "int28ge";
   mkProc 1856 "int82eq" [20; 21] 16 true false false "int82eq";
   mkProc 1857 "int82ne" [20; 21] 16 true false false "int82ne";
   mkProc 1858 "int82lt" [20; 21] 16 true false false "int82lt";
   mkProc 1859 "int82gt" [20; 21] 16 true false false "int82gt";
   mkProc 1860 "int82le" [20; 21] 16 true false false "int82le";
   mkProc 1861 "int82ge" [20; 21] 16 true false false "int82ge";
   mkProc 1892 "int2and" [21; 21] 21 true false false "int2and";
   mkProc 1893 "int2or" [21; 21] 21 true false false "int2or";
   mkProc 1894 "int2xor" [21; 21] 21 true false false "int2xor";
   mkProc 1895 "int2not" [21] 21 true false false "int2not";
   mkProc 1896 "int2shl" [21; 23] 21 true false false "int2shl";
   mkProc 1897 "int2shr" [21; 23] 21 true false false "int2shr";
   mkProc 1898 "int4and" [23; 23] 23 true false false "int4and";
   mkProc 1899 "int4or" [23; 23] 23 true false false "int4or";
   mkProc 1900 "int4xor" [23; 23] 23 true false false "int4xor";
   mkProc 1901 "int4not" [23] 23 true false false "int4not";
   mkProc 1902 "int4shl" [23; 23] 23 true false false "int4shl";
   mkProc 1903 "int4shr" [23; 23] 23 true false false "int4shr";
   mkProc 1904 "int8and" [20; 20] 20 true false false "int8and";
   mkProc 1905 "int8or" [20; 20] 20 true false false "int8or";
   mkProc 1906 "int8xor" [20; 20] 20 true false false "int8xor";
   mkProc 1907 "int8not" [20] 20 true false false "int8not";
   mkProc 1908 "int8shl" [20; 23] 20 true false false "int8shl";
   mkProc 1909 "int8shr" [20; 23] 20 true false false "int8shr";
   mkProc 1910 "int8up" [20] 20 true false false "int8up";
   mkProc 1911 "int2up" [21] 21 true false false "int2up";
   mkProc 1912 "int4up" [23] 23 true false false "int4up"].

Definition procs_from_2188 : list Proc :=
  [mkProc 2188 "btint48cmp" [23; 20] 23 true false false "btint48cmp";
   mkProc 2189 "btint84cmp" [20; 23] 23 true false false "btint84cmp";
   mkProc 2190 "btint24cmp" [21; 23] 23 true false false "btint24cmp";
   mkProc 2191 "btint42cmp" [23; 21] 23 true false false "btint42cmp";
   mkProc 2192 "btint28cmp" [21; 20] 23 true false false "btint28cmp";
   mkProc 2193 "btint82cmp" [20; 21] 23 true false false "btint82cmp"].

Definition procs_from_2405 : list Proc :=
  [mkProc 2405 "int2send" [21] 17 true false false "int2send"].

Definition procs_from_2407 : list Proc :=
  [mkProc 2407 "int4send" [23] 17 true false false "int4send"].

Definition procs_from_2409 : list Proc :=
  [mkProc 2409 "int8send" [20] 17 true false false "int8send"].

Definition procs_from_2437 : list Proc :=
  [mkProc 2437 "boolsend" [16] 17 true false false "boolsend"].

Definition procs_from_2515 : list Proc :=
  [mkProc 2515 "booland_statefunc" [16; 16] 16 true false false "booland_statefunc";
   mkProc 2516 "boolor_statefunc" [16; 16] 16 true false false "boolor_statefunc"].

Definition procs_from_2557 : list Proc :=
  [mkProc 2557 "bool" [23] 16 true false false "int4_bool";
   mkProc 2558 "int4" [16] 23 true false false "bool_int4"].

Definition procs_from_2971 : list Proc :=
  [mkProc 2971 "text" [16] 25 true false false "booltext"].

Definition procs_from_3546 : list Proc :=
  [mkProc 3546 "int8dec" [20] 20 true false false "int8dec"].

Definition procs_from_4126 : list Proc :=
  [mkProc 4126 "in_range" [20; 20; 20; 16; 16] 16 true false false "in_range_int8_int8";
   mkProc 4127 "in_range" [23; 23; 20; 16; 16] 16 true false false "in_range_int4_int8";
   mkProc 4128 "in_range" [23; 23; 23; 16; 16] 16 true false false "in_range_int4_int4";
   mkProc 4129 "in_range" [23; 23; 21; 16; 16] 16 true false false "in_range_int4_int2";
   mkProc 4130 "in_range" [21; 21; 20; 16; 16] 16 true false false "in_range_int2_int8";
   mkProc 4131 "in_range" [21; 21; 23; 16; 16] 16 true false false "in_range_int2_int4";
   mkProc 4132 "in_range" [21; 21; 21; 16; 16] 16 true false false "in_range_int2_int2"].

Definition procs_from_5044 : list Proc :=
  [mkProc 5044 "gcd" [23; 23] 23 true false false "int4gcd";
   mkProc 5045 "gcd" [20; 20] 20 true false false "int8gcd";
   mkProc 5046 "lcm" [23; 23] 23 true false false "int4lcm";
   mkProc 5047 "lcm" [20; 20] 20 true false false "int8lcm"].

(** The rows of the registered builtins, by OID. *)
Definition Procs : list Proc :=
  procs_from_38 ++ procs_from_42 ++ procs_from_56 ++ procs_from_63 ++ procs_from_84 ++ procs_from_141 ++
  procs_from_158 ++ procs_from_212 ++ procs_from_313 ++ procs_from_350 ++ procs_from_425 ++
  procs_from_441 ++ procs_from_446 ++ procs_from_449 ++ procs_from_454 ++ procs_from_460 ++ procs_from_714 ++ procs_from_754 ++
  procs_from_766 ++ procs_from_768 ++ procs_from_837 ++ procs_from_852 ++ procs_from_940 ++
  procs_from_945 ++ procs_from_947 ++ procs_from_1219 ++ procs_from_1242 ++ procs_from_1251 ++
  procs_from_1253 ++ procs_from_1274 ++ procs_from_1396 ++ procs_from_1691 ++ procs_from_1850 ++
  procs_from_2188 ++ procs_from_2405 ++ procs_from_2407 ++ procs_from_2409 ++ procs_from_2437 ++
  procs_from_2515 ++ procs_from_2557 ++ procs_from_2971 ++ procs_from_3546 ++ procs_from_4126 ++
  procs_from_5044.

Definition Types : list PgType :=
  [mkPgType 16 1242 1243 0; mkPgType 20 460 461 0; mkPgType 21 38 39 0; mkPgType 23 42 43 0].

Definition ProcByOid_ (oid : Oid) : option Proc :=
  (list_to_map ((fun p => (proc_Oid p, p)) <$> Procs) : gmap Oid Proc) !! oid.

Definition TypeByOid_ (oid : Oid) : option PgType :=
  (list_to_map ((fun t => (typ_Oid t, t)) <$> Types) : gmap Oid PgType) !! oid.
