(* ===== verification/PgTyping.v ===== *)
(** Typing of the evaluation engine: the registered builtins return values of the
    type their pg_proc row declares, and a well-typed expression evaluates to a
    value of its type. *)

From Stdlib Require Import Strings.Byte.
From stdpp Require Import base gmap numbers list strings.
From S2P Require Import Prelude.
From S2P Require Import Bytes.
From S2P Require Import PgInteger.
From S2P Require Import PgText.
From S2P Require Import PgExec.
From S2P Require Import PgExecFacts.
From S2P Require Import PgExecSafety.
From S2P Require Import PgCatalog.

Local Open Scope Z_scope.

(** ** Values of a type *)

Definition INT8OID : Oid := 20.
Definition INT2OID : Oid := 21.
Definition INT4OID : Oid := 23.
Definition TEXTOID : Oid := 25.
Definition BYTEAOID : Oid := 17.
Definition CSTRINGOID : Oid := 2275.

Definition oid_of (T : integer) : Oid :=
  match T with int16 => INT2OID | int32 => INT4OID | int64 => INT8OID end.

Definition integer_of (t : Oid) : option integer :=
  if t =? INT2OID then Some int16 else if t =? INT4OID then Some int32
  else if t =? INT8OID then Some int64 else None.

Definition is_bytes (t : Oid) : bool := (t =? TEXTOID) || (t =? BYTEAOID) || (t =? CSTRINGOID).

(** A boolean is 0 or 1, an integer is in range and sign-extended to 64 bits, a
    string carries its length; other types are not looked into. *)
Definition value_ok (t : Oid) (d : Datum) : Prop :=
  if t =? BOOLOID then exists b, d = BoolGetDatum b
  else match integer_of t with
       | Some T => exists z, fits T z /\ d = Int64GetDatum z
       | None => if is_bytes t then exists bs, d = BytesGetDatum bs else True
       end.

Definition has_type (t : Oid) (v : NullableDatum) : Prop := IsNull v = true \/ value_ok t (Value v).

Lemma value_bool b : value_ok BOOLOID (BoolGetDatum b).
Proof. by exists b. Qed.

Lemma value_int T z : fits T z -> value_ok (oid_of T) (Int64GetDatum z).
Proof. intros Hz. destruct T; by exists z. Qed.

Lemma value_bytes t bs : is_bytes t = true -> t <> BOOLOID -> integer_of t = None -> value_ok t (BytesGetDatum bs).
Proof.
  intros H Hb Hi. unfold value_ok. destruct (Z.eqb_spec t BOOLOID); [done|]. rewrite Hi, H. by exists bs.
Qed.

Lemma bool_has_type b : has_type BOOLOID (boolDatum b).
Proof. right. apply value_bool. Qed.

(** ** What the bodies return *)

Definition returns (t : Oid) (f : Args -> result Datum) : Prop := forall args d, f args = Ok d -> value_ok t d.

Lemma ret_int_ok T r d : (forall z, r = Ok z -> fits T z) -> ret_int r = Ok d -> value_ok (oid_of T) d.
Proof. intros Hr H. unfold ret_int in H. inv_ok. by apply value_int, Hr. Qed.

Lemma exact_ok T r d : exact T r = Ok d -> value_ok (oid_of T) d.
Proof.
  unfold exact. destruct r as [z|]; [|done]. destruct (decide (fits T z)); [|done]. intros [= <-]. by apply value_int.
Qed.

Lemma checked_fits T a b z :
  checkedAdd T a b = Ok z \/ checkedSub T a b = Ok z \/ checkedMul T a b = Ok z -> fits T z.
Proof.
  unfold checkedAdd, checkedSub, checkedMul. intros [H|[H|H]]; revert H; case_match; try done; intros [= <-];
    apply to_int_fits.
Qed.

Lemma fits_max T a b : fits T a -> fits T b -> fits T (Z.max a b) /\ fits T (Z.min a b).
Proof. unfold fits. lia. Qed.

Lemma to_int_ok T z : value_ok (oid_of T) (Int64GetDatum (to_int T z)).
Proof. apply value_int, to_int_fits. Qed.

Section bodies.
Context (L R O T : integer).

Lemma compare_returns f : returns BOOLOID (compare_args f L R).
Proof. intros args d [= <-]. apply value_bool. Qed.

Lemma add_returns : returns (oid_of O) (integerAdd L R O).
Proof. intros args d. apply ret_int_ok. intros z Hz. eapply checked_fits. eauto. Qed.

Lemma sub_returns : returns (oid_of O) (integerSub L R O).
Proof. intros args d. apply ret_int_ok. intros z Hz. eapply checked_fits. eauto. Qed.

Lemma mul_returns : returns (oid_of O) (integerMul L R O).
Proof. intros args d. apply ret_int_ok. intros z Hz. eapply checked_fits. eauto. Qed.

Lemma div_returns : returns (oid_of O) (integerDiv L R O).
Proof.
  intros args d. unfold integerDiv. case_match; [done|]. case_match; [done|]. intros [= <-]. apply to_int_ok.
Qed.

Lemma inc_returns : returns (oid_of T) (integerInc T) /\ returns (oid_of T) (integerDec T).
Proof. split; intros args d; apply ret_int_ok; intros z Hz; eapply checked_fits; eauto. Qed.

Lemma negate_returns : returns (oid_of T) (integerNegate T).
Proof. intros args d. unfold integerNegate. case_match; [done|]. intros [= <-]. apply to_int_ok. Qed.

Lemma identity_returns : returns (oid_of T) (integerIdentity T).
Proof. intros args d [= <-]. apply value_int, integerArg_fits. Qed.

Lemma abs_returns : returns (oid_of T) (integerAbs T).
Proof.
  intros args d. unfold integerAbs. case_match; [apply negate_returns|]. intros [= <-]. apply value_int, integerArg_fits.
Qed.

Lemma mod_returns : returns (oid_of T) (integerMod T).
Proof. intros args d. unfold integerMod. case_match; [done|]. intros [= <-]. apply to_int_ok. Qed.

Lemma larger_returns : returns (oid_of T) (integerLarger T) /\ returns (oid_of T) (integerSmaller T).
Proof. split; intros args d [= <-]; apply value_int, fits_max; apply integerArg_fits. Qed.

Lemma bits_return f : returns (oid_of T) (bit_args f T).
Proof. intros args d [= <-]. apply to_int_ok. Qed.

Lemma not_returns : returns (oid_of T) (integerNot T).
Proof. intros args d [= <-]. apply to_int_ok. Qed.

Lemma shifts_return : returns (oid_of T) (integerShiftLeft T) /\ returns (oid_of T) (integerShiftRight T).
Proof. split; intros args d [= <-]; apply to_int_ok. Qed.

Lemma hash_returns (T' : hashInteger) : returns INT4OID (integerHash T') /\ returns INT8OID (integerHashExtended T').
Proof. split; intros args d [= <-]; [apply (to_int_ok int32)|apply (to_int_ok int64)]. Qed.

Lemma cast_returns : returns (oid_of R) (integerCast L R).
Proof. intros args d. unfold integerCast. case_match; [done|]. intros [= <-]. apply to_int_ok. Qed.

Lemma gcd_returns : returns (oid_of T) (total (integerGCD T)).
Proof.
  intros args d. unfold total, integerGCD. rewrite integerGCDValue_exact by apply integerArg_fits.
  cbn [fmap option_fmap option_map default]. rewrite ret_checked. apply exact_ok.
Qed.

Lemma lcm_returns : returns (oid_of T) (total (integerLCM T)).
Proof. intros args d. unfold total. rewrite integerLCM_exact. apply exact_ok. Qed.

Lemma in_returns : returns (oid_of T) (integerIn T).
Proof. intros args d. apply ret_int_ok. intros z. apply parse_fits. Qed.

Lemma cmp_returns : returns INT4OID (integerCompare L R).
Proof.
  intros args d [= <-]. apply (value_int int32). unfold cmp_Compare, fits, width. cbn. case_match; lia.
Qed.

Lemma in_range_returns : returns BOOLOID (integerInRange L R).
Proof. intros args d. unfold integerInRange. repeat case_match; try done; intros [= <-]; apply value_bool. Qed.

End bodies.

Lemma boolin_returns : returns BOOLOID boolin.
Proof. intros args d. unfold boolin. repeat case_match; try done; intros [= <-]; apply value_bool. Qed.

Lemma btboolcmp_returns : returns INT4OID btboolcmp.
Proof.
  intros args d. unfold btboolcmp. repeat case_match; intros [= <-]; apply (value_int int32); unfold fits, width; cbn; lia.
Qed.

Lemma btint2cmp_returns : returns INT4OID btint2cmp.
Proof. intros args d [= <-]. apply (to_int_ok int32). Qed.

Lemma boolint4_returns : returns INT4OID boolint4.
Proof. intros args d [= <-]. apply (value_int int32). unfold fits, width. case_match; cbn; lia. Qed.

(** ** The registered builtins and their declared types *)

Definition pair_signature (prefix : string) (O : integer) : list (string * Oid) :=
  ((fun op => (prefix +:+ op, BOOLOID)) <$> ["eq"; "ne"; "lt"; "le"; "gt"; "ge"]) ++
  ((fun op => (prefix +:+ op, oid_of O)) <$> ["pl"; "mi"; "mul"; "div"]).

Definition integer_signature (prefix : string) (T : integer) : list (string * Oid) :=
  ((fun op => (prefix +:+ op, oid_of T)) <$>
     ["um"; "up"; "abs"; "mod"; "larger"; "smaller"; "and"; "or"; "xor"; "not"; "shl"; "shr"; "in"]) ++
  [(prefix +:+ "out", CSTRINGOID)].

(** What each body returns, in the order of [registered]. *)
Definition signature : list (string * Oid) :=
  pair_signature "int2" int16 ++ pair_signature "int4" int32 ++ pair_signature "int8" int64 ++
  pair_signature "int24" int32 ++ pair_signature "int42" int32 ++ pair_signature "int28" int64 ++
  pair_signature "int82" int64 ++ pair_signature "int48" int64 ++ pair_signature "int84" int64 ++
  integer_signature "int2" int16 ++ integer_signature "int4" int32 ++ integer_signature "int8" int64 ++
  [("i2toi4", INT4OID); ("i4toi2", INT2OID); ("int28", INT8OID); ("int82", INT2OID); ("int48", INT8OID);
   ("int84", INT4OID); ("int4inc", INT4OID); ("int8inc", INT8OID); ("int8dec", INT8OID);
   ("int4gcd", INT4OID); ("int8gcd", INT8OID); ("int4lcm", INT4OID); ("int8lcm", INT8OID);
   ("boolin", BOOLOID); ("boolout", CSTRINGOID); ("booltext", TEXTOID); ("booleq", BOOLOID); ("boolne", BOOLOID);
   ("boollt", BOOLOID); ("boolle", BOOLOID); ("boolgt", BOOLOID); ("boolge", BOOLOID); ("int4_bool", BOOLOID);
   ("bool_int4", INT4OID); ("booland_statefunc", BOOLOID); ("boolor_statefunc", BOOLOID)] ++
  ((fun f => (f, INT4OID)) <$>
     ["btint2cmp"; "btint4cmp"; "btint8cmp"; "btint24cmp"; "btint42cmp"; "btint28cmp"; "btint82cmp";
      "btint48cmp"; "btint84cmp"; "btboolcmp"]) ++
  ((fun f => (f, BOOLOID)) <$>
     ["in_range_int2_int2"; "in_range_int2_int4"; "in_range_int2_int8"; "in_range_int4_int2";
      "in_range_int4_int4"; "in_range_int4_int8"; "in_range_int8_int8"]) ++
  [("hashint2", INT4OID); ("hashint4", INT4OID); ("hashint8", INT4OID); ("hashint2extended", INT8OID);
   ("hashint4extended", INT8OID); ("hashint8extended", INT8OID); ("hashchar", INT4OID); ("hashcharextended", INT8OID);
   ("int2send", BYTEAOID); ("int4send", BYTEAOID);
   ("int8send", BYTEAOID); ("boolsend", BYTEAOID)].

(** Picks the lemma by the body's head. *)
Ltac by_returns :=
  lazymatch goal with |- returns ?t ?f =>
  lazymatch f with
  | integerEq ?L ?R => exact (compare_returns L R _)
  | integerNe ?L ?R => exact (compare_returns L R _)
  | integerLt ?L ?R => exact (compare_returns L R _)
  | integerLe ?L ?R => exact (compare_returns L R _)
  | integerGt ?L ?R => exact (compare_returns L R _)
  | integerGe ?L ?R => exact (compare_returns L R _)
  | integerAdd ?L ?R ?O => exact (add_returns L R O)
  | integerSub ?L ?R ?O => exact (sub_returns L R O)
  | integerMul ?L ?R ?O => exact (mul_returns L R O)
  | integerDiv ?L ?R ?O => exact (div_returns L R O)
  | integerNegate ?T => exact (negate_returns T)
  | integerIdentity ?T => exact (identity_returns T)
  | integerAbs ?T => exact (abs_returns T)
  | integerMod ?T => exact (mod_returns T)
  | integerLarger ?T => exact (proj1 (larger_returns T))
  | integerSmaller ?T => exact (proj2 (larger_returns T))
  | integerIn ?T => exact (in_returns T)
  | integerCast ?L ?R => exact (cast_returns L R)
  | integerInc ?T => exact (proj1 (inc_returns T))
  | integerDec ?T => exact (proj2 (inc_returns T))
  | total (integerGCD ?T) => exact (gcd_returns T)
  | total (integerLCM ?T) => exact (lcm_returns T)
  | integerCompare ?L ?R => exact (cmp_returns L R)
  | integerInRange ?L ?R => exact (in_range_returns L R)
  | integerAnd ?T => exact (bits_return T _)
  | integerOr ?T => exact (bits_return T _)
  | integerXor ?T => exact (bits_return T _)
  | integerNot ?T => exact (not_returns T)
  | integerShiftLeft ?T => exact (proj1 (shifts_return T))
  | integerShiftRight ?T => exact (proj2 (shifts_return T))
  | integerHash ?T => exact (proj1 (hash_returns T))
  | integerHashExtended ?T => exact (proj2 (hash_returns T))
  | btint2cmp => exact btint2cmp_returns
  | boolin => exact boolin_returns
  | btboolcmp => exact btboolcmp_returns
  | boolint4 => exact boolint4_returns
  | _ => (intros ? ? [= <-]); first [apply value_bool | by apply value_bytes]
  end end.

Lemma registered_returns arm : Forall2 (fun r s => r.1 = s.1 /\ returns s.2 r.2) (registered arm) signature.
Proof.
  unfold registered, signature, registerIntegerPair, registerInteger, pair_signature, integer_signature.
  cbn [app fmap list_fmap].
  repeat (constructor; [split; [reflexivity|cbn [fst snd]; by_returns]|]). constructor.
Qed.

(** Every row of pg_proc that names a registered body declares the type it returns. *)
Lemma rows_declare_signature : Forall (fun p => (proc_Src p, proc_RetType p) ∈ signature) Procs.
Proof. by_decide. Qed.

(** ** Well-typed trees *)

Definition known (t : Oid) : bool := (t =? BOOLOID) || bool_decide (is_Some (integer_of t)) || is_bytes t.

(** A relabelling that keeps the representation. *)
Definition relabels (from to : Oid) : bool := (from =? to) || negb (known to).

Definition all_of_type (ty : Node -> Prop) (t : Oid) : list Node -> Prop :=
  fix go items :=
    match items with
    | [] => True
    | n :: items' => (ty n /\ exprType n = Ok t) /\ go items'
    end.

Definition results_of_type (ty : Node -> Prop) (t : Oid) : list Node -> Prop :=
  fix go items :=
    match items with
    | CaseWhen _ r :: items' => (ty r /\ exprType r = Ok t) /\ go items'
    | _ => True
    end.

Section typing.
Context (cat : Catalog).

Definition proc_returns (oid t : Oid) : Prop := proc_RetType <$> ProcByOid cat oid = Some t.

(** What the type of the result depends on: the declared types of the functions at
    the positions a value can come from.  Arguments and conditions are free: a
    body's result has its type whatever it is called on. *)
Fixpoint typed (n : Node) : Prop :=
  match n with
  | Const t v isnull => isnull = true \/ value_ok t v
  | FuncExpr f t _ | OpExpr f t _ => proc_returns f t
  | DistinctExpr _ t _ => t = BOOLOID
  | NullIfExpr _ t args => match args with a :: _ => typed a /\ exprType a = Ok t | [] => True end
  | RelabelType a t => typed a /\ exists s, exprType a = Ok s /\ relabels s t = true
  | CoerceViaIO _ t => exists ty, TypeByOid cat t = Some ty /\ proc_returns (typ_Input ty) t
  | CaseExpr t _ args def =>
      results_of_type typed t args /\
      match def with Some d => typed d /\ exprType d = Ok t | None => True end
  | CoalesceExpr t args => all_of_type typed t args
  | BooleanTest a _ => typed a /\ exprType a = Ok BOOLOID
  | CaseTestExpr _ => False
  | _ => True
  end.

(** The registered bodies return what their rows declare. *)
Hypothesis Hcat : forall oid p fn args d b,
  ProcByOid cat oid = Some p -> builtins cat (proc_Src p) = Some fn -> fn args = Ok (d, b) -> value_ok (proc_RetType p) d.

Definition params_typed (params : list ExternParam) : Prop :=
  Forall (fun p => has_type (prm_Type p) (mkNullableDatum (prm_Value p) (prm_IsNull p))) params.

Lemma relabel_value s t v : relabels s t = true -> has_type s v -> has_type t v.
Proof.
  unfold relabels, known. intros [H|H]%orb_true_iff Hv; [apply Z.eqb_eq in H; by subst|].
  destruct Hv as [|Hv]; [by left|right]. apply negb_true_iff, orb_false_iff in H as [[H1 H2]%orb_false_iff H3].
  unfold value_ok. rewrite H1, H3. destruct (integer_of t) as [T|]; [|done].
  apply bool_decide_eq_false in H2. destruct H2. by exists T.
Qed.

(** A function call returns a value of the declared type. *)
Lemma lookupFunc_value oid t fl args d b :
  proc_returns oid t -> lookupFunc cat oid = Ok fl -> FnAddr fl args = Ok (d, b) -> value_ok t d.
Proof.
  unfold proc_returns, lookupFunc, FmgrInfoFor, lookupProc. intros (p & Hp & ->)%fmap_Some. rewrite Hp.
  intros [= <-]. cbn. destruct (builtins cat (proc_Src p)) as [fn|] eqn:Hb; [|done]. cbn. by apply Hcat with oid.
Qed.

Lemma call_typed oid t fl args v :
  proc_returns oid t -> lookupFunc cat oid = Ok fl -> CallFunction fl args = Ok v -> has_type t v.
Proof.
  intros Hp Hl. unfold CallFunction. destruct (_ && _); [by intros [= <-]; left|]. intros H. inv_ok. destruct a as [d b].
  injection H as <-. right. cbn. by eapply lookupFunc_value.
Qed.

Lemma param_typed params id t v :
  params_typed params -> param_value params id t = Ok v -> has_type t v.
Proof.
  unfold param_value. intros Hp H. destruct (if (_ && _) then _ else _) as [prm|] eqn:E; [|done].
  destruct (prm_Type prm =? InvalidOid); [done|]. destruct (Z.eqb_spec (prm_Type prm) t) as [<-|]; [|done].
  injection H as <-. unfold params_typed in Hp. rewrite Forall_lookup in Hp. case_match; [|done]. by apply (Hp _ _ E).
Qed.

Lemma not_typed v : has_type BOOLOID (not_value v).
Proof. right. apply value_bool. Qed.

Lemma distinct_typed fl args v : distinct_result fl args = Ok v -> has_type BOOLOID v.
Proof.
  unfold distinct_result. destruct args as [|a0 [|a1 args]]; try done.
  destruct (IsNull a0 && IsNull a1); [intros [= <-]; apply bool_has_type|].
  destruct (_ || _); [intros [= <-]; apply bool_has_type|]. intros H. inv_ok. right. apply value_bool.
Qed.

Lemma nullif_typed fl a0 args v t : nullif_result fl (a0 :: args) = Ok v -> has_type t a0 -> has_type t v.
Proof.
  unfold nullif_result. intros H Ha. destruct args as [|a1 args]; [by destruct (IsNull a0); simplify_eq|].
  destruct (_ && _); [|by simplify_eq]. inv_ok. destruct (_ && _) in H; simplify_eq; [by left|done].
Qed.

Lemma bool_test_typed k v : has_type BOOLOID v -> has_type BOOLOID (bool_test k v).
Proof.
  intros Hv. unfold bool_test. destruct k; try (case_match; try done); apply bool_has_type.
Qed.

(** A tree denotes a value of its type. *)
Definition sound (n : Node) : Prop := forall params cv v,
  typed n -> params_typed params -> denote cat params cv n = Ok v -> exists t, exprType n = Ok t /\ has_type t v.

Lemma coalesce_typed params cv t args v :
  Forall sound args -> params_typed params -> all_of_type typed t args ->
  denote_coalesce (denote cat params cv) args = Ok v -> has_type t v.
Proof.
  intros Hs Hp. induction Hs as [|n args Hn Hs IH]; cbn; [by intros _ [= <-]; left|].
  intros [[Ht Ety] Hrest] H. inv_ok. destruct (IsNull a); [by apply IH|]. injection H as <-.
  destruct (Hn _ _ _ Ht Hp Hbind) as (t' & E & Hv). congruence.
Qed.

Lemma whens_typed params cv inner t args def v :
  (forall c r, CaseWhen c r ∈ args -> sound r) -> params_typed params -> results_of_type typed t args ->
  (forall v, def = Ok v -> has_type t v) ->
  denote_whens (denote cat params inner) (denote cat params cv) def args = Ok v -> has_type t v.
Proof.
  intros Hs Hp Ht Hd. induction args as [|n args IH]; cbn; [apply Hd|]. intros H.
  destruct n as [| | | | | | | | | | |c r| | | | | | | | | |]; try done. cbn in Ht. destruct Ht as [[Ht Ety] Hrest]. inv_ok.
  destruct (is_true a).
  - destruct (Hs c r ltac:(left) _ _ _ Ht Hp H) as (t' & E & Hv). congruence.
  - apply IH; try done. intros c' r' Hin. apply (Hs c' r'). by right.
Qed.

Lemma io_typed params cv arg t v :
  typed (CoerceViaIO arg t) -> denote cat params cv (CoerceViaIO arg t) = Ok v -> has_type t v.
Proof.
  intros (ty & Hty & Hret) H. cbn [denote] in H. inv_ok. unfold denote_io in H. inv_ok. destruct a0 as [[outinfo ininfo] dst].
  destruct (_ || _) eqn:Hcall.
  - inv_ok. destruct a1 as [w b]. injection H as <-. right. cbn.
    assert (lookupFunc cat (typ_Input ty) = Ok ininfo) as Hin; [|by eapply lookupFunc_value].
    revert Hbind0. unfold io_functions, typeByOid. rewrite Hty. intros Hio. inv_ok.
    destruct (typ_Output a2 =? InvalidOid); [done|]. inv_ok. cbn [mbind result_mbind result_bind] in Hio.
    destruct (typ_Input ty =? InvalidOid); [done|]. inv_ok. by simplify_eq.
  - inv_ok. left. apply orb_false_iff in Hcall as [_ Hn]. by apply negb_false_iff.
Qed.

Lemma bool_loop_typed params cv d args an v :
  denote_bool (denote cat params cv) d an args = Ok v -> has_type BOOLOID v.
Proof.
  revert an. induction args as [|n args IH]; intros an; cbn.
  - intros [= <-]. destruct an; [by left|apply bool_has_type].
  - intros H. inv_ok. destruct (IsNull a); [by apply (IH true)|]. case_match; [injection H as <-; apply bool_has_type|by apply (IH an)].
Qed.

Lemma tree_sound n : sound n /\ (forall c r, n = CaseWhen c r -> sound r).
Proof.
  pose (Q := fun n => sound n /\ (forall c r, n = CaseWhen c r -> sound r)).
  assert (forall l, Forall Q l -> Forall sound l) as Hall by (intros l Hl; eapply Forall_impl; [exact Hl|]; by intros x []).
  refine (Node_tree_ind Q _ _ _ _ _ _ _ _ _ _ n); clear n.
  - intros n. destruct n; try done; (split; [|done]); intros params cv v Ht Hp H; cbn in Ht, H; try done.
    + injection H as <-. eexists. split; [done|]. destruct Ht as [->|Ht]; [by left|by right].
    + eexists. split; [done|]. by eapply param_typed.
  - intros f t args Hargs%Hall. split_and!; (split; [|done]); intros params cv v Ht Hp H; cbn in Ht; cbn [denote] in H;
      inv_ok; (eexists; split; [done|]).
    + by eapply call_typed.
    + by eapply call_typed.
    + subst t. by eapply distinct_typed.
    + destruct args as [|n args]; cbn in Hbind; inv_ok; [done|]. destruct Ht as [Ht Et].
      eapply nullif_typed; [done|]. apply Forall_cons in Hargs as [Hn _].
      match goal with Hx : denote _ _ _ n = Ok _ |- _ => destruct (Hn _ _ _ Ht Hp Hx) as (t' & E & Hv) end. congruence.
  - intros op args _. split; [|done]. intros params cv v _ Hp H. exists BOOLOID. split; [done|]. cbn [denote] in H.
    destruct op; try (by eapply bool_loop_typed). destruct args; [done|]. inv_ok. apply not_typed.
  - intros n t [Hn _]. split; [|done]. intros params cv v (Ht & s & Es & Hr) Hp H. cbn [denote] in H. exists t. split; [done|].
    destruct (Hn _ _ _ Ht Hp H) as (t' & E & Hv). eapply relabel_value; [exact Hr|]. congruence.
  - intros n t _. split; [|done]. intros params cv v Ht Hp H. exists t. split; [done|]. by eapply io_typed.
  - intros t arg args def Harg Hargs Hdef. split; [|done]. intros params cv v [Ht Hd] Hp H. exists t. split; [done|].
    cbn [denote] in H. inv_ok. eapply whens_typed; [| | | |exact H]; [|done|done|].
    + intros c r Hin. rewrite Forall_forall in Hargs. by apply (proj2 (Hargs _ Hin) c).
    + intros v' Hv'. destruct def as [d|]; [|done]. destruct Hd as [Htd Ed]. destruct Hdef as [Hdef _].
      destruct (Hdef _ _ _ Htd Hp Hv') as (t' & E & Hv). congruence.
  - intros c r [Hc _] [Hr _]. split; [|by intros ? ? [= <- <-]]. done.
  - intros t args Hargs%Hall. split; [|done]. intros params cv v Ht Hp H. exists t. split; [done|]. by eapply coalesce_typed.
  - intros n k isrow _. split; [|done]. intros params cv v _ Hp H. cbn [denote] in H. inv_ok. exists BOOLOID.
    split; [done|apply bool_has_type].
  - intros n k [Hn _]. split; [|done]. intros params cv v [Ht Et] Hp H. cbn [denote] in H. inv_ok. exists BOOLOID.
    split; [done|]. apply bool_test_typed. destruct (Hn _ _ _ Ht Hp Hbind) as (t' & E & Hv). congruence.
Qed.

End typing.

(** ** The compiled-in catalog *)

Definition pg_catalog (linux_arm64 : bool) (resolver : option (Oid -> option Proc)) : Catalog :=
  mkCatalog ProcByOid_ TypeByOid_ resolver (funcs_builtins linux_arm64).

Lemma elem_of_by_key {A} `{Countable K} (key : A -> K) (l : list A) k x :
  (list_to_map ((fun a => (key a, a)) <$> l) : gmap K A) !! k = Some x -> x ∈ l.
Proof. intros (a & [= -> ->] & Ha)%elem_of_list_to_map_2%list_elem_of_fmap. done. Qed.

(** The body bound to a row returns the type the row declares. *)
Lemma pg_catalog_typed arm resolver oid p fn args d b :
  ProcByOid (pg_catalog arm resolver) oid = Some p -> builtins (pg_catalog arm resolver) (proc_Src p) = Some fn ->
  fn args = Ok (d, b) -> value_ok (proc_RetType p) d.
Proof.
  cbn. unfold ProcByOid_, funcs_builtins. intros Hp (f & Hf & ->)%fmap_Some H. apply elem_of_by_key in Hp.
  pose proof rows_declare_signature as Hrow. rewrite Forall_forall in Hrow. specialize (Hrow _ Hp).
  apply elem_of_list_to_map_2, list_elem_of_lookup in Hf as (i & Hi).
  destruct (Forall2_lookup_l _ _ _ _ _ (registered_returns arm) Hi) as ([n t] & Hs & E & Hret). cbn in E, Hret. subst n.
  assert (signature.*1 = (registered arm).*1) as Enames.
  { pose proof (registered_returns arm) as HF. clear -HF. induction HF as [|r s l l' [E _] _ IH]; [done|]. cbn. congruence. }
  assert (t = proc_RetType p) as <-.
  { eapply fst_functional; [rewrite Enames; apply registered_names|by eapply list_elem_of_lookup_2|done]. }
  unfold never_null in H. inv_ok. by apply Hret with args.
Qed.

(** C40: well-typed expressions evaluate to values of their type.  On every target, let
    an expression be well typed: its constants are values of their types, the
    functions its value can come from are declared in the catalog with the types the
    tree gives them, the branches of a CASE, a COALESCE or a NULLIF have its type and a
    relabelling keeps the representation (no CASE test value stands for the result).
    Then, on parameters that are values of their declared types, every evaluation that
    returns gives NULL or a value of the expression's type: a boolean is 0 or 1, an
    integer is in the range of its width and sign-extended, a string carries its
    length.  The builtins are all the registered ones but the receive functions of the
    binary format. *)
Theorem evaluation_well_typed arm resolver expr st params st' v :
  typed (pg_catalog arm resolver) expr -> params_typed params ->
  Prepare (pg_catalog arm resolver) expr = Ok st -> Eval st params = (st', Ok v) ->
  exists t, exprType expr = Ok t /\ has_type t v.
Proof.
  intros Ht Hp Hprep He. destruct (Prepare_implements _ _ _ Hprep) as (I & lo & hi & HI & Hc).
  unfold Eval in He. destruct (eval params (root st) (state_store st)) as [s' r] eqn:E. injection He as <- ->.
  destruct (run_computes _ _ _ _ _ _ _ _ _ _ _ Hc HI E) as (_ & _ & Hden). symmetry in Hden.
  by apply (proj1 (tree_sound (pg_catalog arm resolver) (pg_catalog_typed arm resolver) expr) params None v).
Qed.

Lemma evaluation_well_typed_witness :
  exists st st' v, Prepare (pg_catalog false None) demo_expr = Ok st /\ Eval st (int4_param 3) = (st', Ok v) /\
    v = mkNullableDatum (Int64GetDatum 3) false /\ exists t, exprType demo_expr = Ok t /\ has_type t v.
Proof.
  destruct (prepared_state (pg_catalog false None) demo_expr ltac:(vm_compute; reflexivity)) as [st E].
  destruct (Prepare_implements _ _ _ E) as (I & lo & hi & HI & Hc).
  destruct (eval (int4_param 3) (root st) (state_store st)) as [s' r] eqn:Er.
  destruct (run_computes _ _ _ _ _ _ _ _ _ _ _ Hc HI Er) as (_ & _ & Hden).
  assert (denote (pg_catalog false None) (int4_param 3) None demo_expr = Ok (mkNullableDatum (Int64GetDatum 3) false)) as Hv
    by (vm_compute; reflexivity).
  assert (Eval st (int4_param 3) = (mkExprState (root st) s', Ok (mkNullableDatum (Int64GetDatum 3) false))) as He
    by (unfold Eval; rewrite Er; f_equal; rewrite Hden; exact Hv).
  exists st, (mkExprState (root st) s'), (mkNullableDatum (Int64GetDatum 3) false).
  split; [exact E|]. split; [exact He|]. split; [reflexivity|].
  apply (evaluation_well_typed false None demo_expr st (int4_param 3) (mkExprState (root st) s') _); [| |exact E|exact He].
  - split; [split; [split; [left; reflexivity|reflexivity]|exact Logic.I]|split; [vm_compute; reflexivity|reflexivity]].
  - constructor; [|constructor]. right. exists 3. split; [vm_compute; split; [discriminate|reflexivity]|reflexivity].
Defined.
