(* ===== verification/Consolidator.v ===== *)
(** Prepared-statement consolidation: common/preparedstatement/consolidator.go (the
    gateway's) and pooler_consolidator.go (the pooler's).  Statements are shared
    objects, so they live in a store and are named by reference; both run under
    their mutex, one operation at a time. *)

From Stdlib Require Import Strings.Byte.
From stdpp Require Import base gmap numbers list strings.
From S2P Require Import Prelude.
From S2P Require Import Bytes.
From S2P Require Import Diagnostics.

Local Open Scope Z_scope.

(** ** Keys *)

Definition str_len (s : string) : Z := Z.of_nat (String.length s).

(** The OIDs separated by commas. *)
Fixpoint join_oids (oids : list Z) : string :=
  match oids with
  | [] => ""
  | [oid] => Sprintf_d oid
  | oid :: oids' => Sprintf_d oid +:+ "," +:+ join_oids oids'
  end.

Definition dedupKey (query : string) (paramTypes : list Z) : string :=
  if bool_decide (paramTypes = []) then query
  else Sprintf_d (str_len query) +:+ ":" +:+ query +:+ join_oids paramTypes.

(** ** The pooler's consolidator *)

Definition CanonicalNamePrefix : string := "ppstmt".

Record PoolerConsolidator := mkPoolerConsolidator { pc_stmts : gmap string string; lastID : Z }.

Definition NewPoolerConsolidator : PoolerConsolidator := mkPoolerConsolidator ∅ 0.

Definition CanonicalName (pc : PoolerConsolidator) (query : string) (paramTypes : list Z)
    : PoolerConsolidator * string :=
  let key := dedupKey query paramTypes in
  match pc_stmts pc !! key with
  | Some name => (pc, name)
  | None =>
      let name := CanonicalNamePrefix +:+ Sprintf_d (lastID pc) in
      (mkPoolerConsolidator (<[key := name]> (pc_stmts pc)) (lastID pc + 1), name)
  end.

(** ** The gateway's consolidator *)

(** The errors of [parser.ParseSQL]: a [*ParseSyntaxError], or any other. *)
Inductive ParseError :=
| ParseSyntaxError (Message Hint SQLState : string) (CursorPosition : Z)
| OtherError (message : string).

(** The parser, far from this component: what it answers is left open. *)
Class Parser := { Stmt : Type; ParseSQL : string -> ParseError + list Stmt }.

Section parser.
Context `{Parser}.

Record PreparedStatementInfo := mkPreparedStatementInfo {
  psi_Name : string;
  psi_Query : string;
  psi_ParamTypes : list Z;
  astStruct : option Stmt
}.

Definition NewPreparedStatementInfo (name query : string) (paramTypes : list Z)
    : PgDiagnostic + PreparedStatementInfo :=
  match ParseSQL query with
  | inl (ParseSyntaxError msg hint sqlState cursor) =>
      inl (set_Hint hint (NewParseErrorAt msg cursor sqlState))
  | inl (OtherError msg) => inl (NewParseError msg)
  | inr [] => inr (mkPreparedStatementInfo name query paramTypes None)
  | inr [stmt] => inr (mkPreparedStatementInfo name query paramTypes (Some stmt))
  | inr _ => inl (NewParseError "cannot insert multiple commands into a prepared statement")
  end.

(** A reference to a statement. *)
Notation ref := nat (only parsing).

Record Consolidator := mkConsolidator {
  stmts : gmap string ref;
  incoming : gmap Z (gmap string ref);
  usageCount : gmap ref Z;
  lastUsedID : Z;
  (** The statements allocated so far. *)
  infos : list PreparedStatementInfo
}.

Definition NewConsolidator : Consolidator := mkConsolidator ∅ ∅ ∅ 0 [].

Definition info (c : Consolidator) (p : ref) : option PreparedStatementInfo := infos c !! p.

(** [psc.incoming[connId]]: nil reads as empty. *)
Definition conn_stmts (c : Consolidator) (connId : Z) : gmap string ref := default ∅ (incoming c !! connId).

Definition lookup_stmt (c : Consolidator) (connId : Z) (name : string) : option ref := conn_stmts c connId !! name.

(** [m[k] += d] on a Go map. *)
Definition bump (m : gmap ref Z) (k : ref) (d : Z) : gmap ref Z := <[k := default 0 (m !! k) + d]> m.

(** [usageCount[psi]--; if usageCount[psi] == 0 { delete(stmts, key); delete(usageCount, psi) }] *)
Definition release (c : Consolidator) (p : ref) (key : string) : Consolidator :=
  let usage := bump (usageCount c) p (-1) in
  if default 0 (usage !! p) =? 0
  then mkConsolidator (delete key (stmts c)) (incoming c) (delete p usage) (lastUsedID c) (infos c)
  else mkConsolidator (stmts c) (incoming c) usage (lastUsedID c) (infos c).

Definition set_incoming (c : Consolidator) (m : gmap Z (gmap string ref)) : Consolidator :=
  mkConsolidator (stmts c) m (usageCount c) (lastUsedID c) (infos c).

Definition query_of (c : Consolidator) (p : ref) : string := default "" (psi_Query <$> info c p).
Definition key_of (c : Consolidator) (p : ref) : string :=
  default "" ((fun i => dedupKey (psi_Query i) (psi_ParamTypes i)) <$> info c p).

(** Replacing the statement already prepared under a name: the released entry of
    [stmts] is the one of the bare query text. *)
Definition replace_existing (c : Consolidator) (connId : Z) (name : string) : Consolidator :=
  match lookup_stmt c connId name with
  | Some existing =>
      if bool_decide (name = "") then c
      else
        let c := release c existing (query_of c existing) in
        set_incoming c (<[connId := delete name (conn_stmts c connId)]> (incoming c))
  | None => c
  end.

Definition AddPreparedStatement (c : Consolidator) (connId : Z) (name queryStr : string) (paramTypes : list Z)
    : Consolidator * (PgDiagnostic + ref) :=
  let c := set_incoming c (<[connId := conn_stmts c connId]> (incoming c)) in
  let c := replace_existing c connId name in
  let key := dedupKey queryStr paramTypes in
  match stmts c !! key with
  | Some existingPs =>
      (mkConsolidator (stmts c) (<[connId := <[name := existingPs]> (conn_stmts c connId)]> (incoming c))
         (bump (usageCount c) existingPs 1) (lastUsedID c) (infos c), inr existingPs)
  | None =>
      let newName := "stmt" +:+ Sprintf_d (lastUsedID c) in
      let id := lastUsedID c + 1 in
      match NewPreparedStatementInfo newName queryStr paramTypes with
      | inl e => (mkConsolidator (stmts c) (incoming c) (usageCount c) id (infos c), inl e)
      | inr newPS =>
          let p := length (infos c) in
          (mkConsolidator (<[key := p]> (stmts c))
             (<[connId := <[name := p]> (conn_stmts c connId)]> (incoming c))
             (bump (usageCount c) p 1) id (infos c ++ [newPS]), inr p)
      end
  end.

Definition GetPreparedStatementInfo (c : Consolidator) (connId : Z) (name : string) : option PreparedStatementInfo :=
  p ← lookup_stmt c connId name; info c p.

Definition RemovePreparedStatement (c : Consolidator) (connId : Z) (name : string) : Consolidator :=
  match lookup_stmt c connId name with
  | Some p =>
      let c := release c p (key_of c p) in
      set_incoming c (<[connId := delete name (conn_stmts c connId)]> (incoming c))
  | None => c
  end.

(** The loop ranges over the map in any order; [order] lists the statements. *)
Definition RemoveConnection (order : gmap string ref -> list ref) (c : Consolidator) (connId : Z) : Consolidator :=
  match incoming c !! connId with
  | None => c
  | Some connStmts =>
      let c := foldl (fun c p => release c p (key_of c p)) c (order connStmts) in
      set_incoming c (delete connId (incoming c))
  end.

Record StatementStats := mkStatementStats { ss_Name : string; ss_Query : string; ss_UsageCount : Z }.

Record ConsolidatorStats := mkConsolidatorStats {
  UniqueStatements : Z; TotalReferences : Z; ConnectionCount : Z; Statements : list StatementStats
}.

Definition usage (c : Consolidator) (p : ref) : Z := default 0 (usageCount c !! p).

Definition Stats (order : gmap string ref -> list ref) (c : Consolidator) : ConsolidatorStats :=
  foldl (fun stats p =>
      mkConsolidatorStats (UniqueStatements stats) (TotalReferences stats + usage c p) (ConnectionCount stats)
        (Statements stats ++ [mkStatementStats (default "" (psi_Name <$> info c p)) (query_of c p) (usage c p)]))
    (mkConsolidatorStats (Z.of_nat (size (stmts c))) 0 (Z.of_nat (size (incoming c))) [])
    (order (stmts c)).

Definition IsEmpty (i : PreparedStatementInfo) : bool :=
  match astStruct i with None => true | Some _ => false end.

End parser.
