(* ===== verification/ConsolidatorSafety.v ===== *)
(** What prepared-statement consolidation guarantees: keys tell statements apart,
    canonical names determine their statement, and a connection sees exactly the
    statements it prepared, as if nothing were shared. *)

From Stdlib Require Import Strings.Byte.
From stdpp Require Import base gmap numbers list strings.
From S2P Require Import Prelude.
From S2P Require Import Bytes.
From S2P Require Import Diagnostics.
From S2P Require Import Consolidator.

Local Open Scope Z_scope.

(** ** Keys *)

Notation bytes := String.list_byte_of_string.

Lemma bytes_app s t : bytes (s +:+ t) = bytes s ++ bytes t.
Proof.
  induction s as [|a s IH]; [done|].
  change (bytes (String a s +:+ t)) with (Ascii.byte_of_ascii a :: bytes (s +:+ t)). by rewrite IH.
Qed.

Lemma bytes_inj s t : bytes s = bytes t -> s = t.
Proof.
  intros E. rewrite <- (String.string_of_list_byte_of_string s), E. apply String.string_of_list_byte_of_string.
Qed.

Lemma bytes_length s : len (bytes s) = str_len s.
Proof. unfold len, str_len. f_equal. induction s as [|a s IH]; [done|]. cbn. f_equal. exact IH. Qed.

Lemma bytes_Sprintf_d z : bytes (Sprintf_d z) = decimal z.
Proof. unfold Sprintf_d. apply String.list_byte_of_string_of_list_byte. Qed.

(** Digits up to the end, or up to a byte that is not a digit. *)
Definition digits (l : list byte) : Prop := Forall (fun b => is_digit b = true) l.
Definition no_digit (l : list byte) : Prop := match l with [] => True | b :: _ => is_digit b = false end.

Lemma digits_split l1 r1 l2 r2 :
  digits l1 -> digits l2 -> no_digit r1 -> no_digit r2 -> l1 ++ r1 = l2 ++ r2 -> l1 = l2 /\ r1 = r2.
Proof.
  intros H1. revert l2. induction H1 as [|b l1 Hb H1 IH]; intros l2 H2 N1 N2 E.
  - destruct H2 as [|c l2 Hc H2]; [done|]. cbn in E. subst. cbn in N1. congruence.
  - destruct H2 as [|c l2 Hc H2]; cbn in E; [subst; cbn in N2; congruence|].
    injection E as -> E. destruct (IH _ H2 N1 N2 E) as [-> ->]. done.
Qed.

Lemma decimal_inj y z : 0 <= y -> 0 <= z -> decimal y = decimal z -> y = z.
Proof.
  intros Hy Hz E. destruct (decimal_digits y Hy) as (_ & <- & _), (decimal_digits z Hz) as (_ & <- & _).
  by rewrite E.
Qed.

Lemma Sprintf_d_inj y z : 0 <= y -> 0 <= z -> Sprintf_d y = Sprintf_d z -> y = z.
Proof. intros Hy Hz E. apply decimal_inj; [done..|]. by rewrite <- !bytes_Sprintf_d, E. Qed.

(** Parameter types are unsigned. *)
Definition oids_ok (oids : list Z) : Prop := Forall (fun oid => 0 <= oid) oids.

Lemma join_oids_cons oid oids :
  bytes (join_oids (oid :: oids)) =
  decimal oid ++ match oids with [] => [] | _ => Zbyte 44 :: bytes (join_oids oids) end.
Proof.
  destruct oids as [|o oids]; cbn [join_oids]; [by rewrite bytes_Sprintf_d, app_nil_r|].
  rewrite !bytes_app, bytes_Sprintf_d. done.
Qed.

Lemma join_oids_inj oids oids' :
  oids_ok oids -> oids_ok oids' -> oids <> [] -> oids' <> [] -> join_oids oids = join_oids oids' -> oids = oids'.
Proof.
  intros H1. revert oids'. induction H1 as [|o oids Ho H1 IH]; intros oids' H2 N1 N2 E; [done|].
  destruct H2 as [|o' oids' Ho' H2]; [done|]. apply (f_equal bytes) in E. rewrite !join_oids_cons in E.
  destruct (decimal_digits o Ho) as (D1 & _ & _), (decimal_digits o' Ho') as (D2 & _ & _).
  apply digits_split in E as [Eo Er]; [|done..|by destruct oids|by destruct oids'].
  apply decimal_inj in Eo as ->; [|done..]. f_equal.
  destruct oids as [|a oids], oids' as [|b oids']; try done. injection Er as Er.
  apply IH; [done..|]. by apply bytes_inj.
Qed.

(** A query that reads like a length-prefixed key: digits and a colon.  No SQL
    statement starts with a digit. *)
Fixpoint key_like_bytes (l : list byte) : bool :=
  match l with
  | [] => false
  | b :: l' => if is_digit b then key_like_bytes l' else bool_decide (b = Zbyte 58)
  end.

Definition key_like (query : string) : bool := key_like_bytes (bytes query).

Lemma key_like_digits l r : digits l -> key_like_bytes (l ++ Zbyte 58 :: r) = true.
Proof. induction 1 as [|b l Hb Hl IH]; [done|]. cbn [app key_like_bytes]. by rewrite Hb. Qed.

Lemma dedupKey_bytes query oids :
  oids <> [] -> bytes (dedupKey query oids) = decimal (str_len query) ++ Zbyte 58 :: bytes query ++ bytes (join_oids oids).
Proof.
  intros Ho. unfold dedupKey. rewrite bool_decide_false by done.
  by rewrite !bytes_app, bytes_Sprintf_d.
Qed.

Lemma str_len_nonneg s : 0 <= str_len s.
Proof. unfold str_len. lia. Qed.

Lemma typed_key_like query oids : oids <> [] -> key_like (dedupKey query oids) = true.
Proof.
  intros Ho. unfold key_like. rewrite dedupKey_bytes by done. apply key_like_digits.
  apply (decimal_digits (str_len query) (str_len_nonneg query)).
Qed.

(** What a consolidator needs of a statement: an untyped query does not read like a key. *)
Definition plain (query : string) (oids : list Z) : Prop :=
  oids_ok oids /\ (oids = [] -> key_like query = false).

#[export] Instance plain_dec query oids : Decision (plain query oids).
Proof. unfold plain, oids_ok. apply _. Defined.

Lemma dedupKey_inj query oids query' oids' :
  plain query oids -> plain query' oids' -> dedupKey query oids = dedupKey query' oids' ->
  query = query' /\ oids = oids'.
Proof.
  intros [H1 P1] [H2 P2] E.
  destruct (decide (oids = [])) as [->|N1], (decide (oids' = [])) as [->|N2].
  - done.
  - pose proof (typed_key_like query' oids' N2) as K. rewrite <- E in K.
    change (key_like query = true) in K. rewrite P1 in K; done.
  - pose proof (typed_key_like query oids N1) as K. rewrite E in K.
    change (key_like query' = true) in K. rewrite P2 in K; done.
  - apply (f_equal bytes) in E. rewrite !dedupKey_bytes in E by done.
    apply digits_split in E as [El Er];
      [|apply decimal_digits, str_len_nonneg..|done|done].
    apply decimal_inj in El; [|apply str_len_nonneg..]. injection Er as Er.
    apply app_inj_1 in Er as [Eq Eo].
    + apply bytes_inj in Eq. apply bytes_inj in Eo. split; [done|]. by apply join_oids_inj.
    + pose proof (bytes_length query). pose proof (bytes_length query'). unfold len in *. lia.
Qed.

(** ** The pooler's canonical names *)

(** The names given to a sequence of requests, in order. *)
Fixpoint name_all (pc : PoolerConsolidator) (reqs : list (string * list Z)) : list string :=
  match reqs with
  | [] => []
  | (query, oids) :: reqs' => let '(pc', name) := CanonicalName pc query oids in name :: name_all pc' reqs'
  end.

Definition pooler_name (id : Z) : string := CanonicalNamePrefix +:+ Sprintf_d id.

Lemma pooler_name_inj i j : 0 <= i -> 0 <= j -> pooler_name i = pooler_name j -> i = j.
Proof.
  intros Hi Hj E. apply Sprintf_d_inj; [done..|]. apply (f_equal bytes) in E. unfold pooler_name in E.
  rewrite !bytes_app in E. apply app_inv_head in E. by apply bytes_inj.
Qed.

(** Names are numbered below [lastID] and no two keys share one. *)
Definition pooler_inv (pc : PoolerConsolidator) : Prop :=
  0 <= lastID pc /\
  (forall k n, pc_stmts pc !! k = Some n -> exists i, 0 <= i < lastID pc /\ n = pooler_name i) /\
  (forall k k' n, pc_stmts pc !! k = Some n -> pc_stmts pc !! k' = Some n -> k = k').

Lemma CanonicalName_spec pc query oids pc' name :
  pooler_inv pc -> CanonicalName pc query oids = (pc', name) ->
  pooler_inv pc' /\ pc_stmts pc' !! dedupKey query oids = Some name /\ pc_stmts pc ⊆ pc_stmts pc'.
Proof.
  intros (Hid & Hn & Hinj) E. unfold CanonicalName in E. destruct (pc_stmts pc !! _) as [n|] eqn:Ek; simplify_eq.
  - done.
  - cbn. split_and!; [|by rewrite lookup_insert_eq|by apply insert_subseteq].
    assert (forall k, pc_stmts pc !! k = Some (pooler_name (lastID pc)) -> False) as Hfresh.
    { intros k Hk. destruct (Hn _ _ Hk) as (i & Hi & Ei). apply pooler_name_inj in Ei; lia. }
    split_and!; cbn; [lia|..].
    + intros k n [[<- <-]|[Hne Hk]]%lookup_insert_Some; [exists (lastID pc); split; [lia|done]|].
      destruct (Hn _ _ Hk) as (i & Hi & ->). exists i. split; [lia|done].
    + intros k k' n [[<- <-]|[Hne Hk]]%lookup_insert_Some [[<- E]|[Hne' Hk']]%lookup_insert_Some; subst; try done.
      * by destruct (Hfresh k').
      * by destruct (Hfresh k).
      * by apply (Hinj _ _ n).
Qed.

Lemma name_all_key pc reqs : pooler_inv pc ->
  exists pc', pooler_inv pc' /\ pc_stmts pc ⊆ pc_stmts pc' /\
    Forall2 (fun req name => pc_stmts pc' !! dedupKey req.1 req.2 = Some name) reqs (name_all pc reqs).
Proof.
  revert pc. induction reqs as [|[q oids] reqs IH]; intros pc Hpc; cbn; [exists pc; done|].
  destruct (CanonicalName pc q oids) as [pc1 name] eqn:E.
  destruct (CanonicalName_spec _ _ _ _ _ Hpc E) as (H1 & Hk & Hsub). destruct (IH pc1 H1) as (pc2 & H2 & Hsub2 & HF).
  exists pc2. split_and!; [done|by trans (pc_stmts pc1)|]. constructor; [|done].
  by apply (lookup_weaken _ _ _ _ Hk).
Qed.

(** the pooler's canonical names identify statements.  Of any sequence of
    requests, two get the same name exactly when they ask for the same query text
    with the same parameter types. *)
Theorem canonical_names_identify (reqs : list (string * list Z)) i j q oids q' oids' :
  Forall (fun req => plain req.1 req.2) reqs ->
  reqs !! i = Some (q, oids) -> reqs !! j = Some (q', oids') ->
  (name_all NewPoolerConsolidator reqs !! i = name_all NewPoolerConsolidator reqs !! j
   <-> q = q' /\ oids = oids') /\
  is_Some (name_all NewPoolerConsolidator reqs !! i).
Proof.
  intros Hp Hi Hj. destruct (name_all_key NewPoolerConsolidator reqs) as (pc & (_ & _ & Hinj) & _ & HF).
  { split_and!; [done| |]; intros *; cbn; by rewrite lookup_empty. }
  destruct (Forall2_lookup_l _ _ _ _ _ HF Hi) as (n & Hni & Kn).
  destruct (Forall2_lookup_l _ _ _ _ _ HF Hj) as (n' & Hnj & Kn'). rewrite Hni, Hnj. split; [|done].
  rewrite Forall_lookup in Hp. pose proof (Hp _ _ Hi). pose proof (Hp _ _ Hj). cbn in *. split.
  - intros [= <-]. apply dedupKey_inj; [done..|]. by apply (Hinj _ _ n).
  - intros [-> ->]. congruence.
Qed.

Lemma canonical_names_identify_witness :
  let reqs := [("select $1", [23]); ("select $1", []); ("select $1", [23])] in
  name_all NewPoolerConsolidator reqs = ["ppstmt0"; "ppstmt1"; "ppstmt0"] /\
  (name_all NewPoolerConsolidator reqs !! 0%nat = name_all NewPoolerConsolidator reqs !! 2%nat
   <-> "select $1" = "select $1" /\ [23] = [23]).
Proof.
  split; [vm_compute; reflexivity|].
  apply (canonical_names_identify [("select $1", [23]); ("select $1", []); ("select $1", [23])] 0 2);
    [by_decide|reflexivity|reflexivity].
Defined.

(** ** The gateway's consolidator

    The abstract specification: every connection keeps its own statements, parsed
    each time, and nothing is shared. *)

Section refinement.
Context `{Parser}.

(** Any enumeration of a map's values. *)
Variable order : gmap string nat -> list nat.

Inductive request :=
| Parse (connId : Z) (name query : string) (oids : list Z)
| Close (connId : Z) (name : string)
| Disconnect (connId : Z).

Definition statement : Type := string * list Z * option Stmt.
Definition content (i : PreparedStatementInfo) : statement := (psi_Query i, psi_ParamTypes i, astStruct i).

Definition serve (c : Consolidator) (r : request) : Consolidator * option (PgDiagnostic + statement) :=
  match r with
  | Parse connId name query oids =>
      match AddPreparedStatement c connId name query oids with
      | (c', inl d) => (c', Some (inl d))
      | (c', inr p) => (c', (fun i => inr (content i)) <$> info c' p)
      end
  | Close connId name => (RemovePreparedStatement c connId name, None)
  | Disconnect connId => (RemoveConnection order c connId, None)
  end.

Fixpoint serve_all (c : Consolidator) (rs : list request) : Consolidator * list (option (PgDiagnostic + statement)) :=
  match rs with
  | [] => (c, [])
  | r :: rs' => let '(c1, a) := serve c r in let '(c2, l) := serve_all c1 rs' in (c2, a :: l)
  end.

Notation spec_state := (gmap (Z * string) statement).

Definition spec_parse (query : string) (oids : list Z) : PgDiagnostic + statement :=
  match NewPreparedStatementInfo "" query oids with inl d => inl d | inr i => inr (content i) end.

Definition spec_serve (m : spec_state) (r : request) : spec_state * option (PgDiagnostic + statement) :=
  match r with
  | Parse connId name query oids =>
      let m := if bool_decide (name = "") then m else delete (connId, name) m in
      match spec_parse query oids with
      | inl d => (m, Some (inl d))
      | inr st => (<[(connId, name) := st]> m, Some (inr st))
      end
  | Close connId name => (delete (connId, name) m, None)
  | Disconnect connId => (filter (fun kv => kv.1.1 <> connId) m, None)
  end.

Fixpoint spec_serve_all (m : spec_state) (rs : list request) : spec_state * list (option (PgDiagnostic + statement)) :=
  match rs with
  | [] => (m, [])
  | r :: rs' => let '(m1, a) := spec_serve m r in let '(m2, l) := spec_serve_all m1 rs' in (m2, a :: l)
  end.

Definition plain_request (r : request) : Prop :=
  match r with Parse _ _ query oids => plain query oids | _ => True end.

(** *** Invariant *)

Definition gateway_name (id : Z) : string := "stmt" +:+ Sprintf_d id.

Record consolidator_inv (c : Consolidator) : Prop := {
  inv_key k p : stmts c !! k = Some p -> exists i, info c p = Some i /\ k = dedupKey (psi_Query i) (psi_ParamTypes i);
  inv_parsed p i : info c p = Some i ->
    plain (psi_Query i) (psi_ParamTypes i) /\
    NewPreparedStatementInfo (psi_Name i) (psi_Query i) (psi_ParamTypes i) = inr i;
  inv_id : 0 <= lastUsedID c;
  inv_name p i : info c p = Some i -> exists n, 0 <= n < lastUsedID c /\ psi_Name i = gateway_name n;
  inv_unique p p' i i' : info c p = Some i -> info c p' = Some i' -> psi_Name i = psi_Name i' -> p = p'
}.

(** What a connection sees. *)
Definition sees (c : Consolidator) (connId : Z) (name : string) : option statement :=
  content <$> GetPreparedStatementInfo c connId name.

Definition refs_ok (c : Consolidator) : Prop :=
  forall connId name p, lookup_stmt c connId name = Some p -> is_Some (info c p).

Definition simulates (c : Consolidator) (m : spec_state) : Prop :=
  consolidator_inv c /\ refs_ok c /\ forall connId name, sees c connId name = m !! (connId, name).

(** Dropping entries of the shared maps: nothing a connection sees changes. *)
Definition shrinks (c c' : Consolidator) : Prop :=
  infos c' = infos c /\ lastUsedID c' = lastUsedID c /\ incoming c' = incoming c /\ stmts c' ⊆ stmts c.

#[local] Instance shrinks_preorder : PreOrder shrinks.
Proof.
  split; [done|]. intros a b c (?&?&?&?) (?&?&?&?). split_and!; [congruence..|]. by trans (stmts b).
Qed.

Lemma release_shrinks c p key : shrinks c (release c p key).
Proof. unfold release. case_match; split_and!; try done; cbn. apply delete_subseteq. Qed.

Lemma release_all_shrinks ps c : shrinks c (foldl (fun c p => release c p (key_of c p)) c ps).
Proof. revert c. induction ps as [|p ps IH]; intros c; [done|]. cbn. etrans; [apply release_shrinks|apply IH]. Qed.

Lemma inv_shrinks c c' : infos c' = infos c -> lastUsedID c' = lastUsedID c -> stmts c' ⊆ stmts c ->
  consolidator_inv c -> consolidator_inv c'.
Proof.
  intros Hi Hl Hs [Hk Hp Hid Hn Hu]. split; unfold info in *; rewrite ?Hi, ?Hl; eauto.
  intros k p Hkp. apply Hk. by apply (lookup_weaken _ _ _ _ Hkp).
Qed.

Lemma lookup_stmt_set c connId m connId' name :
  lookup_stmt (set_incoming c (<[connId := m]> (incoming c))) connId' name =
  if bool_decide (connId' = connId) then m !! name else lookup_stmt c connId' name.
Proof.
  unfold lookup_stmt, conn_stmts, set_incoming. cbn. case_bool_decide; subst.
  - by rewrite lookup_insert_eq.
  - by rewrite lookup_insert_ne.
Qed.

Lemma sees_lookup c c' connId name connId' name' :
  infos c' = infos c -> lookup_stmt c' connId' name' = lookup_stmt c connId name ->
  sees c' connId' name' = sees c connId name.
Proof. unfold sees, GetPreparedStatementInfo, info. by intros -> ->. Qed.

(** Forgetting some of what connections see. *)
Lemma simulates_drop (gone : Z -> string -> bool) c m c' m' :
  simulates c m -> infos c' = infos c -> lastUsedID c' = lastUsedID c -> stmts c' ⊆ stmts c ->
  (forall connId name, lookup_stmt c' connId name = if gone connId name then None else lookup_stmt c connId name) ->
  (forall connId name, m' !! (connId, name) = if gone connId name then None else m !! (connId, name)) ->
  simulates c' m'.
Proof.
  intros (Hinv & Hrefs & Hsee) Hi Hl Hs Hlook Hm. split_and!; [by apply (inv_shrinks c)|..].
  - intros connId name p. rewrite Hlook. unfold info. rewrite Hi. destruct (gone _ _); [done|]. apply Hrefs.
  - intros connId name. rewrite Hm. specialize (Hlook connId name). destruct (gone _ _).
    + unfold sees, GetPreparedStatementInfo. by rewrite Hlook.
    + rewrite <- Hsee. by apply sees_lookup.
Qed.

(** A connection's name now refers to a statement. *)
Lemma simulates_bind c m c' connId name p i :
  simulates c m -> consolidator_inv c' -> infos c `prefix_of` infos c' -> info c' p = Some i ->
  (forall connId' name', lookup_stmt c' connId' name' =
     if bool_decide ((connId', name') = (connId, name)) then Some p else lookup_stmt c connId' name') ->
  simulates c' (<[(connId, name) := content i]> m).
Proof.
  intros (_ & Hrefs & Hsee) Hinv' Hpre Hp Hlook.
  assert (forall q j, info c q = Some j -> info c' q = Some j) as Hmono
    by (intros q j Hq; by apply (prefix_lookup_Some (infos c))).
  split_and!; [done|..].
  - intros connId' name' q. rewrite Hlook. case_bool_decide; [by intros [= <-]; eexists|].
    intros Hq. destruct (Hrefs _ _ _ Hq) as [j Hj]. exists j. by apply Hmono.
  - intros connId' name'. unfold sees, GetPreparedStatementInfo. rewrite Hlook. case_bool_decide as Hk.
    + rewrite Hk, lookup_insert_eq. cbn. by rewrite Hp.
    + rewrite lookup_insert_ne by done. rewrite <- Hsee. unfold sees, GetPreparedStatementInfo.
      destruct (lookup_stmt c connId' name') as [q|] eqn:Hq; [|done]. cbn.
      destruct (Hrefs _ _ _ Hq) as [j Hj]. by rewrite Hj, (Hmono _ _ Hj).
Qed.

Lemma released_lookup c connId name p key connId' name' :
  let c1 := release c p key in
  lookup_stmt (set_incoming c1 (<[connId := delete name (conn_stmts c1 connId)]> (incoming c1))) connId' name' =
  if bool_decide ((connId', name') = (connId, name)) then None else lookup_stmt c connId' name'.
Proof.
  intros c1. rewrite lookup_stmt_set.
  assert (forall k n, lookup_stmt c1 k n = lookup_stmt c k n) as Hl.
  { intros. subst c1. unfold lookup_stmt, conn_stmts. by destruct (release_shrinks c p key) as (_ & _ & -> & _). }
  rewrite Hl. destruct (decide (connId' = connId)) as [->|].
  - rewrite bool_decide_true by done. destruct (decide (name' = name)) as [->|].
    + by rewrite lookup_delete_eq, bool_decide_true.
    + rewrite lookup_delete_ne, bool_decide_false by congruence. apply Hl.
  - by rewrite !bool_decide_false by congruence.
Qed.

Lemma simulates_release c m connId name p key :
  simulates c m ->
  let c1 := release c p key in
  simulates (set_incoming c1 (<[connId := delete name (conn_stmts c1 connId)]> (incoming c1)))
    (delete (connId, name) m).
Proof.
  intros Hs c1. destruct (release_shrinks c p key) as (Hi & Hl & _ & Hst).
  apply (simulates_drop (fun k n => bool_decide ((k, n) = (connId, name))) c m); try done.
  - intros. apply released_lookup.
  - intros k n. case_bool_decide as E; [by rewrite E, lookup_delete_eq|by rewrite lookup_delete_ne].
Qed.

Lemma simulates_absent c m connId name :
  simulates c m -> lookup_stmt c connId name = None -> delete (connId, name) m = m.
Proof.
  intros (_ & _ & Hsee) Hn. apply delete_id. rewrite <- Hsee. unfold sees, GetPreparedStatementInfo. by rewrite Hn.
Qed.

Lemma simulates_remove c m connId name :
  simulates c m -> simulates (RemovePreparedStatement c connId name) (delete (connId, name) m).
Proof.
  intros Hs. unfold RemovePreparedStatement. destruct (lookup_stmt c connId name) as [p|] eqn:E.
  - by apply simulates_release.
  - by rewrite (simulates_absent c).
Qed.

Lemma simulates_replace c m connId name :
  simulates c m ->
  simulates (replace_existing c connId name) (if bool_decide (name = "") then m else delete (connId, name) m).
Proof.
  intros Hs. unfold replace_existing. destruct (lookup_stmt c connId name) as [p|] eqn:E; case_bool_decide; try done.
  - by apply simulates_release.
  - by rewrite (simulates_absent c).
Qed.

Lemma simulates_disconnect c m connId :
  simulates c m -> simulates (RemoveConnection order c connId) (filter (fun kv => kv.1.1 <> connId) m).
Proof.
  intros Hs. set (gone (k : Z) (n : string) := bool_decide (k = connId)).
  assert (forall k n, filter (fun kv : Z * string * statement => kv.1.1 <> connId) m !! (k, n) =
            if gone k n then None else m !! (k, n)) as Hm.
  { intros k n. rewrite map_lookup_filter. subst gone. cbn. destruct (m !! (k, n)); cbn; case_bool_decide; try done.
    - by rewrite option_guard_False by (intros Hne; by apply Hne).
    - by rewrite option_guard_True. }
  unfold RemoveConnection. destruct (incoming c !! connId) as [cs|] eqn:E.
  - destruct (release_all_shrinks (order cs) c) as (Hi & Hl & Hin & Hst).
    apply (simulates_drop gone c m); try done. intros k n. subst gone. cbn. unfold lookup_stmt, conn_stmts. cbn.
    rewrite Hin. case_bool_decide; subst; [by rewrite lookup_delete_eq|by rewrite lookup_delete_ne].
  - apply (simulates_drop gone c m); try done. intros k n. subst gone. cbn. case_bool_decide; [subst|done].
    unfold lookup_stmt, conn_stmts. by rewrite E.
Qed.

Lemma gateway_name_inj i j : 0 <= i -> 0 <= j -> gateway_name i = gateway_name j -> i = j.
Proof.
  intros Hi Hj E. apply Sprintf_d_inj; [done..|]. apply (f_equal bytes) in E. unfold gateway_name in E.
  rewrite !bytes_app in E. apply app_inv_head in E. by apply bytes_inj.
Qed.

(** The outcome of parsing does not depend on the name. *)
Lemma parse_name name query oids :
  match NewPreparedStatementInfo name query oids with
  | inl d => spec_parse query oids = inl d
  | inr i => spec_parse query oids = inr (content i) /\
             psi_Name i = name /\ psi_Query i = query /\ psi_ParamTypes i = oids
  end.
Proof. unfold spec_parse, NewPreparedStatementInfo. repeat case_match; simplify_eq; done. Qed.

(** A new statement enters the store under a fresh name. *)
Lemma inv_extend c i key :
  consolidator_inv c -> plain (psi_Query i) (psi_ParamTypes i) ->
  NewPreparedStatementInfo (psi_Name i) (psi_Query i) (psi_ParamTypes i) = inr i ->
  psi_Name i = gateway_name (lastUsedID c) -> key = dedupKey (psi_Query i) (psi_ParamTypes i) ->
  forall inc use,
  consolidator_inv (mkConsolidator (<[key := length (infos c)]> (stmts c)) inc use (lastUsedID c + 1) (infos c ++ [i])).
Proof.
  intros [Hk Hp Hid Hn Hu] Hpl Hpa Hname -> inc use.
  assert (forall p j, (infos c ++ [i]) !! p = Some j -> infos c !! p = Some j \/ p = length (infos c) /\ j = i) as Hcase.
  { intros p j [Hj|[Hge Hj]]%lookup_app_Some; [by left|right].
    apply list_lookup_singleton_Some in Hj as [??]. split; [lia|done]. }
  assert (forall p j, infos c !! p = Some j -> psi_Name j = psi_Name i -> False) as Hfresh.
  { intros p j Hj E. destruct (Hn _ _ Hj) as (n & Hb & En). rewrite En, Hname in E. apply gateway_name_inj in E; lia. }
  split; unfold info; cbn; [..|lia| |].
  - intros k p [[<- <-]|[_ Hs]]%lookup_insert_Some.
    + exists i. by rewrite list_lookup_middle.
    + destruct (Hk _ _ Hs) as (j & Hj & ->). exists j. split; [|done]. by apply lookup_app_l_Some.
  - intros p j [Hj|[-> ->]]%Hcase; [by apply (Hp p)|done].
  - intros p j [Hj|[-> ->]]%Hcase; [|exists (lastUsedID c); split; [lia|done]].
    destruct (Hn _ _ Hj) as (n & Hb & ->). exists n. split; [lia|done].
  - intros p p' j j' [Hj|[-> ->]]%Hcase [Hj'|[-> ->]]%Hcase E; [by apply (Hu p p' j j')|..|done].
    + by destruct (Hfresh p j).
    + by destruct (Hfresh p' j').
Qed.

Lemma inv_next_id c : consolidator_inv c ->
  consolidator_inv (mkConsolidator (stmts c) (incoming c) (usageCount c) (lastUsedID c + 1) (infos c)).
Proof.
  intros [Hk Hp Hid Hn Hu]. split; unfold info in *; cbn; eauto; [lia|].
  intros p i Hi. destruct (Hn _ _ Hi) as (n & Hb & ->). exists n. split; [lia|done].
Qed.

(** Rebinding one name of one connection. *)
Lemma bind_lookup c connId name p stm use id inf connId' name' :
  lookup_stmt (mkConsolidator stm (<[connId := <[name := p]> (conn_stmts c connId)]> (incoming c)) use id inf)
    connId' name' =
  if bool_decide ((connId', name') = (connId, name)) then Some p else lookup_stmt c connId' name'.
Proof.
  unfold lookup_stmt, conn_stmts. cbn. destruct (decide (connId' = connId)) as [->|].
  - rewrite lookup_insert_eq. cbn. destruct (decide (name' = name)) as [->|].
    + by rewrite lookup_insert_eq, bool_decide_true.
    + by rewrite lookup_insert_ne, bool_decide_false by congruence.
  - by rewrite lookup_insert_ne, bool_decide_false by congruence.
Qed.

Lemma simulates_init c m connId :
  simulates c m -> simulates (set_incoming c (<[connId := conn_stmts c connId]> (incoming c))) m.
Proof.
  intros Hs. apply (simulates_drop (fun _ _ => false) c m); try done.
  intros k n. rewrite lookup_stmt_set. case_bool_decide; [by subst|done].
Qed.

Lemma simulates_add c m connId name query oids c' r :
  simulates c m -> plain query oids -> AddPreparedStatement c connId name query oids = (c', r) ->
  let m0 := if bool_decide (name = "") then m else delete (connId, name) m in
  match spec_parse query oids with
  | inl d => r = inl d /\ simulates c' m0
  | inr st => exists p i, r = inr p /\ info c' p = Some i /\ content i = st /\ simulates c' (<[(connId, name) := st]> m0)
  end.
Proof.
  intros Hs Hpl E m0. unfold AddPreparedStatement in E.
  pose proof (simulates_replace _ _ connId name (simulates_init c m connId Hs)) as Hs1.
  fold m0 in Hs1. revert E Hs1. generalize (replace_existing (set_incoming c (<[connId := conn_stmts c connId]> (incoming c))) connId name).
  intros c1 E Hs1. pose proof Hs1 as (Hinv & _ & _). destruct (stmts c1 !! _) as [p|] eqn:Ek.
  - injection E as <- <-. destruct (inv_key _ Hinv _ _ Ek) as (i & Hi & Hk).
    destruct (inv_parsed _ Hinv _ _ Hi) as [Hpi Hni].
    apply dedupKey_inj in Hk as [-> ->]; [|done..].
    pose proof (parse_name (psi_Name i) (psi_Query i) (psi_ParamTypes i)) as Hp. rewrite Hni in Hp.
    destruct Hp as [-> _]. exists p, i. split_and!; [done..|].
    apply (simulates_bind c1 _ _ _ _ p); [done| |done|done|].
    + by apply (inv_shrinks c1).
    + intros. apply bind_lookup.
  - pose proof (parse_name (gateway_name (lastUsedID c1)) query oids) as Hp. unfold gateway_name at 1 in Hp.
    destruct (NewPreparedStatementInfo _ query oids) as [d|i] eqn:En; injection E as <- <-.
    + rewrite Hp. split; [done|]. destruct Hs1 as (_ & Hrefs & Hsee).
      split_and!; [by apply inv_next_id|exact Hrefs|exact Hsee].
    + destruct Hp as (-> & Hname & Hq & Ho). exists (length (infos c1)), i.
      assert (info (mkConsolidator (<[dedupKey query oids := length (infos c1)]> (stmts c1))
         (<[connId := <[name := length (infos c1)]> (conn_stmts c1 connId)]> (incoming c1))
         (bump (usageCount c1) (length (infos c1)) 1) (lastUsedID c1 + 1) (infos c1 ++ [i]))
         (length (infos c1)) = Some i) as Hi by (unfold info; cbn; by rewrite list_lookup_middle).
      split_and!; [done..|]. apply (simulates_bind c1 _ _ _ _ (length (infos c1))); [done| | |done|].
      * apply inv_extend; [done|..]; subst; try done. by rewrite Hname.
      * by apply prefix_app_r.
      * intros. apply bind_lookup.
Qed.

Lemma serve_refines c m r c' a m' a' :
  simulates c m -> plain_request r -> serve c r = (c', a) -> spec_serve m r = (m', a') ->
  a = a' /\ simulates c' m'.
Proof.
  intros Hs Hr E E'. destruct r as [k n q oids|k n|k]; cbn in *.
  - destruct (AddPreparedStatement c k n q oids) as [c1 r1] eqn:EA.
    pose proof (simulates_add _ _ _ _ _ _ _ _ Hs Hr EA) as HA. destruct (spec_parse q oids) as [d|st].
    + destruct HA as [-> HA]. by simplify_eq.
    + destruct HA as (p & i & -> & Hi & <- & HA). simplify_eq. by rewrite Hi.
  - simplify_eq. split; [done|]. by apply simulates_remove.
  - simplify_eq. split; [done|]. by apply simulates_disconnect.
Qed.

Lemma serve_all_refines rs c m :
  simulates c m -> Forall plain_request rs ->
  (serve_all c rs).2 = (spec_serve_all m rs).2 /\ simulates (serve_all c rs).1 (spec_serve_all m rs).1.
Proof.
  intros Hs HF. revert c m Hs. induction HF as [|r rs Hr HF IH]; intros c m Hs; [done|]. cbn.
  destruct (serve c r) as [c1 a] eqn:E, (spec_serve m r) as [m1 a'] eqn:E'.
  destruct (serve_refines _ _ _ _ _ _ _ Hs Hr E E') as [-> Hs1]. destruct (IH _ _ Hs1) as [H1 H2].
  destruct (serve_all c1 rs), (spec_serve_all m1 rs). cbn in *. by subst.
Qed.

Lemma simulates_initial : simulates NewConsolidator ∅.
Proof.
  split_and!.
  - split; unfold info; cbn; intros *; by rewrite ?lookup_empty, ?lookup_nil.
  - intros k n p. unfold lookup_stmt, conn_stmts. cbn. by rewrite lookup_empty.
  - intros k n. unfold sees, GetPreparedStatementInfo, lookup_stmt, conn_stmts. cbn. by rewrite !lookup_empty.
Qed.

End refinement.

(** ** A small parser for concrete runs *)

#[local] Instance select_parser : Parser := {|
  Stmt := string;
  ParseSQL q :=
    if bool_decide (q = "") then inr []
    else if String.prefix "select" q then inr [q]
    else inl (ParseSyntaxError "syntax error" "" "" 1)
|}.

Definition list_values (m : gmap string nat) : list nat := (map_to_list m).*2.

(** C27: consolidation is transparent for plain requests.  A parse is plain when
    its parameter types are OIDs and, if it declares none, its text does not read
    like the key of a typed statement ([plain]); without that the claim fails, as
    [untyped_query_hits_typed_key] shows.  Whatever plain statements the connections
    parse, close and disconnect, in any order, the consolidator answers each
    request, and serves each connection, exactly as if every connection kept its
    own parsed statements: same diagnostics, same query, parameter types and parse
    tree under every name.  Two names lead to the same canonical name only when
    they are the same statement. *)
Theorem consolidation_transparent `{Parser} order (rs : list request) :
  Forall plain_request rs ->
  let c := (serve_all order NewConsolidator rs).1 in
  (serve_all order NewConsolidator rs).2 = (spec_serve_all ∅ rs).2 /\
  (forall connId name, sees c connId name = (spec_serve_all ∅ rs).1 !! (connId, name)) /\
  (forall connId name connId' name' i i',
     GetPreparedStatementInfo c connId name = Some i -> GetPreparedStatementInfo c connId' name' = Some i' ->
     psi_Name i = psi_Name i' -> i = i').
Proof.
  intros HF c. destruct (serve_all_refines order rs _ _ simulates_initial HF) as [Ha (Hinv & _ & Hsee)].
  fold c in Hinv, Hsee. split_and!; [done..|]. intros k n k' n' i i' Hi Hi' E. unfold GetPreparedStatementInfo in *.
  destruct (lookup_stmt c k n) as [p|], (lookup_stmt c k' n') as [p'|]; try done. cbn in *.
  rewrite (inv_unique _ Hinv _ _ _ _ Hi Hi' E) in Hi. congruence.
Qed.

Lemma consolidation_transparent_witness :
  let rs := [Parse 1 "a" "select 1" [23]; Parse 2 "b" "select 1" [23]; Parse 2 "b" "drop" []; Disconnect 1] in
  (serve_all list_values NewConsolidator rs).2 =
    [Some (inr ("select 1", [23], Some "select 1")); Some (inr ("select 1", [23], Some "select 1"));
     Some (inl (set_Position 1 (NewParseError "syntax error"))); None] /\
  sees (serve_all list_values NewConsolidator rs).1 2 "b" = (spec_serve_all ∅ rs).1 !! (2, "b").
Proof.
  split; [vm_compute; reflexivity|].
  apply (consolidation_transparent list_values
    [Parse 1 "a" "select 1" [23]; Parse 2 "b" "select 1" [23]; Parse 2 "b" "drop" []; Disconnect 1]).
  repeat constructor; by_decide.
Defined.

(** ** Where sharing and release fall short *)

(** Replacing a typed statement releases the entry of its bare query text: the
    replaced statement stays in the map with no user, and the untyped statement
    another connection still uses is forgotten, so the next connection to prepare
    it gets a second copy. *)
Example replaced_typed_statement_leaks :
  let rs := [Parse 1 "a" "select $1" [23]; Parse 2 "b" "select $1" []; Parse 1 "a" "select 2" []] in
  let c := (serve_all list_values NewConsolidator rs).1 in
  stmts c !! dedupKey "select $1" [23] = Some 0%nat /\ usage c 0 = 0 /\
  lookup_stmt c 2 "b" = Some 1%nat /\ stmts c !! "select $1" = None /\
  (AddPreparedStatement c 3 "c" "select $1" []).2 = inr 3%nat.
Proof. vm_compute. repeat split. Qed.

(** Parsing the unnamed statement again does not release the one it replaces: after
    the connection is gone, its entry and its count remain. *)
Example reparsed_unnamed_statement_leaks :
  let rs := [Parse 1 "" "select 1" []; Parse 1 "" "select 2" []; Disconnect 1] in
  let c := (serve_all list_values NewConsolidator rs).1 in
  incoming c = ∅ /\ stmts c !! "select 1" = Some 0%nat /\ usage c 0 = 1.
Proof. vm_compute. repeat split. Qed.

(** An untyped query text that spells a typed key is taken for that statement: it
    is answered with it instead of the parser's error. *)
Example untyped_query_hits_typed_key :
  dedupKey "8:select 123" [] = dedupKey "select 1" [23] /\
  (serve_all list_values NewConsolidator
     [Parse 1 "a" "select 1" [23]; Parse 2 "b" "8:select 123" []]).2 !! 1%nat =
    Some (Some (inr ("select 1", [23], Some "select 1"))) /\
  spec_parse "8:select 123" [] = inl (set_Position 1 (NewParseError "syntax error")).
Proof. vm_compute. repeat split. Qed.
