(* ===== verification/FailoverBuffer.v ===== *)
(** The gateway's failover buffer: services/multigateway/buffer (buffer.go,
    shard_buffer.go, timeout_thread.go, config.go).

    Requests for a shard whose primary is failing over wait in one global queue,
    under a semaphore of buffer-size slots; a timeout goroutine evicts them, a new
    primary drains them.  A critical section is one function on the shared state
    [Buffer]; what a goroutine does between two critical sections is its program
    counter [thread], and the goroutines interleave freely ([step]).  Releasing a
    slot that is not held and closing a channel twice panic in Go; here they set
    [panicked].  Metrics and logs are left out. *)

From stdpp Require Import base gmap numbers list strings.
From S2P Require Import Prelude.

Local Open Scope Z_scope.

(** ** Configuration *)

Record Config := mkConfig {
  Enabled : bool;
  Window : Z;
  Size : Z;
  MaxFailoverDuration : Z;
  MinTimeBetweenFailovers : Z;
  DrainConcurrency : Z
}.

Definition Validate (c : Config) : option gerror :=
  if negb (Enabled c) then None
  else if Size c <? 1 then Some (err "buffer-size must be >= 1, got %d")
  else if Window c <=? 0 then Some (err "buffer-window must be > 0, got %s")
  else if MaxFailoverDuration c <=? 0 then Some (err "buffer-max-failover-duration must be > 0, got %s")
  else if MinTimeBetweenFailovers c <? 0 then Some (err "buffer-min-time-between-failovers must be >= 0, got %s")
  else if DrainConcurrency c <? 1 then Some (err "buffer-drain-concurrency must be >= 1, got %d")
  else if MaxFailoverDuration c <? Window c
  then Some (err "buffer-window (%s) must be <= buffer-max-failover-duration (%s)")
  else None.

(** ** State *)

Definition MTB01 : gerror := err "failover buffer full".
Definition MTB02 : gerror := err "failover buffer timeout".
Definition MTB03 : gerror := err "failover buffer shutting down".

(** A buffered request; [done] and [bufferCtx] are channels, here whether they are
    closed. *)
Record entry := mkEntry {
  done : bool;
  deadline : Z;
  e_err : option gerror;
  bufferCtx : bool;
  shardKey : string
}.

(** Entries are shared, so they live in a store and are named by reference. *)
Notation ref := nat (only parsing).

Inductive bufferState := stateIdle | stateBuffering | stateDraining.

#[export] Instance bufferState_eq_dec : EqDecision bufferState.
Proof. solve_decision. Defined.

Record shardBuffer := mkShardBuffer {
  state : bufferState;
  lastStart : Z;
  lastEnd : option Z;
  generation : Z;
  maxDurationTimer : option Z;
  drainWg : Z
}.

Definition newShardBuffer : shardBuffer := mkShardBuffer stateIdle 0 None 0 None 0.

Record Buffer := mkBuffer {
  clock : Z;
  entries : list entry;
  bufferSizeSema : Z;
  queue : list ref;
  stopped : bool;
  ctxDone : bool;
  buffers : gmap string shardBuffer;
  notifyCh : bool;
  stopCh : bool;
  panicked : bool
}.

Definition New (now : Z) : Buffer := mkBuffer now [] 0 [] false false ∅ false false false.

(** *** Field updates *)

Definition set_entries (b : Buffer) (l : list entry) : Buffer :=
  mkBuffer (clock b) l (bufferSizeSema b) (queue b) (stopped b) (ctxDone b) (buffers b) (notifyCh b) (stopCh b) (panicked b).
Definition set_sema (b : Buffer) (n : Z) : Buffer :=
  mkBuffer (clock b) (entries b) n (queue b) (stopped b) (ctxDone b) (buffers b) (notifyCh b) (stopCh b) (panicked b).
Definition set_queue (b : Buffer) (q : list ref) : Buffer :=
  mkBuffer (clock b) (entries b) (bufferSizeSema b) q (stopped b) (ctxDone b) (buffers b) (notifyCh b) (stopCh b) (panicked b).
Definition set_buffers (b : Buffer) (m : gmap string shardBuffer) : Buffer :=
  mkBuffer (clock b) (entries b) (bufferSizeSema b) (queue b) (stopped b) (ctxDone b) m (notifyCh b) (stopCh b) (panicked b).
Definition set_notifyCh (b : Buffer) (x : bool) : Buffer :=
  mkBuffer (clock b) (entries b) (bufferSizeSema b) (queue b) (stopped b) (ctxDone b) (buffers b) x (stopCh b) (panicked b).
Definition set_stopCh (b : Buffer) : Buffer :=
  mkBuffer (clock b) (entries b) (bufferSizeSema b) (queue b) (stopped b) (ctxDone b) (buffers b) (notifyCh b) true (panicked b).
Definition set_stopped (b : Buffer) : Buffer :=
  mkBuffer (clock b) (entries b) (bufferSizeSema b) (queue b) true (ctxDone b) (buffers b) (notifyCh b) (stopCh b) (panicked b).
Definition cancel (b : Buffer) : Buffer :=
  mkBuffer (clock b) (entries b) (bufferSizeSema b) (queue b) (stopped b) true (buffers b) (notifyCh b) (stopCh b) (panicked b).
Definition tick (b : Buffer) (d : Z) : Buffer :=
  mkBuffer (clock b + d) (entries b) (bufferSizeSema b) (queue b) (stopped b) (ctxDone b) (buffers b) (notifyCh b) (stopCh b) (panicked b).
Definition panic (b : Buffer) : Buffer :=
  mkBuffer (clock b) (entries b) (bufferSizeSema b) (queue b) (stopped b) (ctxDone b) (buffers b) (notifyCh b) (stopCh b) true.

(** ** Channels and the semaphore *)

(** [timeoutThread.stop]: a second call closes the channel twice. *)
Definition close_stopCh (b : Buffer) : Buffer := if stopCh b then panic b else set_stopCh b.

(** [close(e.done)]. *)
Definition close_done (b : Buffer) (e : ref) : Buffer :=
  match entries b !! e with
  | Some x =>
      if done x then panic b
      else set_entries b (<[e := mkEntry true (deadline x) (e_err x) (bufferCtx x) (shardKey x)]> (entries b))
  | None => panic b
  end.

Definition set_err (b : Buffer) (e : ref) (er : gerror) : Buffer :=
  set_entries b (alter (fun x => mkEntry (done x) (deadline x) (Some er) (bufferCtx x) (shardKey x)) e (entries b)).

(** [e.bufferCancel()]. *)
Definition bufferCancel (b : Buffer) (e : ref) : Buffer :=
  set_entries b (alter (fun x => mkEntry (done x) (deadline x) (e_err x) true (shardKey x)) e (entries b)).

(** [<-e.bufferCtx.Done()] proceeds: canceled itself or through the buffer's context. *)
Definition bufferCtx_Done (b : Buffer) (e : ref) : bool :=
  ctxDone b || default false (bufferCtx <$> entries b !! e).

Definition TryAcquire (c : Config) (b : Buffer) : option Buffer :=
  if bufferSizeSema b <? Size c then Some (set_sema b (bufferSizeSema b + 1)) else None.

(** [bufferSizeSema.Release(1)]: panics when released more than held. *)
Definition Release (b : Buffer) : Buffer :=
  if bufferSizeSema b <? 1 then panic b else set_sema b (bufferSizeSema b - 1).

(** ** The queue (buffer.go) *)

(** [timeoutThread.notify]: a send that never blocks. *)
Definition notify (b : Buffer) : Buffer := set_notifyCh b true.

(** The append and notification that end [enqueue]. *)
Definition append_entry (c : Config) (b : Buffer) (sh : string) : Buffer * ref :=
  let e := length (entries b) in
  let b := set_entries b (entries b ++ [mkEntry false (clock b + Window c) None false sh]) in
  let b := set_queue b (queue b ++ [e]) in
  (if len (queue b) =? 1 then notify b else b, e).

Definition enqueue (c : Config) (b : Buffer) (sh : string) : Buffer * (gerror + ref) :=
  if stopped b then (b, inl MTB03)
  else
    match TryAcquire c b with
    | Some b => let '(b, e) := append_entry c b sh in (b, inr e)
    | None =>
        match queue b with
        | [] => (b, inl MTB01)
        | oldest :: rest =>
            let b := set_queue b rest in
            let b := close_done (set_err b oldest MTB01) oldest in
            let '(b, e) := append_entry c b sh in (b, inr e)
        end
    end.

Fixpoint remove_first (e : ref) (q : list ref) : list ref :=
  match q with
  | [] => []
  | qe :: q' => if bool_decide (qe = e) then q' else qe :: remove_first e q'
  end.

Definition removeEntry (b : Buffer) (e : ref) : Buffer :=
  if bool_decide (e ∈ queue b) then Release (set_queue b (remove_first e (queue b))) else b.

Definition key_of_entry (b : Buffer) (e : ref) : option string := shardKey <$> entries b !! e.

Definition drainEntriesForShard (b : Buffer) (sh : string) : Buffer * list ref :=
  (set_queue b (filter (fun e => key_of_entry b e <> Some sh) (queue b)),
   filter (fun e => key_of_entry b e = Some sh) (queue b)).

(** ** Shards (shard_buffer.go) *)

Definition getOrCreateShardBuffer (b : Buffer) (sh : string) : Buffer :=
  match buffers b !! sh with
  | Some _ => b
  | None => set_buffers b (<[sh := newShardBuffer]> (buffers b))
  end.

Definition upd_shard (b : Buffer) (sh : string) (f : shardBuffer -> shardBuffer) : Buffer :=
  set_buffers b (alter f sh (buffers b)).

Definition set_state (s : bufferState) (sb : shardBuffer) : shardBuffer :=
  mkShardBuffer s (lastStart sb) (lastEnd sb) (generation sb) (maxDurationTimer sb) (drainWg sb).
Definition add_drainWg (d : Z) (sb : shardBuffer) : shardBuffer :=
  mkShardBuffer (state sb) (lastStart sb) (lastEnd sb) (generation sb) (maxDurationTimer sb) (drainWg sb + d).
Definition stop_timer (sb : shardBuffer) : shardBuffer :=
  mkShardBuffer (state sb) (lastStart sb) (lastEnd sb) (generation sb) None (drainWg sb).

(** What the critical section at the head of the wait functions decides. *)
Inductive decision := RetryNow | NotBuffered | JoinQueue | StartBuffering (gen : Z).

Definition waitIfAlreadyBuffering (sb : shardBuffer) : decision :=
  match state sb with
  | stateBuffering => JoinQueue
  | stateDraining => RetryNow
  | stateIdle => NotBuffered
  end.

Definition too_soon (c : Config) (now : Z) (sb : shardBuffer) : bool :=
  match lastEnd sb with
  | Some t => now - t <? MinTimeBetweenFailovers c
  | None => false
  end.

Definition waitForFailoverEnd (c : Config) (now : Z) (sb : shardBuffer) : shardBuffer * decision :=
  match state sb with
  | stateDraining => (sb, RetryNow)
  | stateBuffering => (sb, JoinQueue)
  | stateIdle =>
      if too_soon c now sb then (sb, NotBuffered)
      else
        let gen := wrapu64 (generation sb + 1) in
        (mkShardBuffer stateBuffering now (lastEnd sb) gen (Some gen) (drainWg sb), StartBuffering gen)
  end.

(** The first critical section of [stopBuffering]: whether it goes on to drain. *)
Definition stopBuffering (now gen : Z) (sb : shardBuffer) : shardBuffer * bool :=
  if negb (bool_decide (state sb = stateBuffering)) then (sb, false)
  else if negb (gen =? 0) && negb (generation sb =? gen) then (sb, false)
  else (mkShardBuffer stateDraining (lastStart sb) (Some now) (generation sb) None (drainWg sb), true).

(** ** Shutdown's critical section *)

Definition evict_all (b : Buffer) : Buffer :=
  set_queue (foldl (fun b e => close_done (set_err b e MTB03) e) b (queue b)) [].

Definition Shutdown_shard (sb : shardBuffer) : shardBuffer :=
  let sb := stop_timer sb in
  if bool_decide (state sb = stateBuffering) then set_state stateIdle sb else sb.

Definition Shutdown (b : Buffer) : Buffer :=
  let b := evict_all (set_stopped b) in
  set_buffers b (Shutdown_shard <$> buffers b).

(** ** The timeout goroutine (timeout_thread.go) *)

(** [evictHead]'s critical section: the entry taken off the queue, if expired. *)
Definition evictHead (b : Buffer) : Buffer * option ref :=
  match queue b with
  | [] => (b, None)
  | head :: rest =>
      match entries b !! head with
      | Some x => if clock b <? deadline x then (b, None) else (set_queue b rest, Some head)
      | None => (panic b, None)
      end
  end.

(** ** Goroutines *)

(** How far a draining entry has come: to be started, its [done] about to be
    closed, its retry awaited, its slot about to be released. *)
Inductive drain_stage := Closing | Retried | Finishing.

Inductive thread :=
(** A request: [WaitForFailoverEnd], or [WaitIfAlreadyBuffering] when proactive. *)
| Call (proactive : bool) (sh : string)
| Dispatch (proactive : bool) (sh : string)
| Enqueue (sh : string)
| Waiting (e : ref)
| Removing (e : ref)
| Cancelling (e : ref)
| Retrying (e : option ref)
| Returned (r : option gerror)
(** The max-duration timer of a failover, and [stopBuffering]. *)
| Timer (sh : string) (gen at_ : Z)
| Stop (sh : string) (gen : Z)
| Extract (sh : string)
| Launch (sh : string) (es : list ref)
| Drain (sh : string) (todo : list ref) (running : list (ref * drain_stage))
| DrainDone (sh : string)
(** [Shutdown]. *)
| ShutReady
| ShutCancel (shs : list string)
| ShutWait (shs : list string)
| ShutStop
| ShutReturned
(** The timeout goroutine: at the top of the loop, blocked on an empty queue,
    holding the head's deadline, blocked on the timer, evicting. *)
| TTop
| TBlocked
| THead (d : Z)
| TTimer (d : Z)
| TEvict
| TTaken (e : ref)
| TReleased (e : ref)
| TStopped.

(** The goroutine [StartBuffering] leaves behind. *)
Definition started (c : Config) (b : Buffer) (sh : string) (d : decision) : list thread :=
  match d with StartBuffering gen => [Timer sh gen (clock b + MaxFailoverDuration c)] | _ => [] end.

Definition next (sh : string) (d : decision) : thread :=
  match d with
  | RetryNow => Retrying None
  | NotBuffered => Returned None
  | JoinQueue | StartBuffering _ => Enqueue sh
  end.

Definition after_enqueue (r : gerror + ref) : thread :=
  match r with inl er => Returned (Some er) | inr e => Waiting e end.

(** One step of a goroutine: its next program counter, the shared state, and the
    goroutines it starts. *)
Inductive thread_step (c : Config) : thread -> Buffer -> thread -> Buffer -> list thread -> Prop :=
| step_disabled p sh b : Enabled c = false -> thread_step c (Call p sh) b (Returned None) b []
| step_create sh b :
    Enabled c = true -> thread_step c (Call false sh) b (Dispatch false sh) (getOrCreateShardBuffer b sh) []
| step_find sh b :
    Enabled c = true ->
    thread_step c (Call true sh) b (if buffers b !! sh then Dispatch true sh else Returned None) b []
| step_proactive sh b sb :
    buffers b !! sh = Some sb ->
    thread_step c (Dispatch true sh) b (next sh (waitIfAlreadyBuffering sb)) b []
| step_wait sh b sb sb' d :
    buffers b !! sh = Some sb -> waitForFailoverEnd c (clock b) sb = (sb', d) ->
    thread_step c (Dispatch false sh) b (next sh d) (set_buffers b (<[sh := sb']> (buffers b))) (started c b sh d)
| step_enqueue sh b b' r :
    enqueue c b sh = (b', r) -> thread_step c (Enqueue sh) b (after_enqueue r) b' []
| step_resume e b x :
    entries b !! e = Some x -> done x = true ->
    thread_step c (Waiting e) b (match e_err x with Some er => Returned (Some er) | None => Retrying (Some e) end) b []
| step_context e b : thread_step c (Waiting e) b (Removing e) b []
| step_remove e b : thread_step c (Removing e) b (Cancelling e) (removeEntry b e) []
| step_cancel e b : thread_step c (Cancelling e) b (Returned (Some (err "context canceled"))) (bufferCancel b e) []
| step_retried e b : thread_step c (Retrying (Some e)) b (Returned None) (bufferCancel b e) []
| step_retried_free b : thread_step c (Retrying None) b (Returned None) b []
| step_fire sh gen t b sb :
    buffers b !! sh = Some sb -> maxDurationTimer sb = Some gen -> t <= clock b ->
    thread_step c (Timer sh gen t) b (Stop sh gen) b []
| step_stop sh gen b sb sb' go :
    buffers b !! sh = Some sb -> stopBuffering (clock b) gen sb = (sb', go) ->
    thread_step c (Stop sh gen) b (if go then Extract sh else Returned None)
      (set_buffers b (<[sh := sb']> (buffers b))) []
| step_stop_unknown sh gen b : buffers b !! sh = None -> thread_step c (Stop sh gen) b (Returned None) b []
| step_extract sh b b' es :
    drainEntriesForShard b sh = (b', es) -> thread_step c (Extract sh) b (Launch sh es) b' []
| step_launch_none sh b :
    thread_step c (Launch sh []) b (Returned None) (upd_shard b sh (set_state stateIdle)) []
| step_launch sh e es b :
    thread_step c (Launch sh (e :: es)) b (Returned None) (upd_shard b sh (add_drainWg 1)) [Drain sh (e :: es) []]
| step_drain_start sh e todo running b :
    len running < DrainConcurrency c ->
    thread_step c (Drain sh (e :: todo) running) b (Drain sh todo ((e, Closing) :: running)) b []
| step_drain_close sh e todo r1 r2 b :
    thread_step c (Drain sh todo (r1 ++ (e, Closing) :: r2)) b (Drain sh todo (r1 ++ (e, Retried) :: r2))
      (close_done b e) []
| step_drain_retried sh e todo r1 r2 b :
    bufferCtx_Done b e = true ->
    thread_step c (Drain sh todo (r1 ++ (e, Retried) :: r2)) b (Drain sh todo (r1 ++ (e, Finishing) :: r2)) b []
| step_drain_release sh e todo r1 r2 b :
    thread_step c (Drain sh todo (r1 ++ (e, Finishing) :: r2)) b (Drain sh todo (r1 ++ r2)) (Release b) []
| step_drain_idle sh b :
    thread_step c (Drain sh [] []) b (DrainDone sh) (upd_shard b sh (set_state stateIdle)) []
| step_drain_done sh b :
    thread_step c (DrainDone sh) b (Returned None) (upd_shard b sh (add_drainWg (-1))) []
| step_shutdown b :
    thread_step c ShutReady b (ShutCancel (map_to_list (buffers b)).*1) (Shutdown b) []
| step_shut_cancel shs b : thread_step c (ShutCancel shs) b (ShutWait shs) (cancel b) []
| step_shut_wait sh shs b sb :
    buffers b !! sh = Some sb -> drainWg sb = 0 -> thread_step c (ShutWait (sh :: shs)) b (ShutWait shs) b []
| step_shut_waited b : thread_step c (ShutWait []) b ShutStop b []
| step_shut_stop b : thread_step c ShutStop b ShutReturned (close_stopCh b) []
| step_tt_empty b : queue b = [] -> thread_step c TTop b TBlocked b []
| step_tt_head b e q x :
    queue b = e :: q -> entries b !! e = Some x -> thread_step c TTop b (THead (deadline x)) b []
| step_tt_delay d b : thread_step c (THead d) b (if d - clock b <=? 0 then TEvict else TTimer d) b []
| step_tt_notified b : notifyCh b = true -> thread_step c TBlocked b TTop (set_notifyCh b false) []
| step_tt_stopped b : stopCh b = true -> thread_step c TBlocked b TStopped b []
| step_tt_timer d b : d <= clock b -> thread_step c (TTimer d) b TEvict b []
| step_tt_timer_notified d b :
    notifyCh b = true -> thread_step c (TTimer d) b TTop (set_notifyCh b false) []
| step_tt_timer_stopped d b : stopCh b = true -> thread_step c (TTimer d) b TStopped b []
| step_tt_evict b b' r :
    evictHead b = (b', r) -> thread_step c TEvict b (match r with Some e => TTaken e | None => TTop end) b' []
| step_tt_release e b : thread_step c (TTaken e) b (TReleased e) (Release (set_err b e MTB02)) []
| step_tt_close e b : thread_step c (TReleased e) b TTop (close_done b e) [].

(** The requests and notifications that may arrive at any time. *)
Definition external (t : thread) : Prop :=
  match t with Call _ _ => True | Stop _ gen => gen = 0 | _ => False end.

Definition pool : Type := Buffer * list thread.

(** Time passes, a request arrives, or one goroutine steps. *)
Inductive step (c : Config) : pool -> pool -> Prop :=
| pool_tick b ts d : 0 <= d -> step c (b, ts) (tick b d, ts)
| pool_arrive b ts t : external t -> step c (b, ts) (b, t :: ts)
| pool_thread b ts1 t ts2 t' b' forks :
    thread_step c t b t' b' forks -> step c (b, ts1 ++ t :: ts2) (b', ts1 ++ t' :: forks ++ ts2).

(** The gateway shuts its buffer down once, when it closes; a second [Shutdown] would
    panic in [close_stopCh]. *)
Definition initial (now : Z) : pool := (New now, [TTop; ShutReady]).

Definition reachable (c : Config) (p : pool) : Prop := exists now, rtc (step c) (initial now) p.
