(* ===== verification/FailoverBufferSafety.v ===== *)
(** What the failover buffer guarantees under every interleaving of its goroutines:
    slots are accounted for, no channel is closed twice, no waiting request is
    lost, and an expired request is evicted. *)

From stdpp Require Import base gmap numbers list strings sorting relations.
From S2P Require Import Prelude.
From S2P Require Import FailoverBuffer.

Local Open Scope Z_scope.

(** ** Who holds an entry

    Every entry of interest is held exactly once: by the queue, by the timeout
    goroutine or by a drain. *)
Inductive stage := Queued | Taken | Released | ToDrain | Draining (g : drain_stage).

(** The entry's [done] is still open. *)
Definition is_open (g : stage) : bool :=
  match g with Draining Retried | Draining Finishing => false | _ => true end.

(** A semaphore slot is held for the entry. *)
Definition has_slot (g : stage) : bool := match g with Released => false | _ => true end.

Definition thread_holds (t : thread) : list (nat * stage) :=
  match t with
  | Launch _ es => (fun e => (e, ToDrain)) <$> es
  | Drain _ todo running =>
      ((fun e => (e, ToDrain)) <$> todo) ++ ((fun eg => (eg.1, Draining eg.2)) <$> running)
  | TTaken e => [(e, Taken)]
  | TReleased e => [(e, Released)]
  | _ => []
  end.

Definition queued (q : list nat) : list (nat * stage) := (fun e => (e, Queued)) <$> q.
Definition held (ts : list thread) : list (nat * stage) := ts ≫= thread_holds.
Definition holders (b : Buffer) (ts : list thread) : list (nat * stage) := queued (queue b) ++ held ts.

(** The entries requests wait for. *)
Definition thread_waits (t : thread) : list nat :=
  match t with Waiting e | Removing e => [e] | _ => [] end.
Definition waiters (ts : list thread) : list nat := ts ≫= thread_waits.

(** ** The entries' invariant *)

Definition covered (ens : list entry) (H : list (nat * stage)) (e : nat) : Prop :=
  exists x, ens !! e = Some x /\ (done x = true \/ e ∈ H.*1).

Record tokens (ens : list entry) (H : list (nat * stage)) (W : list nat) : Prop := {
  tok_once : NoDup H.*1;
  tok_done e g : (e, g) ∈ H -> exists x, ens !! e = Some x /\ done x = negb (is_open g);
  tok_wait_once : NoDup W;
  tok_covered e : e ∈ W -> covered ens H e
}.

#[export] Instance tokens_perm ens : Proper ((≡ₚ) ==> (≡ₚ) ==> iff) (tokens ens).
Proof.
  assert (forall H H' W W', H ≡ₚ H' -> W ≡ₚ W' -> tokens ens H W -> tokens ens H' W') as Himp.
  { intros H H' W W' EH EW [T1 T2 T3 T4]. split.
    - by rewrite <- EH.
    - intros e g Hin. apply T2. by rewrite EH.
    - by rewrite <- EW.
    - intros e He. rewrite <- EW in He. destruct (T4 e He) as (x & Hx & Hc). exists x. by rewrite <- EH. }
  intros H H' EH W W' EW. split; apply Himp; by rewrite ?EH, ?EW.
Qed.

Section tokens.
Context (ens : list entry) (H : list (nat * stage)) (W : list nat).

Lemma tok_notin e g : tokens ens ((e, g) :: H) W -> e ∉ H.*1.
Proof. intros [T _ _ _]. by apply NoDup_cons in T as [? _]. Qed.

Lemma tok_restage e g g' :
  is_open g = is_open g' -> tokens ens ((e, g) :: H) W -> tokens ens ((e, g') :: H) W.
Proof.
  intros E [T1 T2 T3 T4]. split; try done. intros a k [[= -> ->]|Hin]%elem_of_cons.
  - rewrite <- E. apply T2. by left.
  - apply T2. by right.
Qed.

Lemma tok_waiter_gone e : tokens ens H (e :: W) -> tokens ens H W.
Proof.
  intros [T1 T2 T3 T4]. apply NoDup_cons in T3 as [_ T3]. split; try done. intros. apply T4. by right.
Qed.

(** Changes of the entries that leave [done] alone. *)
Lemma tok_entries ens' :
  (forall e x, ens !! e = Some x -> exists x', ens' !! e = Some x' /\ done x' = done x) ->
  tokens ens H W -> tokens ens' H W.
Proof.
  intros Hsame [T1 T2 T3 T4]. split; try done.
  - intros e g Hin. destruct (T2 e g Hin) as (x & Hx & Hd). destruct (Hsame _ _ Hx) as (x' & Hx' & E). exists x'.
    by rewrite E.
  - intros e He. destruct (T4 e He) as (x & Hx & Hc). destruct (Hsame _ _ Hx) as (x' & Hx' & E). exists x'.
    by rewrite E.
Qed.

Lemma tok_dropped e g : is_open g = false -> tokens ens ((e, g) :: H) W -> tokens ens H W.
Proof.
  intros Hg [T1 T2 T3 T4]. apply NoDup_cons in T1 as [Hn T1]. split; try done.
  - intros a k Hin. apply T2. by right.
  - intros a Ha. destruct (T4 a Ha) as (x & Hx & [Hd|[-> | Hin]%elem_of_cons]); exists x; split; try done; [by left| |by right].
    destruct (T2 e g) as (y & Hy & Hd); [by left|]. rewrite Hg in Hd. cbn in Hd, Hx. assert (x = y) as -> by congruence. by left.
Qed.

(** The request that waits for an entry takes it back. *)
Lemma tok_removed e g : tokens ens ((e, g) :: H) (e :: W) -> tokens ens H W.
Proof.
  intros [T1 T2 T3 T4]. apply NoDup_cons in T1 as [_ T1]. apply NoDup_cons in T3 as [Hw T3]. split; try done.
  - intros a k Hin. apply T2. by right.
  - intros a Ha. destruct (T4 a) as (x & Hx & [Hd|Hin]); [by right|..]; exists x; split; try done; [by left|].
    apply elem_of_cons in Hin as [->|Hin]; [done|by right].
Qed.

Lemma tok_fresh x :
  done x = false -> tokens ens H W ->
  tokens (ens ++ [x]) ((length ens, Queued) :: H) (length ens :: W).
Proof.
  intros Hd [T1 T2 T3 T4].
  assert (forall e g, (e, g) ∈ H -> e < length ens)%nat as Hlt.
  { intros e g Hin. destruct (T2 e g Hin) as (y & Hy & _). by apply lookup_lt_Some in Hy. }
  split.
  - apply NoDup_cons. split; [|done]. intros ((e & g) & E & Hin)%list_elem_of_fmap. cbn in E. subst.
    apply Hlt in Hin. lia.
  - intros e g [[= -> ->]|Hin]%elem_of_cons; [exists x; by rewrite list_lookup_middle|].
    destruct (T2 e g Hin) as (y & Hy & E). exists y. split; [|done]. by apply lookup_app_l_Some.
  - apply NoDup_cons. split; [|done]. intros Hin. destruct (T4 _ Hin) as (y & Hy & _). apply lookup_lt_Some in Hy. lia.
  - intros e [->|Hin]%elem_of_cons; [exists x; rewrite list_lookup_middle by done; split; [done|right; by left]|].
    destruct (T4 e Hin) as (y & Hy & Hc). exists y. split; [by apply lookup_app_l_Some|]. destruct Hc; [by left|right; by right].
Qed.

Definition closed_entry (x : entry) : entry := mkEntry true (deadline x) (e_err x) (bufferCtx x) (shardKey x).

Lemma tok_close e g g' x :
  is_open g' = false -> ens !! e = Some x -> tokens ens ((e, g) :: H) W ->
  tokens (<[e := closed_entry x]> ens) ((e, g') :: H) W.
Proof.
  intros Hg Hx Ht. pose proof (tok_notin _ _ Ht) as Hn. destruct Ht as [T1 T2 T3 T4].
  pose proof (lookup_lt_Some _ _ _ Hx) as Hlt. split; try done.
  - intros a k [[= -> ->]|Hin]%elem_of_cons.
    + exists (closed_entry x). by rewrite list_lookup_insert_eq, Hg.
    + assert (a <> e) by (intros ->; apply Hn; by apply (list_elem_of_fmap_2 fst) in Hin).
      rewrite list_lookup_insert_ne by done. apply T2. by right.
  - intros a Ha. destruct (decide (a = e)) as [->|Hne].
    + exists (closed_entry x). rewrite list_lookup_insert_eq by done. split; [done|by left].
    + unfold covered. rewrite list_lookup_insert_ne by done. by apply T4.
Qed.

End tokens.

(** ** Slots *)

Definition slots (H : list (nat * stage)) : Z := len (filter (fun eg => has_slot eg.2 = true) H).

Lemma slots_cons e g H : slots ((e, g) :: H) = (if has_slot g then 1 else 0) + slots H.
Proof.
  unfold slots, len. destruct (has_slot g) eqn:E.
  - rewrite filter_cons_True by done. cbn. lia.
  - rewrite filter_cons_False by (cbn; congruence). lia.
Qed.

#[export] Instance slots_perm : Proper ((≡ₚ) ==> (=)) slots.
Proof. intros H H' E. unfold slots, len. by rewrite E. Qed.

(** [k] slots are held in passing, by the operation under way. *)
Record accounted (c : Config) (k : Z) (b : Buffer) (H : list (nat * stage)) (W : list nat) : Prop := {
  acc_tokens : tokens (entries b) H W;
  acc_ok : panicked b = false;
  acc_held : slots H + k <= bufferSizeSema b;
  acc_exact : stopped b = false -> bufferSizeSema b = slots H + k;
  acc_size : bufferSizeSema b <= Z.max 0 (Size c)
}.

#[export] Instance accounted_perm c k b : Proper ((≡ₚ) ==> (≡ₚ) ==> iff) (accounted c k b).
Proof.
  intros H H' EH W W' EW. split; intros [? ? ? ? ?]; split; try done; try (by rewrite ?EH, ?EW || by rewrite <- ?EH, <- ?EW).
Qed.

Lemma slots_nonneg H : 0 <= slots H.
Proof. unfold slots, len. lia. Qed.

Section accounted.
Context (c : Config).

Lemma acc_free k b e g H W W' :
  has_slot g = true -> tokens (entries b) H W' ->
  accounted c k b ((e, g) :: H) W -> accounted c (k + 1) b H W'.
Proof.
  intros Hg Ht [_ A1 A2 A3 A4]. rewrite slots_cons, Hg in *. split; try done; [lia|]. intros Hs. specialize (A3 Hs). lia.
Qed.

Lemma acc_release k b H W : 0 <= k -> accounted c (k + 1) b H W -> accounted c k (Release b) H W.
Proof.
  intros Hk [A0 A1 A2 A3 A4]. unfold Release. pose proof (slots_nonneg H).
  destruct (Z.ltb_spec (bufferSizeSema b) 1); [lia|]. split; cbn; try done; [lia|..|lia]. intros Hs. specialize (A3 Hs). lia.
Qed.

Lemma acc_acquire k b b' H W :
  TryAcquire c b = Some b' -> accounted c k b H W -> accounted c (k + 1) b' H W /\ queue b' = queue b /\ clock b' = clock b /\ notifyCh b' = notifyCh b /\ entries b' = entries b.
Proof.
  unfold TryAcquire. intros E [A0 A1 A2 A3 A4]. destruct (Z.ltb_spec (bufferSizeSema b) (Size c)); simplify_eq.
  split; [|done]. split; cbn; try done; [lia|..|lia]. intros Hs. specialize (A3 Hs). lia.
Qed.

Lemma acc_append k b H W sh b' e :
  append_entry c b sh = (b', e) -> accounted c (k + 1) b H W ->
  accounted c k b' ((e, Queued) :: H) (e :: W) /\ queue b' = queue b ++ [e].
Proof.
  unfold append_entry. intros E [A0 A1 A2 A3 A4]. injection E as <- <-. split; [|by case_match].
  split; [case_match; by apply tok_fresh|..]; rewrite ?slots_cons; cbn [has_slot]; [by case_match|..];
    case_match; cbn; try done; try lia; intros Hs; specialize (A3 Hs); lia.
Qed.

Lemma acc_alter k b e f H W :
  (forall x, done (f x) = done x) -> accounted c k b H W ->
  accounted c k (set_entries b (alter f e (entries b))) H W.
Proof.
  intros Hf [A0 A1 A2 A3 A4]. split; try done. cbn. apply (tok_entries (entries b)); [|done].
  intros a x Hx. destruct (decide (a = e)) as [->|Hne].
  - exists (f x). by rewrite list_lookup_alter_eq, Hx.
  - exists x. by rewrite list_lookup_alter_ne.
Qed.

Lemma acc_set_err k b e er H W : accounted c k b H W -> accounted c k (set_err b e er) H W.
Proof. by apply acc_alter. Qed.

Lemma acc_cancel k b e H W : accounted c k b H W -> accounted c k (bufferCancel b e) H W.
Proof. by apply acc_alter. Qed.

(** Closing an open channel: it does not panic. *)
Lemma close_done_open b e g H W :
  is_open g = true -> tokens (entries b) ((e, g) :: H) W ->
  exists x, entries b !! e = Some x /\ done x = false /\
    close_done b e = set_entries b (<[e := closed_entry x]> (entries b)).
Proof.
  intros Hg [_ T2 _ _]. destruct (T2 e g) as (x & Hx & Hd); [by left|]. rewrite Hg in Hd. cbn in Hd.
  exists x. unfold close_done. by rewrite Hx, Hd.
Qed.

Lemma acc_close k b e g g' H W :
  is_open g = true -> is_open g' = false -> has_slot g = has_slot g' ->
  accounted c k b ((e, g) :: H) W -> accounted c k (close_done b e) ((e, g') :: H) W.
Proof.
  intros Hg Hg' Hs [A0 A1 A2 A3 A4]. destruct (close_done_open b e g H W Hg A0) as (x & Hx & Hd & ->).
  rewrite slots_cons, Hs, <- (slots_cons e) in *. split; cbn; try done. by apply (tok_close _ _ _ e g).
Qed.

(** Closing an entry and forgetting it: a slot it had stays held. *)
Lemma acc_close_drop k b e g H W :
  is_open g = true -> accounted c k b ((e, g) :: H) W ->
  accounted c (k + if has_slot g then 1 else 0) (close_done b e) H W.
Proof.
  intros Hg [A0 A1 A2 A3 A4]. destruct (close_done_open b e g H W Hg A0) as (x & Hx & Hd & ->).
  rewrite slots_cons in *. split; cbn; try done; [|lia|].
  - apply (tok_dropped _ _ _ e (Draining Retried)); [done|]. by apply (tok_close _ _ _ e g).
  - intros Hs. specialize (A3 Hs). lia.
Qed.

(** After the stop, slots held in passing may be kept forever. *)
Lemma acc_stopped k k' b H W : stopped b = true -> 0 <= k' <= k -> accounted c k b H W -> accounted c k' b H W.
Proof. intros Hs Hk [A0 A1 A2 A3 A4]. split; try done; [lia|congruence]. Qed.

End accounted.

(** ** The operations keep the account *)

Section operations.
Context (c : Config).

(** The holders when the queue is [queue b] and the goroutines hold [R]. *)
Notation account b R W := (accounted c 0 b (queued (queue b) ++ R) W).

Lemma close_done_frame b e :
  queue (close_done b e) = queue b /\ stopped (close_done b e) = stopped b /\ clock (close_done b e) = clock b.
Proof. unfold close_done. repeat case_match; done. Qed.

Lemma append_account b R W sh b' e :
  append_entry c b sh = (b', e) -> accounted c 1 b (queued (queue b) ++ R) W -> account b' R (e :: W).
Proof.
  intros E A. destruct (acc_append c 0 b _ W sh b' e E A) as [A' ->]. unfold queued.
  rewrite fmap_app, <- app_assoc. cbn [fmap list_fmap app]. by rewrite <- Permutation_middle.
Qed.

Lemma enqueue_account b R W sh b' r :
  enqueue c b sh = (b', r) -> account b R W ->
  account b' R (match r with inr e => e :: W | inl _ => W end).
Proof.
  unfold enqueue. intros E A. destruct (stopped b); [by simplify_eq|].
  destruct (TryAcquire c b) as [b1|] eqn:Et.
  - destruct (append_entry c b1 sh) as [b2 e] eqn:Ea. simplify_eq.
    destruct (acc_acquire c 0 b b1 _ W Et A) as (A1 & Eq & _). rewrite <- Eq in A1.
    by apply (append_account b1 R W sh).
  - destruct (queue b) as [|oldest rest] eqn:Eq; [simplify_eq; by rewrite Eq|].
    destruct (append_entry c _ sh) as [b2 e] eqn:Ea. simplify_eq. eapply (append_account _ R W sh); [exact Ea|].
    rewrite (proj1 (close_done_frame _ _)). apply (acc_close_drop c 0 _ oldest Queued); [done|].
    apply acc_set_err. by destruct A.
Qed.

Lemma remove_first_perm e q : e ∈ q -> q ≡ₚ e :: remove_first e q.
Proof.
  induction q as [|a q IH]; [by intros ?%elem_of_nil|]. cbn. case_bool_decide as Ea; [by subst|].
  intros [->|Hin]%elem_of_cons; [done|]. rewrite Permutation_swap. f_equiv. by apply IH.
Qed.

Lemma Release_frame b : queue (Release b) = queue b /\ entries (Release b) = entries b /\ clock (Release b) = clock b.
Proof. unfold Release. by case_match. Qed.

Lemma removeEntry_account b R W e : account b R (e :: W) -> account (removeEntry b e) R W.
Proof.
  unfold removeEntry. intros A. case_bool_decide as Hin.
  - rewrite (proj1 (Release_frame _)). apply acc_release; [done|]. cbn [queue set_queue].
    unfold queued in A at 1. rewrite (remove_first_perm e (queue b) Hin) in A. cbn [fmap list_fmap app] in A.
    assert (accounted c 0 (set_queue b (remove_first e (queue b)))
      ((e, Queued) :: queued (remove_first e (queue b)) ++ R) (e :: W)) as A' by (by destruct A).
    eapply (acc_free c 0 _ e Queued); [done| |exact A']. apply (tok_removed _ _ _ e Queued). apply A.
  - destruct A. split; try done. by apply (tok_waiter_gone _ _ _ e).
Qed.

Lemma filter_split {A} (P : A -> Prop) `{forall x, Decision (P x)} l :
  l ≡ₚ filter (fun x => ~ P x) l ++ filter P l.
Proof.
  induction l as [|a l IH]; [done|]. destruct (decide (P a)) as [Ha|Ha].
  - rewrite filter_cons_False by (intros Hn; by apply Hn). rewrite filter_cons_True by done.
    rewrite <- Permutation_middle. by f_equiv.
  - rewrite filter_cons_True, (filter_cons_False P) by done. cbn. by f_equiv.
Qed.

(** Entries move between holders, all open and with their slot. *)
Lemma acc_move k b es g g' H W :
  is_open g = is_open g' -> has_slot g = has_slot g' ->
  accounted c k b (((fun e => (e, g)) <$> es) ++ H) W -> accounted c k b (((fun e => (e, g')) <$> es) ++ H) W.
Proof.
  intros Ho Hs. revert H. induction es as [|e es IH]; intros H A; [done|].
  assert (accounted c k b ((e, g') :: ((fun e => (e, g)) <$> es) ++ H) W) as A1.
  { destruct A as [A0 A1 A2 A3 A4]. rewrite fmap_cons in *. cbn [app] in *.
    rewrite slots_cons, Hs, <- (slots_cons e) in *. split; try done. by apply (tok_restage _ _ _ e g g'). }
  cbn. rewrite Permutation_middle in A1 |- *. by apply IH.
Qed.

Lemma drain_account b R W sh b' es :
  drainEntriesForShard b sh = (b', es) -> account b R W ->
  account b' (((fun e => (e, ToDrain)) <$> es) ++ R) W.
Proof.
  unfold drainEntriesForShard. intros E A. simplify_eq. cbn [queue set_queue].
  set (P e := key_of_entry b e = Some sh) in *.
  unfold queued in A at 1. rewrite (filter_split P (queue b)), fmap_app in A.
  rewrite (Permutation_app_comm (_ <$> filter (fun x => ~ P x) (queue b))), <- app_assoc in A.
  apply (acc_move 0 b _ Queued ToDrain) in A; [|done..].
  rewrite Permutation_app_swap_app. by destruct A.
Qed.

Lemma evictHead_account b R W b' r :
  evictHead b = (b', r) -> account b R W ->
  account b' (match r with Some e => [(e, Taken)] | None => [] end ++ R) W.
Proof.
  unfold evictHead. intros E A. destruct (queue b) as [|head rest] eqn:Eq; [simplify_eq; by rewrite Eq|].
  destruct (tok_done _ _ _ (acc_tokens _ _ _ _ _ A) head Queued) as (x & Hx & _); [by left|]. rewrite Hx in E.
  destruct (clock b <? deadline x); simplify_eq; [by rewrite Eq|]. cbn [queue set_queue app].
  rewrite <- Permutation_middle. cbn [queued fmap list_fmap app] in A.
  apply (acc_move 0 b [head] Queued Taken) in A; [|done..]. by destruct A.
Qed.

Lemma evict_all_account b R W : stopped b = true -> account b R W -> account (evict_all b) R W.
Proof.
  unfold evict_all. intros Hs A.
  enough (forall q b, stopped b = true -> accounted c 0 b (queued q ++ R) W ->
    accounted c 0 (foldl (fun b e => close_done (set_err b e MTB03) e) b q) R W) as Henough.
  { pose proof (Henough _ _ Hs A) as A'. by destruct A'. }
  clear. induction q as [|e q IH]; intros b Hs A; [done|]. cbn [foldl].
  assert (stopped (close_done (set_err b e MTB03) e) = true) as Hs' by (by rewrite (proj1 (proj2 (close_done_frame _ _)))).
  apply IH; [done|]. apply (acc_stopped c 1); [done|lia|].
  apply (acc_close_drop c 0 _ e Queued); [done|]. by apply acc_set_err.
Qed.

End operations.

(** ** Every interleaving keeps the account *)

(** ** One shutdown *)

Lemma close_done_stop b e : stopped (close_done b e) = stopped b /\ stopCh (close_done b e) = stopCh b.
Proof. unfold close_done. by repeat case_match. Qed.

Lemma evict_all_stop b : stopped (evict_all b) = stopped b /\ stopCh (evict_all b) = stopCh b.
Proof.
  unfold evict_all. cbn.
  assert (forall q b, let b' := foldl (fun b e => close_done (set_err b e MTB03) e) b q in
    stopped b' = stopped b /\ stopCh b' = stopCh b) as Hf; [|apply Hf].
  induction q as [|e q IH]; intros b0; [done|]. cbn. destruct (IH (close_done (set_err b0 e MTB03) e)) as [-> ->].
  apply (close_done_stop (set_err b0 e MTB03) e).
Qed.

Lemma enqueue_stop c b sh b' r :
  enqueue c b sh = (b', r) -> stopped b' = stopped b /\ stopCh b' = stopCh b.
Proof.
  unfold enqueue, append_entry, TryAcquire. intros E.
  repeat case_match; simplify_eq; cbn in *; rewrite ?(proj1 (close_done_stop _ _)), ?(proj2 (close_done_stop _ _)); auto.
Qed.

Lemma Release_stop b : stopped (Release b) = stopped b /\ stopCh (Release b) = stopCh b.
Proof. unfold Release. by case_match. Qed.

Lemma thread_step_flags c t b t' b' forks :
  thread_step c t b t' b' forks ->
  (stopped b' = stopped b /\ stopCh b' = stopCh b) \/
  (t = ShutReady /\ stopped b' = true /\ stopCh b' = stopCh b) \/ (t = ShutStop /\ stopped b' = stopped b).
Proof.
  destruct 1; try (by left); try (by right; right; split; [|unfold close_stopCh; case_match]).
  - left. unfold getOrCreateShardBuffer. by case_match.
  - left. by eapply enqueue_stop.
  - left. unfold removeEntry. case_match; [apply (Release_stop (set_queue _ _))|done].
  - left. unfold drainEntriesForShard in *. by simplify_eq.
  - left. apply close_done_stop.
  - left. apply Release_stop.
  - right; left. split; [done|]. apply (evict_all_stop (set_stopped b)).
  - left. unfold evictHead in *. repeat case_match; by simplify_eq.
  - left. apply (Release_stop (set_err _ _ _)).
  - left. apply close_done_stop.
Qed.

(** The goroutines that may still close [stopCh]. *)
Definition stopper (t : thread) : bool :=
  match t with ShutReady | ShutCancel _ | ShutWait _ | ShutStop => true | _ => false end.
Definition stoppers (ts : list thread) : nat := length (filter (fun t => stopper t = true) ts).

Lemma stoppers_cons t ts : stoppers (t :: ts) = ((if stopper t then 1 else 0) + stoppers ts)%nat.
Proof. unfold stoppers. rewrite filter_cons. by case_decide; destruct (stopper t). Qed.

Lemma stoppers_app ts us : stoppers (ts ++ us) = (stoppers ts + stoppers us)%nat.
Proof. unfold stoppers. by rewrite filter_app, length_app. Qed.

(** At most one close of [stopCh] is to come or has happened. *)
Definition stop_once (p : pool) : Prop := (stoppers p.2 + (if stopCh p.1 then 1 else 0) <= 1)%nat.

Lemma thread_step_stoppers c t b t' b' forks :
  thread_step c t b t' b' forks -> stoppers forks = 0%nat /\ (stopper t' = true -> stopper t = true) /\
    (t = ShutStop -> t' = ShutReturned).
Proof.
  destruct 1; cbn; split_and!; try done; try (by destruct d); try (by destruct r); try (by repeat case_match).
  by destruct (waitIfAlreadyBuffering sb).
Qed.

Lemma step_stop_once c p p' : step c p p' -> stop_once p -> stop_once p'.
Proof.
  unfold stop_once. destruct 1 as [b ts d Hd|b ts t Ht|b ts1 t ts2 t' b' forks Hs]; cbn [fst snd]; [done|..].
  - rewrite stoppers_cons. by destruct t.
  - rewrite !stoppers_app, !stoppers_cons, stoppers_app.
    destruct (thread_step_stoppers _ _ _ _ _ _ Hs) as (-> & Hst & Hret).
    destruct (thread_step_flags _ _ _ _ _ _ Hs) as [[_ ->]|[(_ & _ & ->)|[-> _]]].
    + destruct (stopper t'), (stopper t); try lia; by specialize (Hst eq_refl).
    + destruct (stopper t'), (stopper t); try lia; by specialize (Hst eq_refl).
    + rewrite (Hret eq_refl). cbn [stopper]. destruct (stopCh b), (stopCh b'); lia.
Qed.

Lemma stop_once_open b ts1 ts2 : stop_once (b, ts1 ++ ShutStop :: ts2) -> stopCh b = false.
Proof. unfold stop_once. cbn [fst snd]. rewrite stoppers_app, stoppers_cons. cbn [stopper]. destruct (stopCh b); [lia|done]. Qed.

Section interleaving.
Context (c : Config).

Notation account b R W := (accounted c 0 b (queued (queue b) ++ R) W).

Lemma drain_middle sh todo r1 e g r2 :
  thread_holds (Drain sh todo (r1 ++ (e, g) :: r2)) ≡ₚ (e, Draining g) :: thread_holds (Drain sh todo (r1 ++ r2)).
Proof.
  cbn [thread_holds]. rewrite !fmap_app, fmap_cons. cbn [fst snd].
  by rewrite (Permutation_middle (_ <$> todo)), (Permutation_middle (_ <$> r1)).
Qed.

(** One draining entry in front of the other holders. *)
Lemma drain_front b k sh todo r1 e g r2 R W :
  accounted c k b (queued (queue b) ++ thread_holds (Drain sh todo (r1 ++ (e, g) :: r2)) ++ R) W <->
  accounted c k b ((e, Draining g) :: queued (queue b) ++ thread_holds (Drain sh todo (r1 ++ r2)) ++ R) W.
Proof. rewrite drain_middle. cbn [app]. by rewrite <- Permutation_middle. Qed.

Lemma drain_close_account b sh todo r1 e r2 R W :
  account b (thread_holds (Drain sh todo (r1 ++ (e, Closing) :: r2)) ++ R) W ->
  account (close_done b e) (thread_holds (Drain sh todo (r1 ++ (e, Retried) :: r2)) ++ R) W.
Proof.
  rewrite !drain_front. intros A. rewrite (proj1 (close_done_frame b e)).
  by apply (acc_close c 0 b e (Draining Closing)).
Qed.

Lemma drain_release_account b sh todo r1 e r2 R W :
  account b (thread_holds (Drain sh todo (r1 ++ (e, Finishing) :: r2)) ++ R) W ->
  account (Release b) (thread_holds (Drain sh todo (r1 ++ r2)) ++ R) W.
Proof.
  rewrite drain_front. intros A. rewrite (proj1 (Release_frame b)). apply acc_release; [done|].
  apply (acc_free c 0 b e (Draining Finishing) _ W); [done| |done].
  apply (tok_dropped _ _ _ e (Draining Finishing)); [done|]. apply A.
Qed.

Lemma evict_release_account b e R W :
  account b ((e, Taken) :: R) W -> account (Release (set_err b e MTB02)) ((e, Released) :: R) W.
Proof.
  rewrite (proj1 (Release_frame _)). change (queue (set_err b e MTB02)) with (queue b).
  intros A. apply acc_release; [done|]. apply acc_set_err.
  rewrite <- Permutation_middle in *. destruct A as [A0 A1 A2 A3 A4]. rewrite slots_cons in *. cbn [has_slot] in *.
  split; rewrite ?slots_cons; cbn [has_slot]; try done; [by apply (tok_restage _ _ _ e Taken)|lia|].
  intros Hs. specialize (A3 Hs). lia.
Qed.

Lemma thread_step_account t b t' b' forks R W :
  thread_step c t b t' b' forks -> (t = ShutStop -> stopCh b = false) ->
  account b (thread_holds t ++ R) (thread_waits t ++ W) ->
  account b' (thread_holds t' ++ held forks ++ R) (thread_waits t' ++ waiters forks ++ W).
Proof.
  intros Hstep Hop A. destruct Hstep; cbn [thread_holds thread_waits held waiters mbind list_bind app] in *;
    try (by destruct A).
  - unfold getOrCreateShardBuffer. case_match; by destruct A.
  - case_match; by destruct A.
  - by destruct (waitIfAlreadyBuffering sb).
  - destruct d; by destruct A.
  - pose proof (enqueue_account c _ _ _ _ _ _ H A) as A'. by destruct r.
  - case_match; destruct A; split; try done; by apply (tok_waiter_gone _ _ _ e).
  - by apply removeEntry_account.
  - by apply acc_cancel.
  - by apply acc_cancel.
  - destruct go; by destruct A.
  - by apply (drain_account c b R W sh).
  - rewrite fmap_nil, !app_nil_r. by destruct A.
  - rewrite fmap_cons. cbn [fst snd]. rewrite fmap_cons in A. rewrite <- (Permutation_middle (_ <$> todo)).
    cbn [app] in *. rewrite <- Permutation_middle in *.
    by apply (acc_move c 0 b [e] ToDrain (Draining Closing)) in A.
  - by apply (drain_close_account b sh todo).
  - apply (drain_front b 0 sh todo r1 e Finishing). apply (drain_front b 0 sh todo r1 e Retried) in A.
    by apply (acc_move c 0 b [e] (Draining Retried) (Draining Finishing)) in A.
  - by apply (drain_release_account b sh todo r1 e).
  - pose proof (evict_all_account c (set_stopped b) R W eq_refl) as Hev. cbn [queue set_stopped] in Hev.
    assert (account (evict_all (set_stopped b)) R W) as A' by (apply Hev; by destruct A).
    by destruct A'.
  - unfold close_stopCh. rewrite (Hop eq_refl). by destruct A.
  - by case_match.
  - pose proof (evictHead_account c _ _ _ _ _ H A) as A'. by destruct r.
  - by apply evict_release_account.
  - rewrite (proj1 (close_done_frame b e)). rewrite <- Permutation_middle in A.
    by apply (acc_close_drop c 0 b e Released) in A.
Qed.

Definition buffer_inv (p : pool) : Prop := account p.1 (held p.2) (waiters p.2).

Lemma buffer_inv_perm b ts ts' : ts ≡ₚ ts' -> buffer_inv (b, ts) <-> buffer_inv (b, ts').
Proof. intros E. unfold buffer_inv, held, waiters. cbn. by rewrite E. Qed.

Lemma step_inv p p' : step c p p' -> stop_once p -> buffer_inv p -> buffer_inv p'.
Proof.
  destruct 1 as [b ts d Hd|b ts t Ht|b ts1 t ts2 t' b' forks Hs]; intros Hone Hp.
  - by destruct Hp.
  - by destruct t.
  - apply (buffer_inv_perm _ _ (t' :: forks ++ ts1 ++ ts2)).
    { rewrite <- Permutation_middle. f_equiv. by rewrite Permutation_app_swap_app. }
    apply (buffer_inv_perm _ _ (t :: ts1 ++ ts2)) in Hp; [|by rewrite <- Permutation_middle].
    unfold buffer_inv, held, waiters in *. cbn in *. rewrite !bind_app in *.
    apply (thread_step_account t b); [done| |done]. intros ->. by eapply stop_once_open.
Qed.

(** A drain runs at most [DrainConcurrency] retries at once. *)
Definition drain_bounded (t : thread) : Prop :=
  match t with Drain _ _ running => len running <= Z.max 0 (DrainConcurrency c) | _ => True end.

Lemma thread_step_drain_bounded t b t' b' forks :
  thread_step c t b t' b' forks -> drain_bounded t -> Forall drain_bounded (t' :: forks).
Proof.
  destruct 1; cbn; intros Hd; repeat constructor; cbn; try (by repeat case_match).
  all: try (destruct d; by repeat constructor). all: try (destruct r; by repeat constructor).
  - by destruct (waitIfAlreadyBuffering sb).
  - unfold len in *. cbn. lia.
  - unfold len in *. cbn. lia.
  - unfold len in *. rewrite length_app in *. cbn in *. lia.
  - unfold len in *. rewrite length_app in *. cbn in *. lia.
  - unfold len in *. rewrite length_app in *. cbn in *. lia.
Qed.

Lemma step_drain_bounded p p' : step c p p' -> Forall drain_bounded p.2 -> Forall drain_bounded p'.2.
Proof.
  destruct 1 as [b ts d Hd|b ts t Ht|b ts1 t ts2 t' b' forks Hs]; cbn; intros HF; [done|..].
  - constructor; [by destruct t|done].
  - apply Forall_app in HF as [H1 [H2 H3]%Forall_cons]. apply Forall_app. split; [done|].
    apply (thread_step_drain_bounded _ _ _ _ _ Hs) in H2 as [? ?]%Forall_cons. constructor; [done|]. by apply Forall_app.
Qed.

Lemma initial_inv now : buffer_inv (initial now) /\ Forall drain_bounded (initial now).2 /\ stop_once (initial now).
Proof.
  split; [|split; [by apply Forall_cons_2; [|apply Forall_cons_2]|by apply Nat.leb_le]]. split; cbn; try done; [|lia].
  split; cbn; [constructor|by intros ? ? ?%elem_of_nil|constructor|by intros ? ?%elem_of_nil].
Qed.

Lemma reachable_inv p : reachable c p -> buffer_inv p /\ Forall drain_bounded p.2.
Proof.
  intros (now & Hr). pose proof (initial_inv now) as Hi. induction Hr as [|p q r Hs _ IH]; [naive_solver|].
  apply IH. destruct Hi as (? & ? & ?).
  split_and!; [by apply (step_inv p)|by apply (step_drain_bounded p)|by apply (step_stop_once c p)].
Qed.

End interleaving.

(** ** Guarantees *)

(** The requests buffered, or drained and not yet done with their retry. *)
Definition in_flight (b : Buffer) (ts : list thread) : Z := slots (holders b ts).

(** C10: the buffer is accounted for under every interleaving of requests,
    cancellations, timeouts, drains and shutdown.  No channel is closed twice and
    no slot is released that is not held (either would panic the gateway); at most
    buffer-size requests are buffered or being retried, and the slots held are
    exactly theirs until shutdown; a drain retries at most drain-concurrency
    requests at a time. *)
Theorem buffer_accounted_for c b ts :
  Validate c = None -> Enabled c = true -> reachable c (b, ts) ->
  panicked b = false /\
  in_flight b ts <= bufferSizeSema b <= Size c /\
  (stopped b = false -> bufferSizeSema b = in_flight b ts) /\
  (forall sh todo running, Drain sh todo running ∈ ts -> len running <= DrainConcurrency c).
Proof.
  intros Hv He Hr. unfold Validate in Hv. rewrite He in Hv. cbn in Hv. split_ifs; try done. reflect_bools.
  destruct (reachable_inv c _ Hr) as [[_ A1 A2 A3 A4] HF]. cbn in HF, A1, A4.
  change (in_flight b ts + 0 <= bufferSizeSema b) in A2.
  change (stopped b = false -> bufferSizeSema b = in_flight b ts + 0) in A3.
  split_and!; [done|lia|lia|intros Hs; specialize (A3 Hs); lia|].
  intros sh todo running Hin. rewrite Forall_forall in HF. specialize (HF _ Hin). cbn in HF. lia.
Qed.

(** no waiting request is lost.  A request still blocked on its entry is in the
    queue, in the hands of the timeout goroutine or in a drain, exactly one of
    them, unless its channel is already closed and it can go on. *)
Theorem no_waiter_lost c b ts e :
  reachable c (b, ts) -> Waiting e ∈ ts ->
  exists x, entries b !! e = Some x /\
    (done x = true \/
     exists g, (e, g) ∈ holders b ts /\ is_open g = true /\ forall g', (e, g') ∈ holders b ts -> g' = g).
Proof.
  intros Hr Hw. destruct (reachable_inv c _ Hr) as [[[T1 T2 T3 T4] _ _ _ _] _]. cbn in *. fold (holders b ts) in *.
  destruct (T4 e) as (x & Hx & Hc).
  { unfold waiters. apply list_elem_of_bind. exists (Waiting e). split; [by left|done]. }
  exists x. split; [done|]. destruct (done x) eqn:Ed; [by left|right].
  destruct Hc as [Hc|((e' & g) & -> & Hin)%list_elem_of_fmap]; [done|]. exists g. cbn in *.
  split_and!; [done|..].
  - destruct (T2 _ _ Hin) as (y & Hy & Ey). destruct (is_open g); [done|]. cbn in Ey. congruence.
  - intros g' Hin'. by apply (fst_functional _ _ _ _ T1 Hin').
Qed.

(** ** A concrete run *)

Lemma step_head c t b t' b' forks ts :
  thread_step c t b t' b' forks -> step c (b, t :: ts) (b', t' :: forks ++ ts).
Proof. apply (pool_thread c b [] t ts). Qed.

Definition demo_config : Config := mkConfig true 10 1 20 60 1.

Definition demo_shard : shardBuffer := mkShardBuffer stateBuffering 0 None 1 (Some 1) 0.

(** A failover is detected on shard "s": the request that saw it waits. *)
Definition demo_started : Buffer := set_buffers (New 0) (<["s" := demo_shard]> (<["s" := newShardBuffer]> ∅)).
Definition demo_buffer : Buffer := (enqueue demo_config demo_started "s").1.
Definition demo_pool : list thread := [Waiting 0; Timer "s" 1 20; TTop; ShutReady].

Lemma demo_reachable : reachable demo_config (demo_buffer, demo_pool).
Proof.
  exists 0. eapply rtc_l; [apply (pool_arrive _ _ _ (Call false "s") I)|].
  eapply rtc_l; [by apply step_head, step_create|].
  eapply rtc_l; [eapply step_head, (step_wait _ _ _ newShardBuffer); by vm_compute|].
  eapply rtc_l; [by eapply step_head, step_enqueue|]. apply rtc_refl.
Qed.

Lemma buffer_accounted_for_witness :
  in_flight demo_buffer demo_pool = 1 /\
  panicked demo_buffer = false /\
  in_flight demo_buffer demo_pool <= bufferSizeSema demo_buffer <= Size demo_config.
Proof.
  split; [vm_compute; reflexivity|].
  destruct (buffer_accounted_for demo_config demo_buffer demo_pool) as (H1 & H2 & _);
    [reflexivity|reflexivity|exact demo_reachable|]. split; assumption.
Defined.

Lemma no_waiter_lost_witness :
  Waiting 0 ∈ demo_pool /\ (exists x, entries demo_buffer !! 0%nat = Some x /\ done x = false /\
    exists g, (0%nat, g) ∈ holders demo_buffer demo_pool /\ is_open g = true).
Proof.
  split; [left|]. destruct (no_waiter_lost demo_config demo_buffer demo_pool 0 demo_reachable) as (x & Hx & Hc); [left|].
  exists x. split; [exact Hx|]. injection Hx as <-. split; [reflexivity|].
  destruct Hc as [Hc|(g & H1 & H2 & _)]; [discriminate Hc|exists g; split; assumption].
Defined.
