(* ===== verification/FailoverBufferTimeout.v ===== *)
(** The failover buffer's timeouts: the queue is in the order of its deadlines, the
    timeout goroutine never sleeps past the head's, so an expired request leaves
    the queue with the timeout error. *)

From stdpp Require Import base gmap numbers list strings sorting relations.
From S2P Require Import Prelude.
From S2P Require Import FailoverBuffer.
From S2P Require Import FailoverBufferSafety.

Local Open Scope Z_scope.

(** ** Deadlines *)

Definition dl (b : Buffer) (e : nat) : Z := default 0 (deadline <$> entries b !! e).

Definition in_order (b : Buffer) (q : list nat) : Prop := StronglySorted (fun e e' => dl b e <= dl b e') q.

Record queue_inv (c : Config) (b : Buffer) : Prop := {
  q_valid e : e ∈ queue b -> is_Some (entries b !! e);
  q_order : in_order b (queue b);
  q_bound e : e ∈ queue b -> dl b e <= clock b + Window c
}.

Lemma in_order_sublist b q q' : q' `sublist_of` q -> in_order b q -> in_order b q'.
Proof.
  unfold in_order. induction 1 as [|x q' q Hs IH|x q' q Hs IH]; intros Ho; [done|..]; inversion Ho as [|? ? H1 H2]; subst.
  - constructor; [by apply IH|]. rewrite Forall_forall in *. intros y Hy. apply H2.
    by apply (elem_of_sublist q').
  - by apply IH.
Qed.

Lemma in_order_app b q e : in_order b q -> (forall x, x ∈ q -> dl b x <= dl b e) -> in_order b (q ++ [e]).
Proof.
  unfold in_order. induction 1 as [|x q Ho IH Hx]; intros He; cbn; [by repeat constructor|]. constructor.
  - apply IH. intros y Hy. apply He. by right.
  - apply Forall_app. split; [done|]. repeat constructor. apply He. by left.
Qed.

Lemma in_order_ext b b' q : (forall e, e ∈ q -> dl b' e = dl b e) -> in_order b q -> in_order b' q.
Proof.
  unfold in_order. intros E Ho. induction Ho as [|x q Ho IH Hx]; constructor.
  - apply IH. intros. apply E. by right.
  - rewrite Forall_forall in *. intros y Hy. rewrite !E by (by left || by right). by apply Hx.
Qed.

(** ** How a step changes the queue

    Entries leave, in any place; one may join at the end, with a deadline later
    than all others, and wakes the timeout goroutine when it is alone. *)
Record evolves (c : Config) (b b' : Buffer) : Prop := {
  ev_clock : clock b' = clock b;
  ev_notify : notifyCh b = true -> notifyCh b' = true;
  ev_entries e x : entries b !! e = Some x -> exists x', entries b' !! e = Some x' /\ deadline x' = deadline x;
  ev_queue : exists q, q `sublist_of` queue b /\
    (queue b' = q \/
     exists e x, queue b' = q ++ [e] /\ entries b' !! e = Some x /\ deadline x = clock b + Window c /\
       (q = [] -> notifyCh b' = true))
}.

Lemma ev_dl c b b' e : evolves c b b' -> is_Some (entries b !! e) -> dl b' e = dl b e.
Proof.
  intros Hev [x Hx]. destruct (ev_entries _ _ _ Hev _ _ Hx) as (x' & Hx' & E). unfold dl. by rewrite Hx, Hx'; cbn.
Qed.

Lemma evolves_queue_inv c b b' : evolves c b b' -> queue_inv c b -> queue_inv c b'.
Proof.
  intros Hev [Q1 Q2 Q3]. destruct (ev_queue _ _ _ Hev) as (q & Hsub & Hq).
  assert (forall e, e ∈ q -> e ∈ queue b) as Hin by (intros e He; by apply (elem_of_sublist q)).
  assert (forall e, e ∈ q -> dl b' e = dl b e) as Hdl by (intros e He; by eapply ev_dl, Q1, Hin).
  assert (in_order b' q) as Ho by (apply (in_order_ext b); [done|by apply (in_order_sublist _ (queue b))]).
  assert (forall e, e ∈ q -> is_Some (entries b' !! e)) as Hv.
  { intros e He. destruct (Q1 e (Hin e He)) as [x Hx]. destruct (ev_entries _ _ _ Hev _ _ Hx) as (x' & Hx' & _). eauto. }
  destruct Hq as [Eq|(e & x & Eq & Hx & Hd & _)].
  - split; rewrite Eq; [done..|]. intros e He. rewrite Hdl, (ev_clock _ _ _ Hev) by done. by apply Q3, Hin.
  - assert (dl b' e = clock b + Window c) as He by (unfold dl; by rewrite Hx).
    split; rewrite Eq.
    + intros a [Ha|Ha]%elem_of_app; [by apply Hv|]. apply list_elem_of_singleton in Ha as ->. eauto.
    + apply in_order_app; [done|]. intros a Ha. rewrite He, Hdl by done. by apply Q3, Hin.
    + intros a [Ha|Ha]%elem_of_app; rewrite (ev_clock _ _ _ Hev).
      * rewrite Hdl by done. by apply Q3, Hin.
      * apply list_elem_of_singleton in Ha as ->. lia.
Qed.

(** ** The timeout goroutine is awake when it has to be *)

(** The goroutine looks, or will look, at the queue no later than [d]. *)
Definition watched (b : Buffer) (d : Z) : Prop :=
  notifyCh b = true \/ match queue b with [] => True | e :: _ => d <= dl b e end.

Definition tt_ok (b : Buffer) (t : thread) : Prop :=
  match t with
  | TBlocked => notifyCh b = true \/ queue b = []
  | THead d | TTimer d => watched b d
  | TStopped => stopCh b = true
  | _ => True
  end.

(** The head only moves to later deadlines, or the goroutine is notified. *)
Lemma evolves_head c b b' :
  evolves c b b' -> queue_inv c b -> queue b' = [] \/ notifyCh b' = true \/
  exists e q e' q', queue b = e :: q /\ queue b' = e' :: q' /\ dl b e <= dl b' e'.
Proof.
  intros Hev [Q1 Q2 Q3]. destruct (ev_queue _ _ _ Hev) as (q & Hsub & Hq).
  destruct q as [|a q].
  - destruct Hq as [?|(e & x & _ & _ & _ & Hn)]; [by left|right; left; by apply Hn].
  - assert (a ∈ queue b) as Ha by (apply (elem_of_sublist (a :: q)); [by left|done]).
    assert (exists r, queue b' = a :: r) as [r Er] by (destruct Hq as [->|(e & x & -> & _)]; eauto).
    right; right. destruct (queue b) as [|e l] eqn:Eb; [by apply elem_of_nil in Ha|].
    exists e, l, a, r. split_and!; [done..|]. rewrite (ev_dl c b b' a) by (done || by apply Q1).
    apply elem_of_cons in Ha as [->|Ha]; [done|]. inversion Q2 as [|? ? _ HF]; subst.
    rewrite Forall_forall in HF. by apply HF.
Qed.

Lemma evolves_tt_ok c b b' t :
  evolves c b b' -> queue_inv c b -> (stopCh b = true -> stopCh b' = true) -> tt_ok b t -> tt_ok b' t.
Proof.
  intros Hev Hq Hs. pose proof (evolves_head c b b' Hev Hq) as Hh. pose proof (ev_notify _ _ _ Hev) as Hn.
  assert (forall d, watched b d -> watched b' d) as Hwatch.
  { intros d [Hw|Hw]; [left; auto|]. destruct Hh as [E|[E|(e & q & e' & q' & E & E' & Hle)]].
    - right. by rewrite E.
    - by left.
    - right. rewrite E in Hw. rewrite E'. lia. }
  destruct t; cbn; try done; auto.
  intros [Hb|Hb]; [left; auto|]. destruct Hh as [E|[E|(e & q & e' & q' & E & E' & Hle)]]; [by right|by left|congruence].
Qed.

(** ** Every step *)

Definition keeps (b b' : Buffer) : Prop :=
  forall e x, entries b !! e = Some x -> exists x', entries b' !! e = Some x' /\ deadline x' = deadline x.

#[local] Instance keeps_preorder : PreOrder keeps.
Proof.
  split; [by intros b e x Hx; exists x|]. intros b1 b2 b3 H12 H23 e x Hx.
  destruct (H12 e x Hx) as (y & Hy & Ey). destruct (H23 e y Hy) as (z & Hz & Ez). exists z. split; [done|congruence].
Qed.

Lemma keeps_alter b e f : (forall x, deadline (f x) = deadline x) -> keeps b (set_entries b (alter f e (entries b))).
Proof.
  intros Hf a x Hx. cbn. destruct (decide (a = e)) as [->|Hne].
  - exists (f x). by rewrite list_lookup_alter_eq, Hx.
  - exists x. by rewrite list_lookup_alter_ne.
Qed.

Lemma keeps_same b b' : entries b' = entries b -> keeps b b'.
Proof. intros E e x Hx. exists x. by rewrite E. Qed.

Lemma keeps_close b e : keeps b (close_done b e).
Proof.
  unfold close_done. destruct (entries b !! e) as [y|] eqn:Ey; [|by apply keeps_same]. destruct (done y); [by apply keeps_same|].
  intros a x Hx. cbn. destruct (decide (a = e)) as [->|Hne].
  - rewrite list_lookup_insert_eq by (by apply lookup_lt_Some in Ey). simplify_eq. by eexists.
  - exists x. by rewrite list_lookup_insert_ne.
Qed.

Lemma keeps_release b : keeps b (Release b).
Proof. apply keeps_same, Release_frame. Qed.

Lemma keeps_evict b e er : keeps b (close_done (set_err b e er) e).
Proof. etrans; [|apply keeps_close]. by apply keeps_alter. Qed.

Lemma evolves_sub c b b' :
  clock b' = clock b -> (notifyCh b = true -> notifyCh b' = true) -> keeps b b' ->
  queue b' `sublist_of` queue b -> evolves c b b'.
Proof. intros H1 H2 H3 H4. split; try done. exists (queue b'). auto. Qed.

(** Only shards or flags change. *)
Lemma evolves_frame c b b' :
  clock b' = clock b -> notifyCh b' = notifyCh b -> entries b' = entries b -> queue b' = queue b -> evolves c b b'.
Proof.
  intros H1 H2 H3 H4. apply evolves_sub; [done|congruence|by apply keeps_same|by rewrite H4].
Qed.

Lemma close_done_clock b e : clock (close_done b e) = clock b.
Proof. apply close_done_frame. Qed.

Lemma Release_clock b : clock (Release b) = clock b.
Proof. apply Release_frame. Qed.

Lemma close_done_notify b e : notifyCh (close_done b e) = notifyCh b.
Proof. unfold close_done. by repeat case_match. Qed.

Lemma Release_notify b : notifyCh (Release b) = notifyCh b.
Proof. unfold Release. by case_match. Qed.

Lemma remove_first_sublist e q : remove_first e q `sublist_of` q.
Proof. induction q as [|a q IH]; cbn; [done|]. case_bool_decide; by constructor. Qed.

(** The end of [enqueue], from a state that kept the rest. *)
Lemma append_evolves c b b1 sh b' e :
  append_entry c b1 sh = (b', e) -> clock b1 = clock b -> (notifyCh b = true -> notifyCh b1 = true) ->
  keeps b b1 -> queue b1 `sublist_of` queue b -> evolves c b b'.
Proof.
  unfold append_entry. intros E Hc Hn Hk Hq. injection E as <- <-.
  split; [by case_match|by case_match; cbn; auto| |].
  - intros a x Hx. destruct (Hk a x Hx) as (y & Hy & Ey). exists y. split; [|done].
    case_match; cbn; by apply lookup_app_l_Some.
  - exists (queue b1). split; [done|right]. exists (length (entries b1)).
    exists (mkEntry false (clock b1 + Window c) None false sh). split_and!; [by case_match| |cbn; lia|].
    + case_match; cbn; by rewrite list_lookup_middle.
    + intros Eq. cbn. rewrite Eq. done.
Qed.

Lemma enqueue_evolves c b sh b' r : enqueue c b sh = (b', r) -> evolves c b b'.
Proof.
  unfold enqueue. intros E. destruct (stopped b); [simplify_eq; by apply evolves_frame|].
  destruct (TryAcquire c b) as [b1|] eqn:Et.
  - destruct (append_entry c b1 sh) as [b2 e] eqn:Ea. simplify_eq. unfold TryAcquire in Et. case_match; simplify_eq.
    apply (append_evolves c b _ sh _ _ Ea); try done. by apply keeps_same.
  - destruct (queue b) as [|oldest rest] eqn:Eq; [simplify_eq; by apply evolves_frame|].
    destruct (append_entry c _ sh) as [b2 e] eqn:Ea. simplify_eq. apply (append_evolves c b _ sh _ _ Ea).
    + by rewrite close_done_clock.
    + by rewrite close_done_notify.
    + etrans; [|apply keeps_evict]. by apply keeps_same.
    + rewrite (proj1 (close_done_frame _ _)). cbn. rewrite Eq. by constructor.
Qed.

Lemma evict_all_evolves c b : evolves c b (evict_all b).
Proof.
  unfold evict_all.
  assert (forall q b, let b' := foldl (fun b e => close_done (set_err b e MTB03) e) b q in
    clock b' = clock b /\ notifyCh b' = notifyCh b /\ keeps b b') as Hf.
  { induction q as [|e q IH]; intros b0; [done|]. cbn. destruct (IH (close_done (set_err b0 e MTB03) e)) as (H1 & H2 & H3).
    split_and!; [by rewrite H1, close_done_clock|by rewrite H2, close_done_notify|].
    etrans; [|exact H3]. apply keeps_evict. }
  destruct (Hf (queue b) b) as (H1 & H2 & H3).
  apply evolves_sub; cbn; [done|by rewrite H2|done|by apply sublist_nil_l].
Qed.

Definition is_tt (t : thread) : bool :=
  match t with
  | TTop | TBlocked | THead _ | TTimer _ | TEvict | TTaken _ | TReleased _ | TStopped => true
  | _ => false
  end.

Lemma thread_step_evolves c t b t' b' forks :
  thread_step c t b t' b' forks -> is_tt t = false -> evolves c b b'.
Proof.
  destruct 1; cbn; intros Htt; try done; try (by apply evolves_frame).
  - unfold getOrCreateShardBuffer. case_match; by apply evolves_frame.
  - by eapply enqueue_evolves.
  - unfold removeEntry. case_match; [|by apply evolves_frame]. apply evolves_sub.
    + by rewrite Release_clock.
    + by rewrite Release_notify.
    + etrans; [|apply keeps_release]. by apply keeps_same.
    + rewrite (proj1 (Release_frame _)). apply remove_first_sublist.
  - apply evolves_sub; try done. by apply keeps_alter.
  - apply evolves_sub; try done. by apply keeps_alter.
  - unfold drainEntriesForShard in *. simplify_eq. apply evolves_sub; [done..|by apply keeps_same|apply sublist_filter].
  - apply evolves_sub; [by rewrite close_done_clock|by rewrite close_done_notify|apply keeps_close|].
    by rewrite (proj1 (close_done_frame _ _)).
  - apply evolves_frame; [apply Release_clock|apply Release_notify|apply Release_frame..].
  - destruct (evict_all_evolves c (set_stopped b)) as [E1 E2 E3 E4]. by split.
  - unfold close_stopCh. case_match; by apply evolves_frame.
Qed.

(** *** The timeout goroutine's own steps *)

Lemma queue_inv_frame c b b' :
  clock b' = clock b -> keeps b b' -> queue b' `sublist_of` queue b -> queue_inv c b -> queue_inv c b'.
Proof.
  intros Hc Hk Hq Hinv.
  assert (evolves c (set_notifyCh b false) b') as Hev by (by apply evolves_sub).
  apply (evolves_queue_inv _ _ _ Hev). by destruct Hinv.
Qed.

Lemma tt_step_inv c t b t' b' forks :
  thread_step c t b t' b' forks -> is_tt t = true -> queue_inv c b -> tt_ok b t ->
  is_tt t' = true /\ forks = [] /\ queue_inv c b' /\ tt_ok b' t'.
Proof.
  destruct 1; cbn; intros Htt Hq Hok; try done.
  - split_and!; try done. by right.
  - split_and!; try done. right. rewrite H. unfold dl. by rewrite H0.
  - by destruct (d - clock b <=? 0).
  - split_and!; try done. by destruct Hq.
  - split_and!; try done. by destruct Hq.
  - split_and!; [by destruct r|done| |by destruct r]. unfold evictHead in *.
    destruct (queue b) as [|e q] eqn:Eq; simplify_eq; [done|]. case_match; [|by simplify_eq; destruct Hq].
    case_match; simplify_eq; [done|]. apply (queue_inv_frame c b); [done|by apply keeps_same| |done].
    cbn. rewrite Eq. by constructor.
  - split_and!; try done. apply (queue_inv_frame c b); [by rewrite Release_clock| |by rewrite (proj1 (Release_frame _))|done].
    etrans; [|apply keeps_release]. by apply keeps_alter.
  - split_and!; try done. apply (queue_inv_frame c b); [apply close_done_clock|apply keeps_close| |done].
    by rewrite (proj1 (close_done_frame _ _)).
Qed.

(** *** Shutdown *)

Definition shutting (t : thread) : bool :=
  match t with ShutCancel _ | ShutWait _ | ShutStop | ShutReturned => true | _ => false end.

Lemma thread_step_shutting c t b t' b' forks :
  thread_step c t b t' b' forks ->
  (shutting t' = true -> shutting t = true \/ t = ShutReady) /\ Forall (fun t => shutting t = false) forks.
Proof.
  destruct 1; cbn; split; try (by auto); try (by repeat constructor); try (by destruct d; repeat constructor);
    try (by destruct r); try (by repeat case_match).
  by destruct (waitIfAlreadyBuffering sb).
Qed.

Lemma thread_step_tt c t b t' b' forks :
  thread_step c t b t' b' forks -> is_tt t = false -> is_tt t' = false /\ Forall (fun t => is_tt t = false) forks.
Proof.
  destruct 1; cbn; intros Htt; split; try done; try (by repeat constructor); try (by destruct d; repeat constructor);
    try (by destruct r); try (by repeat case_match).
  by destruct (waitIfAlreadyBuffering sb).
Qed.

(** ** The invariant of the pool *)

(** The queue is in order; there is one timeout goroutine, awake when it has to
    be; nothing is being shut down before the buffer is stopped. *)
Record pool_inv (c : Config) (p : pool) : Prop := {
  p_queue : queue_inv c p.1;
  p_tt : exists ts1 t ts2, p.2 = ts1 ++ t :: ts2 /\ is_tt t = true /\ tt_ok p.1 t /\
           Forall (fun t => is_tt t = false) ts1 /\ Forall (fun t => is_tt t = false) ts2;
  p_stopCh : stopCh p.1 = true -> stopped p.1 = true;
  p_shutting t : t ∈ p.2 -> shutting t = true -> stopped p.1 = true;
  p_once : stop_once p
}.

Notation no_tt := (Forall (fun t => is_tt t = false)).

(** The one timeout goroutine among the goroutines around the one that steps. *)
Lemma tt_around ts1 t ts2 us1 u us2 :
  ts1 ++ t :: ts2 = us1 ++ u :: us2 -> is_tt t = false -> is_tt u = true -> no_tt us1 -> no_tt us2 ->
  (exists l, ts1 = us1 ++ u :: l /\ us2 = l ++ t :: ts2) \/ (exists l, us1 = ts1 ++ t :: l /\ ts2 = l ++ u :: us2).
Proof.
  intros E Ht Hu. revert us1 E. induction ts1 as [|a ts1 IH]; intros [|a' us1] E H1 H2; simplify_eq/=.
  - congruence.
  - right. by exists us1.
  - left. by exists ts1.
  - apply Forall_cons in H1 as [_ H1]. destruct (IH us1) as [(l & -> & ->)|(l & -> & ->)]; [done..| |].
    + left. by exists l.
    + right. by exists l.
Qed.

Lemma tt_exact ts1 t ts2 us1 u us2 :
  ts1 ++ t :: ts2 = us1 ++ u :: us2 -> is_tt t = true -> is_tt u = true -> no_tt us1 -> no_tt us2 ->
  ts1 = us1 /\ t = u /\ ts2 = us2.
Proof.
  intros E Ht Hu. revert us1 E. induction ts1 as [|a ts1 IH]; intros [|a' us1] E H1 H2; simplify_eq/=.
  - done.
  - apply Forall_cons in H1 as [? _]. congruence.
  - apply Forall_app in H2 as [_ [? _]%Forall_cons]. congruence.
  - apply Forall_cons in H1 as [_ H1]. by destruct (IH us1) as (-> & -> & ->).
Qed.

Lemma thread_step_pool_stop c b ts1 t ts2 t' b' forks :
  thread_step c t b t' b' forks ->
  (stopCh b = true -> stopped b = true) -> (forall u, u ∈ ts1 ++ t :: ts2 -> shutting u = true -> stopped b = true) ->
  (stopCh b' = true -> stopped b' = true) /\
  (forall u, u ∈ ts1 ++ t' :: forks ++ ts2 -> shutting u = true -> stopped b' = true).
Proof.
  intros Hs H1 H2.
  assert (shutting t = true -> stopped b = true) as Ht by (apply H2, elem_of_app; right; left).
  pose proof (thread_step_flags _ _ _ _ _ _ Hs) as Hf. pose proof (thread_step_shutting _ _ _ _ _ _ Hs) as [Hsh HF].
  assert (stopped b = true -> stopped b' = true) as Hmono by (intros; destruct Hf as [[? ?]|[(? & ? & ?)|[? ?]]]; congruence).
  split.
  - intros Hc. destruct Hf as [[E1 E2]|[(E0 & E1 & E2)|[-> E1]]]; [|done|apply Hmono, Ht; done]. apply Hmono, H1. congruence.
  - intros u Hu Hshu. apply elem_of_app in Hu as [Hu|[->|[Hu|Hu]%elem_of_app]%elem_of_cons].
    + apply Hmono, (H2 u); [|done]. apply elem_of_app. by left.
    + destruct (Hsh Hshu) as [Hx| ->]; [by apply Hmono, Ht|]. inversion Hs; subst. destruct Hf as [[E1 _]|[(_ & E1 & _)|[? ?]]]; try done.
      unfold Shutdown. cbn. apply (evict_all_stop (set_stopped b)).
    + rewrite Forall_forall in HF. rewrite (HF u Hu) in Hshu. done.
    + apply Hmono, (H2 u); [|done]. apply elem_of_app. right. by right.
Qed.

Lemma step_pool_inv c p p' : step c p p' -> pool_inv c p -> pool_inv c p'.
Proof.
  intros Hstep [Hq (us1 & u & us2 & E & Hu & Hok & N1 & N2) Hc Hsh Hone]. pose proof (step_stop_once _ _ _ Hstep Hone) as Hone'.
  clear Hone. destruct Hstep as [b ts d Hd|b ts t Ht|b ts1 t ts2 t' b' forks Hs]; cbn in *.
  - split; cbn; try done; [|by exists us1, u, us2]. destruct Hq as [Q1 Q2 Q3]. split; try done.
    cbn. intros e He. specialize (Q3 e He). unfold dl in *. cbn. lia.
  - split; cbn; try done.
    + exists (t :: us1), u, us2. subst ts. split_and!; try done. constructor; [by destruct t|done].
    + intros a [->|Ha]%elem_of_cons; [by destruct t|by apply Hsh].
  - destruct (thread_step_pool_stop _ _ _ _ _ _ _ _ Hs Hc Hsh) as [Hc' Hsh'].
    destruct (is_tt t) eqn:Htt.
    + destruct (tt_exact _ _ _ _ _ _ E Htt Hu N1 N2) as (-> & -> & ->).
      destruct (tt_step_inv _ _ _ _ _ _ Hs Hu Hq Hok) as (Ht' & -> & Hq' & Hok'). split; cbn; try done.
      by exists us1, t', us2.
    + pose proof (thread_step_evolves _ _ _ _ _ _ Hs Htt) as Hev.
      destruct (thread_step_tt _ _ _ _ _ _ Hs Htt) as [Ht' Hf].
      assert (tt_ok b' u) as Hok'.
      { apply (evolves_tt_ok c b); try done. destruct (thread_step_flags _ _ _ _ _ _ Hs) as [[_ ->]|[(_ & _ & ->)|[-> _]]]; try done.
        inversion Hs; subst. unfold close_stopCh. destruct (stopCh b) eqn:Eb; cbn; by rewrite ?Eb. }
      split; cbn; try done; [by apply (evolves_queue_inv c b)|].
      destruct (tt_around _ _ _ _ _ _ E Htt Hu N1 N2) as [(l & -> & ->)|(l & -> & ->)].
      * exists us1, u, (l ++ t' :: forks ++ ts2). rewrite <- app_assoc. split_and!; try done.
        apply Forall_app in N2 as [? [_ ?]%Forall_cons]. apply Forall_app. split; [done|]. constructor; [done|]. by apply Forall_app.
      * exists (ts1 ++ t' :: forks ++ l), u, us2. rewrite <- app_assoc. cbn. rewrite <- app_assoc. split_and!; try done.
        apply Forall_app in N1 as [? [_ ?]%Forall_cons]. apply Forall_app. split; [done|]. constructor; [done|]. by apply Forall_app.
Qed.

Lemma initial_pool_inv c now : pool_inv c (initial now).
Proof.
  split; cbn; try done.
  - split; cbn; [by intros e ?%elem_of_nil|constructor|by intros e ?%elem_of_nil].
  - exists [], TTop, [ShutReady]. split_and!; repeat constructor.
  - intros t [->|[->|?%elem_of_nil]%elem_of_cons]%elem_of_cons; done.
  - by apply Nat.leb_le.
Qed.

Lemma reachable_pool_inv c p : reachable c p -> pool_inv c p /\ buffer_inv c p.
Proof.
  intros Hr. split; [|by apply reachable_inv]. destruct Hr as (now & Hr).
  pose proof (initial_pool_inv c now) as Hi. induction Hr as [|p q r Hs _ IH]; [done|]. by apply IH, (step_pool_inv c p).
Qed.

(** ** An expired request is evicted *)

(** A step of the timeout goroutine, alone and in the pool. *)
Definition tt_run (c : Config) (s s' : Buffer * thread) : Prop :=
  is_tt s.2 = true /\ thread_step c s.2 s.1 s'.2 s'.1 [].

Definition timeout_step (c : Config) (p p' : pool) : Prop :=
  exists ts1 t ts2 t', p.2 = ts1 ++ t :: ts2 /\ p'.2 = ts1 ++ t' :: ts2 /\ tt_run c (p.1, t) (p'.1, t').

Lemma timeout_step_step c p p' : timeout_step c p p' -> step c p p'.
Proof.
  destruct p as [b ts], p' as [b' ts']. intros (ts1 & t & ts2 & t' & E & E' & _ & Hs). cbn in *. subst.
  by apply (pool_thread c b ts1 t ts2 t' b' []).
Qed.

Lemma tt_run_pool c s s' ts1 ts2 :
  rtc (tt_run c) s s' -> rtc (timeout_step c) (s.1, ts1 ++ s.2 :: ts2) (s'.1, ts1 ++ s'.2 :: ts2).
Proof.
  induction 1 as [s|s1 s2 s3 H1 _ IH]; [done|]. eapply rtc_l; [|exact IH]. exists ts1, s1.2, ts2, s2.2.
  destruct s1, s2. done.
Qed.

(** What the goroutine leaves alone. *)
Record undisturbed (b b' : Buffer) : Prop := {
  un_clock : clock b' = clock b;
  un_stop : stopCh b' = stopCh b;
  un_keeps : keeps b b'
}.

#[local] Instance undisturbed_preorder : PreOrder undisturbed.
Proof.
  split; [by intros b; split|]. intros b1 b2 b3 [? ? ?] [? ? ?]. split; [congruence..|]. by etrans.
Qed.

Section eviction.
Context (c : Config).

Lemma tt_one t b t' b' : is_tt t = true -> thread_step c t b t' b' [] -> rtc (tt_run c) (b, t) (b', t').
Proof. intros Ht Hs. by apply rtc_once. Qed.

Lemma top_to_evict b h q x :
  queue b = h :: q -> entries b !! h = Some x -> deadline x <= clock b ->
  rtc (tt_run c) (b, TTop) (b, TEvict).
Proof.
  intros Hq Hx Hd. etrans; [by eapply tt_one, (step_tt_head c b h q x)|].
  pose proof (step_tt_delay c (deadline x) b) as Hs. destruct (Z.leb_spec (deadline x - clock b) 0); [|lia]. by apply tt_one.
Qed.

Lemma dl_expired b h : is_Some (entries b !! h) -> dl b h <= clock b -> exists x, entries b !! h = Some x /\ deadline x <= clock b.
Proof. intros [x Hx] Hd. exists x. split; [done|]. unfold dl in Hd. by rewrite Hx in Hd. Qed.

(** From the top of the loop in a state that kept the queue. *)
Lemma top_to_evict_kept b b' h q :
  queue b = h :: q -> is_Some (entries b !! h) -> dl b h <= clock b -> queue b' = queue b -> undisturbed b b' ->
  rtc (tt_run c) (b', TTop) (b', TEvict).
Proof.
  intros Hq Hv Hd Hq' [Hc _ Hk]. destruct (dl_expired b h Hv Hd) as (x & Hx & Hle).
  destruct (Hk h x Hx) as (x' & Hx' & E). apply (top_to_evict b' h q x'); [congruence|done|lia].
Qed.

Lemma notified_undisturbed b : undisturbed b (set_notifyCh b false).
Proof. split; [done..|]. by apply keeps_same. Qed.

Lemma close_undisturbed b e : undisturbed b (close_done b e) /\ queue (close_done b e) = queue b.
Proof.
  split; [|apply close_done_frame]. split; [apply close_done_clock|apply close_done_stop|apply keeps_close].
Qed.

Lemma release_undisturbed b e :
  undisturbed b (Release (set_err b e MTB02)) /\ queue (Release (set_err b e MTB02)) = queue b.
Proof.
  split; [|apply (Release_frame (set_err b e MTB02))].
  split; [apply (Release_clock (set_err b e MTB02))|apply (Release_stop (set_err b e MTB02))|].
  etrans; [|apply keeps_release]. by apply keeps_alter.
Qed.

(** Wherever it is, the goroutine gets to evict an expired head. *)
Lemma wake_to_evict b t h q :
  is_tt t = true -> tt_ok b t -> stopCh b = false ->
  queue b = h :: q -> is_Some (entries b !! h) -> dl b h <= clock b ->
  exists b', rtc (tt_run c) (b, t) (b', TEvict) /\ queue b' = queue b /\ undisturbed b b'.
Proof.
  intros Ht Hok Hs Hq Hv Hd.
  assert (forall b' t', queue b' = queue b -> undisturbed b b' -> rtc (tt_run c) (b, t) (b', t') -> t' = TTop ->
    exists b', rtc (tt_run c) (b, t) (b', TEvict) /\ queue b' = queue b /\ undisturbed b b') as Htop.
  { intros b' t' E Hu Hr ->. exists b'. split_and!; [|done..]. etrans; [exact Hr|]. by apply (top_to_evict_kept b b' h q). }
  assert (notifyCh b = true \/ queue b = [] -> notifyCh b = true) as Hn by (rewrite Hq; by intros [?|?]).
  assert (forall d, watched b d -> notifyCh b = true \/ d <= clock b) as Hw.
  { intros d [?|Hw]; [by left|right]. rewrite Hq in Hw. lia. }
  destruct t; try done; cbn in Hok.
  - by apply (Htop b TTop).
  - apply (Htop (set_notifyCh b false) TTop); [done|apply notified_undisturbed| |done].
    apply tt_one; [done|]. apply step_tt_notified. auto.
  - pose proof (tt_one _ _ _ _ Ht (step_tt_delay c d b)) as H1. destruct (Z.leb_spec (d - clock b) 0).
    + exists b. done.
    + destruct (Hw d Hok) as [Hnot|]; [|lia]. apply (Htop (set_notifyCh b false) TTop); [done|apply notified_undisturbed| |done].
      etrans; [exact H1|]. apply tt_one; [done|]. by apply step_tt_timer_notified.
  - destruct (Hw d Hok) as [Hnot|Hle].
    + apply (Htop (set_notifyCh b false) TTop); [done|apply notified_undisturbed| |done].
      apply tt_one; [done|]. by apply step_tt_timer_notified.
    + exists b. split_and!; try done. apply tt_one; [done|]. by apply step_tt_timer.
  - by exists b.
  - destruct (release_undisturbed b e) as [U1 Q1]. destruct (close_undisturbed (Release (set_err b e MTB02)) e) as [U2 Q2].
    apply (Htop (close_done (Release (set_err b e MTB02)) e) TTop); [congruence|by etrans| |done].
    etrans; [by apply tt_one, step_tt_release|]. by apply tt_one, step_tt_close.
  - destruct (close_undisturbed b e) as [U1 Q1]. apply (Htop (close_done b e) TTop); [done..| |done].
    by apply tt_one, step_tt_close.
  - congruence.
Qed.

(** Evicting the head: it leaves the queue, closed with the timeout error. *)
Lemma evict_head b h q x :
  queue b = h :: q -> entries b !! h = Some x -> done x = false -> deadline x <= clock b ->
  exists b' x', rtc (tt_run c) (b, TEvict) (b', TTop) /\ queue b' = q /\ undisturbed b b' /\
    entries b' !! h = Some x' /\ done x' = true /\ e_err x' = Some MTB02.
Proof.
  intros Hq Hx Hd Hle. set (b1 := set_queue b q). set (b2 := Release (set_err b1 h MTB02)).
  destruct (release_undisturbed b1 h) as [U2 Q2]. destruct (close_undisturbed b2 h) as [U3 Q3]. fold b2 in U2, Q2.
  assert (undisturbed b b1) as U1 by (split; [done..|]; by apply keeps_same).
  assert (evictHead b = (b1, Some h)) as Hev.
  { unfold evictHead. rewrite Hq, Hx. destruct (Z.ltb_spec (clock b) (deadline x)); [lia|done]. }
  assert (entries b2 !! h = Some (mkEntry false (deadline x) (Some MTB02) (bufferCtx x) (shardKey x))) as Hx2.
  { unfold b2. rewrite (proj1 (proj2 (Release_frame _))). cbn. rewrite list_lookup_alter_eq, Hx. cbn. by rewrite Hd. }
  exists (close_done b2 h), (mkEntry true (deadline x) (Some MTB02) (bufferCtx x) (shardKey x)). split_and!; try done.
  - etrans; [by apply tt_one, (step_tt_evict c b b1 (Some h))|].
    etrans; [by apply tt_one, step_tt_release|]. by apply tt_one, step_tt_close.
  - by rewrite Q3, Q2.
  - by etrans; [|etrans].
  - unfold close_done. rewrite Hx2. cbn. rewrite list_lookup_insert_eq; [done|]. by apply lookup_lt_Some in Hx2.
Qed.

End eviction.

Lemma step_invs c p p' : rtc (timeout_step c) p p' -> pool_inv c p /\ buffer_inv c p -> pool_inv c p' /\ buffer_inv c p'.
Proof.
  induction 1 as [|p q r Hs _ IH]; [done|]. intros [Hp Hb]. apply timeout_step_step in Hs. apply IH.
  split; [by apply (step_pool_inv c p)|apply (step_inv c p); [done|apply Hp|done]].
Qed.

(** A queued entry's channel is open. *)
Lemma queued_open c b ts e x : buffer_inv c (b, ts) -> e ∈ queue b -> entries b !! e = Some x -> done x = false.
Proof.
  intros [[_ T2 _ _] _ _ _ _] He Hx. cbn in *. destruct (T2 e Queued) as (y & Hy & Hd).
  - apply elem_of_app. left. unfold queued. apply list_elem_of_fmap. by exists e.
  - cbn in Hd. congruence.
Qed.

Lemma evict_first c ts1 ts2 b t h q :
  pool_inv c (b, ts1 ++ t :: ts2) /\ buffer_inv c (b, ts1 ++ t :: ts2) ->
  is_tt t = true -> tt_ok b t -> stopCh b = false -> queue b = h :: q -> dl b h <= clock b ->
  exists b' x', rtc (timeout_step c) (b, ts1 ++ t :: ts2) (b', ts1 ++ TTop :: ts2) /\ queue b' = q /\
    undisturbed b b' /\ entries b' !! h = Some x' /\ done x' = true /\ e_err x' = Some MTB02.
Proof.
  intros Hinv Ht Hok Hs Hq Hd.
  assert (is_Some (entries b !! h)) as Hv.
  { destruct Hinv as [[[Q1 _ _] _ _ _] _]. apply Q1. cbn. rewrite Hq. left. }
  destruct (wake_to_evict c b t h q) as (b1 & R1 & E1 & U1); [done..|].
  apply (tt_run_pool c _ _ ts1 ts2) in R1. cbn in R1. pose proof (step_invs c _ _ R1 Hinv) as [_ Hb1].
  destruct (dl_expired b h Hv Hd) as (x & Hx & Hle). destruct (un_keeps _ _ U1 h x Hx) as (x1 & Hx1 & Ex1).
  rewrite Hq in E1.
  destruct (evict_head c b1 h q x1) as (b2 & x2 & R2 & E2 & U2 & Hx2); [done..| | |].
  - apply (queued_open c b1 _ h x1 Hb1); [rewrite E1; left|done].
  - rewrite (un_clock _ _ U1). lia.
  - exists b2, x2. apply (tt_run_pool c _ _ ts1 ts2) in R2. split_and!; try done; [by etrans|by etrans|..]; apply Hx2.
Qed.

Lemma evict_prefix c ts1 ts2 l : forall b t e r,
  pool_inv c (b, ts1 ++ t :: ts2) /\ buffer_inv c (b, ts1 ++ t :: ts2) ->
  is_tt t = true -> tt_ok b t -> stopCh b = false ->
  queue b = l ++ e :: r -> dl b e <= clock b ->
  exists b' t' x', rtc (timeout_step c) (b, ts1 ++ t :: ts2) (b', ts1 ++ t' :: ts2) /\ clock b' = clock b /\
    entries b' !! e = Some x' /\ done x' = true /\ e_err x' = Some MTB02.
Proof.
  induction l as [|h l IH]; intros b t e r Hinv Ht Hok Hs Hq Hd.
  - destruct (evict_first c ts1 ts2 b t e r) as (b1 & x1 & R1 & _ & U1 & Hx1); [done..|].
    exists b1, TTop, x1. split_and!; try apply Hx1; [done|apply U1].
  - assert (dl b h <= dl b e /\ is_Some (entries b !! e)) as [Hle Hv].
    { destruct Hinv as [[[Q1 Q2 _] _ _ _] _]. cbn in Q1, Q2. rewrite Hq in Q1, Q2. split.
      - inversion Q2 as [|? ? _ HF]; subst. rewrite Forall_forall in HF. apply HF, elem_of_app. right; left.
      - apply Q1. right. apply elem_of_app. right; left. }
    destruct (evict_first c ts1 ts2 b t h (l ++ e :: r)) as (b1 & x1 & R1 & E1 & [U1 U2 U3] & _); [done..|lia|].
    destruct (IH b1 TTop e r) as (b2 & t2 & x2 & R2 & C2 & Hx2); [by apply (step_invs c _ _ R1)|done|done|congruence|done| |].
    + destruct Hv as [x Hx]. destruct (U3 e x Hx) as (y & Hy & Ey). unfold dl in *. rewrite Hx in Hd. rewrite Hy. cbn in *. lia.
    + exists b2, t2, x2. split_and!; try apply Hx2; [by etrans|congruence].
Qed.

(** C11: an expired request is evicted, whatever else the gateway does.  While the
    buffer is not shut down, a queued request whose window has passed is closed
    with the timeout error by steps of the timeout goroutine alone, in the order of
    the queue and without time passing: no wake-up is ever missed. *)
Theorem expired_request_evicted c b ts e x :
  reachable c (b, ts) -> stopped b = false ->
  e ∈ queue b -> entries b !! e = Some x -> deadline x <= clock b ->
  exists b' ts' x', rtc (timeout_step c) (b, ts) (b', ts') /\ clock b' = clock b /\
    entries b' !! e = Some x' /\ done x' = true /\ e_err x' = Some MTB02.
Proof.
  intros Hr Hs He Hx Hd. destruct (reachable_pool_inv c _ Hr) as [Hp Hb]. pose proof Hp as [_ (ts1 & t & ts2 & E & Ht & Hok & _) Hc _].
  cbn in *. subst ts. apply list_elem_of_split in He as (l & r & Eq).
  destruct (evict_prefix c ts1 ts2 l b t e r) as (b' & t' & x' & R & C & Hx'); try done.
  - destruct (stopCh b); [rewrite Hc in Hs; done|done].
  - unfold dl. rewrite Hx. done.
  - by exists b', (ts1 ++ t' :: ts2), x'.
Qed.

Lemma reachable_tick c b ts d : 0 <= d -> reachable c (b, ts) -> reachable c (tick b d, ts).
Proof. intros Hd (now & Hr). exists now. eapply rtc_r; [exact Hr|]. by constructor. Qed.

Lemma expired_request_evicted_witness :
  clock (tick demo_buffer 10) = 10 /\
  exists b' ts' x', rtc (timeout_step demo_config) (tick demo_buffer 10, demo_pool) (b', ts') /\ clock b' = 10 /\
    entries b' !! 0%nat = Some x' /\ done x' = true /\ e_err x' = Some MTB02.
Proof.
  split; [reflexivity|].
  apply (expired_request_evicted demo_config (tick demo_buffer 10) demo_pool 0
    (mkEntry false 10 None false "s")); [|reflexivity|left|reflexivity|vm_compute; discriminate].
  apply reachable_tick; [lia|exact demo_reachable].
Defined.

(** ** Two windows between critical sections *)

Lemma step_at c b ts i t t' b' forks :
  ts !! i = Some t -> thread_step c t b t' b' forks ->
  step c (b, ts) (b', take i ts ++ t' :: forks ++ drop (S i) ts).
Proof.
  intros Hi Hs. rewrite <- (take_drop_middle ts i t Hi) at 1. by apply pool_thread.
Qed.

Lemma reach_step c p p' : reachable c p -> step c p p' -> reachable c p'.
Proof. intros (now & Hr) Hs. exists now. by eapply rtc_r. Qed.

(** A request that decided to wait and a failover that ends before it joins the
    queue: the drain misses it, the shard is idle again, and the request waits for
    a failover that is over, until its window passes. *)
Example late_request_misses_drain :
  exists b ts, reachable demo_config (b, ts) /\
    ts = [Returned None; Waiting 0; Timer "s" 1 20; TTop; ShutReady] /\
    queue b = [0%nat] /\ (state <$> buffers b !! "s") = Some stateIdle.
Proof.
  assert (reachable demo_config (demo_started, [Enqueue "s"; Timer "s" 1 20; TTop; ShutReady])) as H0.
  { exists 0. eapply rtc_l; [apply (pool_arrive _ _ _ (Call false "s") I)|].
    eapply rtc_l; [by apply step_head, step_create|].
    eapply rtc_l; [eapply step_head, (step_wait _ _ _ newShardBuffer); by vm_compute|]. apply rtc_refl. }
  eapply reach_step in H0; [|by apply (pool_arrive _ _ _ (Stop "s" 0))].
  eapply reach_step in H0; [|by eapply (step_at _ _ _ 0 (Stop "s" 0)), (step_stop _ _ _ _ demo_shard)].
  eapply reach_step in H0; [|by eapply (step_at _ _ _ 0 (Extract "s")), step_extract].
  eapply reach_step in H0; [|by eapply (step_at _ _ _ 0 (Launch "s" [])), step_launch_none].
  eapply reach_step in H0; [|by eapply (step_at _ _ _ 1 (Enqueue "s")), step_enqueue].
  eexists _, _. split_and!; [exact H0|done..].
Qed.

(** Shutdown waits for the drains that were started, not for the one whose entries
    are off the queue but not yet handed to its goroutine: that drain starts after
    Shutdown has returned. *)
Example shutdown_returns_before_drain :
  exists b ts, reachable demo_config (b, ts) /\
    ShutReturned ∈ ts /\ Drain "s" [0%nat] [] ∈ ts /\ (drainWg <$> buffers b !! "s") = Some 1.
Proof.
  pose proof demo_reachable as H0.
  eapply reach_step in H0; [|by apply (pool_arrive _ _ _ (Stop "s" 0))].
  eapply reach_step in H0; [|by eapply (step_at _ _ _ 0 (Stop "s" 0)), (step_stop _ _ _ _ demo_shard)].
  eapply reach_step in H0; [|by eapply (step_at _ _ _ 0 (Extract "s")), step_extract].
  eapply reach_step in H0; [|by eapply (step_at _ _ _ 4 ShutReady), step_shutdown].
  eapply reach_step in H0; [|by eapply (step_at _ _ _ 4 (ShutCancel ["s"])), step_shut_cancel].
  eapply reach_step in H0; [|by eapply (step_at _ _ _ 4 (ShutWait ["s"])), step_shut_wait].
  eapply reach_step in H0; [|by eapply (step_at _ _ _ 4 (ShutWait [])), step_shut_waited].
  eapply reach_step in H0; [|by eapply (step_at _ _ _ 4 ShutStop), step_shut_stop].
  eapply reach_step in H0; [|by eapply (step_at _ _ _ 0 (Launch "s" [0%nat])), step_launch].
  eexists _, _. split_and!; [exact H0| | |done]; apply list_elem_of_In; cbn; auto 10.
Qed.
