(* ===== verification/FairShare.v ===== *)
(** Capacity allocation between user pools: services/multipooler/internal/
    connpoolmanager/fair_share_allocator.go.

    [Allocate] is the progressive filling of one class's budget among its users;
    [splitClassCapacity] divides the shared budget between the two classes.  Go
    ranges over a map in an unspecified order, a fresh one for every loop: the
    order of each filling round is an argument, [order r us] being the order in
    which round [r] visits the users [us].  Amounts are int64 in the code and
    unbounded here; what is handed out stays between zero and the budget, so no
    sum wraps. *)

From stdpp Require Import base gmap numbers list strings fin_maps.
From Stdlib Require Import Floats.SpecFloat.
From S2P Require Import Prelude.

Local Open Scope Z_scope.

(** ** The allocator *)

Record FairShareAllocator := mkFairShareAllocator { capacity : Z; minPerUser : Z }.

Definition NewFairShareAllocator (capacity minPerUser : Z) : FairShareAllocator :=
  mkFairShareAllocator capacity (if minPerUser <? 1 then 1 else minPerUser).

Definition Capacity (a : FairShareAllocator) : Z := capacity a.

Definition SetCapacity (a : FairShareAllocator) (c : Z) : FairShareAllocator :=
  mkFairShareAllocator c (minPerUser a).

(** What a filling round carries from one user to the next. *)
Record filling := mkFilling { allocs : gmap string Z; allocated : Z; newlySatisfied : list string }.

(** The effective demand, [max(demands[user], a.minPerUser)]. *)
Definition effective (a : FairShareAllocator) (demands : gmap string Z) (user : string) : Z :=
  Z.max (default 0 (demands !! user)) (minPerUser a).

(** The body of the loop over the unsatisfied users. *)
Definition give_user (a : FairShareAllocator) (demands : gmap string Z) (fairShare remaining : Z)
    (user : string) (st : filling) : filling :=
  let demand := effective a demands user in
  let alloc := default 0 (allocs st !! user) in
  let remainingDemand := demand - alloc in
  if remainingDemand <=? 0
  then mkFilling (allocs st) (allocated st) (newlySatisfied st ++ [user])
  else
    let give := Z.min remainingDemand (Z.min fairShare (remaining - allocated st)) in
    if give <=? 0 then st
    else
      mkFilling (<[user := alloc + give]> (allocs st)) (allocated st + give)
        (if demand <=? alloc + give then newlySatisfied st ++ [user] else newlySatisfied st).

Fixpoint give_users (a : FairShareAllocator) (demands : gmap string Z) (fairShare remaining : Z)
    (users : list string) (st : filling) : filling :=
  match users with
  | [] => st
  | user :: users =>
      give_users a demands fairShare remaining users
        (give_user a demands fairShare remaining user st)
  end.

Definition fair_share (remaining : Z) (unsatisfied : list string) : Z :=
  let fairShare := remaining `quot` len unsatisfied in
  if fairShare =? 0 then 1 else fairShare.

(** The filling loop: the allocations and what is left of the budget.  [None] is
    running out of fuel, which [Allocate]'s never does. *)
Fixpoint fill (a : FairShareAllocator) (demands : gmap string Z)
    (order : nat -> list string -> list string) (fuel : nat)
    (round : nat) (unsatisfied : list string) (al : gmap string Z) (remaining : Z)
    : option (gmap string Z * Z) :=
  match fuel with
  | O => None
  | S fuel =>
      if (0 <? remaining) && (0 <? len unsatisfied) then
        let st := give_users a demands (fair_share remaining unsatisfied) remaining
                    (order round unsatisfied) (mkFilling al 0 []) in
        let unsatisfied' := filter (fun u => u ∉ newlySatisfied st) unsatisfied in
        let remaining' := remaining - allocated st in
        if allocated st =? 0 then Some (allocs st, remaining')
        else fill a demands order fuel (S round) unsatisfied' (allocs st) remaining'
      else Some (al, remaining)
  end.

Definition Allocate (a : FairShareAllocator) (order : nat -> list string -> list string)
    (demands : gmap string Z) : option (gmap string Z) :=
  let users := (map_to_list demands).*1 in
  if len users =? 0 then Some ∅
  else
    match fill a demands order (S (Z.to_nat (capacity a))) 0 users ((fun _ => 0) <$> demands) (capacity a) with
    | None => None
    | Some (al, remaining) =>
        if 0 <? remaining then
          let extraPerUser := remaining `quot` len users in
          if 0 <? extraPerUser then Some ((fun x => x + extraPerUser) <$> al) else Some al
        else Some al
    end.

(** ** float64

    The ratio is a float64; the one float expression of the code is
    [int64(float64(n) * (1 - reservedRatio))], computed with the binary64
    arithmetic of the standard library's specification of floats. *)

Definition float64 : Type := spec_float.

Definition float_of_Z (n : Z) : float64 := binary_normalize 53 1024 n 0 false.
Definition float_one : float64 := float_of_Z 1.

(** [n / d], the nearest float64 of a decimal literal. *)
Definition float_div (n d : Z) : float64 := SFdiv 53 1024 (float_of_Z n) (float_of_Z d).

(** [int64(f)]: truncation toward zero (on the finite values of the code). *)
Definition int_of_float (f : float64) : Z :=
  match f with
  | S754_finite s m e =>
      let v := if 0 <=? e then Z.pos m * 2 ^ e else Z.pos m `quot` 2 ^ (- e) in
      if s then - v else v
  | _ => 0
  end.

(** [int64(float64(n) * (1 - ratio))]. *)
Definition regular_share (ratio : float64) (n : Z) : Z :=
  int_of_float (SFmul 53 1024 (float_of_Z n) (SFsub 53 1024 float_one ratio)).

(** [int64(float64(n) * ratio)]. *)
Definition reserved_share (ratio : float64) (n : Z) : Z :=
  int_of_float (SFmul 53 1024 (float_of_Z n) ratio).

(** ** The split between the two classes *)

Definition class_targets (total : Z) (reservedRatio : float64) : Z * Z :=
  let regularTarget := Z.max (regular_share reservedRatio total) 1 in
  (regularTarget, Z.max (total - regularTarget) 1).

(** Demand within the targets, spare capacity lent above them, the rest shared by
    the ratio. *)
Definition split_by_demand (total : Z) (reservedRatio : float64) (targets : Z * Z)
    (regularDemand reservedDemand : Z) : Z * Z :=
  let regularCap := Z.min (Z.max regularDemand 0) targets.1 in
  let reservedCap := Z.min (Z.max reservedDemand 0) targets.2 in
  let spare := total - regularCap - reservedCap in
  let lend := Z.min (regularDemand - regularCap) spare in
  let '(regularCap, spare) :=
    if 0 <? lend then (regularCap + lend, spare - lend) else (regularCap, spare) in
  let lend := Z.min (reservedDemand - reservedCap) spare in
  let '(reservedCap, spare) :=
    if 0 <? lend then (reservedCap + lend, spare - lend) else (reservedCap, spare) in
  if 0 <? spare then
    let extraRegular := regular_share reservedRatio spare in
    (regularCap + extraRegular, reservedCap + (spare - extraRegular))
  else (regularCap, reservedCap).

(** The floor of each class, taken from the other one. *)
Definition split_floors (targets : Z * Z) (minCap : Z) (caps : Z * Z) : Z * Z :=
  let '(regularCap, reservedCap) := caps in
  let regularFloor := Z.max (Z.min minCap targets.1) 1 in
  let reservedFloor := Z.max (Z.min minCap targets.2) 1 in
  let '(regularCap, reservedCap) :=
    if regularCap <? regularFloor
    then (regularFloor, Z.max (reservedCap - (regularFloor - regularCap)) reservedFloor)
    else (regularCap, reservedCap) in
  if reservedCap <? reservedFloor
  then (Z.max (regularCap - (reservedFloor - reservedCap)) regularFloor, reservedFloor)
  else (regularCap, reservedCap).

Definition splitClassCapacity (total : Z) (reservedRatio : float64)
    (regularDemand reservedDemand minCap : Z) : Z * Z :=
  let targets := class_targets total reservedRatio in
  split_floors targets minCap
    (split_by_demand total reservedRatio targets regularDemand reservedDemand).

(** ** Sums over maps *)

Definition total (m : gmap string Z) : Z := map_fold (fun _ v s => v + s) 0 m.

Lemma total_insert_new m k x : m !! k = None -> total (<[k := x]> m) = x + total m.
Proof. intros Hk. unfold total. rewrite map_fold_insert_L; [done| |done]. intros; lia. Qed.

Lemma total_insert m k x y : m !! k = Some x -> total (<[k := y]> m) = total m + (y - x).
Proof.
  intros Hk. rewrite <- (insert_delete_id m k x Hk) at 2. rewrite <- insert_delete_eq.
  rewrite !total_insert_new by apply lookup_delete_eq. lia.
Qed.

Lemma total_const (m : gmap string Z) c : total ((fun _ => c) <$> m) = c * Z.of_nat (size m).
Proof.
  induction m as [|k x m Hk IH] using map_ind; [by cbn; rewrite Z.mul_0_r|].
  rewrite fmap_insert, total_insert_new by (by rewrite lookup_fmap, Hk).
  rewrite map_size_insert_None by done. lia.
Qed.

Lemma total_shift m c : total ((fun x => x + c) <$> m) = total m + c * Z.of_nat (size m).
Proof.
  induction m as [|k x m Hk IH] using map_ind; [by cbn; rewrite Z.mul_0_r|].
  rewrite fmap_insert, !total_insert_new by (by rewrite ?lookup_fmap, ?Hk).
  rewrite map_size_insert_None by done. lia.
Qed.

Lemma total_le m c :
  (forall k x, m !! k = Some x -> x <= c) -> total m <= c * Z.of_nat (size m).
Proof.
  intros Hle. induction m as [|k x m Hk IH] using map_ind; [by cbn; rewrite Z.mul_0_r|].
  rewrite total_insert_new, map_size_insert_None by done.
  pose proof (Hle k x (lookup_insert_eq _ _ _)).
  cut (total m <= c * Z.of_nat (size m)); [lia|]. apply IH. intros k' x' Hx. apply (Hle k').
  rewrite lookup_insert_ne; [done|]. by intros ->; simplify_eq.
Qed.

(** ** The filling round *)

Section Round.
Context (a : FairShareAllocator) (demands : gmap string Z).
Notation eff := (effective a demands).

(** What one round does to a user it visits while at least [want] is left: it
    raises the allocation from the level [L] by [f], or to the demand. *)
Definition raised (L f : Z) (al : gmap string Z) (users : list string) (st0 st : filling) : Prop :=
  allocated st = allocated st0 + (total (allocs st) - total al) /\
  (forall u, u ∉ users -> allocs st !! u = al !! u) /\
  (forall u, u ∈ users -> allocs st !! u = Some (Z.min (eff u) (L + f))) /\
  (forall u, u ∈ newlySatisfied st <->
     u ∈ newlySatisfied st0 \/ (u ∈ users /\ eff u <= L + f)).

(** With enough left for everyone, every user gets the fair share or its demand. *)
Lemma give_users_enough L f remaining users st :
  1 <= f -> NoDup users ->
  (forall u, u ∈ users -> allocs st !! u = Some L /\ L < eff u) ->
  allocated st + f * len users <= remaining ->
  raised L f (allocs st) users st (give_users a demands f remaining users st) /\
  allocated st + len users <= allocated (give_users a demands f remaining users st)
    <= allocated st + f * len users.
Proof.
  intros Hf. revert st. induction users as [|u users IH]; intros st Hnd Hlvl Hrem.
  { cbn. unfold len; cbn. split; [|lia]. split_and!; [lia|done|by intros ? ?%elem_of_nil|].
    intros u. split; [by left|]. by intros [?|[?%elem_of_nil _]]. }
  apply NoDup_cons in Hnd as [Hu Hnd]. cbn [give_users].
  pose proof (Hlvl u ltac:(left)) as [HL Hlt].
  set (st' := give_user a demands f remaining u st).
  unfold len in Hrem; cbn [length] in Hrem.
  assert (Hst' : st' = mkFilling (<[u := Z.min (eff u) (L + f)]> (allocs st))
            (allocated st + Z.min (eff u - L) f)
            (if eff u <=? L + f then newlySatisfied st ++ [u] else newlySatisfied st)).
  { unfold st', give_user. rewrite HL. cbn. rewrite (proj2 (Z.leb_gt _ _)) by lia.
    replace (Z.min (eff u - L) (Z.min f (remaining - allocated st))) with (Z.min (eff u - L) f) by lia.
    rewrite (proj2 (Z.leb_gt _ _)) by lia.
    replace (L + Z.min (eff u - L) f) with (Z.min (eff u) (L + f)) by lia.
    replace (eff u <=? Z.min (eff u) (L + f)) with (eff u <=? L + f); [done|].
    apply eq_iff_eq_true. rewrite !Z.leb_le. lia. }
  destruct (IH st') as [(Ha & Hout & Hin & Hsat) Hb]; rewrite ?Hst' in *; cbn in *.
  - done.
  - intros v Hv. rewrite lookup_insert_ne by (by intros ->). apply Hlvl. by right.
  - unfold len. lia.
  - unfold len in *. rewrite (total_insert _ _ _ _ HL) in Ha. cbn [length]. split; [|lia].
    split_and!; [lia| | |].
    + intros v Hv. apply not_elem_of_cons in Hv as [Hvu Hv].
      rewrite Hout, lookup_insert_ne by done. done.
    + intros v [->|Hv]%elem_of_cons; [|by apply Hin]. by rewrite Hout, lookup_insert_eq by done.
    + intros v. rewrite Hsat, elem_of_cons.
      destruct (Z.leb_spec (eff u) (L + f)); rewrite ?elem_of_app, ?list_elem_of_singleton; [naive_solver|].
      split; [naive_solver|]. intros [?|[[->|?] ?]]; [by left|lia|by right].
Qed.

(** With less than one each, the first [k] users get one each. *)
Lemma give_users_short L remaining users st :
  NoDup users ->
  (forall u, u ∈ users -> allocs st !! u = Some L /\ L < eff u) ->
  0 <= remaining - allocated st < len users ->
  let st' := give_users a demands 1 remaining users st in
  allocated st' = remaining /\
  total (allocs st') = total (allocs st) + (remaining - allocated st) /\
  (forall u, u ∉ users -> allocs st' !! u = allocs st !! u) /\
  (forall u, u ∈ users -> exists x, allocs st' !! u = Some x /\ L <= x <= L + 1 /\ x <= eff u) /\
  (exists u, u ∈ users /\ allocs st' !! u = Some L).
Proof.
  revert st. induction users as [|u users IH]; intros st Hnd Hlvl Hrem; [unfold len in Hrem; cbn in *; lia|].
  apply NoDup_cons in Hnd as [Hu Hnd]. cbn [give_users].
  pose proof (Hlvl u ltac:(left)) as [HL Hlt]. unfold len in Hrem; cbn [length] in Hrem.
  destruct (Z.eq_dec (remaining - allocated st) 0) as [E|E].
  - assert (Hst' : give_user a demands 1 remaining u st = st).
    { unfold give_user. rewrite HL. cbn. rewrite (proj2 (Z.leb_gt _ _)) by lia.
      by rewrite (proj2 (Z.leb_le _ _)) by lia. }
    rewrite Hst'. clear Hst'. clear IH Hrem.
    assert (Hall : forall v, v ∈ users -> allocs st !! v = Some L /\ L < eff v).
    { intros v Hv. apply Hlvl. by right. }
    assert (Hid : give_users a demands 1 remaining users st = st).
    { clear Hu Hnd Hlvl. induction users as [|v users IH]; [done|]. cbn.
      destruct (Hall v ltac:(left)) as [HLv Hltv].
      replace (give_user a demands 1 remaining v st) with st.
      { apply IH. intros w Hw. apply Hall. by right. }
      unfold give_user. rewrite HLv. cbn. rewrite (proj2 (Z.leb_gt _ _)) by lia.
      by rewrite (proj2 (Z.leb_le _ _)) by lia. }
    rewrite Hid. split_and!; [lia|lia|done| |].
    + intros v Hv. destruct (Hlvl v Hv). exists L. split_and!; [done|lia..].
    + exists u. split; [left|done].
  - assert (Hst' : exists sat, give_user a demands 1 remaining u st =
                     mkFilling (<[u := L + 1]> (allocs st)) (allocated st + 1) sat).
    { unfold give_user. rewrite HL. cbn. rewrite (proj2 (Z.leb_gt _ _)) by lia.
      replace (Z.min (eff u - L) (Z.min 1 (remaining - allocated st))) with 1 by lia.
      rewrite (proj2 (Z.leb_gt _ _)) by lia. by eexists. }
    destruct Hst' as [sat ->].
    destruct (IH (mkFilling (<[u := L + 1]> (allocs st)) (allocated st + 1) sat))
      as (Ha & Ht & Hout & Hin & w & Hw & HwL); cbn in *.
    + done.
    + intros v Hv. rewrite lookup_insert_ne by (by intros ->). apply Hlvl. by right.
    + unfold len. lia.
    + rewrite (total_insert _ _ _ _ HL) in Ht. split_and!; [done|lia| | |].
      * intros v [Hvu Hv]%not_elem_of_cons. by rewrite Hout, lookup_insert_ne by done.
      * intros v [->|Hv]%elem_of_cons; [|by apply Hin]. exists (L + 1).
        rewrite Hout, lookup_insert_eq by done. split_and!; [done|lia..].
      * exists w. split; [by right|done].
Qed.

(** ** The filling loop

    Between two rounds the unsatisfied users are all at one level, and the
    satisfied ones have exactly their demand, which is no more. *)
Record level (cap : Z) (unsatisfied : list string) (al : gmap string Z) (remaining L : Z) : Prop := {
  level_dom : dom al = dom demands;
  level_budget : remaining + total al = cap;
  level_left : 0 <= remaining;
  level_nonneg : 0 <= L;
  level_nodup : NoDup unsatisfied;
  level_open : forall u, u ∈ unsatisfied -> al !! u = Some L /\ L < eff u;
  level_done : forall u x, al !! u = Some x -> u ∉ unsatisfied -> x = eff u /\ x <= L }.

(** What the loop leaves: everyone has its demand, or the budget is used up and
    the users who miss something are within one of the highest allocation. *)
Record filled (cap : Z) (al : gmap string Z) (remaining : Z) : Prop := {
  filled_dom : dom al = dom demands;
  filled_budget : remaining + total al = cap;
  filled_left : 0 <= remaining;
  filled_fair :
    (forall u x, al !! u = Some x -> x = eff u) \/
    (remaining = 0 /\ exists L, 0 <= L /\
       forall u x, al !! u = Some x -> x <= eff u /\ 0 <= x <= L + 1 /\ (x < eff u -> L <= x)) }.

Lemma level_filled cap unsatisfied al remaining L :
  0 <= minPerUser a -> level cap unsatisfied al remaining L -> remaining = 0 \/ unsatisfied = [] ->
  filled cap al remaining.
Proof.
  intros Hmin [Hd Hb Hl HL Hnd Ho Hs] Hend. split; [done..|].
  destruct Hend as [->| ->]; [right|left].
  - split; [done|]. exists L. split; [done|]. intros u x Hx.
    destruct (decide (u ∈ unsatisfied)) as [Hu|Hu].
    + destruct (Ho u Hu). simplify_eq. lia.
    + destruct (Hs u x Hx Hu). unfold effective in *. lia.
  - intros u x Hx. apply (Hs u x Hx). by intros ?%elem_of_nil.
Qed.

Lemma level_round_short cap unsatisfied users al remaining L :
  0 <= minPerUser a -> level cap unsatisfied al remaining L -> users ≡ₚ unsatisfied ->
  0 <= remaining < len unsatisfied ->
  let st := give_users a demands 1 remaining users (mkFilling al 0 []) in
  allocated st = remaining /\ filled cap (allocs st) (remaining - allocated st).
Proof.
  intros Hmin [Hd Hb Hl HL Hnd Ho Hs] Hp Hr st.
  destruct (give_users_short L remaining users (mkFilling al 0 [])) as (Ha & Ht & Hout & Hin & _); cbn in *.
  - by rewrite Hp.
  - intros u Hu. apply Ho. by rewrite <- Hp.
  - unfold len in *. rewrite Hp. lia.
  - fold st in Ha, Ht, Hout, Hin. split; [done|].
    split; [|lia|lia|right; split; [lia|exists L; split; [done|]]].
    + rewrite <- Hd. apply set_eq. intros u. rewrite !elem_of_dom.
      destruct (decide (u ∈ users)) as [Hu|Hu]; [|by rewrite Hout].
      destruct (Hin u Hu) as (x & -> & _). rewrite Hp in Hu. by destruct (Ho u Hu) as [-> _].
    + intros u x Hx. destruct (decide (u ∈ users)) as [Hu|Hu].
      * destruct (Hin u Hu) as (y & Hy & ? & ?). simplify_eq. lia.
      * rewrite Hout in Hx by done. rewrite Hp in Hu. destruct (Hs u x Hx Hu).
        unfold effective in *. lia.
Qed.

Lemma level_round cap unsatisfied users al remaining L f :
  level cap unsatisfied al remaining L -> users ≡ₚ unsatisfied -> 1 <= f -> f * len unsatisfied <= remaining ->
  let st := give_users a demands f remaining users (mkFilling al 0 []) in
  len unsatisfied <= allocated st /\
  level cap (filter (fun u => u ∉ newlySatisfied st) unsatisfied) (allocs st)
    (remaining - allocated st) (L + f).
Proof.
  intros [Hd Hb Hl HL Hnd Ho Hs] Hp Hf Hr st.
  assert (Hlen : len users = len unsatisfied) by (unfold len; by rewrite Hp).
  destruct (give_users_enough L f remaining users (mkFilling al 0 [])) as [(Ha & Hout & Hin & Hsat) Hle];
    cbn in *; [done|by rewrite Hp|intros u Hu; apply Ho; by rewrite <- Hp|lia|].
  fold st in Ha, Hle, Hout, Hin, Hsat. split; [lia|].
  split; [|lia|lia|lia|by apply NoDup_filter| |].
  - rewrite <- Hd. apply set_eq. intros u. rewrite !elem_of_dom.
    destruct (decide (u ∈ users)) as [Hu|Hu]; [|by rewrite Hout].
    rewrite (Hin u Hu). rewrite Hp in Hu. by destruct (Ho u Hu) as [-> _].
  - intros u [Hns Hu]%list_elem_of_filter. rewrite <- Hp in Hu. rewrite Hsat in Hns.
    rewrite (Hin u Hu). split; [|by apply Z.nle_gt; naive_solver].
    f_equal. apply Z.min_r. apply Z.lt_le_incl, Z.nle_gt. naive_solver.
  - intros u x Hx Hu. destruct (decide (u ∈ users)) as [Hus|Hus].
    + rewrite (Hin u Hus) in Hx. simplify_eq. rewrite list_elem_of_filter, Hsat, <- Hp in Hu.
      destruct (decide (eff u <= L + f)) as [Hle'|Hle']; [lia|]. destruct Hu. split; [|done].
      by intros [?%elem_of_nil|[_ ?]].
    + rewrite Hout in Hx by done. rewrite Hp in Hus. destruct (Hs u x Hx Hus). lia.
Qed.

Context (order : nat -> list string -> list string) (Horder : forall r us, order r us ≡ₚ us).

Lemma fill_total fuel r cap unsatisfied al remaining L :
  0 <= minPerUser a -> (Z.to_nat remaining < fuel)%nat -> level cap unsatisfied al remaining L ->
  exists al' remaining',
    fill a demands order fuel r unsatisfied al remaining = Some (al', remaining') /\
    filled cap al' remaining'.
Proof.
  intros Hmin. revert r unsatisfied al remaining L.
  induction fuel as [|fuel IH]; intros r uns al rem L Hfuel Hlvl; [lia|]. cbn [fill].
  pose proof (level_left _ _ _ _ _ Hlvl) as Hl.
  destruct ((0 <? rem) && (0 <? len uns)) eqn:E.
  2:{ eexists _, _. split; [done|]. apply (level_filled cap uns al rem L); [done..|].
      apply andb_false_iff in E as [E|E]; apply Z.ltb_ge in E; [left; lia|right].
      destruct uns; [done|]. unfold len in E; cbn in E; lia. }
  apply andb_true_iff in E as [Hr Hn]. apply Z.ltb_lt in Hr, Hn.
  unfold fair_share. rewrite Z.quot_div_nonneg by lia.
  destruct (rem / len uns =? 0) eqn:Ef; reflect_bools.
  - apply Z.div_small_iff in Ef; [|lia]. destruct Ef as [Ef|Ef]; [|lia].
    destruct (level_round_short cap uns (order r uns) al rem L Hmin Hlvl (Horder r uns) Ef) as [Ha Hfd].
    rewrite Ha in *. rewrite (proj2 (Z.eqb_neq _ _)) by lia.
    destruct fuel as [|fuel]; [lia|]. cbn [fill]. rewrite Z.sub_diag in *. eexists _, _. split; [done|done].
  - assert (Hf : 1 <= rem / len uns) by (pose proof (Z.div_pos rem (len uns)); lia).
    destruct (level_round cap uns (order r uns) al rem L (rem / len uns) Hlvl (Horder r uns) Hf) as [Ha Hlvl'].
    { rewrite Z.mul_comm. apply Z.mul_div_le. lia. }
    rewrite (proj2 (Z.eqb_neq _ _)) by lia. eapply IH; [|done]. lia.
Qed.
End Round.

(** ** What an allocation promises *)

Record max_min_fair (a : FairShareAllocator) (demands al : gmap string Z) : Prop := {
  (** every user of the demands has an allocation, and nobody else; *)
  fair_users : dom al = dom demands;
  fair_nonneg : forall u x, al !! u = Some x -> 0 <= x;
  fair_budget : total al <= capacity a;
  (** a user short of its effective demand: the budget is used up, nobody has
      more than its demand and nobody is ahead of that user by more than one; *)
  fair_short : forall u x, al !! u = Some x -> x < effective a demands u ->
    total al = capacity a /\
    forall v y, al !! v = Some y -> y <= effective a demands v /\ y <= x + 1;
  (** nobody short: everyone has its demand and one same headroom, and what stays
      unused would not make one more for each; *)
  fair_headroom : (forall u x, al !! u = Some x -> effective a demands u <= x) ->
    demands = ∅ \/
    exists extra, 0 <= extra /\
      (forall u x, al !! u = Some x -> x = effective a demands u + extra) /\
      capacity a - total al < Z.of_nat (size demands);
  (** a budget of [m] each gives everyone [m], up to the per-user minimum. *)
  fair_floor : forall m u x, al !! u = Some x -> m <= minPerUser a ->
    m * Z.of_nat (size demands) <= capacity a -> m <= x }.

Lemma users_len (demands : gmap string Z) : len (map_to_list demands).*1 = Z.of_nat (size demands).
Proof. unfold len. by rewrite length_fmap, length_map_to_list. Qed.

Lemma size_of_dom {A B} (m1 : gmap string A) (m2 : gmap string B) : dom m1 = dom m2 -> size m1 = size m2.
Proof. intros Hd. by rewrite <- !size_dom, Hd. Qed.

Lemma level_start a demands : 1 <= minPerUser a -> 0 <= capacity a ->
  level a demands (capacity a) (map_to_list demands).*1 ((fun _ => 0) <$> demands) (capacity a) 0.
Proof.
  intros Hm Hc. split; [by rewrite dom_fmap_L|rewrite total_const; lia|done|done|apply NoDup_fst_map_to_list| |].
  - intros u Hu. apply list_elem_of_fmap in Hu as ([u' x] & -> & Hu%elem_of_map_to_list). cbn.
    rewrite lookup_fmap, Hu. unfold effective. split; [done|lia].
  - intros u x Hx Hu. destruct Hu. rewrite lookup_fmap in Hx. destruct (demands !! u) as [d|] eqn:E; [|done].
    apply list_elem_of_fmap. exists (u, d). by rewrite elem_of_map_to_list.
Qed.

Lemma floor_of_short a demands al : 
  (forall u x, al !! u = Some x -> x < effective a demands u ->
     total al = capacity a /\ forall v y, al !! v = Some y -> y <= effective a demands v /\ y <= x + 1) ->
  forall m u x, al !! u = Some x -> m <= minPerUser a ->
    m * Z.of_nat (size al) <= capacity a -> m <= x.
Proof.
  intros Hs m u x Hx Hm Hcap. apply Z.nlt_ge. intros Hlt.
  destruct (Hs u x Hx) as [Ht Hall]; [unfold effective; lia|].
  pose proof (total_insert al u x (x + 1) Hx) as Hins.
  assert (Hle : total (<[u := x + 1]> al) <= (x + 1) * Z.of_nat (size (<[u := x + 1]> al))).
  { apply total_le. intros k y. destruct (decide (k = u)) as [->|Hk].
    - rewrite lookup_insert_eq. intros [= <-]. lia.
    - rewrite lookup_insert_ne by done. intros Hy. by apply Hall in Hy as [_ ?]. }
  rewrite map_size_insert_Some in Hle by done. nia.
Qed.

(** One order of the users for every round does not matter: the filling loop ends
    within its fuel and its result is max-min fair. *)
Lemma Allocate_fair a order demands :
  (forall r us, order r us ≡ₚ us) -> 1 <= minPerUser a -> 0 <= capacity a ->
  exists al, Allocate a order demands = Some al /\ max_min_fair a demands al.
Proof.
  intros Hord Hm Hc. unfold Allocate. rewrite users_len.
  destruct (Z.of_nat (size demands) =? 0) eqn:E0; reflect_bools.
  { assert (demands = ∅) as -> by (apply map_size_empty_inv; lia).
    exists ∅. split; [done|]. split; [done|by intros ? ? ?%lookup_empty_Some|by change (total ∅) with 0|
      by intros ? ? ?%lookup_empty_Some|by left|by intros ? ? ? ?%lookup_empty_Some]. }
  destruct (fill_total a demands order Hord (S (Z.to_nat (capacity a))) 0 (capacity a) _ _ (capacity a) _
              ltac:(lia) ltac:(lia) (level_start a demands Hm Hc)) as (al & rem & -> & [Hd Hb Hl Hf]).
  pose proof (size_of_dom _ _ Hd) as Hsz.
  assert (Hn : 0 < Z.of_nat (size demands)) by lia.
  assert (Hshort : forall u x, al !! u = Some x -> x < effective a demands u ->
     total al = capacity a /\ forall v y, al !! v = Some y -> y <= effective a demands v /\ y <= x + 1).
  { intros u x Hx Hlt. destruct Hf as [Hf|[-> (L & HL & Hf)]]; [apply Hf in Hx; lia|].
    split; [lia|]. intros v y Hy. destruct (Hf u x Hx) as (_ & _ & ?), (Hf v y Hy) as (? & ? & _). lia. }
  assert (Hnn : forall u x, al !! u = Some x -> 0 <= x).
  { intros u x Hx. destruct Hf as [Hf|[_ (L & _ & Hf)]]; apply Hf in Hx; unfold effective in *; lia. }
  assert (Hplain : (forall u x, al !! u = Some x -> x = effective a demands u) ->
            rem < Z.of_nat (size demands) -> max_min_fair a demands al).
  { intros Hall Hrem. split; [done|done|lia|done| |rewrite <- Hsz; by apply (floor_of_short a demands)].
    intros _. right. exists 0. split_and!; [done|intros u x Hx%Hall; lia|lia]. }
  destruct (0 <? rem) eqn:Er; reflect_bools.
  2:{ exists al. split; [done|]. destruct Hf as [Hf|[_ (L & HL & Hf)]]; [apply Hplain; [done|lia]|].
      split; [done|done|lia|done| |rewrite <- Hsz; by apply (floor_of_short a demands)].
      intros Hall. right. exists 0. split_and!; [done| |lia]. intros u x Hx.
      pose proof (Hall u x Hx). destruct (Hf u x Hx). lia. }
  destruct Hf as [Hf|[-> _]]; [|lia]. rewrite Z.quot_div_nonneg by lia.
  destruct (0 <? rem / Z.of_nat (size demands)) eqn:Ee; reflect_bools.
  2:{ exists al. split; [done|]. apply Hplain; [done|].
      apply Z.nle_gt. intros Hle. apply (Z.div_le_mono _ _ (Z.of_nat (size demands))) in Hle; [|lia].
      rewrite Z.div_same in Hle; lia. }
  eexists. split; [done|].
  assert (Hval : forall u x, ((fun x => x + rem / Z.of_nat (size demands)) <$> al) !! u = Some x ->
            x = effective a demands u + rem / Z.of_nat (size demands)).
  { intros u x. rewrite lookup_fmap, fmap_Some. intros (y & Hy%Hf & ->). lia. }
  pose proof (Z.mul_div_le rem (Z.of_nat (size demands)) Hn).
  pose proof (Z.mod_pos_bound rem (Z.of_nat (size demands)) Hn).
  pose proof (Z.div_mod rem (Z.of_nat (size demands)) E0).
  split.
  - by rewrite dom_fmap_L.
  - intros u x ->%Hval. unfold effective. lia.
  - rewrite total_shift, Hsz. lia.
  - intros u x ->%Hval. lia.
  - intros _. right. exists (rem / Z.of_nat (size demands)). split_and!; [lia|done|].
    rewrite total_shift, Hsz. lia.
  - intros m u x Hx%Hval Hmm _. unfold effective in Hx. lia.
Qed.

(** ** The split between the classes *)

(** The ratio leaves both classes a share: the regular share of a positive budget
    of the range is within it, and below the whole for [total] itself. *)
Definition proper_ratio (ratio : float64) (total : Z) : Prop :=
  regular_share ratio total < total /\
  forall n, 0 < n <= total -> 0 <= regular_share ratio n <= n.

Record class_split (total : Z) (ratio : float64) (regularDemand reservedDemand minCap : Z) (caps : Z * Z) : Prop := {
  (** the classes share exactly the budget; *)
  split_total : caps.1 + caps.2 = total;
  (** neither falls below its demand or its nominal target, whichever is less,
      nor below one slot per user within the target, nor to zero; *)
  split_regular : Z.min regularDemand (class_targets total ratio).1 <= caps.1;
  split_reserved : Z.min reservedDemand (class_targets total ratio).2 <= caps.2;
  split_floor : Z.max 1 (Z.min minCap (class_targets total ratio).1) <= caps.1 /\
                Z.max 1 (Z.min minCap (class_targets total ratio).2) <= caps.2;
  (** a class that wants more than its target gets all the other neither
      demands within its own target nor keeps as its floor. *)
  split_borrow_regular :
    Z.min regularDemand
      (total - Z.max (Z.min reservedDemand (class_targets total ratio).2)
                 (Z.max 1 (Z.min minCap (class_targets total ratio).2))) <= caps.1;
  split_borrow_reserved :
    Z.min reservedDemand
      (total - Z.max (Z.min regularDemand (class_targets total ratio).1)
                 (Z.max 1 (Z.min minCap (class_targets total ratio).1))) <= caps.2 }.

Lemma class_targets_sum total ratio : 2 <= total -> proper_ratio ratio total ->
  let '(rt, st) := class_targets total ratio in 1 <= rt /\ 1 <= st /\ rt + st = total.
Proof. intros Ht [Hlt _]. unfold class_targets. lia. Qed.

(** Before the floors, the budget is shared out, no class has less than it would
    have under the fixed split, and a class above its target has all the other
    does not demand. *)
Lemma split_by_demand_spec total ratio rt st rd sd :
  1 <= rt -> 1 <= st -> rt + st = total -> proper_ratio ratio total ->
  let '(rc, sc) := split_by_demand total ratio (rt, st) rd sd in
  rc + sc = total /\ Z.min rd rt <= rc /\ Z.min sd st <= sc /\ 0 <= rc /\ 0 <= sc /\
  Z.min rd (total - Z.min (Z.max sd 0) st) <= rc /\ Z.min sd (total - Z.min (Z.max rd 0) rt) <= sc.
Proof.
  intros Hrt Hst Hsum [_ Hshare]. unfold split_by_demand. cbn [fst snd].
  set (rc := Z.min (Z.max rd 0) rt). set (sc := Z.min (Z.max sd 0) st).
  assert (Hrc : 0 <= rc <= rt /\ Z.min rd rt <= rc /\ (rc < rt -> rd <= rc)) by lia.
  assert (Hsc : 0 <= sc <= st /\ Z.min sd st <= sc /\ (sc < st -> sd <= sc)) by lia.
  clearbody rc sc.
  destruct (Z.ltb_spec 0 (Z.min (rd - rc) (total - rc - sc))) as [Hl1|Hl1].
  - destruct (Z.ltb_spec 0 (Z.min (sd - sc)
      (total - rc - sc - Z.min (rd - rc) (total - rc - sc)))) as [Hl2|Hl2]; [lia|].
    match goal with |- context [0 <? ?x] => destruct (Z.ltb_spec 0 x) as [Hsp|Hsp] end; [|lia].
    match type of Hsp with 0 < ?x => pose proof (Hshare x ltac:(lia)) end. lia.
  - destruct (Z.ltb_spec 0 (Z.min (sd - sc) (total - rc - sc))) as [Hl2|Hl2];
    match goal with |- context [0 <? ?x] => destruct (Z.ltb_spec 0 x) as [Hsp|Hsp] end; try lia;
    match type of Hsp with 0 < ?x => pose proof (Hshare x ltac:(lia)) end; lia.
Qed.

(** The floors keep the sum, and take from a class only what is above its target. *)
Lemma split_floors_spec rt st minCap rc sc :
  1 <= rt -> 1 <= st -> rc + sc = rt + st ->
  let '(rc', sc') := split_floors (rt, st) minCap (rc, sc) in
  let rf := Z.max 1 (Z.min minCap rt) in
  let sf := Z.max 1 (Z.min minCap st) in
  rc' + sc' = rt + st /\ rf <= rc' /\ sf <= sc' /\
  Z.min rc (rt + st - sf) <= rc' /\ Z.min sc (rt + st - rf) <= sc' /\
  rf <= rt /\ sf <= st.
Proof.
  intros Hrt Hst Hsum. unfold split_floors. cbn [fst snd].
  set (rf := Z.max (Z.min minCap rt) 1). set (sf := Z.max (Z.min minCap st) 1).
  replace (Z.max 1 (Z.min minCap st)) with sf by lia. replace (Z.max 1 (Z.min minCap rt)) with rf by lia.
  assert (1 <= rf <= rt) by lia. assert (1 <= sf <= st) by lia.
  clearbody rf sf. destruct (Z.ltb_spec rc rf).
  - replace (Z.max (sc - (rf - rc)) sf) with (rt + st - rf) by lia.
    destruct (Z.ltb_spec (rt + st - rf) sf); lia.
  - destruct (Z.ltb_spec sc sf); lia.
Qed.

Lemma splitClassCapacity_splits total ratio rd sd minCap :
  2 <= total -> proper_ratio ratio total ->
  class_split total ratio rd sd minCap (splitClassCapacity total ratio rd sd minCap).
Proof.
  intros Ht Hr. pose proof (class_targets_sum total ratio Ht Hr) as Htg. unfold splitClassCapacity.
  destruct (class_targets total ratio) as [rt st] eqn:E. destruct Htg as (Hrt & Hst & Hsum).
  pose proof (split_by_demand_spec total ratio rt st rd sd Hrt Hst Hsum Hr) as Hd.
  destruct (split_by_demand total ratio (rt, st) rd sd) as [rc sc].
  destruct Hd as (H1 & H2 & H3 & H4 & H5 & H6 & H7).
  pose proof (split_floors_spec rt st minCap rc sc Hrt Hst (eq_trans H1 (eq_sym Hsum))) as Hf.
  destruct (split_floors (rt, st) minCap (rc, sc)) as [rc' sc'].
  destruct Hf as (F1 & F2 & F3 & F4 & F5 & F6 & F7).
  split; rewrite ?E; cbn [fst snd]; clear E Hr Ht;
    set (rf := Z.max 1 (Z.min minCap rt)) in *; set (sf := Z.max 1 (Z.min minCap st)) in *;
    pose proof (Z.le_max_l 1 (Z.min minCap rt)) as Hrf; pose proof (Z.le_max_l 1 (Z.min minCap st)) as Hsf;
    fold rf in Hrf; fold sf in Hsf; clearbody rf sf.
  - clear -F1 Hsum. lia.
  - clear -F4 F7 H2 Hsum. lia.
  - clear -F5 F6 H3 Hsum. lia.
  - done.
  - clear -F4 H6 Hsum Hsf Hst. lia.
  - clear -F5 H7 Hsum Hrf Hrt. lia.
Qed.

(** ** Properties *)

(** C19: The fair-share allocator is max-min fair whatever order the map iteration
    takes, for a per-user minimum of at least one and a capacity that is not
    negative.  With a user's effective demand being at least the minimum: the
    filling loop ends, exactly the users of the demands get an allocation, none
    negative, and the sum stays within the capacity; if some user is short of its
    effective demand then the capacity is used up, nobody exceeds its effective
    demand and nobody is more than one ahead of the short user; if nobody is short
    everyone gets its effective demand plus one same headroom, and less than one
    per user stays unused; and for every m up to the minimum, a capacity of m per
    user gives everyone at least m.  (The comment of the type says that no user
    gets more than its demand; the headroom is more, see [headroom_above_demand].) *)
Theorem allocate_max_min (a : FairShareAllocator) (order : nat -> list string -> list string)
    (demands : gmap string Z) :
  (forall r us, order r us ≡ₚ us) -> 1 <= minPerUser a -> 0 <= capacity a ->
  exists al, Allocate a order demands = Some al /\ max_min_fair a demands al.
Proof. apply Allocate_fair. Qed.

Lemma allocate_max_min_witness :
  exists al, Allocate (NewFairShareAllocator 10 1) (fun _ us => reverse us)
    (list_to_map [("a", 7); ("b", 2); ("c", 9)]%string) = Some al /\
    max_min_fair (NewFairShareAllocator 10 1) (list_to_map [("a", 7); ("b", 2); ("c", 9)]%string) al.
Proof.
  apply allocate_max_min; [intros _ us; apply reverse_Permutation|by vm_compute|by vm_compute].
Defined.

(** C20: The split of the shared budget between the classes, for a budget of at
    least two and a ratio that leaves the reserved class a share: the two parts
    make the whole budget, no class gets less than the fixed split would give its
    demand nor less than its floor, and a class above its target gets all that
    the other neither demands nor keeps as its floor. *)
Theorem class_split_shares_budget (total : Z) (ratio : float64) (regularDemand reservedDemand minCap : Z) :
  2 <= total -> proper_ratio ratio total ->
  class_split total ratio regularDemand reservedDemand minCap
    (splitClassCapacity total ratio regularDemand reservedDemand minCap).
Proof. apply splitClassCapacity_splits. Qed.

(** The default ratio, 0.2, leaves both classes a share of a budget up to 1000. *)
Lemma default_ratio_proper total : 2 <= total <= 1000 -> proper_ratio (float_div 2 10) total.
Proof.
  intros Ht.
  assert (Hall : Forall (fun n => 0 <= regular_share (float_div 2 10) n <= n /\
                           (2 <= n -> regular_share (float_div 2 10) n < n)) (seqZ 1 1000)).
  { apply (bool_decide_unpack _). vm_compute. exact I. }
  rewrite Forall_forall in Hall. split.
  - apply (Hall total); [apply elem_of_seqZ|]; lia.
  - intros n Hn. apply (Hall n). apply elem_of_seqZ. lia.
Qed.

Lemma class_split_shares_budget_witness :
  class_split 100 (float_div 2 10) 3 50 4 (splitClassCapacity 100 (float_div 2 10) 3 50 4).
Proof. apply class_split_shares_budget; [lia|]. apply default_ratio_proper. lia. Defined.

(** With a reserved ratio of zero the targets do not sum to the budget, and the
    classes together get one connection more than it. *)
Example zero_ratio_overshoots : splitClassCapacity 5 (float_of_Z 0) 10 3 1 = (5, 1).
Proof. vm_compute. reflexivity. Qed.

(** Step 6 gives a user more than its demand. *)
Example headroom_above_demand :
  (fun al => al !! "a"%string) <$> Allocate (NewFairShareAllocator 10 1) (fun _ us => us) {["a"%string := 2]}
  = Some (Some 10).
Proof. vm_compute. reflexivity. Qed.
