(* ===== verification/Rebalancer.v ===== *)
(** The pool rebalancer: services/multipooler/internal/connpoolmanager
    (demand_tracker.go, rebalancer.go, the capacity part of manager.go and
    user_pool.go).

    A demand tracker keeps the peak demand of a sliding window in a ring of
    buckets.  One rebalance cycle samples the trackers of every user pool, splits
    the shared budget between the two classes, allocates each class's share among
    the users and hands the capacities to the pools.  The peak a tracker samples is
    [Pool.PeakRequestedAndReset] of its pool, here an argument of the cycle; the
    pools' own state is in the connection pool's files, and a user pool is here the
    two capacities it was last given.  Durations are nanoseconds. *)

From stdpp Require Import base gmap numbers list strings fin_maps.
From S2P Require Import Prelude FairShare.

Local Open Scope Z_scope.

(** ** Demand trackers *)

Record DemandTracker := mkDemandTracker { buckets : list Z; current : nat }.

Definition NewDemandTracker (demandWindow rebalanceInterval : Z) (hasSampler : bool) : result DemandTracker :=
  if demandWindow <=? 0 then Err (err "DemandTrackerConfig.DemandWindow must be positive")
  else if rebalanceInterval <=? 0 then Err (err "DemandTrackerConfig.RebalanceInterval must be positive")
  else if negb hasSampler then Err (err "DemandTrackerConfig.Sampler must not be nil")
  else
    let numBuckets := Z.max (demandWindow `quot` rebalanceInterval) 1 in
    Ok (mkDemandTracker (replicate (Z.to_nat numBuckets) 0) 0).

Definition NumBuckets (d : DemandTracker) : nat := length (buckets d).

(** The largest bucket, and zero: [var peak int64] and the loop over the buckets. *)
Definition Peak (d : DemandTracker) : Z :=
  foldl (fun peak val => if peak <? val then val else peak) 0 (buckets d).

(** The compare-and-swap loop on the current bucket, which the rebalancer's single
    goroutine passes at the first try. *)
Definition store_sample (d : DemandTracker) (sampled : Z) : DemandTracker :=
  let old := default 0 (buckets d !! current d) in
  if sampled <=? old then d
  else mkDemandTracker (<[current d := sampled]> (buckets d)) (current d).

Definition rotate (d : DemandTracker) : DemandTracker :=
  let nextIdx := (S (current d) mod length (buckets d))%nat in
  mkDemandTracker (<[nextIdx := 0]> (buckets d)) nextIdx.

Definition GetPeakAndRotate (sampled : Z) (d : DemandTracker) : Z * DemandTracker :=
  let d := store_sample d sampled in
  (Peak d, rotate d).

(** ** User pools and the manager *)

Record UserPool := mkUserPool {
  regularDemandTracker : option DemandTracker;
  reservedDemandTracker : option DemandTracker;
  regularCap : Z;
  reservedCap : Z;
  closed : bool
}.

(** [RegularDemand] and [ReservedDemand]: zero without a tracker. *)
Definition sample_demand (sampled : Z) (t : option DemandTracker) : Z * option DemandTracker :=
  match t with
  | None => (0, None)
  | Some d => let '(peak, d) := GetPeakAndRotate sampled d in (peak, Some d)
  end.

Definition RegularDemand (sampled : Z) (p : UserPool) : Z * UserPool :=
  let '(v, t) := sample_demand sampled (regularDemandTracker p) in
  (v, mkUserPool t (reservedDemandTracker p) (regularCap p) (reservedCap p) (closed p)).

Definition ReservedDemand (sampled : Z) (p : UserPool) : Z * UserPool :=
  let '(v, t) := sample_demand sampled (reservedDemandTracker p) in
  (v, mkUserPool (regularDemandTracker p) t (regularCap p) (reservedCap p) (closed p)).

(** [UserPool.SetCapacity]; the pools' own [SetCapacity] never fails. *)
Definition set_pool_capacity (p : UserPool) (regular reserved : Z) : option gerror * UserPool :=
  if closed p then (Some (err "pool is closed"), p)
  else (None, mkUserPool (regularDemandTracker p) (reservedDemandTracker p) regular reserved (closed p)).

Record Manager := mkManager {
  globalCapacity : Z;
  ReservedRatio : float64;
  ElasticQuotas : bool;
  regularAllocator : FairShareAllocator;
  reservedAllocator : FairShareAllocator;
  userPools : gmap string UserPool
}.

(** [deriveGlobalCapacity] and [fallbackGlobalCapacity]. *)
Definition deriveGlobalCapacity (maxConns superuserReserved reservedConns adminCapacity : Z) : Z :=
  Z.max (maxConns - superuserReserved - reservedConns - adminCapacity) 1.

Record budget_seed := mkSeed {
  MaxConnections : Z; SuperuserReservedConnections : Z; ReservedConnections : Z }.

Definition fallbackGlobalCapacity (configured adminCapacity : Z) (seed : option budget_seed) : Z :=
  match seed with
  | None => configured
  | Some s =>
      if MaxConnections s <=? 0 then configured
      else Z.min (deriveGlobalCapacity (MaxConnections s) (SuperuserReservedConnections s)
                    (ReservedConnections s) adminCapacity) configured
  end.

(** [resolveGlobalCapacity]: the answer of the server's settings query, if any. *)
Definition resolveGlobalCapacity (configured : Z) (explicit : bool) (adminCapacity : Z)
    (answer : option (Z * Z * Z)) (seed : option budget_seed) : Z :=
  if explicit then configured
  else
    match answer with
    | None => fallbackGlobalCapacity configured adminCapacity seed
    | Some (maxConns, superuserReserved, reservedConns) =>
        deriveGlobalCapacity maxConns superuserReserved reservedConns adminCapacity
    end.

(** The allocators [Manager.Open] creates. *)
Definition open_allocators (global : Z) (ratio : float64) (minPer : Z) : FairShareAllocator * FairShareAllocator :=
  let regularCapacity := Z.max (regular_share ratio global) 1 in
  let reservedCapacity := Z.max (global - regularCapacity) 1 in
  let regularMinPerUser := Z.max (regular_share ratio minPer) 1 in
  let reservedMinPerUser := Z.max (minPer - regularMinPerUser) 1 in
  (NewFairShareAllocator regularCapacity regularMinPerUser,
   NewFairShareAllocator reservedCapacity reservedMinPerUser).

Definition open_manager (global : Z) (ratio : float64) (elastic : bool) (minPer : Z) : Manager :=
  let '(regular, reserved) := open_allocators global ratio minPer in
  mkManager global ratio elastic regular reserved ∅.

(** The pool [createUserPoolSlow] starts a user with. *)
Definition initialUserPoolCapacity : Z := 10.

Definition new_user_pool (ratio : float64) (tracker : option DemandTracker) : UserPool :=
  mkUserPool tracker tracker
    (Z.max (regular_share ratio initialUserPoolCapacity) 1)
    (Z.max (reserved_share ratio initialUserPoolCapacity) 1) false.

(** ** One rebalance cycle *)

(** The samples of one user: the peaks of its regular and of its reserved pool. *)
Definition samples : Type := string -> Z * Z.

Definition sample_pool (s : samples) (user : string) (p : UserPool) : (Z * Z) * UserPool :=
  let '(rd, p) := RegularDemand (s user).1 p in
  let '(sd, p) := ReservedDemand (s user).2 p in
  ((rd, sd), p).

Definition sum_demands (demands : gmap string Z) : Z := total demands.

(** [Manager.splitClassCapacity]. *)
Definition split_class_capacity (m : Manager) (regularDemands reservedDemands : gmap string Z) : Manager :=
  if negb (ElasticQuotas m) then m
  else
    let '(regular, reserved) :=
      splitClassCapacity (globalCapacity m) (ReservedRatio m)
        (sum_demands regularDemands) (sum_demands reservedDemands)
        (Z.of_nat (size regularDemands)) in
    mkManager (globalCapacity m) (ReservedRatio m) (ElasticQuotas m)
      (SetCapacity (regularAllocator m) regular) (SetCapacity (reservedAllocator m) reserved)
      (userPools m).

Definition apply_capacities (regularAllocs reservedAllocs : gmap string Z) (user : string) (p : UserPool)
    : UserPool :=
  (set_pool_capacity p (default 0 (regularAllocs !! user)) (default 0 (reservedAllocs !! user))).2.

(** [rebalance], without the garbage collection that ends the cycle.  [None] only
    if an allocation ran out of fuel. *)
Definition rebalance (order : nat -> list string -> list string) (s : samples) (m : Manager) : option Manager :=
  if decide (userPools m = ∅) then Some m
  else
    let sampled := map_imap (fun u p => Some (sample_pool s u p)) (userPools m) in
    let regularDemands := (fun x : (Z * Z) * UserPool => x.1.1) <$> sampled in
    let reservedDemands := (fun x : (Z * Z) * UserPool => x.1.2) <$> sampled in
    let pools := snd <$> sampled in
    let m := split_class_capacity m regularDemands reservedDemands in
    regularAllocs ← Allocate (regularAllocator m) order regularDemands;
    reservedAllocs ← Allocate (reservedAllocator m) order reservedDemands;
    Some (mkManager (globalCapacity m) (ReservedRatio m) (ElasticQuotas m)
            (regularAllocator m) (reservedAllocator m)
            (map_imap (fun u p => Some (apply_capacities regularAllocs reservedAllocs u p)) pools)).

(** ** The sliding window *)

(** The reference: the largest of the last [k] samples (latest first), and zero. *)
Definition window_peak (k : nat) (history : list Z) : Z := foldr Z.max 0 (take k history).

(** The bucket [j] intervals ago. *)
Definition back (c k j : nat) : nat := if (j <=? c)%nat then c - j else c + k - j.

Arguments back : simpl never.

Ltac back_lia :=
  unfold back;
  repeat match goal with
  | |- context [(?x <=? ?y)%nat] =>
      lazymatch x with context [(_ <=? _)%nat] => fail | _ => destruct (Nat.leb_spec x y) end
  end; lia.

Lemma back_lt c k j : (c < k -> j < k -> back c k j < k)%nat.
Proof. intros. back_lia. Qed.

Lemma back_back c k j : (c < k -> j < k -> back c k (back c k j) = j)%nat.
Proof. intros. back_lia. Qed.

Lemma back_0 c k : back c k 0 = c.
Proof. back_lia. Qed.

(** The bucket after the current one, around the ring. *)
Lemma back_next c k j : (c < k -> S j < k ->
  back (S c mod k) k (S j) = back c k j /\ back (S c mod k) k (S j) <> S c mod k)%nat.
Proof.
  intros Hc Hj. destruct (Nat.eq_dec (S c) k) as [<-|Hne].
  - rewrite Nat.Div0.mod_same. split; back_lia.
  - rewrite Nat.mod_small by lia. split; back_lia.
Qed.

Record ring (d : DemandTracker) (history : list Z) : Prop := {
  ring_current : (current d < length (buckets d))%nat;
  ring_bucket : forall j, (j < length (buckets d))%nat ->
    buckets d !! back (current d) (length (buckets d)) j =
    Some (match j with O => 0 | S j => Z.max 0 (default 0 (history !! j)) end) }.

Lemma Peak_le d m : Peak d <= m <-> 0 <= m /\ forall x, x ∈ buckets d -> x <= m.
Proof.
  unfold Peak. generalize 0 at 1 2 as z. induction (buckets d) as [|y l IH]; intros z; cbn.
  { split; [intros Hz; split; [done|by intros ? ?%elem_of_nil]|by intros [? _]]. }
  rewrite IH. destruct (Z.ltb_spec z y); split; intros [Hz Hl].
  - split; [lia|]. intros x [->|Hx]%elem_of_cons; [done|by apply Hl].
  - split; [apply Hl; left|intros x Hx; apply Hl; by right].
  - split; [lia|]. intros x [->|Hx]%elem_of_cons; [lia|by apply Hl].
  - split; [done|intros x Hx; apply Hl; by right].
Qed.

Lemma foldr_max_le l m : foldr Z.max 0 l <= m <-> 0 <= m /\ forall x, x ∈ l -> x <= m.
Proof.
  induction l as [|y l IH]; cbn.
  { split; [intros Hz; split; [done|by intros ? ?%elem_of_nil]|by intros [? _]]. }
  split.
  - intros H. destruct IH as [[Hz Hl] _]; [lia|]. split; [done|].
    intros x [->|Hx]%elem_of_cons; [lia|by apply Hl].
  - intros [Hz Hl]. apply Z.max_lub; [apply Hl; left|]. apply IH. split; [done|].
    intros x Hx. apply Hl. by right.
Qed.

Lemma window_peak_le k history m : (0 < k)%nat ->
  window_peak k history <= m <-> forall j, (j < k)%nat -> Z.max 0 (default 0 (history !! j)) <= m.
Proof.
  intros Hk. unfold window_peak. rewrite foldr_max_le. split.
  - intros [Hm Hl] j Hj. destruct (history !! j) as [x|] eqn:E; cbn; [|lia].
    cut (x <= m); [lia|]. apply Hl, list_elem_of_lookup. exists j. by rewrite lookup_take_lt.
  - intros Hall. split; [specialize (Hall O Hk); lia|]. intros x Hx.
    apply list_elem_of_lookup in Hx as [j Hj]. apply lookup_take_Some in Hj as [Hj Hlt].
    specialize (Hall j Hlt). rewrite Hj in Hall. cbn in Hall. lia.
Qed.

Lemma store_sample_ring d history s : ring d history ->
  let d' := store_sample d s in
  current d' = current d /\ length (buckets d') = length (buckets d) /\
  forall j, (j < length (buckets d))%nat ->
    buckets d' !! back (current d) (length (buckets d)) j =
    Some (Z.max 0 (default 0 ((s :: history) !! j))).
Proof.
  intros [Hc Hb]. unfold store_sample.
  assert (H0 : buckets d !! current d = Some 0) by (specialize (Hb O ltac:(lia)); by rewrite back_0 in Hb).
  rewrite H0. cbn. destruct (Z.leb_spec s 0) as [Hs|Hs]; cbn; rewrite ?length_insert; split_and!; try done.
  - intros j Hj. rewrite Hb by done. destruct j as [|j]; cbn; [f_equal; lia|done].
  - intros j Hj. destruct j as [|j]; cbn.
    + rewrite back_0, list_lookup_insert_eq by done. f_equal. lia.
    + rewrite list_lookup_insert_ne; [by rewrite Hb by done|]. back_lia.
Qed.

(** After the sample is stored, the largest bucket is the peak of the window. *)
Lemma Peak_window d history :
  (0 < length (buckets d))%nat -> (current d < length (buckets d))%nat ->
  (forall j, (j < length (buckets d))%nat ->
    buckets d !! back (current d) (length (buckets d)) j = Some (Z.max 0 (default 0 (history !! j)))) ->
  Peak d = window_peak (length (buckets d)) history.
Proof.
  intros Hk Hc Hb.
  assert (Hbd : forall m, Peak d <= m <-> window_peak (length (buckets d)) history <= m).
  { intros m. rewrite Peak_le, window_peak_le by done. split.
    - intros [_ Hl] j Hj. eapply Hl, list_elem_of_lookup_2, Hb, Hj.
    - intros Hall. split; [specialize (Hall O Hk); lia|]. intros x Hx.
      apply list_elem_of_lookup in Hx as [i Hi]. pose proof (lookup_lt_Some _ _ _ Hi) as Hlt.
      pose proof (back_lt _ _ _ Hc Hlt) as Hj. specialize (Hb _ Hj). specialize (Hall _ Hj).
      rewrite back_back, Hi in Hb by done. by simplify_eq. }
  apply Z.le_antisymm; by apply Hbd.
Qed.

Lemma GetPeakAndRotate_ring d history s : ring d history ->
  let '(peak, d') := GetPeakAndRotate s d in
  peak = window_peak (NumBuckets d) (s :: history) /\ ring d' (s :: history) /\
  NumBuckets d' = NumBuckets d.
Proof.
  intros Hr. pose proof (store_sample_ring d history s Hr) as (Hcur & Hlen & Hb). destruct Hr as [Hc _].
  unfold GetPeakAndRotate, NumBuckets. split_and!.
  - rewrite <- Hlen. apply Peak_window; rewrite ?Hlen, ?Hcur; [lia|done|done].
  - unfold rotate. rewrite Hcur, Hlen.
    assert (Hc' : (S (current d) mod length (buckets d) < length (buckets d))%nat) by (apply Nat.mod_upper_bound; lia).
    split; cbn; rewrite length_insert, Hlen; [done|]. intros [|j] Hj.
    + by rewrite back_0, list_lookup_insert_eq by lia.
    + destruct (back_next (current d) (length (buckets d)) j Hc Hj) as [E Hne].
      rewrite list_lookup_insert_ne by (by apply not_eq_sym). rewrite E. by apply Hb; lia.
  - cbn. by rewrite length_insert.
Qed.

Lemma new_ring w i b d : NewDemandTracker w i b = Ok d ->
  ring d [] /\ NumBuckets d = Z.to_nat (Z.max (w `quot` i) 1).
Proof.
  unfold NewDemandTracker. repeat case_match; try discriminate. intros [= <-].
  unfold NumBuckets; cbn. rewrite length_replicate. split; [|done].
  split; cbn; rewrite length_replicate; [lia|]. intros j Hj.
  rewrite lookup_replicate_2 by (unfold back; destruct (Nat.leb_spec j 0); lia). by destruct j.
Qed.

(** The peaks a tracker reports for a sequence of samples. *)
Fixpoint peaks (d : DemandTracker) (ss : list Z) : list Z :=
  match ss with
  | [] => []
  | s :: ss => let '(peak, d) := GetPeakAndRotate s d in peak :: peaks d ss
  end.

(** The reference peaks, for the samples already taken (latest first). *)
Fixpoint window_peaks (k : nat) (history ss : list Z) : list Z :=
  match ss with
  | [] => []
  | s :: ss => window_peak k (s :: history) :: window_peaks k (s :: history) ss
  end.

Lemma peaks_window d history ss : ring d history -> peaks d ss = window_peaks (NumBuckets d) history ss.
Proof.
  revert d history. induction ss as [|s ss IH]; intros d history Hr; [done|]. cbn [peaks window_peaks].
  pose proof (GetPeakAndRotate_ring d history s Hr) as Hg. destruct (GetPeakAndRotate s d) as [peak d'].
  destruct Hg as (-> & Hr' & Hn). f_equal. rewrite <- Hn. by apply IH.
Qed.

(** ** Budget of a cycle *)

(** What the open pools may use: both classes of every user. *)
Definition granted (m : Manager) : Z :=
  total ((fun p => if closed p then 0 else regularCap p + reservedCap p) <$> userPools m).

Record manager_ok (m : Manager) : Prop := {
  mok_budget : 2 <= globalCapacity m;
  mok_ratio : proper_ratio (ReservedRatio m) (globalCapacity m);
  mok_regular : 1 <= capacity (regularAllocator m) /\ 1 <= minPerUser (regularAllocator m);
  mok_reserved : 1 <= capacity (reservedAllocator m) /\ 1 <= minPerUser (reservedAllocator m);
  mok_sum : capacity (regularAllocator m) + capacity (reservedAllocator m) = globalCapacity m }.

Lemma NewFairShareAllocator_min c m : 1 <= minPerUser (NewFairShareAllocator c m).
Proof. unfold NewFairShareAllocator. cbn. destruct (Z.ltb_spec m 1); lia. Qed.

(** The manager [Open] leaves. *)
Lemma open_manager_ok global ratio elastic minPer :
  2 <= global -> proper_ratio ratio global -> manager_ok (open_manager global ratio elastic minPer).
Proof.
  intros Hg Hr. pose proof Hr as [Hlt _].
  unfold open_manager, open_allocators.
  split; cbn [globalCapacity ReservedRatio regularAllocator reservedAllocator];
    [done|done|split; [|apply NewFairShareAllocator_min]..|]; cbn [NewFairShareAllocator capacity]; lia.
Qed.

Lemma split_class_capacity_ok m rd sd : manager_ok m ->
  manager_ok (split_class_capacity m rd sd) /\
  globalCapacity (split_class_capacity m rd sd) = globalCapacity m /\
  userPools (split_class_capacity m rd sd) = userPools m.
Proof.
  intros Hm. unfold split_class_capacity. destruct (negb (ElasticQuotas m)); [done|].
  destruct Hm as [Hg Hr [_ Hrm] [_ Hsm] _].
  destruct (splitClassCapacity_splits _ _ (sum_demands rd) (sum_demands sd) (Z.of_nat (size rd)) Hg Hr)
    as [Ht _ _ [Hf1 Hf2] _ _].
  destruct (splitClassCapacity _ _ _ _ _) as [rc sc]. cbn in *. split; [|done].
  split; cbn; [done|done| | |done]; split; try done; lia.
Qed.

Lemma total_delete m k : total m = default 0 (m !! k) + total (delete k m).
Proof.
  destruct (m !! k) as [x|] eqn:E; cbn; [|by rewrite delete_id].
  rewrite <- (insert_delete_id m k x E) at 1. apply total_insert_new, lookup_delete_eq.
Qed.

Lemma total_two m m1 m2 :
  dom m = dom m1 -> dom m = dom m2 ->
  (forall k x, m !! k = Some x -> x <= default 0 (m1 !! k) + default 0 (m2 !! k)) ->
  total m <= total m1 + total m2.
Proof.
  revert m1 m2. induction m as [|k x m Hk IH] using map_ind; intros m1 m2 H1 H2 Hle.
  { rewrite dom_empty_L in H1, H2. symmetry in H1, H2. apply dom_empty_inv_L in H1 as ->, H2 as ->. done. }
  rewrite total_insert_new by done. rewrite (total_delete m1 k), (total_delete m2 k).
  pose proof (Hle k x (lookup_insert_eq _ _ _)).
  cut (total m <= total (delete k m1) + total (delete k m2)); [lia|].
  assert (Hkd : k ∉ dom m) by (by apply not_elem_of_dom).
  apply IH; [rewrite dom_delete_L, <- H1, dom_insert_L; set_solver|
             rewrite dom_delete_L, <- H2, dom_insert_L; set_solver|].
  intros k' x' Hx. assert (k' <> k) by (by intros ->; simplify_eq).
  rewrite !lookup_delete_ne by done. apply Hle. by rewrite lookup_insert_ne.
Qed.

(** One cycle of the map functions, at one user. *)
Lemma rebalance_lookup s (pools : gmap string UserPool) al1 al2 u :
  map_imap (fun u p => Some (apply_capacities al1 al2 u p))
    (snd <$> map_imap (fun u p => Some (sample_pool s u p)) pools) !! u =
  (fun p => apply_capacities al1 al2 u (sample_pool s u p).2) <$> pools !! u.
Proof.
  rewrite map_lookup_imap, lookup_fmap, map_lookup_imap. by destruct (pools !! u).
Qed.

Lemma sample_pool_closed s u p : closed (sample_pool s u p).2 = closed p.
Proof.
  unfold sample_pool, RegularDemand, ReservedDemand.
  destruct (sample_demand _ (regularDemandTracker p)). cbn.
  by destruct (sample_demand _ (reservedDemandTracker p)).
Qed.

Lemma apply_capacities_caps al1 al2 u p :
  let p' := apply_capacities al1 al2 u p in
  closed p' = closed p /\
  (closed p = false -> regularCap p' = default 0 (al1 !! u) /\ reservedCap p' = default 0 (al2 !! u)).
Proof. unfold apply_capacities, set_pool_capacity. by destruct (closed p) eqn:E; cbn. Qed.

Section Cycle.
Context (order : nat -> list string -> list string) (Horder : forall r us, order r us ≡ₚ us).

Lemma rebalance_budget s m : manager_ok m ->
  exists m', rebalance order s m = Some m' /\ manager_ok m' /\
    globalCapacity m' = globalCapacity m /\ dom (userPools m') = dom (userPools m) /\
    (userPools m <> ∅ -> granted m' <= globalCapacity m) /\
    (forall u p, userPools m' !! u = Some p -> closed p = false ->
       0 <= regularCap p /\ 0 <= reservedCap p /\
       (Z.of_nat (size (userPools m)) <= capacity (regularAllocator m') -> 1 <= regularCap p) /\
       (Z.of_nat (size (userPools m)) <= capacity (reservedAllocator m') -> 1 <= reservedCap p)).
Proof.
  intros Hm. unfold rebalance. destruct (decide (userPools m = ∅)) as [He|He].
  { exists m. split_and!; try done. intros u p. by rewrite He, lookup_empty. }
  set (sampled := map_imap (fun u p => Some (sample_pool s u p)) (userPools m)).
  set (rd := (fun x : (Z * Z) * UserPool => x.1.1) <$> sampled).
  set (sd := (fun x : (Z * Z) * UserPool => x.1.2) <$> sampled).
  assert (Hdom : dom sampled = dom (userPools m)).
  { apply set_eq. intros u. rewrite !elem_of_dom. unfold sampled. rewrite map_lookup_imap.
    destruct (userPools m !! u); cbn; [by split; eauto|done]. }
  assert (Hsz : size rd = size (userPools m) /\ size sd = size (userPools m)).
  { split; apply size_of_dom; unfold rd, sd; by rewrite dom_fmap_L. }
  destruct (split_class_capacity_ok m rd sd Hm) as (Hm1 & Hg & Hp).
  set (m1 := split_class_capacity m rd sd) in *. pose proof Hm1 as [_ _ [Hc1 Hmin1] [Hc2 Hmin2] Hsum].
  destruct (Allocate_fair (regularAllocator m1) order rd Horder Hmin1 ltac:(lia)) as (al1 & -> & F1).
  destruct (Allocate_fair (reservedAllocator m1) order sd Horder Hmin2 ltac:(lia)) as (al2 & -> & F2).
  cbn [mbind option_bind]. eexists. split; [done|]. cbn [globalCapacity userPools regularAllocator reservedAllocator].
  assert (Hd1 : dom al1 = dom (userPools m)) by (rewrite (fair_users _ _ _ F1); unfold rd; by rewrite dom_fmap_L).
  assert (Hd2 : dom al2 = dom (userPools m)) by (rewrite (fair_users _ _ _ F2); unfold sd; by rewrite dom_fmap_L).
  assert (Hdp : dom (map_imap (fun u p => Some (apply_capacities al1 al2 u p)) (snd <$> sampled)) = dom (userPools m)).
  { apply set_eq. intros u. rewrite !elem_of_dom. unfold sampled. by rewrite rebalance_lookup, fmap_is_Some. }
  split; [by destruct Hm1|]. split; [done|]. split; [done|split].
  - intros _. rewrite <- Hg, <- Hsum. unfold granted. cbn [userPools].
    transitivity (total al1 + total al2); [|pose proof (fair_budget _ _ _ F1); pose proof (fair_budget _ _ _ F2); lia].
    apply total_two.
    + by rewrite dom_fmap_L, Hd1.
    + by rewrite dom_fmap_L, Hd2.
    + intros u x. rewrite lookup_fmap. unfold sampled. rewrite rebalance_lookup.
      destruct (userPools m !! u) as [p|] eqn:E; cbn; [|done]. intros [= <-].
      destruct (apply_capacities_caps al1 al2 u (sample_pool s u p).2) as [Hcl Hcaps].
      destruct (closed _) eqn:Ec.
      * destruct (al1 !! u) as [x1|] eqn:E1, (al2 !! u) as [x2|] eqn:E2; cbn;
          try apply (fair_nonneg _ _ _ F1) in E1; try apply (fair_nonneg _ _ _ F2) in E2; lia.
      * destruct (Hcaps (eq_sym Hcl)) as [-> ->]. lia.
  - intros u p. unfold sampled. rewrite rebalance_lookup.
    destruct (userPools m !! u) as [q|] eqn:E; cbn; [|done]. intros [= <-] Hcl.
    destruct (apply_capacities_caps al1 al2 u (sample_pool s u q).2) as [Hcl' Hcaps].
    rewrite Hcl' in Hcl. destruct (Hcaps Hcl) as [-> ->].
    assert (Hu : u ∈ dom (userPools m)) by (by apply elem_of_dom_2 in E).
    rewrite <- Hd1 in Hu. pose proof Hu as [x1 E1]%elem_of_dom.
    rewrite Hd1, <- Hd2 in Hu. pose proof Hu as [x2 E2]%elem_of_dom. rewrite E1, E2. cbn.
    split_and!; [by apply (fair_nonneg _ _ _ F1 u)|by apply (fair_nonneg _ _ _ F2 u)| |]; destruct Hsz as [Hs1 Hs2].
    + intros Hle. eapply (fair_floor _ _ _ F1); [done|done|]. rewrite Hs1. lia.
    + intros Hle. eapply (fair_floor _ _ _ F2); [done|done|]. rewrite Hs2. lia.
Qed.
End Cycle.

(** ** The life of a manager *)

(** What happens to the user pools between cycles: a user's first connection
    creates a pool, closing and eviction remove pools, a cycle rebalances. *)
Inductive managed (global : Z) (ratio : float64) (elastic : bool) (minPer : Z) : Manager -> Prop :=
| managed_open : managed global ratio elastic minPer (open_manager global ratio elastic minPer)
| managed_create m u d : managed global ratio elastic minPer m -> userPools m !! u = None ->
    managed global ratio elastic minPer
      (mkManager (globalCapacity m) (ReservedRatio m) (ElasticQuotas m) (regularAllocator m)
         (reservedAllocator m) (<[u := new_user_pool ratio d]> (userPools m)))
| managed_close m u p : managed global ratio elastic minPer m -> userPools m !! u = Some p ->
    managed global ratio elastic minPer
      (mkManager (globalCapacity m) (ReservedRatio m) (ElasticQuotas m) (regularAllocator m)
         (reservedAllocator m)
         (<[u := mkUserPool (regularDemandTracker p) (reservedDemandTracker p) (regularCap p) (reservedCap p) true]>
            (userPools m)))
| managed_remove m u : managed global ratio elastic minPer m ->
    managed global ratio elastic minPer
      (mkManager (globalCapacity m) (ReservedRatio m) (ElasticQuotas m) (regularAllocator m)
         (reservedAllocator m) (delete u (userPools m)))
| managed_cycle m order s m' : managed global ratio elastic minPer m ->
    (forall r us, order r us ≡ₚ us) -> rebalance order s m = Some m' ->
    managed global ratio elastic minPer m'.

Lemma managed_ok global ratio elastic minPer m :
  2 <= global -> proper_ratio ratio global -> managed global ratio elastic minPer m ->
  manager_ok m /\ globalCapacity m = global.
Proof.
  intros Hg Hr. induction 1 as [|m u d _ [[] ?] _|m u p _ [[] ?] _|m u _ [[] ?]|m order s m' _ [Hm HG] Hord Hc].
  - split; [by apply open_manager_ok|done].
  - split; [by split|done].
  - split; [by split|done].
  - split; [by split|done].
  - destruct (rebalance_budget order Hord s m Hm) as (m'' & Hc' & Hm' & HG' & _).
    rewrite Hc in Hc'. simplify_eq. split; [done|]. congruence.
Qed.

(** ** Properties *)

(** A demand tracker reports the peak of its sliding window: for every sequence
    of samples, each call of GetPeakAndRotate on a tracker that NewDemandTracker
    built returns the largest of the last DemandWindow / RebalanceInterval samples
    (at least one), however often the ring has wrapped. *)
Theorem tracker_reports_window_peak (w i : Z) (hasSampler : bool) (d : DemandTracker) (ss : list Z) :
  NewDemandTracker w i hasSampler = Ok d ->
  peaks d ss = window_peaks (Z.to_nat (Z.max (w `quot` i) 1)) [] ss.
Proof. intros [Hr <-]%new_ring. by apply peaks_window. Qed.

Lemma tracker_reports_window_peak_witness :
  peaks (mkDemandTracker [0; 0; 0] 0) [12; 15; 8; 3; 1; 0] = [12; 15; 15; 15; 8; 3] /\
  window_peaks 3 [] [12; 15; 8; 3; 1; 0] = [12; 15; 15; 15; 8; 3].
Proof.
  pose proof (tracker_reports_window_peak 30 10 true (mkDemandTracker [0; 0; 0] 0)
    [12; 15; 8; 3; 1; 0] eq_refl) as H.
  split; [rewrite H; vm_compute; reflexivity|vm_compute; reflexivity].
Defined.

(** C21: A rebalance cycle keeps the pools within the connection budget.  For a
    global capacity of at least two and a reserved ratio that, as the code rounds
    it, gives the regular class a share within every smaller budget and less than
    the whole of this one ([proper_ratio]), in every state such a manager can
    reach, with any peaks sampled and any map order, the cycle completes and, if
    there are user pools, the capacities it leaves to the open ones, both classes
    of all users together, sum to at most the global capacity; no capacity is negative, and as
    long as a class's share is at least one per user no pool of that class is left
    with zero, which would refuse its clients.  (A capacity of one, or a ratio of
    zero, overshoots by one: [zero_ratio_overshoots].) *)
Theorem rebalance_within_budget (global : Z) (ratio : float64) (elastic : bool) (minPer : Z)
    (order : nat -> list string -> list string) (s : samples) (m : Manager) :
  2 <= global -> proper_ratio ratio global -> (forall r us, order r us ≡ₚ us) ->
  managed global ratio elastic minPer m ->
  exists m', rebalance order s m = Some m' /\
    (userPools m <> ∅ -> granted m' <= global) /\
    (forall u p, userPools m' !! u = Some p -> closed p = false ->
       0 <= regularCap p /\ 0 <= reservedCap p /\
       (Z.of_nat (size (userPools m)) <= capacity (regularAllocator m') -> 1 <= regularCap p) /\
       (Z.of_nat (size (userPools m)) <= capacity (reservedAllocator m') -> 1 <= reservedCap p)).
Proof.
  intros Hg Hr Hord Hm. destruct (managed_ok _ _ _ _ _ Hg Hr Hm) as [Hok <-].
  destruct (rebalance_budget order Hord s m Hok) as (m' & Hc & _ & _ & _ & Hb & Hp). eauto.
Qed.

Definition demo_manager : Manager :=
  mkManager 100 (float_div 2 10) true (NewFairShareAllocator 80 4) (NewFairShareAllocator 20 1)
    {["ann"%string := new_user_pool (float_div 2 10) (Some (mkDemandTracker [0; 0; 0] 0))]}.

Lemma rebalance_within_budget_witness :
  exists m', rebalance (fun _ us => us) (fun _ => (7, 60)) demo_manager = Some m' /\
    (userPools demo_manager <> ∅ -> granted m' <= 100) /\
    (forall u p, userPools m' !! u = Some p -> closed p = false ->
       0 <= regularCap p /\ 0 <= reservedCap p /\
       (Z.of_nat (size (userPools demo_manager)) <= capacity (regularAllocator m') -> 1 <= regularCap p) /\
       (Z.of_nat (size (userPools demo_manager)) <= capacity (reservedAllocator m') -> 1 <= reservedCap p)).
Proof.
  apply (rebalance_within_budget 100 (float_div 2 10) true 5 (fun _ us => us) (fun _ => (7, 60)) demo_manager).
  - lia.
  - apply default_ratio_proper. lia.
  - done.
  - exact (managed_create 100 (float_div 2 10) true 5 _ "ann"%string (Some (mkDemandTracker [0; 0; 0] 0))
      (managed_open _ _ _ _) eq_refl).
Defined.
