(* ===== verification/ConnPool.v ===== *)
(** The connection pool: services/multipooler/internal/pools/connpool (pool.go,
    stack.go, waitlist.go, pooled.go, timestamp.go) and the settings it routes by
    (connstate/connection_state.go).  The scrubber is in [ConnScrub]; opening,
    closing, the workers and the clients are in [ConnMachine].

    The pool is shared by client goroutines and background workers, which
    synchronise through atomic integers, small critical sections, an unbuffered
    channel per waiting client and one lock.  A goroutine is a program [prog]: a
    tree of atomic actions, one per atomic operation or critical section of the
    code, with an [Iter] node for each loop; the goroutines interleave at every
    action, in the order a schedule gives.  Pooled connections are shared objects
    and live in a heap; the backend of one is a pointer that a failed dial leaves
    nil, and calling it then panics.  What the pool does not compute itself (the clock, dialing,
    the answers of the server, context expiry, the ticks of a worker, random
    numbers) is the [answer] the schedule gives with each action.  The hooks
    [OnBorrow] and [OnRecycle] are counted: the field [lent] is their balance.

    Not modelled: the OpenTelemetry instruments and logs, and the contents of
    contexts.  A waiter's list element is named by its goroutine: an element is
    used by one goroutine from [nodes.Get] to [nodes.Put]. *)

From stdpp Require Import base gmap numbers list strings.
From S2P Require Import Prelude.

Local Open Scope Z_scope.

(** ** Settings *)

Definition fold_ascii (c : Ascii.ascii) : Ascii.ascii :=
  let n := Ascii.nat_of_ascii c in
  if ((65 <=? n) && (n <=? 90))%nat then Ascii.ascii_of_nat (n + 32) else c.

Fixpoint CanonicalGUCName (s : string) : string :=
  match s with
  | EmptyString => EmptyString
  | String c s => String (fold_ascii c) (CanonicalGUCName s)
  end.

(** A [*Settings] that is not nil: its address, its variables and its bucket. *)
Record Settings := mkSettings { address : nat; Vars : list (string * string); bucket : Z }.

Definition Bucket (s : option Settings) : Z :=
  match s with None => 0 | Some s => bucket s end.

Definition IsEmpty (s : option Settings) : bool :=
  match s with None => true | Some s => match Vars s with [] => true | _ => false end end.

Definition NeedsReapplyOnReuse (s : option Settings) : bool :=
  match s with
  | None => false
  | Some s =>
      existsb (fun kv => let k := CanonicalGUCName kv.1 in
                 (k =? "role")%string || (k =? "session_authorization")%string) (Vars s)
  end.

(** Pointer equality. *)
Definition same_settings (a b : option Settings) : bool :=
  match a, b with
  | None, None => true
  | Some a, Some b => (address a =? address b)%nat
  | _, _ => false
  end.

(** ** Connections *)

(** What the pool sees of a [Connection], which is a pointer: nil, or its tracked
    settings and whether it is closed.  A method call on nil panics, see
    [deref_Conn]; what [conn_Settings] and [conn_IsClosed] say of it is never read. *)
Inductive Conn := NilConn | mkConn (settings : option Settings) (closed : bool).

Definition conn_Settings (x : Conn) : option Settings :=
  match x with NilConn => None | mkConn settings _ => settings end.
Definition conn_IsClosed (x : Conn) : bool :=
  match x with NilConn => true | mkConn _ closed => closed end.

Record Pooled := mkPooled {
  timeCreated : Z;
  timeUsed : Z;
  conn_scrubPass : Z;
  has_pool : bool;
  taintOnRecycle : bool;
  conn_Conn : Conn
}.

Definition timestampExpired : Z := int64_max.
Definition timestampBusy : Z := int64_min.

Definition set_timeUsed (t : Z) (c : Pooled) : Pooled :=
  mkPooled (timeCreated c) t (conn_scrubPass c) (has_pool c) (taintOnRecycle c) (conn_Conn c).
Definition set_timeCreated (t : Z) (c : Pooled) : Pooled :=
  mkPooled t (timeUsed c) (conn_scrubPass c) (has_pool c) (taintOnRecycle c) (conn_Conn c).
Definition set_conn_scrubPass (n : Z) (c : Pooled) : Pooled :=
  mkPooled (timeCreated c) (timeUsed c) n (has_pool c) (taintOnRecycle c) (conn_Conn c).
Definition set_has_pool (b : bool) (c : Pooled) : Pooled :=
  mkPooled (timeCreated c) (timeUsed c) (conn_scrubPass c) b (taintOnRecycle c) (conn_Conn c).
Definition set_taint (b : bool) (c : Pooled) : Pooled :=
  mkPooled (timeCreated c) (timeUsed c) (conn_scrubPass c) (has_pool c) b (conn_Conn c).
Definition set_Conn (x : Conn) (c : Pooled) : Pooled :=
  mkPooled (timeCreated c) (timeUsed c) (conn_scrubPass c) (has_pool c) (taintOnRecycle c) x.

(** [Conn.Close]. *)
Definition close_Conn (c : Pooled) : Pooled := set_Conn (mkConn (conn_Settings (conn_Conn c)) true) c.

(** ** The state of a pool *)

(** The atomic integers of the pool, its configuration and its metrics; [lent]
    counts the calls of [onBorrow] less those of [onRecycle]. *)
Inductive counter :=
| borrowed | requested | peakRequested | active | capacity | idleCount | freshStatesStack
| maxLifetime | idleTimeout | lent
| maxLifetimeClosed | getCount | getWithStateCount | waitCount | waitTime | idleClosed
| diffState | resetState | scrubChecked | scrubDivergent | scrubErrors.

#[export] Instance counter_eq_dec : EqDecision counter.
Proof. solve_decision. Defined.

(** An idle stack: the goroutine iterating over it under its lock, and the
    connections from the top. *)
Record connStack := mkStack { mu : option nat; items : list nat }.

Inductive stack_id := Clean | States (k : nat).

#[export] Instance stack_id_eq_dec : EqDecision stack_id.
Proof. solve_decision. Defined.

Record waiter := mkWaiter { w_elem : nat; w_settings : option Settings; age : Z }.

(** One connection handed to a client: what it asked for and what it got. *)
Record service := mkService { to : nat; wanted : option Settings; given : Pooled }.

Record Pool := mkPool {
  ints : counter -> Z;
  heap : list Pooled;
  clean : connStack;
  states : list connStack;
  wait : list waiter;
  (** the connection being handed over on a waiter's channel; *)
  inbox : gmap nat nat;
  (** the channel [pool.close] points to, and which channels are closed; *)
  close_ : option nat;
  chans : list bool;
  capacityMu : option nat;
  workers : Z;
  (** [scrubCancel], nil before [open], and whether it was called; *)
  scrubCancel : option bool;
  scrubPass : Z;
  (** the pool was returned by [Open] to its users; *)
  published : bool;
  (** the connection each client goroutine holds, and all that were handed out. *)
  held : gmap nat nat;
  served : list service
}.

Definition set_ints (σ : Pool) x := mkPool x (heap σ) (clean σ) (states σ) (wait σ) (inbox σ) (close_ σ)
  (chans σ) (capacityMu σ) (workers σ) (scrubCancel σ) (scrubPass σ) (published σ) (held σ) (served σ).
Definition set_heap (σ : Pool) x := mkPool (ints σ) x (clean σ) (states σ) (wait σ) (inbox σ) (close_ σ)
  (chans σ) (capacityMu σ) (workers σ) (scrubCancel σ) (scrubPass σ) (published σ) (held σ) (served σ).
Definition set_clean (σ : Pool) x := mkPool (ints σ) (heap σ) x (states σ) (wait σ) (inbox σ) (close_ σ)
  (chans σ) (capacityMu σ) (workers σ) (scrubCancel σ) (scrubPass σ) (published σ) (held σ) (served σ).
Definition set_states (σ : Pool) x := mkPool (ints σ) (heap σ) (clean σ) x (wait σ) (inbox σ) (close_ σ)
  (chans σ) (capacityMu σ) (workers σ) (scrubCancel σ) (scrubPass σ) (published σ) (held σ) (served σ).
Definition set_wait (σ : Pool) x := mkPool (ints σ) (heap σ) (clean σ) (states σ) x (inbox σ) (close_ σ)
  (chans σ) (capacityMu σ) (workers σ) (scrubCancel σ) (scrubPass σ) (published σ) (held σ) (served σ).
Definition set_inbox (σ : Pool) x := mkPool (ints σ) (heap σ) (clean σ) (states σ) (wait σ) x (close_ σ)
  (chans σ) (capacityMu σ) (workers σ) (scrubCancel σ) (scrubPass σ) (published σ) (held σ) (served σ).
Definition set_close (σ : Pool) x y := mkPool (ints σ) (heap σ) (clean σ) (states σ) (wait σ) (inbox σ) x
  y (capacityMu σ) (workers σ) (scrubCancel σ) (scrubPass σ) (published σ) (held σ) (served σ).
Definition set_capacityMu (σ : Pool) x := mkPool (ints σ) (heap σ) (clean σ) (states σ) (wait σ) (inbox σ) (close_ σ)
  (chans σ) x (workers σ) (scrubCancel σ) (scrubPass σ) (published σ) (held σ) (served σ).
Definition set_workers (σ : Pool) x := mkPool (ints σ) (heap σ) (clean σ) (states σ) (wait σ) (inbox σ) (close_ σ)
  (chans σ) (capacityMu σ) x (scrubCancel σ) (scrubPass σ) (published σ) (held σ) (served σ).
Definition set_scrubCancel (σ : Pool) x := mkPool (ints σ) (heap σ) (clean σ) (states σ) (wait σ) (inbox σ) (close_ σ)
  (chans σ) (capacityMu σ) (workers σ) x (scrubPass σ) (published σ) (held σ) (served σ).
Definition set_scrubPass (σ : Pool) x := mkPool (ints σ) (heap σ) (clean σ) (states σ) (wait σ) (inbox σ) (close_ σ)
  (chans σ) (capacityMu σ) (workers σ) (scrubCancel σ) x (published σ) (held σ) (served σ).
Definition set_published (σ : Pool) x := mkPool (ints σ) (heap σ) (clean σ) (states σ) (wait σ) (inbox σ) (close_ σ)
  (chans σ) (capacityMu σ) (workers σ) (scrubCancel σ) (scrubPass σ) x (held σ) (served σ).
Definition set_held (σ : Pool) x y := mkPool (ints σ) (heap σ) (clean σ) (states σ) (wait σ) (inbox σ) (close_ σ)
  (chans σ) (capacityMu σ) (workers σ) (scrubCancel σ) (scrubPass σ) (published σ) x y.

Definition stackMask : Z := 7.

Definition get_stack (σ : Pool) (s : stack_id) : option connStack :=
  match s with Clean => Some (clean σ) | States k => states σ !! k end.

Definition set_stack (σ : Pool) (s : stack_id) (x : connStack) : Pool :=
  match s with Clean => set_clean σ x | States k => set_states σ (<[k := x]> (states σ)) end.

(** ** Goroutines *)

(** A non-nil error, as in [gerror]. *)
Definition error : Set := list string.

(** An error of the driver, with the two classes the pool distinguishes
    ([mterrors.IsConnectionError], [mterrors.IsTempBuffersFreeze]). *)
Record drv_error := mkDrvError { drv : error; IsConnectionError : bool; IsTempBuffersFreeze : bool }.

(** The divergence of a checker: the names it lists. *)
Record Divergence := mkDivergence { Untracked : list string; Phantom : list string; Mismatched : list string }.

Definition IsDiverged (d : Divergence) : bool :=
  0 <? len (Untracked d) + len (Phantom d) + len (Mismatched d).

(** What the environment answers an action. *)
Record answer := mkAnswer {
  a_now : Z;                   (* the monotonic clock *)
  a_sel : nat;                 (* which case of a select fires *)
  a_flag : bool;               (* ctx.Err() != nil; the refresh callback's verdict *)
  a_err : option drv_error;    (* the driver's error, nil if none *)
  a_conn : Conn;               (* the connection dialed; its state after a failure *)
  a_rand : Z;                  (* rand.Uint32N *)
  a_div : Divergence           (* a checker's verdict *)
}.

Inductive outcome (B : Set) : Type :=
| Blocked
| Panic (msg : string)
| Next (σ : Pool) (b : B).
Arguments Blocked {B}.
Arguments Panic {B} msg.
Arguments Next {B} σ b.

(** An atomic action of goroutine [i]. *)
Definition action (B : Set) : Type := nat -> answer -> Pool -> outcome B.

(** The goroutines the pool starts; a worker has the close channel it watches and
    the interval of its ticks. *)
Inductive worker := StarvingWorker | IdleWorker | ScrubWorker | RefreshWorker.
Inductive task := Worker (w : worker) (ch : nat) (interval : Z) | Reopen.

(** [Tick ch k] is a worker's select between its next tick and the close of its
    channel. *)
Inductive prog (A : Set) : Type :=
| Ret (a : A)
| Act {B : Set} (f : action B) (k : B -> prog A)
| Tick (ch : nat) (k : option Z -> prog A)
| Go (t : task) (k : prog A)
| Iter {S T : Set} (body : S -> prog (S + T)) (s : S) (k : T -> prog A).
Arguments Ret {A} a.
Arguments Act {A B} f k.
Arguments Tick {A} ch k.
Arguments Go {A} t k.
Arguments Iter {A S T} body s k.

Fixpoint bind {A B : Set} (p : prog A) (f : A -> prog B) {struct p} : prog B :=
  match p with
  | Ret a => f a
  | Act g k => Act g (fun b => bind (k b) f)
  | Tick ch k => Tick ch (fun o => bind (k o) f)
  | Go t k => Go t (bind k f)
  | Iter body s k => Iter body s (fun t => bind (k t) f)
  end.

Definition act {B : Set} (f : action B) : prog B := Act f Ret.
Definition loop {S T : Set} (s : S) (body : S -> prog (S + T)) : prog T := Iter body s Ret.

Declare Scope pool_scope.
Delimit Scope pool_scope with pool.
Notation "'let!' x := p 'in' q" := (bind p (fun x => q))
  (at level 200, x name, p at level 100, q at level 200) : pool_scope.
Notation "'let!' ' x := p 'in' q" := (bind p (fun y => match y with x => q end))
  (at level 200, x strict pattern, p at level 100, q at level 200) : pool_scope.
Notation "p ;; q" := (bind p (fun _ => q)) (at level 100, q at level 200, right associativity) : pool_scope.

(** Loop control: another round, or out of the loop. *)
Definition continue {S T : Set} (s : S) : prog (S + T) := Ret (inl s).
Definition break {S T : Set} (t : T) : prog (S + T) := Ret (inr t).

(** ** Atomic actions *)

Section Actions.
Context {B : Set}.
Definition pure (f : answer -> Pool -> B) : action B := fun _ ans σ => Next σ (f ans σ).
Definition panic (msg : string) : action B := fun _ _ _ => Panic msg.
End Actions.

(** atomic.Int64. *)
Definition put_int (σ : Pool) (c : counter) (v : Z) : Pool :=
  set_ints σ (fun c' => if decide (c' = c) then v else ints σ c').

Definition Load (c : counter) : action Z := pure (fun _ σ => ints σ c).
Definition Store (c : counter) (v : Z) : action unit := fun _ _ σ => Next (put_int σ c v) tt.
Definition Add (c : counter) (n : Z) : action Z := fun _ _ σ =>
  let v := wrap64 (ints σ c + n) in Next (put_int σ c v) v.
Definition Swap (c : counter) (v : Z) : action Z := fun _ _ σ => Next (put_int σ c v) (ints σ c).
Definition CompareAndSwap (c : counter) (old new : Z) : action bool := fun _ _ σ =>
  if ints σ c =? old then Next (put_int σ c new) true else Next σ false.

(** Pooled connections: allocation, field access, the atomic [timeUsed]. *)
Definition alloc (c : Pooled) : action nat := fun _ _ σ => Next (set_heap σ (heap σ ++ [c])) (length (heap σ)).

Definition deref (p : nat) : action Pooled := fun _ _ σ =>
  match heap σ !! p with Some c => Next σ c | None => Panic "nil pointer dereference" end.

Definition assign (p : nat) (f : Pooled -> Pooled) : action unit := fun _ _ σ =>
  match heap σ !! p with
  | Some c => Next (set_heap σ (<[p := f c]> (heap σ))) tt
  | None => Panic "nil pointer dereference"
  end.

(** A method of [Conn] called on the connection: one that reads, and one that
    changes it. *)
Definition deref_Conn (p : nat) : action Pooled := fun i ans σ =>
  match heap σ !! p with
  | Some (mkPooled _ _ _ _ _ NilConn) => Panic "nil pointer dereference"
  | _ => deref p i ans σ
  end.

Definition assign_Conn (p : nat) (f : Pooled -> Pooled) : action unit := fun i ans σ =>
  match heap σ !! p with
  | Some (mkPooled _ _ _ _ _ NilConn) => Panic "nil pointer dereference"
  | _ => assign p f i ans σ
  end.

Definition ts_cas (p : nat) (old new : Z) : action bool := fun _ _ σ =>
  match heap σ !! p with
  | Some c =>
      if timeUsed c =? old then Next (set_heap σ (<[p := set_timeUsed new c]> (heap σ))) true
      else Next σ false
  | None => Panic "nil pointer dereference"
  end.

(** The clock, contexts and the driver. *)
Definition monotonicNow : action Z := pure (fun ans _ => a_now ans).
Definition ctxErr : action bool := pure (fun ans _ => a_flag ans).
Definition Uint32N : action Z := pure (fun ans _ => a_rand ans).

(** The connector, as the pools' owners pass it: a nil connection with an error. *)
Definition connect : action (option drv_error * Conn) := pure (fun ans _ =>
  match a_err ans with
  | Some e => (Some e, NilConn)
  | None => (None, a_conn ans)
  end).

(** [Connection.ApplySettings]: on success the connection tracks the desired
    settings; after an error its state is whatever the driver left. *)
Definition ApplySettings (p : nat) (desired : option Settings) : action (option drv_error) := fun i ans σ =>
  let f c := match a_err ans with
             | None => set_Conn (mkConn desired (conn_IsClosed (conn_Conn c))) c
             | Some _ => set_Conn (mkConn (conn_Settings (a_conn ans)) (conn_IsClosed (a_conn ans))) c
             end in
  match assign_Conn p f i ans σ with
  | Next σ' _ => Next σ' (a_err ans)
  | Blocked => Blocked
  | Panic msg => Panic msg
  end.

Definition ResetAllSettings (p : nat) : action (option drv_error) := ApplySettings p None.

(** *** Stacks (stack.go) *)

Definition Push (s : stack_id) (p : nat) : action unit := fun _ _ σ =>
  match get_stack σ s with
  | Some (mkStack None l) => Next (set_stack σ s (mkStack None (p :: l))) tt
  | Some (mkStack (Some _) _) => Blocked
  | None => Panic "index out of range"
  end.

Definition insert_at (p : nat) (depth : Z) (l : list nat) : list nat :=
  if depth <=? 0 then p :: l
  else take (Z.to_nat depth) l ++ p :: drop (Z.to_nat depth) l.

Definition InsertAt (s : stack_id) (p : nat) (depth : Z) : action unit := fun _ _ σ =>
  match get_stack σ s with
  | Some (mkStack None l) => Next (set_stack σ s (mkStack None (insert_at p depth l))) tt
  | Some (mkStack (Some _) _) => Blocked
  | None => Panic "index out of range"
  end.

Definition Pop (s : stack_id) : action (option nat) := fun _ _ σ =>
  match get_stack σ s with
  | Some (mkStack None []) => Next σ None
  | Some (mkStack None (p :: l)) => Next (set_stack σ s (mkStack None l)) (Some p)
  | Some (mkStack (Some _) _) => Blocked
  | None => Panic "index out of range"
  end.

(** The lock [ForEach] holds while it runs its function on every connection. *)
Definition LockStack (s : stack_id) : action (list nat) := fun i _ σ =>
  match get_stack σ s with
  | Some (mkStack None l) => Next (set_stack σ s (mkStack (Some i) l)) l
  | Some (mkStack (Some _) _) => Blocked
  | None => Panic "index out of range"
  end.

Definition UnlockStack (s : stack_id) : action unit := fun _ _ σ =>
  match get_stack σ s with
  | Some (mkStack _ l) => Next (set_stack σ s (mkStack None l)) tt
  | None => Panic "index out of range"
  end.

(** The verdict of [PopFirst]'s function on a connection. *)
Inductive matched := NoMatch | Match | MatchPanic (msg : string).

Inductive found := NotFound | FoundPanic (msg : string) | Found (p : nat) (depth : Z) (rest : list nat).

Fixpoint PopFirst (matches : nat -> matched) (depth : Z) (l : list nat) : found :=
  match l with
  | [] => NotFound
  | p :: l =>
      match matches p with
      | MatchPanic msg => FoundPanic msg
      | Match => Found p depth l
      | NoMatch =>
          match PopFirst matches (depth + 1) l with
          | Found q d rest => Found q d (p :: rest)
          | r => r
          end
      end
  end.

(** *** The waitlist (waitlist.go) *)

Definition waiting : action Z := pure (fun _ σ => len (wait σ)).

Definition PushBackValue (settings : option Settings) : action unit := fun i _ σ =>
  Next (set_wait σ (wait σ ++ [mkWaiter i settings 0])) tt.

(** The critical section that looks for the goroutine's own element. *)
Definition remove_self : action bool := fun i _ σ =>
  if decide (i ∈ w_elem <$> wait σ)
  then Next (set_wait σ (filter (fun w => w_elem w <> i) (wait σ))) true
  else Next σ false.

Definition maybeStarvingCount : action Z := pure (fun _ σ =>
  if len (wait σ) =? 0 then 0 else len (filter (fun w => age w = 0) (wait σ))).

Definition maxAge : Z := 8.

(** The scan of [tryReturnConnSlow]: the waiters it passes over age; the one that
    is old enough, or that wants these settings, is taken out. *)
Fixpoint scan_waiters (connSettings : option Settings) (l : list waiter) : option (waiter * list waiter) :=
  match l with
  | [] => None
  | w :: l =>
      if (maxAge <? age w) || same_settings (w_settings w) connSettings then Some (w, l)
      else
        match scan_waiters connSettings l with
        | Some (t, l') => Some (t, mkWaiter (w_elem w) (w_settings w) (age w + 1) :: l')
        | None => None
        end
  end.

(** If none qualifies, the front one: every waiter has aged by then. *)
Definition choose_waiter (connSettings : option Settings) (l : list waiter) : option (waiter * list waiter) :=
  match scan_waiters connSettings l with
  | Some r => Some r
  | None =>
      match map (fun w => mkWaiter (w_elem w) (w_settings w) (age w + 1)) l with
      | [] => None
      | w :: l => Some (w, l)
      end
  end.

Definition take_waiter (connSettings : option Settings) : action (option nat) := fun _ _ σ =>
  match choose_waiter connSettings (wait σ) with
  | Some (w, l) => Next (set_wait σ l) (Some (w_elem w))
  | None => Next σ None
  end.

(** [target.Value.conn <- conn]: the value is offered, and the sender goes on once
    it was received. *)
Definition offer (w p : nat) : action unit := fun _ _ σ => Next (set_inbox σ (<[w := p]> (inbox σ))) tt.
Definition await_received (w : nat) : action unit := fun _ _ σ =>
  match inbox σ !! w with Some _ => Blocked | None => Next σ tt end.

Definition receive : action nat := fun i _ σ =>
  match inbox σ !! i with
  | Some p => Next (set_inbox σ (delete i (inbox σ))) p
  | None => Blocked
  end.

(** The select of [waitForConn]; its context may expire at any time. *)
Inductive selected := SelClosed | SelCtx | SelConn (p : nat).

Definition select_wait (ch : nat) : action selected := fun i ans σ =>
  match a_sel ans with
  | O => if bool_decide (chans σ !! ch = Some true) then Next σ SelClosed else Blocked
  | 1%nat => Next σ SelCtx
  | _ => match receive i ans σ with
         | Next σ' p => Next σ' (SelConn p)
         | _ => Blocked
         end
  end.

(** *** The close channel and the locks *)

Definition LoadClose : action (option nat) := pure (fun _ σ => close_ σ).

(** [pool.close.CompareAndSwap(nil, &closeChan)] of a fresh channel. *)
Definition open_chan : action (option nat) := fun _ _ σ =>
  match close_ σ with
  | Some _ => Next σ None
  | None => Next (set_close σ (Some (length (chans σ))) (chans σ ++ [false])) (Some (length (chans σ)))
  end.

Definition close_chan (ch : nat) : action unit := fun _ _ σ =>
  match chans σ !! ch with
  | Some false => Next (set_close σ (close_ σ) (<[ch := true]> (chans σ))) tt
  | Some true => Panic "close of closed channel"
  | None => Panic "close of nil channel"
  end.

Definition clear_close : action unit := fun _ _ σ => Next (set_close σ None (chans σ)) tt.

Definition LockCapacity : action unit := fun i _ σ =>
  match capacityMu σ with None => Next (set_capacityMu σ (Some i)) tt | Some _ => Blocked end.
Definition UnlockCapacity : action unit := fun _ _ σ => Next (set_capacityMu σ None) tt.

Definition wg_add : action unit := fun _ _ σ => Next (set_workers σ (workers σ + 1)) tt.
Definition wg_done : action unit := fun _ _ σ => Next (set_workers σ (workers σ - 1)) tt.
Definition wg_wait : action unit := fun _ _ σ => if workers σ =? 0 then Next σ tt else Blocked.

Definition make_scrubCtx : action unit := fun _ _ σ => Next (set_scrubCancel σ (Some false)) tt.
Definition call_scrubCancel : action unit := fun _ _ σ =>
  match scrubCancel σ with
  | Some _ => Next (set_scrubCancel σ (Some true)) tt
  | None => Panic "nil pointer dereference"
  end.

(** ** Configuration *)

Record Config := mkConfig {
  maxCapacity : Z;
  maxIdleCount : Z;
  cfg_maxLifetime : Z;
  cfg_idleTimeout : Z;
  refreshInterval : Z;
  hasRefresh : bool;
  scrubInterval : Z;
  checkers : list string
}.

Definition ErrTimeout : error := err "connection pool timed out".
Definition ErrCtxTimeout : error := err "connection pool context already expired".
Definition ErrPoolClosed : error := err "connection pool is closed".

(** ** Timestamps (timestamp.go) *)

Section Timestamps.
Local Open Scope pool_scope.

(** The expired stamp refuses; a busy one panics. *)
Definition borrow (p : nat) : prog bool :=
  let! c := act (deref p) in
  let stamp := timeUsed c in
  if stamp =? timestampExpired then Ret false
  else if stamp =? timestampBusy then act (panic "timestampBusy when borrowing a time")
  else act (ts_cas p stamp timestampBusy).

Definition expired (p : nat) (now timeout : Z) : prog bool :=
  let! c := act (deref p) in
  let stamp := timeUsed c in
  if stamp =? timestampExpired then Ret false
  else if stamp =? timestampBusy then Ret false
  else if timeout <? wrap64 (now - stamp) then act (ts_cas p stamp timestampExpired)
  else Ret false.

Definition set_used (p : nat) (mono : Z) : prog unit := act (assign p (set_timeUsed mono)).
Definition set_created (p : nat) (mono : Z) : prog unit := act (assign p (set_timeCreated mono)).

Definition update (p : nat) : prog unit :=
  let! now := act monotonicNow in set_used p now.

Definition elapsed_created (p : nat) : prog Z :=
  let! now := act monotonicNow in
  let! c := act (deref p) in
  Ret (wrap64 (now - timeCreated c)).
End Timestamps.

(** ** The pool (pool.go) *)

Section Operations.
Local Open Scope pool_scope.

Definition closedConn : prog unit := act (Add active (-1));; Ret tt.

(** [Pooled.Close] and [Pooled.Settings]. *)
Definition Close_conn (p : nat) : prog unit := act (assign_Conn p close_Conn).
Definition conn_settings (p : nat) : prog (option Settings) :=
  let! c := act (deref_Conn p) in Ret (conn_Settings (conn_Conn c)).

Definition has_settings (s : option Settings) : bool :=
  match s with None => false | Some _ => negb (IsEmpty s) end.

Definition pop (s : stack_id) : prog (option nat) :=
  loop tt (fun _ =>
    let! o := act (Pop s) in
    match o with
    | None => break None
    | Some p =>
        let! ok := borrow p in
        if ok then break (Some p) else continue tt
    end).

(** [connReopen]: the new backend replaces the old one in the same slot; if the
    dial fails the connection is left without a backend, and its callers give the
    slot up without touching it again. *)
Definition connReopen (p : nat) (now : Z) : prog (option drv_error) :=
  let! '(e, x) := act connect in
  act (assign p (set_Conn x));;
  match e with
  | Some e => Ret (Some e)
  | None =>
      let! settings := conn_settings p in
      let! e := if has_settings settings then act (ApplySettings p settings) else Ret None in
      match e with
      | Some e => Close_conn p;; Ret (Some e)
      | None =>
          set_created p now;;
          set_used p now;;
          act (assign p (set_conn_scrubPass 0));;
          Ret None
      end
  end.

Definition connNew : prog (drv_error + nat) :=
  let! '(e, x) := act connect in
  match e with
  | Some e => Ret (inl e)
  | None =>
      let! now := act monotonicNow in
      let! p := act (alloc (mkPooled now now 0 true false x)) in
      Ret (inr p)
  end.

Definition state_stack (b : Z) : stack_id := States (Z.to_nat (Z.land b stackMask)).

Definition getFromSettingsStack (settings : option Settings) : prog (option nat) :=
  let! start :=
    match settings with
    | None => act (Load freshStatesStack)
    | Some _ => Ret (Z.land (Bucket settings) stackMask)
    end in
  loop 0 (fun i =>
    if i <=? stackMask then
      let! conn := pop (state_stack (i + start)) in
      match conn with
      | Some p => break (Some p)
      | None => continue (i + 1)
      end
    else break None).

(** A new connection within the capacity; [inr None] is [nil, nil]. *)
Definition getNew : prog (error + option nat) :=
  loop tt (fun _ =>
    let! open := act (Load active) in
    let! cap := act (Load capacity) in
    if cap <=? open then break (inr None)
    else
      let! ok := act (CompareAndSwap active open (open + 1)) in
      if ok then
        let! r := connNew in
        match r with
        | inl e => closedConn;; break (inl (drv e))
        | inr p => break (inr (Some p))
        end
      else continue tt).

(** *** Handing connections back *)

Definition tryReturnConnSlow (p : nat) : prog bool :=
  let! connSettings := conn_settings p in
  let! target := act (take_waiter connSettings) in
  match target with
  | None => Ret false
  | Some w =>
      act (offer w p);;
      act (await_received w);;
      Ret true
  end.

Definition wait_tryReturnConn (p : nat) : prog bool :=
  let! n := act waiting in
  if n =? 0 then Ret false else tryReturnConnSlow p.

Definition closeOnOverCapacity (p : nat) : prog bool :=
  loop tt (fun _ =>
    let! open := act (Load active) in
    let! cap := act (Load capacity) in
    if open <=? cap then break false
    else
      let! ok := act (CompareAndSwap active open (open - 1)) in
      if ok then Close_conn p;; break true else continue tt).

Definition closeOnIdleLimitReached (p : nat) : prog bool :=
  loop tt (fun _ =>
    let! open := act (Load active) in
    let! b := act (Load borrowed) in
    let idle := wrap64 (open - b) in
    let! lim := act (Load idleCount) in
    if idle <=? lim then break false
    else
      let! ok := act (CompareAndSwap active open (open - 1)) in
      if ok then act (Add idleClosed 1);; Close_conn p;; break true else continue tt).

Definition returnConnAt (p : nat) (depth : Z) : prog bool :=
  let! over := closeOnOverCapacity p in
  if over then Ret false
  else
    let! handed := wait_tryReturnConn p in
    if handed then Ret true
    else
      let! limit := closeOnIdleLimitReached p in
      if limit then Ret false
      else
        let! connSettings := conn_settings p in
        let! stack :=
          if has_settings connSettings then
            let b := Z.land (Bucket connSettings) stackMask in
            act (Store freshStatesStack b);; Ret (state_stack b)
          else Ret Clean in
        (if depth =? 0 then act (Push stack p) else act (InsertAt stack p depth));;
        Ret false.

Definition tryReturnConn (p : nat) : prog bool := returnConnAt p 0.

(** [rand.Uint32N] panics on zero. *)
Definition extendedMaxLifetime : prog Z :=
  let! life := act (Load maxLifetime) in
  if life =? 0 then Ret 0
  else
    let n := life mod 2 ^ 32 in
    if n =? 0 then act (panic "invalid argument to Uint32N")
    else
      let! r := act Uint32N in
      Ret (wrap64 (life + r mod n)).

(** The hooks of the pool's owner. *)
Definition onBorrow : prog unit := act (Add lent 1);; Ret tt.
Definition onRecycle : prog unit := act (Add lent (-1));; Ret tt.

(** [put]; [None] is nil, a connection that was discarded. *)
Definition put (conn : option nat) : prog unit :=
  act (Add borrowed (-1));;
  onRecycle;;
  act (Add requested (-1));;
  match conn with
  | None =>
      let! r := connNew in
      match r with
      | inl _ => closedConn
      | inr p => tryReturnConn p;; Ret tt
      end
  | Some p =>
      update p;;
      let! lifetime := extendedMaxLifetime in
      let! stale :=
        if 0 <? lifetime
        then (let! e := elapsed_created p in Ret (lifetime <? e))
        else Ret false in
      if stale then
        act (Add maxLifetimeClosed 1);;
        Close_conn p;;
        let! c := act (deref p) in
        let! e := connReopen p (timeUsed c) in
        match e with
        | Some _ => closedConn
        | None => tryReturnConn p;; Ret tt
        end
      else tryReturnConn p;; Ret tt
  end.

(** [Pooled.Recycle], [Taint] and [TaintOnRecycle]. *)
Definition recycleDiscarded (p : nat) : prog unit :=
  act (assign p (set_has_pool false));; put None.

Definition Recycle (p : nat) : prog unit :=
  let! c := act (deref_Conn p) in
  if negb (has_pool c) then Close_conn p
  else if conn_IsClosed (conn_Conn c) then recycleDiscarded p
  else if taintOnRecycle c then Close_conn p;; recycleDiscarded p
  else put (Some p).

Definition TaintOnRecycle (p : nat) : prog unit := act (assign p (set_taint true)).

Definition Taint (p : nat) : prog unit :=
  let! c := act (deref p) in
  if negb (has_pool c) then Ret tt
  else put None;; act (assign p (set_has_pool false)).

Definition tryReturnAnyConn : prog bool :=
  let! conn := pop Clean in
  match conn with
  | Some p => update p;; tryReturnConn p
  | None =>
      loop 0 (fun u =>
        if u <=? stackMask then
          let! conn := pop (States (Z.to_nat u)) in
          match conn with
          | Some p =>
              update p;;
              let! r := tryReturnConn p in break r
          | None => continue (u + 1)
          end
        else break false)
  end.

(** *** Lending connections *)

Definition receive_late (removed : bool) (e : error) : prog (error + option nat) :=
  if removed then Ret (inl e)
  else let! p := act receive in Ret (inr (Some p)).

Definition waitForConn (settings : option Settings) (ch : nat) : prog (error + option nat) :=
  act (PushBackValue settings);;
  let! sel := act (select_wait ch) in
  match sel with
  | SelClosed =>
      let! removed := act remove_self in receive_late removed ErrPoolClosed
  | SelCtx =>
      let! removed := act remove_self in receive_late removed (err "context.Cause")
  | SelConn p => Ret (inr (Some p))
  end.

Definition recordWait (start : Z) : prog unit :=
  act (Add waitCount 1);;
  let! now := act monotonicNow in
  act (Add waitTime (wrap64 (now - start)));;
  Ret tt.

(** The demand counters at the start of a request. *)
Definition track_demand : prog unit :=
  let! newRequested := act (Add requested 1) in
  loop tt (fun _ =>
    let! peak := act (Load peakRequested) in
    if newRequested <=? peak then break tt
    else
      let! ok := act (CompareAndSwap peakRequested peak newRequested) in
      if ok then break tt else continue tt).

Definition returnErr (e : error) : prog (error + nat) :=
  act (Add requested (-1));; Ret (inl e).

Definition lend (p : nat) : prog (error + nat) :=
  act (Add borrowed 1);; onBorrow;; Ret (inr p).

(** Waiting for a connection, the last resort of both kinds of request. *)
Definition wait_for_one (settings : option Settings) : prog (error + option nat) :=
  let! closeChan := act LoadClose in
  match closeChan with
  | None => Ret (inl ErrPoolClosed)
  | Some ch =>
      let! start := act monotonicNow in
      let! r := waitForConn settings ch in
      match r with
      | inl _ => Ret (inl ErrTimeout)
      | inr conn => recordWait start;; Ret (inr conn)
      end
  end.

(** [ResetAllSettings], and a new backend if that fails. *)
Definition reset_or_reopen (p : nat) : prog (option error) :=
  let! e := act (ResetAllSettings p) in
  match e with
  | None => Ret None
  | Some _ =>
      Close_conn p;;
      let! now := act monotonicNow in
      let! e := connReopen p now in
      match e with
      | Some e => closedConn;; Ret (Some (drv e))
      | None => Ret None
      end
  end.

Definition get : prog (error + nat) :=
  act (Add getCount 1);;
  track_demand;;
  let! conn := pop Clean in
  match conn with
  | Some p => lend p
  | None =>
      let! r := getNew in
      match r with
      | inl e => returnErr e
      | inr conn =>
          let! conn := match conn with Some p => Ret (Some p) | None => getFromSettingsStack None end in
          let! r := match conn with Some p => Ret (inr (Some p)) | None => wait_for_one None end in
          match r with
          | inl e => returnErr e
          | inr None => returnErr ErrTimeout
          | inr (Some p) =>
              let! settings := conn_settings p in
              if has_settings settings then
                act (Add resetState 1);;
                let! e := reset_or_reopen p in
                match e with
                | Some e => returnErr e
                | None => lend p
                end
              else lend p
          end
      end
  end.

Definition applySettingsWithReconnect (p : nat) (desired : option Settings) : prog (option error) :=
  let! e := act (ApplySettings p desired) in
  match e with
  | None => Ret None
  | Some e =>
      if negb (IsConnectionError e) && negb (IsTempBuffersFreeze e) then
        Close_conn p;; closedConn;; Ret (Some (drv e))
      else
        Close_conn p;;
        let! now := act monotonicNow in
        let! e := connReopen p now in
        match e with
        | Some e => closedConn;; Ret (Some (drv e))
        | None =>
            let! e := act (ApplySettings p desired) in
            match e with
            | Some e => Close_conn p;; closedConn;; Ret (Some (drv e))
            | None => Ret None
            end
        end
  end.

(** The settings of the acquired connection are made those requested. *)
Definition fit_settings (p : nat) (settings : option Settings) : prog (option error) :=
  let! connSettings := conn_settings p in
  if negb (same_settings connSettings settings) then
    let! e :=
      if has_settings connSettings then act (Add diffState 1);; reset_or_reopen p else Ret None in
    match e with
    | Some e => Ret (Some e)
    | None => applySettingsWithReconnect p settings
    end
  else if NeedsReapplyOnReuse settings then applySettingsWithReconnect p settings
  else Ret None.

Definition getWithSettings (settings : option Settings) : prog (error + nat) :=
  act (Add getWithStateCount 1);;
  track_demand;;
  let! conn := pop (state_stack (Bucket settings)) in
  let! conn := match conn with Some p => Ret (Some p) | None => pop Clean end in
  let! r := match conn with Some p => Ret (inr (Some p)) | None => getNew end in
  match r with
  | inl e => returnErr e
  | inr conn =>
      let! conn := match conn with Some p => Ret (Some p) | None => getFromSettingsStack settings end in
      let! r := match conn with Some p => Ret (inr (Some p)) | None => wait_for_one settings end in
      match r with
      | inl e => returnErr e
      | inr None => returnErr ErrTimeout
      | inr (Some p) =>
          let! e := fit_settings p settings in
          match e with
          | Some e => returnErr e
          | None => lend p
          end
      end
  end.

Definition Get : prog (error + nat) :=
  let! done := act ctxErr in
  if done then Ret (inl ErrCtxTimeout)
  else
    let! cap := act (Load capacity) in
    if cap =? 0 then Ret (inl ErrPoolClosed) else get.

Definition GetWithSettings (settings : option Settings) : prog (error + nat) :=
  let! done := act ctxErr in
  if done then Ret (inl ErrCtxTimeout)
  else
    let! cap := act (Load capacity) in
    if cap =? 0 then Ret (inl ErrPoolClosed)
    else if negb (has_settings settings) then get
    else getWithSettings settings.
End Operations.
