(* ===== verification/ConnScrub.v ===== *)
(** The scrubber of the connection pool: services/multipooler/internal/pools/
    connpool/scrub.go.

    One tick takes an idle connection out of its stack, runs the registered
    checkers on it and puts it back where it was, or closes and replaces it. *)

From stdpp Require Import base gmap numbers list strings.
From S2P Require Import Prelude ConnPool.

Local Open Scope Z_scope.
Local Open Scope pool_scope.

Definition scrubStackCount : Z := stackMask + 2.

Definition scrubStack (i : Z) : stack_id := if i =? 0 then Clean else States (Z.to_nat (i - 1)).

(** An idle connection taken out: the connection, its depth and its idle clock. *)
Record scrubbed := mkScrubbed { s_conn : nat; s_depth : Z; s_stamp : Z }.

(** The function [scrubPop] gives [PopFirst]; on a match the stamp becomes busy. *)
Definition scrub_match (σ : Pool) (p : nat) : matched :=
  match heap σ !! p with
  | None => MatchPanic "nil pointer dereference"
  | Some c =>
      if conn_scrubPass c =? scrubPass σ then NoMatch
      else if timeUsed c =? timestampExpired then NoMatch
      else if timeUsed c =? timestampBusy then MatchPanic "timestampBusy when borrowing a time"
      else Match
  end.

Definition PopFirst_unprobed (s : stack_id) : action (option scrubbed) := fun _ _ σ =>
  match get_stack σ s with
  | Some (mkStack None l) =>
      match PopFirst (scrub_match σ) 0 l with
      | NotFound => Next σ None
      | FoundPanic msg => Panic msg
      | Found p depth rest =>
          match heap σ !! p with
          | None => Panic "nil pointer dereference"
          | Some c =>
              Next (set_stack (set_heap σ (<[p := set_timeUsed timestampBusy c]> (heap σ))) s (mkStack None rest))
                (Some (mkScrubbed p depth (timeUsed c)))
          end
      end
  | Some (mkStack (Some _) _) => Blocked
  | None => Panic "index out of range"
  end.

Definition load_scrubPass : action Z := pure (fun _ σ => scrubPass σ).
Definition next_pass : action unit := fun _ _ σ => Next (set_scrubPass σ (wrapu64 (scrubPass σ + 1))) tt.

Definition scrubPop (s : stack_id) : prog (option scrubbed) :=
  let! o := act (PopFirst_unprobed s) in
  match o with
  | None => Ret None
  | Some x =>
      let! n := act load_scrubPass in
      act (assign (s_conn x) (set_conn_scrubPass n));;
      Ret (Some x)
  end.

(** One look at every stack from the cursor. *)
Definition scrub_rotation (cursor : Z) : prog (option (scrubbed * Z)) :=
  loop 0 (fun i =>
    if i <? scrubStackCount then
      let idx := (cursor + i) mod scrubStackCount in
      let! o := scrubPop (scrubStack idx) in
      match o with
      | Some x => break (Some (x, (idx + 1) mod scrubStackCount))
      | None => continue (i + 1)
      end
    else break None).

(** Two looks: the second one after the next pass began. *)
Definition scrubNext (cursor : Z) : prog (option (scrubbed * Z)) :=
  let! o := scrub_rotation cursor in
  match o with
  | Some r => Ret (Some r)
  | None =>
      act next_pass;;
      let! o := scrub_rotation cursor in
      match o with
      | Some r => Ret (Some r)
      | None => act next_pass;; Ret None
      end
  end.

(** [checker.Check]: an error, or a verdict; it may find the connection dead. *)
Definition Check (p : nat) : action (option drv_error * Divergence) := fun i ans σ =>
  let f c := let x := conn_Conn c in set_Conn (mkConn (conn_Settings x) (conn_IsClosed x || a_flag ans)) c in
  match assign_Conn p f i ans σ with
  | Next σ' _ => Next σ' (a_err ans, a_div ans)
  | Blocked => Blocked
  | Panic msg => Panic msg
  end.

(** The loop over the checkers: the number of findings, and whether one failed. *)
Fixpoint run_checkers (p : nat) (names : list string) (findings : nat) : prog (nat * bool) :=
  match names with
  | [] => Ret (findings, false)
  | _ :: names =>
      let! '(e, div) := act (Check p) in
      match e with
      | Some _ => Ret (findings, true)
      | None =>
          let findings := if IsDiverged div then S findings else findings in
          let! c := act (deref_Conn p) in
          if conn_IsClosed (conn_Conn c) then Ret (findings, false)
          else run_checkers p names findings
      end
  end.

Definition scrubReplace : prog unit :=
  let! r := getNew in
  match r with
  | inr (Some p) => tryReturnConn p;; Ret tt
  | _ => Ret tt
  end.

(** [scrubOne]: the new cursor. *)
Definition scrubOne (cfg : Config) (cursor : Z) : prog Z :=
  let! cap := act (Load capacity) in
  if (cap =? 0) || (len (checkers cfg) =? 0) then Ret cursor
  else
    let! o := scrubNext cursor in
    match o with
    | None => Ret cursor
    | Some (s, cursor) =>
        let p := s_conn s in
        act (Add borrowed 1);;
        let! '(findings, checkErr) := run_checkers p (checkers cfg) 0 in
        act (Add scrubChecked 1);;
        (if checkErr : bool then act (Add scrubErrors 1);; Ret tt else Ret tt);;
        act (Add borrowed (-1));;
        let! c := act (deref_Conn p) in
        if (0 <? findings)%nat then
          act (Add scrubDivergent 1);;
          Close_conn p;; closedConn;; scrubReplace;; Ret cursor
        else if checkErr || conn_IsClosed (conn_Conn c) then
          (if conn_IsClosed (conn_Conn c) then Ret tt else Close_conn p);;
          closedConn;; scrubReplace;; Ret cursor
        else
          set_used p (s_stamp s);;
          returnConnAt p (s_depth s);;
          Ret cursor
    end.
