(* ===== verification/ConnMachine.v ===== *)
(** Opening and closing a connection pool, its workers, and the goroutines that
    share it: services/multipooler/internal/pools/connpool/pool.go.

    [run] interleaves the goroutines in the order of a schedule.  The first one
    opens the pool; the users it is then given to make calls on it, one after the
    other in each goroutine; the workers join as they are started. *)

From stdpp Require Import base gmap numbers list strings.
From S2P Require Import Prelude ConnPool ConnScrub.

Local Open Scope Z_scope.
Local Open Scope pool_scope.

Section Lifecycle.
Context (cfg : Config).

(** ** Capacity *)

Definition setIdleCount : prog unit :=
  let! cap := act (Load capacity) in
  if (maxIdleCount cfg =? 0) || (cap <? maxIdleCount cfg)
  then act (Store idleCount cap) else act (Store idleCount (maxIdleCount cfg)).

Definition satisfyWaitersOnCapacityIncrease : prog unit :=
  loop tt (fun _ =>
    let! n := act waiting in
    if 0 <? n then
      let! r := getNew in
      match r with
      | inr (Some p) =>
          let! handed := wait_tryReturnConn p in
          if handed then continue tt
          else act (Push Clean p);; break tt
      | _ => break tt
      end
    else break tt).

Definition close_idle_above (newcap : Z) : prog unit :=
  loop tt (fun _ =>
    let! open := act (Load active) in
    if newcap <? open then
      let! conn := getFromSettingsStack None in
      let! conn := match conn with Some p => Ret (Some p) | None => pop Clean end in
      match conn with
      | None => break tt
      | Some p => Close_conn p;; closedConn;; continue tt
      end
    else break tt).

Definition setCapacity (newcap : Z) : prog unit :=
  if newcap <? 0 then act (panic "negative capacity")
  else
    let! oldcap := act (Swap capacity newcap) in
    if oldcap =? newcap then Ret tt
    else
      (if oldcap <? newcap then satisfyWaitersOnCapacityIncrease else close_idle_above newcap);;
      setIdleCount.

Definition SetCapacity (newcap : Z) : prog unit :=
  act LockCapacity;;
  setCapacity newcap;;
  act UnlockCapacity.

(** ** Closing *)

Definition ErrDrain : error := err "timed out while waiting for connections to be returned to the pool".

Definition waitForDrain : prog (option error) :=
  loop tt (fun _ =>
    let! n := act (Load active) in
    if 0 <? n then
      let! done := act ctxErr in
      if done
      then break (Some ErrDrain)
      else continue tt
    else break None).

Definition CloseWithContext : prog (option error) :=
  act LockCapacity;;
  let! closeChan := act LoadClose in
  let! cap := act (Load capacity) in
  match closeChan with
  | None => act UnlockCapacity;; Ret None
  | Some ch =>
      if cap =? 0 then act UnlockCapacity;; Ret None
      else
        act call_scrubCancel;;
        setCapacity 0;;
        let! e := waitForDrain in
        act (close_chan ch);;
        act wg_wait;;
        act clear_close;;
        act UnlockCapacity;;
        Ret e
  end.

Definition reopen : prog unit :=
  act LockCapacity;;
  let! cap := act (Load capacity) in
  if cap =? 0 then act UnlockCapacity
  else
    setCapacity 0;;
    waitForDrain;;
    setCapacity cap;;
    act UnlockCapacity.

(** ** Idle connections *)

(** [ForEach] with the function of [closeInStack], under the stack's lock. *)
Definition expire_all (l : list nat) (mono timeout : Z) : prog nat :=
  loop (l, O) (fun '(l, expiredCount) =>
    match l with
    | [] => break expiredCount
    | p :: l =>
        let! ok := expired p mono timeout in
        if ok then
          act (Add idleClosed 1);;
          Close_conn p;;
          closedConn;;
          continue (l, S expiredCount)
        else continue (l, expiredCount)
    end).

Definition replace_expired (expiredCount : nat) : prog unit :=
  loop expiredCount (fun n =>
    match n with
    | O => break tt
    | S n =>
        let! r := getNew in
        match r with
        | inr (Some p) => tryReturnConn p;; continue n
        | _ => break tt
        end
    end).

Definition closeInStack (s : stack_id) (mono timeout : Z) : prog unit :=
  let! l := act (LockStack s) in
  let! expiredCount := expire_all l mono timeout in
  act (UnlockStack s);;
  replace_expired expiredCount.

Definition closeIdleResources (now : Z) : prog unit :=
  let! timeout := act (Load idleTimeout) in
  if timeout =? 0 then Ret tt
  else
    let! cap := act (Load capacity) in
    if cap =? 0 then Ret tt
    else
      loop 0 (fun i =>
        if i <=? stackMask
        then closeInStack (States (Z.to_nat i)) now timeout;; continue (i + 1)
        else break tt);;
      closeInStack Clean now timeout.

(** ** Workers *)

(** [runWorker]'s goroutine: the state is the scrubber's cursor.  A worker ends
    when its function says so or its channel is closed. *)
Definition worker_loop (ch : nat) (body : Z -> Z -> prog (Z * bool)) : prog unit :=
  loop 0 (fun s =>
    Tick ch (fun o =>
      match o with
      | None => act wg_done;; break tt
      | Some now =>
          let! '(s, again) := body now s in
          if again : bool then continue s else act wg_done;; break tt
      end)).

Definition starving_tick : prog unit :=
  let! maybeStarving := act maybeStarvingCount in
  loop 0 (fun n =>
    if n <? maybeStarving then
      let! r := tryReturnAnyConn in
      if r : bool then continue (n + 1) else break tt
    else break tt).

Definition worker_body (w : worker) (now s : Z) : prog (Z * bool) :=
  match w with
  | StarvingWorker => starving_tick;; Ret (s, true)
  | IdleWorker => closeIdleResources now;; Ret (s, true)
  | ScrubWorker => let! cursor := scrubOne cfg s in Ret (cursor, true)
  | RefreshWorker =>
      let! refresh := act ctxErr in
      if refresh : bool then Go Reopen (Ret (s, false)) else Ret (s, true)
  end.

Definition task_prog (t : task) : prog unit :=
  match t with
  | Worker w ch interval =>
      if interval <=? 0 then act (panic "non-positive interval for NewTicker")
      else worker_loop ch (worker_body w)
  | Reopen => reopen
  end.

Definition runWorker (w : worker) (ch : nat) (interval : Z) : prog unit :=
  act wg_add;; Go (Worker w ch interval) (Ret tt).

(** ** Opening *)

Definition open : prog unit :=
  let! closeChan := act open_chan in
  match closeChan with
  | None => Ret tt
  | Some ch =>
      act (Store capacity (maxCapacity cfg));;
      act make_scrubCtx;;
      setIdleCount;;
      runWorker StarvingWorker ch (100 * 1000000);;
      let! idleTimeout := act (Load idleTimeout) in
      (if idleTimeout =? 0 then Ret tt else runWorker IdleWorker ch (idleTimeout `quot` 10));;
      (if (0 <? scrubInterval cfg) && (0 <? len (checkers cfg))
       then runWorker ScrubWorker ch (scrubInterval cfg) else Ret tt);;
      (if negb (refreshInterval cfg =? 0) && hasRefresh cfg
       then runWorker RefreshWorker ch (refreshInterval cfg) else Ret tt)
  end.

Definition NewPool : Pool :=
  mkPool (fun c => match c with
            | maxLifetime => cfg_maxLifetime cfg
            | idleTimeout => cfg_idleTimeout cfg
            | _ => 0
            end)
    [] (mkStack None []) (replicate (Z.to_nat (stackMask + 1)) (mkStack None [])) [] ∅ None []
    None 0 None 0 false ∅ [].

(** ** Statistics *)

Record PoolStats := mkStats {
  st_Active : Z; st_Borrowed : Z; st_Idle : Z; st_Capacity : Z; st_Available : Z;
  st_Requested : Z; st_Waiting : Z }.

Definition Stats : prog PoolStats :=
  let! a := act (Load active) in
  let! b := act (Load borrowed) in
  let! a' := act (Load active) in
  let! b' := act (Load borrowed) in
  let! c := act (Load capacity) in
  let! c' := act (Load capacity) in
  let! b'' := act (Load borrowed) in
  let! q := act (Load requested) in
  let! w := act waiting in
  Ret (mkStats a b (wrap64 (a' - b')) c (wrap64 (c' - b'')) q w).

Definition PeakRequestedAndReset : prog Z :=
  let! q := act (Load requested) in
  act (Swap peakRequested q).

Definition SetIdleTimeout (d : Z) : prog unit := act (Store idleTimeout d).

(** ** Users of the pool *)

(** What a client does with a connection it holds: close it, run commands that
    change its settings, mark it, taint it. *)
Inductive use := UseClose | UseSettings (s : option Settings) | UseTaintOnRecycle | UseTaint.

Definition run_use (p : nat) (u : use) : prog unit :=
  match u with
  | UseClose => Close_conn p
  | UseSettings s => act (assign_Conn p (fun c => set_Conn (mkConn s (conn_IsClosed (conn_Conn c))) c))
  | UseTaintOnRecycle => TaintOnRecycle p
  | UseTaint => Taint p
  end.

Fixpoint run_uses (p : nat) (us : list use) : prog unit :=
  match us with
  | [] => Ret tt
  | u :: us => run_use p u;; run_uses p us
  end.

(** The client's variable: set when it gets a connection, cleared when it gives
    it back. *)
Definition hold (want : option Settings) (p : nat) : action unit := fun i _ σ =>
  match heap σ !! p with
  | Some c => Next (set_held σ (<[i := p]> (held σ)) (mkService i want c :: served σ)) tt
  | None => Panic "nil pointer dereference"
  end.
Definition release : action unit := fun i _ σ => Next (set_held σ (delete i (held σ)) (served σ)) tt.

Definition client (want : option Settings) (us : list use) : prog unit :=
  let! r := match want with None => Get | Some _ => GetWithSettings want end in
  match r with
  | inl _ => Ret tt
  | inr p =>
      act (hold want p);;
      run_uses p us;;
      act release;;
      Recycle p
  end.

Inductive call :=
| Client (want : option Settings) (us : list use)
| CallSetCapacity (n : Z)
| CallClose
| CallStats
| CallPeak
| CallSetIdleTimeout (d : Z).

Definition run_call (c : call) : prog unit :=
  match c with
  | Client want us => client want us
  | CallSetCapacity n => SetCapacity n
  | CallClose => CloseWithContext;; Ret tt
  | CallStats => Stats;; Ret tt
  | CallPeak => PeakRequestedAndReset;; Ret tt
  | CallSetIdleTimeout d => SetIdleTimeout d
  end.

Fixpoint run_calls (cs : list call) : prog unit :=
  match cs with
  | [] => Ret tt
  | c :: cs => run_call c;; run_calls cs
  end.

Definition publish : action unit := fun _ _ σ => Next (set_published σ true) tt.
Definition await_published : action unit := fun _ _ σ => if published σ then Next σ tt else Blocked.

Definition main : prog unit := open;; act publish.
Definition user (cs : list call) : prog unit := act await_published;; run_calls cs.

(** ** The machine *)

Record machine := mkMachine { pool : Pool; threads : list (prog unit); crashed : option string }.

Inductive tres (A : Set) :=
| TStop
| TPanic (msg : string)
| TNext (σ : Pool) (p : prog A) (spawned : list task).
Arguments TStop {A}.
Arguments TPanic {A} msg.
Arguments TNext {A} σ p spawned.

(** One step of goroutine [i]; a blocked or finished goroutine stays. *)
Definition tstep {A : Set} (i : nat) (ans : answer) (p : prog A) (σ : Pool) : tres A :=
  match p with
  | Ret _ => TStop
  | Act f k =>
      match f i ans σ with
      | Blocked => TStop
      | Panic msg => TPanic msg
      | Next σ' b => TNext σ' (k b) []
      end
  | Tick ch k =>
      match a_sel ans with
      | O => if bool_decide (chans σ !! ch = Some true) then TNext σ (k None) [] else TStop
      | _ => TNext σ (k (Some (a_now ans))) []
      end
  | Go t k => TNext σ k [t]
  | Iter body s k =>
      TNext σ (bind (body s) (fun x => match x with inl s' => Iter body s' k | inr t => k t end)) []
  end.

Definition step (m : machine) (ev : nat * answer) : machine :=
  match crashed m, threads m !! ev.1 with
  | None, Some p =>
      match tstep ev.1 ev.2 p (pool m) with
      | TStop => m
      | TPanic msg => mkMachine (pool m) (threads m) (Some msg)
      | TNext σ' p' ts => mkMachine σ' (<[ev.1 := p']> (threads m) ++ map task_prog ts) None
      end
  | _, _ => m
  end.

Definition run (sched : list (nat * answer)) (m : machine) : machine := foldl step m sched.

Definition start (users : list (list call)) : machine :=
  mkMachine NewPool (main :: map user users) None.
End Lifecycle.
