(* ===== verification/ConnLogic.v ===== *)
(** A program logic for the goroutines of a connection pool.

    Each goroutine has a share of the pool: the slots of [active] it accounts for,
    its part of the [borrowed], [requested] and [lent] counts, the pooled connections in
    its hands (with their contents) and the locks, waits and handovers it is in.
    [Inv] relates the pool to the shares of all goroutines: every slot belongs to
    a live idle connection, a connection being handed over or a goroutine; every
    connection is in one place.  [wp p r Q] says that program [p], run from share
    [r], keeps [Inv] at every action, never panics and ends with a share in [Q];
    a loop has an invariant of its own. *)

From stdpp Require Import base gmap numbers list strings.
From S2P Require Import Prelude ConnPool.

Local Open Scope Z_scope.

(** ** Shares *)

(** What a goroutine is engaged in: the connection its client holds; the stack it
    iterates over, with the stack's connections and the one it has just expired;
    being a waiter; the waiter it is handing a connection to; [capacityMu]; the
    channel it is closing, and whether it has closed it; knowing that the scrub
    context exists; the right to open the pool. *)
Record ctl := mkCtl {
  c_held : option nat;
  c_lock : option (stack_id * list nat * option nat);
  c_wait : bool;
  c_send : option nat;
  c_mu : bool;
  c_chan : option (nat * bool);
  c_pub : bool;
  c_open : bool
}.

Record share := mkShare {
  r_slots : Z;
  r_borrowed : Z;
  r_requested : Z;
  r_lent : Z;
  r_own : gmap nat Pooled;
  r_ctl : ctl
}.

Definition no_share : share := mkShare 0 0 0 0 ∅ (mkCtl None None false None false None false false).

Definition counts (r : share) : Z * Z * (Z * Z) := (r_slots r, r_borrowed r, (r_requested r, r_lent r)).
Definition locks (r : share) := c_lock (r_ctl r).
Definition waits (r : share) : bool * option nat := (c_wait (r_ctl r), c_send (r_ctl r)).
Definition mus (r : share) : bool * option (nat * bool) := (c_mu (r_ctl r), c_chan (r_ctl r)).
Definition opens (r : share) : bool := c_open (r_ctl r).
Definition helds (r : share) : option nat * bool := (c_held (r_ctl r), c_pub (r_ctl r)).

(** Share updates. *)
Definition add_slots (n : Z) (r : share) : share :=
  mkShare (r_slots r + n) (r_borrowed r) (r_requested r) (r_lent r) (r_own r) (r_ctl r).
Definition add_borrowed (n : Z) (r : share) : share :=
  mkShare (r_slots r) (r_borrowed r + n) (r_requested r) (r_lent r) (r_own r) (r_ctl r).
Definition add_requested (n : Z) (r : share) : share :=
  mkShare (r_slots r) (r_borrowed r) (r_requested r + n) (r_lent r) (r_own r) (r_ctl r).
Definition add_lent (n : Z) (r : share) : share :=
  mkShare (r_slots r) (r_borrowed r) (r_requested r) (r_lent r + n) (r_own r) (r_ctl r).
Definition set_own (m : gmap nat Pooled) (r : share) : share :=
  mkShare (r_slots r) (r_borrowed r) (r_requested r) (r_lent r) m (r_ctl r).
Definition set_ctl (c : ctl) (r : share) : share :=
  mkShare (r_slots r) (r_borrowed r) (r_requested r) (r_lent r) (r_own r) c.

Definition with_held (h : option nat) (c : ctl) : ctl :=
  mkCtl h (c_lock c) (c_wait c) (c_send c) (c_mu c) (c_chan c) (c_pub c) (c_open c).
Definition with_lock (l : option (stack_id * list nat * option nat)) (c : ctl) : ctl :=
  mkCtl (c_held c) l (c_wait c) (c_send c) (c_mu c) (c_chan c) (c_pub c) (c_open c).
Definition with_waits (b : bool) (s : option nat) (c : ctl) : ctl :=
  mkCtl (c_held c) (c_lock c) b s (c_mu c) (c_chan c) (c_pub c) (c_open c).
Definition with_mus (b : bool) (ch : option (nat * bool)) (c : ctl) : ctl :=
  mkCtl (c_held c) (c_lock c) (c_wait c) (c_send c) b ch (c_pub c) (c_open c).
Definition with_pub (c : ctl) : ctl :=
  mkCtl (c_held c) (c_lock c) (c_wait c) (c_send c) (c_mu c) (c_chan c) true (c_open c).
Definition with_opened (c : ctl) : ctl :=
  mkCtl (c_held c) (c_lock c) (c_wait c) (c_send c) (c_mu c) (c_chan c) (c_pub c) false.

(** ** The state of a connection *)

(** Fit to be lent: part of the pool, not marked, open. *)
Definition lendable (c : Pooled) : Prop :=
  has_pool c = true /\ taintOnRecycle c = false /\ conn_IsClosed (conn_Conn c) = false.

(** With a backend: a failed dial leaves none. *)
Definition dialed (c : Pooled) : Prop := conn_Conn c <> NilConn.

Lemma lendable_dialed c : lendable c -> dialed c.
Proof. intros (_ & _ & Hc) E. by rewrite E in Hc. Qed.

#[export] Hint Resolve lendable_dialed : multigres.

Definition live (c : Pooled) : Prop := timeUsed c <> timestampExpired.

(** Fit to be put back: lendable, with a running idle clock. *)
Definition returnable (c : Pooled) : Prop :=
  lendable c /\ timeUsed c <> timestampExpired /\ timeUsed c <> timestampBusy.

Definition idle_ok (c : Pooled) : Prop :=
  timeUsed c <> timestampBusy /\ dialed c /\ (timeUsed c = timestampExpired \/ lendable c).

Definition clean_ok (c : Pooled) : Prop :=
  timeUsed c = timestampExpired \/ has_settings (conn_Settings (conn_Conn c)) = false.

(** What a request for these settings may be given. *)
Definition fits (want : option Settings) (c : Pooled) : Prop :=
  if has_settings want then same_settings (conn_Settings (conn_Conn c)) want = true
  else has_settings (conn_Settings (conn_Conn c)) = false.

Definition service_ok (s : service) : Prop := lendable (given s) /\ fits (wanted s) (given s).

(** ** The invariant *)

Definition livep (h : list Pooled) (p : nat) : bool :=
  match h !! p with Some c => negb (timeUsed c =? timestampExpired) | None => false end.

Definition idle (σ : Pool) : list nat := items (clean σ) ++ concat (items <$> states σ).

Definition live_idle (σ : Pool) : Z := len (filter (livep (heap σ)) (idle σ)).

Inductive place := PIdle | PMail (w : nat) | POwned (i : nat).

Inductive wstatus := SIdle | SQueued | SClaimed (i : nat) | SMailed.

Definition sumZ (l : list Z) : Z := foldr Z.add 0 l.

(** The durations with which the workers and [extendedMaxLifetime] do not panic. *)
Definition lifetime_ok (d : Z) : Prop := d = 0 \/ d mod 2 ^ 32 <> 0.
Definition idle_timeout_ok (d : Z) : Prop := d = 0 \/ 10 <= d.

Section Logic.
Context (M : Z) (HM : 0 <= M <= int64_max).

Record cnt_inv (n : counter -> Z) (nidle nmail : Z) (cs : list (Z * Z * (Z * Z))) : Prop := {
  cnt_active : n active = sumZ (cs.*1.*1) + nidle + nmail;
  cnt_borrowed : n borrowed = sumZ (cs.*1.*2);
  cnt_requested : n requested = wrap64 (sumZ (cs.*2.*1)) /\ n lent = wrap64 (sumZ (cs.*2.*2));
  cnt_share : forall x, x ∈ cs -> 0 <= x.1.2 <= x.1.1;
  cnt_capacity : 0 <= n capacity <= M;
  cnt_bound : n active <= M;
  cnt_nonneg : 0 <= nidle /\ 0 <= nmail;
  cnt_life : lifetime_ok (n maxLifetime) /\ idle_timeout_ok (n idleTimeout) }.

Record place_inv (h : list Pooled) (cl idle : list nat) (inbox : gmap nat nat)
    (owns : list (gmap nat Pooled)) (wh : nat -> place) : Prop := {
  pl_nodup : NoDup idle;
  pl_idle : forall p, p ∈ idle -> wh p = PIdle /\ exists c, h !! p = Some c /\ idle_ok c;
  pl_clean : forall p c, p ∈ cl -> h !! p = Some c -> clean_ok c;
  pl_mail : forall w p, inbox !! w = Some p ->
    wh p = PMail w /\ exists c, h !! p = Some c /\ returnable c;
  pl_own : forall i o p c, owns !! i = Some o -> o !! p = Some c -> wh p = POwned i /\ h !! p = Some c }.

Definition lock_inv (stk : stack_id -> option connStack) (h : list Pooled)
    (ls : list (option (stack_id * list nat * option nat))) : Prop :=
  forall i s l e, ls !! i = Some (Some (s, l, e)) ->
    stk s = Some (mkStack (Some i) l) /\
    forall p, e = Some p -> p ∈ l /\ exists c, h !! p = Some c /\ timeUsed c = timestampExpired.

Record wait_inv (wl : list waiter) (inbox : gmap nat nat) (ws : list (bool * option nat))
    (st : nat -> wstatus) : Prop := {
  wt_nodup : NoDup (w_elem <$> wl);
  wt_queued : forall w, w ∈ w_elem <$> wl <-> st w = SQueued;
  wt_claimed : forall i w, st w = SClaimed i <-> exists b, ws !! i = Some (b, Some w);
  wt_mailed : forall w, is_Some (inbox !! w) <-> st w = SMailed;
  wt_waits : forall w, st w <> SIdle <-> exists s, ws !! w = Some (true, s) }.

Record close_inv (m cl : option nat) (chs : list bool) (ms : list (bool * option (nat * bool))) : Prop := {
  cl_mu : forall i c, ms !! i = Some (true, c) -> m = Some i;
  cl_chan : forall i b ch x, ms !! i = Some (b, Some (ch, x)) ->
    b = true /\ cl = Some ch /\ chs !! ch = Some x;
  cl_valid : forall ch, cl = Some ch -> (ch < length chs)%nat;
  cl_closed : forall ch, cl = Some ch -> chs !! ch = Some true ->
    exists i, ms !! i = Some (true, Some (ch, true)) }.

Record client_inv (hd : gmap nat nat) (sv : list service) (pub : bool) (sc : option bool)
    (hs : list (option nat * bool)) (owns : list (gmap nat Pooled)) : Prop := {
  ct_held : forall i, hd !! i = (hs !! i) ≫= fst;
  ct_own : forall i p b, hs !! i = Some (Some p, b) -> exists o, owns !! i = Some o /\ is_Some (o !! p);
  ct_pub : forall i x, hs !! i = Some (x, true) -> sc <> None;
  ct_cancel : pub = true -> sc <> None;
  ct_served : Forall service_ok sv }.

(** Only the first goroutine opens the pool, once. *)
Definition open_ok (cl : option nat) (os : list bool) : Prop :=
  forall i, os !! i = Some true -> i = O /\ cl = None.

Record InvG (σ : Pool) (rs : list share) (wh : nat -> place) (st : nat -> wstatus) : Prop := {
  inv_cnt : cnt_inv (ints σ) (live_idle σ) (Z.of_nat (size (inbox σ))) (counts <$> rs);
  inv_place : place_inv (heap σ) (items (clean σ)) (idle σ) (inbox σ) (r_own <$> rs) wh;
  inv_lock : lock_inv (get_stack σ) (heap σ) (locks <$> rs);
  inv_wait : wait_inv (wait σ) (inbox σ) (waits <$> rs) st;
  inv_close : close_inv (capacityMu σ) (close_ σ) (chans σ) (mus <$> rs);
  inv_client : client_inv (held σ) (served σ) (published σ) (scrubCancel σ) (helds <$> rs) (r_own <$> rs);
  inv_shape : length (states σ) = 8%nat /\ open_ok (close_ σ) (opens <$> rs) }.

Definition Inv (σ : Pool) (rs : list share) : Prop := exists wh st, InvG σ rs wh st.

(** ** Programs *)

(** The environment: a clock within its range, and dialed connections that are
    open and start without settings. *)
Record answer_ok (ans : answer) : Prop := {
  ans_clock : timestampBusy < a_now ans < timestampExpired;
  ans_dial : a_err ans = None ->
    conn_IsClosed (a_conn ans) = false /\ has_settings (conn_Settings (a_conn ans)) = false }.

Definition awp {B : Set} (f : action B) (r : share) (Q : B -> share -> Prop) : Prop :=
  forall i ans σ rs, answer_ok ans -> Inv σ rs -> rs !! i = Some r ->
    match f i ans σ with
    | Blocked => True
    | Panic _ => False
    | Next σ' b => exists r', Inv σ' (<[i := r']> rs) /\ Q b r'
    end.

(** Nothing of the pool in hand. *)
Definition at_rest (r : share) : Prop :=
  counts r = (0, 0, (0, 0)) /\ locks r = None /\ waits r = (false, None) /\ mus r = (false, None) /\
  c_held (r_ctl r) = None.

Definition task_ok (t : task) : Prop :=
  match t with Worker _ _ interval => 0 < interval | Reopen => True end.

Fixpoint wp {A : Set} (p : prog A) (r : share) (Q : A -> share -> Prop) {struct p} : Prop :=
  match p with
  | Ret a => Q a r
  | Act f k => awp f r (fun b r' => wp (k b) r' Q)
  | Tick ch k =>
      at_rest r /\
      forall o, (forall t, o = Some t -> timestampBusy < t < timestampExpired) -> wp (k o) r Q
  | Go t k => task_ok t /\ wp k r Q
  | @Iter _ X Y body s k =>
      exists I : X -> share -> Prop, I s r /\
        forall s r, I s r ->
          wp (body s) r (fun x r' => match x with inl s' => I s' r' | inr t => wp (k t) r' Q end)
  end.

Lemma awp_mono {B : Set} (f : action B) r (Q Q' : B -> share -> Prop) :
  (forall b r', Q b r' -> Q' b r') -> awp f r Q -> awp f r Q'.
Proof.
  intros HQ Hf i ans σ rs Ha Hi Hr. specialize (Hf i ans σ rs Ha Hi Hr).
  destruct (f i ans σ); [done|done|]. destruct Hf as (r' & ? & ?). eauto.
Qed.

Lemma wp_mono {A : Set} (p : prog A) r (Q Q' : A -> share -> Prop) :
  (forall a r', Q a r' -> Q' a r') -> wp p r Q -> wp p r Q'.
Proof.
  revert r Q Q'. induction p as [A a|A B f k IH|A ch k IH|A t k IH|A S T body IHb s k IHk]; intros r Q Q' HQ; cbn.
  - apply HQ.
  - apply awp_mono. intros b r'. by apply IH.
  - intros [Hr Hk]. split; [done|]. intros o Ho. eapply IH, Hk, Ho. done.
  - intros [Ht Hk]. split; [done|]. by eapply IH.
  - intros (I & HI & Hb). exists I. split; [done|]. intros s' r' Hs. eapply IHb, Hb, Hs.
    intros [s''|t] r''; [done|]. by apply IHk.
Qed.

Lemma wp_bind {A B : Set} (p : prog A) (f : A -> prog B) r (Q : B -> share -> Prop) :
  wp p r (fun a r' => wp (f a) r' Q) -> wp (bind p f) r Q.
Proof.
  revert r. induction p as [A a|A X g k IH|A ch k IH|A t k IH|A S T body IHb s k IHk]; intros r; cbn.
  - done.
  - apply awp_mono. intros b r'. apply IH.
  - intros [Hr Hk]. split; [done|]. intros o Ho. by apply IH, Hk.
  - intros [Ht Hk]. split; [done|]. by apply IH.
  - intros (I & HI & Hb). exists I. split; [done|]. intros s' r' Hs.
    eapply wp_mono, Hb, Hs. intros [s''|t] r''; [done|]. apply IHk.
Qed.

Lemma wp_act {B : Set} (f : action B) r (Q : B -> share -> Prop) : awp f r Q -> wp (act f) r Q.
Proof. done. Qed.

(** A loop, with its invariant. *)
Lemma wp_loop {S T : Set} (I : S -> share -> Prop) (s : S) (body : S -> prog (S + T)) r (Q : T -> share -> Prop) :
  I s r ->
  (forall s r, I s r -> wp (body s) r (fun x r' => match x with inl s' => I s' r' | inr t => Q t r' end)) ->
  wp (loop s body) r Q.
Proof. intros HI Hb. by exists I. Qed.
End Logic.
