(* ===== verification/ConnRules.v ===== *)
(** The rules of the pool's program logic: one per atomic action. *)

From stdpp Require Import functions base gmap numbers list strings.
From S2P Require Import Prelude ConnPool ConnScrub ConnLogic.

Local Open Scope Z_scope.

(** ** Lists of shares *)

Lemma share_fmap {B} (f : share -> B) (rs : list share) (i : nat) r r' :
  rs !! i = Some r -> f r' = f r -> f <$> <[i := r']> rs = f <$> rs.
Proof.
  intros Hi Hf. rewrite list_fmap_insert. apply list_insert_id. rewrite list_lookup_fmap, Hi. cbn. by rewrite Hf.
Qed.

Lemma share_lookup {B} (f : share -> B) (rs : list share) (i : nat) r : rs !! i = Some r -> (f <$> rs) !! i = Some (f r).
Proof. intros Hi. by rewrite list_lookup_fmap, Hi. Qed.

Lemma sumZ_cons x l : sumZ (x :: l) = x + sumZ l.
Proof. done. Qed.

Lemma sumZ_insert (l : list Z) (i : nat) x y : l !! i = Some x -> sumZ (<[i := y]> l) = sumZ l + (y - x).
Proof.
  revert i. induction l as [|z l IH]; intros [|i]; try done; cbn [lookup list_lookup].
  - intros [= ->]. change (sumZ (y :: l) = sumZ (x :: l) + (y - x)). rewrite !sumZ_cons. lia.
  - intros Hi. change (sumZ (z :: <[i := y]> l) = sumZ (z :: l) + (y - x)).
    rewrite !sumZ_cons, (IH i Hi). lia.
Qed.

Lemma sumZ_le {A} (f g : A -> Z) (l : list A) : (forall x, x ∈ l -> f x <= g x) -> sumZ (f <$> l) <= sumZ (g <$> l).
Proof.
  induction l as [|x l IH]; intros Hl; [done|]. rewrite !fmap_cons, !sumZ_cons.
  pose proof (Hl x ltac:(left)). cut (sumZ (f <$> l) <= sumZ (g <$> l)); [lia|].
  apply IH. intros y Hy. apply Hl. by right.
Qed.

Lemma sumZ_nonneg (l : list Z) : (forall x, x ∈ l -> 0 <= x) -> 0 <= sumZ l.
Proof.
  intros Hl. pose proof (sumZ_le (fun _ => 0) (fun x => x) l Hl) as H. rewrite list_fmap_id in H.
  transitivity (sumZ ((fun _ => 0) <$> l)); [|done]. clear. induction l; [done|]. by rewrite fmap_cons, sumZ_cons.
Qed.

Lemma insert_elem {A} (l : list A) (i : nat) x y : y ∈ <[i := x]> l -> y = x \/ y ∈ l.
Proof.
  intros [j Hj]%list_elem_of_lookup. apply list_lookup_insert_Some in Hj as [(_ & -> & _)|[_ Hj]]; [by left|].
  right. by eapply list_elem_of_lookup_2.
Qed.

(** ** Stacks *)

Lemma get_set_stack σ s s' x : is_Some (get_stack σ s) ->
  get_stack (set_stack σ s x) s' = if decide (s' = s) then Some x else get_stack σ s'.
Proof.
  intros [y Hy]. destruct s as [|k], s' as [|k']; cbn in *; try (by destruct (decide _)).
  destruct (decide (States k' = States k)) as [[= ->]|Hne].
  - apply list_lookup_insert_eq. by eapply lookup_lt_Some.
  - apply list_lookup_insert_ne. by intros ->.
Qed.

(** The other stacks, whatever this one holds. *)
Lemma idle_split σ s x : get_stack σ s = Some x ->
  exists rest, idle σ ≡ₚ items x ++ rest /\ forall y, idle (set_stack σ s y) ≡ₚ items y ++ rest.
Proof.
  unfold idle. destruct s as [|k]; cbn.
  - intros [= ->]. exists (concat (items <$> states σ)). by split.
  - intros Hk. exists (items (clean σ) ++ concat (items <$> delete k (states σ))).
    assert (Hp : forall y, concat (items <$> <[k := y]> (states σ)) ≡ₚ
              items y ++ concat (items <$> delete k (states σ))).
    { intros y. pose proof (lookup_lt_Some _ _ _ Hk) as Hlt.
      assert (Hd : <[k := y]> (states σ) ≡ₚ y :: delete k (states σ)).
      { rewrite (delete_Permutation (<[k := y]> (states σ)) k y) by (by apply list_lookup_insert_eq).
        f_equiv. rewrite !delete_take_drop, take_insert_ge, drop_insert_lt by lia. done. }
      by rewrite Hd. }
    assert (Hc : forall y, items (clean σ) ++ items y ++ concat (items <$> delete k (states σ)) ≡ₚ
              items y ++ items (clean σ) ++ concat (items <$> delete k (states σ))).
    { intros y. rewrite !app_assoc. f_equiv. apply Permutation_app_comm. }
    split; [rewrite <- (list_insert_id _ _ _ Hk) at 1|intros y]; by rewrite Hp, Hc.
Qed.

Lemma stack_idle σ s x p : get_stack σ s = Some x -> p ∈ items x -> p ∈ idle σ.
Proof. intros Hx Hp. destruct (idle_split σ s x Hx) as (rest & -> & _). apply elem_of_app. by left. Qed.

Lemma stack_exists σ s : length (states σ) = 8%nat -> (forall k, s = States k -> (k < 8)%nat) -> is_Some (get_stack σ s).
Proof. intros Hl Hs. destruct s as [|k]; cbn; [by eexists|]. apply lookup_lt_is_Some. rewrite Hl. by apply Hs. Qed.

(** *** Counting live connections *)

Definition nlive (h : list Pooled) (l : list nat) : Z := len (filter (livep h) l).

Lemma nlive_nonneg h l : 0 <= nlive h l.
Proof. unfold nlive, len. lia. Qed.

#[export] Instance nlive_perm h : Proper (Permutation ==> eq) (nlive h).
Proof. intros l l' Hl. unfold nlive, len. by rewrite Hl. Qed.

Lemma nlive_cons h p l : nlive h (p :: l) = (if livep h p then 1 else 0) + nlive h l.
Proof.
  unfold nlive, len. destruct (livep h p) eqn:E.
  - rewrite filter_cons_True by (by rewrite E). cbn [length]. lia.
  - rewrite filter_cons_False by (rewrite E; intros []). lia.
Qed.

Lemma nlive_ext h h' l : (forall p, p ∈ l -> livep h' p = livep h p) -> nlive h' l = nlive h l.
Proof.
  induction l as [|p l IH]; intros Hl; [done|]. rewrite !nlive_cons, Hl by left.
  rewrite IH; [done|]. intros q Hq. apply Hl. by right.
Qed.

Lemma livep_insert h p q c : p <> q -> livep (<[p := c]> h) q = livep h q.
Proof. intros Hne. unfold livep. by rewrite list_lookup_insert_ne. Qed.

Lemma livep_true h p c : h !! p = Some c -> timeUsed c <> timestampExpired -> livep h p = true.
Proof. intros Hp Hc. unfold livep. rewrite Hp. by rewrite (proj2 (Z.eqb_neq _ _) Hc). Qed.

Lemma livep_false h p c : h !! p = Some c -> timeUsed c = timestampExpired -> livep h p = false.
Proof. intros Hp Hc. unfold livep. rewrite Hp. by rewrite (proj2 (Z.eqb_eq _ _) Hc). Qed.

(** ** Counters *)

Section Counters.
Context (M : Z) (HM : 0 <= M <= int64_max).
Notation cnt_inv := (cnt_inv M).

(** The counters the invariant does not mention. *)
Definition neutral (c : counter) : bool :=
  match c with active | borrowed | requested | lent | capacity | maxLifetime | idleTimeout => false | _ => true end.

Definition set_n (n : counter -> Z) (c : counter) (v : Z) : counter -> Z :=
  fun c' => if decide (c' = c) then v else n c'.

Lemma cnt_neutral n a b cs c v : neutral c = true -> cnt_inv n a b cs -> cnt_inv (set_n n c v) a b cs.
Proof. intros Hc [? ? ? ? ? ? ? ?]. by destruct c; try discriminate Hc; split. Qed.

Lemma cnt_set_capacity n a b cs v : 0 <= v <= M -> cnt_inv n a b cs -> cnt_inv (set_n n capacity v) a b cs.
Proof. intros Hv [? ? ? ? ? ? ? ?]. by split. Qed.

Lemma cnt_set_idleTimeout n a b cs v : idle_timeout_ok v -> cnt_inv n a b cs -> cnt_inv (set_n n idleTimeout v) a b cs.
Proof. intros Hv [? ? ? ? ? ? ? [? ?]]. by split. Qed.

(** The counts of one goroutine, and those of the others. *)
Lemma cnt_others n a b cs i x : cnt_inv n a b cs -> cs !! i = Some x ->
  0 <= x.1.2 <= x.1.1 /\ 0 <= n borrowed - x.1.2 <= n active - x.1.1 /\ n active <= M.
Proof.
  intros [Ha Hb _ Hs _ Hm Hn _] Hi. split; [by apply Hs, (list_elem_of_lookup_2 _ i)|]. split; [|done].
  rewrite Ha, Hb. set (cs' := <[i := (0, 0, (0, 0))]> cs).
  assert (Hs' : forall y, y ∈ cs' -> 0 <= y.1.2 <= y.1.1).
  { intros y [->|Hy]%insert_elem; [done|by apply Hs]. }
  assert (E1 : sumZ (cs'.*1.*1) = sumZ (cs.*1.*1) + (0 - x.1.1)).
  { unfold cs'. rewrite !list_fmap_insert. apply sumZ_insert. by rewrite !list_lookup_fmap, Hi. }
  assert (E2 : sumZ (cs'.*1.*2) = sumZ (cs.*1.*2) + (0 - x.1.2)).
  { unfold cs'. rewrite !list_fmap_insert. apply sumZ_insert. by rewrite !list_lookup_fmap, Hi. }
  assert (H1 : 0 <= sumZ (cs'.*1.*2)).
  { apply sumZ_nonneg. intros y (z & -> & (u & -> & Hu)%list_elem_of_fmap)%list_elem_of_fmap. apply (Hs' u Hu). }
  assert (H2 : sumZ (cs'.*1.*2) <= sumZ (cs'.*1.*1)).
  { rewrite <- !list_fmap_compose. apply sumZ_le. intros u Hu. cbn. apply (Hs' u Hu). }
  lia.
Qed.

Lemma wrap64_add_l a d : wrap64 (wrap64 a + d) = wrap64 (a + d).
Proof.
  unfold wrap64. match goal with |- (?a mod _ - ?k + ?d + ?k) mod _ - _ = _ =>
    replace (a mod 2 ^ 64 - k + d + k) with (a mod 2 ^ 64 + d) by lia end.
  rewrite Zplus_mod_idemp_l. do 2 f_equal. lia.
Qed.

(** Moving one goroutine's counts, with the counters and the idle and mailed
    connections that go with it. *)
Lemma cnt_move n n' a a' b b' cs i x y :
  cnt_inv n a b cs -> cs !! i = Some x ->
  n' active = n active + (y.1.1 - x.1.1) + (a' - a) + (b' - b) ->
  n' borrowed = n borrowed + (y.1.2 - x.1.2) ->
  n' requested = wrap64 (n requested + (y.2.1 - x.2.1)) -> n' lent = wrap64 (n lent + (y.2.2 - x.2.2)) ->
  n' capacity = n capacity -> n' maxLifetime = n maxLifetime -> n' idleTimeout = n idleTimeout ->
  0 <= y.1.2 <= y.1.1 -> 0 <= a' -> 0 <= b' -> n' active <= M ->
  cnt_inv n' a' b' (<[i := y]> cs).
Proof.
  intros [Ha Hb [Hr Ht] Hs Hc Hm Hn Hl] Hi Ea Eb Er Elt Ec El Et Hy Ha' Hb' HM'.
  split; rewrite ?Ec, ?El, ?Et; try done.
  - rewrite !list_fmap_insert, (sumZ_insert _ i x.1.1) by (by rewrite !list_lookup_fmap, Hi). lia.
  - rewrite !list_fmap_insert, (sumZ_insert _ i x.1.2) by (by rewrite !list_lookup_fmap, Hi). lia.
  - split; rewrite !list_fmap_insert.
    + rewrite (sumZ_insert _ i x.2.1) by (by rewrite !list_lookup_fmap, Hi). rewrite Er, Hr. apply wrap64_add_l.
    + rewrite (sumZ_insert _ i x.2.2) by (by rewrite !list_lookup_fmap, Hi). rewrite Elt, Ht. apply wrap64_add_l.
  - intros z [->|Hz]%insert_elem; [done|by apply Hs].
Qed.
End Counters.

Section Rules.
Context (M : Z) (HM : 0 <= M <= int64_max).
Notation Inv := (Inv M).
Notation awp := (awp M).

(** Keeps the parts of the invariant an update does not touch. *)
Ltac frame Hi := rewrite ?(share_fmap _ _ _ _ _ Hi) by reflexivity; try done.

Lemma awp_pure {B : Set} (f : answer -> Pool -> B) r Q :
  (forall i ans σ rs, answer_ok ans -> Inv σ rs -> rs !! i = Some r -> Q (f ans σ) r) ->
  awp (pure f) r Q.
Proof.
  intros HQ i ans σ rs Ha HI Hi. exists r. rewrite list_insert_id by done. split; [done|by eapply HQ].
Qed.

(** *** Integers *)

Lemma Inv_ints σ rs i r n' x :
  Inv σ rs -> rs !! i = Some r ->
  (cnt_inv M (ints σ) (live_idle σ) (Z.of_nat (size (inbox σ))) (counts <$> rs) ->
   cnt_inv M n' (live_idle σ) (Z.of_nat (size (inbox σ))) (<[i := x]> (counts <$> rs))) ->
  Inv (set_ints σ n') (<[i := mkShare x.1.1 x.1.2 x.2.1 x.2.2 (r_own r) (r_ctl r)]> rs).
Proof.
  intros (wh & st & [Hc Hp Hl Hw Hcl Hct Hs]) Hi HQ. exists wh, st. destruct x as [[x1 x2] [x3 x4]].
  split; frame Hi. rewrite list_fmap_insert. by apply HQ.
Qed.

Lemma share_eta r : mkShare (r_slots r) (r_borrowed r) (r_requested r) (r_lent r) (r_own r) (r_ctl r) = r.
Proof. by destruct r. Qed.

(** An update of the counters that leaves the goroutine's counts. *)
Lemma Inv_ints_same σ rs i r n' :
  Inv σ rs -> rs !! i = Some r ->
  (cnt_inv M (ints σ) (live_idle σ) (Z.of_nat (size (inbox σ))) (counts <$> rs) ->
   cnt_inv M n' (live_idle σ) (Z.of_nat (size (inbox σ))) (counts <$> rs)) ->
  Inv (set_ints σ n') (<[i := r]> rs).
Proof.
  intros HI Hi HQ. pose proof (Inv_ints σ rs i r n' (counts r) HI Hi) as H. cbn in H.
  rewrite share_eta in H. apply H. rewrite (list_insert_id (counts <$> rs)) by (by apply share_lookup). done.
Qed.

Lemma awp_load c r Q : (forall v, Q v r) -> awp (Load c) r Q.
Proof. intros HQ. apply awp_pure. eauto. Qed.

Lemma awp_load_capacity r (Q : Z -> share -> Prop) : (forall v, 0 <= v <= M -> Q v r) -> awp (Load capacity) r Q.
Proof. intros HQ. apply awp_pure. intros i ans σ rs _ (wh & st & [[]]) _. by apply HQ. Qed.

Lemma awp_load_life r (Q : Z -> share -> Prop) :
  (forall v, lifetime_ok v -> Q v r) -> awp (Load maxLifetime) r Q.
Proof. intros HQ. apply awp_pure. intros i ans σ rs _ (wh & st & [[? ? ? ? ? ? ? []]]) _. by apply HQ. Qed.

Lemma awp_load_idleTimeout r (Q : Z -> share -> Prop) :
  (forall v, idle_timeout_ok v -> Q v r) -> awp (Load idleTimeout) r Q.
Proof. intros HQ. apply awp_pure. intros i ans σ rs _ (wh & st & [[? ? ? ? ? ? ? []]]) _. by apply HQ. Qed.

Lemma awp_store c v r (Q : unit -> share -> Prop) : neutral c = true -> Q tt r -> awp (Store c v) r Q.
Proof.
  intros Hc HQ i ans σ rs _ HI Hi. exists r. split; [|done].
  apply Inv_ints_same; [done..|]. by apply cnt_neutral.
Qed.

Lemma awp_add_neutral c n r Q : neutral c = true -> (forall v, Q v r) -> awp (Add c n) r Q.
Proof.
  intros Hc HQ i ans σ rs _ HI Hi. exists r. split; [|done].
  apply Inv_ints_same; [done..|]. by apply cnt_neutral.
Qed.

Lemma awp_swap_neutral c v r Q : neutral c = true -> (forall v, Q v r) -> awp (Swap c v) r Q.
Proof.
  intros Hc HQ i ans σ rs _ HI Hi. exists r. split; [|done].
  apply Inv_ints_same; [done..|]. by apply cnt_neutral.
Qed.

Lemma awp_cas_neutral c v v' r Q : neutral c = true -> (forall b, Q b r) -> awp (CompareAndSwap c v v') r Q.
Proof.
  intros Hc HQ i ans σ rs _ HI Hi. unfold CompareAndSwap. destruct (ints σ c =? v); exists r.
  - split; [|done]. apply Inv_ints_same; [done..|]. by apply cnt_neutral.
  - by rewrite list_insert_id.
Qed.

Lemma awp_store_capacity v r (Q : unit -> share -> Prop) : 0 <= v <= M -> Q tt r -> awp (Store capacity v) r Q.
Proof.
  intros Hv HQ i ans σ rs _ HI Hi. exists r. split; [|done].
  apply Inv_ints_same; [done..|]. by apply cnt_set_capacity.
Qed.

Lemma awp_store_idleTimeout v r (Q : unit -> share -> Prop) :
  idle_timeout_ok v -> Q tt r -> awp (Store idleTimeout v) r Q.
Proof.
  intros Hv HQ i ans σ rs _ HI Hi. exists r. split; [|done].
  apply Inv_ints_same; [done..|]. by apply cnt_set_idleTimeout.
Qed.

Lemma awp_swap_capacity v r (Q : Z -> share -> Prop) :
  0 <= v <= M -> (forall old, 0 <= old <= M -> Q old r) -> awp (Swap capacity v) r Q.
Proof.
  intros Hv HQ i ans σ rs _ HI Hi. exists r. split.
  - apply Inv_ints_same; [done..|]. by apply cnt_set_capacity.
  - apply HQ. by destruct HI as (wh & st & [[]]).
Qed.

(** What a goroutine knows of the counters from its own share. *)
Lemma Inv_slots σ rs i r : Inv σ rs -> rs !! i = Some r ->
  0 <= r_borrowed r <= r_slots r /\
  0 <= ints σ borrowed - r_borrowed r <= ints σ active - r_slots r /\ ints σ active <= M.
Proof.
  intros (wh & st & [Hc _ _ _ _ _ _]) Hi.
  apply (cnt_others M _ _ _ _ i (counts r) Hc (share_lookup counts _ _ _ Hi)).
Qed.

Lemma wrap64_small z : 0 <= z <= M -> wrap64 z = z.
Proof. intros Hz. apply wrap64_id. unfold in_int64, int64_min, int64_max in *. lia. Qed.

Lemma wrap64_requested n a b cs : cnt_inv M n a b cs ->
  n requested = wrap64 (n requested + 0) /\ n lent = wrap64 (n lent + 0).
Proof.
  intros [_ _ [Hr Hl] _ _ _ _ _]. rewrite !Z.add_0_r, Hr, Hl. split; symmetry; apply wrap64_id, wrap64_range.
Qed.

(** The counters after a goroutine moved its own counts by [x]. *)
Ltac counters HI Hi :=
  let Hc := fresh "Hc" in let Hw := fresh "Hw" in
  pose proof (Inv_slots _ _ _ _ HI Hi) as (H1 & H2 & H3);
  intros Hc; pose proof (wrap64_requested _ _ _ _ Hc) as [Hw Hw']; pose proof (cnt_nonneg _ _ _ _ _ Hc);
  eapply (cnt_move M); [exact Hc|by apply share_lookup|..];
  cbn [fst snd counts];
  rewrite ?(decide_True (P := _ = _)) by reflexivity; rewrite ?(decide_False (P := _ = _)) by discriminate;
  rewrite ?Z.sub_diag; try done; try lia; try (rewrite wrap64_small by lia; lia).

Lemma awp_add_borrowed n r (Q : Z -> share -> Prop) :
  0 <= r_borrowed r + n <= r_slots r ->
  (forall v, Q v (add_borrowed n r)) -> awp (Add borrowed n) r Q.
Proof.
  intros Hn HQ i ans σ rs _ HI Hi. exists (add_borrowed n r). split; [|apply HQ].
  apply (Inv_ints σ rs i r _ (r_slots r, r_borrowed r + n, (r_requested r, r_lent r))); [done..|].
  counters HI Hi.
Qed.

Lemma awp_add_requested n r (Q : Z -> share -> Prop) :
  (forall v, Q v (add_requested n r)) -> awp (Add requested n) r Q.
Proof.
  intros HQ i ans σ rs _ HI Hi. exists (add_requested n r). split; [|apply HQ].
  apply (Inv_ints σ rs i r _ (r_slots r, r_borrowed r, (r_requested r + n, r_lent r))); [done..|].
  counters HI Hi. f_equal. lia.
Qed.

Lemma awp_add_lent n r (Q : Z -> share -> Prop) :
  (forall v, Q v (add_lent n r)) -> awp (Add lent n) r Q.
Proof.
  intros HQ i ans σ rs _ HI Hi. exists (add_lent n r). split; [|apply HQ].
  apply (Inv_ints σ rs i r _ (r_slots r, r_borrowed r, (r_requested r, r_lent r + n))); [done..|].
  counters HI Hi. f_equal. lia.
Qed.

Lemma awp_closed r (Q : Z -> share -> Prop) :
  r_borrowed r < r_slots r -> (forall v, Q v (add_slots (-1) r)) -> awp (Add active (-1)) r Q.
Proof.
  intros Hn HQ i ans σ rs _ HI Hi. exists (add_slots (-1) r). split; [|apply HQ].
  apply (Inv_ints σ rs i r _ (r_slots r - 1, r_borrowed r, (r_requested r, r_lent r))); [done..|].
  counters HI Hi.
Qed.

Lemma awp_cas_open v r (Q : bool -> share -> Prop) :
  v < M -> Q false r -> Q true (add_slots 1 r) -> awp (CompareAndSwap active v (v + 1)) r Q.
Proof.
  intros Hv HQ HQ' i ans σ rs _ HI Hi. unfold CompareAndSwap. destruct (Z.eqb_spec (ints σ active) v) as [E|E].
  - exists (add_slots 1 r). split; [|done].
    apply (Inv_ints σ rs i r _ (r_slots r + 1, r_borrowed r, (r_requested r, r_lent r))); [done..|].
    counters HI Hi.
  - exists r. by rewrite list_insert_id.
Qed.

Lemma awp_cas_close v r (Q : bool -> share -> Prop) :
  r_borrowed r < r_slots r -> Q false r -> Q true (add_slots (-1) r) -> awp (CompareAndSwap active v (v - 1)) r Q.
Proof.
  intros Hv HQ HQ' i ans σ rs _ HI Hi. unfold CompareAndSwap. destruct (Z.eqb_spec (ints σ active) v) as [E|E].
  - exists (add_slots (-1) r). split; [|done].
    apply (Inv_ints σ rs i r _ (r_slots r - 1, r_borrowed r, (r_requested r, r_lent r))); [done..|].
    counters HI Hi.
  - exists r. by rewrite list_insert_id.
Qed.

(** *** Connections in hand *)

Lemma clean_idle σ p : p ∈ items (clean σ) -> p ∈ idle σ.
Proof. intros Hp. apply elem_of_app. by left. Qed.

Lemma own_not_idle σ rs wh st i r p c : InvG M σ rs wh st -> rs !! i = Some r -> r_own r !! p = Some c ->
  p ∉ idle σ /\ heap σ !! p = Some c /\ wh p = POwned i.
Proof.
  intros HI Hi Hp. pose proof (inv_place _ _ _ _ _ HI) as [_ Hid _ _ Ho].
  destruct (Ho i (r_own r) p c (share_lookup r_own _ _ _ Hi) Hp) as [Hw Hh].
  split_and!; [|done|done]. intros Hin. destruct (Hid p Hin) as [Hw' _]. congruence.
Qed.

Lemma lock_idle σ rs wh st i s l e p : InvG M σ rs wh st -> (locks <$> rs) !! i = Some (Some (s, l, e)) -> p ∈ l -> p ∈ idle σ.
Proof. intros HI Hl Hp. destruct (inv_lock _ _ _ _ _ HI i s l e Hl) as [Hs _]. by eapply stack_idle. Qed.

(** The client part when a goroutine's connections change but for the one its
    client holds. *)
Lemma client_owns hd sv pub sc hs owns i o o' :
  client_inv hd sv pub sc hs owns -> owns !! i = Some o ->
  (forall p b, hs !! i = Some (Some p, b) -> is_Some (o !! p) -> is_Some (o' !! p)) ->
  client_inv hd sv pub sc hs (<[i := o']> owns).
Proof.
  intros [H1 H2 H3 H4 H5] Hi Ho. split; [done| |done..]. intros j p b Hj.
  destruct (H2 j p b Hj) as (x & Hx & Hp). destruct (decide (i = j)) as [<-|Hne].
  - exists o'. rewrite list_lookup_insert_eq by (by eapply lookup_lt_Some). simplify_eq. eauto.
  - exists x. by rewrite list_lookup_insert_ne.
Qed.

Lemma helds_lookup (rs : list share) (i : nat) r p b : rs !! i = Some r -> (helds <$> rs) !! i = Some (Some p, b) ->
  c_held (r_ctl r) = Some p.
Proof. intros Hi Hh. rewrite list_lookup_fmap, Hi in Hh. by injection Hh. Qed.

Lemma Inv_heap_own σ rs i r p c c' :
  Inv σ rs -> rs !! i = Some r -> r_own r !! p = Some c ->
  Inv (set_heap σ (<[p := c']> (heap σ))) (<[i := set_own (<[p := c']> (r_own r)) r]> rs).
Proof.
  intros (wh & st & HI) Hi Hp. pose proof (own_not_idle _ _ _ _ _ _ _ _ HI Hi Hp) as (Hni & Hh & Hwp).
  pose proof (lookup_lt_Some _ _ _ Hh) as Hlt. pose proof (lock_idle σ rs wh st) as Hli.
  exists wh, st. pose proof HI as [Hc [P1 P2 P3 P4 P5] Hl Hw Hcl Hct Hs].
  assert (Hne : forall q, q ∈ idle σ -> p <> q) by (by intros q Hq ->).
  split; frame Hi.
  - unfold live_idle. cbn. change (idle (set_heap σ (<[p:=c']> (heap σ)))) with (idle σ).
    fold (nlive (<[p := c']> (heap σ)) (idle σ)). rewrite (nlive_ext (heap σ)); [done|].
    intros q Hq. apply livep_insert. by apply Hne.
  - cbn. rewrite list_fmap_insert. split; [done| | | |].
    + intros q Hq. rewrite list_lookup_insert_ne by (by apply Hne). by apply P2.
    + intros q x Hq. rewrite list_lookup_insert_ne by (by apply Hne, clean_idle). by apply P3.
    + intros w q Hq. destruct (P4 w q Hq) as [Hwq Hx].
      rewrite list_lookup_insert_ne by (intros ->; congruence). done.
    + intros j o q x Hj Hq. apply list_lookup_insert_Some in Hj as [(<- & <- & _)|[Hne' Hj]].
      * cbn in Hq. destruct (decide (q = p)) as [->|Hqp].
        -- rewrite lookup_insert_eq in Hq. simplify_eq. by rewrite list_lookup_insert_eq.
        -- rewrite lookup_insert_ne in Hq by done. rewrite list_lookup_insert_ne by done.
           by apply (P5 i (r_own r)); [apply share_lookup|].
      * destruct (P5 j o q x Hj Hq) as [Hwq Hx]. rewrite list_lookup_insert_ne; [done|]. intros ->. congruence.
  - intros j s l e Hj. destruct (Hl j s l e Hj) as [Hs1 He]. split; [done|]. intros q ->.
    destruct (He q eq_refl) as [Hq (x & Hx & Hex)]. split; [done|]. exists x.
    cbn. rewrite list_lookup_insert_ne; [done|]. eapply Hne, Hli; [done|exact Hj|done].
  - cbn. rewrite list_fmap_insert. eapply client_owns; [done|by apply share_lookup|].
    intros q b _ Hq. cbn. apply lookup_insert_is_Some'. by right.
Qed.

Lemma awp_deref p c r (Q : Pooled -> share -> Prop) : r_own r !! p = Some c -> Q c r -> awp (deref p) r Q.
Proof.
  intros Hp HQ i ans σ rs _ HI Hi. pose proof HI as (wh & st & HG).
  destruct (own_not_idle _ _ _ _ _ _ _ _ HG Hi Hp) as (_ & Hh & _). unfold deref. rewrite Hh.
  exists r. by rewrite list_insert_id.
Qed.

Lemma awp_assign p c f r (Q : unit -> share -> Prop) :
  r_own r !! p = Some c -> Q tt (set_own (<[p := f c]> (r_own r)) r) -> awp (assign p f) r Q.
Proof.
  intros Hp HQ i ans σ rs _ HI Hi. pose proof HI as (wh & st & HG).
  destruct (own_not_idle _ _ _ _ _ _ _ _ HG Hi Hp) as (_ & Hh & _). unfold assign. rewrite Hh.
  eexists. split; [by eapply Inv_heap_own|done].
Qed.

(** Methods of a connection that has a backend. *)
Lemma deref_Conn_dialed p c i ans σ : heap σ !! p = Some c -> dialed c -> deref_Conn p i ans σ = deref p i ans σ.
Proof. intros Hp Hd. unfold deref_Conn. rewrite Hp. by destruct c as [? ? ? ? ? []]. Qed.

Lemma assign_Conn_dialed p f c i ans σ : heap σ !! p = Some c -> dialed c ->
  assign_Conn p f i ans σ = Next (set_heap σ (<[p := f c]> (heap σ))) tt.
Proof. intros Hp Hd. unfold assign_Conn, assign. rewrite Hp. by destruct c as [? ? ? ? ? []]. Qed.

Lemma awp_deref_Conn p c r (Q : Pooled -> share -> Prop) :
  r_own r !! p = Some c -> dialed c -> Q c r -> awp (deref_Conn p) r Q.
Proof.
  intros Hp Hd HQ i ans σ rs Ha HI Hi. pose proof HI as (wh & st & HG).
  destruct (own_not_idle _ _ _ _ _ _ _ _ HG Hi Hp) as (_ & Hh & _). rewrite (deref_Conn_dialed p c) by done.
  by apply (awp_deref p c r Q).
Qed.

Lemma awp_assign_Conn p c f r (Q : unit -> share -> Prop) :
  r_own r !! p = Some c -> dialed c -> Q tt (set_own (<[p := f c]> (r_own r)) r) -> awp (assign_Conn p f) r Q.
Proof.
  intros Hp Hd HQ i ans σ rs _ HI Hi. pose proof HI as (wh & st & HG).
  destruct (own_not_idle _ _ _ _ _ _ _ _ HG Hi Hp) as (_ & Hh & _). rewrite (assign_Conn_dialed p f c) by done.
  eexists. split; [by eapply Inv_heap_own|done].
Qed.

Lemma awp_ts_cas p c new r (Q : bool -> share -> Prop) :
  r_own r !! p = Some c -> Q true (set_own (<[p := set_timeUsed new c]> (r_own r)) r) ->
  awp (ts_cas p (timeUsed c) new) r Q.
Proof.
  intros Hp HQ i ans σ rs _ HI Hi. pose proof HI as (wh & st & HG).
  destruct (own_not_idle _ _ _ _ _ _ _ _ HG Hi Hp) as (_ & Hh & _). unfold ts_cas. rewrite Hh, Z.eqb_refl.
  eexists. split; [by eapply Inv_heap_own|done].
Qed.

Lemma awp_ApplySettings p c s r (Q : option drv_error -> share -> Prop) :
  r_own r !! p = Some c -> dialed c ->
  Q None (set_own (<[p := set_Conn (mkConn s (conn_IsClosed (conn_Conn c))) c]> (r_own r)) r) ->
  (forall e s' b, Q (Some e) (set_own (<[p := set_Conn (mkConn s' b) c]> (r_own r)) r)) ->
  awp (ApplySettings p s) r Q.
Proof.
  intros Hp Hd HQ HQ' i ans σ rs _ HI Hi. pose proof HI as (wh & st & HG).
  destruct (own_not_idle _ _ _ _ _ _ _ _ HG Hi Hp) as (_ & Hh & _). unfold ApplySettings.
  rewrite (assign_Conn_dialed p _ c) by done. destruct (a_err ans); eexists; (split; [by eapply Inv_heap_own|done]).
Qed.

Lemma awp_Check p c r (Q : option drv_error * Divergence -> share -> Prop) :
  r_own r !! p = Some c -> dialed c ->
  (forall e d b, Q (e, d)
     (set_own (<[p := set_Conn (mkConn (conn_Settings (conn_Conn c)) b) c]> (r_own r)) r)) ->
  awp (Check p) r Q.
Proof.
  intros Hp Hd HQ i ans σ rs _ HI Hi. pose proof HI as (wh & st & HG).
  destruct (own_not_idle _ _ _ _ _ _ _ _ HG Hi Hp) as (_ & Hh & _). unfold Check.
  rewrite (assign_Conn_dialed p _ c) by done.
  eexists. split; [by eapply Inv_heap_own|apply HQ].
Qed.

(** A connection that is in a goroutine's hands and not its client's. *)
Definition mine (p : nat) (c : Pooled) (r : share) : Prop :=
  r_own r !! p = Some c /\ c_held (r_ctl r) <> Some p.

Lemma held_own σ rs wh st i r p : InvG M σ rs wh st -> rs !! i = Some r -> c_held (r_ctl r) = Some p ->
  exists c, r_own r !! p = Some c.
Proof.
  intros HI Hi Hp. destruct (ct_own _ _ _ _ _ _ (inv_client _ _ _ _ _ HI) i p (c_pub (r_ctl r))) as (o & Ho & [c Hc]).
  { rewrite (share_lookup helds _ _ _ Hi). unfold helds. by rewrite Hp. }
  rewrite (share_lookup r_own _ _ _ Hi) in Ho. simplify_eq. eauto.
Qed.

(** The places of connections when goroutine [i] gets [p], which nobody had in
    hand and which is nowhere else now. *)
Lemma place_gain h cl cl' il il' ib ib' owns wh i o p c :
  place_inv h cl il ib owns wh -> owns !! i = Some o -> h !! p = Some c ->
  NoDup il' -> (forall q, q ∈ il' -> q ∈ il /\ q <> p) -> (forall q, q ∈ cl' -> q ∈ cl /\ q <> p) ->
  (forall w q, ib' !! w = Some q -> ib !! w = Some q /\ q <> p) -> (forall j, wh p <> POwned j) ->
  place_inv h cl' il' ib' (<[i := <[p := c]> o]> owns) (<[p := POwned i]> wh).
Proof.
  intros [P1 P2 P3 P4 P5] Hi Hp Hnd Hil Hcl Hib Hwp. split; [done| | | |].
  - intros q Hq. destruct (Hil q Hq) as [Hq' Hne]. rewrite fn_lookup_insert_ne by done. by apply P2.
  - intros q x Hq. by apply P3, Hcl.
  - intros w q Hq. destruct (Hib w q Hq) as [Hq' Hne]. rewrite fn_lookup_insert_ne by done. by apply P4.
  - intros j o' q x Hj Hq. apply list_lookup_insert_Some in Hj as [(<- & <- & _)|[Hne Hj]].
    + destruct (decide (q = p)) as [->|Hqp].
      * rewrite lookup_insert_eq in Hq. simplify_eq. by rewrite fn_lookup_insert.
      * rewrite lookup_insert_ne in Hq by done. rewrite fn_lookup_insert_ne by done. by eapply P5.
    + destruct (P5 j o' q x Hj Hq) as [Hwq Hx]. rewrite fn_lookup_insert_ne; [done|]. intros <-. by eapply Hwp.
Qed.

(** The same when goroutine [i] gives [p] away, to the place [pl]. *)
Lemma place_loss h cl cl' il il' ib ib' owns wh i o p c pl :
  place_inv h cl il ib owns wh -> owns !! i = Some o -> o !! p = Some c ->
  NoDup il' ->
  (forall q, q ∈ il' -> q ∈ il \/ (q = p /\ pl = PIdle /\ idle_ok c)) ->
  (forall q, q ∈ cl' -> q ∈ cl \/ (q = p /\ clean_ok c)) ->
  (forall w q, ib' !! w = Some q -> ib !! w = Some q \/ (q = p /\ pl = PMail w /\ returnable c)) ->
  place_inv h cl' il' ib' (<[i := delete p o]> owns) (<[p := pl]> wh).
Proof.
  intros [P1 P2 P3 P4 P5] Hi Hp Hnd Hil Hcl Hib. destruct (P5 i o p c Hi Hp) as [Hwp Hhp].
  split; [done| | | |].
  - intros q Hq. destruct (Hil q Hq) as [Hq'|(-> & -> & Hok)]; [|rewrite fn_lookup_insert; eauto].
    destruct (P2 q Hq') as [Hwq Hx]. rewrite fn_lookup_insert_ne; [done|]. congruence.
  - intros q x Hq Hx. destruct (Hcl q Hq) as [Hq'|[-> Hok]]; [by eapply P3|]. by simplify_eq.
  - intros w q Hq. destruct (Hib w q Hq) as [Hq'|(-> & -> & Hok)]; [|rewrite fn_lookup_insert; eauto].
    destruct (P4 w q Hq') as [Hwq Hx]. rewrite fn_lookup_insert_ne; [done|]. congruence.
  - intros j o' q x Hj Hq. apply list_lookup_insert_Some in Hj as [(<- & <- & _)|[Hne Hj]].
    + apply lookup_delete_Some in Hq as [Hqp Hq]. rewrite fn_lookup_insert_ne by done. by eapply P5.
    + destruct (P5 j o' q x Hj Hq) as [Hwq Hx]. rewrite fn_lookup_insert_ne; [done|]. congruence.
Qed.

Lemma awp_alloc c r (Q : nat -> share -> Prop) :
  (forall p, c_held (r_ctl r) <> Some p -> Q p (set_own (<[p := c]> (r_own r)) r)) -> awp (alloc c) r Q.
Proof.
  intros HQ i ans σ rs _ (wh & st & HI) Hi. unfold alloc. set (p := length (heap σ)).
  assert (Hold : forall q x, heap σ !! q = Some x -> (heap σ ++ [c]) !! q = Some x /\ q <> p).
  { intros q x Hq. pose proof (lookup_lt_Some _ _ _ Hq). split; [by apply lookup_app_l_Some|unfold p; lia]. }
  assert (Hp : (heap σ ++ [c]) !! p = Some c) by (unfold p; rewrite lookup_app_r, Nat.sub_diag by lia; done).
  pose proof HI as [Hc [P1 P2 P3 P4 P5] Hl Hw Hcl Hct Hs].
  assert (Hidle : forall q, q ∈ idle σ -> q <> p) by (intros q Hq; destruct (P2 q Hq) as (_ & x & Hx & _); by apply (Hold q x)).
  eexists. split; [|apply (HQ p)].
  2:{ intros Hh. destruct (held_own _ _ _ _ _ _ _ HI Hi Hh) as [x Hx].
      destruct (own_not_idle _ _ _ _ _ _ _ _ HI Hi Hx) as (_ & Hx' & _). by destruct (Hold p x Hx'). }
  exists (<[p := POwned i]> (<[p := PIdle]> wh)), st. split; frame Hi.
  - change (live_idle (set_heap σ (heap σ ++ [c]))) with (nlive (heap σ ++ [c]) (idle σ)).
    rewrite (nlive_ext (heap σ)); [done|]. intros q Hq. destruct (P2 q Hq) as (_ & x & Hx & _).
    unfold livep. by rewrite Hx, (proj1 (Hold q x Hx)).
  - cbn. rewrite list_fmap_insert. cbn.
    eapply (place_gain _ (items (clean σ)) _ (idle σ) _ (inbox σ) _ _ (<[p := PIdle]> wh)).
    + split; [done| | | |].
      * intros q Hq. destruct (P2 q Hq) as (Hwq & x & Hx & Hok). rewrite fn_lookup_insert_ne by (by apply not_eq_sym, Hidle).
        split; [done|]. exists x. by rewrite (proj1 (Hold q x Hx)).
      * intros q x Hq Hx. destruct (P2 q (clean_idle _ _ Hq)) as (_ & y & Hy & _).
        rewrite (proj1 (Hold q y Hy)) in Hx. simplify_eq. by eapply P3.
      * intros w q Hq. destruct (P4 w q Hq) as (Hwq & x & Hx & Hok). destruct (Hold q x Hx) as [Hx' Hne].
        rewrite fn_lookup_insert_ne by done. eauto.
      * intros j o q x Hj Hq. destruct (P5 j o q x Hj Hq) as [Hwq Hx]. destruct (Hold q x Hx) as [Hx' Hne].
        rewrite fn_lookup_insert_ne by done. done.
    + by apply share_lookup.
    + done.
    + done.
    + intros q Hq. split; [done|by apply Hidle].
    + intros q Hq. split; [done|by apply Hidle, clean_idle].
    + intros w q Hq. split; [done|]. destruct (P4 w q Hq) as (_ & x & Hx & _). by apply (Hold q x).
    + intros j. by rewrite fn_lookup_insert.
  - intros j s l e Hj. destruct (Hl j s l e Hj) as [Hs1 He]. split; [done|]. intros q ->.
    destruct (He q eq_refl) as [Hq (x & Hx & Hex)]. split; [done|]. exists x. cbn. by rewrite (proj1 (Hold q x Hx)).
  - cbn. rewrite list_fmap_insert. eapply client_owns; [done|by apply share_lookup|].
    intros q b _ Hq. cbn. apply lookup_insert_is_Some'. by right.
Qed.

(** *** Stacks *)

Lemma set_stack_fields σ s x :
  ints (set_stack σ s x) = ints σ /\ heap (set_stack σ s x) = heap σ /\ wait (set_stack σ s x) = wait σ /\
  inbox (set_stack σ s x) = inbox σ /\ close_ (set_stack σ s x) = close_ σ /\ chans (set_stack σ s x) = chans σ /\
  capacityMu (set_stack σ s x) = capacityMu σ /\ scrubCancel (set_stack σ s x) = scrubCancel σ /\
  published (set_stack σ s x) = published σ /\ held (set_stack σ s x) = held σ /\
  served (set_stack σ s x) = served σ /\ length (states (set_stack σ s x)) = length (states σ).
Proof. destruct s; cbn; split_and!; try done. apply length_insert. Qed.

Lemma clean_set_stack σ s x y q : get_stack σ s = Some x -> q ∈ items (clean (set_stack σ s y)) ->
  q ∈ items (clean σ) \/ (s = Clean /\ q ∈ items y).
Proof. destruct s; cbn; [intros _ Hq; by right|intros _ Hq; by left]. Qed.

(** An unlocked stack may change under the others' locks. *)
Lemma lock_set_stack σ s l y h ls : get_stack σ s = Some (mkStack None l) ->
  lock_inv (get_stack σ) h ls -> lock_inv (get_stack (set_stack σ s y)) h ls.
Proof.
  intros Hs Hl j s' l' e Hj. destruct (Hl j s' l' e Hj) as [Hs' He]. split; [|done].
  rewrite get_set_stack by (by rewrite Hs). rewrite decide_False; [done|]. intros ->. congruence.
Qed.

Lemma Inv_take σ rs i r s l l' p :
  Inv σ rs -> rs !! i = Some r -> get_stack σ s = Some (mkStack None l) -> l ≡ₚ p :: l' ->
  exists c, heap σ !! p = Some c /\ idle_ok c /\ (s = Clean -> clean_ok c) /\ c_held (r_ctl r) <> Some p /\
    Inv (set_stack σ s (mkStack None l'))
      (<[i := mkShare (r_slots r + if livep (heap σ) p then 1 else 0) (r_borrowed r) (r_requested r) (r_lent r)
                (<[p := c]> (r_own r)) (r_ctl r)]> rs).
Proof.
  intros HI0 Hi Hs Hl. pose proof HI0 as (wh & st & HI). pose proof (Inv_slots _ _ _ _ HI0 Hi) as (S1 & S2 & S3).
  destruct (idle_split σ s _ Hs) as (rest & Hid & Hid'). specialize (Hid' (mkStack None l')). cbn [items] in Hid, Hid'.
  set (σ' := set_stack σ s (mkStack None l')) in *. rewrite Hl in Hid. cbn in Hid. rewrite <- Hid' in Hid.
  pose proof HI as [Hc HP Hlk Hw Hcl Hct Hsh]. pose proof HP as [P1 P2 P3 P4 P5].
  assert (Hpi : p ∈ idle σ) by (rewrite Hid; left). destruct (P2 p Hpi) as (Hwp & c & Hp & Hok).
  pose proof P1 as Hnd. rewrite Hid in Hnd. apply NoDup_cons in Hnd as [Hpn Hnd].
  assert (Hsub : forall q, q ∈ idle σ' -> q ∈ idle σ /\ q <> p).
  { intros q Hq. split; [rewrite Hid; by right|by intros ->]. }
  assert (Hpl : p ∈ l) by (rewrite Hl; left).
  exists c. split_and!; [done|done| | |].
  - intros ->. cbn in Hs. injection Hs as Hs. apply (P3 p c); [by rewrite Hs|done].
  - intros Hh. destruct (held_own _ _ _ _ _ _ _ HI Hi Hh) as [x Hx].
    destruct (own_not_idle _ _ _ _ _ _ _ _ HI Hi Hx) as (? & _ & _). done.
  - destruct (set_stack_fields σ s (mkStack None l')) as (E1 & E2 & E3 & E4 & E5 & E6 & E7 & E8 & E9 & E10 & E11 & E12).
    fold σ' in E1, E2, E3, E4, E5, E6, E7, E8, E9, E10, E11, E12.
    exists (<[p := POwned i]> wh), st. split; rewrite ?E1, ?E2, ?E3, ?E4, ?E5, ?E6, ?E7, ?E8, ?E9, ?E10, ?E11, ?E12; frame Hi.
    + rewrite list_fmap_insert. unfold live_idle in *. rewrite E2.
      fold (nlive (heap σ) (idle σ')) (nlive (heap σ) (idle σ)) in *.
      pose proof (nlive_nonneg (heap σ) (idle σ')). pose proof (wrap64_requested _ _ _ _ Hc) as [Hwr Hwr2].
      eapply (cnt_move M); [exact Hc|by apply share_lookup|..]; cbn [fst snd counts r_slots r_borrowed r_requested r_lent];
        rewrite ?Z.sub_diag, ?Hid, ?nlive_cons; try done; try (destruct (livep (heap σ) p); lia); lia.
    + rewrite list_fmap_insert. eapply place_gain; [done|by apply share_lookup|done..| | |].
      * intros q Hq. split; [|apply Hsub, clean_idle, Hq].
        destruct (clean_set_stack _ _ _ _ _ Hs Hq) as [?|[-> Hq']]; [done|].
        cbn in Hs, Hq'. injection Hs as Hs. rewrite Hs. cbn. rewrite Hl. by right.
      * intros w q Hq. split; [done|]. intros ->. destruct (P4 w p Hq) as [Hwq _]. congruence.
      * intros j Hj. congruence.
    + by eapply lock_set_stack.
    + rewrite list_fmap_insert. eapply client_owns; [done|by apply share_lookup|].
      intros q b _ Hq. cbn. apply lookup_insert_is_Some'. by right.
Qed.

Lemma Inv_give σ rs i r s l l' p c :
  Inv σ rs -> rs !! i = Some r -> get_stack σ s = Some (mkStack None l) -> l' ≡ₚ p :: l ->
  mine p c r -> returnable c -> (s = Clean -> clean_ok c) -> r_borrowed r < r_slots r ->
  Inv (set_stack σ s (mkStack None l'))
    (<[i := mkShare (r_slots r - 1) (r_borrowed r) (r_requested r) (r_lent r) (delete p (r_own r)) (r_ctl r)]> rs).
Proof.
  intros HI0 Hi Hs Hl [Hp Hh] Hret Hcln Hlt. pose proof HI0 as (wh & st & HI).
  pose proof (Inv_slots _ _ _ _ HI0 Hi) as (S1 & S2 & S3).
  destruct (idle_split σ s _ Hs) as (rest & Hid & Hid'). specialize (Hid' (mkStack None l')). cbn [items] in Hid, Hid'.
  set (σ' := set_stack σ s (mkStack None l')) in *. rewrite Hl in Hid'. cbn in Hid'. rewrite <- Hid in Hid'.
  pose proof HI as [Hc HP Hlk Hw Hcl Hct Hsh]. pose proof HP as [P1 P2 P3 P4 P5].
  destruct (own_not_idle _ _ _ _ _ _ _ _ HI Hi Hp) as (Hni & Hhp & Hwp).
  destruct Hret as (Hld & Hex & Hbz).
  destruct (set_stack_fields σ s (mkStack None l')) as (E1 & E2 & E3 & E4 & E5 & E6 & E7 & E8 & E9 & E10 & E11 & E12).
  fold σ' in E1, E2, E3, E4, E5, E6, E7, E8, E9, E10, E11, E12.
  exists (<[p := PIdle]> wh), st. split; rewrite ?E1, ?E2, ?E3, ?E4, ?E5, ?E6, ?E7, ?E8, ?E9, ?E10, ?E11, ?E12; frame Hi.
  - rewrite list_fmap_insert. unfold live_idle in *. rewrite E2.
    fold (nlive (heap σ) (idle σ')) (nlive (heap σ) (idle σ)) in *.
    pose proof (nlive_nonneg (heap σ) (idle σ)). pose proof (wrap64_requested _ _ _ _ Hc) as [Hwr Hwr2].
    assert (Hlv : livep (heap σ) p = true) by (by eapply livep_true).
    eapply (cnt_move M); [exact Hc|by apply share_lookup|..]; cbn [fst snd counts r_slots r_borrowed r_requested r_lent];
      rewrite ?Z.sub_diag, ?Hid', ?nlive_cons, ?Hlv; try done; lia.
  - rewrite list_fmap_insert. eapply place_loss; [done|by apply share_lookup|done|..].
    + rewrite Hid'. by apply NoDup_cons.
    + intros q. rewrite Hid'. intros [->|Hq]%elem_of_cons; [right|by left]. split_and!; [done..|]. split_and!; [done|by apply lendable_dialed|by right].
    + intros q Hq. destruct (clean_set_stack _ _ _ _ _ Hs Hq) as [?|[-> Hq']]; [by left|].
      cbn in Hs, Hq'. injection Hs as Hs. rewrite Hs. rewrite Hl in Hq'. apply elem_of_cons in Hq' as [->|?]; [right|by left].
      split; [done|by apply Hcln].
    + intros w q Hq. by left.
  - by eapply lock_set_stack.
  - rewrite list_fmap_insert. eapply client_owns; [done|by apply share_lookup|].
    intros q b Hq Hx. cbn. apply (helds_lookup _ _ _ _ _ Hi) in Hq. rewrite lookup_delete_ne; [done|]. congruence.
Qed.

Definition valid_stack (s : stack_id) : Prop := forall k, s = States k -> (k < 8)%nat.

(** The share after a connection was taken out of a stack: an expired one brings
    no slot. *)
Definition gain (p : nat) (c : Pooled) (r : share) : share :=
  mkShare (r_slots r + if timeUsed c =? timestampExpired then 0 else 1) (r_borrowed r) (r_requested r) (r_lent r)
    (<[p := c]> (r_own r)) (r_ctl r).

Definition give (p : nat) (r : share) : share :=
  mkShare (r_slots r - 1) (r_borrowed r) (r_requested r) (r_lent r) (delete p (r_own r)) (r_ctl r).

Lemma Inv_stack σ rs s : Inv σ rs -> valid_stack s -> exists x, get_stack σ s = Some x.
Proof. intros (wh & st & HI) Hs. apply stack_exists; [|done]. by apply (inv_shape _ _ _ _ _ HI). Qed.

Lemma gain_eq σ p c r : heap σ !! p = Some c ->
  mkShare (r_slots r + if livep (heap σ) p then 1 else 0) (r_borrowed r) (r_requested r) (r_lent r)
    (<[p := c]> (r_own r)) (r_ctl r) = gain p c r.
Proof. intros Hp. unfold gain, livep. rewrite Hp. by destruct (timeUsed c =? timestampExpired). Qed.

Lemma awp_Pop s r (Q : option nat -> share -> Prop) :
  valid_stack s -> Q None r ->
  (forall p c, idle_ok c -> (s = Clean -> clean_ok c) -> c_held (r_ctl r) <> Some p -> Q (Some p) (gain p c r)) ->
  awp (Pop s) r Q.
Proof.
  intros Hv HQ HQ' i ans σ rs _ HI Hi. destruct (Inv_stack σ rs s HI Hv) as [[[j|] l] Hs];
    unfold Pop; rewrite Hs; [done|]. destruct l as [|p l].
  - exists r. by rewrite list_insert_id.
  - destruct (Inv_take σ rs i r s (p :: l) l p HI Hi Hs ltac:(done)) as (c & Hp & Hok & Hcl & Hh & HI').
    rewrite gain_eq in HI' by done. eauto.
Qed.

Lemma awp_Push s p c r (Q : unit -> share -> Prop) :
  valid_stack s -> mine p c r -> returnable c -> (s = Clean -> clean_ok c) -> r_borrowed r < r_slots r ->
  Q tt (give p r) -> awp (Push s p) r Q.
Proof.
  intros Hv Hm Hr Hcl Hlt HQ i ans σ rs _ HI Hi. destruct (Inv_stack σ rs s HI Hv) as [[[j|] l] Hs];
    unfold Push; rewrite Hs; [done|]. eexists. split; [by eapply (Inv_give σ rs i r s l (p :: l))|done].
Qed.

Lemma insert_at_perm p d l : insert_at p d l ≡ₚ p :: l.
Proof.
  unfold insert_at. destruct (d <=? 0); [done|]. rewrite <- Permutation_middle. by rewrite take_drop.
Qed.

Lemma awp_InsertAt s p c d r (Q : unit -> share -> Prop) :
  valid_stack s -> mine p c r -> returnable c -> (s = Clean -> clean_ok c) -> r_borrowed r < r_slots r ->
  Q tt (give p r) -> awp (InsertAt s p d) r Q.
Proof.
  intros Hv Hm Hr Hcl Hlt HQ i ans σ rs _ HI Hi. destruct (Inv_stack σ rs s HI Hv) as [[[j|] l] Hs];
    unfold InsertAt; rewrite Hs; [done|].
  eexists. split; [by eapply (Inv_give σ rs i r s l (insert_at p d l)); try apply insert_at_perm|done].
Qed.

Lemma PopFirst_found f d l :
  match PopFirst f d l with
  | NotFound => True
  | FoundPanic m => exists p, p ∈ l /\ f p = MatchPanic m
  | Found p _ rest => l ≡ₚ p :: rest /\ f p = Match
  end.
Proof.
  revert d. induction l as [|q l IH]; intros d; cbn; [done|]. destruct (f q) eqn:E.
  - specialize (IH (d + 1)). destruct (PopFirst f (d + 1) l); [done| |].
    + destruct IH as (p & Hp & Hf). exists p. split; [by right|done].
    + destruct IH as [Hl Hf]. split; [|done]. by rewrite Hl, Permutation_swap.
  - by split.
  - exists q. split; [left|done].
Qed.

Lemma scrub_match_live σ p c : heap σ !! p = Some c -> scrub_match σ p = Match ->
  timeUsed c <> timestampExpired /\ timeUsed c <> timestampBusy.
Proof.
  intros Hp. unfold scrub_match. rewrite Hp. repeat (case_match; try discriminate). by reflect_bools.
Qed.

Lemma scrub_match_panic σ p c m : heap σ !! p = Some c -> scrub_match σ p = MatchPanic m -> timeUsed c = timestampBusy.
Proof.
  intros Hp. unfold scrub_match. rewrite Hp. repeat (case_match; try discriminate). by reflect_bools.
Qed.

Lemma set_stack_heap σ s x h : set_stack (set_heap σ h) s x = set_heap (set_stack σ s x) h.
Proof. by destruct s. Qed.

Lemma awp_PopFirst s r (Q : option scrubbed -> share -> Prop) :
  valid_stack s -> Q None r ->
  (forall p d c, returnable c -> (s = Clean -> clean_ok c) -> c_held (r_ctl r) <> Some p ->
     Q (Some (mkScrubbed p d (timeUsed c)))
       (mkShare (r_slots r + 1) (r_borrowed r) (r_requested r) (r_lent r)
          (<[p := set_timeUsed timestampBusy c]> (r_own r)) (r_ctl r))) ->
  awp (PopFirst_unprobed s) r Q.
Proof.
  intros Hv HQ HQ' i ans σ rs _ HI Hi. destruct (Inv_stack σ rs s HI Hv) as [[[j|] l] Hs];
    unfold PopFirst_unprobed; rewrite Hs; [done|].
  assert (Hid : forall q, q ∈ l -> exists c, heap σ !! q = Some c /\ idle_ok c).
  { intros q Hq. destruct HI as (wh & st & HI). by apply (pl_idle _ _ _ _ _ _ (inv_place _ _ _ _ _ HI) q), (stack_idle σ s _ q Hs). }
  pose proof (PopFirst_found (scrub_match σ) 0 l) as Hf. destruct (PopFirst (scrub_match σ) 0 l) as [|m|p d rest].
  - exists r. by rewrite list_insert_id.
  - destruct Hf as (q & Hq & Hf). destruct (Hid q Hq) as (c & Hc & Hb & _). by apply (scrub_match_panic σ q c) in Hf.
  - destruct Hf as [Hl Hf].
    destruct (Inv_take σ rs i r s l rest p HI Hi Hs Hl) as (c & Hp & Hok & Hcl & Hh & HI'). rewrite Hp.
    destruct (scrub_match_live σ p c Hp Hf) as [Hlv Hbz]. rewrite (livep_true _ _ c) in HI' by done.
    eexists. split; [|apply (HQ' p d c); [|done|done]].
    + rewrite set_stack_heap.
      destruct (set_stack_fields σ s (mkStack None rest)) as (_ & E2 & _). rewrite <- E2.
      eapply (Inv_heap_own _ _ i _ p c (set_timeUsed timestampBusy c)) in HI';
        [|by apply list_lookup_insert_eq, (lookup_lt_Some _ _ r)|apply lookup_insert_eq].
      rewrite list_insert_insert_eq in HI'. unfold set_own in HI'. cbn in HI'.
      by rewrite insert_insert_eq in HI'.
    + destruct Hok as (Hb & _ & [?|Hld]); [done|]. by split.
Qed.

(** *** Iterating under a stack's lock *)

Lemma idle_same_items σ s m m' l : get_stack σ s = Some (mkStack m l) ->
  idle (set_stack σ s (mkStack m' l)) ≡ₚ idle σ /\
  items (clean (set_stack σ s (mkStack m' l))) = items (clean σ).
Proof.
  intros Hs. destruct (idle_split σ s _ Hs) as (rest & Hid & Hid'). split; [by rewrite Hid'|].
  destruct s; cbn in *; [by simplify_eq/=; rewrite Hs|done].
Qed.

(** Changing only who holds a stack's lock. *)
Lemma Inv_relock σ rs i r s m m' l c' :
  Inv σ rs -> rs !! i = Some r -> get_stack σ s = Some (mkStack m l) ->
  c' = with_lock (c_lock c') (r_ctl r) ->
  lock_inv (get_stack (set_stack σ s (mkStack m' l))) (heap σ) (<[i := c_lock c']> (locks <$> rs)) ->
  Inv (set_stack σ s (mkStack m' l)) (<[i := set_ctl c' r]> rs).
Proof.
  intros (wh & st & [Hc HP Hlk Hw Hcl Hct Hsh]) Hi Hs Hc' Hl.
  destruct (idle_same_items σ s m m' l Hs) as [Hid Hcln]. set (σ' := set_stack σ s (mkStack m' l)) in *.
  destruct (set_stack_fields σ s (mkStack m' l)) as (E1 & E2 & E3 & E4 & E5 & E6 & E7 & E8 & E9 & E10 & E11 & E12).
  fold σ' in E1, E2, E3, E4, E5, E6, E7, E8, E9, E10, E11, E12.
  assert (Hpr : counts (set_ctl c' r) = counts r /\ waits (set_ctl c' r) = waits r /\
                mus (set_ctl c' r) = mus r /\ helds (set_ctl c' r) = helds r /\ opens (set_ctl c' r) = opens r).
  { unfold counts, waits, mus, helds, opens. cbn. by rewrite Hc'. }
  destruct Hpr as (Q1 & Q2 & Q3 & Q4 & Q5).
  exists wh, st. split; rewrite ?E1, ?E2, ?E3, ?E4, ?E5, ?E6, ?E7, ?E8, ?E9, ?E10, ?E11, ?E12, ?Hcln;
    rewrite ?(share_fmap counts _ _ _ _ Hi Q1), ?(share_fmap waits _ _ _ _ Hi Q2),
      ?(share_fmap mus _ _ _ _ Hi Q3), ?(share_fmap helds _ _ _ _ Hi Q4), ?(share_fmap opens _ _ _ _ Hi Q5),
      ?(share_fmap r_own _ _ _ (set_ctl c' r) Hi eq_refl); try done.
  - replace (live_idle σ') with (live_idle σ); [done|].
    unfold live_idle. rewrite E2. symmetry. exact (nlive_perm _ _ _ Hid).
  - destruct HP as [P1 P2 P3 P4 P5]. split; [by rewrite Hid| |done..]. intros q. rewrite Hid. apply P2.
  - by rewrite list_fmap_insert.
Qed.

Lemma awp_LockStack s r (Q : list nat -> share -> Prop) :
  valid_stack s -> locks r = None ->
  (forall l, Q l (set_ctl (with_lock (Some (s, l, None)) (r_ctl r)) r)) -> awp (LockStack s) r Q.
Proof.
  intros Hv Hn HQ i ans σ rs _ HI Hi. destruct (Inv_stack σ rs s HI Hv) as [[[j|] l] Hs];
    unfold LockStack; rewrite Hs; [done|]. eexists. split; [|apply HQ].
  eapply Inv_relock; [done|done|done|done|]. destruct HI as (wh & st & HI).
  pose proof (inv_lock _ _ _ _ _ HI) as Hl. intros j s' l' e Hj.
  rewrite get_set_stack by (by rewrite Hs).
  apply list_lookup_insert_Some in Hj as [(<- & Hj & _)|[Hne Hj]].
  - cbn in Hj. injection Hj as <- <- <-. rewrite decide_True by done. by split.
  - destruct (Hl j s' l' e Hj) as [Hs' He]. split; [|done]. rewrite decide_False; [done|]. intros ->. congruence.
Qed.

Lemma awp_UnlockStack s l e r (Q : unit -> share -> Prop) :
  locks r = Some (s, l, e) -> Q tt (set_ctl (with_lock None (r_ctl r)) r) -> awp (UnlockStack s) r Q.
Proof.
  intros Hr HQ i ans σ rs _ HI Hi. pose proof HI as (wh & st & HG). pose proof (inv_lock _ _ _ _ _ HG) as Hl.
  destruct (Hl i s l e) as [Hs _]; [by rewrite (share_lookup locks _ _ _ Hi), Hr|].
  unfold UnlockStack. rewrite Hs. eexists. split; [|done].
  eapply Inv_relock; [done|done|done|done|]. intros j s' l' e' Hj.
  rewrite get_set_stack by (by rewrite Hs).
  apply list_lookup_insert_Some in Hj as [(<- & Hj & _)|[Hne Hj]]; [done|].
  destruct (Hl j s' l' e' Hj) as [Hs' He]. split; [|done]. rewrite decide_False; [done|]. intros ->. congruence.
Qed.

Lemma locked_idle σ rs wh st i r s l e p : InvG M σ rs wh st -> rs !! i = Some r -> locks r = Some (s, l, e) -> p ∈ l ->
  p ∈ idle σ /\ exists c, heap σ !! p = Some c /\ idle_ok c /\ (e = Some p -> timeUsed c = timestampExpired).
Proof.
  intros HI Hi Hr Hp. assert (Hlk : (locks <$> rs) !! i = Some (Some (s, l, e))) by (by rewrite (share_lookup locks _ _ _ Hi), Hr).
  pose proof (lock_idle _ _ _ _ _ _ _ _ _ HI Hlk Hp) as Hid. split; [done|].
  destruct (pl_idle _ _ _ _ _ _ (inv_place _ _ _ _ _ HI) p Hid) as (_ & c & Hc & Hok). exists c. split_and!; [done..|].
  intros ->. destruct (inv_lock _ _ _ _ _ HI i s l _ Hlk) as [_ He].
  destruct (He p eq_refl) as (_ & x & Hx & Hex). by simplify_eq.
Qed.

Lemma awp_deref_locked s l e p r (Q : Pooled -> share -> Prop) :
  locks r = Some (s, l, e) -> p ∈ l -> (forall c, Q c r) -> awp (deref p) r Q.
Proof.
  intros Hr Hp HQ i ans σ rs _ HI Hi. pose proof HI as (wh & st & HG).
  destruct (locked_idle _ _ _ _ _ _ _ _ _ _ HG Hi Hr Hp) as (_ & c & Hc & _).
  unfold deref. rewrite Hc. exists r. by rewrite list_insert_id.
Qed.

(** The heap at an idle connection of a locked stack. *)
Lemma Inv_heap_locked σ rs i r s l e p c c' d e' :
  Inv σ rs -> rs !! i = Some r -> locks r = Some (s, l, e) -> p ∈ l -> heap σ !! p = Some c ->
  timeUsed c' = timestampExpired -> dialed c' -> e' = Some p ->
  d = (if timeUsed c =? timestampExpired then 0 else 1) ->
  Inv (set_heap σ (<[p := c']> (heap σ)))
    (<[i := add_slots d (set_ctl (with_lock (Some (s, l, e')) (r_ctl r)) r)]> rs).
Proof.
  intros HI0 Hi Hr Hp Hc Hex Hdl -> Hd. pose proof HI0 as (wh & st & HI). pose proof (Inv_slots _ _ _ _ HI0 Hi) as (S1 & S2 & S3).
  destruct (locked_idle _ _ _ _ _ _ _ _ _ _ HI Hi Hr Hp) as (Hid & x & Hx & Hok & _). simplify_eq.
  pose proof (lookup_lt_Some _ _ _ Hc) as Hlt.
  assert (Hlk : (locks <$> rs) !! i = Some (Some (s, l, e))) by (by rewrite (share_lookup locks _ _ _ Hi), Hr).
  pose proof HI as [Hcn [P1 P2 P3 P4 P5] Hl Hw Hcl Hct Hs].
  destruct (P2 p Hid) as [Hwp _].
  exists wh, st. split; frame Hi.
  - rewrite list_fmap_insert. change (live_idle (set_heap σ (<[p:=c']> (heap σ)))) with (nlive (<[p:=c']> (heap σ)) (idle σ)).
    unfold live_idle in Hcn. fold (nlive (heap σ) (idle σ)) in Hcn. cbn [ints set_heap inbox].
    pose proof (wrap64_requested _ _ _ _ Hcn) as [Hwr Hwr2]. pose proof (nlive_nonneg (<[p:=c']> (heap σ)) (idle σ)).
    apply elem_of_Permutation in Hid as [k Hk].
    assert (Hpk : p ∉ k) by (rewrite Hk in P1; by apply NoDup_cons in P1 as [? _]).
    assert (Hn : nlive (heap σ) (idle σ) = nlive (<[p := c']> (heap σ)) (idle σ) + (if timeUsed c =? timestampExpired then 0 else 1)).
    { rewrite !Hk, !nlive_cons. rewrite (nlive_ext (heap σ) (<[p := c']> (heap σ)) k).
      - rewrite (livep_false (<[p := c']> (heap σ)) p c') by (done || by apply list_lookup_insert_eq). unfold livep. rewrite Hc.
        destruct (timeUsed c =? timestampExpired); cbn [negb]; lia.
      - intros q Hq. apply livep_insert. by intros ->. }
    eapply (cnt_move M); [exact Hcn|by apply share_lookup|..]; cbn [fst snd counts r_slots r_borrowed r_requested r_lent add_slots set_ctl];
      rewrite ?Z.sub_diag; try done; destruct (timeUsed c =? timestampExpired); lia.
  - cbn. split; [done| | | |].
    + intros q Hq. destruct (decide (q = p)) as [->|Hne].
      * rewrite list_lookup_insert_eq by done. split; [done|]. exists c'. split; [done|]. split_and!; [by rewrite Hex|done|by left].
      * rewrite list_lookup_insert_ne by done. by apply P2.
    + intros q y Hq Hy. destruct (decide (q = p)) as [->|Hne].
      * rewrite list_lookup_insert_eq in Hy by done. simplify_eq. by left.
      * rewrite list_lookup_insert_ne in Hy by done. by eapply P3.
    + intros w q Hq. destruct (P4 w q Hq) as [Hwq Hy]. rewrite list_lookup_insert_ne by (intros ->; congruence). done.
    + intros j o q y Hj Hq. destruct (P5 j o q y Hj Hq) as [Hwq Hy]. rewrite list_lookup_insert_ne by (intros ->; congruence). done.
  - rewrite list_fmap_insert. intros j s' l' e2 Hj. apply list_lookup_insert_Some in Hj as [(<- & Hj & _)|[Hne Hj]].
    + cbn in Hj. injection Hj as <- <- <-. destruct (Hl i s l e Hlk) as [Hs' _]. split; [done|].
      intros q [= <-]. split; [done|]. exists c'. cbn. by rewrite list_lookup_insert_eq.
    + destruct (Hl j s' l' e2 Hj) as [Hs' He]. split; [done|]. intros q ->. destruct (He q eq_refl) as (Hq & y & Hy & Hye).
      split; [done|]. cbn. destruct (decide (q = p)) as [->|Hqp].
      * exists c'. by rewrite list_lookup_insert_eq.
      * exists y. by rewrite list_lookup_insert_ne.
Qed.

Lemma awp_expire_cas s l e p old r (Q : bool -> share -> Prop) :
  locks r = Some (s, l, e) -> p ∈ l -> old <> timestampExpired -> Q false r ->
  Q true (add_slots 1 (set_ctl (with_lock (Some (s, l, Some p)) (r_ctl r)) r)) ->
  awp (ts_cas p old timestampExpired) r Q.
Proof.
  intros Hr Hp Ho HQ HQ' i ans σ rs _ HI Hi. pose proof HI as (wh & st & HG).
  destruct (locked_idle _ _ _ _ _ _ _ _ _ _ HG Hi Hr Hp) as (_ & c & Hc & (_ & Hd & _) & _). unfold ts_cas. rewrite Hc.
  destruct (Z.eqb_spec (timeUsed c) old) as [E|E].
  - eexists. split; [|done]. eapply Inv_heap_locked; [done..|]. by rewrite E, (proj2 (Z.eqb_neq _ _)).
  - exists r. by rewrite list_insert_id.
Qed.

Lemma awp_close_expired s l p r (Q : unit -> share -> Prop) :
  locks r = Some (s, l, Some p) -> p ∈ l -> (forall r', r' = r -> Q tt r') -> awp (assign_Conn p close_Conn) r Q.
Proof.
  intros Hr Hp HQ i ans σ rs _ HI Hi. pose proof HI as (wh & st & HG).
  destruct (locked_idle _ _ _ _ _ _ _ _ _ _ HG Hi Hr Hp) as (_ & c & Hc & (_ & Hd & _) & Hex). specialize (Hex eq_refl).
  rewrite (assign_Conn_dialed p _ c) by done. exists r. split; [|by apply HQ].
  replace r with (add_slots 0 (set_ctl (with_lock (Some (s, l, Some p)) (r_ctl r)) r)).
  - eapply Inv_heap_locked; [done..|]. by rewrite Hex.
  - destruct r as [? ? ? ? ? []]. unfold locks in Hr. cbn in *. subst. unfold add_slots, set_ctl, with_lock. cbn. f_equal. lia.
Qed.
End Rules.
