(* ===== verification/ConnSync.v ===== *)
(** The rules of the pool's program logic for the actions that synchronise
    goroutines: the waitlist and its channels, the close channel, the capacity
    lock, and the hand-over of connections to clients. *)

From stdpp Require Import functions base gmap numbers list strings.
From S2P Require Import Prelude ConnPool ConnScrub ConnMachine ConnLogic ConnRules.

Local Open Scope Z_scope.

(** ** Which waiter is chosen *)

Lemma scan_waiters_elems x l w l' : scan_waiters x l = Some (w, l') ->
  w_elem <$> l ≡ₚ w_elem w :: (w_elem <$> l').
Proof.
  revert w l'. induction l as [|v l IH]; intros w l' H; [done|]. cbn in H.
  destruct (_ || _); [by injection H as <- <-|].
  destruct (scan_waiters x l) as [[t k]|] eqn:E; [|done]. injection H as <- <-. cbn.
  rewrite (IH t k eq_refl). apply Permutation_swap.
Qed.

Lemma aged_elems (l : list waiter) :
  w_elem <$> map (fun w => mkWaiter (w_elem w) (w_settings w) (age w + 1)) l = w_elem <$> l.
Proof. induction l as [|w l IH]; [done|]. cbn. by f_equal. Qed.

Lemma choose_waiter_elems x l w l' : choose_waiter x l = Some (w, l') ->
  w_elem <$> l ≡ₚ w_elem w :: (w_elem <$> l').
Proof.
  unfold choose_waiter. destruct (scan_waiters x l) as [[t k]|] eqn:E.
  - intros [= <- <-]. by apply (scan_waiters_elems x).
  - destruct l as [|v l]; cbn; [done|]. intros [= <- <-]. cbn. by rewrite aged_elems.
Qed.

(** ** The waitlist's part of the invariant *)

#[export] Instance wstatus_eq_dec : EqDecision wstatus.
Proof. solve_decision. Defined.

Lemma wait_idle wl ib ws st i s : wait_inv wl ib ws st -> ws !! i = Some (false, s) -> st i = SIdle.
Proof.
  intros [_ _ _ _ W5] Hi. destruct (decide (st i = SIdle)) as [?|Hne]; [done|].
  apply W5 in Hne as [s' Hs']. congruence.
Qed.

Lemma wait_enqueue wl ib ws st i s x : wait_inv wl ib ws st -> ws !! i = Some (false, s) ->
  wait_inv (wl ++ [mkWaiter i x 0]) ib (<[i := (true, s)]> ws) (<[i := SQueued]> st).
Proof.
  intros HW Hi. pose proof (wait_idle _ _ _ _ _ _ HW Hi) as Hst. pose proof (lookup_lt_Some _ _ _ Hi) as Hlt.
  destruct HW as [W1 W2 W3 W4 W5]. split.
  - rewrite fmap_app. apply NoDup_app. split_and!; [done| |by apply NoDup_singleton].
    intros w Hw Hw'%list_elem_of_singleton. cbn in Hw'. subst. apply W2 in Hw. congruence.
  - intros w. rewrite fmap_app, elem_of_app. cbn. rewrite list_elem_of_singleton, W2.
    destruct (decide (w = i)) as [->|Hne]; [rewrite fn_lookup_insert; naive_solver|].
    rewrite fn_lookup_insert_ne by done. naive_solver.
  - intros j w. destruct (decide (w = i)) as [->|Hne].
    + rewrite fn_lookup_insert. split; [done|]. intros [b Hb]. assert (Hc : st i = SClaimed j); [|congruence].
      apply W3. apply list_lookup_insert_Some in Hb as [(<- & Hb & _)|[_ Hb]]; [injection Hb as _ ->|]; eauto.
    + rewrite fn_lookup_insert_ne by done. rewrite W3. destruct (decide (i = j)) as [<-|Hj].
      * rewrite list_lookup_insert_eq by done. rewrite Hi. naive_solver.
      * by rewrite list_lookup_insert_ne.
  - intros w. destruct (decide (w = i)) as [->|Hne]; [rewrite fn_lookup_insert|by rewrite fn_lookup_insert_ne].
    rewrite W4, Hst. done.
  - intros w. destruct (decide (w = i)) as [->|Hne].
    + rewrite fn_lookup_insert, list_lookup_insert_eq by done. naive_solver.
    + rewrite fn_lookup_insert_ne, list_lookup_insert_ne by done. apply W5.
Qed.

(** A waiter that leaves the list, or that got its connection. *)
Lemma wait_leave wl wl' ib ib' ws st i s : wait_inv wl ib ws st -> ws !! i = Some (true, s) ->
  (forall j, st i <> SClaimed j) ->
  NoDup (w_elem <$> wl') -> (forall w, w ∈ w_elem <$> wl' <-> w ∈ w_elem <$> wl /\ w <> i) ->
  ib' = delete i ib ->
  wait_inv wl' ib' (<[i := (false, s)]> ws) (<[i := SIdle]> st).
Proof.
  intros [W1 W2 W3 W4 W5] Hi Hnc Hnd Hel ->. pose proof (lookup_lt_Some _ _ _ Hi) as Hlt. split; [done| | | |].
  - intros w. rewrite Hel, W2. destruct (decide (w = i)) as [->|Hne]; [rewrite fn_lookup_insert; naive_solver|].
    rewrite fn_lookup_insert_ne by done. naive_solver.
  - intros j w. destruct (decide (w = i)) as [->|Hne].
    + rewrite fn_lookup_insert. split; [done|]. intros [b Hb]. destruct (Hnc j).
      apply W3. apply list_lookup_insert_Some in Hb as [(<- & Hb & _)|[_ Hb]]; [injection Hb as _ ->|]; eauto.
    + rewrite fn_lookup_insert_ne by done. rewrite W3. destruct (decide (i = j)) as [<-|Hj].
      * rewrite list_lookup_insert_eq by done. rewrite Hi. naive_solver.
      * by rewrite list_lookup_insert_ne.
  - intros w. destruct (decide (w = i)) as [->|Hne].
    + rewrite fn_lookup_insert, lookup_delete_eq. split; [by intros []|done].
    + rewrite fn_lookup_insert_ne, lookup_delete_ne by done. apply W4.
  - intros w. destruct (decide (w = i)) as [->|Hne].
    + rewrite fn_lookup_insert, list_lookup_insert_eq by done. split; [done|]. by intros [? [= ]].
    + rewrite fn_lookup_insert_ne, list_lookup_insert_ne by done. apply W5.
Qed.

Lemma wait_claim wl wl' ib ws st i b w : wait_inv wl ib ws st -> ws !! i = Some (b, None) ->
  w_elem <$> wl ≡ₚ w :: (w_elem <$> wl') ->
  wait_inv wl' ib (<[i := (b, Some w)]> ws) (<[w := SClaimed i]> st).
Proof.
  intros [W1 W2 W3 W4 W5] Hi Hp. pose proof (lookup_lt_Some _ _ _ Hi) as Hlt.
  assert (Hst : st w = SQueued) by (apply W2; rewrite Hp; left).
  rewrite Hp in W1. apply NoDup_cons in W1 as [Hw W1]. split; [done| | | |].
  - intros v. destruct (decide (v = w)) as [->|Hne].
    + rewrite fn_lookup_insert. by split.
    + rewrite fn_lookup_insert_ne, <- W2, Hp by done. rewrite elem_of_cons. naive_solver.
  - intros j v. destruct (decide (v = w)) as [->|Hne].
    + rewrite fn_lookup_insert. split; [intros [= <-]; rewrite list_lookup_insert_eq by done; eauto|].
      intros [b' Hb]. apply list_lookup_insert_Some in Hb as [(<- & _)|[_ Hb]]; [done|].
      assert (Hc : st w = SClaimed j) by (apply W3; eauto). congruence.
    + rewrite fn_lookup_insert_ne by done. rewrite W3. destruct (decide (i = j)) as [<-|Hj].
      * rewrite list_lookup_insert_eq by done. rewrite Hi. naive_solver.
      * by rewrite list_lookup_insert_ne.
  - intros v. destruct (decide (v = w)) as [->|Hne]; [rewrite fn_lookup_insert|by rewrite fn_lookup_insert_ne].
    rewrite W4, Hst. done.
  - intros v. destruct (decide (v = w)) as [->|Hne].
    + rewrite fn_lookup_insert. split; [intros _|done].
      destruct (W5 w) as [W5' _]. destruct W5' as [s' Hs']; [congruence|].
      destruct (decide (i = w)) as [->|Hiw]; [rewrite list_lookup_insert_eq by done; naive_solver|].
      rewrite list_lookup_insert_ne by done. eauto.
    + rewrite fn_lookup_insert_ne by done. rewrite W5. destruct (decide (i = v)) as [<-|Hiv].
      * rewrite list_lookup_insert_eq by done. rewrite Hi. naive_solver.
      * by rewrite list_lookup_insert_ne.
Qed.

Lemma wait_mail wl ib ws st i b w p : wait_inv wl ib ws st -> ws !! i = Some (b, Some w) ->
  ib !! w = None /\ wait_inv wl (<[w := p]> ib) (<[i := (b, None)]> ws) (<[w := SMailed]> st).
Proof.
  intros [W1 W2 W3 W4 W5] Hi. pose proof (lookup_lt_Some _ _ _ Hi) as Hlt.
  assert (Hst : st w = SClaimed i) by (apply W3; eauto). split.
  { destruct (ib !! w) eqn:E; [|done]. assert (Hm : st w = SMailed) by (apply W4; eauto). congruence. }
  split; [done| | | |].
  - intros v. rewrite W2. destruct (decide (v = w)) as [->|Hne]; [rewrite fn_lookup_insert|by rewrite fn_lookup_insert_ne].
    by rewrite Hst.
  - intros j v. destruct (decide (v = w)) as [->|Hne].
    + rewrite fn_lookup_insert. split; [done|]. intros [b' Hb].
      apply list_lookup_insert_Some in Hb as [(_ & Hb & _)|[Hne Hb]]; [done|].
      assert (Hc : st w = SClaimed j) by (apply W3; eauto). congruence.
    + rewrite fn_lookup_insert_ne by done. rewrite W3. destruct (decide (i = j)) as [<-|Hj].
      * rewrite list_lookup_insert_eq by done. rewrite Hi. naive_solver.
      * by rewrite list_lookup_insert_ne.
  - intros v. destruct (decide (v = w)) as [->|Hne].
    + rewrite fn_lookup_insert, lookup_insert_eq. naive_solver.
    + rewrite fn_lookup_insert_ne, lookup_insert_ne by done. apply W4.
  - intros v. destruct (decide (v = w)) as [->|Hne].
    + rewrite fn_lookup_insert. split; [intros _|done].
      destruct (W5 w) as [W5' _]. destruct W5' as [s' Hs']; [congruence|].
      destruct (decide (i = w)) as [->|Hiw]; [rewrite list_lookup_insert_eq by done; naive_solver|].
      rewrite list_lookup_insert_ne by done. eauto.
    + rewrite fn_lookup_insert_ne by done. rewrite W5. destruct (decide (i = v)) as [<-|Hiv].
      * rewrite list_lookup_insert_eq by done. rewrite Hi. naive_solver.
      * by rewrite list_lookup_insert_ne.
Qed.

Section Sync.
Context (M : Z) (HM : 0 <= M <= int64_max).
Notation Inv := (Inv M).
Notation awp := (awp M).

Ltac frame Hi := rewrite ?(share_fmap _ _ _ _ _ Hi) by reflexivity; try done.

(** ** The waitlist *)

Lemma Inv_wait σ rs i r b s wl' :
  Inv σ rs -> rs !! i = Some r ->
  (forall st, wait_inv (wait σ) (inbox σ) (waits <$> rs) st ->
     exists st', wait_inv wl' (inbox σ) (<[i := (b, s)]> (waits <$> rs)) st') ->
  Inv (set_wait σ wl') (<[i := set_ctl (with_waits b s (r_ctl r)) r]> rs).
Proof.
  intros (wh & st & [Hc HP Hl Hw Hcl Hct Hs]) Hi Hst. destruct (Hst st Hw) as [st' Hw'].
  exists wh, st'. split; frame Hi. by rewrite list_fmap_insert.
Qed.

Lemma awp_PushBackValue x s r (Q : unit -> share -> Prop) :
  waits r = (false, s) -> Q tt (set_ctl (with_waits true s (r_ctl r)) r) -> awp (PushBackValue x) r Q.
Proof.
  intros Hr HQ i ans σ rs _ HI Hi. eexists. split; [|done]. apply Inv_wait; [done..|].
  intros st Hw. exists (<[i := SQueued]> st). apply wait_enqueue; [done|].
  by rewrite (share_lookup waits _ _ _ Hi), Hr.
Qed.

Lemma awp_remove_self s r (Q : bool -> share -> Prop) :
  waits r = (true, s) -> Q true (set_ctl (with_waits false s (r_ctl r)) r) -> Q false r ->
  awp remove_self r Q.
Proof.
  intros Hr HQ HQ' i ans σ rs _ HI Hi. unfold remove_self. destruct (decide _) as [Hin|Hin].
  2:{ exists r. by rewrite list_insert_id. }
  eexists. split; [|done]. apply Inv_wait; [done..|]. intros st Hw. exists (<[i := SIdle]> st).
  assert (Hel : forall w, w ∈ w_elem <$> filter (fun w => w_elem w <> i) (wait σ) <->
                  w ∈ w_elem <$> wait σ /\ w <> i).
  { intros w. rewrite !list_elem_of_fmap. split.
    - intros (x & -> & [Hx Hx']%list_elem_of_filter). eauto.
    - intros [(x & -> & Hx) Hne]. exists x. by rewrite list_elem_of_filter. }
  assert (Hq : st i = SQueued) by (by apply (wt_queued _ _ _ _ Hw)).
  eapply wait_leave; [exact Hw|by rewrite (share_lookup waits _ _ _ Hi), Hr|congruence| |done|].
  - assert (Hnd := wt_nodup _ _ _ _ Hw). clear -Hnd. induction (wait σ) as [|x l IH]; [done|].
    cbn in Hnd. apply NoDup_cons in Hnd as [Hx Hnd]. rewrite filter_cons. destruct (decide _); [|by apply IH].
    cbn. apply NoDup_cons. split; [|by apply IH]. intros (y & Hy & [_ Hy']%list_elem_of_filter)%list_elem_of_fmap.
    apply Hx. rewrite Hy. by apply list_elem_of_fmap_2.
  - symmetry. apply delete_id. destruct (inbox σ !! i) eqn:E; [|done].
    assert (st i = SMailed) by (apply (wt_mailed _ _ _ _ Hw); eauto). congruence.
Qed.

Lemma awp_take_waiter x b r (Q : option nat -> share -> Prop) :
  waits r = (b, None) -> Q None r -> (forall w, Q (Some w) (set_ctl (with_waits b (Some w) (r_ctl r)) r)) ->
  awp (take_waiter x) r Q.
Proof.
  intros Hr HQ HQ' i ans σ rs _ HI Hi. unfold take_waiter.
  destruct (choose_waiter x (wait σ)) as [[w l]|] eqn:E; [|exists r; by rewrite list_insert_id].
  eexists. split; [|apply HQ']. apply Inv_wait; [done..|]. intros st Hw. eexists.
  eapply wait_claim; [done|by rewrite (share_lookup waits _ _ _ Hi), Hr|]. by eapply choose_waiter_elems.
Qed.

Lemma awp_await_received w r (Q : unit -> share -> Prop) : Q tt r -> awp (await_received w) r Q.
Proof.
  intros HQ i ans σ rs _ HI Hi. unfold await_received. destruct (inbox σ !! w); [done|].
  exists r. by rewrite list_insert_id.
Qed.

(** The share after the connection went to the waiter. *)
Lemma awp_offer w p c b r (Q : unit -> share -> Prop) :
  waits r = (b, Some w) -> mine p c r -> returnable c -> r_borrowed r < r_slots r ->
  Q tt (set_ctl (with_waits b None (r_ctl r)) (give p r)) -> awp (offer w p) r Q.
Proof.
  intros Hr [Hp Hh] Hret Hlt HQ i ans σ rs _ HI0 Hi. eexists. split; [|done].
  pose proof (Inv_slots M _ _ _ _ HI0 Hi) as (S1 & S2 & S3). pose proof HI0 as (wh & st & HI).
  pose proof (own_not_idle M _ _ _ _ _ _ _ _ HI Hi Hp) as (Hni & Hhp & Hwp).
  pose proof HI as [Hc HP Hl Hw Hcl Hct Hs].
  destruct (wait_mail _ _ _ _ i b w p Hw) as [Hn Hw']; [by rewrite (share_lookup waits _ _ _ Hi), Hr|].
  exists (<[p := PMail w]> wh), (<[w := SMailed]> st). split; frame Hi; cbn [inbox set_inbox].
  - rewrite list_fmap_insert. change (live_idle (set_inbox σ (<[w:=p]> (inbox σ)))) with (live_idle σ).
    rewrite map_size_insert_None by done. pose proof (wrap64_requested M _ _ _ _ Hc) as [Hwr Hwr2].
    pose proof (cnt_nonneg _ _ _ _ _ Hc) as [Hn1 Hn2].
    eapply (cnt_move M); [exact Hc|by apply share_lookup|..]; cbn [fst snd counts r_slots r_borrowed r_requested r_lent give set_ctl ints set_inbox];
      rewrite ?Z.sub_diag; try done; lia.
  - rewrite list_fmap_insert. cbn. eapply place_loss; [done|by apply share_lookup|done|by apply HP| | |].
    + intros q Hq. by left.
    + intros q Hq. by left.
    + intros v q Hq. destruct (decide (v = w)) as [->|Hne].
      * rewrite lookup_insert_eq in Hq. simplify_eq. by right.
      * rewrite lookup_insert_ne in Hq by done. by left.
  - by rewrite list_fmap_insert.
  - rewrite list_fmap_insert. eapply client_owns; [done|by apply share_lookup|].
    intros q b' Hq Hx. cbn. apply (helds_lookup _ _ _ _ _ Hi) in Hq. rewrite lookup_delete_ne; [done|]. congruence.
Qed.

(** The share of the waiter that got a connection. *)
Definition received (s : option nat) (p : nat) (c : Pooled) (r : share) : share :=
  mkShare (r_slots r + 1) (r_borrowed r) (r_requested r) (r_lent r) (<[p := c]> (r_own r)) (with_waits false s (r_ctl r)).

Lemma awp_receive s r (Q : nat -> share -> Prop) :
  waits r = (true, s) ->
  (forall p c, returnable c -> c_held (r_ctl r) <> Some p -> Q p (received s p c r)) ->
  awp receive r Q.
Proof.
  intros Hr HQ i ans σ rs _ HI0 Hi. unfold receive. destruct (inbox σ !! i) as [p|] eqn:E; [|done].
  pose proof (Inv_slots M _ _ _ _ HI0 Hi) as (S1 & S2 & S3). pose proof HI0 as (wh & st & HI).
  pose proof HI as [Hc HP Hl Hw Hcl Hct Hs].
  destruct (pl_mail _ _ _ _ _ _ HP i p E) as (Hwp & c & Hp & Hret).
  assert (Hni : p ∉ idle σ) by (intros Hin; destruct (pl_idle _ _ _ _ _ _ HP p Hin); congruence).
  exists (received s p c r). split.
  2:{ apply HQ; [done|]. intros Hh. destruct (held_own M _ _ _ _ _ _ _ HI Hi Hh) as [x Hx].
      destruct (own_not_idle M _ _ _ _ _ _ _ _ HI Hi Hx) as (_ & _ & ?). congruence. }
  assert (Hst : st i = SMailed) by (apply (wt_mailed _ _ _ _ Hw); eauto).
  exists (<[p := POwned i]> wh), (<[i := SIdle]> st). split; frame Hi; cbn [inbox set_inbox].
  - rewrite list_fmap_insert. change (live_idle (set_inbox σ (delete i (inbox σ)))) with (live_idle σ).
    assert (Hsz : size (inbox σ) = S (size (delete i (inbox σ)))).
    { rewrite <- (insert_delete_id _ _ _ E) at 1. by rewrite map_size_insert_None by apply lookup_delete_eq. }
    rewrite Hsz in Hc. pose proof (wrap64_requested M _ _ _ _ Hc) as [Hwr Hwr2].
    pose proof (cnt_nonneg _ _ _ _ _ Hc) as [Hn1 Hn2].
    eapply (cnt_move M); [exact Hc|by apply share_lookup|..]; cbn [fst snd counts r_slots r_borrowed r_requested r_lent received ints set_inbox];
      rewrite ?Z.sub_diag; try done; lia.
  - rewrite list_fmap_insert. cbn. eapply place_gain; [done|by apply share_lookup|done|by apply HP| | | |].
    + intros q Hq. split; [done|]. by intros ->.
    + intros q Hq. split; [done|]. intros ->. by apply Hni, clean_idle.
    + intros v q [Hne Hq]%lookup_delete_Some. split; [done|]. intros ->.
      destruct (pl_mail _ _ _ _ _ _ HP v p Hq) as [Hwq _]. congruence.
    + intros j Hj. congruence.
  - rewrite list_fmap_insert. cbn. eapply wait_leave; [exact Hw|by rewrite (share_lookup waits _ _ _ Hi), Hr|congruence| | |done].
    + apply (wt_nodup _ _ _ _ Hw).
    + intros w. split; [|by intros [? _]]. intros Hw'. split; [done|]. intros ->.
      apply (wt_queued _ _ _ _ Hw) in Hw'. congruence.
  - rewrite list_fmap_insert. eapply client_owns; [done|by apply share_lookup|].
    intros q b' _ Hx. cbn. apply lookup_insert_is_Some'. by right.
Qed.

Lemma awp_select_wait ch s r (Q : selected -> share -> Prop) :
  waits r = (true, s) -> Q SelClosed r -> Q SelCtx r ->
  (forall p c, returnable c -> c_held (r_ctl r) <> Some p -> Q (SelConn p) (received s p c r)) ->
  awp (select_wait ch) r Q.
Proof.
  intros Hr HQ1 HQ2 HQ3 i ans σ rs Ha HI Hi. unfold select_wait.
  destruct (a_sel ans) as [|[|n]].
  - destruct (bool_decide _); [|done]. exists r. by rewrite list_insert_id.
  - exists r. by rewrite list_insert_id.
  - pose proof (awp_receive s r (fun p => Q (SelConn p)) Hr HQ3 i ans σ rs Ha HI Hi) as H.
    by destruct (receive i ans σ).
Qed.

(** ** The close channel and the capacity lock *)

Lemma Inv_close σ rs i r m cl chs b ch :
  Inv σ rs -> rs !! i = Some r ->
  (close_inv (capacityMu σ) (close_ σ) (chans σ) (mus <$> rs) ->
   close_inv m cl chs (<[i := (b, ch)]> (mus <$> rs))) ->
  (open_ok (close_ σ) (opens <$> rs) -> open_ok cl (opens <$> rs)) ->
  Inv (set_close (set_capacityMu σ m) cl chs) (<[i := set_ctl (with_mus b ch (r_ctl r)) r]> rs).
Proof.
  intros (wh & st & [Hc HP Hl Hw Hcl Hct [Hs Ho]]) Hi Hcl' Ho'. exists wh, st. split; frame Hi.
  - rewrite list_fmap_insert. by apply Hcl'.
  - split; [done|by apply Ho'].
Qed.

Lemma mus_lookup (rs : list share) (i : nat) r x : rs !! i = Some r -> mus r = x -> (mus <$> rs) !! i = Some x.
Proof. intros Hi <-. by apply share_lookup. Qed.

Lemma awp_LockCapacity r (Q : unit -> share -> Prop) :
  mus r = (false, None) -> Q tt (set_ctl (with_mus true None (r_ctl r)) r) -> awp LockCapacity r Q.
Proof.
  intros Hr HQ i ans σ rs _ HI Hi. unfold LockCapacity. destruct (capacityMu σ) eqn:E; [done|].
  eexists. split; [|done].
  apply (Inv_close σ rs i r (Some i) (close_ σ) (chans σ)); [done..| |done].
  pose proof (mus_lookup rs i r _ Hi Hr) as Hm. pose proof (lookup_lt_Some _ _ _ Hm) as Hlt.
  rewrite E. intros [C1 C2 C3 C4]. split; [| |done|].
  - intros j c Hj. apply list_lookup_insert_Some in Hj as [(<- & _)|[_ Hj]]; [done|]. by apply C1 in Hj.
  - intros j b ch x Hj. apply list_lookup_insert_Some in Hj as [(<- & [=] & _)|[_ Hj]]. by eapply C2.
  - intros ch H1 H2. destruct (C4 ch H1 H2) as [j Hj]. by apply C1 in Hj.
Qed.

Lemma awp_UnlockCapacity ch r (Q : unit -> share -> Prop) :
  mus r = (true, ch) -> (forall c, ch = Some (c, true) -> False) ->
  Q tt (set_ctl (with_mus false None (r_ctl r)) r) -> awp UnlockCapacity r Q.
Proof.
  intros Hr Hch HQ i ans σ rs _ HI Hi. eexists. split; [|done].
  apply (Inv_close σ rs i r None (close_ σ) (chans σ)); [done..| |done].
  pose proof (mus_lookup rs i r _ Hi Hr) as Hm. pose proof (lookup_lt_Some _ _ _ Hm) as Hlt.
  intros [C1 C2 C3 C4]. assert (Hmu := C1 i ch Hm). split; [| |done|].
  - intros j c Hj. apply list_lookup_insert_Some in Hj as [(<- & [=] & _)|[Hne Hj]]. apply C1 in Hj. congruence.
  - intros j b c x Hj. apply list_lookup_insert_Some in Hj as [(<- & [=] & _)|[_ Hj]]. by eapply C2.
  - intros c H1 H2. destruct (C4 c H1 H2) as [j Hj]. pose proof (C1 j _ Hj) as Hj'.
    assert (j = i) as -> by congruence. rewrite Hm in Hj. injection Hj as ->. by edestruct Hch.
Qed.

(** Under the lock, a loaded channel is open and stays the pool's. *)
Lemma awp_LoadClose r (Q : option nat -> share -> Prop) :
  mus r = (true, None) -> Q None r ->
  (forall ch, Q (Some ch) (set_ctl (with_mus true (Some (ch, false)) (r_ctl r)) r)) -> awp LoadClose r Q.
Proof.
  intros Hr HQ HQ' i ans σ rs _ HI Hi. unfold LoadClose, pure. destruct (close_ σ) as [ch|] eqn:E.
  2:{ exists r. by rewrite list_insert_id. }
  eexists. split; [|apply HQ'].
  pose proof (mus_lookup rs i r _ Hi Hr) as Hm. pose proof (lookup_lt_Some _ _ _ Hm) as Hlt.
  replace σ with (set_close (set_capacityMu σ (capacityMu σ)) (close_ σ) (chans σ)) at 1 by (by destruct σ).
  apply Inv_close; [done..| |done]. intros [C1 C2 C3 C4]. assert (Hmu := C1 i None Hm). split; [| |done|].
  - intros j c Hj. apply list_lookup_insert_Some in Hj as [(<- & _)|[Hne Hj]]; [done|]. by eapply C1.
  - intros j b c x Hj. apply list_lookup_insert_Some in Hj as [(<- & [= <- <- <-] & _)|[_ Hj]]; [|by eapply C2].
    split_and!; [done|done|]. destruct (chans σ !! ch) as [[]|] eqn:Ec; [|done|].
    + destruct (C4 ch E Ec) as [j Hj]. pose proof (C1 j _ Hj). assert (j = i) as -> by congruence. congruence.
    + apply lookup_ge_None in Ec. pose proof (C3 ch E). lia.
  - intros c H1 H2. destruct (C4 c H1 H2) as [j Hj]. exists j. rewrite list_lookup_insert_ne; [done|].
    intros <-. congruence.
Qed.

Lemma awp_LoadClose_any r Q : (forall o, Q o r) -> awp LoadClose r Q.
Proof. intros HQ. apply awp_pure. eauto. Qed.

Lemma awp_close_chan ch r (Q : unit -> share -> Prop) :
  mus r = (true, Some (ch, false)) -> Q tt (set_ctl (with_mus true (Some (ch, true)) (r_ctl r)) r) ->
  awp (close_chan ch) r Q.
Proof.
  intros Hr HQ i ans σ rs _ HI Hi. pose proof (mus_lookup rs i r _ Hi Hr) as Hm.
  pose proof (lookup_lt_Some _ _ _ Hm) as Hlt. unfold close_chan.
  assert (Hch : close_ σ = Some ch /\ chans σ !! ch = Some false).
  { destruct HI as (wh & st & HI). destruct (inv_close _ _ _ _ _ HI) as [_ C2 _ _].
    by destruct (C2 i true ch false Hm). }
  destruct Hch as [Hcl Hch]. rewrite Hch. eexists. split; [|done].
  replace (set_close σ (close_ σ) (<[ch:=true]> (chans σ)))
    with (set_close (set_capacityMu σ (capacityMu σ)) (close_ σ) (<[ch:=true]> (chans σ))) by done.
  pose proof (lookup_lt_Some _ _ _ Hch) as Hl.
  apply Inv_close; [done..| |done]. intros [C1 C2 C3 C4]. assert (Hmu := C1 i _ Hm). split.
  - intros j c Hj. apply list_lookup_insert_Some in Hj as [(<- & _)|[Hne Hj]]; [done|]. by eapply C1.
  - intros j b c x Hj. apply list_lookup_insert_Some in Hj as [(<- & [= <- <- <-] & _)|[Hne Hj]].
    + split_and!; [done|done|by apply list_lookup_insert_eq].
    + destruct (C2 j b c x Hj) as (-> & _ & _). pose proof (C1 j _ Hj). congruence.
  - intros c Hc. rewrite length_insert. by apply C3.
  - intros c H1 H2. exists i. rewrite list_lookup_insert_eq by done. congruence.
Qed.

Lemma awp_clear_close ch r (Q : unit -> share -> Prop) :
  mus r = (true, Some ch) -> Q tt (set_ctl (with_mus true None (r_ctl r)) r) -> awp clear_close r Q.
Proof.
  intros Hr HQ i ans σ rs _ HI Hi. pose proof (mus_lookup rs i r _ Hi Hr) as Hm.
  pose proof (lookup_lt_Some _ _ _ Hm) as Hlt. eexists. split; [|done].
  replace (set_close σ None (chans σ))
    with (set_close (set_capacityMu σ (capacityMu σ)) None (chans σ)) by done.
  apply Inv_close; [done..| |]. 
  - intros [C1 C2 C3 C4]. assert (Hmu := C1 i _ Hm). split; [| |done|done].
    + intros j c Hj. apply list_lookup_insert_Some in Hj as [(<- & _)|[Hne Hj]]; [done|]. by eapply C1.
    + intros j b c x Hj. apply list_lookup_insert_Some in Hj as [(<- & [=] & _)|[Hne Hj]].
      destruct (C2 j b c x Hj) as (-> & _ & _). pose proof (C1 j _ Hj). congruence.
  - intros Ho j Hj. by destruct (Ho j Hj).
Qed.

Lemma awp_open_chan r (Q : option nat -> share -> Prop) :
  opens r = true -> (forall ch, Q (Some ch) (set_ctl (with_opened (r_ctl r)) r)) -> awp open_chan r Q.
Proof.
  intros Hr HQ i ans σ rs _ (wh & st & [Hc HP Hl Hw Hcl Hct [Hs Ho]]) Hi.
  destruct (Ho i) as [-> Hn]; [by rewrite (share_lookup opens _ _ _ Hi), Hr|].
  unfold open_chan. rewrite Hn. eexists. split; [|apply HQ]. exists wh, st. split; frame Hi.
  - destruct Hcl as [C1 C2 C3 C4]. cbn. split; [done| | |].
    + intros j b c x Hj. destruct (C2 j b c x Hj) as (_ & ? & _). congruence.
    + intros ch [= <-]. rewrite length_app. cbn. lia.
    + intros ch [= <-]. rewrite lookup_app_r, Nat.sub_diag by done. done.
  - split; [done|]. rewrite list_fmap_insert. intros j Hj.
    apply list_lookup_insert_Some in Hj as [(_ & [=] & _)|[Hne Hj]]. by destruct (Ho j Hj) as [-> _].
Qed.

(** ** The workers' count, the scrub context and publication *)

Lemma Inv_workers σ rs x : Inv σ rs -> Inv (set_workers σ x) rs.
Proof. intros (wh & st & []). exists wh, st. by split. Qed.

Lemma awp_wg_add r (Q : unit -> share -> Prop) : Q tt r -> awp wg_add r Q.
Proof. intros HQ i ans σ rs _ HI Hi. exists r. rewrite list_insert_id by done. split; [by apply Inv_workers|done]. Qed.

Lemma awp_wg_done r (Q : unit -> share -> Prop) : Q tt r -> awp wg_done r Q.
Proof. intros HQ i ans σ rs _ HI Hi. exists r. rewrite list_insert_id by done. split; [by apply Inv_workers|done]. Qed.

Lemma awp_wg_wait r (Q : unit -> share -> Prop) : Q tt r -> awp wg_wait r Q.
Proof.
  intros HQ i ans σ rs _ HI Hi. unfold wg_wait. destruct (workers σ =? 0); [|done].
  exists r. by rewrite list_insert_id.
Qed.

Lemma awp_next_pass r (Q : unit -> share -> Prop) : Q tt r -> awp next_pass r Q.
Proof.
  intros HQ i ans σ rs _ (wh & st & []) Hi. exists r. rewrite list_insert_id by done.
  split; [|done]. exists wh, st. by split.
Qed.

Lemma Inv_scrubCancel σ rs b : Inv σ rs -> Inv (set_scrubCancel σ (Some b)) rs.
Proof.
  intros (wh & st & [Hc HP Hl Hw Hcl Hct Hs]). exists wh, st. split; try done.
  destruct Hct as [T1 T2 T3 T4 T5]. by split.
Qed.

(** Knowing the scrub context exists, from any state where it does. *)
Lemma Inv_know σ rs i r : Inv σ rs -> rs !! i = Some r -> scrubCancel σ <> None ->
  Inv σ (<[i := set_ctl (with_pub (r_ctl r)) r]> rs).
Proof.
  intros (wh & st & [Hc HP Hl Hw Hcl Hct Hs]) Hi Hsc. pose proof (lookup_lt_Some _ _ _ Hi) as Hlt.
  exists wh, st. split; frame Hi. destruct Hct as [T1 T2 T3 T4 T5].
  rewrite (share_fmap r_own _ _ _ _ Hi) by reflexivity. rewrite list_fmap_insert. split; try done.
  - intros j. rewrite T1. destruct (decide (i = j)) as [<-|Hne].
    + rewrite list_lookup_insert_eq by (by rewrite length_fmap). by rewrite (share_lookup helds _ _ _ Hi).
    + by rewrite list_lookup_insert_ne.
  - intros j p b Hj. apply list_lookup_insert_Some in Hj as [(<- & [= Hp <-] & _)|[_ Hj]]; [|by eapply T2].
    eapply T2. rewrite (share_lookup helds _ _ _ Hi). unfold helds. by rewrite Hp.
Qed.

Lemma awp_make_scrubCtx r (Q : unit -> share -> Prop) :
  Q tt (set_ctl (with_pub (r_ctl r)) r) -> awp make_scrubCtx r Q.
Proof.
  intros HQ i ans σ rs _ HI Hi. eexists. split; [|done].
  apply Inv_know; [by apply Inv_scrubCancel|done|done].
Qed.

Lemma awp_call_scrubCancel r (Q : unit -> share -> Prop) :
  c_pub (r_ctl r) = true -> Q tt r -> awp call_scrubCancel r Q.
Proof.
  intros Hr HQ i ans σ rs _ HI Hi. unfold call_scrubCancel. destruct (scrubCancel σ) eqn:E.
  - exists r. rewrite list_insert_id by done. split; [by apply Inv_scrubCancel|done].
  - destruct HI as (wh & st & HI). destruct (inv_client _ _ _ _ _ HI) as [_ _ T3 _ _].
    eapply (T3 i (c_held (r_ctl r))); [|done].
    rewrite (share_lookup helds _ _ _ Hi). unfold helds. by rewrite Hr.
Qed.

Lemma awp_publish r (Q : unit -> share -> Prop) : c_pub (r_ctl r) = true -> Q tt r -> awp publish r Q.
Proof.
  intros Hr HQ i ans σ rs _ (wh & st & [Hc HP Hl Hw Hcl Hct Hs]) Hi. exists r.
  rewrite list_insert_id by done. split; [|done]. exists wh, st. split; try done.
  destruct Hct as [T1 T2 T3 T4 T5]. split; try done. intros _. eapply (T3 i (c_held (r_ctl r))).
  rewrite (share_lookup helds _ _ _ Hi). unfold helds. by rewrite Hr.
Qed.

Lemma awp_await_published r (Q : unit -> share -> Prop) :
  Q tt (set_ctl (with_pub (r_ctl r)) r) -> awp await_published r Q.
Proof.
  intros HQ i ans σ rs _ HI Hi. unfold await_published. destruct (published σ) eqn:E; [|done].
  eexists. split; [|done]. apply Inv_know; [done..|]. destruct HI as (wh & st & HI).
  by apply (ct_cancel _ _ _ _ _ _ (inv_client _ _ _ _ _ HI)).
Qed.

(** ** Clients *)

Lemma Inv_held σ rs i r hd sv h :
  Inv σ rs -> rs !! i = Some r ->
  (forall j, hd !! j = if decide (j = i) then h else held σ !! j) ->
  (forall p, h = Some p -> is_Some (r_own r !! p)) -> Forall service_ok sv ->
  Inv (set_held σ hd sv) (<[i := set_ctl (with_held h (r_ctl r)) r]> rs).
Proof.
  intros (wh & st & [Hc HP Hl Hw Hcl Hct Hs]) Hi Hhd Hh Hsv. pose proof (lookup_lt_Some _ _ _ Hi) as Hlt.
  exists wh, st. split; frame Hi. destruct Hct as [T1 T2 T3 T4 T5]. cbn.
  rewrite (share_fmap r_own _ _ _ _ Hi) by reflexivity. rewrite list_fmap_insert. split; try done.
  - intros j. rewrite Hhd. destruct (decide (j = i)) as [->|Hne].
    + by rewrite list_lookup_insert_eq by (by rewrite length_fmap).
    + by rewrite list_lookup_insert_ne.
  - intros j p b Hj. apply list_lookup_insert_Some in Hj as [(<- & [= Hp <-] & _)|[_ Hj]]; [|by eapply T2].
    exists (r_own r). split; [by apply share_lookup|by apply Hh].
  - intros j x Hj. apply list_lookup_insert_Some in Hj as [(<- & [= _ Hp] & _)|[_ Hj]]; [|by eapply T3].
    eapply (T3 i (c_held (r_ctl r))). rewrite (share_lookup helds _ _ _ Hi). unfold helds. by rewrite Hp.
Qed.

Lemma awp_hold want p c r (Q : unit -> share -> Prop) :
  r_own r !! p = Some c -> lendable c -> fits want c ->
  Q tt (set_ctl (with_held (Some p) (r_ctl r)) r) -> awp (hold want p) r Q.
Proof.
  intros Hp Hl Hf HQ i ans σ rs _ HI Hi. pose proof HI as (wh & st & HG).
  destruct (own_not_idle M _ _ _ _ _ _ _ _ HG Hi Hp) as (_ & Hh & _). unfold hold. rewrite Hh.
  eexists. split; [|done]. apply Inv_held; [done..| | |].
  - intros j. destruct (decide (j = i)) as [->|Hne]; [by rewrite lookup_insert_eq|by rewrite lookup_insert_ne].
  - intros q [= <-]. eauto.
  - constructor; [by split|]. by apply (ct_served _ _ _ _ _ _ (inv_client _ _ _ _ _ HG)).
Qed.

Lemma awp_release r (Q : unit -> share -> Prop) :
  Q tt (set_ctl (with_held None (r_ctl r)) r) -> awp release r Q.
Proof.
  intros HQ i ans σ rs _ HI Hi. pose proof HI as (wh & st & HG). eexists. split; [|done].
  apply Inv_held; [done..| |done|].
  - intros j. destruct (decide (j = i)) as [->|Hne]; [by rewrite lookup_delete_eq|by rewrite lookup_delete_ne].
  - by apply (ct_served _ _ _ _ _ _ (inv_client _ _ _ _ _ HG)).
Qed.
End Sync.
