(* ===== verification/ConnSpecs.v ===== *)
(** What each operation of the connection pool does to the share of the goroutine
    that runs it. *)

From stdpp Require Import functions base gmap numbers list strings.
From S2P Require Import Prelude ConnPool ConnScrub ConnMachine ConnLogic ConnRules ConnSync.

Local Open Scope Z_scope.
Local Open Scope pool_scope.

#[local] Arguments ConnLogic.wp : simpl never.
#[local] Arguments bind : simpl never.

(** The share moved by these counts; the engagements are the same and the
    connection the client holds is untouched. *)
Definition moved (ds db dq dl : Z) (r r' : share) : Prop :=
  r_slots r' = r_slots r + ds /\ r_borrowed r' = r_borrowed r + db /\
  (r_requested r' = r_requested r + dq /\ r_lent r' = r_lent r + dl) /\
  r_ctl r' = r_ctl r /\ (forall q, c_held (r_ctl r) = Some q -> r_own r' !! q = r_own r !! q).

(** Free to wait, to hand over and to lock a stack. *)
Definition free (r : share) : Prop := locks r = None /\ waits r = (false, None).

Lemma moved_refl ds db dq dl r : ds = 0 -> db = 0 -> dq = 0 -> dl = 0 -> moved ds db dq dl r r.
Proof. intros -> -> -> ->. unfold moved. split_and!; (lia || done). Qed.

Lemma moved_back a b c d m r' x y z w r :
  moved a b c d m r' -> moved (x - a) (y - b) (z - c) (w - d) r m -> moved x y z w r r'.
Proof.
  intros (A1 & A2 & A3 & A4 & A5) (B1 & B2 & B3 & B4 & B5). unfold moved. split_and!; try lia; [congruence|].
  intros q Hq. rewrite A5 by congruence. by apply B5.
Qed.

Lemma moved_slots n x y z w r m : moved (x - n) y z w r m -> moved x y z w r (add_slots n m).
Proof. intros (? & ? & ? & ? & ?). unfold moved. cbn. split_and!; (lia || done). Qed.

Lemma moved_borrowed n x y z w r m : moved x (y - n) z w r m -> moved x y z w r (add_borrowed n m).
Proof. intros (? & ? & ? & ? & ?). unfold moved. cbn. split_and!; (lia || done). Qed.

Lemma moved_requested n x y z w r m : moved x y (z - n) w r m -> moved x y z w r (add_requested n m).
Proof. intros (? & ? & ? & ? & ?). unfold moved. cbn. split_and!; (lia || done). Qed.

Lemma moved_lent n x y z w r m : moved x y z (w - n) r m -> moved x y z w r (add_lent n m).
Proof. intros (? & ? & ? & ? & ?). unfold moved. cbn. split_and!; (lia || done). Qed.

Lemma moved_own p c x y z w r m : c_held (r_ctl m) <> Some p -> moved x y z w r m ->
  moved x y z w r (set_own (<[p := c]> (r_own m)) m).
Proof.
  intros Hp (? & ? & [? ?] & Hc & Ho). unfold moved. cbn. split_and!; try done. intros q Hq.
  rewrite lookup_insert_ne by (intros ->; congruence). by apply Ho.
Qed.

Lemma moved_gain p c x y z w r m : c_held (r_ctl m) <> Some p ->
  moved (x - if timeUsed c =? timestampExpired then 0 else 1) y z w r m -> moved x y z w r (gain p c m).
Proof.
  intros Hp (? & ? & ? & Hc & Ho). unfold moved. cbn. split_and!; try (lia || done). intros q Hq.
  rewrite lookup_insert_ne by (intros ->; congruence). by apply Ho.
Qed.

Lemma moved_give p x y z w r m : c_held (r_ctl m) <> Some p -> moved (x + 1) y z w r m -> moved x y z w r (give p m).
Proof.
  intros Hp (? & ? & ? & Hc & Ho). unfold moved. cbn. split_and!; try (lia || done). intros q Hq.
  rewrite lookup_delete_ne by (intros ->; congruence). by apply Ho.
Qed.

(** Walks back from the target share to the source. *)
Ltac mv :=
  lazymatch goal with
  | |- moved _ _ _ _ ?r ?r => apply moved_refl; lia
  | H : moved _ _ _ _ _ ?r' |- moved _ _ _ _ _ ?r' => eapply (moved_back _ _ _ _ _ _ _ _ _ _ _ H); mv
  | |- moved _ _ _ _ _ (add_slots _ _) => apply moved_slots; mv
  | |- moved _ _ _ _ _ (add_borrowed _ _) => apply moved_borrowed; mv
  | |- moved _ _ _ _ _ (add_requested _ _) => apply moved_requested; mv
  | |- moved _ _ _ _ _ (add_lent _ _) => apply moved_lent; mv
  | |- moved _ _ _ _ _ (set_own _ _) => apply moved_own; [assumption|mv]
  | |- moved _ _ _ _ _ (give _ _) => apply moved_give; [assumption|mv]
  | _ => idtac
  end.

Lemma moved_free ds db dq dl r r' : moved ds db dq dl r r' -> free r -> free r'.
Proof. intros (_ & _ & _ & Hc & _) [H1 H2]. unfold free, locks, waits in *. by rewrite Hc. Qed.

Lemma moved_held ds db dq dl r r' p : moved ds db dq dl r r' -> c_held (r_ctl r) <> Some p -> c_held (r_ctl r') <> Some p.
Proof. intros (_ & _ & _ & Hc & _). by rewrite Hc. Qed.

#[export] Hint Resolve moved_free moved_held : multigres.

(** A connection with no settings. *)
Definition bare (c : Pooled) : Prop := has_settings (conn_Settings (conn_Conn c)) = false.

Lemma mine_own p c c' r : mine p c r -> mine p c' (set_own (<[p := c']> (r_own r)) r).
Proof. intros [_ Hh]. split; [apply lookup_insert_eq|done]. Qed.

Section Specs.
Context (M : Z) (HM : 0 <= M <= int64_max).
Notation awp := (awp M).
Notation wp := (wp M).

Ltac wpb := apply wp_bind.
Ltac wpa := apply wp_bind, wp_act.

Lemma wp_ret {A : Set} (a : A) r (Q : A -> share -> Prop) : Q a r -> wp (Ret a) r Q.
Proof. done. Qed.

(** The counts of a share, when an action needs them. *)
Lemma awp_counts {B : Set} (f : action B) r Q :
  (0 <= r_borrowed r <= r_slots r -> awp f r Q) -> awp f r Q.
Proof.
  intros Hf i ans σ rs Ha HI Hi. pose proof (Inv_slots M _ _ _ _ HI Hi) as (H1 & _ & _). by apply (Hf H1).
Qed.

(** ** The environment *)

Definition clock_ok (t : Z) : Prop := timestampBusy < t < timestampExpired.

Lemma clock_stamp t : clock_ok t -> t <> timestampExpired /\ t <> timestampBusy.
Proof. unfold clock_ok. lia. Qed.

Lemma awp_monotonicNow r (Q : Z -> share -> Prop) : (forall t, clock_ok t -> Q t r) -> awp monotonicNow r Q.
Proof. intros HQ. apply awp_pure. intros i ans σ rs Ha _ _. by apply HQ, ans_clock. Qed.

Lemma awp_connect r (Q : option drv_error * Conn -> share -> Prop) :
  (forall e x, (e = None -> conn_IsClosed x = false /\ has_settings (conn_Settings x) = false) -> Q (e, x) r) ->
  awp connect r Q.
Proof.
  intros HQ. apply awp_pure. intros i ans σ rs Ha _ _. pose proof (ans_dial ans Ha) as Hd.
  destruct (a_err ans); by apply HQ.
Qed.

Lemma awp_ctxErr r Q : (forall b, Q b r) -> awp ctxErr r Q.
Proof. intros HQ. apply awp_pure. eauto. Qed.

Lemma awp_Uint32N r Q : (forall b, Q b r) -> awp Uint32N r Q.
Proof. intros HQ. apply awp_pure. eauto. Qed.

Lemma awp_waiting r Q : (forall n, Q n r) -> awp waiting r Q.
Proof. intros HQ. apply awp_pure. eauto. Qed.

(** ** Small operations *)

Lemma wp_conn_settings p c r (Q : option Settings -> share -> Prop) :
  r_own r !! p = Some c -> dialed c -> Q (conn_Settings (conn_Conn c)) r -> wp (conn_settings p) r Q.
Proof. intros Hp Hd HQ. wpa. by eapply awp_deref_Conn. Qed.

Lemma wp_Close_conn p c r (Q : unit -> share -> Prop) :
  mine p c r -> dialed c ->
  (forall r', moved 0 0 0 0 r r' -> mine p (close_Conn c) r' -> Q tt r') -> wp (Close_conn p) r Q.
Proof.
  intros [Hp Hh] Hd HQ. eapply wp_act, awp_assign_Conn; [done|done|]. apply HQ; [mv|]. by apply mine_own with c.
Qed.

Lemma wp_closedConn r (Q : unit -> share -> Prop) :
  r_borrowed r < r_slots r -> (forall r', moved (-1) 0 0 0 r r' -> Q tt r') -> wp closedConn r Q.
Proof. intros Hlt HQ. wpa. apply awp_closed; [done..|]. intros v. apply HQ. mv. Qed.

Lemma wp_set_used p c t r (Q : unit -> share -> Prop) :
  mine p c r -> (forall r', moved 0 0 0 0 r r' -> mine p (set_timeUsed t c) r' -> Q tt r') -> wp (set_used p t) r Q.
Proof.
  intros [Hp Hh] HQ. eapply wp_act, awp_assign; [done|]. apply HQ; [mv|]. by apply mine_own with c.
Qed.

Lemma wp_update p c r (Q : unit -> share -> Prop) :
  mine p c r -> (forall t r', clock_ok t -> moved 0 0 0 0 r r' -> mine p (set_timeUsed t c) r' -> Q tt r') ->
  wp (update p) r Q.
Proof. intros Hm HQ. wpa. apply awp_monotonicNow. intros t Ht. eapply wp_set_used; [done|]. eauto. Qed.

Lemma wp_borrow p c r (Q : bool -> share -> Prop) :
  mine p c r -> timeUsed c <> timestampBusy -> (timeUsed c = timestampExpired -> Q false r) ->
  (timeUsed c <> timestampExpired ->
   forall r', moved 0 0 0 0 r r' -> mine p (set_timeUsed timestampBusy c) r' -> Q true r') ->
  wp (borrow p) r Q.
Proof.
  intros [Hp Hh] Hb HQ HQ'. wpa. eapply awp_deref; [done|]. cbn zeta.
  destruct (Z.eqb_spec (timeUsed c) timestampExpired) as [E|E]; [by apply wp_ret, HQ|].
  rewrite (proj2 (Z.eqb_neq _ _) Hb). eapply wp_act, awp_ts_cas; [done|].
  apply HQ'; [done|mv|]. by apply mine_own with c.
Qed.

Lemma wp_pop s r (Q : option nat -> share -> Prop) :
  valid_stack s ->
  (forall r', moved 0 0 0 0 r r' -> Q None r') ->
  (forall p c r', moved 1 0 0 0 r r' -> mine p c r' -> lendable c -> (s = Clean -> bare c) -> Q (Some p) r') ->
  wp (pop s) r Q.
Proof.
  intros Hv HQ HQ'. apply (wp_loop M (fun _ r' => moved 0 0 0 0 r r')); [mv|].
  intros _ r1 H1. wpa. apply awp_Pop; [done|by apply wp_ret, HQ|].
  intros p c Hok Hcl Hh. wpb. eapply (wp_borrow p c); [split; [apply lookup_insert_eq|done]|by destruct Hok| |].
  - intros E. apply wp_ret. apply moved_gain; [done|]. rewrite E, Z.eqb_refl. mv.
  - intros E r2 H2 Hm. apply wp_ret. eapply HQ'; [|exact Hm| |].
    + eapply (moved_back _ _ _ _ _ _ _ _ _ _ _ H2). apply moved_gain; [done|].
      rewrite (proj2 (Z.eqb_neq _ _) E). mv.
    + by destruct Hok as (_ & _ & [?|?]).
    + intros ->. by destruct (Hcl eq_refl).
Qed.

(** ** New backends *)

Lemma wp_connReopen p c now r (Q : option drv_error -> share -> Prop) :
  mine p c r -> has_pool c = true -> taintOnRecycle c = false -> clock_ok now ->
  (forall e r', moved 0 0 0 0 r r' -> Q (Some e) r') ->
  (forall c' r', moved 0 0 0 0 r r' -> mine p c' r' -> returnable c' -> bare c' -> Q None r') ->
  wp (connReopen p now) r Q.
Proof.
  intros Hm Hhp Ht Hnow HQ HQ'. pose proof Hm as [Hp Hh]. wpa. apply awp_connect. intros e x Hx. wpa.
  eapply awp_assign; [done|]. destruct e as [e|]; [apply wp_ret, HQ; mv|].
  destruct (Hx eq_refl) as [Hop Hbare]. wpb. eapply wp_conn_settings; [apply lookup_insert_eq|intros E; cbn in E; by rewrite E in Hop|]. cbn.
  rewrite Hbare. wpb. apply wp_ret. wpb. eapply wp_act, awp_assign; [apply lookup_insert_eq|].
  wpb. eapply wp_set_used; [split; [apply lookup_insert_eq|done]|]. intros r1 H1 [Hp1 Hh1].
  wpa. eapply awp_assign; [done|]. apply wp_ret. eapply HQ'; [mv|split; [apply lookup_insert_eq|done]| |done].
  split; [by split_and!|]. by apply clock_stamp.
Qed.

Lemma wp_connNew r (Q : drv_error + nat -> share -> Prop) :
  (forall e, Q (inl e) r) ->
  (forall p c r', moved 0 0 0 0 r r' -> mine p c r' -> returnable c -> bare c -> Q (inr p) r') ->
  wp connNew r Q.
Proof.
  intros HQ HQ'. wpa. apply awp_connect. intros e x Hx. destruct e as [e|]; [by apply wp_ret|].
  destruct (Hx eq_refl) as [Hop Hbare]. wpa. apply awp_monotonicNow. intros t Ht. wpa. apply awp_alloc.
  intros p Hh. apply wp_ret. eapply HQ'; [mv|split; [apply lookup_insert_eq|done]| |done].
  split; [by split_and!|]. by apply clock_stamp.
Qed.

Lemma wp_getNew r (Q : error + option nat -> share -> Prop) :
  (forall e r', moved 0 0 0 0 r r' -> Q (inl e) r') ->
  (forall r', moved 0 0 0 0 r r' -> Q (inr None) r') ->
  (forall p c r', moved 1 0 0 0 r r' -> mine p c r' -> returnable c -> bare c -> Q (inr (Some p)) r') ->
  wp getNew r Q.
Proof.
  intros HQ1 HQ2 HQ3. apply (wp_loop M (fun _ r' => moved 0 0 0 0 r r')); [mv|].
  intros _ r1 H1. wpa. apply awp_load. intros open. wpa. apply awp_load_capacity. intros cap Hcap.
  destruct (Z.leb_spec cap open); [by apply wp_ret, HQ2|]. wpa. apply awp_counts. intros Hb.
  apply awp_cas_open; [lia|by apply wp_ret|]. wpb. apply wp_connNew.
  - intros e. wpb. apply wp_closedConn; [cbn; lia|]. intros r2 H2. apply wp_ret. cbn. apply HQ1. mv.
  - intros p c r2 H2 Hm Hr Hc. apply wp_ret. eapply HQ3; [mv|done..].
Qed.

Lemma valid_state_stack b : valid_stack (state_stack b).
Proof.
  intros k [= <-]. change stackMask with (Z.ones 3). rewrite Z.land_ones by lia.
  pose proof (Z.mod_pos_bound b (2 ^ 3) ltac:(lia)). lia.
Qed.

Lemma wp_getFromSettingsStack s r (Q : option nat -> share -> Prop) :
  (forall r', moved 0 0 0 0 r r' -> Q None r') ->
  (forall p c r', moved 1 0 0 0 r r' -> mine p c r' -> lendable c -> Q (Some p) r') ->
  wp (getFromSettingsStack s) r Q.
Proof.
  intros HQ HQ'. wpb.
  assert (Hgo : forall start, wp (loop 0 (fun i : Z =>
    if i <=? stackMask then
      let! conn := pop (state_stack (i + start)) in
      match conn with Some p => break (Some p) | None => continue (i + 1) end
    else break None)) r Q).
  { intros start. apply (wp_loop M (fun _ r' => moved 0 0 0 0 r r')); [mv|]. intros i r1 H1.
    destruct (i <=? stackMask); [|by apply wp_ret, HQ]. wpb. apply wp_pop; [apply valid_state_stack| |].
    - intros r2 H2. apply wp_ret. mv.
    - intros p c r2 H2 Hm Hl _. apply wp_ret. eapply HQ'; [mv|done..]. }
  destruct s; [apply wp_ret, Hgo|]. apply wp_act, awp_load. intros v. apply Hgo.
Qed.

(** ** Giving connections back *)

(** [sent r b w]: the share while a connection is on its way to waiter [w]. *)
Lemma with_waits_back r s : waits r = (false, None) ->
  with_waits false None (with_waits false s (r_ctl r)) = r_ctl r.
Proof. intros Hw. unfold waits in Hw. destruct (r_ctl r). cbn in *. unfold with_waits. cbn. congruence. Qed.

Lemma wp_tryReturnConnSlow p c r (Q : bool -> share -> Prop) :
  free r -> mine p c r -> returnable c -> r_borrowed r < r_slots r ->
  (forall r', moved 0 0 0 0 r r' -> mine p c r' -> Q false r') -> (forall r', moved (-1) 0 0 0 r r' -> Q true r') ->
  wp (tryReturnConnSlow p) r Q.
Proof.
  intros [Hlk Hw] Hm Hr Hlt HQ HQ'. pose proof Hm as [Hp Hh]. wpb.
  eapply wp_conn_settings; [done|by apply lendable_dialed; destruct Hr|]. wpa.
  eapply awp_take_waiter; [done|apply wp_ret, HQ; [mv|done]|]. intros w. wpa.
  eapply awp_offer; [done|done|done|done|]. wpa. apply awp_await_received. apply wp_ret. apply HQ'.
  unfold set_ctl, give. cbn. rewrite with_waits_back by done. by apply (moved_give p); [|mv].
Qed.

Lemma wp_wait_tryReturnConn p c r (Q : bool -> share -> Prop) :
  free r -> mine p c r -> returnable c -> r_borrowed r < r_slots r ->
  (forall r', moved 0 0 0 0 r r' -> mine p c r' -> Q false r') -> (forall r', moved (-1) 0 0 0 r r' -> Q true r') ->
  wp (wait_tryReturnConn p) r Q.
Proof.
  intros Hf Hm Hr Hlt HQ HQ'. wpa. apply awp_waiting. intros n. destruct (n =? 0).
  - apply wp_ret, HQ; [mv|done].
  - by eapply wp_tryReturnConnSlow.
Qed.

Lemma wp_closeOnOverCapacity p c r (Q : bool -> share -> Prop) :
  mine p c r -> dialed c -> r_borrowed r < r_slots r ->
  (forall r', moved 0 0 0 0 r r' -> mine p c r' -> Q false r') -> (forall r', moved (-1) 0 0 0 r r' -> Q true r') ->
  wp (closeOnOverCapacity p) r Q.
Proof.
  intros Hm Hd Hlt HQ HQ'.
  apply (wp_loop M (fun _ r' => moved 0 0 0 0 r r' /\ mine p c r')); [split; [mv|done]|].
  intros _ r1 [H1 Hm1]. pose proof H1 as (E1 & E2 & _). wpa. apply awp_load. intros open.
  wpa. apply awp_load. intros cap. destruct (open <=? cap); [by apply wp_ret, HQ|].
  wpa. apply awp_cas_close; [lia|by apply wp_ret|]. wpb.
  eapply wp_Close_conn; [exact Hm1|done|]. intros r2 H2 Hm2. apply wp_ret, HQ'. mv.
Qed.

Lemma wp_closeOnIdleLimitReached p c r (Q : bool -> share -> Prop) :
  mine p c r -> dialed c -> r_borrowed r < r_slots r ->
  (forall r', moved 0 0 0 0 r r' -> mine p c r' -> Q false r') -> (forall r', moved (-1) 0 0 0 r r' -> Q true r') ->
  wp (closeOnIdleLimitReached p) r Q.
Proof.
  intros Hm Hd Hlt HQ HQ'.
  apply (wp_loop M (fun _ r' => moved 0 0 0 0 r r' /\ mine p c r')); [split; [mv|done]|].
  intros _ r1 [H1 Hm1]. pose proof H1 as (E1 & E2 & _). wpa. apply awp_load. intros open.
  wpa. apply awp_load. intros b. cbn zeta. wpa. apply awp_load. intros lim.
  destruct (_ <=? lim); [by apply wp_ret, HQ|].
  wpa. apply awp_cas_close; [lia|by apply wp_ret|].
  wpa. apply awp_add_neutral; [done|]. intros _. wpb.
  eapply wp_Close_conn; [exact Hm1|done|]. intros r2 H2 Hm2. apply wp_ret, HQ'. mv.
Qed.

Lemma wp_returnConnAt p c d r (Q : bool -> share -> Prop) :
  free r -> mine p c r -> returnable c -> r_borrowed r < r_slots r ->
  (forall b r', moved (-1) 0 0 0 r r' -> Q b r') -> wp (returnConnAt p d) r Q.
Proof.
  intros Hf Hm Hr Hlt HQ. assert (Hd : dialed c) by (by apply lendable_dialed; destruct Hr).
  wpb. eapply wp_closeOnOverCapacity; [done..| |intros r1 H1; by apply wp_ret, HQ].
  intros r1 H1 Hm1. wpb. pose proof H1 as (E1 & E2 & _).
  eapply wp_wait_tryReturnConn; [eauto with multigres|done|done|lia| |intros r2 H2; apply wp_ret, HQ; mv].
  intros r2 H2 Hm2. pose proof H2 as (F1 & F2 & _). wpb.
  eapply wp_closeOnIdleLimitReached; [done|done|lia| |intros r3 H3; apply wp_ret, HQ; mv].
  intros r3 H3 Hm3. pose proof H3 as (G1 & G2 & _). pose proof Hm3 as [Hp3 Hh3].
  wpb. eapply wp_conn_settings; [done|done|]. wpb.
  assert (Hpush : forall s, valid_stack s -> (s = Clean -> clean_ok c) ->
    wp ((if d =? 0 then act (Push s p) else act (InsertAt s p d));; Ret false) r3 Q).
  { intros s Hv Hcl. wpb. destruct (d =? 0); apply wp_act;
      [eapply awp_Push|eapply awp_InsertAt]; try done; try lia; apply wp_ret, HQ; mv. }
  destruct (has_settings (conn_Settings (conn_Conn c))) eqn:E.
  - wpa. apply awp_store; [done|]. apply wp_ret. apply Hpush; [apply valid_state_stack|done].
  - apply wp_ret. apply Hpush; [done|]. intros _. by right.
Qed.

Lemma wp_tryReturnConn p c r (Q : bool -> share -> Prop) :
  free r -> mine p c r -> returnable c -> r_borrowed r < r_slots r ->
  (forall b r', moved (-1) 0 0 0 r r' -> Q b r') -> wp (tryReturnConn p) r Q.
Proof. apply wp_returnConnAt. Qed.

Lemma wp_extendedMaxLifetime r (Q : Z -> share -> Prop) : (forall v, Q v r) -> wp extendedMaxLifetime r Q.
Proof.
  intros HQ. wpa. apply awp_load_life. intros life Hl. destruct (Z.eqb_spec life 0) as [E|E]; [by apply wp_ret|].
  cbn zeta. destruct Hl as [?|Hl]; [done|]. rewrite (proj2 (Z.eqb_neq _ _) Hl). wpa. apply awp_Uint32N.
  intros b. by apply wp_ret.
Qed.

Lemma wp_put_nil r (Q : unit -> share -> Prop) :
  free r -> 1 <= r_borrowed r -> (forall r', moved (-1) (-1) (-1) (-1) r r' -> Q tt r') -> wp (put None) r Q.
Proof.
  intros Hf Hb HQ. wpa. apply awp_counts. intros Hc. apply awp_add_borrowed; [done|lia|]. intros _.
  wpb. wpa. apply awp_add_lent. intros _. apply wp_ret. wpa. apply awp_add_requested; [done..|]. intros _. wpb. apply wp_connNew.
  - intros e. apply wp_closedConn; [cbn; lia|]. intros r1 H1. apply HQ. mv.
  - intros p c r1 H1 Hm Hr _. pose proof H1 as (E1 & E2 & _). cbn in E1, E2. wpb.
    eapply wp_tryReturnConn; [|done|done|lia|intros b r2 H2; apply wp_ret, HQ; mv].
    eapply moved_free; [exact H1|done].
Qed.

Lemma wp_put p c r (Q : unit -> share -> Prop) :
  free r -> mine p c r -> lendable c -> 1 <= r_borrowed r ->
  (forall r', moved (-1) (-1) (-1) (-1) r r' -> Q tt r') -> wp (put (Some p)) r Q.
Proof.
  intros Hf Hm Hl Hb HQ. wpa. apply awp_counts. intros Hc. apply awp_add_borrowed; [done|lia|]. intros _.
  wpb. wpa. apply awp_add_lent. intros _. apply wp_ret. wpa. apply awp_add_requested; [done..|]. intros _. wpb.
  eapply wp_update; [exact Hm|]. intros t r1 Ht H1 Hm1. pose proof H1 as (E1 & E2 & _). cbn in E1, E2.
  assert (Hf1 : free r1) by (eapply moved_free; [exact H1|done]).
  assert (Hret : returnable (set_timeUsed t c)) by (split; [done|by apply clock_stamp]).
  wpb. apply wp_extendedMaxLifetime. intros life. wpb.
  assert (Hgo : forall stale : bool, wp (if stale then
      act (Add maxLifetimeClosed 1);; Close_conn p;;
      let! c := act (deref p) in
      let! e := connReopen p (timeUsed c) in
      match e with Some _ => closedConn | None => tryReturnConn p;; Ret tt end
    else tryReturnConn p;; Ret tt) r1 Q).
  { intros [|].
    - wpa. apply awp_add_neutral; [done|]. intros _. wpb.
      eapply wp_Close_conn; [exact Hm1|exact (lendable_dialed c Hl)|].
      intros r2 H2 Hm2. pose proof Hm2 as [Hp2 _]. wpa. eapply awp_deref; [done|]. wpb.
      pose proof H2 as (F1 & F2 & _).
      eapply wp_connReopen; [exact Hm2|by destruct Hl as (? & ? & ?)..|done| |].
      + intros e r3 H3. pose proof H3 as (G1 & G2 & _). apply wp_closedConn; [lia|]. intros r4 H4. apply HQ. mv.
      + intros c' r3 H3 Hm3 Hr3 _. pose proof H3 as (G1 & G2 & _). wpb.
        eapply wp_tryReturnConn; [eauto with multigres|done|done|lia|]. intros b r4 H4. apply wp_ret, HQ. mv.
    - wpb. eapply wp_tryReturnConn; [done|done|done|lia|]. intros b r4 H4. apply wp_ret, HQ. mv. }
  destruct (0 <? life); [|apply wp_ret, (Hgo false)]. wpb. wpa. apply awp_monotonicNow. intros now _. wpa.
  destruct Hm1 as [Hp1 _]. eapply awp_deref; [done|]. apply wp_ret, wp_ret, Hgo.
Qed.

(** ** Recycling *)

Definition back_of (c : Pooled) : Z := if has_pool c then -1 else 0.

Lemma wp_recycleDiscarded p c r (Q : unit -> share -> Prop) :
  free r -> mine p c r -> 1 <= r_borrowed r ->
  (forall r', moved (-1) (-1) (-1) (-1) r r' -> Q tt r') -> wp (recycleDiscarded p) r Q.
Proof.
  intros Hf [Hp Hh] Hb HQ. wpa. eapply awp_assign; [done|]. apply wp_put_nil; [done|done|].
  intros r1 H1. apply HQ. mv.
Qed.

Lemma wp_Recycle p c r (Q : unit -> share -> Prop) :
  free r -> mine p c r -> dialed c -> (has_pool c = true -> 1 <= r_borrowed r) ->
  (forall r', moved (back_of c) (back_of c) (back_of c) (back_of c) r r' -> Q tt r') -> wp (Recycle p) r Q.
Proof.
  intros Hf Hm Hd Hb HQ. pose proof Hm as [Hp Hh]. unfold back_of in HQ. wpa. eapply awp_deref_Conn; [done|done|].
  destruct (has_pool c) eqn:E; cbn [negb].
  - destruct (conn_IsClosed (conn_Conn c)) eqn:Ec; [by eapply wp_recycleDiscarded; eauto|].
    destruct (taintOnRecycle c) eqn:Et.
    + wpb. eapply wp_Close_conn; [done|done|]. intros r1 H1 Hm1. pose proof H1 as (E1 & E2 & _).
      eapply wp_recycleDiscarded; [eauto with multigres|done|specialize (Hb eq_refl); lia|].
      intros r2 H2. apply HQ. mv.
    + eapply wp_put; [done|done|by split_and!|by apply Hb|done].
  - eapply wp_Close_conn; [done|done|]. intros r1 H1 Hm1. apply HQ. mv.
Qed.

(** [Taint] of the connection the client holds. *)
Lemma wp_Taint p c r (Q : unit -> share -> Prop) :
  free r -> r_own r !! p = Some c -> c_held (r_ctl r) = Some p -> (has_pool c = true -> 1 <= r_borrowed r) ->
  (forall c' r', r_ctl r' = r_ctl r -> r_own r' !! p = Some c' -> has_pool c' = false -> conn_Conn c' = conn_Conn c ->
     r_slots r' = r_slots r + back_of c -> r_borrowed r' = r_borrowed r + back_of c ->
     r_requested r' = r_requested r + back_of c /\ r_lent r' = r_lent r + back_of c -> Q tt r') -> wp (Taint p) r Q.
Proof.
  intros Hf Hp Hh Hb HQ. unfold back_of in HQ. wpa. eapply awp_deref; [done|].
  destruct (has_pool c) eqn:E; cbn [negb].
  - wpb. apply wp_put_nil; [done|by apply Hb|]. intros r1 (E1 & E2 & E3 & E4 & E5).
    eapply wp_act, awp_assign; [by rewrite E5|].
    eapply (HQ (set_has_pool false c)); cbn; [done|apply lookup_insert_eq|done..].
  - apply wp_ret. eapply (HQ c); (done || lia).
Qed.

Lemma valid_low_stack u : u <= stackMask -> valid_stack (States (Z.to_nat u)).
Proof. intros Hu k [= <-]. unfold stackMask in Hu. lia. Qed.

Lemma wp_tryReturnAnyConn r (Q : bool -> share -> Prop) :
  free r -> r_borrowed r <= r_slots r -> (forall b r', moved 0 0 0 0 r r' -> Q b r') -> wp tryReturnAnyConn r Q.
Proof.
  intros Hf Hs HQ.
  assert (Hret : forall p c r1 (Q' : bool -> share -> Prop), moved 1 0 0 0 r r1 -> mine p c r1 -> lendable c ->
    (forall b r', moved 0 0 0 0 r r' -> Q' b r') -> wp (update p;; tryReturnConn p) r1 Q').
  { intros p c r1 Q' H1 Hm Hl HQ'. wpb. eapply wp_update; [done|]. intros t r2 Ht H2 Hm2.
    pose proof H1 as (E1 & E2 & _). pose proof H2 as (F1 & F2 & _).
    eapply wp_tryReturnConn; [eauto with multigres|done|split; [done|by apply clock_stamp]|lia|].
    intros b r3 H3. apply HQ'. mv. }
  wpb. apply wp_pop; [done| |intros p c r1 H1 Hm Hl _; by eapply Hret].
  intros r1 H1. apply (wp_loop M (fun _ r' => moved 0 0 0 0 r r')); [mv|]. intros u r2 H2.
  destruct (Z.leb_spec u stackMask) as [Hu|Hu]; [|by apply wp_ret, HQ]. wpb. apply wp_pop.
  - by apply valid_low_stack.
  - intros r3 H3. apply wp_ret. mv.
  - intros p c r3 H3 Hm Hl _.
    assert (H4 : moved 1 0 0 0 r r3) by mv. wpb. eapply wp_update; [done|]. intros t r4 Ht H5 Hm4.
    pose proof H4 as (E1 & E2 & _). pose proof H5 as (F1 & F2 & _).
    wpb. eapply wp_tryReturnConn; [eauto with multigres|done|split; [done|by apply clock_stamp]|lia|].
    intros b r5 H6. apply wp_ret, HQ. mv.
Qed.

(** ** Waiting *)

Lemma received_moved s p c r : waits r = (false, s) -> c_held (r_ctl r) <> Some p ->
  moved 1 0 0 0 r (received s p c (set_ctl (with_waits true s (r_ctl r)) r)).
Proof.
  intros Hw Hh. unfold moved, received. cbn. split_and!; try lia.
  - unfold waits in Hw. destruct (r_ctl r). cbn in *. unfold with_waits. cbn. congruence.
  - intros q Hq. rewrite lookup_insert_ne; [done|]. congruence.
Qed.

Lemma unwaited_moved s r : waits r = (false, s) ->
  moved 0 0 0 0 r (set_ctl (with_waits false s (r_ctl (set_ctl (with_waits true s (r_ctl r)) r)))
                   (set_ctl (with_waits true s (r_ctl r)) r)).
Proof.
  intros Hw. unfold moved. cbn. split_and!; try lia; [|done].
  unfold waits in Hw. destruct (r_ctl r). cbn in *. unfold with_waits. cbn. congruence.
Qed.

Lemma wp_waitForConn x ch r (Q : error + option nat -> share -> Prop) :
  free r ->
  (forall e r', moved 0 0 0 0 r r' -> Q (inl e) r') ->
  (forall p c r', moved 1 0 0 0 r r' -> mine p c r' -> lendable c -> Q (inr (Some p)) r') ->
  wp (waitForConn x ch) r Q.
Proof.
  intros [Hlk Hw] HQ HQ'. wpa. eapply awp_PushBackValue; [done|]. set (r1 := set_ctl _ r).
  assert (Hw1 : waits r1 = (true, None)) by done.
  assert (Hrec : forall p c, returnable c -> c_held (r_ctl r1) <> Some p -> 
            wp (Ret (inr (Some p) : error + option nat)) (received None p c r1) Q).
  { intros p c [Hl _] Hh. apply wp_ret. eapply HQ'; [by apply received_moved|split; [apply lookup_insert_eq|done]|done]. }
  assert (Hlate : forall e, wp (let! removed := act remove_self in receive_late removed e) r1 Q).
  { intros e. wpa. eapply awp_remove_self; [done| |].
    - apply wp_ret, HQ. by apply unwaited_moved.
    - wpa. eapply awp_receive; [done|]. apply Hrec. }
  wpa. eapply awp_select_wait; [done|apply Hlate|apply Hlate|apply Hrec].
Qed.

Lemma wp_wait_for_one x r (Q : error + option nat -> share -> Prop) :
  free r ->
  (forall e r', moved 0 0 0 0 r r' -> Q (inl e) r') ->
  (forall p c r', moved 1 0 0 0 r r' -> mine p c r' -> lendable c -> Q (inr (Some p)) r') ->
  wp (wait_for_one x) r Q.
Proof.
  intros Hf HQ HQ'. wpa. apply awp_LoadClose_any. intros [ch|]; [|apply wp_ret, HQ; mv].
  wpa. apply awp_monotonicNow. intros start _. wpb. apply wp_waitForConn; [done| |].
  - intros e r1 H1. apply wp_ret, HQ. mv.
  - intros p c r1 H1 Hm Hl. wpb. wpa. apply awp_add_neutral; [done|]. intros _.
    wpa. apply awp_monotonicNow. intros now _. wpa. apply awp_add_neutral; [done|]. intros _.
    apply wp_ret, wp_ret. by eapply HQ'.
Qed.

Lemma wp_track_demand r (Q : unit -> share -> Prop) : (forall r', moved 0 0 1 0 r r' -> Q tt r') -> wp track_demand r Q.
Proof.
  intros HQ. wpa. apply awp_add_requested; [done..|]. intros v.
  apply (wp_loop M (fun _ r' => moved 0 0 1 0 r r')); [mv|]. intros _ r1 H1. wpa. apply awp_load. intros peak.
  destruct (v <=? peak); [by apply wp_ret, HQ|]. wpa. apply awp_cas_neutral; [done|].
  intros [|]; apply wp_ret; [by apply HQ|done].
Qed.

(** ** Requests *)

Lemma wp_returnErr e r (Q : error + nat -> share -> Prop) :
  (forall r', moved 0 0 (-1) 0 r r' -> Q (inl e) r') -> wp (returnErr e) r Q.
Proof. intros HQ. wpa. apply awp_add_requested; [done..|]. intros v. apply wp_ret, HQ. mv. Qed.

Lemma wp_lend p c r (Q : error + nat -> share -> Prop) :
  mine p c r -> r_borrowed r < r_slots r ->
  (forall r', moved 0 1 0 1 r r' -> mine p c r' -> Q (inr p) r') -> wp (lend p) r Q.
Proof.
  intros Hm Hlt HQ. wpa. apply awp_counts. intros Hc. apply awp_add_borrowed; [done|lia|]. intros v.
  wpb. wpa. apply awp_add_lent. intros _. apply wp_ret, wp_ret, HQ; [mv|done].
Qed.

Lemma wp_reset_or_reopen p c r (Q : option error -> share -> Prop) :
  mine p c r -> lendable c -> r_borrowed r < r_slots r ->
  (forall e r', moved (-1) 0 0 0 r r' -> Q (Some e) r') ->
  (forall c' r', moved 0 0 0 0 r r' -> mine p c' r' -> lendable c' -> bare c' -> Q None r') ->
  wp (reset_or_reopen p) r Q.
Proof.
  intros [Hp Hh] Hl Hlt HQ HQ'. pose proof Hl as (L1 & L2 & L3). wpa.
  eapply awp_ApplySettings; [done|by apply lendable_dialed| |].
  - apply wp_ret. eapply HQ'; [mv|by apply (mine_own p c)|by split_and!|done].
  - intros e s' b. wpb. eapply wp_Close_conn; [by apply (mine_own p c)|done|]. intros r1 H1 Hm1.
    wpa. apply awp_monotonicNow. intros now Hnow. wpb. eapply wp_connReopen; [exact Hm1|done|done|done| |].
    + intros e' r2 H2. pose proof H1 as (E1 & E2 & _). pose proof H2 as (F1 & F2 & _). cbn in *. wpb.
      apply wp_closedConn; [lia|]. intros r3 H3. apply wp_ret, HQ. mv.
    + intros c' r2 H2 Hm2 [Hl2 _] Hb2. apply wp_ret. eapply HQ'; [mv|done..].
Qed.

Lemma wp_applySettingsWithReconnect p c s r (Q : option error -> share -> Prop) :
  mine p c r -> lendable c -> r_borrowed r < r_slots r ->
  (forall e r', moved (-1) 0 0 0 r r' -> Q (Some e) r') ->
  (forall c' r', moved 0 0 0 0 r r' -> mine p c' r' -> lendable c' -> conn_Settings (conn_Conn c') = s -> Q None r') ->
  wp (applySettingsWithReconnect p s) r Q.
Proof.
  intros [Hp Hh] Hl Hlt HQ HQ'. pose proof Hl as (L1 & L2 & L3). wpa.
  eapply awp_ApplySettings; [done|by apply lendable_dialed| |].
  - apply wp_ret. eapply HQ'; [mv|by apply (mine_own p c)|by split_and!|done].
  - intros e s' b. destruct (negb _ && negb _).
    + wpb. eapply wp_Close_conn; [by apply (mine_own p c)|done|]. intros r1 H1 Hm1.
      pose proof H1 as (E1 & E2 & _). cbn in *. wpb.
      apply wp_closedConn; [lia|]. intros r3 H3. apply wp_ret, HQ. mv.
    + wpb. eapply wp_Close_conn; [by apply (mine_own p c)|done|]. intros r1 H1 Hm1.
      pose proof H1 as (E1 & E2 & _). cbn in E1, E2.
      wpa. apply awp_monotonicNow. intros now Hnow. wpb. eapply wp_connReopen; [exact Hm1|done|done|done| |].
      * intros e' r2 H2. pose proof H2 as (F1 & F2 & _). wpb.
        apply wp_closedConn; [lia|]. intros r3 H3. apply wp_ret, HQ. mv.
      * intros c' r2 H2 Hm2 [(K1 & K2 & K3) _] Hb2. pose proof Hm2 as [Hp2 Hh2]. pose proof H2 as (F1 & F2 & _).
        wpa. eapply awp_ApplySettings; [done|by apply lendable_dialed| |].
        -- apply wp_ret. eapply HQ'; [mv|by apply (mine_own p c')|by split_and!|done].
        -- intros e'' s'' b'. wpb. eapply wp_Close_conn; [by apply (mine_own p c')|done|]. intros r3 H3 Hm3.
           pose proof H3 as (G1 & G2 & _). cbn in G1, G2. wpb.
           apply wp_closedConn; [lia|]. intros r4 H4. apply wp_ret, HQ. mv.
Qed.

Lemma same_settings_refl s : same_settings s s = true.
Proof. destruct s; [apply Nat.eqb_refl|done]. Qed.

Lemma wp_fit_settings p c s r (Q : option error -> share -> Prop) :
  mine p c r -> lendable c -> r_borrowed r < r_slots r ->
  (forall e r', moved (-1) 0 0 0 r r' -> Q (Some e) r') ->
  (forall c' r', moved 0 0 0 0 r r' -> mine p c' r' -> lendable c' ->
     same_settings (conn_Settings (conn_Conn c')) s = true -> Q None r') ->
  wp (fit_settings p s) r Q.
Proof.
  intros Hm Hl Hlt HQ HQ'. pose proof Hm as [Hp Hh]. wpb. eapply wp_conn_settings; [done|by apply lendable_dialed|].
  assert (Happly : forall c1 r1, moved 0 0 0 0 r r1 -> mine p c1 r1 -> lendable c1 ->
            wp (applySettingsWithReconnect p s) r1 Q).
  { intros c1 r1 H1 Hm1 Hl1. pose proof H1 as (E1 & E2 & _).
    eapply wp_applySettingsWithReconnect; [done|done|lia|intros e r2 H2; apply HQ; mv|].
    intros c2 r2 H2 Hm2 Hl2 <-. eapply HQ'; [mv|done|done|]. apply same_settings_refl. }
  destruct (same_settings _ s) eqn:E; cbn [negb].
  - destruct (NeedsReapplyOnReuse s); [eapply Happly; [mv|done..]|]. apply wp_ret. eapply HQ'; [mv|done..].
  - wpb. destruct (has_settings _).
    + wpa. apply awp_add_neutral; [done|]. intros _. eapply wp_reset_or_reopen; [done|done|done| |].
      * intros e r1 H1. by apply wp_ret, HQ.
      * intros c1 r1 H1 Hm1 Hl1 _. by eapply Happly.
    + apply wp_ret. eapply Happly; [mv|done..].
Qed.

(** What a request does: an error and nothing in hand, or a connection that fits. *)
Definition request_spec (want : option Settings) (p : prog (error + nat)) : Prop :=
  forall r (Q : error + nat -> share -> Prop),
    free r -> r_borrowed r <= r_slots r ->
    (forall e r', moved 0 0 0 0 r r' -> Q (inl e) r') ->
    (forall q c r', moved 1 1 1 1 r r' -> mine q c r' -> lendable c -> fits want c -> Q (inr q) r') ->
    wp p r Q.

Lemma get_spec want : has_settings want = false -> request_spec want get.
Proof.
  intros Hwant r Q Hf Hs HQ HQ'. wpa. apply awp_add_neutral; [done|]. intros _. wpb. apply wp_track_demand.
  intros r1 H1. assert (Hlend : forall p c r2, moved 1 0 0 0 r1 r2 -> mine p c r2 -> lendable c -> bare c -> wp (lend p) r2 Q).
  { intros p c r2 H2 Hm Hl Hb. pose proof H1 as (E1 & E2 & _). pose proof H2 as (F1 & F2 & _).
    eapply wp_lend; [done|lia|]. intros r3 H3 Hm3. eapply HQ'; [mv|done|done|]. unfold fits. by rewrite Hwant. }
  assert (Herr : forall e r2, moved 0 0 0 0 r1 r2 -> wp (returnErr e) r2 Q).
  { intros e r2 H2. apply wp_returnErr. intros r3 H3. apply HQ. mv. }
  wpb. apply wp_pop; [done| |intros p c r2 H2 Hm Hl Hb; by eapply Hlend; eauto].
  intros r2 H2.
  assert (Hgot : forall p c r3, moved 1 0 0 0 r1 r3 -> mine p c r3 -> lendable c ->
    wp (let! settings := conn_settings p in
        if has_settings settings then
          act (Add resetState 1);;
          let! e := reset_or_reopen p in
          match e with Some e => returnErr e | None => lend p end
        else lend p) r3 Q).
  { intros p c r3 H3 Hm Hl. pose proof Hm as [Hp _]. wpb. eapply wp_conn_settings; [done|by apply lendable_dialed|].
    destruct (has_settings (conn_Settings (conn_Conn c))) eqn:E; [|by eapply Hlend]. wpa. apply awp_add_neutral; [done|]. intros _. wpb.
    pose proof H1 as (E1 & E2 & _). pose proof H3 as (F1 & F2 & _).
    eapply wp_reset_or_reopen; [done|done|lia| |].
    - intros e r4 H4. apply Herr. mv.
    - intros c' r4 H4 Hm4 Hl4 Hb4. eapply Hlend; [|done..]. mv. }
  wpb. apply wp_getNew; [intros e r3 H3; apply Herr; mv| |].
  - intros r3 H3. wpb. apply wp_getFromSettingsStack.
    + intros r4 H4. wpb. apply wp_wait_for_one; [eauto with multigres| |].
      * intros e r5 H5. apply Herr. mv.
      * intros p c r5 H5 Hm Hl. eapply Hgot; [mv|done..].
    + intros p c r4 H4 Hm Hl. wpb. apply wp_ret. eapply Hgot; [mv|done..].
  - intros p c r3 H3 Hm [Hl _] _. wpb. apply wp_ret. wpb. apply wp_ret. eapply Hgot; [mv|done..].
Qed.

Lemma getWithSettings_spec want : has_settings want = true -> request_spec want (getWithSettings want).
Proof.
  intros Hwant r Q Hf Hs HQ HQ'. wpa. apply awp_add_neutral; [done|]. intros _. wpb. apply wp_track_demand.
  intros r1 H1. assert (Herr : forall e r2, moved 0 0 0 0 r1 r2 -> wp (returnErr e) r2 Q).
  { intros e r2 H2. apply wp_returnErr. intros r3 H3. apply HQ. mv. }
  assert (Hgot : forall p c r3, moved 1 0 0 0 r1 r3 -> mine p c r3 -> lendable c ->
    wp (let! e := fit_settings p want in match e with Some e => returnErr e | None => lend p end) r3 Q).
  { intros p c r3 H3 Hm Hl. pose proof H1 as (E1 & E2 & _). pose proof H3 as (F1 & F2 & _). wpb.
    eapply wp_fit_settings; [done|done|lia| |].
    - intros e r4 H4. apply Herr. mv.
    - intros c' r4 H4 Hm4 Hl4 Hs4. pose proof H4 as (G1 & G2 & _). eapply wp_lend; [done|lia|].
      intros r5 H5 Hm5. eapply HQ'; [mv|done|done|]. unfold fits. by rewrite Hwant. }
  assert (Hsome : forall p c r3, moved 1 0 0 0 r1 r3 -> mine p c r3 -> lendable c ->
    wp (let! conn := Ret (Some p) in
        let! r := match conn with Some p => Ret (inr (Some p)) | None => wait_for_one want end in
        match r with
        | inl e => returnErr e
        | inr None => returnErr ErrTimeout
        | inr (Some p) =>
            let! e := fit_settings p want in match e with Some e => returnErr e | None => lend p end
        end) r3 Q).
  { intros p c r3 H3 Hm Hl. wpb. apply wp_ret. wpb. apply wp_ret. by eapply Hgot. }
  assert (Hnew : forall r3, moved 0 0 0 0 r1 r3 ->
    wp (let! r := getNew in
        match r with
        | inl e => returnErr e
        | inr conn =>
            let! conn := match conn with Some p => Ret (Some p) | None => getFromSettingsStack want end in
            let! r := match conn with Some p => Ret (inr (Some p)) | None => wait_for_one want end in
            match r with
            | inl e => returnErr e
            | inr None => returnErr ErrTimeout
            | inr (Some p) =>
                let! e := fit_settings p want in match e with Some e => returnErr e | None => lend p end
            end
        end) r3 Q).
  { intros r3 H3. wpb. apply wp_getNew; [intros e r4 H4; apply Herr; mv| |].
    - intros r4 H4. wpb. apply wp_getFromSettingsStack.
      + intros r5 H5. wpb. apply wp_wait_for_one; [eauto with multigres| |].
        * intros e r6 H6. apply Herr. mv.
        * intros p c r6 H6 Hm Hl. eapply Hgot; [mv|done..].
      + intros p c r5 H5 Hm Hl. wpb. apply wp_ret. eapply Hgot; [mv|done..].
    - intros p c r4 H4 Hm [Hl _] _. eapply Hsome; [mv|done..]. }
  wpb. apply wp_pop; [apply valid_state_stack| |].
  - intros r2 H2. wpb. apply wp_pop; [done| |].
    + intros r3 H3. apply Hnew. mv.
    + intros p c r3 H3 Hm Hl _. wpb. apply wp_ret. eapply Hsome; [mv|done..].
  - intros p c r2 H2 Hm Hl _. wpb. apply wp_ret. wpb. apply wp_ret. eapply Hsome; [mv|done..].
Qed.

Lemma Get_spec : request_spec None Get.
Proof.
  intros r Q Hf Hs HQ HQ'. wpa. apply awp_ctxErr. intros [|]; [apply wp_ret, HQ; mv|].
  wpa. apply awp_load. intros cap. destruct (cap =? 0); [apply wp_ret, HQ; mv|]. by apply (get_spec None).
Qed.

Lemma GetWithSettings_spec want : request_spec want (GetWithSettings want).
Proof.
  intros r Q Hf Hs HQ HQ'. wpa. apply awp_ctxErr. intros [|]; [apply wp_ret, HQ; mv|].
  wpa. apply awp_load. intros cap. destruct (cap =? 0); [apply wp_ret, HQ; mv|].
  destruct (has_settings want) eqn:E; cbn [negb]; [by apply getWithSettings_spec|by apply (get_spec want)].
Qed.
End Specs.
