(* ===== verification/ConnWorkers.v ===== *)
(** What the scrubber, the capacity changes, the workers and the clients of a
    connection pool do to the share of the goroutine that runs them. *)

From stdpp Require Import functions base gmap numbers list strings.
From S2P Require Import Prelude ConnPool ConnScrub ConnMachine ConnLogic ConnRules ConnSync ConnSpecs.

Local Open Scope Z_scope.
Local Open Scope pool_scope.

#[local] Arguments ConnLogic.wp : simpl never.
#[local] Arguments bind : simpl never.

Section Workers.
Context (M : Z) (HM : 0 <= M <= int64_max).
Notation awp := (awp M).
Notation wp := (wp M).

Ltac wpb := apply wp_bind.
Ltac wpa := apply wp_bind, wp_act.

(** ** Operations that give back all they take *)

Definition keeps {A : Set} (p : prog A) : Prop :=
  forall r (Q : A -> share -> Prop), free r -> r_borrowed r <= r_slots r ->
    (forall a r', moved 0 0 0 0 r r' -> Q a r') -> wp p r Q.

Lemma moved_room db dq r r' : moved 0 0 dq 0 r r' -> r_borrowed r <= r_slots r -> db = 0 -> r_borrowed r' <= r_slots r'.
Proof. intros (E1 & E2 & _) ? _. lia. Qed.

Lemma keeps_ret {A : Set} (a : A) : keeps (Ret a).
Proof. intros r Q _ _ HQ. apply HQ. mv. Qed.

Lemma keeps_bind {A B : Set} (p : prog A) (f : A -> prog B) :
  keeps p -> (forall a, keeps (f a)) -> keeps (bind p f).
Proof.
  intros Hp Hf r Q Hr Hs HQ. wpb. apply Hp; [done..|]. intros a r1 H1. pose proof H1 as (E1 & E2 & _).
  apply Hf; [eauto with multigres|lia|]. intros b r2 H2. apply HQ. mv.
Qed.

Lemma keeps_loop {S T : Set} (s : S) (body : S -> prog (S + T)) : (forall s, keeps (body s)) -> keeps (loop s body).
Proof.
  intros Hb r Q Hr Hs HQ. apply (wp_loop M (fun _ r' => moved 0 0 0 0 r r')); [mv|]. intros s' r1 H1.
  pose proof H1 as (E1 & E2 & _). apply Hb; [eauto with multigres|lia|]. intros [s''|t] r2 H2; [mv|]. apply HQ. mv.
Qed.

Lemma keeps_act {B : Set} (f : action B) :
  (forall r (Q : B -> share -> Prop), (forall b, Q b r) -> awp f r Q) -> keeps (act f).
Proof. intros Hf r Q _ _ HQ. apply wp_act, Hf. intros b. apply HQ. mv. Qed.

Lemma keeps_load c : keeps (act (Load c)).
Proof. apply keeps_act. intros r Q HQ. by apply awp_load. Qed.

Lemma keeps_store c v : neutral c = true -> keeps (act (Store c v)).
Proof. intros Hc. apply keeps_act. intros r Q HQ. by apply awp_store. Qed.

Lemma keeps_waiting : keeps (act waiting).
Proof. apply keeps_act. intros r Q HQ. by apply awp_waiting. Qed.

Lemma keeps_ctxErr : keeps (act ctxErr).
Proof. apply keeps_act. intros r Q HQ. by apply awp_ctxErr. Qed.

Lemma keeps_wg_add : keeps (act wg_add).
Proof. apply keeps_act. intros r Q HQ. by apply awp_wg_add. Qed.

Lemma keeps_next_pass : keeps (act next_pass).
Proof. apply keeps_act. intros r Q HQ. by apply awp_next_pass. Qed.

Lemma keeps_tryReturnAnyConn : keeps tryReturnAnyConn.
Proof. intros r Q Hr Hs HQ. by apply wp_tryReturnAnyConn. Qed.

(** A new connection that goes back to the pool, or none. *)
Lemma keeps_getNew_return {B : Set} (f : prog B) (k : nat -> prog B) :
  keeps f ->
  (forall p c r (Q : B -> share -> Prop), free r -> mine p c r -> returnable c -> bare c -> r_borrowed r < r_slots r ->
     (forall b r', moved (-1) 0 0 0 r r' -> Q b r') -> wp (k p) r Q) ->
  keeps (let! r := getNew in match r with inr (Some p) => k p | _ => f end).
Proof.
  intros Hf Hk r Q Hr Hs HQ. wpb. apply (wp_getNew M HM).
  - intros e r1 H1. pose proof H1 as (E1 & E2 & _). apply Hf; [eauto with multigres|lia|].
    intros b r2 H2. apply HQ. mv.
  - intros r1 H1. pose proof H1 as (E1 & E2 & _). apply Hf; [eauto with multigres|lia|].
    intros b r2 H2. apply HQ. mv.
  - intros p c r1 H1 Hm Hret Hb. pose proof H1 as (E1 & E2 & _).
    eapply Hk; [eauto with multigres|done..|lia|]. intros b r2 H2. apply HQ. mv.
Qed.

(** A connection that is closed for good. *)
Lemma wp_retire p c r (Q : unit -> share -> Prop) :
  mine p c r -> dialed c -> r_borrowed r < r_slots r -> (forall r', moved (-1) 0 0 0 r r' -> Q tt r') ->
  wp (Close_conn p;; closedConn) r Q.
Proof.
  intros Hm Hd Hlt HQ. wpb. eapply wp_Close_conn; [done|done|]. intros r1 H1 _. pose proof H1 as (E1 & E2 & _).
  apply (wp_closedConn M HM); [lia|]. intros r2 H2. apply HQ. mv.
Qed.

(** ** The scrubber *)

Lemma keeps_scrubReplace : keeps scrubReplace.
Proof.
  apply (keeps_getNew_return (Ret tt) (fun p => tryReturnConn p;; Ret tt)); [apply keeps_ret|].
  intros p c r Q Hr Hm Hret _ Hlt HQ. wpb. eapply wp_tryReturnConn; [done..|]. intros b r' H'. by apply HQ.
Qed.

(** A connection out of the stacks, with its idle clock kept aside. *)
Definition probing (x : scrubbed) (c : Pooled) : Prop :=
  lendable c /\ s_stamp x <> timestampExpired /\ s_stamp x <> timestampBusy.

Lemma wp_scrubPop s r (Q : option scrubbed -> share -> Prop) :
  valid_stack s -> (forall r', moved 0 0 0 0 r r' -> Q None r') ->
  (forall x c r', moved 1 0 0 0 r r' -> mine (s_conn x) c r' -> probing x c -> Q (Some x) r') ->
  wp (scrubPop s) r Q.
Proof.
  intros Hv HQ HQ'. wpa. apply awp_PopFirst; [done|apply wp_ret, HQ; mv|].
  intros p d c [Hl Hst] _ Hh. cbn. wpa. apply awp_pure. intros ? ? ? ? _ _ _. wpa.
  eapply awp_assign; [apply lookup_insert_eq|]. apply wp_ret.
  eapply HQ'; [|split; [apply lookup_insert_eq|done]|by split].
  apply moved_own; [done|]. unfold moved. cbn. split_and!; try (lia || done). intros q Hq.
  by rewrite lookup_insert_ne by (intros ->; congruence).
Qed.

Lemma valid_scrubStack i : valid_stack (scrubStack (i mod scrubStackCount)).
Proof.
  unfold scrubStack. pose proof (Z.mod_pos_bound i scrubStackCount ltac:(done)) as Hb.
  unfold scrubStackCount, stackMask in *. destruct (_ =? 0); intros k Hk; [done|]. injection Hk as <-. lia.
Qed.

Definition probe_spec (p : prog (option (scrubbed * Z))) : Prop :=
  forall r (Q : option (scrubbed * Z) -> share -> Prop),
    (forall r', moved 0 0 0 0 r r' -> Q None r') ->
    (forall x cur c r', moved 1 0 0 0 r r' -> mine (s_conn x) c r' -> probing x c -> Q (Some (x, cur)) r') ->
    wp p r Q.

Lemma scrub_rotation_spec cursor : probe_spec (scrub_rotation cursor).
Proof.
  intros r Q HQ HQ'. apply (wp_loop M (fun _ r' => moved 0 0 0 0 r r')); [mv|]. intros i r1 H1.
  destruct (i <? scrubStackCount); [|by apply wp_ret, HQ]. cbn zeta. wpb.
  apply wp_scrubPop; [apply valid_scrubStack| |].
  - intros r2 H2. apply wp_ret. mv.
  - intros x c r2 H2 Hm Hx. apply wp_ret. eapply HQ'; [mv|done..].
Qed.

Lemma scrubNext_spec cursor : probe_spec (scrubNext cursor).
Proof.
  intros r Q HQ HQ'. wpb. apply scrub_rotation_spec; [|intros; apply wp_ret; by eapply HQ'].
  intros r1 H1. wpa. apply awp_next_pass. wpb. apply scrub_rotation_spec.
  - intros r2 H2. wpa. apply awp_next_pass. apply wp_ret, HQ. mv.
  - intros x cur c r2 H2 Hm Hx. apply wp_ret. eapply HQ'; [mv|done..].
Qed.

Lemma wp_run_checkers p names : forall n c r (Q : nat * bool -> share -> Prop),
  mine p c r -> dialed c -> has_pool c = true -> taintOnRecycle c = false ->
  (forall v c' r', moved 0 0 0 0 r r' -> mine p c' r' -> dialed c' -> has_pool c' = true ->
     taintOnRecycle c' = false -> Q v r') ->
  wp (run_checkers p names n) r Q.
Proof.
  induction names as [|x names IH]; intros n c r Q Hm Hd Hp Ht HQ; cbn [run_checkers].
  - apply wp_ret. eapply HQ; [mv|done..].
  - destruct Hm as [Ho Hh]. wpa. eapply awp_Check; [done|done|]. intros e d b.
    assert (Hm' : mine p (set_Conn (mkConn (conn_Settings (conn_Conn c)) b) c)
      (set_own (<[p:=set_Conn (mkConn (conn_Settings (conn_Conn c)) b) c]> (r_own r)) r)) by (by apply mine_own with c).
    destruct e as [e|]; [apply wp_ret; eapply HQ; [mv|done..]|]. cbn zeta.
    wpa. eapply awp_deref_Conn; [apply lookup_insert_eq|done|]. destruct (conn_IsClosed _).
    + apply wp_ret. eapply HQ; [mv|done..].
    + eapply IH; [done..|]. intros v c' r' H' Hm1 Hd1 Hp1 Ht1. eapply HQ; [mv|done..].
Qed.

Lemma keeps_scrubOne cfg cursor : keeps (scrubOne cfg cursor).
Proof.
  intros r Q Hr Hs HQ. wpa. apply awp_load. intros cap. destruct (_ || _); [apply wp_ret, HQ; mv|].
  wpb. apply scrubNext_spec; [intros r1 H1; by apply wp_ret, HQ|].
  intros x cur c r1 H1 Hm [Hl Hst]. pose proof Hl as (L1 & L2 & L3). cbn zeta. pose proof H1 as (E1 & E2 & _).
  wpa. apply (awp_counts M). intros Hc1. apply (awp_add_borrowed M HM); [lia|]. intros _. wpb.
  eapply (wp_run_checkers (s_conn x) _ 0%nat c); [done|by apply lendable_dialed|done..|].
  intros [n bad] c2 r2 H2 Hm2 D2 P2 T2.
  pose proof H2 as (F1 & F2 & _). cbn in F1, F2.
  wpa. apply awp_add_neutral; [done|]. intros _. wpb.
  assert (Hnext : forall k, wp k r2 Q -> wp (if bad then act (Add scrubErrors 1);; Ret tt else Ret tt) r2 (fun _ r' => wp k r' Q)).
  { intros k Hk. destruct bad; [|by apply wp_ret]. wpa. apply awp_add_neutral; [done|]. intros _. by apply wp_ret. }
  apply Hnext. wpa. apply (awp_add_borrowed M HM); [lia|]. intros _.
  set (r3 := add_borrowed (-1) r2). assert (H3 : moved 1 0 0 0 r r3) by (unfold r3; mv).
  assert (Hm3 : mine (s_conn x) c2 r3) by done. pose proof H3 as (G1 & G2 & _). pose proof Hm3 as [Hp3 _].
  wpa. eapply awp_deref_Conn; [done|done|].
  assert (Hreplace : forall r4, moved 1 0 0 0 r r4 -> (exists c4, mine (s_conn x) c4 r4) ->
            wp (closedConn;; scrubReplace;; Ret cur) r4 Q).
  { intros r4 H4 [c4 Hm4]. pose proof H4 as (K1 & K2 & _). wpb. apply (wp_closedConn M HM); [lia|]. intros r5 H5.
    assert (H6 : moved 0 0 0 0 r r5) by mv. pose proof H6 as (J1 & J2 & _). wpb.
    apply keeps_scrubReplace; [eauto with multigres|lia|]. intros [] r6 H7. apply wp_ret, HQ. mv. }
  assert (Hclose : wp (Close_conn (s_conn x);; closedConn;; scrubReplace;; Ret cur) r3 Q).
  { wpb. eapply wp_Close_conn; [done|done|]. intros r4 H4 Hm4. apply Hreplace; [mv|eauto]. }
  destruct (0 <? n)%nat; [wpa; apply awp_add_neutral; [done|]; intros _; exact Hclose|].
  destruct bad; cbn [orb].
  - destruct (conn_IsClosed (conn_Conn c2)); [|exact Hclose]. wpb. apply wp_ret. apply Hreplace; eauto.
  - destruct (conn_IsClosed (conn_Conn c2)) eqn:Ec; [wpb; apply wp_ret, Hreplace; eauto|].
    wpb. eapply wp_set_used; [done|]. intros r4 H4 Hm4. pose proof H4 as (K1 & K2 & _).
    assert (Hf4 : free r4) by eauto with multigres.
    wpb. eapply wp_returnConnAt; [done|done|by split; [by split_and!|]|lia|]. intros b r5 H5. apply wp_ret, HQ. mv.
Qed.

(** ** Capacity *)

Context (cfg : Config).

Lemma keeps_setIdleCount : keeps (setIdleCount cfg).
Proof. apply keeps_bind; [apply keeps_load|]. intros cap. destruct (_ || _); by apply keeps_store. Qed.

Lemma keeps_satisfyWaiters : keeps satisfyWaitersOnCapacityIncrease.
Proof.
  apply keeps_loop. intros []. apply keeps_bind; [apply keeps_waiting|]. intros n.
  destruct (0 <? n); [|apply keeps_ret].
  apply (keeps_getNew_return (break tt) (fun p => let! handed := wait_tryReturnConn p in
    if handed then continue tt else act (Push Clean p);; break tt)); [apply keeps_ret|].
  intros p c r Q Hr Hm Hret Hb Hlt HQ. wpb. eapply wp_wait_tryReturnConn; [done..| |].
  - intros r1 H1 Hm1. pose proof H1 as (E1 & E2 & _). wpa.
    eapply awp_Push; [done|done|done|intros _; by right|lia|]. apply wp_ret, HQ.
    destruct Hm1 as [_ ?]. mv.
  - intros r1 H1. apply wp_ret, HQ. mv.
Qed.

Lemma keeps_close_idle_above newcap : keeps (close_idle_above newcap).
Proof.
  apply keeps_loop. intros []. apply keeps_bind; [apply keeps_load|]. intros open.
  destruct (newcap <? open); [|apply keeps_ret]. intros r Q Hr Hs HQ.
  assert (Hretire : forall p c r1, moved 1 0 0 0 r r1 -> mine p c r1 -> lendable c ->
            wp (Close_conn p;; closedConn;; continue tt) r1 Q).
  { intros p c r1 H1 Hm Hl. pose proof H1 as (E1 & E2 & _). wpb. eapply wp_Close_conn; [done|by apply lendable_dialed|]. intros r2 H2 _.
    pose proof H2 as (F1 & F2 & _). wpb. apply (wp_closedConn M HM); [lia|]. intros r3 H3. apply wp_ret, HQ. mv. }
  wpb. apply wp_getFromSettingsStack.
  - intros r1 H1. wpb. apply wp_pop; [done| |].
    + intros r2 H2. apply wp_ret, HQ. mv.
    + intros p c r2 H2 Hm Hl _. eapply Hretire; [mv|done..].
  - intros p c r1 H1 Hm Hl. wpb. apply wp_ret. by eapply Hretire.
Qed.

Lemma keeps_setCapacity newcap : 0 <= newcap <= M -> keeps (setCapacity cfg newcap).
Proof.
  intros Hn. unfold setCapacity. rewrite (proj2 (Z.ltb_ge _ _)) by lia. apply keeps_bind.
  { apply keeps_act. intros r Q HQ. by apply awp_swap_capacity. }
  intros old. destruct (old =? newcap); [apply keeps_ret|]. apply keeps_bind; [|intros _; apply keeps_setIdleCount].
  destruct (old <? newcap); [apply keeps_satisfyWaiters|apply keeps_close_idle_above].
Qed.

(** A goroutine that is in no other part of the pool than what it holds. *)
Definition settled (r : share) : Prop := free r /\ mus r = (false, None) /\ r_borrowed r <= r_slots r.

Lemma with_mus_back r b ch : mus r = (false, None) ->
  with_mus false None (with_mus b ch (r_ctl r)) = r_ctl r.
Proof. intros Hm. unfold mus in Hm. destruct (r_ctl r). cbn in *. unfold with_mus. cbn. congruence. Qed.

(** An operation under [capacityMu]. *)
Definition settles {A : Set} (p : prog A) : Prop :=
  forall r (Q : A -> share -> Prop), settled r -> c_pub (r_ctl r) = true ->
    (forall a r', moved 0 0 0 0 r r' -> Q a r') -> wp p r Q.

(** The share while [capacityMu] is held and, perhaps, the close channel. *)
Definition under_mu (ch : option (nat * bool)) (r r' : share) : Prop :=
  moved 0 0 0 0 (set_ctl (with_mus true ch (r_ctl r)) r) r'.

Lemma under_mu_keeps {A : Set} (p : prog A) ch r r1 (Q : A -> share -> Prop) :
  keeps p -> settled r -> under_mu ch r r1 -> (forall a r', under_mu ch r r' -> Q a r') -> wp p r1 Q.
Proof.
  intros Hp (Hf & _ & Hs) H1 HQ. pose proof H1 as (E1 & E2 & _). cbn in E1, E2.
  apply Hp; [eapply moved_free; [exact H1|done]|lia|]. intros a r' H2. apply HQ. unfold under_mu in *. mv.
Qed.

Lemma under_mu_mus ch r r1 : under_mu ch r r1 -> mus r1 = (true, ch).
Proof. intros (_ & _ & _ & Hc & _). unfold mus. by rewrite Hc. Qed.

Lemma under_mu_change ch ch' r r1 : under_mu ch r r1 ->
  under_mu ch' r (set_ctl (with_mus true ch' (r_ctl r1)) r1).
Proof.
  intros (E1 & E2 & [E3 E6] & E4 & E5). unfold under_mu, moved in *. cbn in *. rewrite E4. cbn. by split_and!.
Qed.

Lemma wp_LockCapacity r (Q : unit -> share -> Prop) :
  settled r -> (forall r', under_mu None r r' -> Q tt r') -> awp LockCapacity r Q.
Proof. intros (_ & Hm & _) HQ. apply awp_LockCapacity; [done|]. apply HQ. unfold under_mu. mv. Qed.

Lemma wp_UnlockCapacity ch r r1 (Q : unit -> share -> Prop) :
  settled r -> under_mu ch r r1 -> (forall c, ch = Some (c, true) -> False) ->
  (forall r', moved 0 0 0 0 r r' -> Q tt r') -> awp UnlockCapacity r1 Q.
Proof.
  intros (_ & Hm & _) H1 Hch HQ. eapply awp_UnlockCapacity; [by eapply under_mu_mus|done|]. apply HQ.
  destruct H1 as (E1 & E2 & [E3 E6] & E4 & E5). unfold moved. cbn in *. rewrite E4. cbn.
  split_and!; try done. by apply with_mus_back.
Qed.

Lemma wp_SetCapacity n r (Q : unit -> share -> Prop) :
  0 <= n <= M -> settled r -> (forall a r', moved 0 0 0 0 r r' -> Q a r') -> wp (SetCapacity cfg n) r Q.
Proof.
  intros Hn Hr HQ. wpa. apply wp_LockCapacity; [done|]. intros r1 H1. wpb.
  eapply under_mu_keeps; [by apply keeps_setCapacity|done..|]. intros [] r2 H2.
  apply wp_act. eapply wp_UnlockCapacity; [done|done|done|]. intros r3 H3. by apply HQ.
Qed.

Lemma keeps_waitForDrain : keeps waitForDrain.
Proof.
  apply keeps_loop. intros []. apply keeps_bind; [apply keeps_load|]. intros n.
  destruct (0 <? n); [|apply keeps_ret]. apply keeps_bind; [apply keeps_ctxErr|]. intros [|]; apply keeps_ret.
Qed.

Lemma CloseWithContext_settles : settles (CloseWithContext cfg).
Proof.
  intros r Q Hr Hp HQ. wpa. apply wp_LockCapacity; [done|]. intros r1 H1.
  wpa. apply awp_LoadClose; [by eapply under_mu_mus| |].
  - wpa. apply awp_load. intros cap. wpa. eapply wp_UnlockCapacity; [done|done|done|]. intros r2 H2.
    by apply wp_ret, HQ.
  - intros ch. set (r2 := set_ctl _ r1). assert (H2 : under_mu (Some (ch, false)) r r2) by (by eapply under_mu_change).
    wpa. apply awp_load. intros cap. destruct (cap =? 0).
    { wpa. eapply wp_UnlockCapacity; [done|done|naive_solver|]. intros r3 H3. by apply wp_ret, HQ. }
    wpa. apply awp_call_scrubCancel. { destruct H2 as (_ & _ & _ & Hc & _). by rewrite Hc. }
    wpb. eapply under_mu_keeps; [apply keeps_setCapacity; lia|done|exact H2|]. intros [] r3 H3.
    wpb. eapply under_mu_keeps; [apply keeps_waitForDrain|done|exact H3|]. intros e r4 H4.
    wpa. apply awp_close_chan; [by eapply under_mu_mus|]. wpa. apply awp_wg_wait.
    assert (H5 : under_mu (Some (ch, true)) r (set_ctl (with_mus true (Some (ch, true)) (r_ctl r4)) r4))
      by (by eapply under_mu_change).
    wpa. eapply awp_clear_close; [by eapply under_mu_mus|]. wpa.
    eapply wp_UnlockCapacity; [done|by eapply under_mu_change|done|]. intros r6 H6. by apply wp_ret, HQ.
Qed.

Lemma wp_reopen r (Q : unit -> share -> Prop) :
  settled r -> (forall a r', moved 0 0 0 0 r r' -> Q a r') -> wp (reopen cfg) r Q.
Proof.
  intros Hr HQ. wpa. apply wp_LockCapacity; [done|]. intros r1 H1. wpa. apply awp_load_capacity. intros cap Hcap.
  assert (Hun : forall r2, under_mu None r r2 -> wp (act UnlockCapacity) r2 Q).
  { intros r2 H2. apply wp_act. eapply wp_UnlockCapacity; [done|done|done|]. intros r3 H3. by apply HQ. }
  destruct (cap =? 0); [by apply Hun|].
  wpb. eapply under_mu_keeps; [apply keeps_setCapacity; lia|done..|]. intros [] r2 H2.
  wpb. eapply under_mu_keeps; [apply keeps_waitForDrain|done..|]. intros e r3 H3.
  wpb. eapply under_mu_keeps; [by apply keeps_setCapacity|done..|]. intros [] r4 H4. by apply Hun.
Qed.

(** ** Idle connections *)

(** The share while a stack is locked, and perhaps one of its connections expired. *)
Definition iterating (s : stack_id) (l : list nat) (r r' : share) : Prop :=
  exists e, moved 0 0 0 0 (set_ctl (with_lock (Some (s, l, e)) (r_ctl r)) r) r'.

Lemma iterating_locks s l r r' : iterating s l r r' -> exists e, locks r' = Some (s, l, e).
Proof. intros (e & _ & _ & _ & Hc & _). exists e. unfold locks. by rewrite Hc. Qed.

(** An expired connection is closed and its slot given up. *)
Lemma iterating_expired s l p r r1 : iterating s l r r1 ->
  moved (-1) 0 0 0 (add_slots 1 (set_ctl (with_lock (Some (s, l, Some p)) (r_ctl r1)) r1))
    (add_slots (-1) (add_slots 1 (set_ctl (with_lock (Some (s, l, Some p)) (r_ctl r1)) r1))) /\
  iterating s l r (add_slots (-1) (add_slots 1 (set_ctl (with_lock (Some (s, l, Some p)) (r_ctl r1)) r1))).
Proof.
  intros (e & E1 & E2 & [E3 E6] & E4 & E5). split; [mv|]. exists (Some p). unfold moved in *. cbn in *. rewrite E4. cbn.
  split_and!; (lia || done).
Qed.

Lemma wp_expired s l p now timeout r r1 (Q : bool -> share -> Prop) :
  iterating s l r r1 -> p ∈ l -> Q false r1 ->
  Q true (add_slots 1 (set_ctl (with_lock (Some (s, l, Some p)) (r_ctl r1)) r1)) ->
  wp (expired p now timeout) r1 Q.
Proof.
  intros H1 Hp HQ HQ'. destruct (iterating_locks _ _ _ _ H1) as [e He]. wpa.
  eapply awp_deref_locked; [done..|]. intros c. cbn zeta.
  destruct (Z.eqb_spec (timeUsed c) timestampExpired) as [E|E]; [by apply wp_ret|].
  destruct (timeUsed c =? timestampBusy); [by apply wp_ret|]. destruct (timeout <? _); [|by apply wp_ret].
  by eapply wp_act, awp_expire_cas.
Qed.

Lemma wp_expire_all s l now timeout r r1 (Q : nat -> share -> Prop) :
  r_borrowed r <= r_slots r -> iterating s l r r1 -> (forall n r', iterating s l r r' -> Q n r') ->
  wp (expire_all l now timeout) r1 Q.
Proof.
  intros Hs H1 HQ.
  apply (wp_loop M (fun x r' => x.1 ⊆ l /\ iterating s l r r')); [done|].
  intros [l' n] r2 [Hl H2]. destruct l' as [|p l']; [by apply wp_ret, HQ|]. cbn in Hl.
  assert (Hp : p ∈ l) by (apply Hl; left). assert (Hl' : l' ⊆ l) by (intros q Hq; apply Hl; by right).
  wpb. eapply wp_expired; [done|done|by apply wp_ret|]. set (r3 := add_slots 1 _).
  wpa. apply awp_add_neutral; [done|]. intros _. wpb. eapply wp_act, awp_close_expired; [done|done|]. intros ? ->.
  pose proof H2 as (e & E1 & E2 & _). cbn in E1, E2.
  wpb. wpa. apply (awp_closed M HM); [unfold r3; cbn; lia|]. intros _. apply wp_ret, wp_ret.
  split; [done|]. by apply iterating_expired.
Qed.

Lemma keeps_replace_expired n : keeps (replace_expired n).
Proof.
  apply keeps_loop. intros [|k]; [apply keeps_ret|].
  apply (keeps_getNew_return (break tt) (fun p => tryReturnConn p;; continue k)); [apply keeps_ret|].
  intros p c r Q Hr Hm Hret _ Hlt HQ. wpb. eapply wp_tryReturnConn; [done..|]. intros b r' H'. by apply wp_ret, HQ.
Qed.

Lemma with_lock_back r l : locks r = None -> with_lock None (with_lock l (r_ctl r)) = r_ctl r.
Proof. intros Hm. unfold locks in Hm. destruct (r_ctl r). cbn in *. unfold with_lock. cbn. congruence. Qed.

Lemma keeps_closeInStack s now timeout : valid_stack s -> keeps (closeInStack s now timeout).
Proof.
  intros Hv r Q Hr Hs HQ. pose proof Hr as [Hl Hw]. wpa. apply awp_LockStack; [done..|]. intros l.
  wpb. eapply (wp_expire_all s l now timeout r); [exact Hs|exists None; mv|]. intros n r1 H1.
  destruct (iterating_locks _ _ _ _ H1) as [e He]. wpa. eapply awp_UnlockStack; [done|].
  assert (H2 : moved 0 0 0 0 r (set_ctl (with_lock None (r_ctl r1)) r1)).
  { destruct H1 as (e' & E1 & E2 & [E3 E6] & E4 & E5). unfold moved. cbn in *. rewrite E4. cbn.
    split_and!; try done. by apply with_lock_back. }
  pose proof H2 as (F1 & F2 & _). apply keeps_replace_expired; [eauto with multigres|lia|].
  intros [] r2 H3. apply HQ. eapply moved_back; [exact H3|exact H2].
Qed.

Lemma keeps_closeIdleResources now : keeps (closeIdleResources now).
Proof.
  apply keeps_bind; [apply keeps_load|]. intros timeout. destruct (timeout =? 0); [apply keeps_ret|].
  apply keeps_bind; [apply keeps_load|]. intros cap. destruct (cap =? 0); [apply keeps_ret|].
  apply keeps_bind; [|intros _; by apply keeps_closeInStack].
  apply keeps_loop. intros i. destruct (Z.leb_spec i stackMask); [|apply keeps_ret].
  apply keeps_bind; [by apply keeps_closeInStack, valid_low_stack|]. intros _. apply keeps_ret.
Qed.

(** ** Workers *)

Lemma keeps_starving_tick : keeps starving_tick.
Proof.
  apply keeps_bind.
  { apply keeps_act. intros r Q HQ. apply awp_pure. eauto. }
  intros n. apply keeps_loop. intros k. destruct (k <? n); [|apply keeps_ret].
  apply keeps_bind; [apply keeps_tryReturnAnyConn|]. intros [|]; apply keeps_ret.
Qed.

Lemma keeps_worker_body w now s : keeps (worker_body cfg w now s).
Proof.
  destruct w; cbn.
  - apply keeps_bind; [apply keeps_starving_tick|intros _; apply keeps_ret].
  - apply keeps_bind; [apply keeps_closeIdleResources|intros _; apply keeps_ret].
  - apply keeps_bind; [apply keeps_scrubOne|intros c; apply keeps_ret].
  - apply keeps_bind; [apply keeps_ctxErr|]. intros [|]; [|apply keeps_ret].
    intros r Q Hr Hs HQ. split; [done|]. by apply keeps_ret.
Qed.

Lemma at_rest_settled r : at_rest r -> settled r.
Proof. intros ([= E1 E2 E3 E4] & Hl & Hw & Hm & Hh). repeat split; [done..|]. lia. Qed.

Lemma at_rest_moved r r' : at_rest r -> moved 0 0 0 0 r r' -> at_rest r'.
Proof.
  intros ([= E1 E2 E3 E4] & Hl & Hw & Hm & Hh) (F1 & F2 & [F3 F4] & Hc & _).
  unfold at_rest, counts, locks, waits, mus in *. rewrite Hc. split_and!; try done. repeat f_equal; lia.
Qed.

Lemma wp_worker_loop ch body r :
  (forall now s, keeps (body now s)) -> at_rest r -> wp (worker_loop ch body) r (fun _ => at_rest).
Proof.
  intros Hb Hr. apply (wp_loop M (fun _ => at_rest)); [done|]. intros s r1 H1. split; [done|].
  assert (Hdone : forall r2, at_rest r2 -> wp (act wg_done;; @break Z unit tt) r2
            (fun x r' => match x with inl _ => at_rest r' | inr _ => at_rest r' end)).
  { intros r2 H2. wpa. apply awp_wg_done. by apply wp_ret. }
  intros [now|] Hnow; [|by apply Hdone].
  destruct (at_rest_settled _ H1) as (Hf & _ & Hs). wpb. apply Hb; [done..|].
  intros [s' again] r2 H2. assert (at_rest r2) by (by eapply at_rest_moved). destruct again; [by apply wp_ret|by apply Hdone].
Qed.

(** The goroutines the pool starts. *)
Theorem task_prog_spec t r : task_ok t -> at_rest r -> wp (task_prog cfg t) r (fun _ => at_rest).
Proof.
  intros Ht Hr. destruct t as [w ch interval|]; cbn in *.
  - rewrite (proj2 (Z.leb_gt _ _)) by done. apply wp_worker_loop; [|done]. intros. apply keeps_worker_body.
  - apply wp_reopen; [by apply at_rest_settled|]. intros a r1 H1. by eapply at_rest_moved.
Qed.

(** ** Opening *)

Lemma keeps_runWorker w ch interval : 0 < interval -> keeps (runWorker w ch interval).
Proof.
  intros Hi. apply keeps_bind; [apply keeps_wg_add|]. intros _ r Q Hr Hs HQ. split; [done|]. by apply keeps_ret.
Qed.

(** What the configuration must satisfy. *)
Record config_ok : Prop := {
  ok_capacity : 0 <= maxCapacity cfg <= M;
  ok_lifetime : lifetime_ok (cfg_maxLifetime cfg);
  ok_idle : idle_timeout_ok (cfg_idleTimeout cfg);
  ok_refresh : 0 <= refreshInterval cfg }.

Lemma keeps_start_workers (Hcfg : config_ok) ch : keeps (
    setIdleCount cfg;;
    runWorker StarvingWorker ch (100 * 1000000);;
    let! idleTimeout := act (Load idleTimeout) in
    (if idleTimeout =? 0 then Ret tt else runWorker IdleWorker ch (idleTimeout `quot` 10));;
    (if (0 <? scrubInterval cfg) && (0 <? len (checkers cfg))
     then runWorker ScrubWorker ch (scrubInterval cfg) else Ret tt);;
    (if negb (refreshInterval cfg =? 0) && hasRefresh cfg
     then runWorker RefreshWorker ch (refreshInterval cfg) else Ret tt)).
Proof.
  apply keeps_bind; [apply keeps_setIdleCount|]. intros _.
  apply keeps_bind; [by apply keeps_runWorker|]. intros _ r Q Hr Hs HQ.
  wpa. apply awp_load_idleTimeout. intros idle Hidle. revert r Q Hr Hs HQ.
  change (keeps (
    (if idle =? 0 then Ret tt else runWorker IdleWorker ch (idle `quot` 10));;
    (if (0 <? scrubInterval cfg) && (0 <? len (checkers cfg))
     then runWorker ScrubWorker ch (scrubInterval cfg) else Ret tt);;
    (if negb (refreshInterval cfg =? 0) && hasRefresh cfg
     then runWorker RefreshWorker ch (refreshInterval cfg) else Ret tt))).
  apply keeps_bind; [|intros _; apply keeps_bind; [|intros _]].
  - destruct (Z.eqb_spec idle 0); [apply keeps_ret|]. apply keeps_runWorker.
    destruct Hidle; [done|]. apply (Z.quot_str_pos idle 10). lia.
  - destruct (Z.ltb_spec 0 (scrubInterval cfg)); cbn [andb]; [|apply keeps_ret].
    destruct (0 <? len _); [by apply keeps_runWorker|apply keeps_ret].
  - pose proof (ok_refresh Hcfg). destruct (Z.eqb_spec (refreshInterval cfg) 0); cbn; [apply keeps_ret|].
    destruct (hasRefresh cfg); [apply keeps_runWorker; lia|apply keeps_ret].
Qed.

Theorem main_spec (Hcfg : config_ok) r : opens r = true -> at_rest r -> wp (main cfg) r (fun _ => at_rest).
Proof.
  intros Ho Hr. wpb. wpa. apply awp_open_chan; [done|]. intros ch.
  wpa. apply awp_store_capacity; [apply Hcfg|]. wpa. apply awp_make_scrubCtx. set (r1 := set_ctl _ _).
  assert (H1 : at_rest r1) by done. destruct (at_rest_settled _ H1) as (Hf & _ & Hs).
  apply (keeps_start_workers Hcfg ch); [done..|]. intros [] r2 H2. apply wp_act, awp_publish.
  - destruct H2 as (_ & _ & _ & Hc & _). by rewrite Hc.
  - by eapply at_rest_moved.
Qed.

(** ** Users *)

(** Between calls. *)
Definition ready (r : share) : Prop := at_rest r /\ c_pub (r_ctl r) = true.

Lemma ready_moved r r' : ready r -> moved 0 0 0 0 r r' -> ready r'.
Proof. intros [Hr Hp] H. split; [by eapply at_rest_moved|]. destruct H as (_ & _ & _ & Hc & _). by rewrite Hc. Qed.

(** While the client holds connection [p]. *)
Definition holding (p : nat) (r : share) : Prop :=
  free r /\ mus r = (false, None) /\ helds r = (Some p, true) /\
  exists c, r_own r !! p = Some c /\ dialed c /\ counts r = if has_pool c then (1, 1, (1, 1)) else (0, 0, (0, 0)).

(** A use that changes the connection but not its pool. *)
Lemma holding_assign p f r : (forall c, has_pool (f c) = has_pool c) -> (forall c, dialed c -> dialed (f c)) ->
  holding p r -> wp (act (assign p f)) r (fun _ => holding p) /\ wp (act (assign_Conn p f)) r (fun _ => holding p).
Proof.
  intros Hf Hdf (H1 & H2 & H3 & c & Hp & Hd & Hc).
  split; (eapply wp_act; [eapply awp_assign || eapply awp_assign_Conn]; [done..|]; split_and!; try done;
    exists (f c); split_and!; [apply lookup_insert_eq|by apply Hdf|by rewrite Hf]).
Qed.

Lemma wp_run_use p u r : holding p r -> wp (run_use p u) r (fun _ => holding p).
Proof.
  intros Hr. destruct u as [|s| |]; cbn; try (by apply holding_assign).
  destruct Hr as (H1 & H2 & H3 & c & Hp & Hd & Hc). pose proof H3 as [= Hh Hpub].
  eapply (wp_Taint M HM); [done|done|done| |].
  - intros E. rewrite E in Hc. injection Hc as _ Hb _ _. lia.
  - intros c' r' Ectl Hp' Hpool Hcn E1 E2 [E3 E4]. unfold holding, free, locks, waits, mus, helds in *. rewrite Ectl.
    split_and!; try tauto. exists c'. split_and!; [done|unfold dialed; by rewrite Hcn|]. rewrite Hpool. unfold back_of, counts in *.
    destruct (has_pool c); injection Hc as F1 F2 F3 F4; repeat f_equal; lia.
Qed.

Lemma wp_run_uses p us : forall r, holding p r -> wp (run_uses p us) r (fun _ => holding p).
Proof.
  induction us as [|u us IH]; intros r Hr; cbn; [done|]. wpb.
  eapply wp_mono, wp_run_use, Hr. intros [] r'. apply IH.
Qed.

Lemma wp_give_back p r : holding p r -> wp (act release;; Recycle p) r (fun _ => ready).
Proof.
  intros ((Hl & Hw) & H2 & [= H3 H4] & c & Hp & Hd & Hc). wpa. apply awp_release. set (r1 := set_ctl _ r).
  eapply (wp_Recycle M HM p c r1); [done|by split|done| |].
  - intros E. rewrite E in Hc. injection Hc as _ Hb _ _. cbn. lia.
  - intros r2 (E1 & E2 & [E3 E5] & E4 & _). unfold ready, at_rest, locks, waits, mus. rewrite E4. cbn in *.
    split_and!; try done. unfold counts, back_of in *. rewrite E1, E2, E3, E5.
    destruct (has_pool c); injection Hc as F1 F2 F3 F4; repeat f_equal; lia.
Qed.

Lemma wp_client want us r : ready r -> wp (client want us) r (fun _ => ready).
Proof.
  intros Hr. pose proof Hr as [Har Hpub]. destruct (at_rest_settled _ Har) as (Hf & Hmu & Hs). wpb.
  assert (Hget : request_spec M want (match want with None => Get | Some _ => GetWithSettings want end)).
  { destruct want; [by apply GetWithSettings_spec|by apply Get_spec]. }
  apply Hget; [done..| |].
  - intros e r1 H1. apply wp_ret. by eapply ready_moved.
  - intros p c r1 H1 [Hp Hh] Hl Hfit. wpa. eapply awp_hold; [done..|]. wpb.
    eapply wp_mono, wp_run_uses; [intros [] r'; apply wp_give_back|].
    destruct H1 as (E1 & E2 & [E3 E5] & E4 & _). destruct Har as ([= A1 A2 A3 A8] & A4 & A5 & A6 & A7).
    unfold holding, free, locks, waits, mus, helds in *. cbn. rewrite E4. split_and!; try done; [by f_equal|].
    exists c. split_and!; [done|by apply lendable_dialed|]. destruct Hl as (-> & _ & _). unfold counts. cbn. repeat f_equal; lia.
Qed.

(** Calls within the bounds: capacities up to [M], idle timeouts of at least ten
    nanoseconds. *)
Definition call_ok (c : call) : Prop :=
  match c with
  | CallSetCapacity n => 0 <= n <= M
  | CallSetIdleTimeout d => idle_timeout_ok d
  | _ => True
  end.

Lemma keeps_ready {A : Set} (p : prog A) r : keeps p -> ready r -> wp p r (fun _ => ready).
Proof.
  intros Hp Hr. destruct Hr as [Har Hpub]. destruct (at_rest_settled _ Har) as (Hf & Hmu & Hs).
  apply Hp; [done..|]. intros a r' H. by eapply ready_moved; [split|].
Qed.

Lemma keeps_Stats : keeps Stats.
Proof. unfold Stats. repeat (apply keeps_bind; [apply keeps_load || apply keeps_waiting|intros ?]). apply keeps_ret. Qed.

Lemma keeps_PeakRequestedAndReset : keeps PeakRequestedAndReset.
Proof.
  apply keeps_bind; [apply keeps_load|]. intros q. apply keeps_act. intros r Q HQ. by apply awp_swap_neutral.
Qed.

Lemma wp_run_call c r : call_ok c -> ready r -> wp (run_call cfg c) r (fun _ => ready).
Proof.
  intros Hc Hr. pose proof Hr as [Har Hpub]. pose proof (at_rest_settled _ Har) as Hset. destruct c; cbn in *.
  - by apply wp_client.
  - apply wp_SetCapacity; [done..|]. intros [] r' H. by eapply ready_moved.
  - wpb. apply CloseWithContext_settles; [done..|]. intros e r' H. apply wp_ret. by eapply ready_moved.
  - apply keeps_ready; [|done]. apply keeps_bind; [apply keeps_Stats|]. intros _. apply keeps_ret.
  - apply keeps_ready; [|done]. apply keeps_bind; [apply keeps_PeakRequestedAndReset|]. intros _. apply keeps_ret.
  - apply wp_act. by apply awp_store_idleTimeout.
Qed.

(** The goroutines of the users. *)
Theorem user_spec cs r : Forall call_ok cs -> at_rest r -> wp (user cfg cs) r (fun _ => at_rest).
Proof.
  intros Hcs Hr. wpa. apply awp_await_published. set (r1 := set_ctl _ r).
  assert (H1 : ready r1) by done. clearbody r1. revert r1 H1. induction Hcs as [|c cs Hc _ IH]; intros r1 H1; cbn.
  - apply wp_ret, H1.
  - wpb. eapply wp_mono, wp_run_call; [|done..]. intros [] r2. apply IH.
Qed.
End Workers.
