(* ===== verification/ConnDemo.v ===== *)
(** Concrete configurations, environments and schedules of a connection pool. *)

From stdpp Require Import base gmap numbers list strings.
From S2P Require Import Prelude ConnPool ConnScrub ConnMachine ConnLogic.

Local Open Scope Z_scope.

(** A pool of this capacity, without idle timeout, refresh or scrubbing. *)
Definition plain (cap : Z) : Config := mkConfig cap 0 0 0 0 false 0 [].

Definition no_divergence : Divergence := mkDivergence [] [] [].

(** The environment: all goes well, the dial fails, the context expires; [n] picks
    the case of a select. *)
Definition fine (n : nat) (t : Z) : answer := mkAnswer t n false None (mkConn None false) 0 no_divergence.
Definition refused : answer :=
  mkAnswer 100 2 false (Some (mkDrvError (err "connection refused") true false)) (mkConn None true) 0 no_divergence.
Definition expired_ctx : answer := mkAnswer 100 1 true None (mkConn None false) 0 no_divergence.

Lemma fine_ok n t : timestampBusy < t < timestampExpired -> answer_ok (fine n t).
Proof. by split. Qed.

Lemma refused_ok : answer_ok refused.
Proof. by split. Qed.

Lemma expired_ctx_ok : answer_ok expired_ctx.
Proof. by split. Qed.

(** [k] turns in a row of goroutine [i]. *)
Definition turn (i k : nat) (a : answer) : list (nat * answer) := replicate k (i, a).

Lemma turn_ok i k a : answer_ok a -> Forall (fun ev => answer_ok ev.2) (turn i k a).
Proof. intros Ha. by apply Forall_replicate. Qed.

Definition tz : option Settings := Some (mkSettings 7 [("timezone", "UTC")] 3).

(** Two clients of a pool of one: the first one holds the connection, the second
    one waits; then both finish and the worker waits for its tick. *)
Definition pair_of_clients : list (list call) := [[Client None []]; [Client tz []]].

Definition lending : list (nat * answer) :=
  turn 0 40 (fine 2 100) ++ turn 1 21 (fine 2 100) ++ turn 2 60 (fine 0 100).

Definition settled_down : list (nat * answer) :=
  lending ++ turn 1 60 (fine 2 300) ++ turn 2 60 (fine 2 300) ++ turn 1 60 (fine 2 300) ++
  turn 2 60 (fine 2 300) ++ turn 3 1 (fine 2 400).

Lemma lending_ok : Forall (fun ev => answer_ok ev.2) lending.
Proof. repeat (apply Forall_app; split); by apply turn_ok, fine_ok. Qed.

Lemma settled_down_ok : Forall (fun ev => answer_ok ev.2) settled_down.
Proof. apply Forall_app; split; [apply lending_ok|]. repeat (apply Forall_app; split); by apply turn_ok, fine_ok. Qed.
