(* ===== verification/ConnSafety.v ===== *)
(** The connection pool, whatever its goroutines do and however they interleave.

    The shares of the goroutines ([ConnLogic]) accompany every run of the machine
    ([ConnMachine]): a step keeps the invariant and the specification of what each
    goroutine has left to do.  What the pool promises follows from the invariant. *)

From stdpp Require Import functions base gmap numbers list strings.
From S2P Require Import Prelude ConnPool ConnScrub ConnMachine ConnLogic ConnRules ConnSync ConnSpecs ConnWorkers ConnDemo.

Local Open Scope Z_scope.

#[local] Arguments ConnLogic.wp : simpl never.

Lemma lookup_snoc_Some {A} (l : list A) x i y :
  (l ++ [x]) !! i = Some y <-> l !! i = Some y \/ i = length l /\ y = x.
Proof.
  rewrite lookup_app_Some, list_lookup_singleton_Some. split.
  - intros [H|(H1 & H2 & ->)]; [by left|]. right. split; [lia|done].
  - intros [H|[-> ->]]; [by left|]. right. split_and!; (lia || done).
Qed.

Lemma sumZ_snoc l x : sumZ (l ++ [x]) = sumZ l + x.
Proof. induction l as [|y l IH]; cbn; [lia|]. fold (sumZ (l ++ [x])). fold (sumZ l). lia. Qed.

Section Safety.
Context (M : Z) (HM : 0 <= M <= int64_max) (cfg : Config).
Notation wp := (wp M).

(** ** Soundness *)

(** A goroutine that was just started has nothing. *)
Lemma Inv_spawn σ rs : Inv M σ rs -> Inv M σ (rs ++ [no_share]).
Proof.
  intros (wh & st & [Hc Hp Hl Hw Hcl Hct [Hs Ho]]). exists wh, st. split; rewrite ?fmap_app; cbn.
  - destruct Hc as [? ? ? Hsh ? ? ? ?]. split; rewrite ?fmap_app; cbn; rewrite ?sumZ_snoc, ?Z.add_0_r; try done.
    intros x [Hx|Hx%list_elem_of_singleton]%elem_of_app; [by apply Hsh|by subst x].
  - destruct Hp as [? ? ? ? Hown]. split; try done.
    intros i o p c [Hi|[-> ->]]%lookup_snoc_Some; [by apply Hown|done].
  - intros i s l e [Hi|[_ ?]]%lookup_snoc_Some; [by apply Hl|done].
  - destruct Hw as [? ? Hcm ? Hwt]. split; try done.
    + intros i w. rewrite Hcm. split; intros [b Hb]; exists b; [by apply lookup_snoc_Some; left|].
      by apply lookup_snoc_Some in Hb as [Hb|[_ ?]].
    + intros w. rewrite Hwt. split; intros [b Hb]; exists b; [by apply lookup_snoc_Some; left|].
      by apply lookup_snoc_Some in Hb as [Hb|[_ ?]].
  - destruct Hcl as [Hmu Hch ? Hcc]. split; try done.
    + intros i c [Hi|[_ ?]]%lookup_snoc_Some; [by eapply Hmu|done].
    + intros i b ch x [Hi|[_ ?]]%lookup_snoc_Some; [by eapply Hch|done].
    + intros ch H1 H2. destruct (Hcc ch H1 H2) as [i Hi]. exists i. apply lookup_snoc_Some. by left.
  - destruct Hct as [Hh Hown Hpub ? ?]. split; try done.
    + intros i. rewrite Hh. destruct (decide (i < length rs)%nat).
      * rewrite lookup_app_l by (by rewrite length_fmap). done.
      * rewrite lookup_ge_None_2 by (rewrite length_fmap; lia). cbn.
        destruct (_ !! i) as [y|] eqn:E; [|done]. apply lookup_snoc_Some in E as [E|[_ ->]]; [|done].
        apply lookup_lt_Some in E. rewrite length_fmap in E. lia.
    + intros i p b [Hi|[_ ?]]%lookup_snoc_Some; [|done]. destruct (Hown i p b Hi) as (o & Ho1 & Ho2).
      exists o. split; [|done]. apply lookup_snoc_Some. by left.
    + intros i x [Hi|[_ ?]]%lookup_snoc_Some; [by eapply Hpub|done].
  - split; [done|]. intros i [Hi|[_ ?]]%lookup_snoc_Some; [by apply Ho|done].
Qed.

(** One step of a goroutine keeps what it has left to do. *)
Lemma tstep_sound i ans (p : prog unit) σ rs r Q :
  answer_ok ans -> Inv M σ rs -> rs !! i = Some r -> wp p r Q ->
  match tstep i ans p σ with
  | TStop _ => True
  | TPanic _ _ => False
  | TNext _ σ' p' ts => Forall task_ok ts /\ exists r', Inv M σ' (<[i := r']> rs) /\ wp p' r' Q
  end.
Proof.
  intros Ha HI Hi Hp. assert (Hsame : Inv M σ (<[i := r]> rs)) by (by rewrite list_insert_id).
  destruct p as [a|B f k|ch k|t k|S T body s k]; cbn [tstep].
  - done.
  - specialize (Hp i ans σ rs Ha HI Hi). destruct (f i ans σ); done.
  - destruct Hp as [_ Hk]. destruct (a_sel ans).
    + destruct (bool_decide _); [|done]. split; [done|]. exists r. split; [done|]. by apply Hk.
    + split; [done|]. exists r. split; [done|]. apply Hk. intros t [= <-]. apply Ha.
  - destruct Hp as [Ht Hk]. split; [by constructor|]. by exists r.
  - destruct Hp as (I & HIs & Hb). split; [done|]. exists r. split; [done|]. apply wp_bind.
    eapply wp_mono, Hb, HIs. intros [s'|t] r' H; [by exists I|done].
Qed.

(** The shares that accompany a machine. *)
Definition shares_of (m : machine) (rs : list share) : Prop :=
  crashed m = None /\ Inv M (pool m) rs /\ Forall2 (fun p r => wp p r (fun _ => at_rest)) (threads m) rs.

Definition accounted (m : machine) : Prop := exists rs, shares_of m rs.

(** The goroutines that were started, with nothing yet. *)
Lemma spawn_all σ ts : Forall task_ok ts -> forall ps rs,
  Inv M σ rs -> Forall2 (fun p r => wp p r (fun _ => at_rest)) ps rs ->
  exists rs', Inv M σ (rs ++ rs') /\
    Forall2 (fun p r => wp p r (fun _ => at_rest)) (ps ++ map (task_prog cfg) ts) (rs ++ rs').
Proof.
  induction 1 as [|t ts Ht _ IH]; intros ps rs HI Hall; cbn.
  - exists []. by rewrite !app_nil_r.
  - destruct (IH (ps ++ [task_prog cfg t]) (rs ++ [no_share])) as (rs' & H1 & H2).
    + by apply Inv_spawn.
    + apply Forall2_app; [done|]. constructor; [|done]. by apply task_prog_spec.
    + exists (no_share :: rs'). rewrite <- !app_assoc in *. done.
Qed.

(** A step keeps the shares of the other goroutines. *)
Lemma step_shares m ev rs : answer_ok ev.2 -> shares_of m rs ->
  exists rs', shares_of (step cfg m ev) rs' /\ forall i r, i <> ev.1 -> rs !! i = Some r -> rs' !! i = Some r.
Proof.
  intros Ha Hm. pose proof Hm as (Hcr & HI & Hall). unfold step. rewrite Hcr.
  destruct (threads m !! ev.1) as [p|] eqn:Hp; [|by exists rs].
  destruct (Forall2_lookup_l _ _ _ _ _ Hall Hp) as (r & Hr & Hwp).
  pose proof (tstep_sound _ _ _ _ _ _ _ Ha HI Hr Hwp) as Hs.
  destruct (tstep _ _ _ _) as [|msg|σ' p' ts]; [by exists rs|done|].
  destruct Hs as (Hts & r' & HI' & Hwp').
  destruct (spawn_all σ' ts Hts (<[ev.1 := p']> (threads m)) (<[ev.1 := r']> rs)) as (rs' & H1 & H2);
    [done|by apply Forall2_insert|].
  exists (<[ev.1 := r']> rs ++ rs'). split; [done|]. intros i ri Hne Hi. apply lookup_app_l_Some.
  by rewrite list_lookup_insert_ne.
Qed.

Lemma step_accounted m ev : answer_ok ev.2 -> accounted m -> accounted (step cfg m ev).
Proof. intros Ha [rs Hm]. destruct (step_shares m ev rs Ha Hm) as (rs' & H & _). by exists rs'. Qed.

Definition opener : share := mkShare 0 0 0 0 ∅ (mkCtl None None false None false None false true).

Lemma start_Inv n : config_ok M cfg -> Inv M (NewPool cfg) (opener :: replicate n no_share).
Proof.
  intros Hcfg. exists (fun _ => PIdle), (fun _ => SIdle).
  assert (Hlook : forall {B} (f : share -> B) b i y, f opener = b -> f no_share = b ->
            (f <$> opener :: replicate n no_share) !! i = Some y -> y = b).
  { intros B f b i y H1 H2 Hi. apply list_lookup_fmap_Some in Hi as (r & -> & Hr).
    destruct i as [|i]; cbn in Hr; [by injection Hr as <-|]. by apply lookup_replicate in Hr as [-> _]. }
  assert (Hzero : forall f : share -> Z, f opener = 0 -> f no_share = 0 -> sumZ (f <$> opener :: replicate n no_share) = 0).
  { intros f H1 H2. clear Hlook Hcfg. cbn. rewrite H1. induction n as [|k IH]; cbn; [done|]. rewrite H2. exact IH. }
  split.
  - split; cbn [ints NewPool]; rewrite <- ?list_fmap_compose, ?Hzero; try done; try apply Hcfg.
    + intros x [i Hi]%list_elem_of_lookup. by rewrite (Hlook _ counts (0, 0, (0, 0)) i x).
    + cbn. lia.
    + cbn. lia.
    + split; apply Hcfg.
  - split; cbn; try done.
    + constructor.
    + intros p Hp. by apply not_elem_of_nil in Hp.
    + intros i o p c Hi. by rewrite (Hlook _ r_own ∅ i o).
  - intros i s l e Hi. by apply (Hlook _ locks None) in Hi.
  - split; cbn [wait inbox NewPool]; try done.
    + constructor.
    + intros w. split; [intros H; by apply not_elem_of_nil in H|done].
    + intros i w. split; [done|]. intros [b Hb]. by apply (Hlook _ waits (false, None)) in Hb.
    + intros w. rewrite lookup_empty. split; [by intros [? ?]|done].
    + intros w. split; [done|]. intros [b Hb]. by apply (Hlook _ waits (false, None)) in Hb.
  - split; try done; cbn [close_ capacityMu chans NewPool].
    + intros i c Hi. by apply (Hlook _ mus (false, None)) in Hi.
    + intros i b ch x Hi. by apply (Hlook _ mus (false, None)) in Hi.
  - split; try done; cbn [held published served NewPool].
    + intros i. rewrite lookup_empty. destruct (_ !! i) as [y|] eqn:E; [|done].
      apply (Hlook _ helds (None, false)) in E; [|done..]. by rewrite E.
    + intros i p b Hi. by apply (Hlook _ helds (None, false)) in Hi.
    + intros i x Hi. by apply (Hlook _ helds (None, false)) in Hi.
  - split; [done|]. intros [|i] Hi; [done|]. cbn in Hi. apply list_lookup_fmap_Some in Hi as (r & E & Hr).
    apply lookup_replicate in Hr as [-> _]. done.
Qed.

Lemma start_accounted users :
  config_ok M cfg -> Forall (Forall (call_ok M)) users -> accounted (start cfg users).
Proof.
  intros Hcfg Hu. exists (opener :: replicate (length users) no_share). split; [done|].
  split; [by apply start_Inv|]. constructor; [by apply main_spec|].
  induction Hu as [|cs users Hcs _ IH]; cbn; constructor; [by apply user_spec|done].
Qed.

(** Every run of every set of users. *)
Lemma run_accounted users sched :
  config_ok M cfg -> Forall (Forall (call_ok M)) users -> Forall (fun ev => answer_ok ev.2) sched ->
  accounted (run cfg sched (start cfg users)).
Proof.
  intros Hcfg Hu Hs. unfold run. pose proof (start_accounted users Hcfg Hu) as Hm. revert Hm.
  generalize (start cfg users). induction Hs as [|ev sched Hev _ IH]; intros m Hm; [done|].
  apply IH. by apply step_accounted.
Qed.

(** ** What the invariant says of the pool *)

Lemma Inv_holder σ rs wh st i p : InvG M σ rs wh st -> held σ !! i = Some p -> wh p = POwned i /\ is_Some (heap σ !! p).
Proof.
  intros [_ Hp _ _ _ Hct _] Hi. destruct Hct as [Hh Hown _ _ _]. rewrite Hh in Hi.
  destruct ((helds <$> rs) !! i) as [[x b]|] eqn:E; [|done]. cbn in Hi. subst x.
  destruct (Hown i p b E) as (o & Ho & c & Hc). destruct (pl_own _ _ _ _ _ _ Hp i o p c Ho Hc) as [H1 H2]. eauto.
Qed.

Lemma Inv_held_own σ rs i p : Inv M σ rs -> held σ !! i = Some p ->
  exists r c, rs !! i = Some r /\ r_own r !! p = Some c /\ heap σ !! p = Some c.
Proof.
  intros (wh & st & [_ Hp _ _ _ [Hh Hown _ _ _] _]) Hi. rewrite Hh in Hi.
  destruct ((helds <$> rs) !! i) as [[x b]|] eqn:E; [|done]. cbn in Hi. subst x.
  destruct (Hown i p b E) as (o & Ho & c & Hc). destruct (pl_own _ _ _ _ _ _ Hp i o p c Ho Hc) as [_ H2].
  apply list_lookup_fmap_Some in Ho as (r & -> & Hr). eauto.
Qed.

Lemma Inv_exclusive σ rs : Inv M σ rs ->
  (forall i j p, held σ !! i = Some p -> held σ !! j = Some p -> i = j) /\
  (forall i p, held σ !! i = Some p -> p ∉ idle σ /\ forall w, inbox σ !! w <> Some p) /\
  NoDup (idle σ).
Proof.
  intros (wh & st & HI). pose proof HI as [_ Hp _ _ _ _ _]. split_and!.
  - intros i j p Hi Hj. destruct (Inv_holder _ _ _ _ _ _ HI Hi), (Inv_holder _ _ _ _ _ _ HI Hj). congruence.
  - intros i p Hi. destruct (Inv_holder _ _ _ _ _ _ HI Hi) as [Hw _]. split.
    + intros Hin. destruct (pl_idle _ _ _ _ _ _ Hp p Hin). congruence.
    + intros w Hm. destruct (pl_mail _ _ _ _ _ _ Hp w p Hm). congruence.
  - apply Hp.
Qed.

Lemma Inv_counts σ rs : Inv M σ rs -> 0 <= ints σ borrowed <= ints σ active - live_idle σ /\ 0 <= ints σ capacity <= M /\ ints σ active <= M.
Proof.
  intros (wh & st & [[Ha Hb _ Hs Hc Hm [Hn1 Hn2] _] _ _ _ _ _ _]). rewrite Ha, Hb.
  assert (H1 : 0 <= sumZ ((counts <$> rs).*1.*2)).
  { apply sumZ_nonneg. intros y (z & -> & (u & -> & Hu)%list_elem_of_fmap)%list_elem_of_fmap. apply (Hs u Hu). }
  assert (H2 : sumZ ((counts <$> rs).*1.*2) <= sumZ ((counts <$> rs).*1.*1)).
  { rewrite <- !(list_fmap_compose fst). apply sumZ_le. intros u Hu. cbn. apply (Hs u Hu). }
  lia.
Qed.

(** A goroutine that has finished, or waits for its next tick. *)
Definition resting (p : prog unit) : bool :=
  match p with Ret _ | Tick _ _ => true | _ => false end.

Lemma resting_rest p r : wp p r (fun _ => at_rest) -> resting p = true -> at_rest r.
Proof. destruct p; try done. by intros [? _]. Qed.

Lemma sumZ_zero (l : list Z) : (forall x, x ∈ l -> x = 0) -> sumZ l = 0.
Proof.
  induction l as [|x l IH]; intros H; [done|]. rewrite sumZ_cons, (H x) by left. rewrite IH; [done|].
  intros y Hy. apply H. by right.
Qed.

Lemma Inv_rest σ rs : Inv M σ rs -> Forall at_rest rs ->
  ints σ borrowed = 0 /\ ints σ requested = 0 /\ ints σ lent = 0 /\ ints σ active = live_idle σ /\ held σ = ∅ /\ wait σ = [] /\ inbox σ = ∅.
Proof.
  intros (wh & st & [[Ha Hb Hr _ _ _ _ _] _ _ [_ Hq _ Hm Hw] _ [Hh _ _ _ _] _]) Hrest.
  assert (Hlook : forall {B} (f : share -> B) b, (forall r, at_rest r -> f r = b) -> forall x, x ∈ f <$> rs -> x = b).
  { intros B f b Hf x (r & -> & Hin)%list_elem_of_fmap. apply Hf. rewrite Forall_forall in Hrest. by apply Hrest. }
  assert (Hz : forall f : share -> Z, (forall r, at_rest r -> f r = 0) -> sumZ (f <$> rs) = 0).
  { intros f Hf. apply sumZ_zero. by apply Hlook. }
  assert (Hst : forall w, st w = SIdle).
  { intros w. destruct (decide (st w = SIdle)) as [E|E]; [done|]. apply Hw in E as [s Hs].
    apply list_elem_of_lookup_2 in Hs. apply (Hlook _ waits (false, None)) in Hs; [done|].
    by intros r (_ & _ & ? & _). }
  assert (Hin : inbox σ = ∅).
  { apply map_eq. intros w. rewrite lookup_empty. destruct (inbox σ !! w) eqn:E; [|done].
    assert (st w = SMailed) by (apply Hm; by rewrite E). by rewrite Hst in *. }
  destruct Hr as [Hr Hl]. rewrite <- !list_fmap_compose in Ha. rewrite <- !list_fmap_compose in Hb.
  rewrite <- !list_fmap_compose in Hr. rewrite <- !list_fmap_compose in Hl.
  rewrite Hz in Ha by (by intros r ([= E _ _ _] & _)). rewrite Hz in Hb by (by intros r ([= _ E _ _] & _)).
  rewrite Hz in Hr by (by intros r ([= _ _ E _] & _)). rewrite Hz in Hl by (by intros r ([= _ _ _ E] & _)).
  rewrite Hin in *. split_and!; try done.
  - rewrite Ha, map_size_empty. lia.
  - apply map_eq. intros i. rewrite Hh, lookup_empty. destruct ((helds <$> rs) !! i) as [[x b]|] eqn:E; [|done].
    apply list_lookup_fmap_Some in E as (r & [= -> _] & Hi). rewrite Forall_forall in Hrest.
    by destruct (Hrest r (list_elem_of_lookup_2 _ _ _ Hi)) as (_ & _ & _ & _ & ->).
  - destruct (wait σ) as [|w l] eqn:E; [done|]. assert (st (w_elem w) = SQueued) by (apply Hq; left).
    by rewrite Hst in *.
Qed.
End Safety.

(** ** What the pool promises *)

Section Promises.
Context (M : Z) (HM : 0 <= M <= int64_max) (cfg : Config) (Hcfg : config_ok M cfg).
Context (users : list (list call)) (Husers : Forall (Forall (call_ok M)) users).
Context (sched : list (nat * answer)) (Hsched : Forall (fun ev => answer_ok ev.2) sched).

Notation m := (run cfg sched (start cfg users)).
Notation σ := (pool m).

Lemma reached : accounted M m.
Proof. by apply run_accounted. Qed.

(** C12: No goroutine panics: whatever the users call within the bounds, however
    the driver fails, contexts expire and goroutines interleave, no busy
    connection is borrowed again, no channel is closed twice, no nil pointer is
    followed, the nil backend a failed dial leaves behind included, and no index is
    out of range. *)
Theorem pool_never_panics : crashed (run cfg sched (start cfg users)) = None.
Proof. by destruct reached as (rs & ? & _). Qed.

(** C13: A connection is in one place: two clients never hold the same one, and
    a connection that is held is neither in an idle stack nor on its way to a
    waiter; no connection is in the idle stacks twice. *)
Theorem pool_lends_exclusively :
  (forall i j p, held σ !! i = Some p -> held σ !! j = Some p -> i = j) /\
  (forall i p, held σ !! i = Some p -> p ∉ idle σ /\ forall w, inbox σ !! w <> Some p) /\
  NoDup (idle σ).
Proof. destruct reached as (rs & _ & HI & _). by apply (Inv_exclusive M _ rs). Qed.

(** C14: While a client holds a connection, no other goroutine touches it: a step
    of any other goroutine leaves its contents as they were. *)
Theorem pool_leaves_held_alone i p j ans :
  answer_ok ans -> i <> j -> held σ !! i = Some p ->
  heap (pool (step cfg m (j, ans))) !! p = heap σ !! p /\ is_Some (heap σ !! p).
Proof.
  intros Ha Hij Hh. destruct reached as (rs & Hm). pose proof Hm as (_ & HI & _).
  destruct (Inv_held_own M _ _ _ _ HI Hh) as (r & c & Hi & Hc & ->). split; [|done].
  destruct (step_shares M HM cfg _ (j, ans) rs Ha Hm) as (rs' & (_ & (wh & st & [_ Hp _ _ _ _ _]) & _) & Hsame).
  eapply (pl_own _ _ _ _ _ _ Hp i (r_own r)); [|done]. by apply share_lookup, Hsame.
Qed.

(** C15: The counters: at every moment the pool has at most as many open
    connections as the largest capacity it was given, and the connections lent
    out and the live idle ones together are at most the open ones. *)
Theorem pool_within_capacity :
  0 <= ints σ borrowed /\ ints σ borrowed + live_idle σ <= ints σ active /\ ints σ active <= M /\
  0 <= ints σ capacity <= M.
Proof. destruct reached as (rs & _ & HI & _). pose proof (Inv_counts M _ rs HI). lia. Qed.

(** C16: Every connection a client was ever given was open, part of the pool and
    unmarked, and had the settings the client asked for: the very settings
    object of a request with settings, none of a request without. *)
Theorem pool_serves_what_was_asked s : s ∈ served σ ->
  lendable (given s) /\ fits (wanted s) (given s).
Proof.
  destruct reached as (rs & _ & (wh & st & [_ _ _ _ _ [_ _ _ _ Hsv] _]) & _). rewrite Forall_forall in Hsv. apply Hsv.
Qed.

(** C17: Nothing leaks: once every goroutine has finished or waits for its next
    tick, no connection is lent out or requested, the pool's owner has been told of
    as many returns as loans, nobody waits, no handover is
    pending, and the open connections are exactly the live idle ones. *)
Theorem pool_leaks_nothing : forallb resting (threads m) = true ->
  ints σ borrowed = 0 /\ ints σ requested = 0 /\ ints σ lent = 0 /\ ints σ active = live_idle σ /\
  held σ = ∅ /\ wait σ = [] /\ inbox σ = ∅.
Proof.
  intros Hrest. destruct reached as (rs & _ & HI & Hall). apply (Inv_rest M _ rs HI).
  rewrite forallb_forall in Hrest. apply Forall_forall. intros r [i Hi]%list_elem_of_lookup.
  destruct (Forall2_lookup_r _ _ _ _ _ Hall Hi) as (p & Hp & Hwp). apply (resting_rest M p r Hwp).
  apply Hrest, list_elem_of_In. by eapply list_elem_of_lookup_2.
Qed.
End Promises.

(** *** The promises on concrete runs *)

Lemma plain_ok cap : 0 <= cap -> config_ok cap (plain cap).
Proof. intros Hc. split; cbn; [lia|by left|by left|lia]. Qed.

Lemma plain_one_ok : config_ok 1 (plain 1).
Proof. by apply plain_ok. Qed.

Lemma one_fits : 0 <= 1 <= int64_max.
Proof. done. Qed.

Lemma pair_of_clients_ok M : Forall (Forall (call_ok M)) pair_of_clients.
Proof. by repeat constructor. Qed.

Lemma pool_never_panics_witness :
  len (wait (pool (run (plain 1) lending (start (plain 1) pair_of_clients)))) = 1 /\
  crashed (run (plain 1) lending (start (plain 1) pair_of_clients)) = None.
Proof.
  split; [by vm_compute|].
  apply (pool_never_panics 1 one_fits (plain 1) plain_one_ok pair_of_clients
    (pair_of_clients_ok 1) lending lending_ok).
Defined.

Lemma pool_lends_exclusively_witness :
  held (pool (run (plain 1) lending (start (plain 1) pair_of_clients))) !! 1%nat = Some 0%nat /\
  0%nat ∉ idle (pool (run (plain 1) lending (start (plain 1) pair_of_clients))).
Proof.
  assert (H : held (pool (run (plain 1) lending (start (plain 1) pair_of_clients))) !! 1%nat = Some 0%nat)
    by (by vm_compute).
  split; [exact H|].
  destruct (pool_lends_exclusively 1 one_fits (plain 1) plain_one_ok pair_of_clients
    (pair_of_clients_ok 1) lending lending_ok) as (_ & Hheld & _). exact (proj1 (Hheld 1%nat 0%nat H)).
Defined.

Lemma pool_leaves_held_alone_witness :
  held (pool (run (plain 1) lending (start (plain 1) pair_of_clients))) !! 1%nat = Some 0%nat /\
  heap (pool (step (plain 1) (run (plain 1) lending (start (plain 1) pair_of_clients)) (2%nat, expired_ctx))) !! 0%nat =
  heap (pool (run (plain 1) lending (start (plain 1) pair_of_clients))) !! 0%nat.
Proof.
  assert (H : held (pool (run (plain 1) lending (start (plain 1) pair_of_clients))) !! 1%nat = Some 0%nat)
    by (by vm_compute).
  split; [exact H|].
  exact (proj1 (pool_leaves_held_alone 1 one_fits (plain 1) plain_one_ok pair_of_clients
    (pair_of_clients_ok 1) lending lending_ok 1%nat 0%nat 2%nat expired_ctx expired_ctx_ok ltac:(discriminate) H)).
Defined.

Lemma pool_within_capacity_witness :
  ints (pool (run (plain 1) lending (start (plain 1) pair_of_clients))) borrowed = 1 /\
  ints (pool (run (plain 1) lending (start (plain 1) pair_of_clients))) active <= 1.
Proof.
  split; [by vm_compute|].
  destruct (pool_within_capacity 1 one_fits (plain 1) plain_one_ok pair_of_clients
    (pair_of_clients_ok 1) lending lending_ok) as (_ & _ & Hle & _). exact Hle.
Defined.

Lemma pool_serves_what_was_asked_witness :
  exists s, wanted s = tz /\ lendable (given s) /\ fits (wanted s) (given s).
Proof.
  eexists (mkService 2 tz (mkPooled 100 300 0 true false (mkConn tz false))). split; [done|].
  apply (pool_serves_what_was_asked 1 one_fits (plain 1) plain_one_ok pair_of_clients
    (pair_of_clients_ok 1) settled_down settled_down_ok).
  vm_compute. left.
Defined.

Lemma pool_leaks_nothing_witness :
  ints (pool (run (plain 1) settled_down (start (plain 1) pair_of_clients))) active = 1 /\
  ints (pool (run (plain 1) settled_down (start (plain 1) pair_of_clients))) borrowed = 0.
Proof.
  split; [by vm_compute|].
  destruct (pool_leaks_nothing 1 one_fits (plain 1) plain_one_ok pair_of_clients
    (pair_of_clients_ok 1) settled_down settled_down_ok) as [Hb _]; [by vm_compute|exact Hb].
Defined.
