(* ===== verification/ConnWaiters.v ===== *)
(** How long a waiter can be overtaken: waitlist.go's [tryReturnConnSlow] prefers a
    waiter that wants the settings of the returned connection, but ages the ones it
    passes over. *)

From stdpp Require Import base gmap numbers list strings.
From S2P Require Import Prelude ConnPool ConnSync.

Local Open Scope Z_scope.

(** What happens to the list: a connection with these settings is handed over, a
    client joins, a waiter leaves. *)
Inductive queue_op := Handoff (s : option Settings) | Join (i : nat) (s : option Settings) | Quit (i : nat).

Definition queue_step (l : list waiter) (op : queue_op) : list waiter :=
  match op with
  | Handoff s => match choose_waiter s l with Some (_, l') => l' | None => l end
  | Join i s => l ++ [mkWaiter i s 0]
  | Quit i => filter (fun w => w_elem w <> i) l
  end.

(** These are what the actions of the pool do to its list. *)
Lemma take_waiter_queue s i ans σ : exists b, take_waiter s i ans σ = Next (set_wait σ (queue_step (wait σ) (Handoff s))) b.
Proof.
  unfold take_waiter. cbn. destruct (choose_waiter s (wait σ)) as [[w l]|]; eexists; [done|]. by destruct σ.
Qed.

Lemma PushBackValue_queue s i ans σ :
  PushBackValue s i ans σ = Next (set_wait σ (queue_step (wait σ) (Join i s))) tt.
Proof. done. Qed.

Lemma filter_everyone {A} (P : A -> Prop) `{forall x, Decision (P x)} (l : list A) : Forall P l -> filter P l = l.
Proof. induction 1 as [|x l Hx _ IH]; [done|]. by rewrite filter_cons_True, IH. Qed.

Lemma remove_self_queue i ans σ :
  exists b, remove_self i ans σ = Next (set_wait σ (queue_step (wait σ) (Quit i))) b.
Proof.
  unfold remove_self. destruct (decide _) as [Hin|Hin]; eexists; [done|]. cbn.
  rewrite filter_everyone; [by destruct σ|]. apply Forall_forall. intros w Hw E. apply Hin. rewrite <- E. by apply list_elem_of_fmap_2.
Qed.

(** How often the waiter behind [pre] can still be passed over. *)
Definition patience (pre : list waiter) (w : waiter) : Z := len pre + (maxAge + 1 - age w).

Definition aged (w : waiter) : waiter := mkWaiter (w_elem w) (w_settings w) (age w + 1).

(** The scan past a prefix: it stops there, goes on to this waiter, or passes it. *)
Lemma scan_split s pre w post :
  match scan_waiters s (pre ++ w :: post) with
  | None => age w <= maxAge
  | Some (t, l') =>
      t = w \/
      (exists pre', l' = pre' ++ w :: post /\ len pre' = len pre - 1) \/
      (exists post', l' = map aged pre ++ aged w :: post' /\ age w <= maxAge)
  end.
Proof.
  induction pre as [|v pre IH]; cbn.
  - destruct (Z.ltb_spec maxAge (age w)); cbn; [by left|]. destruct (same_settings _ _); [by left|].
    destruct (scan_waiters s post) as [[t l']|]; [|lia]. right. right. exists l'. split; [done|lia].
  - destruct (_ || _).
    { right. left. exists pre. split; [done|]. unfold len. cbn [length]. lia. }
    destruct (scan_waiters s (pre ++ w :: post)) as [[t l']|]; [|done].
    destruct IH as [->|[(pre' & -> & Hl)|(post' & -> & Hage)]]; [by left| |].
    + right. left. exists (aged v :: pre'). split; [done|]. unfold len in *. cbn [length] in *. lia.
    + right. right. by exists post'.
Qed.

Lemma handoff_progress s pre w post :
  exists t l', choose_waiter s (pre ++ w :: post) = Some (t, l') /\
    (w_elem t = w_elem w \/
     exists pre' w' post', l' = pre' ++ w' :: post' /\ w_elem w' = w_elem w /\
       age w' <= Z.max (age w) (maxAge + 1) /\ patience pre' w' < patience pre w).
Proof.
  unfold choose_waiter, patience. pose proof (scan_split s pre w post) as H.
  destruct (scan_waiters s (pre ++ w :: post)) as [[t l']|].
  - exists t, l'. split; [done|]. destruct H as [->|[(pre' & -> & Hl)|(post' & -> & Hage)]]; [by left|right..].
    + exists pre', w, post. split_and!; (done || lia).
    + exists (map aged pre), (aged w), post'. unfold len. rewrite length_map. cbn. split_and!; (done || lia).
  - destruct pre as [|v pre]; cbn; eexists _, _; (split; [done|]); [by left|]. right.
    exists (map aged pre), (aged w), (map aged post). rewrite map_app. unfold len. rewrite length_map. cbn.
    split_and!; (done || lia).
Qed.

Definition is_handoff (op : queue_op) : bool := match op with Handoff _ => true | _ => false end.

(** Another goroutine's arrival or departure, or a handover. *)
Definition leaves_be (i : nat) (op : queue_op) : Prop :=
  match op with Handoff _ => True | Join j _ => j <> i | Quit j => j <> i end.

Lemma queue_gone i ops l : Forall (leaves_be i) ops -> i ∉ w_elem <$> l -> i ∉ w_elem <$> foldl queue_step l ops.
Proof.
  intros Hops. revert l. induction Hops as [|op ops Hop _ IH]; intros l Hl; [done|]. apply IH. destruct op as [s|j s|j]; cbn in *.
  - destruct (choose_waiter s l) as [[t l']|] eqn:E; [|done]. apply choose_waiter_elems in E. rewrite E in Hl. set_solver.
  - rewrite fmap_app. cbn. set_solver.
  - intros (w & -> & [_ Hw]%list_elem_of_filter)%list_elem_of_fmap. apply Hl. by apply list_elem_of_fmap_2.
Qed.

(** The only waiter of its goroutine, behind these. *)
Definition stands (i : nat) (l : list waiter) (k : Z) : Prop :=
  exists pre w post, l = pre ++ w :: post /\ w_elem w = i /\ i ∉ w_elem <$> pre ++ post /\
    age w <= maxAge + 1 /\ patience pre w <= k.

Lemma stands_handoff s i l k : stands i l k ->
  i ∉ w_elem <$> queue_step l (Handoff s) \/ stands i (queue_step l (Handoff s)) (k - 1).
Proof.
  intros (pre & w & post & -> & <- & Hn & Hage & Hk). cbn.
  destruct (handoff_progress s pre w post) as (t & l' & E & Hcase). rewrite E. apply choose_waiter_elems in E.
  rewrite <- Permutation_middle in E. cbn in E. destruct Hcase as [Ht|(pre' & w' & post' & -> & Hw' & Hage' & Hp)].
  - left. rewrite Ht in E. apply Permutation_cons_inv in E. by rewrite <- E.
  - right. exists pre', w', post'. split_and!; [done|done| |lia|lia].
    rewrite <- Permutation_middle in E. cbn in E. rewrite Hw', Permutation_swap in E.
    apply Permutation_cons_inv in E. rewrite E in Hn. set_solver.
Qed.

Lemma stands_other op i l k : leaves_be i op -> is_handoff op = false -> stands i l k -> stands i (queue_step l op) k.
Proof.
  intros Hop Hh (pre & w & post & -> & <- & Hn & Hage & Hk). destruct op as [s|j s|j]; [done| |]; cbn in *.
  - exists pre, w, (post ++ [mkWaiter j s 0]). rewrite <- app_assoc. split_and!; try done.
    rewrite app_assoc, fmap_app. cbn. set_solver.
  - exists (filter (fun w => w_elem w <> j) pre), w, (filter (fun w => w_elem w <> j) post).
    rewrite filter_app, filter_cons_True by done. split_and!; try done.
    + rewrite <- filter_app. intros (v & E & [_ Hv]%list_elem_of_filter)%list_elem_of_fmap. apply Hn.
      rewrite E. by apply list_elem_of_fmap_2.
    + pose proof (length_filter (fun w => w_elem w <> j) pre). unfold patience, len in *. lia.
Qed.

Lemma stands_bound i ops : Forall (leaves_be i) ops -> forall l k, stands i l k ->
  i ∈ w_elem <$> foldl queue_step l ops -> len (filter is_handoff ops) <= k.
Proof.
  induction 1 as [|op ops Hop Hops IH]; intros l k Hl Hin.
  - destruct Hl as (pre & w & post & _ & _ & _ & Hage & Hk). unfold patience, len in *. cbn. lia.
  - cbn [foldl] in Hin. destruct (is_handoff op) eqn:E.
    + rewrite filter_cons_True by (by rewrite E). destruct op as [s|?|?]; try done.
      destruct (stands_handoff s i l k Hl) as [Hgone|Hs]; [by apply (queue_gone i ops) in Hgone|].
      specialize (IH _ _ Hs Hin). unfold len in *. cbn [length]. lia.
    + rewrite filter_cons_False by (rewrite E; intros []). eapply IH; [|done]. by apply stands_other.
Qed.

(** C18: No waiter starves: a client that joins behind [n] others and does not give
    up is served by the time [n + 10] more connections have been handed over,
    whatever settings they have and whoever else joins or leaves. *)
Theorem waiter_overtaken_boundedly l i s ops :
  i ∉ w_elem <$> l -> Forall (leaves_be i) ops ->
  i ∈ w_elem <$> foldl queue_step (queue_step l (Join i s)) ops ->
  len (filter is_handoff ops) <= len l + maxAge + 1.
Proof.
  intros Hi Hops. apply (stands_bound i ops Hops). exists l, (mkWaiter i s 0), [].
  rewrite app_nil_r. unfold patience. cbn. split_and!; try done. lia.
Qed.

(** Another client waits for the settings that come back, again and again. *)
Definition busy_list : list waiter := [mkWaiter 1 None 0].

Definition overtaking : list queue_op :=
  concat (replicate 10 [Handoff None; Join 1 None]).

Lemma waiter_overtaken_boundedly_witness :
  2%nat ∈ w_elem <$> foldl queue_step (queue_step busy_list (Join 2 (Some (mkSettings 7 [] 3)))) overtaking /\
  len (filter is_handoff overtaking) <= len busy_list + maxAge + 1.
Proof.
  assert (H : 2%nat ∈ w_elem <$> foldl queue_step (queue_step busy_list (Join 2 (Some (mkSettings 7 [] 3)))) overtaking).
  { vm_compute. left. }
  split; [exact H|]. eapply (waiter_overtaken_boundedly busy_list 2%nat (Some (mkSettings 7 [] 3)) overtaking); [| |exact H].
  - vm_compute. intros Hin. by apply list_elem_of_singleton in Hin.
  - unfold overtaking. cbn. by repeat constructor.
Defined.
