(* ===== verification/ConnRuns.v ===== *)
(** Runs of a connection pool that end where they should not: an idle connection
    that outlives [Close], a pool that [Close] leaves running, a waiter nobody
    wakes, and a lifetime that panics.  Each run is within the environment and the
    calls that the promises of [ConnSafety] allow, the last one apart. *)

From stdpp Require Import base gmap numbers list strings.
From S2P Require Import Prelude ConnPool ConnScrub ConnMachine ConnLogic ConnDemo.

Local Open Scope Z_scope.

Definition finished (m : machine) (i : nat) : bool :=
  match threads m !! i with Some (Ret _) => true | _ => false end.

(** A connection is returned between the look at the capacity and the push, while
    the pool is being closed: it stays idle and open, and only the timeout ends
    the wait for the drain. *)
Definition closing : list (list call) := [[Client None []]; [CallClose]].

Definition return_during_close : list (nat * answer) :=
  turn 0 40 (fine 2 100) ++ turn 1 38 (fine 2 100) ++ turn 2 60 (fine 2 200) ++ turn 1 5 (fine 2 300).

Lemma close_misses_returned_connection :
  let m := run (plain 1) return_during_close (start (plain 1) closing) in
  finished m 1 = true /\ idle (pool m) = [0%nat] /\ ints (pool m) active = 1 /\ ints (pool m) capacity = 0 /\
  (let m' := run (plain 1) (turn 2 500 (fine 2 300) ++ turn 3 50 (fine 2 300)) m in
   finished m' 2 = false /\ ints (pool m') active = 1) /\
  (let m' := run (plain 1) (turn 2 500 expired_ctx ++ turn 3 50 (fine 0 300) ++ turn 2 50 expired_ctx) m in
   finished m' 2 = true /\ idle (pool m') = [0%nat] /\
   (conn_IsClosed ∘ conn_Conn <$> heap (pool m')) = [false]).
Proof. by vm_compute. Qed.

(** [Close] takes a capacity of zero for a closed pool. *)
Lemma close_after_zero_capacity :
  let m := run (plain 1) (turn 0 40 (fine 2 100) ++ turn 1 100 (fine 2 200))
             (start (plain 1) [[CallSetCapacity 0; CallClose]]) in
  finished m 1 = true /\ close_ (pool m) = Some 0%nat /\ chans (pool m) = [false] /\ workers (pool m) = 1.
Proof. by vm_compute. Qed.

(** A discarded connection cannot be replaced: its slot is free, yet the client
    that waits for it is not told, and neither is it by the starvation worker. *)
Lemma failed_replacement_strands_waiter :
  let m := run (plain 1) (turn 0 40 (fine 2 100) ++ turn 1 21 (fine 2 100) ++ turn 2 60 (fine 0 100) ++
                          turn 1 40 refused ++ turn 3 200 (fine 2 400) ++ turn 2 100 (fine 2 400))
             (start (plain 1) [[Client None [UseClose]]; [Client None []]]) in
  finished m 1 = true /\ finished m 2 = false /\ len (wait (pool m)) = 1 /\
  ints (pool m) active = 0 /\ ints (pool m) capacity = 1 /\ ints (pool m) borrowed = 0.
Proof. by vm_compute. Qed.

(** [rand.Uint32N] is given the low 32 bits of the lifetime. *)
Lemma lifetime_of_a_multiple_panics :
  let cfg := mkConfig 1 0 (2 ^ 32) 0 0 false 0 [] in
  crashed (run cfg (turn 0 40 (fine 2 100) ++ turn 1 40 (fine 2 200)) (start cfg [[Client None []]])) =
  Some "invalid argument to Uint32N".
Proof. by vm_compute. Qed.
