(* ===== verification/PoolManager.v ===== *)
(** The connection pool manager: services/multipooler/internal/connpoolmanager
    (manager.go, user_pool.go and the garbage collection of rebalancer.go).

    The manager publishes an immutable map of user pools; lookups read it without
    a lock, and its writers (creation, eviction, garbage collection, [Open],
    [Close], [CloseForReopen]) hold [createMu].  A user pool guards its
    acquisitions against garbage collection with a read-write lock.  A goroutine
    is where it stands in these operations, [pc]; [gstep] is its next atomic step:
    an atomic load or store, a lock, or what runs while no other goroutine can see
    an intermediate state.  The pools themselves are [ConnPool]; here a user pool
    is the number of its connections checked out, and the shared settings cache is
    whether [Open] has made it ([GetOrCreate] of settings dereferences it before
    anything else).  Not modelled: metrics, logs, the admin pool, the passwords
    ([Open] panics when no password source was configured) and what the cache
    holds. *)

From stdpp Require Import base gmap numbers list strings.
From S2P Require Import Prelude.

Local Open Scope Z_scope.

(** ** Drain tracking *)

(** The counts of connections lent out and the channels that wait for zero;
    channels are numbered, with whether each is closed. *)
Record drain := mkDrain {
  regularCount : Z;
  reservedCount : Z;
  zeroCh : nat;
  reservedZeroCh : nat;
  drainChans : list bool
}.

Definition ch_closed (chs : list bool) (ch : nat) : bool := default false (chs !! ch).

(** The channel after [signalZeroChanLocked], and the channels. *)
Definition signalZeroChanLocked (total : Z) (ch : nat) (chs : list bool) : nat * list bool :=
  if total =? 0 then
    if ch_closed chs ch then (ch, chs) else (ch, <[ch := true]> chs)
  else if ch_closed chs ch then (length chs, chs ++ [false])
  else (ch, chs).

Definition regularAdd (n : Z) (d : drain) : drain :=
  let regular := regularCount d + n in
  let '(ch, chs) := signalZeroChanLocked (regular + reservedCount d) (zeroCh d) (drainChans d) in
  mkDrain regular (reservedCount d) ch (reservedZeroCh d) chs.

Definition reservedAdd (n : Z) (d : drain) : drain :=
  let reserved := reservedCount d + n in
  let '(rch, chs) := signalZeroChanLocked reserved (reservedZeroCh d) (drainChans d) in
  let '(ch, chs) := signalZeroChanLocked (regularCount d + reserved) (zeroCh d) chs in
  mkDrain (regularCount d) reserved ch rch chs.

(** [Open]'s part: two fresh channels, closed; the counts stay. *)
Definition open_drain (d : drain) : drain :=
  mkDrain (regularCount d) (reservedCount d) (length (drainChans d)) (S (length (drainChans d)))
    (drainChans d ++ [true; true]).

(** [WaitForDrain] and [WaitForReservedDrain] up to their select: nothing to wait
    for, or the channel to wait on. *)
Definition WaitForDrain (d : drain) : option nat :=
  if regularCount d + reservedCount d =? 0 then None else Some (zeroCh d).

Definition WaitForReservedDrain (d : drain) : option nat :=
  if reservedCount d =? 0 then None else Some (reservedZeroCh d).

(** ** User pools *)

Record UserPool := mkUserPool {
  closing : bool;
  closed : bool;
  lastActivity : Z;
  (** who holds [acqMu] for read: how many acquisitions are in flight; *)
  readers : nat;
  (** the connections borrowed from its pools. *)
  borrowed : nat
}.

Definition HasCheckedOutConns (p : UserPool) : bool := (0 <? borrowed p)%nat.

(** [tryMarkInactive], under the write lock it tried for. *)
Definition tryMarkInactive (cutoff : Z) (p : UserPool) : bool * UserPool :=
  if (0 <? readers p)%nat then (false, p)
  else if closing p || (cutoff <=? lastActivity p) || HasCheckedOutConns p then (false, p)
  else (true, mkUserPool true (closed p) (lastActivity p) (readers p) (borrowed p)).

Definition set_readers (n : nat) (p : UserPool) : UserPool :=
  mkUserPool (closing p) (closed p) (lastActivity p) n (borrowed p).
Definition set_borrowed (n : nat) (p : UserPool) : UserPool :=
  mkUserPool (closing p) (closed p) (lastActivity p) (readers p) n.
Definition touchActivity (now : Z) (p : UserPool) : UserPool :=
  mkUserPool (closing p) (closed p) now (readers p) (borrowed p).
Definition close_pool (p : UserPool) : UserPool :=
  mkUserPool (closing p) true (lastActivity p) (readers p) (borrowed p).

(** ** The manager *)

Inductive managerLifecycle := lifecycleRunning | lifecycleReopening | lifecycleClosed.

#[export] Instance managerLifecycle_eq_dec : EqDecision managerLifecycle.
Proof. solve_decision. Defined.

(** Where a goroutine stands: in an acquisition, in a garbage collection, in
    [Open], [Close] or [CloseForReopen]. *)
Inductive pc :=
| Idle
(* GetRegularConnWithSettings and NewReservedConn, with settings *)
| WithSettings (user : string)
(* getOrCreateUserPool *)
| Lookup (user : string)
| Found (user : string) (p : nat)
| Missing (user : string)
| Create (user : string)
(* acquire *)
| Enter (user : string) (p : nat)
| Inside (user : string) (p : nat)
| Accepted (user : string) (p : nat)
| Leaving (p : nat)
| Holding (p : nat)
| Evict (user : string) (p : nat)
(* handleClosed *)
| Closed_
| Reopening
| Waiting (ch : nat)
(* garbageCollectInactivePools *)
| GcScan
| GcTry (cutoff : Z) (candidates : list string)
| GcClaim (cutoff : Z) (candidates : list string) (newPools : gmap string nat) (removed : list nat)
| GcUnlock (removed : list nat)
| GcClose (removed : list nat)
(* Close, CloseForReopen *)
| CloseLock (reopen : bool)
| Begun
| CloseStored
| EndReopen (done : option nat)
| Teardown
| CloseAll (pools : list nat)
(* Open *)
| OpenLock
| Opened
| OpenCached
| OpenStored
| OpenEnd (done : option nat).

Record Manager := mkManager {
  lifecycle : managerLifecycle;
  userPoolsSnapshot : option (gmap string nat);
  userPools : list UserPool;
  (** whether [settingsCache] is set: it is nil until the first [Open]; *)
  settingsCache : bool;
  createMu : option nat;
  reopenDone : option nat;
  chans : list bool;
  goroutines : list pc
}.

(** The environment of a step: the clock, what an idle goroutine does next, the
    outcome of the pool's operation, whether the caller's context is done. *)
Inductive op_result := Connection | Failed | ClosedPool | AuthenticationError.

Record env := mkEnv { now : Z; next : pc; outcome : op_result; cancelled : bool }.

Definition set_pc (i : nat) (c : pc) (m : Manager) : Manager :=
  mkManager (lifecycle m) (userPoolsSnapshot m) (userPools m) (settingsCache m) (createMu m) (reopenDone m) (chans m)
    (<[i := c]> (goroutines m)).
Definition set_pools (ps : list UserPool) (m : Manager) : Manager :=
  mkManager (lifecycle m) (userPoolsSnapshot m) ps (settingsCache m) (createMu m) (reopenDone m) (chans m) (goroutines m).
Definition set_snapshot (s : gmap string nat) (m : Manager) : Manager :=
  mkManager (lifecycle m) (Some s) (userPools m) (settingsCache m) (createMu m) (reopenDone m) (chans m) (goroutines m).
Definition set_createMu (o : option nat) (m : Manager) : Manager :=
  mkManager (lifecycle m) (userPoolsSnapshot m) (userPools m) (settingsCache m) o (reopenDone m) (chans m) (goroutines m).
Definition setLifecycle (l : managerLifecycle) (m : Manager) : Manager :=
  mkManager l (userPoolsSnapshot m) (userPools m) (settingsCache m) (createMu m) (reopenDone m) (chans m) (goroutines m).
Definition set_reopen (o : option nat) (chs : list bool) (m : Manager) : Manager :=
  mkManager (lifecycle m) (userPoolsSnapshot m) (userPools m) (settingsCache m) (createMu m) o chs (goroutines m).
Definition make_cache (m : Manager) : Manager :=
  mkManager (lifecycle m) (userPoolsSnapshot m) (userPools m) true (createMu m) (reopenDone m) (chans m)
    (goroutines m).

Definition update_pool (p : nat) (f : UserPool -> UserPool) (m : Manager) : Manager :=
  set_pools (alter f p (userPools m)) m.

(** An idle goroutine starts one of the manager's operations. *)
Definition entry (c : pc) : bool :=
  match c with
  | Lookup user => negb (user =? "")%string
  | WithSettings _ | GcScan | CloseLock _ | OpenLock => true
  | _ => false
  end.

Definition is_gc (c : pc) : bool :=
  match c with GcScan | GcTry _ _ | GcClaim _ _ _ _ | GcUnlock _ | GcClose _ => true | _ => false end.

(** The lock-free scan of [garbageCollectInactivePools]. *)
Definition gc_candidate (m : Manager) (cutoff : Z) (p : nat) : bool :=
  match userPools m !! p with
  | Some x => (lastActivity x <? cutoff) && negb (HasCheckedOutConns x)
  | None => false
  end.

Definition gc_candidates (m : Manager) (cutoff : Z) (pools : gmap string nat) : list string :=
  fst <$> filter (fun up => gc_candidate m cutoff up.2) (map_to_list pools).

(** [createUserPoolSlow] after it has locked [createMu]. *)
Definition createUserPoolSlow (i : nat) (user : string) (t : Z) (m : Manager) : option Manager :=
  match userPoolsSnapshot m with
  | None => if decide (lifecycle m = lifecycleRunning) then None else Some (set_pc i Closed_ m)
  | Some pools =>
      match pools !! user with
      | Some p => Some (set_pc i (Enter user p) m)
      | None =>
          if decide (lifecycle m = lifecycleRunning) then
            let p := length (userPools m) in
            Some (set_pc i (Enter user p) (set_snapshot (<[user := p]> pools)
                    (set_pools (userPools m ++ [mkUserPool false false t 0 0]) m)))
          else Some (set_pc i Closed_ m)
      end
  end.

(** [evictUserPool] after it has locked [createMu]. *)
Definition evictUserPool (user : string) (stale : nat) (m : Manager) : Manager :=
  match userPoolsSnapshot m with
  | Some pools =>
      if decide (pools !! user = Some stale)
      then update_pool stale close_pool (set_snapshot (delete user pools) m)
      else m
  | None => m
  end.

(** [beginReopen] up to the store of the lifecycle. *)
Definition arm_reopen (m : Manager) : Manager :=
  match reopenDone m with
  | Some _ => m
  | None => set_reopen (Some (length (chans m))) (chans m ++ [false]) m
  end.

(** [endReopen]'s close of the channel it has taken; closing it twice panics. *)
Definition close_reopen (done : option nat) (m : Manager) : option Manager :=
  match done with
  | None => Some m
  | Some ch => if ch_closed (chans m) ch then None else Some (set_reopen (reopenDone m) (<[ch := true]> (chans m)) m)
  end.

(** A new manager is closed; its goroutines are idle. *)
Definition NewManager (n : nat) : Manager :=
  mkManager lifecycleClosed None [] false None None [] (replicate n Idle).

(** ** Steps

    One step of goroutine [i] from where it stands; a blocked goroutine stays
    there, and [None] is a panic. *)

(** The lookup of the settings, and [getOrCreateUserPool]. *)
Definition lookup_step (i : nat) (e : env) (c : pc) (m : Manager) : option Manager :=
  match c with
  | WithSettings user =>
      if settingsCache m
      then Some (set_pc i (if (user =? "")%string then Idle else Lookup user) m)
      else None
  | Lookup user =>
      Some (set_pc i (match userPoolsSnapshot m ≫= lookup user with
                      | Some p => Found user p
                      | None => Missing user
                      end) m)
  | Found user p =>
      match userPools m !! p with
      | Some x => Some (set_pc i (if closing x then Missing user else Enter user p) m)
      | None => None
      end
  | Missing user =>
      Some (set_pc i (if decide (lifecycle m = lifecycleRunning) then Create user else Closed_) m)
  | Create user =>
      match createMu m with
      | Some _ => Some m
      | None => createUserPoolSlow i user (now e) m
      end
  | _ => Some m
  end.

(** [acquire], and the return of what it borrowed. *)
Definition acquire_step (i : nat) (e : env) (c : pc) (m : Manager) : option Manager :=
  match c with
  | Enter user p => Some (set_pc i (Inside user p) (update_pool p (fun x => set_readers (S (readers x)) x) m))
  | Inside user p =>
      match userPools m !! p with
      | None => None
      | Some x =>
          if closing x
          then Some (set_pc i Closed_ (update_pool p (fun x => set_readers (pred (readers x)) x) m))
          else Some (set_pc i (Accepted user p) (update_pool p (touchActivity (now e)) m))
      end
  | Accepted user p =>
      let leave := update_pool p (fun x => set_readers (pred (readers x)) x) m in
      Some (match outcome e with
            | Connection => set_pc i (Leaving p) (update_pool p (fun x => set_borrowed (S (borrowed x)) x) m)
            | Failed => set_pc i Idle leave
            | ClosedPool => set_pc i Closed_ leave
            | AuthenticationError => set_pc i (Evict user p) leave
            end)
  | Leaving p => Some (set_pc i (Holding p) (update_pool p (fun x => set_readers (pred (readers x)) x) m))
  | Holding p => Some (set_pc i Idle (update_pool p (fun x => set_borrowed (pred (borrowed x)) x) m))
  | _ => Some m
  end.

(** [handleClosed]. *)
Definition closed_step (i : nat) (e : env) (c : pc) (m : Manager) : option Manager :=
  match c with
  | Closed_ =>
      Some (set_pc i (if decide (lifecycle m = lifecycleReopening) then Reopening else Idle) m)
  | Reopening =>
      Some (set_pc i (match reopenDone m with Some ch => Waiting ch | None => Idle end) m)
  | Waiting ch => Some (if ch_closed (chans m) ch || cancelled e then set_pc i Idle m else m)
  | _ => Some m
  end.

(** [Close] and [CloseForReopen] with [beginReopen], [endReopen] and
    [teardownLocked]. *)
Definition close_step (i : nat) (c : pc) (m : Manager) : option Manager :=
  match c with
  | CloseLock reopen =>
      match createMu m with
      | Some _ => Some m
      | None =>
          let m := set_createMu (Some i) m in
          Some (if reopen : bool then set_pc i Begun (arm_reopen m)
                else if decide (lifecycle m = lifecycleClosed) then set_pc i Idle (set_createMu None m)
                else set_pc i CloseStored (setLifecycle lifecycleClosed m))
      end
  | Begun => Some (set_pc i Teardown (setLifecycle lifecycleReopening m))
  | CloseStored => Some (set_pc i (EndReopen (reopenDone m)) (set_reopen None (chans m) m))
  | EndReopen done =>
      set_pc i Teardown <$> close_reopen done m
  | Teardown =>
      if existsb is_gc (goroutines m) then Some m
      else Some (set_pc i (CloseAll (default [] (map snd ∘ map_to_list <$> userPoolsSnapshot m))) m)
  | CloseAll pools =>
      Some (match pools with
            | [] => set_pc i Idle (set_createMu None (set_snapshot ∅ m))
            | p :: pools => set_pc i (CloseAll pools) (update_pool p close_pool m)
            end)
  | _ => Some m
  end.

(** [Open], ending with [endReopen]. *)
Definition open_step (i : nat) (c : pc) (m : Manager) : option Manager :=
  match c with
  | OpenLock =>
      match createMu m with
      | Some _ => Some m
      | None => Some (set_pc i Opened (set_snapshot ∅ (set_createMu (Some i) m)))
      end
  | Opened => Some (set_pc i OpenCached (make_cache m))
  | OpenCached => Some (set_pc i OpenStored (setLifecycle lifecycleRunning m))
  | OpenStored => Some (set_pc i (OpenEnd (reopenDone m)) (set_reopen None (chans m) m))
  | OpenEnd done =>
      set_pc i Idle ∘ set_createMu None <$> close_reopen done m
  | _ => Some m
  end.

Section Machine.
Context (inactiveTimeout : Z).

(** [garbageCollectInactivePools]. *)
Definition gc_step (i : nat) (e : env) (c : pc) (m : Manager) : option Manager :=
  match c with
  | GcScan =>
      Some (match userPoolsSnapshot m with
            | None => set_pc i Idle m
            | Some pools =>
                if inactiveTimeout <=? 0 then set_pc i Idle m
                else
                  let cutoff := now e - inactiveTimeout in
                  match gc_candidates m cutoff pools with
                  | [] => set_pc i Idle m
                  | candidates => set_pc i (GcTry cutoff candidates) m
                  end
            end)
  | GcTry cutoff candidates =>
      match createMu m with
      | Some _ => Some (set_pc i Idle m)
      | None =>
          match userPoolsSnapshot m with
          | None => None
          | Some pools => Some (set_pc i (GcClaim cutoff candidates pools []) (set_createMu (Some i) m))
          end
      end
  | GcClaim cutoff (user :: candidates) newPools removed =>
      match newPools !! user with
      | None => Some (set_pc i (GcClaim cutoff candidates newPools removed) m)
      | Some p =>
          match userPools m !! p with
          | None => None
          | Some x =>
              let '(claimed, x) := tryMarkInactive cutoff x in
              let m := set_pools (<[p := x]> (userPools m)) m in
              Some (set_pc i (if claimed : bool
                              then GcClaim cutoff candidates (delete user newPools) (removed ++ [p])
                              else GcClaim cutoff candidates newPools removed) m)
          end
      end
  | GcClaim cutoff [] newPools removed =>
      Some (set_pc i (GcUnlock removed) (match removed with [] => m | _ => set_snapshot newPools m end))
  | GcUnlock removed => Some (set_pc i (GcClose removed) (set_createMu None m))
  | GcClose removed =>
      Some (match removed with
            | [] => set_pc i Idle m
            | p :: removed => set_pc i (GcClose removed) (update_pool p close_pool m)
            end)
  | _ => Some m
  end.

(** Any step: an idle goroutine starts an operation, the others go on. *)
Definition gstep (i : nat) (e : env) (m : Manager) : option Manager :=
  match goroutines m !! i with
  | None => Some m
  | Some c =>
      match c with
      | Idle => Some (if entry (next e) then set_pc i (next e) m else m)
      | Evict user p =>
          match createMu m with
          | Some _ => Some m
          | None => Some (set_pc i Idle (evictUserPool user p m))
          end
      | WithSettings _ | Lookup _ | Found _ _ | Missing _ | Create _ => lookup_step i e c m
      | Enter _ _ | Inside _ _ | Accepted _ _ | Leaving _ | Holding _ => acquire_step i e c m
      | Closed_ | Reopening | Waiting _ => closed_step i e c m
      | GcScan | GcTry _ _ | GcClaim _ _ _ _ | GcUnlock _ | GcClose _ => gc_step i e c m
      | CloseLock _ | Begun | CloseStored | EndReopen _ | Teardown | CloseAll _ => close_step i c m
      | OpenLock | Opened | OpenCached | OpenStored | OpenEnd _ => open_step i c m
      end
  end.

Definition grun (sched : list (nat * env)) (m : Manager) : option Manager :=
  foldl (fun m ev => m ≫= gstep ev.1 ev.2) (Some m) sched.
End Machine.

(** ** Retrying an acquisition *)

Definition maxPoolClosedRetries : nat := 4.

(** The errors [withReopenRetry] tells apart. *)
Inductive acquire_error := ErrManagerClosed | ErrPoolClosed | ErrAuthentication | ErrContext | ErrOther.

Definition is_closed (e : acquire_error) : bool :=
  match e with ErrManagerClosed | ErrPoolClosed => true | _ => false end.

(** One round: the lookup's error, the operation's result, the lifecycle
    [handleClosed] loads and whether the context ends while it waits. *)
Record attempt (A : Type) := mkAttempt {
  lookup_error : option acquire_error;
  op_outcome : acquire_error + A;
  seen_lifecycle : managerLifecycle;
  ctx_done : bool
}.
Arguments mkAttempt {A}.
Arguments lookup_error {A}.
Arguments op_outcome {A}.
Arguments seen_lifecycle {A}.
Arguments ctx_done {A}.

(** Whether to retry, and the context's error. *)
Definition handleClosed (l : managerLifecycle) (done : bool) : bool * option acquire_error :=
  match l with
  | lifecycleReopening => if done then (false, Some ErrContext) else (true, None)
  | lifecycleClosed => (false, None)
  | lifecycleRunning => (true, None)
  end.

(** [withReopenRetry] from round [k] on, with the result and the last round. *)
Fixpoint withReopenRetry {A} (fuel : nat) (rounds : nat -> attempt A) (k closedAttempts : nat)
    (authRetried : bool) : option ((acquire_error + A) * nat) :=
  match fuel with
  | O => None
  | S fuel =>
      let a := rounds k in
      let fail (e : acquire_error) :=
        if is_closed e then
          if (maxPoolClosedRetries <=? closedAttempts)%nat then Some (inl e, k)
          else
            match handleClosed (seen_lifecycle a) (ctx_done a) with
            | (_, Some werr) => Some (inl werr, k)
            | (true, None) => withReopenRetry fuel rounds (S k) (S closedAttempts) authRetried
            | (false, None) => Some (inl e, k)
            end
        else Some (inl e, k) in
      match lookup_error a with
      | Some e => fail e
      | None =>
          match op_outcome a with
          | inr v => Some (inr v, k)
          | inl ErrAuthentication =>
              if authRetried then Some (inl ErrAuthentication, k)
              else withReopenRetry fuel rounds (S k) closedAttempts true
          | inl e => fail e
          end
      end
  end.
