(* ===== verification/PoolManagerSafety.v ===== *)
(** What the connection pool manager promises: its drain channels, its retries,
    its garbage collection and its reopen window. *)

From stdpp Require Import base gmap numbers list strings.
From S2P Require Import Prelude PoolManager.

Local Open Scope Z_scope.

(** ** Drain channels *)

(** [signalZeroChanLocked]: the channel it leaves is closed exactly at zero; the
    old one is kept while it is open, and no channel is ever reopened. *)
Lemma signal_spec total ch chs ch' chs' :
  signalZeroChanLocked total ch chs = (ch', chs') -> (ch < length chs)%nat ->
  (ch' < length chs' /\ length chs <= length chs')%nat /\ ch_closed chs' ch' = (total =? 0) /\
  (forall c, c <> ch -> (c < length chs)%nat -> ch_closed chs' c = ch_closed chs c) /\
  (ch' = ch \/ ch' = length chs /\ ch_closed chs ch = true) /\
  ch_closed chs' ch = ch_closed chs ch || (total =? 0).
Proof.
  unfold signalZeroChanLocked, ch_closed. intros E Hch.
  destruct (total =? 0), (chs !! ch) as [[|]|] eqn:Ec; cbn in E; injection E as <- <-;
    try (apply lookup_ge_None in Ec; lia); cbn.
  - rewrite Ec. split_and!; try done; lia.
  - rewrite length_insert, list_lookup_insert_eq by done. split_and!; try done; try lia.
    intros c Hne _. by rewrite list_lookup_insert_ne.
  - rewrite length_app, lookup_app_r, Nat.sub_diag, (lookup_app_l chs), Ec by lia.
    split_and!; try done; try (cbn; lia); try (by right). intros c _ Hc. by rewrite lookup_app_l.
  - rewrite Ec. split_and!; try done; lia.
Qed.

Inductive drain_event := Borrow | Recycle | Reserve | Release | Reopen.

Definition drain_step (d : drain) (ev : drain_event) : drain :=
  match ev with
  | Borrow => regularAdd 1 d
  | Recycle => regularAdd (-1) d
  | Reserve => reservedAdd 1 d
  | Release => reservedAdd (-1) d
  | Reopen => open_drain d
  end.

Definition lent (d : drain) : Z := regularCount d + reservedCount d.

Record drain_ok (d : drain) : Prop := {
  dr_valid : (zeroCh d < length (drainChans d) /\ reservedZeroCh d < length (drainChans d))%nat;
  dr_apart : zeroCh d <> reservedZeroCh d;
  dr_zero : ch_closed (drainChans d) (zeroCh d) = (lent d =? 0);
  dr_reserved : ch_closed (drainChans d) (reservedZeroCh d) = (reservedCount d =? 0) }.

(** What a step does to the channel somebody waits on. *)
Definition gate_step (chan : drain -> nat) (total : drain -> Z) (d d' : drain) : Prop :=
  (forall ch, (ch < length (drainChans d))%nat ->
     (ch < length (drainChans d'))%nat /\
     (ch_closed (drainChans d) ch = true -> ch_closed (drainChans d') ch = true)) /\
  (total d <> 0 -> ch_closed (drainChans d') (chan d) = (total d' =? 0) /\ (total d' <> 0 -> chan d' = chan d)).

Lemma regularAdd_gates n d : drain_ok d ->
  drain_ok (regularAdd n d) /\ gate_step zeroCh lent d (regularAdd n d) /\
  gate_step reservedZeroCh reservedCount d (regularAdd n d).
Proof.
  intros [[V1 V2] Hne Hz Hr]. unfold regularAdd.
  destruct (signalZeroChanLocked _ _ _) as [ch chs] eqn:E.
  destruct (signal_spec _ _ _ _ _ E V1) as ((S1 & S2) & S3 & S4 & S5 & S6).
  assert (Hrz : ch_closed chs (reservedZeroCh d) = (reservedCount d =? 0)) by (by rewrite S4 by done).
  assert (Hmono : forall c, (c < length (drainChans d))%nat ->
    (c < length chs)%nat /\ (ch_closed (drainChans d) c = true -> ch_closed chs c = true)).
  { intros c Hc. split; [lia|]. intros Hcl. destruct (decide (c = zeroCh d)) as [->|Hn].
    - by rewrite S6, Hcl.
    - by rewrite S4. }
  split_and!.
  - split; cbn; [lia| |done|done]. destruct S5 as [->|[-> _]]; [done|]. lia.
  - split; [done|]. cbn. unfold lent in *. cbn. intros Ht. apply Z.eqb_neq in Ht. rewrite Ht in Hz.
    rewrite S6, Hz. split; [done|]. intros _. by destruct S5 as [->|[_ ?]]; [|congruence].
  - split; [done|]. cbn. by intros _.
Qed.

Lemma reservedAdd_gates n d : drain_ok d ->
  drain_ok (reservedAdd n d) /\ gate_step zeroCh lent d (reservedAdd n d) /\
  gate_step reservedZeroCh reservedCount d (reservedAdd n d).
Proof.
  intros [[V1 V2] Hne Hz Hr]. unfold reservedAdd.
  destruct (signalZeroChanLocked _ (reservedZeroCh d) _) as [rch chs] eqn:E.
  destruct (signal_spec _ _ _ _ _ E V2) as ((S1 & S2) & S3 & S4 & S5 & S6).
  destruct (signalZeroChanLocked _ (zeroCh d) chs) as [ch chs'] eqn:E'.
  destruct (signal_spec _ _ _ _ _ E' ltac:(lia)) as ((T1 & T2) & T3 & T4 & T5 & T6).
  assert (Hrne : rch <> zeroCh d) by (destruct S5 as [->|[-> _]]; [done|lia]).
  assert (Hmono : forall c, (c < length (drainChans d))%nat ->
    (c < length chs')%nat /\ (ch_closed (drainChans d) c = true -> ch_closed chs' c = true)).
  { intros c Hc. split; [lia|]. intros Hcl.
    assert (Hc1 : ch_closed chs c = true).
    { destruct (decide (c = reservedZeroCh d)) as [->|Hn]; [by rewrite S6, Hcl|by rewrite S4]. }
    destruct (decide (c = zeroCh d)) as [->|Hn]; [by rewrite T6, Hc1|by rewrite T4 by (done || lia)]. }
  split_and!.
  - split; cbn; [lia| |done|by rewrite T4 by (done || lia)]. destruct T5 as [->|[-> _]]; [done|]. lia.
  - split; [done|]. cbn. unfold lent in *. cbn. intros Ht. apply Z.eqb_neq in Ht. rewrite Ht in Hz.
    rewrite T6, S4, Hz by done. split; [done|].
    intros _. destruct T5 as [->|[_ Hcl]]; [done|]. rewrite S4 in Hcl by done. congruence.
  - split; [done|]. cbn. intros Ht. apply Z.eqb_neq in Ht. rewrite Ht in Hr.
    rewrite T4 by (done || lia). rewrite S6, Hr. split; [done|].
    intros _. by destruct S5 as [->|[_ ?]]; [|congruence].
Qed.

(** [Open] finds everything returned. *)
Definition quiet (d : drain) (ev : drain_event) : Prop :=
  ev = Reopen -> regularCount d = 0 /\ reservedCount d = 0.

Lemma open_gates d : drain_ok d -> regularCount d = 0 -> reservedCount d = 0 ->
  drain_ok (open_drain d) /\ gate_step zeroCh lent d (open_drain d) /\
  gate_step reservedZeroCh reservedCount d (open_drain d).
Proof.
  intros [[V1 V2] Hne Hz Hr] H1 H2. unfold open_drain, gate_step, lent. cbn.
  assert (Hmono : forall c, (c < length (drainChans d))%nat ->
    (c < length (drainChans d ++ [true; true]))%nat /\
    (ch_closed (drainChans d) c = true -> ch_closed (drainChans d ++ [true; true]) c = true)).
  { intros c Hc. rewrite length_app. split; [lia|]. unfold ch_closed. by rewrite lookup_app_l. }
  split_and!; try done; try lia. split; cbn; rewrite ?length_app; cbn; unfold lent, ch_closed; cbn; try lia.
  - rewrite lookup_app_r, Nat.sub_diag by lia. cbn. symmetry. apply Z.eqb_eq. lia.
  - rewrite lookup_app_r by lia. replace (S _ - _)%nat with 1%nat by lia. cbn. symmetry. apply Z.eqb_eq. lia.
Qed.

Lemma drain_step_gates d ev : drain_ok d -> quiet d ev ->
  drain_ok (drain_step d ev) /\ gate_step zeroCh lent d (drain_step d ev) /\
  gate_step reservedZeroCh reservedCount d (drain_step d ev).
Proof.
  intros Hd Hq. destruct ev; cbn;
    [by apply regularAdd_gates|by apply regularAdd_gates|by apply reservedAdd_gates|by apply reservedAdd_gates|].
  destruct (Hq eq_refl). by apply open_gates.
Qed.

(** The states a sequence of events goes through. *)
Fixpoint drain_states (d : drain) (evs : list drain_event) : list drain :=
  match evs with [] => [] | ev :: evs => let d := drain_step d ev in d :: drain_states d evs end.

Fixpoint all_quiet (d : drain) (evs : list drain_event) : Prop :=
  match evs with [] => True | ev :: evs => quiet d ev /\ all_quiet (drain_step d ev) evs end.

Lemma closed_stays chan total evs : (forall d ev, drain_ok d -> quiet d ev -> gate_step chan total d (drain_step d ev)) ->
  forall d ch, drain_ok d -> all_quiet d evs -> (ch < length (drainChans d))%nat -> ch_closed (drainChans d) ch = true ->
  ch_closed (drainChans (foldl drain_step d evs)) ch = true.
Proof.
  intros Hg. induction evs as [|ev evs IH]; intros d ch Hd Hq Hch Hc; [done|]. destruct Hq as [Hq Hqs].
  destruct (Hg d ev Hd Hq) as [Hm _]. destruct (Hm ch Hch) as [H1 H2]. apply IH; [|done|done|by apply H2].
  by apply drain_step_gates.
Qed.

Lemma waiter_exact chan total evs :
  (forall d, drain_ok d -> (chan d < length (drainChans d))%nat /\ ch_closed (drainChans d) (chan d) = (total d =? 0)) ->
  (forall d ev, drain_ok d -> quiet d ev -> gate_step chan total d (drain_step d ev)) ->
  forall d, drain_ok d -> all_quiet d evs -> total d <> 0 ->
  ch_closed (drainChans (foldl drain_step d evs)) (chan d) = true <->
  exists d', d' ∈ drain_states d evs /\ total d' = 0.
Proof.
  intros Hok Hg. induction evs as [|ev evs IH]; intros d Hd Hq Ht; cbn.
  - split; [|by intros (? & ?%elem_of_nil & _)]. destruct (Hok d Hd) as [_ ->]. intros ?%Z.eqb_eq. done.
  - destruct Hq as [Hq Hqs]. destruct (Hg d ev Hd Hq) as [Hm Hs]. destruct (Hs Ht) as [Hcl Hsame].
    assert (Hd' : drain_ok (drain_step d ev)) by (by apply drain_step_gates).
    destruct (Hok d Hd) as [Hv _]. destruct (Hm _ Hv) as [Hv' _].
    destruct (decide (total (drain_step d ev) = 0)) as [E|E].
    + split; [intros _; exists (drain_step d ev); split; [left|done]|]. intros _.
      apply (closed_stays chan total); [done..|]. by rewrite Hcl, E.
    + rewrite <- (Hsame E), IH by done. split.
      * intros (d' & Hin & H0). exists d'. split; [by right|done].
      * intros (d' & [->|Hin]%elem_of_cons & H0); [done|]. by exists d'.
Qed.

Definition fresh_drain : drain := open_drain (mkDrain 0 0 0 0 []).

Lemma fresh_drain_ok : drain_ok fresh_drain.
Proof. by split; cbn; try lia. Qed.

Lemma run_drain_ok evs : forall d, drain_ok d -> all_quiet d evs -> drain_ok (foldl drain_step d evs).
Proof.
  induction evs as [|ev evs IH]; intros d Hd Hq; [done|]. destruct Hq as [Hq Hqs]. apply IH; [|done].
  by apply drain_step_gates.
Qed.

Lemma all_quiet_app d evs evs' : all_quiet d (evs ++ evs') <-> all_quiet d evs /\ all_quiet (foldl drain_step d evs) evs'.
Proof. revert d. induction evs as [|ev evs IH]; intros d; cbn; [tauto|]. rewrite IH. tauto. Qed.

(** C25: Draining waits for exactly what it should: after any borrows, recycles,
    reserves and releases, a [WaitForDrain] that has to wait is released if and
    only if there was a moment since it started at which no connection at all was
    lent out, and a [WaitForReservedDrain] if and only if there was one at which
    none was reserved; for reopens that find every connection returned. *)
Theorem drain_waits_exactly before after ch :
  let d := foldl drain_step fresh_drain before in
  let d' := foldl drain_step d after in
  all_quiet fresh_drain (before ++ after) ->
  (WaitForDrain d = Some ch ->
   (ch_closed (drainChans d') ch = true <-> exists x, x ∈ drain_states d after /\ lent x = 0)) /\
  (WaitForReservedDrain d = Some ch ->
   (ch_closed (drainChans d') ch = true <-> exists x, x ∈ drain_states d after /\ reservedCount x = 0)).
Proof.
  intros d d' [Hb Ha]%all_quiet_app. fold d in Ha.
  assert (Hd : drain_ok d) by (apply run_drain_ok; [apply fresh_drain_ok|done]).
  unfold WaitForDrain, WaitForReservedDrain. split.
  - destruct (Z.eqb_spec (regularCount d + reservedCount d) 0) as [E|E]; [done|]. intros [= <-].
    apply (waiter_exact zeroCh lent); [|intros; by apply drain_step_gates|done..].
    intros x Hx. split; [apply Hx|]. apply Hx.
  - destruct (Z.eqb_spec (reservedCount d) 0) as [E|E]; [done|]. intros [= <-].
    apply (waiter_exact reservedZeroCh reservedCount); [|intros; by apply drain_step_gates|done..].
    intros x Hx. split; [apply Hx|]. apply Hx.
Qed.

Lemma drain_waits_exactly_witness :
  WaitForDrain (foldl drain_step fresh_drain [Borrow; Reserve]) = Some 2%nat /\
  ch_closed (drainChans (foldl drain_step (foldl drain_step fresh_drain [Borrow; Reserve]) [Release; Recycle; Borrow])) 2 = true.
Proof.
  split; [done|].
  apply (proj1 (drain_waits_exactly [Borrow; Reserve] [Release; Recycle; Borrow] 2 ltac:(done))); [done|].
  eexists. split; [right; left|done].
Defined.

(** [Open] with connections still lent out: the drain does not wait for them. *)
Lemma reopen_forgets_loans :
  let d := foldl drain_step fresh_drain [Borrow; Reopen] in
  lent d = 1 /\ exists ch, WaitForDrain d = Some ch /\ ch_closed (drainChans d) ch = true.
Proof. split; [done|]. by eexists. Qed.

(** ** Retries *)

Section Retries.
Context {A : Type} (rounds : nat -> attempt A).

(** What a round failed with. *)
Definition round_error (a : attempt A) : option acquire_error :=
  match lookup_error a with
  | Some e => Some e
  | None => match op_outcome a with inl e => Some e | inr _ => None end
  end.

Definition closed_round (k : nat) : bool := from_option is_closed false (round_error (rounds k)).

Definition auth_round (k : nat) : bool :=
  match lookup_error (rounds k), op_outcome (rounds k) with
  | None, inl ErrAuthentication => true
  | _, _ => false
  end.

(** How many of the first [k] rounds. *)
Definition count_rounds (P : nat -> bool) (k : nat) : nat := length (filter P (seq 0 k)).

Lemma count_rounds_S P k : count_rounds P (S k) = (count_rounds P k + if P k then 1 else 0)%nat.
Proof.
  unfold count_rounds. rewrite seq_S, filter_app, length_app, Nat.add_0_l. f_equal.
  destruct (P k) eqn:E; [rewrite filter_cons_True by (by rewrite E)|rewrite filter_cons_False by (rewrite E; intros [])]; done.
Qed.

(** A result that [withReopenRetry] may give at round [k]. *)
Definition retry_result (r : acquire_error + A) (k : nat) : Prop :=
  match r with
  | inr v => lookup_error (rounds k) = None /\ op_outcome (rounds k) = inr v
  | inl e =>
      (is_closed e = true ->
       seen_lifecycle (rounds k) = lifecycleClosed \/ count_rounds closed_round (S k) = S maxPoolClosedRetries) /\
      (auth_round k = true -> count_rounds auth_round (S k) = 2%nat)
  end.

Lemma retry_from fuel : forall k c (auth : bool),
  (maxPoolClosedRetries + 2 <= fuel + c + if auth then 1 else 0)%nat -> (c <= maxPoolClosedRetries)%nat ->
  count_rounds closed_round k = c -> count_rounds auth_round k = (if auth then 1 else 0)%nat ->
  exists r n, withReopenRetry fuel rounds k c auth = Some (r, n) /\
    (k <= n /\ n - k < fuel)%nat /\ retry_result r n.
Proof.
  induction fuel as [|fuel IH]; intros k c auth Hf Hc Hcl Hau; [unfold maxPoolClosedRetries in *; destruct auth; lia|].
  assert (Hcl' := count_rounds_S closed_round k). assert (Hau' := count_rounds_S auth_round k).
  rewrite Hcl in Hcl'. rewrite Hau in Hau'.
  assert (Hfail : forall e, round_error (rounds k) = Some e -> auth_round k = false ->
    exists r n,
    (if is_closed e then
       if (maxPoolClosedRetries <=? c)%nat then Some (inl e, k)
       else
         match handleClosed (seen_lifecycle (rounds k)) (ctx_done (rounds k)) with
         | (_, Some werr) => Some (inl werr, k)
         | (true, None) => withReopenRetry fuel rounds (S k) (S c) auth
         | (false, None) => Some (inl e, k)
         end
     else Some (inl e, k)) = Some (r, n) /\ (k <= n /\ n - k < S fuel)%nat /\ retry_result r n).
  { intros e He Ha. assert (Hck : closed_round k = is_closed e) by (unfold closed_round; by rewrite He).
    rewrite Hck in Hcl'.
    destruct (is_closed e) eqn:Ee; [|exists (inl e), k; split_and!; try done; try lia; split; [by rewrite Ee|by rewrite Ha]].
    destruct (Nat.leb_spec maxPoolClosedRetries c) as [Hle|Hlt].
    { exists (inl e), k. split_and!; try done; try lia. split; [right; lia|by rewrite Ha]. }
    unfold handleClosed. destruct (seen_lifecycle (rounds k)) eqn:El; [|destruct (ctx_done (rounds k))|].
    - destruct (IH (S k) (S c) auth) as (r & n & H1 & H2 & H3); [lia|lia|lia|rewrite Ha in Hau'; lia|].
      exists r, n. split_and!; try done; lia.
    - exists (inl ErrContext), k. split_and!; try done; try lia. split; [done|by rewrite Ha].
    - destruct (IH (S k) (S c) auth) as (r & n & H1 & H2 & H3); [lia|lia|lia|rewrite Ha in Hau'; lia|].
      exists r, n. split_and!; try done; lia.
    - exists (inl e), k. split_and!; try done; try lia. split; [by left|by rewrite Ha]. }
  cbn [withReopenRetry]. destruct (lookup_error (rounds k)) as [e|] eqn:El.
  { apply Hfail; [unfold round_error|unfold auth_round]; by rewrite El. }
  destruct (op_outcome (rounds k)) as [e|v] eqn:Eo; [|exists (inr v), k; split_and!; try done; lia].
  destruct e; try (apply Hfail; [unfold round_error|unfold auth_round]; by rewrite El, Eo).
  assert (Ha : auth_round k = true) by (unfold auth_round; by rewrite El, Eo).
  assert (Hck : closed_round k = false) by (unfold closed_round, round_error; by rewrite El, Eo).
  rewrite Ha in Hau'. rewrite Hck in Hcl'. destruct auth.
  - exists (inl ErrAuthentication), k. split_and!; try done; try lia; intros _; lia.
  - destruct (IH (S k) c true) as (r & n & H1 & H2 & H3); [lia..|]. exists r, n. split_and!; try done; lia.
Qed.

(** An acquisition ends within [maxPoolClosedRetries + 2] rounds, with the
    connection of its last round or an error; a closed pool is reported only when
    the manager is closed for good or after five closed rounds, and a failed
    authentication only after a second one, with a new pool. *)
Theorem retries_bounded : exists r n,
  withReopenRetry (maxPoolClosedRetries + 2) rounds 0 0 false = Some (r, n) /\
  (n < maxPoolClosedRetries + 2)%nat /\ retry_result r n.
Proof.
  destruct (retry_from (maxPoolClosedRetries + 2) 0 0 false) as (r & n & H1 & H2 & H3); [lia..|done|done|].
  exists r, n. split_and!; try done. lia.
Qed.
End Retries.
