(* ===== verification/PoolManagerGc.v ===== *)
(** Garbage collection, eviction and reopening against acquisitions: the invariant
    of the connection pool manager's goroutines. *)

From stdpp Require Import base gmap numbers list strings.
From S2P Require Import Prelude PoolManager.

Local Open Scope nat_scope.

(** ** Counting goroutines *)

Definition cnt (f : pc -> bool) (l : list pc) : nat := length (filter f l).

Definition b2n (b : bool) : nat := if b then 1 else 0.

Lemma cnt_cons f c l : cnt f (c :: l) = b2n (f c) + cnt f l.
Proof.
  unfold cnt, b2n. destruct (f c) eqn:E.
  - by rewrite filter_cons_True by (by rewrite E).
  - by rewrite filter_cons_False by (rewrite E; intros []).
Qed.

Lemma cnt_insert f l i c c' : l !! i = Some c -> cnt f (<[i := c']> l) + b2n (f c) = cnt f l + b2n (f c').
Proof.
  revert i. induction l as [|d l IH]; intros [|i]; try done; cbn [lookup list_lookup].
  - intros [= ->]. change (<[0 := c']> (c :: l)) with (c' :: l). rewrite !cnt_cons. lia.
  - intros Hi. change (<[S i := c']> (d :: l)) with (d :: <[i := c']> l). rewrite !cnt_cons. specialize (IH i Hi). lia.
Qed.

Lemma cnt_le f g h l : (forall c, b2n (f c) <= b2n (g c) + b2n (h c)) -> cnt f l <= cnt g l + cnt h l.
Proof. intros Hf. induction l as [|c l IH]; [done|]. rewrite !cnt_cons. specialize (Hf c). lia. Qed.

Lemma cnt_zero f l : (forall c, c ∈ l -> f c = false) -> cnt f l = 0.
Proof.
  induction l as [|c l IH]; intros H; [done|]. rewrite cnt_cons, (H c), IH; [done| |left].
  intros d Hd. apply H. by right.
Qed.

Lemma cnt_none f l i c : cnt f l = 0 -> l !! i = Some c -> f c = false.
Proof.
  revert i. induction l as [|d l IH]; intros [|i]; try done; rewrite cnt_cons; cbn [lookup list_lookup].
  - intros H [= ->]. destruct (f c); [cbn in H; lia|done].
  - intros H Hi. apply (IH i); [lia|done].
Qed.

(** In an acquisition of this pool, with a connection of it, or past the check
    that it is not being collected. *)
Definition inside (p : nat) (c : pc) : bool :=
  match c with Inside _ q | Accepted _ q | Leaving q => q =? p | _ => false end.
Definition out (p : nat) (c : pc) : bool :=
  match c with Leaving q | Holding q => q =? p | _ => false end.
Definition past_check (p : nat) (c : pc) : bool :=
  match c with Accepted _ q | Leaving q | Holding q => q =? p | _ => false end.

Record pool_ok (l : list pc) (p : nat) (x : UserPool) : Prop := {
  po_readers : readers x = cnt (inside p) l;
  po_borrowed : borrowed x = cnt (out p) l;
  po_closing : closing x = true -> cnt (past_check p) l = 0 }.

Definition pools_ok (ups : list UserPool) (l : list pc) : Prop :=
  forall p x, ups !! p = Some x -> pool_ok l p x.

(** The pools a goroutine knows. *)
Definition mentions (c : pc) : list nat :=
  match c with
  | Found _ p | Enter _ p | Inside _ p | Accepted _ p | Leaving p | Holding p | Evict _ p => [p]
  | GcClaim _ _ np removed => (map_to_list np).*2 ++ removed
  | GcUnlock removed | GcClose removed => removed
  | CloseAll pools => pools
  | _ => []
  end.

Definition valid (n : nat) (s : option (gmap string nat)) (l : list pc) : Prop :=
  (forall i c p, l !! i = Some c -> p ∈ mentions c -> p < n) /\
  (forall pools u p, s = Some pools -> pools !! u = Some p -> p < n).

(** No difference to any pool. *)
Definition alike (p : nat) (c c' : pc) : Prop :=
  inside p c' = inside p c /\ out p c' = out p c /\ past_check p c' = past_check p c.

Lemma pool_ok_alike l i c c' p x : l !! i = Some c -> alike p c c' -> pool_ok l p x -> pool_ok (<[i := c']> l) p x.
Proof.
  intros Hi (A1 & A2 & A3) [H1 H2 H3].
  pose proof (cnt_insert (inside p) l i c c' Hi). pose proof (cnt_insert (out p) l i c c' Hi).
  pose proof (cnt_insert (past_check p) l i c c' Hi). rewrite A1, A2, A3 in *.
  split; [lia|lia|]. intros Hc. specialize (H3 Hc). lia.
Qed.

Lemma pools_alike ups l i c c' : l !! i = Some c -> (forall p, alike p c c') -> pools_ok ups l -> pools_ok ups (<[i := c']> l).
Proof. intros Hi Ha H p x Hx. by eapply pool_ok_alike; [| |apply H]. Qed.

Lemma alter_lookup {A} (f : A -> A) (l : list A) p q y : alter f p l !! q = Some y ->
  (q <> p /\ l !! q = Some y) \/ (q = p /\ exists x, l !! p = Some x /\ y = f x).
Proof.
  destruct (decide (q = p)) as [->|Hne].
  - rewrite list_lookup_alter_eq. intros Hy. right. split; [done|]. destruct (l !! p) as [x|]; [|done]. injection Hy as <-. by exists x.
  - rewrite list_lookup_alter_ne by done. by left.
Qed.

Lemma pools_alter ups l i c c' p f :
  l !! i = Some c -> (forall q, q <> p -> alike q c c') ->
  (forall x, ups !! p = Some x -> pool_ok l p x -> pool_ok (<[i := c']> l) p (f x)) ->
  pools_ok ups l -> pools_ok (alter f p ups) (<[i := c']> l).
Proof.
  intros Hi Ha Hp H q y Hy. apply alter_lookup in Hy as [[Hne Hy]|[-> (x & Hx & ->)]].
  - eapply pool_ok_alike; [done|by apply Ha|by apply H].
  - by apply Hp; [|apply H].
Qed.

Lemma pools_insert ups l p x : pool_ok l p x -> pools_ok ups l -> pools_ok (<[p := x]> ups) l.
Proof.
  intros Hx H q y Hy. destruct (decide (q = p)) as [->|Hne].
  - apply list_lookup_insert_Some in Hy as [(_ & <- & _)|[[] _]]; done.
  - rewrite list_lookup_insert_ne in Hy by done. by apply H.
Qed.

(** Garbage collection claims a pool nobody is using. *)
Lemma tryMarkInactive_ok l p cutoff x claimed x' : tryMarkInactive cutoff x = (claimed, x') ->
  pool_ok l p x -> pool_ok l p x'.
Proof.
  unfold tryMarkInactive. intros E [H1 H2 H3]. repeat case_match; simplify_eq/=; try done.
  split; cbn; [done|done|]. intros _.
  assert (Hu : cnt (past_check p) l <= cnt (inside p) l + cnt (out p) l).
  { apply cnt_le. intros []; cbn; try lia. }
  unfold HasCheckedOutConns in *. apply orb_false_iff in H0 as [_ H0].
  apply Nat.ltb_ge in H. apply Nat.ltb_ge in H0. lia.
Qed.

(** A new pool, which nobody knows yet. *)
Lemma pools_new ups l i c c' s t :
  l !! i = Some c -> (forall p, alike p c c') -> valid (length ups) s l -> pools_ok ups l ->
  pools_ok (ups ++ [mkUserPool false false t 0 0]) (<[i := c']> l).
Proof.
  intros Hi Ha [Hv _] H p x Hx. apply (pool_ok_alike l i c); [done|done|].
  apply lookup_app_Some in Hx as [Hx|[Hge Hx]]; [by apply H|].
  apply list_lookup_singleton_Some in Hx as [Hp <-].
  assert (Hz : forall f, (forall d, f d = true -> p ∈ mentions d) -> cnt f l = 0).
  { intros f Hf. apply cnt_zero. intros d [j Hj]%list_elem_of_lookup. destruct (f d) eqn:E; [|done].
    specialize (Hv j d p Hj (Hf d E)). lia. }
  split; cbn; [symmetry|symmetry|done]; apply Hz; intros [] Hd; try done; apply Nat.eqb_eq in Hd; subst; left.
Qed.

(** ** The lock *)

Definition locked (c : pc) : bool :=
  match c with
  | GcClaim _ _ _ _ | GcUnlock _ | Begun | CloseStored | EndReopen _ | Teardown | CloseAll _
  | Opened | OpenCached | OpenStored | OpenEnd _ => true
  | _ => false
  end.

Definition mutex (mu : option nat) (l : list pc) : Prop :=
  forall i, mu = Some i <-> exists c, l !! i = Some c /\ locked c = true.

Lemma mutex_keep mu l i c c' : l !! i = Some c -> locked c' = locked c -> mutex mu l -> mutex mu (<[i := c']> l).
Proof.
  intros Hi Hl H j. etransitivity; [apply H|]. destruct (decide (j = i)) as [->|Hne].
  - rewrite list_lookup_insert_eq by (by eapply lookup_lt_Some). split; intros (d & Hd & Hd').
    + exists c'. split; [done|]. congruence.
    + exists c. split; [done|]. congruence.
  - by rewrite list_lookup_insert_ne.
Qed.

Lemma mutex_lock l i c c' : l !! i = Some c -> locked c' = true -> mutex None l -> mutex (Some i) (<[i := c']> l).
Proof.
  intros Hi Hl H j. destruct (decide (j = i)) as [->|Hne].
  - rewrite list_lookup_insert_eq by (by eapply lookup_lt_Some). split; [|done]. intros _. by exists c'.
  - rewrite list_lookup_insert_ne by done. split; [by intros [= ->]|]. intros Hd. by apply H in Hd.
Qed.

Lemma mutex_unlock mu l i c c' : l !! i = Some c -> locked c = true -> locked c' = false -> mutex mu l ->
  mutex None (<[i := c']> l).
Proof.
  intros Hi Hc Hl H j. split; [done|]. intros (d & Hd & Hd'). destruct (decide (j = i)) as [->|Hne].
  - rewrite list_lookup_insert_eq in Hd by (by eapply lookup_lt_Some). congruence.
  - rewrite list_lookup_insert_ne in Hd by done.
    assert (mu = Some j) by (apply H; eauto). assert (mu = Some i) by (apply H; eauto). congruence.
Qed.

(** ** Steps *)

(** The cases of a step: where goroutine [i] stands and what it reads. *)
Ltac gcases m i E Hi :=
  unfold gstep in E; destruct (goroutines m !! i) as [c|] eqn:Hi; [|by injection E as <-];
  destruct c; cbv beta iota delta [lookup_step acquire_step closed_step gc_step close_step open_step] in E;
  unfold createUserPoolSlow, evictUserPool, arm_reopen, close_reopen, update_pool in E;
  repeat case_match; simplify_eq/=; try done;
  try match goal with Hm : createMu _ = _ |- _ => rewrite ?Hm end;
  try match goal with Hm : userPoolsSnapshot _ = _ |- _ => rewrite ?Hm end;
  try match goal with Hm : reopenDone _ = _ |- _ => rewrite ?Hm end;
  try match goal with He : entry (next ?e) = true |- _ => destruct (next e) eqn:Hnext; try discriminate He end.

Lemma step_mutex t i e m m' : gstep t i e m = Some m' ->
  mutex (createMu m) (goroutines m) -> mutex (createMu m') (goroutines m').
Proof.
  intros E. gcases m i E Hi. all: intros Hmu; try done.
  all: first [ by eapply mutex_keep | by eapply mutex_unlock | by eapply mutex_lock | idtac ].
Qed.

Lemma valid_step n n' s s' l i c c' : valid n s l -> l !! i = Some c -> n <= n' ->
  (forall p, p ∈ mentions c' -> p < n') ->
  (forall pools u p, s' = Some pools -> pools !! u = Some p -> p < n') -> valid n' s' (<[i := c']> l).
Proof.
  intros [H _] Hi Hn Hc Hs. split; [|done]. intros j d p Hd Hp. destruct (decide (j = i)) as [->|Hne].
  - rewrite list_lookup_insert_eq in Hd by (by eapply lookup_lt_Some). injection Hd as <-. auto.
  - rewrite list_lookup_insert_ne in Hd by done. specialize (H j d p Hd Hp). lia.
Qed.

Lemma elem_values (s : gmap string nat) u p : s !! u = Some p -> p ∈ (map_to_list s).*2.
Proof. intros Hu. apply list_elem_of_fmap. exists (u, p). by rewrite elem_of_map_to_list. Qed.

Lemma values_elem (s : gmap string nat) p : p ∈ (map_to_list s).*2 -> exists u, s !! u = Some p.
Proof. intros ([u q] & -> & Hu)%list_elem_of_fmap. exists u. by apply elem_of_map_to_list in Hu. Qed.

(** Every pool a goroutine or the snapshot names exists. *)
Definition known (m : Manager) : Prop :=
  valid (length (userPools m)) (userPoolsSnapshot m) (goroutines m).

Lemma step_known t i e m m' : gstep t i e m = Some m' -> known m -> known m'.
Proof.
  unfold known. intros E. gcases m i E Hi. all: intros Hv; try done.
  all: pose proof Hv as [Hv1 Hv2]; pose proof (fun p => Hv1 i _ p Hi) as Hmine; cbn [mentions] in Hmine.
  all: rewrite ?length_alter, ?length_insert, ?length_app; cbn [length].
  all: eapply valid_step; [exact Hv|exact Hi|lia|cbn [mentions]|].
  all: try (intros q Hq; first [ by apply Hmine | by apply elem_of_nil in Hq | apply Hmine; set_solver ]).
  all: try (intros pools' u' q' Hs' Hu'; first [ by eapply Hv2 | simplify_eq/=; first [ by rewrite lookup_empty in Hu'
         | apply lookup_delete_Some in Hu' as [? Hu']; by eapply Hv2
         | apply Hmine; apply elem_of_app; left; by eapply elem_values ] ]).
  - intros q ->%list_elem_of_singleton. destruct (userPoolsSnapshot m) as [g|] eqn:Hs; [|done]. by eapply Hv2.
  - intros q ->%list_elem_of_singleton. by eapply Hv2.
  - intros q ->%list_elem_of_singleton. lia.
  - intros pools u p [= <-] [[<- <-]| [_ Hu]]%lookup_insert_Some; [lia|]. specialize (Hv2 _ u p eq_refl Hu). lia.
  - intros q [[u Hu]%values_elem| Hn%elem_of_nil]%elem_of_app; [by eapply Hv2|done].
  - intros q [[v [_ Hv3]%lookup_delete_Some]%values_elem| [Hq| ->%list_elem_of_singleton]%elem_of_app]%elem_of_app; apply Hmine;
      apply elem_of_app; [left|right|left]; eauto using elem_values.
  - destruct (userPoolsSnapshot m) as [g|]; [|by intros q Hn%elem_of_nil]. intros q [u Hu]%values_elem. by eapply Hv2.
Qed.

(** One pool's counters change with where its goroutine stands. *)
Ltac count_pools i Hi Hp :=
  let x := fresh "x" in let Hx := fresh "Hx" in let P1 := fresh "P1" in let P2 := fresh "P2" in
  let P3 := fresh "P3" in let Hc := fresh "Hc" in let q := fresh "q" in let Hq := fresh "Hq" in
  lazymatch goal with |- pools_ok (alter _ ?p _) (<[_ := ?c']> _) =>
    eapply pools_alter; [exact Hi| |intros x Hx [P1 P2 P3]|exact Hp];
    [ intros q Hq; repeat split; cbn; try done; first [ apply Nat.eqb_neq; congruence | symmetry; apply Nat.eqb_neq; congruence ]
    | pose proof (cnt_insert (inside p) _ i _ c' Hi); pose proof (cnt_insert (out p) _ i _ c' Hi);
      pose proof (cnt_insert (past_check p) _ i _ c' Hi);
      cbn in *; rewrite ?Nat.eqb_refl in *; cbn in *;
      split; cbn; [lia|lia|intros Hc; first [ specialize (P3 Hc); lia | congruence ] ] ] end.

(** The counters of every pool are right, and none being collected is in use. *)
Lemma step_pools t i e m m' : gstep t i e m = Some m' -> known m ->
  pools_ok (userPools m) (goroutines m) -> pools_ok (userPools m') (goroutines m').
Proof.
  unfold known. intros E. gcases m i E Hi. all: intros Hv Hp; try done.
  all: try (by eapply pools_alike).
  all: try (by count_pools i Hi Hp).
  - by eapply pools_new.
  - eapply pools_alike; [exact Hi|done|]. apply pools_insert; [|done]. by eapply tryMarkInactive_ok, Hp.
  - eapply pools_alike; [exact Hi|done|]. apply pools_insert; [|done]. by eapply tryMarkInactive_ok, Hp.
Qed.

(** ** Claiming and unpublishing *)

Definition is_closing (ups : list UserPool) (p : nat) : Prop := closing <$> ups !! p = Some true.

Definition claimed (c : pc) : list nat := match c with GcClaim _ _ _ removed => removed | _ => [] end.

(** What a collecting goroutine has done so far. *)
Definition claim_ok (ups : list UserPool) (s : option (gmap string nat)) (c : pc) : Prop :=
  match c with
  | GcTry _ _ | Opened | OpenCached => s <> None
  | GcClaim _ _ np removed =>
      exists pools, s = Some pools /\
        (forall u p, np !! u = Some p -> pools !! u = Some p /\ p ∉ removed) /\
        (forall p, p ∈ removed -> is_closing ups p)
  | GcUnlock removed | GcClose removed =>
      forall p, p ∈ removed -> is_closing ups p /\ forall pools u, s = Some pools -> pools !! u <> Some p
  | _ => True
  end.

(** Published pools belong to one user each; one being collected is claimed by
    the goroutine that will unpublish it. *)
Definition published_ok (ups : list UserPool) (l : list pc) (s : option (gmap string nat)) : Prop :=
  forall pools, s = Some pools ->
    (forall u v p, pools !! u = Some p -> pools !! v = Some p -> u = v) /\
    (forall u p, pools !! u = Some p -> is_closing ups p -> exists i c, l !! i = Some c /\ p ∈ claimed c).

Definition gc_ok (ups : list UserPool) (s : option (gmap string nat)) (l : list pc) : Prop :=
  (forall i c, l !! i = Some c -> claim_ok ups s c) /\ published_ok ups l s.

Lemma is_closing_alter ups f p q : (forall x, closing (f x) = closing x) -> is_closing (alter f p ups) q <-> is_closing ups q.
Proof.
  intros Hf. unfold is_closing. destruct (decide (q = p)) as [->|Hne].
  - rewrite list_lookup_alter_eq. destruct (ups !! p); cbn; [by rewrite Hf|done].
  - by rewrite list_lookup_alter_ne.
Qed.

Lemma is_closing_new ups x q : closing x = false -> is_closing (ups ++ [x]) q <-> is_closing ups q.
Proof.
  intros Hx. unfold is_closing. destruct (decide (q < length ups)) as [Hl|Hl]; [by rewrite lookup_app_l|].
  rewrite (proj2 (lookup_ge_None ups q)) by lia. rewrite lookup_app_r by lia.
  destruct (q - length ups) as [|k]; cbn; [by rewrite Hx|done].
Qed.

Lemma claim_ok_closing ups ups' s c :
  (forall p, is_closing ups p -> is_closing ups' p) -> claim_ok ups s c -> claim_ok ups' s c.
Proof.
  intros Hcl. destruct c; cbn; try done.
  - intros (pools & Hs & H1 & H2). exists pools. split_and!; auto.
  - intros H p Hp. destruct (H p Hp). auto.
  - intros H p Hp. destruct (H p Hp). auto.
Qed.

(** A step that leaves the snapshot and the claims as they are. *)
Lemma gc_keep ups ups' s l i c c' : l !! i = Some c -> (forall p, is_closing ups' p <-> is_closing ups p) ->
  claim_ok ups s c' -> claimed c' = claimed c -> gc_ok ups s l -> gc_ok ups' s (<[i := c']> l).
Proof.
  intros Hi Hcl Hc' Hc [H1 H2]. split.
  - intros j d Hd. destruct (decide (j = i)) as [->|Hne].
    + rewrite list_lookup_insert_eq in Hd by (by eapply lookup_lt_Some). injection Hd as <-. by eapply claim_ok_closing; [apply Hcl|].
    + rewrite list_lookup_insert_ne in Hd by done. eapply claim_ok_closing; [apply Hcl|]. by eapply H1.
  - intros pools Hs. destruct (H2 pools Hs) as [Hinj Hpub]. split; [done|]. intros u p Hu Hp.
    destruct (Hpub u p Hu) as (j & d & Hd & Hm); [by apply Hcl|].
    destruct (decide (j = i)) as [->|Hne].
    + exists i, c'. rewrite list_lookup_insert_eq by (by eapply lookup_lt_Some). split; [done|]. congruence.
    + exists j, d. by rewrite list_lookup_insert_ne.
Qed.

(** A step that publishes a new snapshot: nobody else is in the middle of one. *)
Lemma gc_publish ups ups' s pools' l mu i c c' :
  mutex mu l -> mu = None \/ mu = Some i -> valid (length ups) s l -> l !! i = Some c ->
  (forall p, is_closing ups' p <-> is_closing ups p) ->
  (forall u v p, pools' !! u = Some p -> pools' !! v = Some p -> u = v) ->
  (forall u p, pools' !! u = Some p ->
     (exists pools, s = Some pools /\ pools !! u = Some p /\ p ∉ claimed c) \/ p = length ups) ->
  claim_ok ups (Some pools') c' ->
  gc_ok ups s l -> gc_ok ups' (Some pools') (<[i := c']> l).
Proof.
  intros Hmu Hor [Hv _] Hi Hcl Hinj Hpub Hc' [H1 H2].
  assert (Hother : forall j d, j <> i -> l !! j = Some d -> locked d = true -> False).
  { intros j d Hne Hd Hl. assert (mu = Some j) by (apply Hmu; eauto). destruct Hor; congruence. }
  split.
  - intros j d Hd. destruct (decide (j = i)) as [->|Hne].
    + rewrite list_lookup_insert_eq in Hd by (by eapply lookup_lt_Some). injection Hd as <-. by eapply claim_ok_closing; [apply Hcl|].
    + rewrite list_lookup_insert_ne in Hd by done. specialize (H1 j d Hd).
      destruct d; try done; try (by destruct (Hother j _ Hne Hd)). cbn in *. intros p Hp.
      destruct (H1 p Hp) as [Hclo Hun]. split; [by apply Hcl|]. intros ps u [= <-] Hu.
      destruct (Hpub u p Hu) as [(pools & Hs & Hps & _)| ->]; [by destruct (Hun pools u Hs)|].
      specialize (Hv j _ _ Hd Hp). lia.
  - intros ps [= <-]. split; [done|]. intros u p Hu Hp%Hcl. destruct (Hpub u p Hu) as [(pools & Hs & Hps & Hn)| ->].
    + destruct (H2 pools Hs) as [_ Hex]. destruct (Hex u p Hps Hp) as (j & d & Hd & Hm).
      destruct (decide (j = i)) as [->|Hne]; [congruence|]. destruct d; try by apply elem_of_nil in Hm.
      by destruct (Hother j _ Hne Hd).
    + unfold is_closing in Hp. by rewrite (proj2 (lookup_ge_None ups _)) in Hp.
Qed.

(** Claiming a pool: it goes from the new map to the removed ones. *)
Lemma is_closing_insert ups p x q : p < length ups -> closing x = true ->
  is_closing (<[p := x]> ups) q <-> q = p \/ is_closing ups q.
Proof.
  intros Hp Hx. unfold is_closing. destruct (decide (q = p)) as [->|Hne].
  - rewrite list_lookup_insert_eq by done. cbn. rewrite Hx. naive_solver.
  - rewrite list_lookup_insert_ne by done. naive_solver.
Qed.

Lemma gc_claim ups s l i cutoff user cands np removed p x x' :
  l !! i = Some (GcClaim cutoff (user :: cands) np removed) -> np !! user = Some p -> p < length ups ->
  tryMarkInactive cutoff x = (true, x') -> gc_ok ups s l ->
  gc_ok (<[p := x']> ups) s (<[i := GcClaim cutoff cands (delete user np) (removed ++ [p])]> l).
Proof.
  intros Hi Hu Hp Ht [H1 H2].
  assert (Hx : closing x' = true) by (unfold tryMarkInactive in Ht; repeat case_match; by simplify_eq/=).
  pose proof (is_closing_insert ups p x') as Hcl.
  pose proof (H1 i _ Hi) as (pools & Hs & Hnp & Hrem). destruct (H2 pools Hs) as [Hinj Hpub]. split.
  - intros j d Hd. destruct (decide (j = i)) as [->|Hne].
    + rewrite list_lookup_insert_eq in Hd by (by eapply lookup_lt_Some). injection Hd as <-. exists pools.
      split; [done|]. split.
      * intros v q [Hne Hv]%lookup_delete_Some. destruct (Hnp v q Hv) as [Hv' Hq]. split; [done|].
        intros [Hq'| ->%list_elem_of_singleton]%elem_of_app; [done|]. apply Hne. eapply Hinj; [|exact Hv'].
        by apply Hnp.
      * intros q [Hq| ->%list_elem_of_singleton]%elem_of_app; apply Hcl; auto.
    + rewrite list_lookup_insert_ne in Hd by done. eapply claim_ok_closing; [|by eapply H1].
      intros q Hq. apply Hcl; auto.
  - intros ps Hps. rewrite Hs in Hps. injection Hps as <-. split; [done|]. intros v q Hv Hq.
    assert (Hmine : q ∈ removed ++ [p] -> exists j c, (<[i := GcClaim cutoff cands (delete user np) (removed ++ [p])]> l) !! j
                                           = Some c /\ q ∈ claimed c).
    { intros Hin. exists i. eexists. rewrite list_lookup_insert_eq by (by eapply lookup_lt_Some). by split. }
    apply Hcl in Hq as [->|Hq]; [apply Hmine, elem_of_app; right; left| |done|done].
    destruct (Hpub v q Hv Hq) as (j & d & Hd & Hm). destruct (decide (j = i)) as [->|Hne].
    + apply Hmine. rewrite Hi in Hd. injection Hd as <-. by apply elem_of_app; left.
    + exists j, d. by rewrite list_lookup_insert_ne.
Qed.

Definition collected (m : Manager) : Prop := gc_ok (userPools m) (userPoolsSnapshot m) (goroutines m).

Lemma step_gc t i e m m' : gstep t i e m = Some m' -> known m -> mutex (createMu m) (goroutines m) ->
  collected m -> collected m'.
Proof.
  unfold known, collected. intros E. gcases m i E Hi. all: intros Hv Hmu Hg; try done.
  all: try (eapply gc_keep; [exact Hi| | | |exact Hg];
            [intros; first [ by apply is_closing_alter | reflexivity ]|done|done]).
  all: pose proof (proj1 Hg i _ Hi) as Hown.
  - eapply gc_publish; [exact Hmu|by left|exact Hv|exact Hi| | | |done|exact Hg].
    + intros q. by apply is_closing_new.
    + intros u v q [[<- <-]| [Hu Hq]]%lookup_insert_Some [[<- Hq']| [Hv' Hq']]%lookup_insert_Some; try done.
      * apply (proj2 Hv _ v _ eq_refl) in Hq'. lia.
      * apply (proj2 Hv _ u _ eq_refl) in Hq. lia.
      * by eapply (proj2 Hg _ eq_refl).
    + intros u q [[<- <-]| [Hu Hq]]%lookup_insert_Some; [by right|left]. eexists. split_and!; [done|done|by intros ?%elem_of_nil].
  - eapply gc_publish; [exact Hmu|by left|exact Hv|exact Hi| | | |done|exact Hg].
    + intros q. by apply is_closing_alter.
    + intros u v q [_ Hu]%lookup_delete_Some [_ Hw]%lookup_delete_Some. by eapply (proj2 Hg _ eq_refl).
    + intros u q [_ Hu]%lookup_delete_Some. left. eexists. split_and!; [done|done|by intros ?%elem_of_nil].
  - eapply gc_keep; [exact Hi| | | |exact Hg]; [done| |done]. eexists. split; [done|]. split.
    + intros u q Hu. split; [done|by intros ?%elem_of_nil].
    + by intros q ?%elem_of_nil.
  - eapply gc_keep; [exact Hi| | | |exact Hg]; [done| |done]. by intros q ?%elem_of_nil.
  - destruct Hown as (pools & Hs & Hnp & Hrem).
    eapply gc_publish; [exact Hmu|right; apply Hmu; eauto|exact Hv|exact Hi|done| | | |exact Hg].
    + intros u v q Hu%Hnp Hw%Hnp. eapply (proj2 Hg _ Hs); [apply Hu|apply Hw].
    + intros u q Hu%Hnp. left. by exists pools.
    + intros q Hq. split; [auto|]. intros ps u [= <-] Hu%Hnp. by destruct Hu.
  - eapply gc_claim; try done. by eapply lookup_lt_Some.
  - assert (u0 = u) as -> by (unfold tryMarkInactive in *; repeat case_match; by simplify_eq/=).
    rewrite list_insert_id by done. by eapply gc_keep.
  - by eapply gc_keep.
  - by eapply gc_keep.
  - eapply gc_keep; [exact Hi| | | |exact Hg]; [intros; by apply is_closing_alter| |done].
    intros q Hq. apply Hown. by right.
  - eapply gc_publish; [exact Hmu|right; apply Hmu; eauto|exact Hv|exact Hi|done| | |done|exact Hg].
    + intros u v q Hu. by rewrite lookup_empty in Hu.
    + intros u q Hu. by rewrite lookup_empty in Hu.
  - eapply gc_publish; [exact Hmu|by left|exact Hv|exact Hi|done| | |done|exact Hg].
    + intros u v q Hu. by rewrite lookup_empty in Hu.
    + intros u q Hu. by rewrite lookup_empty in Hu.
  - by eapply gc_keep.
Qed.

(** ** The reopen window *)

(** Past a store of the lifecycle or before one, with the wait channel armed. *)
Definition storing (c : pc) : bool := match c with Begun | CloseStored | OpenStored => true | _ => false end.

(** The channel a goroutine has taken to close it. *)
Definition taken (c : pc) : option nat := match c with EndReopen done | OpenEnd done => done | _ => None end.

Definition phase_ok (lc : managerLifecycle) (rd : option nat) (chs : list bool) (c : pc) : Prop :=
  match c with
  | Begun => rd <> None
  | CloseStored | OpenStored => lc <> lifecycleReopening
  | EndReopen done | OpenEnd done => rd = None /\ lc <> lifecycleReopening /\ forall ch, done = Some ch -> chs !! ch = Some false
  | _ => True
  end.

(** What a waiting request waits for. *)
Definition awaited (rd : option nat) (chs : list bool) (l : list pc) (ch : nat) : Prop :=
  chs !! ch = Some true \/ rd = Some ch \/ exists i c, l !! i = Some c /\ taken c = Some ch.

Record reopen_ok (lc : managerLifecycle) (rd : option nat) (chs : list bool) (l : list pc) : Prop := {
  ro_phase : forall i c, l !! i = Some c -> phase_ok lc rd chs c;
  ro_open : forall ch, rd = Some ch -> chs !! ch = Some false;
  ro_armed : lc = lifecycleReopening -> rd <> None;
  ro_window : rd <> None -> lc = lifecycleReopening \/ exists i c, l !! i = Some c /\ storing c = true;
  ro_waiting : forall i ch, l !! i = Some (Waiting ch) -> awaited rd chs l ch }.

Lemma insert_cases (l : list pc) i c c' j d : l !! i = Some c -> <[i := c']> l !! j = Some d ->
  (j = i /\ d = c') \/ (j <> i /\ l !! j = Some d).
Proof.
  intros Hi. destruct (decide (j = i)) as [->|Hne].
  - rewrite list_lookup_insert_eq by (by eapply lookup_lt_Some). intros [= <-]. by left.
  - rewrite list_lookup_insert_ne by done. by right.
Qed.

(** Some goroutine has a property that goroutine [i] keeps. *)
Lemma insert_some (P : pc -> Prop) (l : list pc) i c c' : l !! i = Some c -> (P c -> P c') ->
  (exists j d, l !! j = Some d /\ P d) -> exists j d, <[i := c']> l !! j = Some d /\ P d.
Proof.
  intros Hi Hc (j & d & Hd & HP). destruct (decide (j = i)) as [->|Hne].
  - exists i, c'. rewrite list_lookup_insert_eq by (by eapply lookup_lt_Some). split; [done|]. apply Hc. congruence.
  - exists j, d. by rewrite list_lookup_insert_ne.
Qed.

Lemma reopen_keep lc rd chs l i c c' : l !! i = Some c -> phase_ok lc rd chs c' ->
  storing c' = storing c -> taken c' = taken c -> (forall ch, c' = Waiting ch -> rd = Some ch) ->
  reopen_ok lc rd chs l -> reopen_ok lc rd chs (<[i := c']> l).
Proof.
  intros Hi Hc' Hs Ht Hw [H1 H2 H3 H4 H5].
  assert (Ha : forall ch, awaited rd chs l ch -> awaited rd chs (<[i := c']> l) ch).
  { intros ch [?|[?|Hex]]; [by left|by right; left|]. right. right.
    eapply (insert_some (fun c => taken c = Some ch)); [exact Hi|congruence|done]. }
  split; [|done|done| |].
  - intros j d [[-> ->]| [_ Hd]]%(insert_cases _ _ _ _ _ _ Hi); [done|by eapply H1].
  - intros Hrd. destruct (H4 Hrd) as [?|Hex]; [by left|right].
    eapply (insert_some (fun c => storing c = true)); [exact Hi|congruence|done].
  - intros j ch [[-> Hd]| [_ Hd]]%(insert_cases _ _ _ _ _ _ Hi); [|by eapply Ha, H5]. right. left. by apply Hw.
Qed.

(** A step of the goroutine that holds [createMu], or takes it. *)
Lemma reopen_change lc rd chs lc' rd' chs' l mu i c c' :
  mutex mu l -> mu = None \/ mu = Some i -> l !! i = Some c -> phase_ok lc' rd' chs' c' ->
  (forall ch, rd' = Some ch -> chs' !! ch = Some false) ->
  (lc' = lifecycleReopening -> rd' <> None) ->
  (rd' <> None -> lc' = lifecycleReopening \/ storing c' = true) ->
  (forall ch, chs !! ch = Some true \/ rd = Some ch \/ taken c = Some ch ->
     chs' !! ch = Some true \/ rd' = Some ch \/ taken c' = Some ch) ->
  (forall ch, c' <> Waiting ch) ->
  reopen_ok lc rd chs l -> reopen_ok lc' rd' chs' (<[i := c']> l).
Proof.
  intros Hmu Hor Hi Hc' Hop Har Hwin Hch Hnw [H1 H2 H3 H4 H5].
  assert (Hother : forall j d, j <> i -> l !! j = Some d -> locked d = false).
  { intros j d Hne Hd. destruct (locked d) eqn:Hl; [|done]. assert (mu = Some j) by (apply Hmu; eauto).
    destruct Hor; congruence. }
  assert (Hmine : <[i := c']> l !! i = Some c') by (rewrite list_lookup_insert_eq by (by eapply lookup_lt_Some); done).
  split; [|done|done| |].
  - intros j d [[-> ->]| [Hne Hd]]%(insert_cases _ _ _ _ _ _ Hi); [done|]. specialize (Hother j d Hne Hd). by destruct d.
  - intros Hrd. destruct (Hwin Hrd); [by left|right]. by exists i, c'.
  - intros j ch [[-> Hd]| [_ Hd]]%(insert_cases _ _ _ _ _ _ Hi); [by destruct (Hnw ch)|].
    destruct (Hch ch) as [?|[?|?]]; [|by left|by right; left|by right; right; exists i, c'].
    destruct (H5 j ch Hd) as [?|[?|(k & d & Hk & Ht)]]; [by left|by right; left|]. right. right.
    destruct (decide (k = i)) as [->|Hne]; [congruence|]. specialize (Hother k d Hne Hk). by destruct d.
Qed.

Definition window (m : Manager) : Prop := reopen_ok (lifecycle m) (reopenDone m) (chans m) (goroutines m).

Lemma closed_now (rd : option nat) (chs : list bool) n : rd = None /\ (forall ch, Some n = Some ch -> chs !! ch = Some false) ->
  forall ch, chs !! ch = Some true \/ rd = Some ch \/ Some n = Some ch ->
  <[n := true]> chs !! ch = Some true \/ rd = Some ch \/ None = Some ch.
Proof.
  intros [Hrd Hn] ch Hch. left. destruct (decide (ch = n)) as [->|Hne].
  - rewrite list_lookup_insert_eq; [done|]. eapply lookup_lt_Some. by apply Hn.
  - rewrite list_lookup_insert_ne by done. destruct Hch as [?|[?|?]]; congruence.
Qed.

Lemma step_window t i e m m' : gstep t i e m = Some m' -> mutex (createMu m) (goroutines m) -> window m -> window m'.
Proof.
  unfold window. intros E. gcases m i E Hi. all: intros Hmu Hw; try done.
  all: try (eapply reopen_keep; [exact Hi| | | | |exact Hw]; [done|done|done|intros ? [= ]; by subst]).
  all: pose proof (ro_phase _ _ _ _ Hw i _ Hi) as Hown; cbn [phase_ok] in Hown.
  all: try (eapply reopen_change; [exact Hmu|first [ by left | right; apply Hmu; eauto ]|exact Hi|..|exact Hw];
            cbn [phase_ok storing taken]).
  all: pose proof (ro_open _ _ _ _ Hw) as Hop; pose proof (ro_armed _ _ _ _ Hw) as Har;
       pose proof (ro_window _ _ _ _ Hw) as Hwin.
  all: try done; try congruence; try (by split); try (intros; congruence); try (intros; intuition congruence).
  - intros ch [= <-]. by rewrite lookup_app_r, Nat.sub_diag.
  - intros ch [Hc|[?|?]]; [left|done|done]. rewrite lookup_app_l; [done|]. by eapply lookup_lt_Some.
  - apply closed_now; naive_solver.
  - apply closed_now; naive_solver.
Qed.

(** ** The invariant of every run *)

Record Inv (m : Manager) : Prop := {
  inv_known : known m;
  inv_mutex : mutex (createMu m) (goroutines m);
  inv_pools : pools_ok (userPools m) (goroutines m);
  inv_collected : collected m;
  inv_window : window m;
  inv_live : lifecycle m = lifecycleRunning -> userPoolsSnapshot m <> None }.

Lemma step_live t i e m m' : gstep t i e m = Some m' -> collected m ->
  (lifecycle m = lifecycleRunning -> userPoolsSnapshot m <> None) ->
  lifecycle m' = lifecycleRunning -> userPoolsSnapshot m' <> None.
Proof.
  unfold collected. intros E. gcases m i E Hi. all: intros Hg Hl; try done.
  intros _. by apply (proj1 Hg i _ Hi).
Qed.

Lemma step_Inv t i e m m' : gstep t i e m = Some m' -> Inv m -> Inv m'.
Proof.
  intros E []. split; eauto using step_known, step_mutex, step_pools, step_gc, step_window, step_live.
Qed.

(** ** The settings cache *)

(** A running manager has been opened, so its cache is there. *)
Definition cached (m : Manager) : Prop :=
  (lifecycle m = lifecycleRunning -> settingsCache m = true) /\
  forall i, goroutines m !! i = Some OpenCached -> settingsCache m = true.

Lemma step_cached t i e m m' : gstep t i e m = Some m' -> cached m ->
  cached m' /\ (settingsCache m = true -> settingsCache m' = true).
Proof.
  unfold cached. intros E. gcases m i E Hi. all: intros [Hl Ho]; repeat split; try done.
  all: try (by intros _; apply (Ho i)).
  all: intros j; destruct (decide (j = i)) as [->|Hne];
    rewrite ?list_lookup_insert_ne by done; rewrite ?list_lookup_insert_eq by (by eapply lookup_lt_Some); try done.
  all: first [by apply Ho|by repeat case_match|idtac].
Qed.

(** The one step that panics: a request with settings, while the cache is nil. *)
Definition needs_cache (m : Manager) (i : nat) : Prop :=
  settingsCache m = false /\ exists user, goroutines m !! i = Some (WithSettings user).

Lemma step_panics t i e m : Inv m -> gstep t i e m = None <-> needs_cache m i.
Proof.
  intros [[Hv1 Hv2] Hmu Hp [Hg _] Hw Hl]. split;
    [|intros [Hc [user Hi]]; unfold gstep; rewrite Hi; cbn; by rewrite Hc].
  intros E. unfold gstep in E. destruct (goroutines m !! i) as [c|] eqn:Hi; [|done].
  pose proof (fun p => Hv1 i c p Hi) as Hmine. pose proof (Hg i c Hi) as Hown.
  pose proof (ro_phase _ _ _ _ Hw i c Hi) as Hph.
  assert (Hex : forall p, p < length (userPools m) -> userPools m !! p <> None).
  { intros p Hlt Hn. apply lookup_ge_None in Hn. lia. }
  destruct c; cbv beta iota delta [lookup_step acquire_step closed_step gc_step close_step open_step] in E;
  unfold createUserPoolSlow, close_reopen in E; repeat case_match; simplify_eq/=; try done.
  all: first [by split; [|exists user]|exfalso].
  all: try (by apply (Hex p); [apply Hmine; left|done]).
  - by apply Hl.
  - eapply Hex; [apply Hmine|done]. apply elem_of_app. left. by eapply elem_values.
  - unfold ch_closed in *. destruct Hph as (_ & _ & Hch). rewrite (Hch _ eq_refl) in *. done.
  - unfold ch_closed in *. destruct Hph as (_ & _ & Hch). rewrite (Hch _ eq_refl) in *. done.
Qed.

Lemma run_Inv t sched m m' : grun t sched m = Some m' -> Inv m -> cached m -> Inv m' /\ cached m'.
Proof.
  unfold grun. revert m. induction sched as [|[i e] sched IH]; intros m; [by intros [= ->]|].
  cbn [foldl mbind option_bind fst snd]. destruct (gstep t i e m) as [m1|] eqn:E.
  - intros Hr H Hc. eapply IH; [exact Hr|by eapply step_Inv|by eapply step_cached].
  - intros Hr. exfalso. clear -Hr. induction sched as [|ev sched IH]; [done|]. by apply IH.
Qed.

Lemma run_opened t sched m : Inv m -> cached m -> settingsCache m = true -> exists m', grun t sched m = Some m'.
Proof.
  unfold grun. revert m. induction sched as [|[i e] sched IH]; intros m H Hc Hs; [by exists m|].
  cbn [foldl mbind option_bind fst snd]. destruct (gstep t i e m) as [m1|] eqn:E.
  - destruct (step_cached _ _ _ _ _ E Hc) as [? ?]. apply IH; [by eapply step_Inv|done|auto].
  - apply step_panics in E as [? _]; [congruence|done].
Qed.

Lemma idle_all n i c : replicate n Idle !! i = Some c -> c = Idle.
Proof. by intros [-> _]%lookup_replicate. Qed.

Lemma NewManager_Inv n : Inv (NewManager n).
Proof.
  split; unfold known, collected, window; cbn.
  - split; [|done]. intros i c p ->%idle_all Hp. by apply elem_of_nil in Hp.
  - intros i. split; [done|]. by intros (c & ->%idle_all & ?).
  - by intros p x Hx.
  - split; [|done]. by intros i c ->%idle_all.
  - split; try done; [by intros i c ->%idle_all|by intros i ch Hc%idle_all].
  - done.
Qed.

Lemma manager_cached t n sched m : grun t sched (NewManager n) = Some m -> Inv m /\ cached m.
Proof. intros E. eapply run_Inv; [exact E|apply NewManager_Inv|]. split; [done|]. by intros i Hi%idle_all. Qed.

Lemma manager_reached t n sched m : grun t sched (NewManager n) = Some m -> Inv m.
Proof. apply manager_cached. Qed.

Lemma step_closing t i e m m' p : gstep t i e m = Some m' -> is_closing (userPools m) p -> is_closing (userPools m') p.
Proof.
  intros E. gcases m i E Hi. all: intros Hc; try done.
  all: try (by apply is_closing_alter).
  - by apply is_closing_new.
  - unfold tryMarkInactive in *. repeat case_match; simplify_eq/=. by apply is_closing_insert; [eapply lookup_lt_Some|..|right].
  - assert (u0 = u) as -> by (unfold tryMarkInactive in *; repeat case_match; by simplify_eq/=).
    by rewrite list_insert_id.
Qed.

Lemma run_closing t sched m m' p : grun t sched m = Some m' -> is_closing (userPools m) p -> is_closing (userPools m') p.
Proof.
  unfold grun. revert m. induction sched as [|[i e] sched IH]; intros m; [by intros [= ->]|].
  cbn [foldl mbind option_bind fst snd]. destruct (gstep t i e m) as [m1|] eqn:E.
  - intros Hr Hc. eapply IH; [exact Hr|]. by eapply step_closing.
  - intros Hr. exfalso. clear -Hr. induction sched as [|ev sched IH]; [done|]. by apply IH.
Qed.

Lemma closing_unused t n sched m p x : grun t sched (NewManager n) = Some m ->
  userPools m !! p = Some x -> closing x = true ->
  borrowed x = 0 /\ forall i c, goroutines m !! i = Some c -> past_check p c = false.
Proof.
  intros E Hx Hc. destruct (manager_reached _ _ _ _ E) as [_ _ Hp _ _ _]. destruct (Hp p x Hx) as [H1 H2 H3].
  specialize (H3 Hc). split; [|intros i c; by apply cnt_none].
  assert (cnt (out p) (goroutines m) <= cnt (past_check p) (goroutines m) + cnt (fun _ => false) (goroutines m)) as Hle.
  { apply cnt_le. intros []; cbn; lia. }
  rewrite (cnt_zero (fun _ => false)) in Hle by done. lia.
Qed.

Lemma grun_app t s1 s2 m m1 m2 : grun t s1 m = Some m1 -> grun t s2 m1 = Some m2 -> grun t (s1 ++ s2) m = Some m2.
Proof. unfold grun. intros E1 E2. by rewrite foldl_app, E1. Qed.

(** ** Theorems *)

(** C24: once opened, the manager never panics.  From every state of every
    interleaving of acquisitions, evictions, garbage collections, [Open]s, [Close]s
    and [CloseForReopen]s on a new manager: exactly one step panics, a request that
    carries settings while the settings cache is still nil (it is until the first
    [Open] makes it, and the request dereferences it before anything else); a
    running manager has its cache; and once the cache is there every further
    interleaving completes, so the manager never dereferences a snapshot that is
    not there, never follows a pool that does not exist, and never closes the
    reopen channel twice. *)
Theorem manager_never_panics : forall t n sched m, grun t sched (NewManager n) = Some m ->
  (forall i e, gstep t i e m = None <->
     settingsCache m = false /\ exists user, goroutines m !! i = Some (WithSettings user)) /\
  (lifecycle m = lifecycleRunning -> settingsCache m = true) /\
  (settingsCache m = true -> forall sched', exists m', grun t sched' m = Some m').
Proof.
  intros t n sched m E. destruct (manager_cached _ _ _ _ E) as [H Hc]. split_and!.
  - intros i e. by apply step_panics.
  - apply Hc.
  - intros Hs sched'. by apply run_opened.
Qed.

(** A request with settings on a manager that no [Open] has reached panics. *)
Theorem settings_before_open_panic user t0 : forall t n,
  grun t [(0, mkEnv t0 (WithSettings user) Connection false); (0, mkEnv t0 Idle Connection false)] (NewManager (S n)) = None.
Proof. reflexivity. Qed.

(** C22: garbage collection spares the pools in use.  In every run, a pool that a
    collection closes is claimed and no longer published; a claimed pool has no
    connection checked out and no acquisition past its check, at that moment and
    ever after; and while nobody holds [createMu] no published pool is claimed, so
    that [createUserPoolSlow] never hands out one. *)
Theorem gc_spares_used_pools : forall t n sched m, grun t sched (NewManager n) = Some m ->
  (forall i removed p, goroutines m !! i = Some (GcClose removed) -> p ∈ removed ->
     is_closing (userPools m) p /\
     forall pools u, userPoolsSnapshot m = Some pools -> pools !! u <> Some p) /\
  (forall p, is_closing (userPools m) p -> forall sched' m', grun t sched' m = Some m' ->
     exists x, userPools m' !! p = Some x /\ borrowed x = 0 /\
       forall i c, goroutines m' !! i = Some c -> past_check p c = false) /\
  (createMu m = None -> forall pools u p, userPoolsSnapshot m = Some pools -> pools !! u = Some p ->
     ~ is_closing (userPools m) p).
Proof.
  intros t n sched m E. destruct (manager_reached _ _ _ _ E) as [_ Hmu _ [Hg Hpub] _ _]. split_and!.
  - intros i removed p Hi Hp. by apply (Hg i _ Hi).
  - intros p Hc sched' m' E'. pose proof (run_closing _ _ _ _ p E' Hc) as Hc'. unfold is_closing in Hc'.
    destruct (userPools m' !! p) as [x|] eqn:Hx; [|done]. injection Hc' as Hc'. exists x. split; [done|].
    by eapply closing_unused; [exact (grun_app _ _ _ _ _ _ E E')|..].
  - intros Hn pools u p Hs Hu Hc. destruct (proj2 (Hpub pools Hs) u p Hu Hc) as (j & d & Hd & Hm).
    destruct d; try (by apply elem_of_nil in Hm).
    assert (createMu m = Some j) by (apply Hmu; eauto). congruence.
Qed.

(** A goroutine opens the manager; another acquires for a user, gives up, and
    collects the pool when it has been idle for long. *)
Definition at_time (t : Z) : env := mkEnv t Idle Failed false.
Definition starts (c : pc) (t : Z) : env := mkEnv t c Failed false.

Definition opening : list (nat * env) :=
  (0, starts OpenLock 0%Z) :: replicate 5 (0, at_time 0%Z).
Definition visit : list (nat * env) :=
  (1, starts (Lookup "alice") 5%Z) :: replicate 6 (1, at_time 5%Z).
Definition collection : list (nat * env) :=
  (1, starts GcScan 900%Z) :: replicate 5 (1, at_time 900%Z).

Lemma gc_spares_used_pools_witness : exists m, grun 100 (opening ++ visit ++ collection) (NewManager 2) = Some m /\
  goroutines m !! 1 = Some (GcClose [0]) /\ is_closing (userPools m) 0 /\
  forall pools u, userPoolsSnapshot m = Some pools -> pools !! u <> Some 0.
Proof.
  eexists. split; [vm_compute; reflexivity|]. split; [reflexivity|].
  refine (proj1 (gc_spares_used_pools 100 2 (opening ++ visit ++ collection) _ _) 1 [0] 0 _ _).
  - vm_compute. reflexivity.
  - reflexivity.
  - left.
Defined.

Lemma manager_never_panics_witness : exists m,
  grun 100 (opening ++ visit) (NewManager 2) = Some m /\ lifecycle m = lifecycleRunning /\
  forall sched', exists m', grun 100 sched' m = Some m'.
Proof.
  eexists. split; [vm_compute; reflexivity|]. split; [reflexivity|].
  refine (proj2 (proj2 (manager_never_panics 100 2 (opening ++ visit) _ _)) _).
  - vm_compute. reflexivity.
  - reflexivity.
Defined.

(** C23: nobody sleeps through the end of a reopen window.  In every run, while the
    manager is reopening there is a channel to wait on; and once it is not and
    nobody holds [createMu], every request that waits for the window finds its
    channel closed, whether an [Open] ended the window or a [Close] did. *)
Theorem reopen_wakes_waiters : forall t n sched m, grun t sched (NewManager n) = Some m ->
  (lifecycle m = lifecycleReopening -> exists ch, reopenDone m = Some ch /\ ch_closed (chans m) ch = false) /\
  (createMu m = None -> lifecycle m <> lifecycleReopening ->
   forall i ch, goroutines m !! i = Some (Waiting ch) -> ch_closed (chans m) ch = true).
Proof.
  intros t n sched m E. destruct (manager_reached _ _ _ _ E) as [_ Hmu _ _ [_ Hop Har Hwin Hwait] _]. split.
  - intros Hl. destruct (reopenDone m) as [ch|]; [|by destruct (Har Hl)]. exists ch. split; [done|].
    unfold ch_closed. by rewrite Hop.
  - intros Hn Hl i ch Hi. unfold ch_closed. rewrite Hn in Hmu.
    assert (Hfree : forall j c, goroutines m !! j = Some c -> locked c = false).
    { intros j c Hj. destruct (locked c) eqn:Hc; [|done]. assert (None = Some j) by (apply Hmu; eauto). done. }
    destruct (Hwait i ch Hi) as [->|[Hrd|(j & c & Hj & Ht)]]; [done| |].
    + destruct Hwin as [?|(j & c & Hj & Hs)]; [congruence|done|]. specialize (Hfree j c Hj). by destruct c.
    + specialize (Hfree j c Hj). by destruct c.
Qed.

(** A request finds the manager closing for a reopen and waits; the [Open] wakes it. *)
Definition reopening : list (nat * env) :=
  (0, starts (CloseLock true) 10%Z) :: replicate 2 (0, at_time 10%Z) ++
  (1, starts (Lookup "alice") 11%Z) :: replicate 4 (1, at_time 11%Z).

Definition reopened : list (nat * env) :=
  replicate 2 (0, at_time 12%Z) ++ (0, starts OpenLock 13%Z) :: replicate 5 (0, at_time 13%Z).

Lemma reopen_wakes_waiters_witness :
  exists m, grun 100 (opening ++ reopening ++ reopened) (NewManager 2) = Some m /\
  goroutines m !! 1 = Some (Waiting 0) /\ ch_closed (chans m) 0 = true.
Proof.
  eexists. split; [vm_compute; reflexivity|]. split; [reflexivity|].
  refine (proj2 (reopen_wakes_waiters 100 2 (opening ++ reopening ++ reopened) _ _) _ _ 1 0 _).
  - vm_compute. reflexivity.
  - reflexivity.
  - discriminate.
  - reflexivity.
Defined.
